(* ===== verification/_CoqProject ===== *)
-Q . S2P
Prelude.v
Text.v
Version.v
Api.v
Literal.v
JqValidate.v
Validator.v
Value.v
Runner.v
Accessor.v
Component.v
PodQuerier.v
Sort.v
Summary.v
Gang.v
Tree.v
Store.v
StoreHeap.v
Discovery.v
Otel.v
LabelResolver.v
Catalog.v
Wasm.v
Verify.v
Samples.v
Inventory.v
CliDefinitions.v
CliOwners.v
CliDescribe.v
CliGenerator.v
CliGet.v
CliFlags.v
CliCommands.v
Flag.v
Updates.v
ImageLock.v
Release.v
Operator.v
ControllerState.v
ControllerSources.v
ControllerReconcile.v
ExporterConfig.v
ExporterProcess.v
InventoryRun.v
ExporterBootstrap.v
ControllerInvariant.v
ControllerSteps.v
ControllerBoard.v
ControllerReach.v
ControllerSettle.v
ControllerSample.v
Kartas.v
Builtin.v
Recorder.v
OperatorProcess.v
ExampleController.v
ExampleQuickstart.v
