(* ===== verification/Prelude.v ===== *)
(** * Workload-Map (Karta): a model of the program and its correctness

    ** The program

    A Karta is a custom resource that describes a kind of Kubernetes workload:
    its components and which of them owns which, where their pod templates,
    scale and status are found (as jq paths), and how their pods are to be
    grouped.  The Go module [karta/sdk] interprets a Karta against a workload
    object and carries a catalog of built-in Kartas.  [operator] admits Kartas and
    reports their status.  [dsx-workload-exporter] watches a cluster, resolves
    every pod to its root workload, evaluates Kartas and custom label rules, and
    publishes metrics.  [cli] is the command [kli]: it lists and describes the
    workloads of a cluster.  [karta-wasm] offers the SDK to a browser, and the
    tools under [hack] check and lock what a release ships.

    ** The development

    Shared:
    - [Text], [Flag]: what the code uses of Go's [strings], [regexp] and [flag];
      a pattern is a syntax tree, its matcher proved against a relation.
      [Version] ([karta/sdk/pkg/version]): the version that is reported.
    - [Prelude]: Go errors as a tree of wrapped causes, the result type of
      fallible functions, the state-and-error monad [M] of methods that may
      mutate what they hold, 32-bit integers.
    - [Api]: the custom resource ([pkg/api/runai/v1alpha1/types.go],
      [structure.go], [instructions.go]); [Literal]: composite literals of it.
    - [Value]: dynamic values, JSON, the conversions between them.

    Checking a Karta:
    - [JqValidate] ([pkg/jq/validation.go]): the read-only check of the jq
      expressions, as a walk over a syntax tree, and the reflection walk that
      finds the expressions of a Karta.
    - [Validator] ([pkg/api/runai/v1alpha1/validation.go]): the structural check;
      [Validator.wf_structure] says declaratively what it accepts.

    Reading and writing a workload:
    - [Runner] ([pkg/jq/execution/*.go]): the interface [Runner] with its laws
      [RunnerLaws], the implementation over gojq, and a table-driven instance.
    - [Accessor] ([pkg/resource/accessor.go]): extraction, update, suspend and
      resume, status; generic in a [Runner], it implements [ComponentAccessor].
    - [Component] ([pkg/resource/component.go], [component_factory.go]): values
      by instance id and the factory, over the laws [ComponentAccessorLaws].
    - [PodQuerier] ([pkg/resource/pod_querier.go]): selectors, filters, group
      keys, quoting.

    Structure:
    - [Sort]: what the code relies on of Go's sorting functions, as an interface
      with insertion sort as an instance, and the stable sort.
    - [Summary], [Gang] ([pkg/instructions/*.go]): structure summary, gang
      scheduling, subtree scale, component inference.
    - [Tree] ([pkg/tree/*.go]): the recursive tree of a workload.
    - [Wasm] ([karta-wasm/core/core.go]): the tree of a definition and a workload
      given as JSON texts.
    - [Catalog] ([pkg/catalog/catalog.go]): the definitions by the kind of their
      root; [Kartas] ([pkg/catalog/kartas/*.go]): every built-in definition as the
      literal the source writes; [Builtin]: what holds of all of them.
    - [Verify], [Samples] ([karta/sdk/hack]): a definition run against a workload
      and a prediction; the catalog written as files.

    The operator ([operator/pkg]):
    - [Operator] ([status.go], [controller.go], [eventfilter.go], [cache.go],
      [webhook.go]): admission, the reconciler, the mapping of CRD events; the
      webhooks, the reconciler and the stored Kartas compose into [Operator.step].
    - [OperatorProcess] ([cert.go], [operator/cmd/main.go]): the certificates the
      webhook needs, as steps of two goroutines, the flags, and the order in which
      the parts are set up.

    The exporter ([dsx-workload-exporter/pkg]):
    - [Inventory] ([kartadefinitioninventory/inventory.go]): the definitions to
      select from; a state machine driven by the reflector.
    - [Store] ([store/store.go]): published results, as values; [StoreHeap]: the
      same methods on memory that callers share, where results point to maps and
      slices.  The rest of the exporter uses [Store].
    - [Discovery] ([discovery/*.go]): the walk from an object to its root.
    - [LabelResolver] ([labelresolver/*.go], [labelevaluator/cel.go]): custom
      labels.
    - [Otel] ([adapters/otel/*.go]): one collection of metrics over a capture.
    - [ControllerState] ([controller/state.go]), [ControllerSources]
      ([sources.go]), [ControllerReconcile] ([leaf.go], [root.go], [reader.go],
      [runtime.go]): the state shared by the workers, every method that holds its
      lock as one operation, the handlers as sequences of operations between
      which the others may act.  [ControllerInvariant], [ControllerSteps],
      [ControllerBoard], [ControllerReach] and [ControllerSettle] prove what
      every operation keeps, what every reachable state satisfies, and what a
      finished job has achieved; [ControllerSample] is a cluster to evaluate on.
    - [ExporterConfig] ([config/*.go]), [ExporterBootstrap]
      ([bootstrap/components.go], [cmd/main.go]), [ExporterProcess] ([app/*.go]):
      the configuration, the construction of the parts, and the life of the
      process as steps of its four goroutines.
    - [InventoryRun] ([inventory.go]: [Run], [WaitLoaded]): the goroutines around
      the inventory, which answer for the components [ExporterProcess] leaves
      open; [Serve_with_inventory] puts the two together.

    The command line tool ([cli]):
    - [CliDefinitions] ([pkg/definitions/*.go]): built-in and cluster definitions
      in one lookup, read from the cluster as far as it can be.
    - [CliOwners] ([pkg/workload/owners.go], [pods.go]): the climb over controller
      references with its caches, the pods that belong to a root.
    - [CliDescribe] ([pkg/workload/describe.go], [view.go]): a workload with its
      components, pods, replicas and requested resources.
    - [CliGenerator] ([pkg/generator/*.go]): what is printed.
    - [CliGet], [CliFlags], [CliCommands] ([cmd/*.go]): the commands, their
      arguments, flags, warnings and exit codes.

    The release tools ([hack]):
    - [ImageLock] ([imagelock/main.go]): the images of the chart, their digests
      and the locks written of them.
    - [Release] ([release/main.go]): the checks before publication, and the check
      of the generated Homebrew cask.
    - [Updates] ([operator-updates/*.go]): versions, their order, and the report
      on upstream tags.

    Around the program:
    - [Recorder] ([test/e2e/recorder/*.go]): journeys of a workload, the watch that
      records them, the check of the observed order.
    - [ExampleController], [ExampleQuickstart] ([docs/examples]): a controller and a
      program written against the SDK.

    The interfaces are type classes.  [Accessor] is proved from [RunnerLaws],
    which the implementation in [Runner] discharges; [Component] and [Tree] are
    proved from [ComponentAccessorLaws], which [Accessor] discharges; whatever
    sorts is proved from [Sort.GoSort]; what comes from gojq, CEL, the Kubernetes
    libraries and other packages is a parameter.  Names are those of the source;
    a record field carries a prefix that names its struct.

    ** What the theorems show

    - Validation: the validator accepts exactly the well-formed Kartas, whose
      ownership is a tree, and always ends; an accepted jq expression holds no
      assignment, path update or recursion anywhere in its tree, and every path
      of a Karta is visited.  Every built-in Karta is accepted.
    - Reading and writing: results and their limit, the laws of the runner,
      reading after assigning, conversions, extraction with its errors, 32-bit
      scales, matched statuses, suspension that stops at the first failing
      action, updates that lose nothing, pairing of values with instance ids.
    - Structure: the factory and the summary describe the same tree; candidates
      and effective components for gang scheduling; the scale of a subtree, or of
      one instance's, by scale definitions or by leaves, is the exact number
      whenever that fits in 32 bits, and fails as the first component does; building a tree changes nothing,
      describes the workload, and succeeds whenever the object answers.
    - Operator: what is stored was admitted and carries its index labels in every
      reachable state; the conditions reported follow from the Karta and its CRD;
      a CRD event reaches every Karta it concerns.
    - Operator, process: the certificates are in place and the manager that made
      them has returned before the real one is made; the bootstrap ends; nothing
      is started before everything is set up.
    - Exporter, components: lookups elect the oldest Karta of the cluster, else
      the greatest built-in version, and answer only with data listed after the
      last failure; the store of values is a log where the last write to a key
      wins and a capture shows each result once, and the store on shared memory is
      the store of values, whatever callers write later to what they passed in;
      owner resolution ends and yields an
      ownership chain; failures are reported once under the most severe reason;
      the rows collected; label rules.
    - Exporter, controller: memberships, the cache and the watches agree in every
      reachable state; the handlers stay within these states whatever happens
      between their operations; lookups in the cache equal what the watches hold;
      whichever method changes an object of the cache, its root and every pod
      registered under it wait to be reconciled; a job that returns
      without error has published from inputs that are current, or withdrawn.
    - Exporter, process: flags over environment over file over defaults; kinds
      survive being written and read; construction stops at the first failure;
      serving ends once asked to, no goroutine outlives it, and the collector is
      unregistered before the provider is shut down.
    - Command line: a lookup elects one definition or reports the ambiguity; the
      climb with caches equals the climb without and asks for each thing once;
      a description is of the object named, each row lists exactly the pods its
      component claims, and every pod of a workload is shown or counted as lost; totals, rows and
      limits lose no request; every object listed is shown, filtered, owned by
      another or named in a warning; exit codes follow the kind of failure.
    - Release tools: no image outside the known ones is locked, one reference for
      each name, and every lock pins it to the digest that the registry gave for
      its platform; a cask that is accepted installs what was built, on
      every platform; the order of versions is the order of their numbers and the
      tag reported is the greatest.
    - Tools and examples: predictions match exactly when every declared value was
      extracted; the order check of the recorder accepts exactly the legal walks;
      a run succeeds only if all its actions were performed in order; a
      reconciliation of the example settles.

    ** Fuel

    Recursions that are not structural carry fuel, and each has a theorem that
    the fuel given is never used up: the ownership walk of the validator runs
    with one step per component and one more ([Validator.followOwners_total]);
    the candidates, subtree scale and tree recursions run over a well-formed
    structure, whose depth the number of components bounds; the owner walk of
    the exporter stops by itself after 1024 owners and is given 1025 turns; the
    climb of the command line stops after [CliOwners.maxOwnerDepth] links; the
    arguments of [Updates] are read with one turn per argument; the reader of a
    recording is run for one turn more than there are events.  An execution of
    jq is a stream that may be infinite: the collecting loop is shown to end by
    its limit.  Serving is a step relation that a measure bounds.

    ** Assumptions and simplifications

    - Parameters, each with concrete instances for the witnesses: the gojq
      parser, compiler and interpreter; the CEL engine; the Kubernetes structs
      and their JSON directions; [ParseGroupVersion], the predicates on API
      errors, the printing of a kind; the text of an action's JSON value; YAML,
      encoders, the tab writer, quantities, durations and rounding to [float32];
      API clients, HTTP and Prometheus servers, viper and cobra; helm, git and
      the image registry; [sort.Slice] and the like, through their contract.
    - What is asked of the outside (API server, mapper, inventory, discovery,
      label rules) is answered by turn: the answer may differ at every call.
      The mapper and the lists of one run of [kli] are asked for each thing once.
    - A timeout is an error of the jq stream.  In the exporter a context is the
      sequence of answers it gives when polled, or is cancelled with its
      descendants in one step.
    - Syntax trees of gojq have no unexported fields and no interfaces, so the
      reflection walk needs no case for them.
    - Go maps are finite maps.  Where the code ranges over a map the model uses
      one fixed order, that of [map_to_list].
    - A method that runs under a lock is one step of its component.  Work queues
      are the sets of keys that wait in them; rate limits and delays are left
      out.  Before each locked operation of a handler the state may have changed
      by any operation of the others.
    - The API server of the operator stores what its webhooks admit and nothing
      else ([Operator.step]); paged lists end.
    - Case folding is that of ASCII.  Double quotes in texts are written as
      single ones.
    - Logging and error texts beyond format and arguments are left out.

    ** Not modelled

    Generated code: deep copies, whose results are the values themselves, and
    mocks.  The conversions to JavaScript values around [Wasm]; the registration
    of instruments with OpenTelemetry and of commands and flags with cobra; what
    the rotator, the managers and the HTTP servers do once started; custom
    resources that only tests use and the test cases themselves; the Headlamp
    plugin and the charts, which are not Go. *)

From stdpp Require Export strings gmap list fin_maps sorting.
From Stdlib Require Export ZArith Lia.

#[global] Set Default Goal Selector "!".

(** ** Go errors

    The program builds errors in three ways: [fmt.Errorf] (with or without
    [%w] operands) and [errors.Join], package-level sentinel variables made by
    [errors.New], and declared error types.  An error is kept as the format
    and its arguments rather than the rendered text: the code never inspects
    the text, it only walks the wrapping tree with [errors.Is] and
    [errors.As]. *)

Inductive arg :=
  | AStr (s : string)
  | ANat (n : nat)
  | AInt (z : Z)
  | AStrs (l : list string).

Inductive error :=
  | Errorf (fmt : string) (args : list arg) (wrapped : list error)
  | Sentinel (name : string)
  | DefinitionNotFoundError (fmt : string) (args : list arg)
  | InstanceNotFoundError (fmt : string) (args : list arg)
  | JQParseError (expression : string) (err : error)
  | JQCompileError (expression : string) (err : error)
  | JQExecutionError (expression : string) (err : error)
  | ApiStatus (reason : string) (message : string)
  | External (tag : string).

(** [errors.Join(errs...)]: nil for no error. *)
Definition errors_Join (errs : list error) : option error :=
  match errs with
  | [] => None
  | _ => Some (Errorf "" [] errs)
  end.

(** One walk of the wrapping tree serves [errors.Is] (equality with a
    sentinel) and [errors.As] (the type of the error value). *)
Fixpoint error_any (p : error → bool) (e : error) : bool :=
  p e ||
  match e with
  | Errorf _ _ ws => existsb (error_any p) ws
  | JQParseError _ e' | JQCompileError _ e' | JQExecutionError _ e' => error_any p e'
  | _ => false
  end.

Definition errors_Is (name : string) : error → bool :=
  error_any (λ e, match e with Sentinel n => bool_decide (n = name) | _ => false end).

(** ** Fallible computations *)

Inductive result (A : Type) :=
  | Ok (a : A)
  | Fail (e : error).
Arguments Ok {A} a.
Arguments Fail {A} e.

#[export] Instance result_ret : MRet result := @Ok.
#[export] Instance result_bind : MBind result :=
  λ A B f m, match m with Ok a => f a | Fail e => Fail e end.
#[export] Instance result_fmap : FMap result :=
  λ A B f m, match m with Ok a => Ok (f a) | Fail e => Fail e end.

Definition is_ok {A} (m : result A) : bool :=
  match m with Ok _ => true | Fail _ => false end.

(** [if err != nil { return nil, wrap(err) }] *)
Definition map_error {A} (w : error → error) (m : result A) : result A :=
  match m with Ok a => Ok a | Fail e => Fail (w e) end.

(** A Go function [func(...) error]. *)
Definition err_result (o : option error) : result () :=
  match o with None => Ok () | Some e => Fail e end.

(** Loop [for _, x := range l { y, err := f(x); if err != nil { return err }; ... }]. *)
Fixpoint mapR {A B} (f : A → result B) (l : list A) : result (list B) :=
  match l with
  | [] => Ok []
  | x :: l' => match f x with
               | Fail e => Fail e
               | Ok y => match mapR f l' with
                         | Fail e => Fail e
                         | Ok ys => Ok (y :: ys)
                         end
               end
  end.

Section result_lemmas.
Context {A B : Type}.
Implicit Types (m : result A) (f : A → result B) (l : list A).

Lemma result_bind_Ok f m b :
  m ≫= f = Ok b ↔ ∃ a, m = Ok a ∧ f a = Ok b.
Proof. destruct m; naive_solver. Qed.

Lemma map_error_Ok w m a : map_error w m = Ok a ↔ m = Ok a.
Proof. destruct m; naive_solver. Qed.

Lemma mapR_Ok f l (k : list B) : mapR f l = Ok k ↔ Forall2 (λ x y, f x = Ok y) l k.
Proof.
  revert k. induction l as [|x l IH]; intros k; simpl.
  - split; [intros [= <-]; constructor | intros H; by inversion H].
  - split.
    + destruct (f x) eqn:E; [|done]. destruct (mapR f l) eqn:E'; [|done].
      intros [= <-]. constructor; [done|]. by apply IH.
    + intros H. inversion H as [|?? ? ? Hx Hl]; subst. rewrite Hx.
      apply IH in Hl. by rewrite Hl.
Qed.

Lemma mapR_length f l (k : list B) : mapR f l = Ok k → length k = length l.
Proof. intros H%mapR_Ok. by apply Forall2_length in H. Qed.

Lemma mapR_Fail f l e : mapR f l = Fail e → ∃ x, x ∈ l ∧ f x = Fail e.
Proof.
  induction l as [|x l IH]; simpl; [done|].
  destruct (f x) eqn:E.
  - destruct (mapR f l); [done|]. intros [= <-].
    destruct IH as (y & ? & ?); [done|]. exists y. set_solver.
  - intros [= <-]. exists x. set_solver.
Qed.
End result_lemmas.

(** The same loop over the values of a map. *)
Definition map_sequence {K A} `{Countable K} (m : gmap K (result A)) : result (gmap K A) :=
  map_fold (λ k r acc, a ← r; m' ← acc; Ok (<[k := a]> m')) (Ok ∅) m.

Definition sequence {A} : list (result A) → result (list A) := mapR id.

Lemma sequence_Ok {A} (l : list (result A)) k : sequence l = Ok k ↔ l = Ok <$> k.
Proof.
  unfold sequence. rewrite mapR_Ok. split.
  - induction 1 as [|x y l k E _ IH]; [done|]. unfold id in E. by rewrite E, IH.
  - intros ->. induction k; constructor; done.
Qed.

Lemma sequence_fmap {A B} (f : A → result B) l : sequence (f <$> l) = mapR f l.
Proof. unfold sequence. induction l as [|x l IH]; [done|]. cbn in *. by rewrite IH. Qed.

Lemma map_sequence_Ok {K A} `{Countable K} (m : gmap K (result A)) m' :
  map_sequence m = Ok m' ↔ m = Ok <$> m'.
Proof.
  unfold map_sequence. revert m'.
  induction m as [|k r m Hk Hfirst IH] using map_first_key_ind; intros m'.
  - rewrite map_fold_empty. split; [by intros [= <-]|].
    intros He. symmetry in He. apply fmap_empty_inv in He. by subst.
  - rewrite map_fold_insert_first_key by done. split.
    + intros (a & -> & (m0 & Hm0 & [= <-])%result_bind_Ok)%result_bind_Ok.
      apply IH in Hm0. subst m. by rewrite fmap_insert.
    + intros E. assert (Hr : (Ok <$> m') !! k = Some r) by (by rewrite <- E, lookup_insert_eq).
      rewrite lookup_fmap in Hr. destruct (m' !! k) as [a|] eqn:Ha; [|done].
      injection Hr as <-.
      assert (Hm : m = Ok <$> delete k m').
      { rewrite fmap_delete, <- E, delete_insert_id; done. }
      apply IH in Hm. rewrite Hm. cbn. f_equal. by apply insert_delete_id.
Qed.

(** ** Stateful fallible computations

    A method that may mutate the object a runner holds, and may fail.  A
    failing call still returns the state it reached. *)

Definition M (S A : Type) : Type := S → result A * S.

#[export] Instance M_ret {S} : MRet (M S) := λ A a s, (Ok a, s).
#[export] Instance M_bind {S} : MBind (M S) := λ A B f m s,
  match m s with
  | (Ok a, s') => f a s'
  | (Fail e, s') => (Fail e, s')
  end.

Definition fail {S A} (e : error) : M S A := λ s, (Fail e, s).
Definition lift {S A} (m : result A) : M S A := λ s, (m, s).

(** Compute from the state, and replace the state unless that fails. *)
Definition gets {S A} (f : S → result A) : M S A := λ s, (f s, s).
Definition modify {S} (f : S → result S) : M S () := λ s,
  match f s with Ok s' => (Ok (), s') | Fail e => (Fail e, s) end.

(** Wrap the error of a computation. *)
Definition wrap {S A} (w : error → error) (m : M S A) : M S A := λ s,
  match m s with (r, s') => (map_error w r, s') end.

(** [x, err := m; if err != nil { ...h... }] where the handler may recover. *)
Definition catch {S A} (m : M S A) (h : error → M S A) : M S A := λ s,
  match m s with
  | (Ok a, s') => (Ok a, s')
  | (Fail e, s') => h e s'
  end.

(** The outcome as a value, for code that inspects [err]. *)
Definition attempt {S A} (m : M S A) : M S (result A) := λ s,
  match m s with (r, s') => (Ok r, s') end.

Fixpoint mapM {S A B} (f : A → M S B) (l : list A) : M S (list B) :=
  match l with
  | [] => mret []
  | x :: l' => f x ≫= λ y, mapM f l' ≫= λ ys, mret (y :: ys)
  end.

(** ** States as logs

    What is read of a state after a sequence of operations, when every operation
    either overwrites it ([Some]) or leaves it alone ([None]): the last write
    wins. *)

Section last_write.
Context {S Op A : Type} (step : S → Op → S) (init : S).
Context (write : Op → option (option A)) (read : S → option A).

Definition last_write (ops : list Op) : option A := mjoin (last (omap write ops)).

(** It is enough that the reading obeys the writes in the states at hand. *)
Lemma foldl_last_write_inv (P : S → Prop) ops :
  P init → (∀ s op, P s → P (step s op)) →
  read init = None → (∀ s op, P s → read (step s op) = default (read s) (write op)) →
  read (foldl step init ops) = last_write ops.
Proof.
  intros HP HPstep Hinit Hstep. unfold last_write.
  assert (Hops : P (foldl step init ops) ∧ read (foldl step init ops) = mjoin (last (omap write ops))); [|apply Hops].
  induction ops as [|op ops [IHP IH]] using rev_ind; [done|].
  rewrite foldl_snoc. split; [by apply HPstep|].
  rewrite Hstep, omap_app, last_app, IH by done. cbn [omap list_omap].
  destruct (write op) as [w|]; cbn; [done|]. by destruct (omap write ops).
Qed.

Lemma foldl_last_write ops :
  read init = None → (∀ s op, read (step s op) = default (read s) (write op)) →
  read (foldl step init ops) = last_write ops.
Proof. intros Hinit Hstep. by apply (foldl_last_write_inv (λ _, True)). Qed.
End last_write.

Lemma last_omap_elem {A B} (f : A → option B) l b :
  last (omap f l) = Some b → ∃ a, a ∈ l ∧ f a = Some b.
Proof. intros H%last_Some_elem_of. by apply list_elem_of_omap in H. Qed.

(** ** Machine integers *)

Definition int32_min : Z := (- 2 ^ 31)%Z.
Definition int32_max : Z := (2 ^ 31 - 1)%Z.
Definition in_int32 (z : Z) : bool := (int32_min <=? z)%Z && (z <=? int32_max)%Z.

(** The value an [int32] expression takes: reduced into the 32-bit range. *)
Definition wrap32 (z : Z) : Z := ((z + 2 ^ 31) mod 2 ^ 32 - 2 ^ 31)%Z.

Section int32_lemmas.
Local Open Scope Z_scope.

Lemma in_int32_spec z : in_int32 z = true ↔ int32_min ≤ z ≤ int32_max.
Proof. unfold in_int32. rewrite andb_true_iff, !Z.leb_le. lia. Qed.

Lemma wrap32_range z : int32_min ≤ wrap32 z ≤ int32_max.
Proof.
  unfold wrap32, int32_min, int32_max.
  pose proof (Z.mod_pos_bound (z + 2 ^ 31) (2 ^ 32) ltac:(lia)). lia.
Qed.

Lemma wrap32_id z : int32_min ≤ z ≤ int32_max → wrap32 z = z.
Proof.
  unfold wrap32, int32_min, int32_max. intros H.
  rewrite Z.mod_small by lia. lia.
Qed.

Lemma wrap32_add_l a b : wrap32 (wrap32 a + b) = wrap32 (a + b).
Proof.
  unfold wrap32. f_equal.
  replace ((a + 2 ^ 31) mod 2 ^ 32 - 2 ^ 31 + b + 2 ^ 31)
    with ((a + 2 ^ 31) mod 2 ^ 32 + b) by lia.
  rewrite Z.add_mod_idemp_l by lia. f_equal. lia.
Qed.

Lemma wrap32_add_r a b : wrap32 (a + wrap32 b) = wrap32 (a + b).
Proof. rewrite Z.add_comm, wrap32_add_l, Z.add_comm. done. Qed.
End int32_lemmas.

#[export] Hint Resolve wrap32_range : core.
