(* ===== verification/Text.v ===== *)
(** * Text: strings and regular expressions of the Go library

    The functions of [strings] the release tools call, and [regexp]: patterns as
    a syntax tree, matched by backtracking with the priorities of the library
    (leftmost match, first alternative, longest repetition), submatches included.
    Patterns of the program hold no multi-byte character, so matching bytes
    equals matching runes.  [derives] says declaratively what a pattern matches;
    [run] finds a derivation exactly when there is one the rest accepts. *)

From S2P Require Import Prelude.
From Stdlib Require Import Ascii.

(** ** strings *)

Abbreviation chars := (list ascii).
Abbreviation chars_of := String.list_ascii_of_string.
Abbreviation string_of := String.string_of_list_ascii.

Definition newline_char : ascii := "010".
Definition double_quote_char : ascii := "034".

Definition quote (s : string) : string := String double_quote_char (s +:+ String double_quote_char "").

Definition CutPrefix (s prefix : string) : string * bool :=
  if String.prefix prefix s then (String.substring (String.length prefix) (String.length s) s, true)
  else (s, false).

Definition TrimPrefix (s prefix : string) : string := (CutPrefix s prefix).1.

Definition CutSuffix (s suffix : string) : string * bool :=
  let n := String.length s - String.length suffix in
  if bool_decide (s = String.substring 0 n s +:+ suffix) then (String.substring 0 n s, true) else (s, false).

Definition HasSuffix (s suffix : string) : bool := (CutSuffix s suffix).2.

(** [strings.Cut(s, sep)] *)
Fixpoint cut (sep s : chars) : option (chars * chars) :=
  if bool_decide (sep `prefix_of` s) then Some ([], drop (length sep) s)
  else match s with
       | [] => None
       | c :: s => (λ '(before, after), (c :: before, after)) <$> cut sep s
       end.

(** The part before the last [sep] and the part after it. *)
Fixpoint cut_last (sep : ascii) (s : chars) : option (chars * chars) :=
  match s with
  | [] => None
  | c :: s => match cut_last sep s with
              | Some (before, after) => Some (c :: before, after)
              | None => if bool_decide (c = sep) then Some ([], s) else None
              end
  end.

(** [strings.Split(s, sep)] for a single byte. *)
Fixpoint split_char (sep : ascii) (s : chars) : list chars :=
  match s with
  | [] => [[]]
  | c :: s => match split_char sep s with
              | [] => []
              | part :: parts => if Ascii.eqb c sep then [] :: part :: parts else (c :: part) :: parts
              end
  end.

(** [strings.Lines] without the line ends: the callers trim them. *)
Definition Lines (s : string) : list string :=
  let lines := split_char newline_char (chars_of s) in
  string_of <$> (if bool_decide (last lines = Some []) then removelast lines else lines).

(** [strings.ReplaceAll] *)
Fixpoint replace_all (fuel : nat) (old new s : chars) : chars :=
  match fuel, s with
  | S fuel, c :: s' => if bool_decide (old `prefix_of` s)
                       then new ++ replace_all fuel old new (drop (length old) s)
                       else c :: replace_all fuel old new s'
  | _, _ => []
  end.

Definition ReplaceAll (s old new : string) : string :=
  let s := chars_of s in string_of (replace_all (length s) (chars_of old) (chars_of new) s).

(** White space as [strings.TrimSpace] knows it, in UTF-8. *)
Definition spaces : list chars :=
  (λ codes : list nat, ascii_of_nat <$> codes) <$>
  [[9]; [10]; [11]; [12]; [13]; [32]; [194; 133]; [194; 160]; [225; 154; 128];
   [226; 128; 128]; [226; 128; 129]; [226; 128; 130]; [226; 128; 131]; [226; 128; 132];
   [226; 128; 133]; [226; 128; 134]; [226; 128; 135]; [226; 128; 136]; [226; 128; 137];
   [226; 128; 138]; [226; 128; 168]; [226; 128; 169]; [226; 128; 175]; [226; 129; 159];
   [227; 128; 128]].

(** Drops the words of [ws] in front; a turn shortens the text, so its length is
    fuel enough. *)
Fixpoint trim (fuel : nat) (ws : list chars) (s : chars) : chars :=
  match fuel with
  | O => s
  | S fuel => match list_find (λ w, w `prefix_of` s) ws with
              | Some (_, w) => trim fuel ws (drop (length w) s)
              | None => s
              end
  end.

Definition trim_front (ws : list chars) (s : chars) : chars := trim (length s) ws s.

Definition trim_space (s : chars) : chars :=
  reverse (trim_front (reverse <$> spaces) (reverse (trim_front spaces s))).

Definition TrimSpace (s : string) : string := string_of (trim_space (chars_of s)).

Fixpoint drop_while (p : ascii → bool) (s : chars) : chars :=
  match s with
  | c :: s' => if p c then drop_while p s' else s
  | [] => []
  end.

(** [strings.TrimRight(s, cutset)] *)
Definition TrimRight (s : string) (cutset : chars) : string :=
  string_of (reverse (drop_while (λ c, existsb (Ascii.eqb c) cutset) (reverse (chars_of s)))).

(** The text up to the first white space. *)
Fixpoint field (s : chars) : chars :=
  match s with
  | [] => []
  | c :: s' => if existsb (λ w, bool_decide (w `prefix_of` s)) spaces then [] else c :: field s'
  end.

(** [strings.Fields(s)[0]], of a text that has a field. *)
Definition first_field (s : string) : string := string_of (field (trim_front spaces (chars_of s))).

(** [strings.Compare], byte by byte. *)
Fixpoint compare_chars (l r : chars) : comparison :=
  match l, r with
  | [], [] => Eq
  | [], _ => Lt
  | _, [] => Gt
  | a :: l, b :: r =>
      match Nat.compare (nat_of_ascii a) (nat_of_ascii b) with Eq => compare_chars l r | o => o end
  end.

(** ** regexp *)

Inductive re :=
  | Empty
  | Look (p : option ascii → option ascii → bool)
  | One (p : ascii → bool)
  | Cat (r1 r2 : re)
  | Alt (r1 r2 : re)
  | Star (r : re)
  | Group (n : nat) (r : re).

Declare Scope re_scope.
Delimit Scope re_scope with re.
Bind Scope re_scope with re.
Infix "⋅" := Cat (at level 40, left associativity) : re_scope.
Infix "∥" := Alt (at level 50, left associativity) : re_scope.

Definition literal (s : string) : re := foldr (λ a r, Cat (One (Ascii.eqb a)) r) Empty (chars_of s).
Definition plus (r : re) : re := Cat r (Star r).
Definition optional (r : re) : re := Alt r Empty.
Definition repeated (n : nat) (r : re) : re := Nat.iter n (Cat r) Empty.

(** [\A] and [^]; [\z] and [$]; [^] and [$] under [(?m)]. *)
Definition begin_text : re := Look (λ b _, bool_decide (b = None)).
Definition end_text : re := Look (λ _ a, bool_decide (a = None)).
Definition begin_line : re := Look (λ b _, match b with None => true | Some c => Ascii.eqb c newline_char end).
Definition end_line : re := Look (λ _ a, match a with None => true | Some c => Ascii.eqb c newline_char end).

Definition in_range (lo hi c : ascii) : bool :=
  (nat_of_ascii lo <=? nat_of_ascii c)%nat && (nat_of_ascii c <=? nat_of_ascii hi)%nat.
Definition is_digit : ascii → bool := in_range "0" "9".
Definition is_lower_hex (c : ascii) : bool := is_digit c || in_range "a" "f" c.
Definition is_alnum (c : ascii) : bool := is_digit c || in_range "A" "Z" c || in_range "a" "z" c.

(** Text captured by the groups, by their number. *)
Abbreviation captures := (gmap nat chars).

Section run.
Context {X : Type}.

Definition continuation := option ascii → chars → captures → option X.

(** Iterations as long as they consume something, and as many as the rest of
    the match allows. *)
Fixpoint star_loop (body : continuation → continuation) (n : nat) (k : continuation) : continuation :=
  λ b s c,
    match n with
    | O => k b s c
    | S n =>
        match body (λ b' s' c', if (length s' <? length s)%nat then star_loop body n k b' s' c' else None) b s c with
        | Some x => Some x
        | None => k b s c
        end
    end.

Fixpoint run (r : re) (k : continuation) : continuation :=
  λ b s c,
    match r with
    | Empty => k b s c
    | Look p => if p b (head s) then k b s c else None
    | One p => match s with
               | a :: s' => if p a then k (Some a) s' c else None
               | [] => None
               end
    | Cat r1 r2 => run r1 (run r2 k) b s c
    | Alt r1 r2 => match run r1 k b s c with Some x => Some x | None => run r2 k b s c end
    | Star r => star_loop (run r) (length s) k b s c
    | Group n r => run r (λ b' s' c', k b' s' (<[n := take (length s - length s') s]> c')) b s c
    end.
End run.

(** The leftmost match: the text in front of it, its groups (the whole match is
    number 0), the character in front of what follows, and what follows. *)
Fixpoint find (r : re) (b : option ascii) (s : chars) : option (chars * captures * option ascii * chars) :=
  match run (Group 0 r) (λ b' s' c', Some (c', b', s')) b s ∅ with
  | Some (c', b', s') => Some ([], c', b', s')
  | None => match s with
            | [] => None
            | a :: s => (λ '(front, c', b', s'), (a :: front, c', b', s')) <$> find r (Some a) s
            end
  end.

Definition MatchString (r : re) (s : string) : bool :=
  match find r None (chars_of s) with Some _ => true | None => false end.

(** A group that took no part in the match is the empty text. *)
Definition submatch (c : captures) (n : nat) : string := string_of (default [] (c !! n)).

Definition FindStringSubmatch (r : re) (s : string) : option captures :=
  (λ '(_, c, _, _), c) <$> find r None (chars_of s).

(** The texts between the matches and, of each match, its groups.  Patterns that
    match the empty text have rules of their own in the library; the program
    splits and replaces by none of them. *)
Fixpoint find_all (fuel : nat) (r : re) (b : option ascii) (s : chars) : list (chars * captures) * chars :=
  match fuel with
  | O => ([], s)
  | S fuel =>
      match find r b s with
      | None => ([], s)
      | Some (front, c, b', s') =>
          let '(found, rest) := find_all fuel r b' s' in ((front, c) :: found, rest)
      end
  end.

(** [re.Split(s, -1)] *)
Definition regexp_Split (r : re) (s : string) : list string :=
  let '(found, rest) := find_all (S (String.length s)) r None (chars_of s) in
  string_of <$> (found.*1 ++ [rest]).

(** [re.ReplaceAllString]; the template is a function of the groups. *)
Definition ReplaceAllString (r : re) (s : string) (template : captures → chars) : string :=
  let '(found, rest) := find_all (S (String.length s)) r None (chars_of s) in
  string_of (concat ((λ '(front, c), front ++ template c) <$> found) ++ rest).

(** ** Trimming and cutting *)

Section trimming.
Implicit Types (s w : chars) (ws : list chars).

(** No word of [ws] stands in front of [s]. *)
Definition trimmed ws s : Prop := Forall (λ w, ¬ w `prefix_of` s) ws.

Lemma trim_id fuel ws s : trimmed ws s → trim fuel ws s = s.
Proof.
  intros Ht. destruct fuel as [|fuel]; [done|]. cbn [trim].
  destruct (list_find _ _) as [[i w]|] eqn:E; [|done].
  apply list_find_Some in E as (Hw & Hp & _). apply list_elem_of_lookup_2 in Hw.
  by apply (proj1 (Forall_forall _ _) Ht) in Hw.
Qed.

Lemma trim_suffix fuel ws s : trim fuel ws s `suffix_of` s.
Proof.
  revert s. induction fuel as [|fuel IH]; intros s; [done|]. cbn [trim].
  destruct (list_find _ _) as [[i w]|]; [|done].
  etransitivity; [apply IH|]. exists (take (length w) s). by rewrite take_drop.
Qed.

Lemma trim_trimmed fuel ws s :
  Forall (λ w, w ≠ []) ws → length s ≤ fuel → trimmed ws (trim fuel ws s).
Proof.
  intros Hws. revert s. induction fuel as [|fuel IH]; intros s Hs; cbn [trim].
  - destruct s; [|cbn in Hs; lia]. eapply Forall_impl; [exact Hws|]. intros w Hw Hp. by apply prefix_nil_inv in Hp.
  - destruct (list_find _ _) as [[i w]|] eqn:E.
    + apply IH. apply list_find_Some in E as (Hw & Hp & _). apply list_elem_of_lookup_2 in Hw.
      apply (proj1 (Forall_forall _ _) Hws) in Hw. pose proof (prefix_length _ _ Hp).
      rewrite length_drop. destruct w; [done|]. cbn in *. lia.
    + apply list_find_None in E. exact E.
Qed.

Lemma trimmed_prefix ws s s' : trimmed ws s → s' `prefix_of` s → trimmed ws s'.
Proof.
  intros Ht Hp. eapply Forall_impl; [exact Ht|]. intros w Hw Hw'. apply Hw. by etransitivity.
Qed.

Lemma spaces_nonempty : Forall (λ w, w ≠ []) spaces.
Proof. repeat constructor; done. Qed.

Lemma reverse_spaces_nonempty : Forall (λ w, w ≠ []) (reverse <$> spaces).
Proof. repeat constructor; done. Qed.

Lemma trim_space_trimmed s :
  trimmed spaces (trim_space s) ∧ trimmed (reverse <$> spaces) (reverse (trim_space s)).
Proof.
  unfold trim_space, trim_front. set (u := trim (length s) spaces s). split.
  - apply (trimmed_prefix _ u); [by apply trim_trimmed; [apply spaces_nonempty|]|].
    destruct (trim_suffix (length (reverse u)) (reverse <$> spaces) (reverse u)) as [k E].
    exists (reverse k). by rewrite <- reverse_app, <- E, reverse_involutive.
  - rewrite reverse_involutive. by apply trim_trimmed; [apply reverse_spaces_nonempty|].
Qed.

Lemma trim_space_id s :
  trimmed spaces s → trimmed (reverse <$> spaces) (reverse s) → trim_space s = s.
Proof.
  intros H1 H2. unfold trim_space, trim_front. rewrite (trim_id (length s) spaces s) by done.
  rewrite trim_id by done. apply reverse_involutive.
Qed.

Lemma trim_space_idemp s : trim_space (trim_space s) = trim_space s.
Proof. apply trim_space_id; apply trim_space_trimmed. Qed.

Lemma cut_last_None sep s : cut_last sep s = None ↔ sep ∉ s.
Proof.
  induction s as [|c s IH]; cbn [cut_last]; [split; [intros _; apply not_elem_of_nil|done]|].
  rewrite not_elem_of_cons. destruct (cut_last sep s) as [[a b]|]; [naive_solver|].
  case_bool_decide; naive_solver.
Qed.

Lemma cut_last_Some sep s a b : cut_last sep s = Some (a, b) ↔ s = a ++ sep :: b ∧ sep ∉ b.
Proof.
  revert a. induction s as [|c s IH]; intros a; cbn [cut_last].
  { split; [done|]. intros [E _]. by destruct a. }
  destruct (cut_last sep s) as [[a' b']|] eqn:E.
  - split.
    + intros [= <- <-]. destruct (proj1 (IH a') eq_refl) as [-> ?]. done.
    + intros [Es Hb]. destruct a as [|x a]; cbn in Es.
      { injection Es as -> ->. apply (proj2 (cut_last_None sep b)) in Hb. congruence. }
      injection Es as -> ->. assert (Some (a', b') = Some (a, b)) by (by apply IH). by simplify_eq.
  - apply cut_last_None in E. case_bool_decide as Hc.
    + subst c. split; [by intros [= <- <-]|]. intros [Es Hb]. destruct a as [|x a]; cbn in Es; [by simplify_eq|].
      injection Es as _ ->. exfalso. apply E. apply elem_of_app. right. by left.
    + split; [done|]. intros [Es Hb]. destruct a as [|x a]; cbn in Es; [by simplify_eq|].
      injection Es as _ ->. exfalso. apply E. apply elem_of_app. right. by left.
Qed.
End trimming.

(** ** What a pattern matches *)

Inductive derives : re → option ascii → chars → captures → option ascii → chars → captures → Prop :=
  | derives_Empty b s c : derives Empty b s c b s c
  | derives_Look p b s c : p b (head s) = true → derives (Look p) b s c b s c
  | derives_One p b a s c : p a = true → derives (One p) b (a :: s) c (Some a) s c
  | derives_Cat r1 r2 b s c b1 s1 c1 b' s' c' :
      derives r1 b s c b1 s1 c1 → derives r2 b1 s1 c1 b' s' c' → derives (Cat r1 r2) b s c b' s' c'
  | derives_Alt_l r1 r2 b s c b' s' c' : derives r1 b s c b' s' c' → derives (Alt r1 r2) b s c b' s' c'
  | derives_Alt_r r1 r2 b s c b' s' c' : derives r2 b s c b' s' c' → derives (Alt r1 r2) b s c b' s' c'
  | derives_Star_end r b s c : derives (Star r) b s c b s c
  | derives_Star_step r b s c b1 s1 c1 b' s' c' :
      derives r b s c b1 s1 c1 → length s1 < length s → derives (Star r) b1 s1 c1 b' s' c' →
      derives (Star r) b s c b' s' c'
  | derives_Group n r b s c b' s' c' :
      derives r b s c b' s' c' →
      derives (Group n r) b s c b' s' (<[n := take (length s - length s') s]> c').

Lemma derives_suffix r b s c b' s' c' : derives r b s c b' s' c' → s' `suffix_of` s.
Proof. induction 1; try done; [by apply suffix_cons_r|by etrans|by etrans]. Qed.

Section correctness.
Context {X : Type}.
Implicit Types (r : re) (k : continuation (X:=X)).

(** [run] answers with what [k] makes of one of the matches. *)
Definition sound r (body : continuation → continuation (X:=X)) : Prop := ∀ k b s c x,
  body k b s c = Some x → ∃ b' s' c', derives r b s c b' s' c' ∧ k b' s' c' = Some x.

(** Whatever [k] would accept is not missed. *)
Definition complete r (body : continuation → continuation (X:=X)) : Prop := ∀ k b s c,
  body k b s c = None → ∀ b' s' c', derives r b s c b' s' c' → k b' s' c' = None.

Lemma star_loop_sound r body n : sound r body → sound (Star r) (λ k, star_loop body n k).
Proof.
  intros Hr. induction n as [|n IH]; intros k b s c x; cbn [star_loop].
  - intros Hk. exists b, s, c. split; [constructor|done].
  - destruct (body _ b s c) as [y|] eqn:E.
    + intros [= ->]. apply Hr in E as (b1 & s1 & c1 & Hd & E). case_match eqn:El; [|done].
      apply Nat.ltb_lt in El. apply IH in E as (b' & s' & c' & Hd' & E). exists b', s', c'.
      split; [by eapply derives_Star_step|done].
    + intros Hk. exists b, s, c. split; [constructor|done].
Qed.

Lemma star_loop_complete r body n k b s c :
  complete r body → length s ≤ n → star_loop body n k b s c = None →
  ∀ b' s' c', derives (Star r) b s c b' s' c' → k b' s' c' = None.
Proof.
  intros Hr. revert b s c. induction n as [|n IH]; intros b s c Hn; cbn [star_loop]; intros Hk b' s' c' Hd.
  - inversion Hd; subst; solve [done|lia].
  - destruct (body _ b s c) eqn:E; [done|]. inversion Hd; subst; try done.
    match goal with Hd1 : derives r _ _ _ _ _ _ |- _ => pose proof (Hr _ _ _ _ E _ _ _ Hd1) as E' end.
    cbn beta in E'. rewrite (proj2 (Nat.ltb_lt _ _)) in E' by done.
    refine (IH _ _ _ _ E' _ _ _ _); [lia|done].
Qed.

Theorem run_sound r : sound r (run r).
Proof.
  induction r as [|p|p|r1 IH1 r2 IH2|r1 IH1 r2 IH2|r IH|n r IH]; intros k b s c x Hk; cbn [run] in Hk.
  - exists b, s, c. split; [constructor|done].
  - destruct (p b (head s)) eqn:E; [|done]. exists b, s, c. split; [by constructor|done].
  - destruct s as [|a s]; [done|]. destruct (p a) eqn:E; [|done]. exists (Some a), s, c. split; [by constructor|done].
  - apply IH1 in Hk as (b1 & s1 & c1 & Hd1 & (b' & s' & c' & Hd2 & Hk)%IH2).
    exists b', s', c'. split; [by econstructor|done].
  - destruct (run r1 k b s c) eqn:E.
    + injection Hk as ->. apply IH1 in E as (b' & s' & c' & Hd & Hk). exists b', s', c'. split; [by constructor|done].
    + apply IH2 in Hk as (b' & s' & c' & Hd & Hk). exists b', s', c'. split; [by apply derives_Alt_r|done].
  - by apply (star_loop_sound r _ _ IH) in Hk.
  - apply IH in Hk as (b' & s' & c' & Hd & Hk). eexists _, _, _. split; [by constructor|done].
Qed.

Theorem run_complete r : complete r (run r).
Proof.
  induction r as [|p|p|r1 IH1 r2 IH2|r1 IH1 r2 IH2|r IH|n r IH]; intros k b s c Hk b' s' c' Hd; cbn [run] in Hk.
  - by inversion Hd; subst.
  - inversion Hd as [|? ? ? ? Hp| | | | | | |]; subst. by rewrite Hp in Hk.
  - inversion Hd as [| |? ? ? ? ? Hp| | | | | |]; subst. by rewrite Hp in Hk.
  - inversion Hd as [| | |? ? ? ? ? ? ? ? ? ? ? H1 H2| | | | |]; subst.
    exact (IH2 _ _ _ _ (IH1 _ _ _ _ Hk _ _ _ H1) _ _ _ H2).
  - destruct (run r1 k b s c) eqn:E; [done|].
    inversion Hd as [| | | |? ? ? ? ? ? ? ? H1|? ? ? ? ? ? ? ? H2| | |]; subst;
      [exact (IH1 _ _ _ _ E _ _ _ H1)|exact (IH2 _ _ _ _ Hk _ _ _ H2)].
  - exact (star_loop_complete r _ _ _ _ _ _ IH (le_n _) Hk _ _ _ Hd).
  - inversion Hd as [| | | | | | | |? ? ? ? ? ? ? ? H1]; subst. exact (IH _ _ _ _ Hk _ _ _ H1).
Qed.
End correctness.

(** The character in front of what follows [w]. *)
Definition after (b : option ascii) (w : chars) : option ascii :=
  match last w with Some a => Some a | None => b end.

Lemma after_cons b a w : after b (a :: w) = after (Some a) w.
Proof. unfold after. destruct w as [|a' w]; [done|]. change (a :: a' :: w) with ([a] ++ a' :: w). rewrite last_app. by destruct (last (a' :: w)) eqn:E. Qed.

Lemma after_app b w w' : after b (w ++ w') = after (after b w) w'.
Proof. unfold after. rewrite last_app. by destruct (last w'). Qed.

(** The leftmost match. *)
Theorem find_Some r b s front c b' s' :
  find r b s = Some (front, c, b', s') →
  ∃ m ci, s = front ++ m ++ s' ∧ c = <[0 := m]> ci ∧ derives r (after b front) (m ++ s') ∅ b' s' ci.
Proof.
  revert b front. induction s as [|a s IH]; intros b front; cbn [find].
  - destruct (run _ _ b [] ∅) as [[[c1 b1] s1]|] eqn:E; [|done]. intros [= <- <- <- <-].
    apply run_sound in E as (b2 & s2 & c2 & Hd & [= <- <- <-]). inversion Hd as [| | | | | | | |? ? ? ? ? ? ? ci Hr]; subst.
    destruct (derives_suffix _ _ _ _ _ _ _ Hr) as [m Em]. exists m, ci. rewrite <- Em. split_and!; [done| |done].
    rewrite Em, length_app, Nat.add_sub, take_app_length. done.
  - destruct (run _ _ b (a :: s) ∅) as [[[c1 b1] s1]|] eqn:E.
    + intros [= <- <- <- <-].
      apply run_sound in E as (b2 & s2 & c2 & Hd & [= <- <- <-]). inversion Hd as [| | | | | | | |? ? ? ? ? ? ? ci Hr]; subst.
      destruct (derives_suffix _ _ _ _ _ _ _ Hr) as [m Em]. exists m, ci. cbn [app]. rewrite <- Em.
      split_and!; [done| |done]. by rewrite Em, length_app, Nat.add_sub, take_app_length.
    + destruct (find r (Some a) s) as [[[[f c1] b1] s1]|] eqn:Ef; [|done]. cbn. intros [= <- <- <- <-].
      apply IH in Ef as (m & ci & -> & -> & Hd). exists m, ci. rewrite after_cons. done.
Qed.

Theorem find_None r b s :
  find r b s = None → ∀ front m s' b' c', s = front ++ m ++ s' → ¬ derives r (after b front) (m ++ s') ∅ b' s' c'.
Proof.
  revert b. induction s as [|a s IH]; intros b; cbn [find].
  - destruct (run _ _ b [] ∅) as [[[c1 b1] s1]|] eqn:E; [done|]. intros _ front m s' b' c' Es Hd.
    destruct front; [|done]. cbn in Es. rewrite <- Es in Hd.
    discriminate (run_complete _ _ _ _ _ E _ _ _ (derives_Group 0 _ _ _ _ _ _ _ Hd)).
  - destruct (run _ _ b (a :: s) ∅) as [[[c1 b1] s1]|] eqn:E; [done|].
    destruct (find r (Some a) s) as [[[[f c1] b1] s1]|] eqn:Ef; [done|]. intros _ [|a' front] m s' b' c' Es Hd.
    + cbn in Es. rewrite <- Es in Hd. discriminate (run_complete _ _ _ _ _ E _ _ _ (derives_Group 0 _ _ _ _ _ _ _ Hd)).
    + injection Es as <- ->. rewrite after_cons in Hd. by eapply IH.
Qed.

(** A match, as far as [MatchString] tells: at some place the pattern matches. *)
Theorem MatchString_iff r s :
  MatchString r s = true ↔ ∃ front m s' b' c', chars_of s = front ++ m ++ s' ∧
    derives r (after None front) (m ++ s') ∅ b' s' c'.
Proof.
  unfold MatchString. destruct (find r None (chars_of s)) as [[[[front c] b'] s']|] eqn:E; split; try done.
  - intros _. apply find_Some in E as (m & ci & Es & _ & Hd). by exists front, m, s', b', ci.
  - intros (front & m & s' & b' & c' & Es & Hd). by destruct (find_None _ _ _ E _ _ _ _ _ Es Hd).
Qed.

(** ** Reading a derivation *)

Section inversion.
Context (b : option ascii) (s : chars) (c : captures) (b' : option ascii) (s' : chars) (c' : captures).

Lemma derives_Empty_iff : derives Empty b s c b' s' c' ↔ b' = b ∧ s' = s ∧ c' = c.
Proof. split; [by inversion 1|intros (-> & -> & ->); constructor]. Qed.

Lemma derives_Look_iff p : derives (Look p) b s c b' s' c' ↔ p b (head s) = true ∧ b' = b ∧ s' = s ∧ c' = c.
Proof. split; [by inversion 1|intros (? & -> & -> & ->); by constructor]. Qed.

Lemma derives_One_iff p :
  derives (One p) b s c b' s' c' ↔ ∃ a, s = a :: s' ∧ p a = true ∧ b' = Some a ∧ c' = c.
Proof. split; [inversion 1; naive_solver|intros (a & -> & ? & -> & ->); by constructor]. Qed.

Lemma derives_Cat_iff r1 r2 :
  derives (Cat r1 r2) b s c b' s' c' ↔
  ∃ b1 s1 c1, derives r1 b s c b1 s1 c1 ∧ derives r2 b1 s1 c1 b' s' c'.
Proof. split; [inversion 1; naive_solver|intros (b1 & s1 & c1 & ? & ?); by econstructor]. Qed.

Lemma derives_Alt_iff r1 r2 :
  derives (Alt r1 r2) b s c b' s' c' ↔ derives r1 b s c b' s' c' ∨ derives r2 b s c b' s' c'.
Proof. split; [inversion 1; auto|intros [?|?]; [by constructor|by apply derives_Alt_r]]. Qed.

Lemma derives_Group_iff n r :
  derives (Group n r) b s c b' s' c' ↔
  ∃ w ci, s = w ++ s' ∧ derives r b s c b' s' ci ∧ c' = <[n := w]> ci.
Proof.
  split.
  - inversion 1 as [| | | | | | | |? ? ? ? ? ? ? ci Hr]; subst.
    destruct (derives_suffix _ _ _ _ _ _ _ Hr) as [w ->]. exists w, ci.
    by rewrite length_app, Nat.add_sub, take_app_length.
  - intros (w & ci & Hs & Hr & ->).
    assert (w = take (length s - length s') s) as ->
      by by rewrite Hs, length_app, Nat.add_sub, take_app_length.
    by constructor.
Qed.
End inversion.

Lemma derives_Star_One_iff p b s c b' s' c' :
  derives (Star (One p)) b s c b' s' c' ↔
  ∃ w, s = w ++ s' ∧ Forall (λ a, p a = true) w ∧ b' = after b w ∧ c' = c.
Proof.
  split.
  - intros H. remember (Star (One p)) as r eqn:Er. induction H; try discriminate Er.
    + exists []. done.
    + injection Er as ->. apply derives_One_iff in H as (a & -> & ? & -> & ->).
      destruct IHderives2 as (w & -> & ? & -> & ->); [done|]. exists (a :: w).
      rewrite after_cons. split_and!; [done|by constructor|done|done].
  - intros (w & -> & Hw & -> & ->). revert b. induction Hw as [|a w Ha Hw IH]; intros b1.
    + constructor.
    + rewrite after_cons. cbn [app]. eapply derives_Star_step; [by constructor|cbn; lia|apply IH].
Qed.

Lemma derives_literal_iff l b s c b' s' c' :
  derives (literal l) b s c b' s' c' ↔ s = chars_of l ++ s' ∧ b' = after b (chars_of l) ∧ c' = c.
Proof.
  unfold literal. revert b s b'. induction (chars_of l) as [|a w IH]; intros b1 s1 b2; cbn [foldr].
  - split; [by inversion 1|intros (-> & -> & ->); constructor].
  - split.
    + inversion 1 as [| | |? ? ? ? ? ? ? ? ? ? ? H1 H2| | | | |]; subst.
      inversion H1 as [| |? ? ? ? ? Ea| | | | | |]; subst. apply Ascii.eqb_eq in Ea as ->.
      apply IH in H2 as (-> & -> & ->). by rewrite after_cons.
    + intros (-> & -> & ->). rewrite after_cons. cbn [app]. eapply derives_Cat; [|by apply IH].
      constructor. apply Ascii.eqb_refl.
Qed.

Lemma derives_plus_One_iff p b s c b' s' c' :
  derives (plus (One p)) b s c b' s' c' ↔
  ∃ w, w ≠ [] ∧ s = w ++ s' ∧ Forall (λ a, p a = true) w ∧ b' = after b w ∧ c' = c.
Proof.
  unfold plus. rewrite derives_Cat_iff. setoid_rewrite derives_One_iff. setoid_rewrite derives_Star_One_iff. split.
  - intros (b1 & s1 & c1 & (a & -> & ? & -> & ->) & w & -> & ? & -> & ->).
    exists (a :: w). rewrite after_cons. split_and!; [done|done|by constructor|done|done].
  - intros (w & Hw & -> & Hp & -> & ->). destruct w as [|a w]; [done|]. apply Forall_cons in Hp as [? ?].
    exists (Some a), (w ++ s'), c. split; [by exists a|]. exists w. by rewrite after_cons.
Qed.

(** Takes a derivation of a pattern made of the operators above apart. *)
Ltac derive_step :=
  match goal with
  | H : derives (plus (One _)) _ _ _ _ _ _ |- _ => apply derives_plus_One_iff in H as (? & ? & -> & ? & -> & ->)
  | H : derives (literal _) _ _ _ _ _ _ |- _ => apply derives_literal_iff in H as (-> & -> & ->)
  | H : derives (Star (One _)) _ _ _ _ _ _ |- _ => apply derives_Star_One_iff in H as (? & -> & ? & -> & ->)
  | H : derives Empty _ _ _ _ _ _ |- _ => apply derives_Empty_iff in H as (-> & -> & ->)
  | H : derives (One _) _ _ _ _ _ _ |- _ => apply derives_One_iff in H as (? & -> & ? & -> & ->)
  | H : derives (Group _ _) _ _ _ _ _ _ |- _ => apply derives_Group_iff in H as (? & ? & -> & H & ->)
  | H : derives (Cat _ _) _ _ _ _ _ _ |- _ => apply derives_Cat_iff in H as (? & ? & ? & ? & H)
  end.

(** A match leaves the groups alone that the pattern does not name. *)
Fixpoint groups (r : re) : list nat :=
  match r with
  | Group n r => n :: groups r
  | Cat r1 r2 | Alt r1 r2 => groups r1 ++ groups r2
  | Star r => groups r
  | _ => []
  end.

Lemma derives_keeps n r b s c b' s' c' : derives r b s c b' s' c' → n ∉ groups r → c' !! n = c !! n.
Proof.
  induction 1; cbn [groups]; rewrite ?not_elem_of_app, ?not_elem_of_cons; intros Hn; try done.
  - destruct Hn as [H1 H2]. by rewrite (IHderives2 H2), (IHderives1 H1).
  - apply IHderives, Hn.
  - apply IHderives, Hn.
  - by rewrite (IHderives2 Hn), (IHderives1 Hn).
  - destruct Hn. rewrite lookup_insert_ne by done. by apply IHderives.
Qed.

(** ** Suffixes *)

Lemma substring_app s t : String.substring 0 (String.length s) (s +:+ t) = s.
Proof. induction s as [|c s IH]; [by destruct t|]. change (String c (String.substring 0 (String.length s) (s +:+ t)) = String c s). by rewrite IH. Qed.

Lemma string_length_app s t : String.length (s +:+ t) = String.length s + String.length t.
Proof. induction s as [|c s IH]; [done|]. change (S (String.length (s +:+ t)) = S (String.length s + String.length t)). by rewrite IH. Qed.

Lemma HasSuffix_app s suffix : HasSuffix (s +:+ suffix) suffix = true.
Proof.
  unfold HasSuffix, CutSuffix. rewrite string_length_app, Nat.add_sub, substring_app.
  by rewrite bool_decide_eq_true_2.
Qed.

(** A text is known from what it is with a suffix. *)
Lemma app_suffix_inj s t suffix : s +:+ suffix = t +:+ suffix → s = t.
Proof.
  intros E. assert (El : String.length s = String.length t).
  { apply (f_equal String.length) in E. rewrite !string_length_app in E. lia. }
  rewrite <- (substring_app s suffix), <- (substring_app t suffix), E. by rewrite El.
Qed.
