(* ===== verification/Version.v ===== *)
(** * Version: the version a build reports

    Models [karta/sdk/pkg/version/version.go].  What the linker has set and the
    build information are parameters. *)

From S2P Require Import Prelude Text.

Definition unknownVersion : string := "unknown".

Definition normalize (value : string) : string :=
  let value := TrimSpace value in
  if bool_decide (value = "") || bool_decide (value = "(devel)") then "" else TrimPrefix value "v".

(** [readBuildInfo]: the version of the main module, if there is information. *)
Definition resolve (explicit : string) (readBuildInfo : option string) : string :=
  let explicit := TrimSpace explicit in
  if bool_decide (explicit ≠ "") then explicit
  else
    match readBuildInfo with
    | Some version => let normalized := normalize version in
                      if bool_decide (normalized ≠ "") then normalized else unknownVersion
    | None => unknownVersion
    end.

Definition String (version : string) (readBuildInfo : option string) : string := resolve version readBuildInfo.

(** There is always something to report; what was linked in goes before the
    build information, and neither a blank nor a development build counts. *)
Theorem resolve_cases explicit readBuildInfo :
  resolve explicit readBuildInfo ≠ "" ∧
  (TrimSpace explicit ≠ "" → resolve explicit readBuildInfo = TrimSpace explicit) ∧
  (TrimSpace explicit = "" → ∀ version, readBuildInfo = Some version →
     resolve explicit readBuildInfo = if bool_decide (normalize version = "") then unknownVersion else normalize version) ∧
  (TrimSpace explicit = "" → readBuildInfo = None → resolve explicit readBuildInfo = unknownVersion).
Proof.
  unfold resolve. case_bool_decide as He.
  - split_and!; [done|done|by intros ?%He..].
  - destruct readBuildInfo as [version|].
    + destruct (decide (normalize version = "")) as [E|E].
      * rewrite bool_decide_eq_false_2 by (by intros []). split_and!; [done|done| |done].
        intros _ v [= <-]. by rewrite bool_decide_eq_true_2.
      * rewrite bool_decide_eq_true_2 by done. split_and!; [done|done| |done].
        intros _ v [= <-]. by rewrite bool_decide_eq_false_2.
    + split_and!; [done|done|by intros ? ?|done].
Qed.

Example resolve_samples :
  resolve " 1.2.3 " (Some "v9") = "1.2.3" ∧ resolve "" (Some " v0.4.0 ") = "0.4.0" ∧
  resolve "" (Some "(devel)") = "unknown" ∧ resolve "" (Some "v") = "unknown" ∧ resolve "v1" None = "v1".
Proof. vm_compute. done. Qed.
