(* ===== verification/Api.v ===== *)
(** * Api: the Karta custom resource

    Models [karta/sdk/pkg/api/runai/v1alpha1/{types,structure,instructions}.go].
    A Go pointer field is an [option], a slice is a [list], a named string type
    is a [string]; a record field carries its source name behind a prefix that
    names its struct. *)

From S2P Require Import Prelude.

(** ** Kinds *)

Record GroupVersionKind := GVK {
  gvk_Group : string;
  gvk_Version : string;
  gvk_Kind : string;
}.

Record GroupKind := GK { gk_Group : string; gk_Kind : string }.

Definition GroupKind_of (g : GroupVersionKind) : GroupKind := GK (gvk_Group g) (gvk_Kind g).

(** ** Spec, scale, suspend and pod selectors *)

Record SuspendAction := {
  sa_Path : string;
  sa_Value : string;
}.

Record SuspendDefinition := {
  sus_SuspendActions : list SuspendAction;
  sus_ResumeActions : list SuspendAction;
}.

Record FragmentedPodSpecDefinition := {
  fd_SchedulerNamePath : option string;
  fd_LabelsPath : option string;
  fd_AnnotationsPath : option string;
  fd_ResourcesPath : option string;
  fd_ResourceClaimsPath : option string;
  fd_PodAffinityPath : option string;
  fd_NodeAffinityPath : option string;
  fd_ContainersPath : option string;
  fd_ContainerPath : option string;
  fd_PriorityClassNamePath : option string;
  fd_ImagePath : option string;
}.

Record SpecDefinition := {
  sd_PodTemplateSpecPath : option string;
  sd_PodSpecPath : option string;
  sd_MetadataPath : option string;
  sd_FragmentedPodSpecDefinition : option FragmentedPodSpecDefinition;
}.

Record ScaleDefinition := {
  sc_ReplicasPath : option string;
  sc_MinReplicasPath : option string;
  sc_MaxReplicasPath : option string;
}.

Record ComponentTypeSelector := {
  cts_KeyPath : string;
  cts_Value : option string;
}.

Record ComponentInstanceSelector := { cis_IdPath : string }.

Record ReplicaSelector := { rs_KeyPath : string }.

Record PodSelector := {
  ps_ComponentTypeSelector : option ComponentTypeSelector;
  ps_ComponentInstanceSelector : option ComponentInstanceSelector;
  ps_ReplicaSelector : option ReplicaSelector;
}.

(** ** Status *)

Definition ResourceStatus := string.

Definition InitializingStatus : ResourceStatus := "Initializing".
Definition RunningStatus : ResourceStatus := "Running".
Definition CompletedStatus : ResourceStatus := "Completed".
Definition FailedStatus : ResourceStatus := "Failed".
Definition DegradedStatus : ResourceStatus := "Degraded".
Definition UndefinedStatus : ResourceStatus := "Undefined".
Definition SuspendedStatus : ResourceStatus := "Suspended".
Definition SuspendingStatus : ResourceStatus := "Suspending".
Definition ResumingStatus : ResourceStatus := "Resuming".

Record PhaseDefinition := { pd_Path : string }.

Record ConditionsDefinition := {
  cnd_Path : string;
  cnd_TypeFieldName : string;
  cnd_StatusFieldName : string;
  cnd_MessageFieldName : option string;
  cnd_ReasonFieldName : option string;
}.

Record ExpressionMatcher := {
  em_Expression : string;
  em_ExpectedResult : string;
}.

Record ExpectedCondition := {
  ec_Type : string;
  ec_Status : option string;
  ec_Reason : option string;
}.

Record StatusMatcher := {
  sm_ByPhase : string;
  sm_ByConditions : list ExpectedCondition;
  sm_ByExpression : option ExpressionMatcher;
}.

Record StatusMappings := {
  smp_Initializing : list StatusMatcher;
  smp_Running : list StatusMatcher;
  smp_Completed : list StatusMatcher;
  smp_Failed : list StatusMatcher;
  smp_Degraded : list StatusMatcher;
  smp_Suspended : list StatusMatcher;
  smp_Suspending : list StatusMatcher;
  smp_Resuming : list StatusMatcher;
}.

Record StatusMatchEntry := Entry {
  sme_Status : ResourceStatus;
  sme_Matchers : list StatusMatcher;
}.

(** The evaluation order of the statuses. *)
Definition Entries (m : StatusMappings) : list StatusMatchEntry :=
  [ Entry ResumingStatus (smp_Resuming m);
    Entry SuspendingStatus (smp_Suspending m);
    Entry SuspendedStatus (smp_Suspended m);
    Entry RunningStatus (smp_Running m);
    Entry FailedStatus (smp_Failed m);
    Entry CompletedStatus (smp_Completed m);
    Entry InitializingStatus (smp_Initializing m);
    Entry DegradedStatus (smp_Degraded m) ].

Record StatusDefinition := {
  std_PhaseDefinition : option PhaseDefinition;
  std_ConditionsDefinition : option ConditionsDefinition;
  std_StatusMappings : StatusMappings;
}.

(** ** Components *)

Record ComponentDefinition := {
  cd_Name : string;
  cd_Kind : option GroupVersionKind;
  cd_OwnerRef : option string;
  cd_SpecDefinition : option SpecDefinition;
  cd_ScaleDefinition : option ScaleDefinition;
  cd_StatusDefinition : option StatusDefinition;
  cd_SuspendDefinition : option SuspendDefinition;
  cd_InstanceIdPath : option string;
  cd_PodSelector : option PodSelector;
}.

(** The zero value a Go map lookup yields for a missing component. *)
Definition zero_component : ComponentDefinition := {|
  cd_Name := ""; cd_Kind := None; cd_OwnerRef := None; cd_SpecDefinition := None;
  cd_ScaleDefinition := None; cd_StatusDefinition := None;
  cd_SuspendDefinition := None; cd_InstanceIdPath := None; cd_PodSelector := None |}.

Record StructureDefinition := {
  st_RootComponent : ComponentDefinition;
  st_ChildComponents : list ComponentDefinition;
  st_AdditionalChildKinds : list GroupVersionKind;
}.

(** ** Instructions *)

Record TopologyConstraint := {
  tc_TopologyName : string;
  tc_PreferredTopologyLevel : string;
  tc_RequiredTopologyLevel : string;
}.

Record SubGroupComponentMapping := {
  sgm_ComponentName : string;
  sgm_Topology : option TopologyConstraint;
}.

Record PodGroupComponentsMapping := {
  pgm_Name : string;
  pgm_SubGroups : list SubGroupComponentMapping;
  pgm_Topology : option TopologyConstraint;
}.

Record PodGroupMemberDefinition := {
  pm_ComponentName : string;
  pm_GroupByKeyPaths : list string;
  pm_Filters : list string;
}.

Record PodGroupDefinition := {
  pg_Name : string;
  pg_Members : list PodGroupMemberDefinition;
}.

Record GangSchedulingInstruction := {
  gs_PodGroups : list PodGroupDefinition;
  gs_PodGroup : option PodGroupComponentsMapping;
}.

Record OptimizationInstructions := { oi_GangScheduling : option GangSchedulingInstruction }.

(** ** The resource *)

Record KartaSpec := {
  ks_StructureDefinition : StructureDefinition;
  ks_Instructions : OptimizationInstructions;
}.

(** The part of the Kubernetes object metadata the program reads. *)
Record ObjectMeta := {
  om_Name : string;
  om_UID : string;
  om_ResourceVersion : string;
  om_CreationTimestamp : Z;
  om_Labels : gmap string string;
}.

Record Karta := {
  k_ObjectMeta : ObjectMeta;
  k_Spec : KartaSpec;
}.

(** Shorthands for the paths the code spells out. *)
Definition k_Name (k : Karta) : string := om_Name (k_ObjectMeta k).
Definition RootComponent (k : Karta) : ComponentDefinition :=
  st_RootComponent (ks_StructureDefinition (k_Spec k)).
Definition ChildComponents (k : Karta) : list ComponentDefinition :=
  st_ChildComponents (ks_StructureDefinition (k_Spec k)).
Definition GangScheduling (k : Karta) : option GangSchedulingInstruction :=
  oi_GangScheduling (ks_Instructions (k_Spec k)).

(** ** A small Karta

    The definition the examples of the other files run on: a root, a group
    below it and two pod-bearing leaves below the group, gang-scheduled as two
    pod groups. *)

Definition sample_component (name : string) (owner : option string) (pods : bool)
    : ComponentDefinition := {|
  cd_Name := name; cd_Kind := None; cd_OwnerRef := owner;
  cd_SpecDefinition :=
    if pods then Some {| sd_PodTemplateSpecPath := Some (".spec." +:+ name);
                         sd_PodSpecPath := None; sd_MetadataPath := None;
                         sd_FragmentedPodSpecDefinition := None |} else None;
  cd_ScaleDefinition := None; cd_StatusDefinition := None;
  cd_SuspendDefinition := None; cd_InstanceIdPath := None; cd_PodSelector := None |}.

Definition sample_status : StatusDefinition := {|
  std_PhaseDefinition := Some {| pd_Path := ".status.phase" |};
  std_ConditionsDefinition := None;
  std_StatusMappings := {|
    smp_Initializing := []; smp_Completed := []; smp_Degraded := []; smp_Suspended := [];
    smp_Suspending := []; smp_Resuming := [];
    smp_Running := [{| sm_ByPhase := "Running"; sm_ByConditions := []; sm_ByExpression := None |}];
    smp_Failed := [{| sm_ByPhase := "Failed"; sm_ByConditions := []; sm_ByExpression := None |}] |} |}.

Definition sample_member (name : string) (filters : list string) : PodGroupMemberDefinition :=
  {| pm_ComponentName := name; pm_GroupByKeyPaths := []; pm_Filters := filters |}.

Definition sample_karta : Karta := {|
  k_ObjectMeta := {| om_Name := "sample"; om_UID := "u1"; om_ResourceVersion := "1";
                     om_CreationTimestamp := 0; om_Labels := ∅ |};
  k_Spec := {|
    ks_StructureDefinition := {|
      st_RootComponent := {|
        cd_Name := "job"; cd_Kind := Some (GVK "batch" "v1" "Job"); cd_OwnerRef := None;
        cd_SpecDefinition := None; cd_ScaleDefinition := None;
        cd_StatusDefinition := Some sample_status; cd_SuspendDefinition := None;
        cd_InstanceIdPath := None; cd_PodSelector := None |};
      st_ChildComponents := [sample_component "group" (Some "job") false;
                             sample_component "leader" (Some "group") true;
                             sample_component "worker" (Some "group") true];
      st_AdditionalChildKinds := [] |};
    ks_Instructions := {|
      oi_GangScheduling := Some {|
        gs_PodGroups := [
          {| pg_Name := "all"; pg_Members := [sample_member "group" []] |};
          {| pg_Name := "workers";
             pg_Members := [sample_member "worker" [".metadata.labels.gpu == 1"]] |}];
        gs_PodGroup := None |} |} |} |}.

(** ** Decidable equality *)

#[export] Instance GroupVersionKind_eq_dec : EqDecision GroupVersionKind.
Proof. solve_decision. Defined.
#[export] Instance GroupKind_eq_dec : EqDecision GroupKind.
Proof. solve_decision. Defined.

#[export] Instance GroupVersionKind_countable : Countable GroupVersionKind.
Proof.
  refine (inj_countable' (λ g, (gvk_Group g, gvk_Version g, gvk_Kind g))
            (λ t, GVK t.1.1 t.1.2 t.2) _).
  by intros [].
Defined.
#[export] Instance GroupKind_countable : Countable GroupKind.
Proof.
  refine (inj_countable' (λ g, (gk_Group g, gk_Kind g)) (λ t, GK t.1 t.2) _).
  by intros [].
Defined.

#[export] Instance SuspendAction_eq_dec : EqDecision SuspendAction.
Proof. solve_decision. Defined.
#[export] Instance SuspendDefinition_eq_dec : EqDecision SuspendDefinition.
Proof. solve_decision. Defined.
#[export] Instance FragmentedPodSpecDefinition_eq_dec : EqDecision FragmentedPodSpecDefinition.
Proof. solve_decision. Defined.
#[export] Instance SpecDefinition_eq_dec : EqDecision SpecDefinition.
Proof. solve_decision. Defined.
#[export] Instance ScaleDefinition_eq_dec : EqDecision ScaleDefinition.
Proof. solve_decision. Defined.
#[export] Instance ComponentTypeSelector_eq_dec : EqDecision ComponentTypeSelector.
Proof. solve_decision. Defined.
#[export] Instance ComponentInstanceSelector_eq_dec : EqDecision ComponentInstanceSelector.
Proof. solve_decision. Defined.
#[export] Instance ReplicaSelector_eq_dec : EqDecision ReplicaSelector.
Proof. solve_decision. Defined.
#[export] Instance PodSelector_eq_dec : EqDecision PodSelector.
Proof. solve_decision. Defined.
#[export] Instance PhaseDefinition_eq_dec : EqDecision PhaseDefinition.
Proof. solve_decision. Defined.
#[export] Instance ConditionsDefinition_eq_dec : EqDecision ConditionsDefinition.
Proof. solve_decision. Defined.
#[export] Instance ExpressionMatcher_eq_dec : EqDecision ExpressionMatcher.
Proof. solve_decision. Defined.
#[export] Instance ExpectedCondition_eq_dec : EqDecision ExpectedCondition.
Proof. solve_decision. Defined.
#[export] Instance StatusMatcher_eq_dec : EqDecision StatusMatcher.
Proof. solve_decision. Defined.
#[export] Instance StatusMappings_eq_dec : EqDecision StatusMappings.
Proof. solve_decision. Defined.
#[export] Instance StatusDefinition_eq_dec : EqDecision StatusDefinition.
Proof. solve_decision. Defined.
#[export] Instance ComponentDefinition_eq_dec : EqDecision ComponentDefinition.
Proof. solve_decision. Defined.
#[export] Instance StructureDefinition_eq_dec : EqDecision StructureDefinition.
Proof. solve_decision. Defined.
#[export] Instance TopologyConstraint_eq_dec : EqDecision TopologyConstraint.
Proof. solve_decision. Defined.
#[export] Instance SubGroupComponentMapping_eq_dec : EqDecision SubGroupComponentMapping.
Proof. solve_decision. Defined.
#[export] Instance PodGroupComponentsMapping_eq_dec : EqDecision PodGroupComponentsMapping.
Proof. solve_decision. Defined.
#[export] Instance PodGroupMemberDefinition_eq_dec : EqDecision PodGroupMemberDefinition.
Proof. solve_decision. Defined.
#[export] Instance PodGroupDefinition_eq_dec : EqDecision PodGroupDefinition.
Proof. solve_decision. Defined.
#[export] Instance GangSchedulingInstruction_eq_dec : EqDecision GangSchedulingInstruction.
Proof. solve_decision. Defined.
#[export] Instance OptimizationInstructions_eq_dec : EqDecision OptimizationInstructions.
Proof. solve_decision. Defined.
#[export] Instance KartaSpec_eq_dec : EqDecision KartaSpec.
Proof. solve_decision. Defined.

(** ** Facts about the status table *)

Lemma Entries_statuses m :
  sme_Status <$> Entries m =
  [ResumingStatus; SuspendingStatus; SuspendedStatus; RunningStatus; FailedStatus;
   CompletedStatus; InitializingStatus; DegradedStatus].
Proof. done. Qed.

Lemma Entries_NoDup m : NoDup (sme_Status <$> Entries m).
Proof. rewrite Entries_statuses. apply (bool_decide_unpack _). by vm_compute. Qed.

Lemma Entries_not_Undefined m e : e ∈ Entries m → sme_Status e ≠ UndefinedStatus.
Proof.
  intros H Heq.
  assert (Hin : UndefinedStatus ∈ sme_Status <$> Entries m).
  { rewrite <- Heq. by apply list_elem_of_fmap_2. }
  rewrite Entries_statuses in Hin.
  revert Hin. apply (bool_decide_unpack _). by vm_compute.
Qed.
