(* ===== verification/Literal.v ===== *)
(** * Literal: composite literals of the Karta types

    A Go composite literal names the fields it sets and leaves the others at
    their zero value.  [{{ f1 ≔ v1; .. ; fn ≔ vn }}] is that notation for the
    records of [Api]: the zero value of the record, with each assignment applied
    to it.  [Zero] holds the zero values, [Settable] one update per field. *)

From Stdlib Require Import Ascii.
From S2P Require Import Prelude Api.

#[local] Open Scope string_scope.

Class Zero (A : Type) := zero : A.

Class Settable {R T : Type} (field : R → T) := assign : T → R → R.
#[global] Hint Mode Settable - - + : typeclass_instances.
Arguments assign {R T} field {Settable} v r.

Definition literal {A} `{Zero A} (assignments : list (A → A)) : A :=
  foldl (λ a f, f a) zero assignments.

Declare Scope literal_scope.
Delimit Scope literal_scope with literal.
Notation "f ≔ v" := (assign f v) (at level 70, only parsing) : literal_scope.
Notation "{{ a ; .. ; b }}" := (literal (cons a%literal .. (cons b%literal nil) ..))
  (only parsing) : literal_scope.

(** ** Zero values and assignments *)

#[export] Instance zero_SuspendAction : Zero SuspendAction := Build_SuspendAction "" "".
#[export] Instance set_sa_Path : Settable sa_Path :=
  λ v '(Build_SuspendAction _ b), Build_SuspendAction v b.
#[export] Instance set_sa_Value : Settable sa_Value :=
  λ v '(Build_SuspendAction a _), Build_SuspendAction a v.

#[export] Instance zero_SuspendDefinition : Zero SuspendDefinition := Build_SuspendDefinition [] [].
#[export] Instance set_sus_SuspendActions : Settable sus_SuspendActions :=
  λ v '(Build_SuspendDefinition _ b), Build_SuspendDefinition v b.
#[export] Instance set_sus_ResumeActions : Settable sus_ResumeActions :=
  λ v '(Build_SuspendDefinition a _), Build_SuspendDefinition a v.

#[export] Instance zero_FragmentedPodSpecDefinition : Zero FragmentedPodSpecDefinition := Build_FragmentedPodSpecDefinition None None None None None None None None None None None.
#[export] Instance set_fd_SchedulerNamePath : Settable fd_SchedulerNamePath :=
  λ v '(Build_FragmentedPodSpecDefinition _ b c d e f g h i j k), Build_FragmentedPodSpecDefinition v b c d e f g h i j k.
#[export] Instance set_fd_LabelsPath : Settable fd_LabelsPath :=
  λ v '(Build_FragmentedPodSpecDefinition a _ c d e f g h i j k), Build_FragmentedPodSpecDefinition a v c d e f g h i j k.
#[export] Instance set_fd_AnnotationsPath : Settable fd_AnnotationsPath :=
  λ v '(Build_FragmentedPodSpecDefinition a b _ d e f g h i j k), Build_FragmentedPodSpecDefinition a b v d e f g h i j k.
#[export] Instance set_fd_ResourcesPath : Settable fd_ResourcesPath :=
  λ v '(Build_FragmentedPodSpecDefinition a b c _ e f g h i j k), Build_FragmentedPodSpecDefinition a b c v e f g h i j k.
#[export] Instance set_fd_ResourceClaimsPath : Settable fd_ResourceClaimsPath :=
  λ v '(Build_FragmentedPodSpecDefinition a b c d _ f g h i j k), Build_FragmentedPodSpecDefinition a b c d v f g h i j k.
#[export] Instance set_fd_PodAffinityPath : Settable fd_PodAffinityPath :=
  λ v '(Build_FragmentedPodSpecDefinition a b c d e _ g h i j k), Build_FragmentedPodSpecDefinition a b c d e v g h i j k.
#[export] Instance set_fd_NodeAffinityPath : Settable fd_NodeAffinityPath :=
  λ v '(Build_FragmentedPodSpecDefinition a b c d e f _ h i j k), Build_FragmentedPodSpecDefinition a b c d e f v h i j k.
#[export] Instance set_fd_ContainersPath : Settable fd_ContainersPath :=
  λ v '(Build_FragmentedPodSpecDefinition a b c d e f g _ i j k), Build_FragmentedPodSpecDefinition a b c d e f g v i j k.
#[export] Instance set_fd_ContainerPath : Settable fd_ContainerPath :=
  λ v '(Build_FragmentedPodSpecDefinition a b c d e f g h _ j k), Build_FragmentedPodSpecDefinition a b c d e f g h v j k.
#[export] Instance set_fd_PriorityClassNamePath : Settable fd_PriorityClassNamePath :=
  λ v '(Build_FragmentedPodSpecDefinition a b c d e f g h i _ k), Build_FragmentedPodSpecDefinition a b c d e f g h i v k.
#[export] Instance set_fd_ImagePath : Settable fd_ImagePath :=
  λ v '(Build_FragmentedPodSpecDefinition a b c d e f g h i j _), Build_FragmentedPodSpecDefinition a b c d e f g h i j v.

#[export] Instance zero_SpecDefinition : Zero SpecDefinition := Build_SpecDefinition None None None None.
#[export] Instance set_sd_PodTemplateSpecPath : Settable sd_PodTemplateSpecPath :=
  λ v '(Build_SpecDefinition _ b c d), Build_SpecDefinition v b c d.
#[export] Instance set_sd_PodSpecPath : Settable sd_PodSpecPath :=
  λ v '(Build_SpecDefinition a _ c d), Build_SpecDefinition a v c d.
#[export] Instance set_sd_MetadataPath : Settable sd_MetadataPath :=
  λ v '(Build_SpecDefinition a b _ d), Build_SpecDefinition a b v d.
#[export] Instance set_sd_FragmentedPodSpecDefinition : Settable sd_FragmentedPodSpecDefinition :=
  λ v '(Build_SpecDefinition a b c _), Build_SpecDefinition a b c v.

#[export] Instance zero_ScaleDefinition : Zero ScaleDefinition := Build_ScaleDefinition None None None.
#[export] Instance set_sc_ReplicasPath : Settable sc_ReplicasPath :=
  λ v '(Build_ScaleDefinition _ b c), Build_ScaleDefinition v b c.
#[export] Instance set_sc_MinReplicasPath : Settable sc_MinReplicasPath :=
  λ v '(Build_ScaleDefinition a _ c), Build_ScaleDefinition a v c.
#[export] Instance set_sc_MaxReplicasPath : Settable sc_MaxReplicasPath :=
  λ v '(Build_ScaleDefinition a b _), Build_ScaleDefinition a b v.

#[export] Instance zero_ComponentTypeSelector : Zero ComponentTypeSelector := Build_ComponentTypeSelector "" None.
#[export] Instance set_cts_KeyPath : Settable cts_KeyPath :=
  λ v '(Build_ComponentTypeSelector _ b), Build_ComponentTypeSelector v b.
#[export] Instance set_cts_Value : Settable cts_Value :=
  λ v '(Build_ComponentTypeSelector a _), Build_ComponentTypeSelector a v.

#[export] Instance zero_ComponentInstanceSelector : Zero ComponentInstanceSelector := Build_ComponentInstanceSelector "".
#[export] Instance set_cis_IdPath : Settable cis_IdPath :=
  λ v '(Build_ComponentInstanceSelector _), Build_ComponentInstanceSelector v.

#[export] Instance zero_ReplicaSelector : Zero ReplicaSelector := Build_ReplicaSelector "".
#[export] Instance set_rs_KeyPath : Settable rs_KeyPath :=
  λ v '(Build_ReplicaSelector _), Build_ReplicaSelector v.

#[export] Instance zero_PodSelector : Zero PodSelector := Build_PodSelector None None None.
#[export] Instance set_ps_ComponentTypeSelector : Settable ps_ComponentTypeSelector :=
  λ v '(Build_PodSelector _ b c), Build_PodSelector v b c.
#[export] Instance set_ps_ComponentInstanceSelector : Settable ps_ComponentInstanceSelector :=
  λ v '(Build_PodSelector a _ c), Build_PodSelector a v c.
#[export] Instance set_ps_ReplicaSelector : Settable ps_ReplicaSelector :=
  λ v '(Build_PodSelector a b _), Build_PodSelector a b v.

#[export] Instance zero_PhaseDefinition : Zero PhaseDefinition := Build_PhaseDefinition "".
#[export] Instance set_pd_Path : Settable pd_Path :=
  λ v '(Build_PhaseDefinition _), Build_PhaseDefinition v.

#[export] Instance zero_ConditionsDefinition : Zero ConditionsDefinition := Build_ConditionsDefinition "" "" "" None None.
#[export] Instance set_cnd_Path : Settable cnd_Path :=
  λ v '(Build_ConditionsDefinition _ b c d e), Build_ConditionsDefinition v b c d e.
#[export] Instance set_cnd_TypeFieldName : Settable cnd_TypeFieldName :=
  λ v '(Build_ConditionsDefinition a _ c d e), Build_ConditionsDefinition a v c d e.
#[export] Instance set_cnd_StatusFieldName : Settable cnd_StatusFieldName :=
  λ v '(Build_ConditionsDefinition a b _ d e), Build_ConditionsDefinition a b v d e.
#[export] Instance set_cnd_MessageFieldName : Settable cnd_MessageFieldName :=
  λ v '(Build_ConditionsDefinition a b c _ e), Build_ConditionsDefinition a b c v e.
#[export] Instance set_cnd_ReasonFieldName : Settable cnd_ReasonFieldName :=
  λ v '(Build_ConditionsDefinition a b c d _), Build_ConditionsDefinition a b c d v.

#[export] Instance zero_ExpressionMatcher : Zero ExpressionMatcher := Build_ExpressionMatcher "" "".
#[export] Instance set_em_Expression : Settable em_Expression :=
  λ v '(Build_ExpressionMatcher _ b), Build_ExpressionMatcher v b.
#[export] Instance set_em_ExpectedResult : Settable em_ExpectedResult :=
  λ v '(Build_ExpressionMatcher a _), Build_ExpressionMatcher a v.

#[export] Instance zero_ExpectedCondition : Zero ExpectedCondition := Build_ExpectedCondition "" None None.
#[export] Instance set_ec_Type : Settable ec_Type :=
  λ v '(Build_ExpectedCondition _ b c), Build_ExpectedCondition v b c.
#[export] Instance set_ec_Status : Settable ec_Status :=
  λ v '(Build_ExpectedCondition a _ c), Build_ExpectedCondition a v c.
#[export] Instance set_ec_Reason : Settable ec_Reason :=
  λ v '(Build_ExpectedCondition a b _), Build_ExpectedCondition a b v.

#[export] Instance zero_StatusMatcher : Zero StatusMatcher := Build_StatusMatcher "" [] None.
#[export] Instance set_sm_ByPhase : Settable sm_ByPhase :=
  λ v '(Build_StatusMatcher _ b c), Build_StatusMatcher v b c.
#[export] Instance set_sm_ByConditions : Settable sm_ByConditions :=
  λ v '(Build_StatusMatcher a _ c), Build_StatusMatcher a v c.
#[export] Instance set_sm_ByExpression : Settable sm_ByExpression :=
  λ v '(Build_StatusMatcher a b _), Build_StatusMatcher a b v.

#[export] Instance zero_StatusMappings : Zero StatusMappings := Build_StatusMappings [] [] [] [] [] [] [] [].
#[export] Instance set_smp_Initializing : Settable smp_Initializing :=
  λ v '(Build_StatusMappings _ b c d e f g h), Build_StatusMappings v b c d e f g h.
#[export] Instance set_smp_Running : Settable smp_Running :=
  λ v '(Build_StatusMappings a _ c d e f g h), Build_StatusMappings a v c d e f g h.
#[export] Instance set_smp_Completed : Settable smp_Completed :=
  λ v '(Build_StatusMappings a b _ d e f g h), Build_StatusMappings a b v d e f g h.
#[export] Instance set_smp_Failed : Settable smp_Failed :=
  λ v '(Build_StatusMappings a b c _ e f g h), Build_StatusMappings a b c v e f g h.
#[export] Instance set_smp_Degraded : Settable smp_Degraded :=
  λ v '(Build_StatusMappings a b c d _ f g h), Build_StatusMappings a b c d v f g h.
#[export] Instance set_smp_Suspended : Settable smp_Suspended :=
  λ v '(Build_StatusMappings a b c d e _ g h), Build_StatusMappings a b c d e v g h.
#[export] Instance set_smp_Suspending : Settable smp_Suspending :=
  λ v '(Build_StatusMappings a b c d e f _ h), Build_StatusMappings a b c d e f v h.
#[export] Instance set_smp_Resuming : Settable smp_Resuming :=
  λ v '(Build_StatusMappings a b c d e f g _), Build_StatusMappings a b c d e f g v.

#[export] Instance zero_StatusDefinition : Zero StatusDefinition := Build_StatusDefinition None None zero.
#[export] Instance set_std_PhaseDefinition : Settable std_PhaseDefinition :=
  λ v '(Build_StatusDefinition _ b c), Build_StatusDefinition v b c.
#[export] Instance set_std_ConditionsDefinition : Settable std_ConditionsDefinition :=
  λ v '(Build_StatusDefinition a _ c), Build_StatusDefinition a v c.
#[export] Instance set_std_StatusMappings : Settable std_StatusMappings :=
  λ v '(Build_StatusDefinition a b _), Build_StatusDefinition a b v.

#[export] Instance zero_ComponentDefinition : Zero ComponentDefinition := Build_ComponentDefinition "" None None None None None None None None.
#[export] Instance set_cd_Name : Settable cd_Name :=
  λ v '(Build_ComponentDefinition _ b c d e f g h i), Build_ComponentDefinition v b c d e f g h i.
#[export] Instance set_cd_Kind : Settable cd_Kind :=
  λ v '(Build_ComponentDefinition a _ c d e f g h i), Build_ComponentDefinition a v c d e f g h i.
#[export] Instance set_cd_OwnerRef : Settable cd_OwnerRef :=
  λ v '(Build_ComponentDefinition a b _ d e f g h i), Build_ComponentDefinition a b v d e f g h i.
#[export] Instance set_cd_SpecDefinition : Settable cd_SpecDefinition :=
  λ v '(Build_ComponentDefinition a b c _ e f g h i), Build_ComponentDefinition a b c v e f g h i.
#[export] Instance set_cd_ScaleDefinition : Settable cd_ScaleDefinition :=
  λ v '(Build_ComponentDefinition a b c d _ f g h i), Build_ComponentDefinition a b c d v f g h i.
#[export] Instance set_cd_StatusDefinition : Settable cd_StatusDefinition :=
  λ v '(Build_ComponentDefinition a b c d e _ g h i), Build_ComponentDefinition a b c d e v g h i.
#[export] Instance set_cd_SuspendDefinition : Settable cd_SuspendDefinition :=
  λ v '(Build_ComponentDefinition a b c d e f _ h i), Build_ComponentDefinition a b c d e f v h i.
#[export] Instance set_cd_InstanceIdPath : Settable cd_InstanceIdPath :=
  λ v '(Build_ComponentDefinition a b c d e f g _ i), Build_ComponentDefinition a b c d e f g v i.
#[export] Instance set_cd_PodSelector : Settable cd_PodSelector :=
  λ v '(Build_ComponentDefinition a b c d e f g h _), Build_ComponentDefinition a b c d e f g h v.

#[export] Instance zero_StructureDefinition : Zero StructureDefinition := Build_StructureDefinition zero [] [].
#[export] Instance set_st_RootComponent : Settable st_RootComponent :=
  λ v '(Build_StructureDefinition _ b c), Build_StructureDefinition v b c.
#[export] Instance set_st_ChildComponents : Settable st_ChildComponents :=
  λ v '(Build_StructureDefinition a _ c), Build_StructureDefinition a v c.
#[export] Instance set_st_AdditionalChildKinds : Settable st_AdditionalChildKinds :=
  λ v '(Build_StructureDefinition a b _), Build_StructureDefinition a b v.

#[export] Instance zero_PodGroupMemberDefinition : Zero PodGroupMemberDefinition := Build_PodGroupMemberDefinition "" [] [].
#[export] Instance set_pm_ComponentName : Settable pm_ComponentName :=
  λ v '(Build_PodGroupMemberDefinition _ b c), Build_PodGroupMemberDefinition v b c.
#[export] Instance set_pm_GroupByKeyPaths : Settable pm_GroupByKeyPaths :=
  λ v '(Build_PodGroupMemberDefinition a _ c), Build_PodGroupMemberDefinition a v c.
#[export] Instance set_pm_Filters : Settable pm_Filters :=
  λ v '(Build_PodGroupMemberDefinition a b _), Build_PodGroupMemberDefinition a b v.

#[export] Instance zero_PodGroupDefinition : Zero PodGroupDefinition := Build_PodGroupDefinition "" [].
#[export] Instance set_pg_Name : Settable pg_Name :=
  λ v '(Build_PodGroupDefinition _ b), Build_PodGroupDefinition v b.
#[export] Instance set_pg_Members : Settable pg_Members :=
  λ v '(Build_PodGroupDefinition a _), Build_PodGroupDefinition a v.

#[export] Instance zero_GangSchedulingInstruction : Zero GangSchedulingInstruction := Build_GangSchedulingInstruction [] None.
#[export] Instance set_gs_PodGroups : Settable gs_PodGroups :=
  λ v '(Build_GangSchedulingInstruction _ b), Build_GangSchedulingInstruction v b.
#[export] Instance set_gs_PodGroup : Settable gs_PodGroup :=
  λ v '(Build_GangSchedulingInstruction a _), Build_GangSchedulingInstruction a v.

#[export] Instance zero_OptimizationInstructions : Zero OptimizationInstructions := Build_OptimizationInstructions None.
#[export] Instance set_oi_GangScheduling : Settable oi_GangScheduling :=
  λ v '(Build_OptimizationInstructions _), Build_OptimizationInstructions v.

#[export] Instance zero_KartaSpec : Zero KartaSpec := Build_KartaSpec zero zero.
#[export] Instance set_ks_StructureDefinition : Settable ks_StructureDefinition :=
  λ v '(Build_KartaSpec _ b), Build_KartaSpec v b.
#[export] Instance set_ks_Instructions : Settable ks_Instructions :=
  λ v '(Build_KartaSpec a _), Build_KartaSpec a v.

#[export] Instance zero_ObjectMeta : Zero ObjectMeta := Build_ObjectMeta "" "" "" 0 ∅.
#[export] Instance set_om_Name : Settable om_Name :=
  λ v '(Build_ObjectMeta _ b c d e), Build_ObjectMeta v b c d e.

#[export] Instance zero_Karta : Zero Karta := Build_Karta zero zero.
#[export] Instance set_k_ObjectMeta : Settable k_ObjectMeta :=
  λ v '(Build_Karta _ b), Build_Karta v b.
#[export] Instance set_k_Spec : Settable k_Spec :=
  λ v '(Build_Karta a _), Build_Karta a v.

(** ** Text

    Strings of this development hold no double quotes of their own: [dq] turns
    the single quotes of a text into double quotes, [quoted] is what the verb %q
    prints for a text without quotes, backslashes and control characters. *)

Definition double_quote : ascii := "034"%char.

Fixpoint dq (s : string) : string :=
  match s with
  | "" => ""
  | String c s => String (if Ascii.eqb c "'"%char then double_quote else c) (dq s)
  end.

Definition quoted (s : string) : string := String double_quote (s +:+ String double_quote "").

(** [strings.Join]. *)
Fixpoint strings_Join (elems : list string) (sep : string) : string :=
  match elems with
  | [] => ""
  | [s] => s
  | s :: elems => s +:+ sep +:+ strings_Join elems sep
  end.
