(* ===== verification/JqValidate.v ===== *)
(** * JqValidate: the read-only check of JQ expressions

    Models [karta/sdk/pkg/jq/validation.go].  The two reflection walks run over
    an explicit picture of what [reflect] shows: [rval] for the tagged Go
    structs of the API, [aval] for the syntax tree of a parsed query.  The
    parser and the syntax tree belong to gojq, so the parser is a parameter of
    the section. *)

From S2P Require Import Prelude Api.
From stdpp Require Import pretty.

(** ** The syntax tree, as [reflect] shows it *)

(** The operators, term types and node types the check looks at. *)
Inductive Operator :=
  | OpAssign | OpModify
  | OpUpdateAdd | OpUpdateSub | OpUpdateMul | OpUpdateDiv | OpUpdateMod | OpUpdateAlt
  | OpOther (text : string).

Inductive TermType := TermTypeRecurse | TermTypeOther (n : nat).

Inductive anode :=
  | NQuery (op : Operator)
  | NTerm (ty : TermType)
  | NFunc (name : string)
  | NOther.

Inductive aval :=
  | AInvalid
  | APointer (v : option aval)
  | AInterface (v : option aval)
  | AStruct (n : anode) (fields : list aval)
  | ASlice (vs : list aval)
  | AArray (vs : list aval)
  | AScalar.

Definition op_text (op : Operator) : string :=
  match op with
  | OpAssign => "=" | OpModify => "|=" | OpUpdateAdd => "+=" | OpUpdateSub => "-="
  | OpUpdateMul => "*=" | OpUpdateDiv => "/=" | OpUpdateMod => "%=" | OpUpdateAlt => "//="
  | OpOther t => t
  end.

Definition ErrDelFunc : error := Sentinel "del function is not allowed".
Definition ErrRecursiveDescent : error :=
  Sentinel "recursive descent operator '..' is not allowed".

(** [addr] is [v.CanAddr()]: only addressable structs are inspected. *)
Definition checkASTNode (addr : bool) (n : anode) : option error :=
  if negb addr then None else
  match n with
  | NQuery op =>
      match op with
      | OpAssign | OpModify | OpUpdateAdd | OpUpdateSub | OpUpdateMul | OpUpdateDiv
      | OpUpdateMod | OpUpdateAlt =>
          Some (Errorf "modifying operator '%s' is not allowed" [AStr (op_text op)] [])
      | OpOther _ => None
      end
  | NTerm TermTypeRecurse => Some ErrRecursiveDescent
  | NTerm (TermTypeOther _) => None
  | NFunc name =>
      if bool_decide (name = "del") then Some ErrDelFunc
      else if bool_decide (name ∈ ["range"; "paths"; "recurse"; "walk"; "repeat"])
      then Some (Errorf "function '%s' may produce excessive output and is not allowed"
                   [AStr name] [])
      else None
  | NOther => None
  end.

(** [for i := ...; if err := f(x); err != nil { return err }] *)
Fixpoint first_error {A} (f : A → option error) (l : list A) : option error :=
  match l with
  | [] => None
  | x :: l' => match f x with Some e => Some e | None => first_error f l' end
  end.

(** The element of a pointer and of a slice is addressable, the value inside an
    interface is not, a field or an array element is when its container is. *)
Fixpoint walkAST (addr : bool) (v : aval) : option error :=
  match v with
  | AInvalid | AScalar => None
  | APointer None | AInterface None => None
  | APointer (Some v') => walkAST true v'
  | AInterface (Some v') => walkAST false v'
  | AStruct n fields =>
      match checkASTNode addr n with
      | Some e => Some e
      | None => first_error (walkAST addr) fields
      end
  | ASlice vs => first_error (walkAST true) vs
  | AArray vs => first_error (walkAST addr) vs
  end.

(** [reflect.ValueOf(q)] is not addressable itself. *)
Definition ValidateParsedJQ (q : aval) : option error := walkAST false q.

(** ** Tagged structs, as [reflect] shows them *)

Inductive rval :=
  | RInvalid
  | RString (s : string)
  | RPointer (elem_is_string : bool) (v : option rval)
  | RStruct (fields : list rfield)
  | RSlice (elem_is_string : bool) (vs : list rval)
  | RArray (vs : list rval)
  | RMap (elem_is_string : bool) (kvs : list (string * rval))
  | RScalar
with rfield :=
  | RField (name : string) (exported : bool) (jq_tag : option string) (v : rval).

Definition isStringField (f : rval) : bool :=
  match f with RString _ => true | RPointer b _ => b | _ => false end.
Definition isStringSliceField (f : rval) : bool :=
  match f with RSlice b _ => b | _ => false end.
Definition isStringMapField (f : rval) : bool :=
  match f with RMap b _ => b | _ => false end.

Definition buildFieldPath (basePath fieldName : string) : string :=
  if bool_decide (basePath = "") then fieldName else (basePath ++ "." ++ fieldName)%string.

Definition indexPath (basePath : string) (i : nat) : string :=
  (basePath ++ "[" ++ pretty i ++ "]")%string.
Definition keyPath (basePath key : string) : string := (basePath ++ "[" ++ key ++ "]")%string.

(** [for i, x := range l { errs = append(errs, f(i, x)...) }] *)
Fixpoint collect {A} (f : nat → A → list error) (i : nat) (l : list A) : list error :=
  match l with
  | [] => []
  | x :: l' => f i x ++ collect f (S i) l'
  end.

(** ** The API structs, as [reflect] shows them

    One function per struct of [Api.v], with the field names and the [jq] tags
    of the source. *)

Definition rstr (name s : string) : rfield := RField name true None (RString s).
Definition rtag (name : string) (v : rval) : rfield := RField name true (Some "validate") v.
Definition rfld (name : string) (v : rval) : rfield := RField name true None v.
Definition ostr (o : option string) : rval := RPointer true (RString <$> o).
Definition optr {A} (f : A → rval) (o : option A) : rval := RPointer false (f <$> o).
Definition oslice {A} (f : A → rval) (l : list A) : rval := RSlice false (f <$> l).
Definition strs (l : list string) : rval := RSlice true (RString <$> l).

Definition reflect_GVK (g : GroupVersionKind) : rval :=
  RStruct [rstr "Group" (gvk_Group g); rstr "Version" (gvk_Version g); rstr "Kind" (gvk_Kind g)].

Definition reflect_SuspendAction (a : SuspendAction) : rval :=
  RStruct [rtag "Path" (RString (sa_Path a)); rstr "Value" (sa_Value a)].

Definition reflect_SuspendDefinition (d : SuspendDefinition) : rval :=
  RStruct [rfld "SuspendActions" (oslice reflect_SuspendAction (sus_SuspendActions d));
           rfld "ResumeActions" (oslice reflect_SuspendAction (sus_ResumeActions d))].

Definition reflect_FragmentedPodSpecDefinition (d : FragmentedPodSpecDefinition) : rval :=
  RStruct [rtag "SchedulerNamePath" (ostr (fd_SchedulerNamePath d));
           rtag "LabelsPath" (ostr (fd_LabelsPath d));
           rtag "AnnotationsPath" (ostr (fd_AnnotationsPath d));
           rtag "ResourcesPath" (ostr (fd_ResourcesPath d));
           rtag "ResourceClaimsPath" (ostr (fd_ResourceClaimsPath d));
           rtag "PodAffinityPath" (ostr (fd_PodAffinityPath d));
           rtag "NodeAffinityPath" (ostr (fd_NodeAffinityPath d));
           rtag "ContainersPath" (ostr (fd_ContainersPath d));
           rtag "ContainerPath" (ostr (fd_ContainerPath d));
           rtag "PriorityClassNamePath" (ostr (fd_PriorityClassNamePath d));
           rtag "ImagePath" (ostr (fd_ImagePath d))].

Definition reflect_SpecDefinition (d : SpecDefinition) : rval :=
  RStruct [rtag "PodTemplateSpecPath" (ostr (sd_PodTemplateSpecPath d));
           rtag "PodSpecPath" (ostr (sd_PodSpecPath d));
           rtag "MetadataPath" (ostr (sd_MetadataPath d));
           rfld "FragmentedPodSpecDefinition"
             (optr reflect_FragmentedPodSpecDefinition (sd_FragmentedPodSpecDefinition d))].

Definition reflect_ScaleDefinition (d : ScaleDefinition) : rval :=
  RStruct [rtag "ReplicasPath" (ostr (sc_ReplicasPath d));
           rtag "MinReplicasPath" (ostr (sc_MinReplicasPath d));
           rtag "MaxReplicasPath" (ostr (sc_MaxReplicasPath d))].

Definition reflect_ComponentTypeSelector (d : ComponentTypeSelector) : rval :=
  RStruct [rtag "KeyPath" (RString (cts_KeyPath d)); rfld "Value" (ostr (cts_Value d))].

Definition reflect_ComponentInstanceSelector (d : ComponentInstanceSelector) : rval :=
  RStruct [rtag "IdPath" (RString (cis_IdPath d))].

Definition reflect_ReplicaSelector (d : ReplicaSelector) : rval :=
  RStruct [rtag "KeyPath" (RString (rs_KeyPath d))].

Definition reflect_PodSelector (d : PodSelector) : rval :=
  RStruct [rfld "ComponentTypeSelector"
             (optr reflect_ComponentTypeSelector (ps_ComponentTypeSelector d));
           rfld "ComponentInstanceSelector"
             (optr reflect_ComponentInstanceSelector (ps_ComponentInstanceSelector d));
           rfld "ReplicaSelector" (optr reflect_ReplicaSelector (ps_ReplicaSelector d))].

Definition reflect_PhaseDefinition (d : PhaseDefinition) : rval :=
  RStruct [rtag "Path" (RString (pd_Path d))].

Definition reflect_ConditionsDefinition (d : ConditionsDefinition) : rval :=
  RStruct [rtag "Path" (RString (cnd_Path d));
           rstr "TypeFieldName" (cnd_TypeFieldName d);
           rstr "StatusFieldName" (cnd_StatusFieldName d);
           rfld "MessageFieldName" (ostr (cnd_MessageFieldName d));
           rfld "ReasonFieldName" (ostr (cnd_ReasonFieldName d))].

Definition reflect_ExpressionMatcher (d : ExpressionMatcher) : rval :=
  RStruct [rtag "Expression" (RString (em_Expression d));
           rstr "ExpectedResult" (em_ExpectedResult d)].

Definition reflect_ExpectedCondition (d : ExpectedCondition) : rval :=
  RStruct [rstr "Type" (ec_Type d); rfld "Status" (ostr (ec_Status d));
           rfld "Reason" (ostr (ec_Reason d))].

Definition reflect_StatusMatcher (d : StatusMatcher) : rval :=
  RStruct [rstr "ByPhase" (sm_ByPhase d);
           rfld "ByConditions" (oslice reflect_ExpectedCondition (sm_ByConditions d));
           rfld "ByExpression" (optr reflect_ExpressionMatcher (sm_ByExpression d))].

Definition reflect_StatusMappings (d : StatusMappings) : rval :=
  RStruct [rfld "Initializing" (oslice reflect_StatusMatcher (smp_Initializing d));
           rfld "Running" (oslice reflect_StatusMatcher (smp_Running d));
           rfld "Completed" (oslice reflect_StatusMatcher (smp_Completed d));
           rfld "Failed" (oslice reflect_StatusMatcher (smp_Failed d));
           rfld "Degraded" (oslice reflect_StatusMatcher (smp_Degraded d));
           rfld "Suspended" (oslice reflect_StatusMatcher (smp_Suspended d));
           rfld "Suspending" (oslice reflect_StatusMatcher (smp_Suspending d));
           rfld "Resuming" (oslice reflect_StatusMatcher (smp_Resuming d))].

Definition reflect_StatusDefinition (d : StatusDefinition) : rval :=
  RStruct [rfld "PhaseDefinition" (optr reflect_PhaseDefinition (std_PhaseDefinition d));
           rfld "ConditionsDefinition"
             (optr reflect_ConditionsDefinition (std_ConditionsDefinition d));
           rfld "StatusMappings" (reflect_StatusMappings (std_StatusMappings d))].

Definition reflect_ComponentDefinition (d : ComponentDefinition) : rval :=
  RStruct [rstr "Name" (cd_Name d);
           rfld "Kind" (optr reflect_GVK (cd_Kind d));
           rfld "OwnerRef" (ostr (cd_OwnerRef d));
           rfld "SpecDefinition" (optr reflect_SpecDefinition (cd_SpecDefinition d));
           rfld "ScaleDefinition" (optr reflect_ScaleDefinition (cd_ScaleDefinition d));
           rfld "StatusDefinition" (optr reflect_StatusDefinition (cd_StatusDefinition d));
           rfld "SuspendDefinition" (optr reflect_SuspendDefinition (cd_SuspendDefinition d));
           rtag "InstanceIdPath" (ostr (cd_InstanceIdPath d));
           rfld "PodSelector" (optr reflect_PodSelector (cd_PodSelector d))].

Definition reflect_StructureDefinition (d : StructureDefinition) : rval :=
  RStruct [rfld "RootComponent" (reflect_ComponentDefinition (st_RootComponent d));
           rfld "ChildComponents" (oslice reflect_ComponentDefinition (st_ChildComponents d));
           rfld "AdditionalChildKinds" (oslice reflect_GVK (st_AdditionalChildKinds d))].

Definition reflect_TopologyConstraint (d : TopologyConstraint) : rval :=
  RStruct [rstr "TopologyName" (tc_TopologyName d);
           rstr "PreferredTopologyLevel" (tc_PreferredTopologyLevel d);
           rstr "RequiredTopologyLevel" (tc_RequiredTopologyLevel d)].

Definition reflect_SubGroupComponentMapping (d : SubGroupComponentMapping) : rval :=
  RStruct [rstr "ComponentName" (sgm_ComponentName d);
           rfld "Topology" (optr reflect_TopologyConstraint (sgm_Topology d))].

Definition reflect_PodGroupComponentsMapping (d : PodGroupComponentsMapping) : rval :=
  RStruct [rstr "Name" (pgm_Name d);
           rfld "SubGroups" (oslice reflect_SubGroupComponentMapping (pgm_SubGroups d));
           rfld "Topology" (optr reflect_TopologyConstraint (pgm_Topology d))].

Definition reflect_PodGroupMemberDefinition (d : PodGroupMemberDefinition) : rval :=
  RStruct [rstr "ComponentName" (pm_ComponentName d);
           rtag "GroupByKeyPaths" (strs (pm_GroupByKeyPaths d));
           rtag "Filters" (strs (pm_Filters d))].

Definition reflect_PodGroupDefinition (d : PodGroupDefinition) : rval :=
  RStruct [rstr "Name" (pg_Name d);
           rfld "Members" (oslice reflect_PodGroupMemberDefinition (pg_Members d))].

Definition reflect_GangSchedulingInstruction (d : GangSchedulingInstruction) : rval :=
  RStruct [rfld "PodGroups" (oslice reflect_PodGroupDefinition (gs_PodGroups d));
           rfld "PodGroup" (optr reflect_PodGroupComponentsMapping (gs_PodGroup d))].

Definition reflect_OptimizationInstructions (d : OptimizationInstructions) : rval :=
  RStruct [rfld "GangScheduling"
             (optr reflect_GangSchedulingInstruction (oi_GangScheduling d))].

Definition reflect_KartaSpec (d : KartaSpec) : rval :=
  RStruct [rfld "StructureDefinition" (reflect_StructureDefinition (ks_StructureDefinition d));
           rfld "Instructions" (reflect_OptimizationInstructions (ks_Instructions d))].

(** The embedded Kubernetes metadata and the status are structs of
    apimachinery: [meta] lists their fields as [reflect] shows them, the
    metadata before the spec and the status after it. *)
Definition reflect_Karta (meta status : list rfield) (k : Karta) : rval :=
  RPointer false (Some (RStruct
    (meta ++ [rfld "Spec" (reflect_KartaSpec (k_Spec k))] ++ status))).

Section validate.
(** [gojq.Parse], with the parsed query as [reflect] shows it. *)
Context (Parse : string → result aval).

Definition validateStringField (field : rval) (fieldPath : string) : option error :=
  match field with
  | RPointer _ None => None
  | RPointer _ (Some (RString s)) | RString s =>
      if bool_decide (s = "") then None else
      match Parse s with
      | Fail err => Some (Errorf "failed to parse JQ expression '%s' at '%s': %w"
                            [AStr s; AStr fieldPath] [err])
      | Ok parsed =>
          match ValidateParsedJQ parsed with
          | Some err => Some (Errorf "JQ expression '%s' at '%s' failed validation: %w"
                                [AStr s; AStr fieldPath] [err])
          | None => None
          end
      end
  | _ => Some (Errorf "%s: jq:'validate' tag can only be used on string or *string fields"
                 [AStr fieldPath] [])
  end.

Definition handleTaggedStructField (field : rval) (currentPath : string) : list error :=
  if isStringField field then option_list (validateStringField field currentPath)
  else if isStringSliceField field then
    match field with
    | RSlice _ vs =>
        collect (λ j elem, option_list (validateStringField elem (indexPath currentPath j))) 0 vs
    | _ => []
    end
  else if isStringMapField field then
    match field with
    | RMap _ kvs =>
        collect (λ _ kv, option_list (validateStringField kv.2 (keyPath currentPath kv.1))) 0 kvs
    | _ => []
    end
  else [Errorf "%s: jq:'validate' tag can only be used on string, *string, []string, and map[K]string fields"
          [AStr currentPath] []].

Definition validateJQExpressionsInStruct
    (rec : rval → string → list error) (fields : list rfield) (basePath : string) : list error :=
  collect (λ _ '(RField name exported tag v),
    if negb exported then [] else
    let currentPath := buildFieldPath basePath name in
    if bool_decide (tag = Some "validate") then handleTaggedStructField v currentPath
    else rec v currentPath) 0 fields.

Definition validateJQExpressionsInSlice
    (rec : rval → string → list error) (vs : list rval) (basePath : string) : list error :=
  collect (λ i v, rec v (indexPath basePath i)) 0 vs.

Definition validateJQExpressionsInMap
    (rec : rval → string → list error) (kvs : list (string * rval)) (basePath : string)
    : list error :=
  collect (λ _ kv, rec kv.2 (keyPath basePath kv.1)) 0 kvs.

(** [dereferenced] is set below the one pointer the code follows. *)
Fixpoint validateJQExpressionsRecursive (dereferenced : bool) (v : rval) (fieldPath : string)
    : list error :=
  match v with
  | RPointer _ (Some v') =>
      if dereferenced then [] else validateJQExpressionsRecursive true v' fieldPath
  | RStruct fields =>
      validateJQExpressionsInStruct (validateJQExpressionsRecursive false) fields fieldPath
  | RSlice _ vs | RArray vs =>
      validateJQExpressionsInSlice (validateJQExpressionsRecursive false) vs fieldPath
  | RMap _ kvs =>
      validateJQExpressionsInMap (validateJQExpressionsRecursive false) kvs fieldPath
  | _ => []
  end.

Definition ValidateJQExpressions (object : rval) : list error :=
  validateJQExpressionsRecursive false object "".
End validate.

(** ** What the syntax walk establishes *)

(** [inspected addr v n]: the walk of [v] reaches the node [n] at an
    addressable struct. *)
Inductive inspected : bool → aval → anode → Prop :=
  | inspected_here n fs : inspected true (AStruct n fs) n
  | inspected_pointer a v n : inspected true v n → inspected a (APointer (Some v)) n
  | inspected_interface a v n : inspected false v n → inspected a (AInterface (Some v)) n
  | inspected_field a m fs v n : v ∈ fs → inspected a v n → inspected a (AStruct m fs) n
  | inspected_slice a vs v n : v ∈ vs → inspected true v n → inspected a (ASlice vs) n
  | inspected_array a vs v n : v ∈ vs → inspected a v n → inspected a (AArray vs) n.

(** The constructs that write to the document or may blow up its output. *)
Definition forbidden (n : anode) : Prop :=
  match n with
  | NQuery op => ∀ t, op ≠ OpOther t
  | NTerm ty => ty = TermTypeRecurse
  | NFunc f => f ∈ ["del"; "range"; "paths"; "recurse"; "walk"; "repeat"]
  | NOther => False
  end.

Lemma checkASTNode_None n : checkASTNode true n = None ↔ ¬ forbidden n.
Proof.
  destruct n as [op|ty|f|]; cbn beta iota delta [checkASTNode negb forbidden].
  - destruct op; (split; [try done; intros _ H; by eapply H|]); try done;
      intros H; destruct H; done.
  - by destruct ty.
  - case_bool_decide as H1; [subst; split; [done|set_solver]|].
    case_bool_decide as H2; (split; [try done|try done; set_solver]). set_solver.
  - naive_solver.
Qed.

Lemma first_error_None {A} (f : A → option error) l :
  first_error f l = None ↔ ∀ x, x ∈ l → f x = None.
Proof.
  induction l as [|x l IH]; simpl; [set_solver|].
  destruct (f x) eqn:E; [split; [done|]|rewrite IH; set_solver].
  intros H. rewrite H in E by set_solver. done.
Qed.

Fixpoint aval_ind_nested (P : aval → Prop)
    (Hinv : P AInvalid) (Hsc : P AScalar)
    (Hpn : P (APointer None)) (Hin : P (AInterface None))
    (Hps : ∀ v, P v → P (APointer (Some v))) (His : ∀ v, P v → P (AInterface (Some v)))
    (Hst : ∀ n fs, Forall P fs → P (AStruct n fs))
    (Hsl : ∀ vs, Forall P vs → P (ASlice vs)) (Har : ∀ vs, Forall P vs → P (AArray vs))
    (v : aval) : P v :=
  let rec := aval_ind_nested P Hinv Hsc Hpn Hin Hps His Hst Hsl Har in
  let all := fix all l : Forall P l :=
    match l with
    | [] => List.Forall_nil P
    | x :: l' => List.Forall_cons P x l' (rec x) (all l')
    end in
  match v with
  | AInvalid => Hinv
  | AScalar => Hsc
  | APointer None => Hpn
  | AInterface None => Hin
  | APointer (Some v') => Hps v' (rec v')
  | AInterface (Some v') => His v' (rec v')
  | AStruct n fs => Hst n fs (all fs)
  | ASlice vs => Hsl vs (all vs)
  | AArray vs => Har vs (all vs)
  end.

Lemma walkAST_None addr v :
  walkAST addr v = None ↔ ∀ n, inspected addr v n → ¬ forbidden n.
Proof.
  revert addr.
  induction v as [| | | |v IH|v IH|m fs IH|vs IH|vs IH] using aval_ind_nested;
    intros addr; simpl; try setoid_rewrite Forall_forall in IH.
  1-4: by split; [intros _ n' Hn; inversion Hn|].
  - rewrite IH. split; intros Hw n' Hn; [inversion Hn; subst; by apply Hw|].
    apply Hw. by constructor.
  - rewrite IH. split; intros Hw n' Hn; [inversion Hn; subst; by apply Hw|].
    apply Hw. by constructor.
  - destruct (checkASTNode addr m) eqn:E.
    + split; [done|]. intros Hw. destruct addr; [|done].
      assert (¬ forbidden m) as Hn%checkASTNode_None by (apply Hw; constructor). congruence.
    + rewrite first_error_None. split.
      * intros Hw n' Hn. inversion Hn; subst; [by apply checkASTNode_None|].
        eapply IH; eauto.
      * intros Hw v Hv. apply IH; [done|]. intros n' Hn. apply Hw. by econstructor.
  - rewrite first_error_None. split.
    + intros Hw n' Hn. inversion Hn; subst. eapply IH; eauto.
    + intros Hw v Hv. apply IH; [done|]. intros n' Hn. apply Hw. by econstructor.
  - rewrite first_error_None. split.
    + intros Hw n' Hn. inversion Hn; subst. eapply IH; eauto.
    + intros Hw v Hv. apply IH; [done|]. intros n' Hn. apply Hw. by econstructor.
Qed.

(** ** What the tag-driven walk establishes *)

(** The expressions a tagged field holds. *)
Definition field_strings (v : rval) : list string :=
  let str w := match w with RString s => [s] | _ => [] end in
  match v with
  | RString s => [s]
  | RPointer _ (Some w) => str w
  | RSlice _ vs => vs ≫= str
  | RMap _ kvs => kvs ≫= λ kv, str kv.2
  | _ => []
  end.

Fixpoint tagged_strings (dereferenced : bool) (v : rval) : list string :=
  match v with
  | RPointer _ (Some v') => if dereferenced then [] else tagged_strings true v'
  | RStruct fields => fields ≫= λ '(RField _ exported tag w),
      if negb exported then []
      else if bool_decide (tag = Some "validate") then field_strings w
      else tagged_strings false w
  | RSlice _ vs | RArray vs => vs ≫= tagged_strings false
  | RMap _ kvs => kvs ≫= λ kv, tagged_strings false kv.2
  | _ => []
  end.

(** A tag sits on a string, an optional string, a string slice or a string map. *)
Definition string_field (v : rval) : bool :=
  let str w := match w with RString _ => true | _ => false end in
  match v with
  | RString _ => true
  | RPointer b None => b
  | RPointer b (Some w) => b && str w
  | RSlice b vs => b && forallb str vs
  | RMap b kvs => b && forallb (λ kv, str kv.2) kvs
  | _ => false
  end.

Fixpoint well_tagged (v : rval) : bool :=
  match v with
  | RPointer _ (Some v') => well_tagged v'
  | RStruct fields => forallb (λ '(RField _ exported tag w),
      if bool_decide (tag = Some "validate") then string_field w else well_tagged w) fields
  | RSlice _ vs | RArray vs => forallb well_tagged vs
  | RMap _ kvs => forallb (λ kv, well_tagged kv.2) kvs
  | _ => true
  end.

Lemma collect_nil {A} (f : nat → A → list error) i l :
  collect f i l = [] ↔ ∀ j x, l !! j = Some x → f (i + j) x = [].
Proof.
  revert i. induction l as [|y l IH]; intros i; simpl.
  - split; [intros _ j x Hx; by rewrite lookup_nil in Hx|done].
  - rewrite app_nil, IH. split.
    + intros [H1 H2] [|j] x Hx; simpl in Hx; simplify_eq.
      * by rewrite Nat.add_0_r.
      * rewrite <- Nat.add_succ_comm. by apply H2.
    + intros H. split; [by rewrite <- (Nat.add_0_r i); apply (H 0)|].
      intros j x Hx. rewrite Nat.add_succ_comm. by apply (H (S j)).
Qed.

(** The value of [f] at an element decides emptiness, whatever its index. *)
Lemma collect_Forall {A} (f : nat → A → list error) (P : A → Prop) l :
  (∀ i x, x ∈ l → f i x = [] ↔ P x) →
  ∀ i, collect f i l = [] ↔ Forall P l.
Proof.
  intros Hf i. rewrite collect_nil, Forall_lookup. split; intros H j x Hx.
  - eapply Hf; [by eapply list_elem_of_lookup_2|]. by apply H.
  - apply Hf; [by eapply list_elem_of_lookup_2|]. eauto.
Qed.

Lemma Forall_bind {A B} (P : B → Prop) (f : A → list B) l :
  Forall P (l ≫= f) ↔ Forall (λ x, Forall P (f x)) l.
Proof.
  induction l as [|x l IH]; csimpl; [by rewrite !Forall_nil|].
  by rewrite Forall_app, Forall_cons, IH.
Qed.

Fixpoint rval_ind_nested (P : rval → Prop)
    (Hinv : P RInvalid) (Hsc : P RScalar) (Hs : ∀ s, P (RString s))
    (Hpn : ∀ b, P (RPointer b None)) (Hps : ∀ b v, P v → P (RPointer b (Some v)))
    (Hst : ∀ fs, Forall (λ '(RField _ _ _ v), P v) fs → P (RStruct fs))
    (Hsl : ∀ b vs, Forall P vs → P (RSlice b vs)) (Har : ∀ vs, Forall P vs → P (RArray vs))
    (Hmp : ∀ b kvs, Forall (λ kv, P kv.2) kvs → P (RMap b kvs))
    (v : rval) : P v :=
  let rec := rval_ind_nested P Hinv Hsc Hs Hpn Hps Hst Hsl Har Hmp in
  let all := fix all l : Forall P l :=
    match l with
    | [] => List.Forall_nil P
    | x :: l' => List.Forall_cons P x l' (rec x) (all l')
    end in
  match v with
  | RInvalid => Hinv
  | RScalar => Hsc
  | RString s => Hs s
  | RPointer b None => Hpn b
  | RPointer b (Some v') => Hps b v' (rec v')
  | RStruct fs => Hst fs
      ((fix go l : Forall (λ '(RField _ _ _ v), P v) l :=
        match l with
        | [] => List.Forall_nil _
        | RField n e t w :: l' => List.Forall_cons _ (RField n e t w) l' (rec w) (go l')
        end) fs)
  | RSlice b vs => Hsl b vs (all vs)
  | RArray vs => Har vs (all vs)
  | RMap b kvs => Hmp b kvs
      ((fix go l : Forall (λ kv, P kv.2) l :=
        match l with
        | [] => List.Forall_nil _
        | kv :: l' => List.Forall_cons _ kv l' (rec kv.2) (go l')
        end) kvs)
  end.

Section accepted.
Context (Parse : string → result aval).

(** An expression the check lets through. *)
Definition jq_accepted (s : string) : Prop :=
  s = "" ∨ ∃ q, Parse s = Ok q ∧ ValidateParsedJQ q = None.

Lemma validateStringField_string p s :
  option_list (validateStringField Parse (RString s) p) = [] ↔ jq_accepted s.
Proof.
  unfold jq_accepted. cbn [validateStringField].
  case_bool_decide as Hs; [naive_solver|].
  destruct (Parse s) as [q|e]; [destruct (ValidateParsedJQ q) eqn:E|]; simpl; naive_solver.
Qed.

Lemma handleTaggedStructField_nil v p :
  string_field v = true →
  handleTaggedStructField Parse v p = [] ↔ Forall jq_accepted (field_strings v).
Proof.
  destruct v as [|s|b [w|]|fs|b vs|vs|b kvs|]; try done; intros Hv; simpl in Hv;
    unfold handleTaggedStructField;
    cbn [field_strings isStringField isStringSliceField isStringMapField].
  - rewrite Forall_singleton. apply validateStringField_string.
  - apply andb_true_iff in Hv as [-> Hw]. destruct w as [| s | | | | | | ]; try done.
    rewrite Forall_singleton. apply (validateStringField_string p s).
  - subst b. by rewrite Forall_nil.
  - apply andb_true_iff in Hv as [-> Hw]. rewrite Forall_bind.
    apply collect_Forall. intros i x Hx. rewrite forallb_forall in Hw.
    specialize (Hw x ltac:(by apply list_elem_of_In)). destruct x; try done.
    rewrite Forall_singleton. apply validateStringField_string.
  - apply andb_true_iff in Hv as [-> Hw]. rewrite Forall_bind.
    apply collect_Forall. intros i [k x] Hx. rewrite forallb_forall in Hw.
    specialize (Hw (k, x) ltac:(by apply list_elem_of_In)). destruct x; try done.
    cbn [fst snd]. rewrite Forall_singleton. apply validateStringField_string.
Qed.

(** On well-tagged structs the walk reports nothing exactly when every
    expression under a tag is accepted: no tagged field is missed. *)
Lemma validateJQExpressionsRecursive_nil v :
  well_tagged v = true → ∀ d p,
  validateJQExpressionsRecursive Parse d v p = [] ↔
  Forall jq_accepted (tagged_strings d v).
Proof.
  assert (Hlist : ∀ (vs : list rval) p,
    Forall (λ v, well_tagged v = true → ∀ d p,
      validateJQExpressionsRecursive Parse d v p = [] ↔
      Forall jq_accepted (tagged_strings d v)) vs →
    forallb well_tagged vs = true →
    validateJQExpressionsInSlice (validateJQExpressionsRecursive Parse false) vs p = [] ↔
    Forall jq_accepted (vs ≫= tagged_strings false)).
  { intros vs p IH Hw. rewrite Forall_bind. apply collect_Forall.
    intros i x Hx. rewrite Forall_forall in IH. apply IH; [done|].
    rewrite forallb_forall in Hw. by apply Hw, list_elem_of_In. }
  induction v as [| |s|b|b v IH|fs IH|b vs IH|vs IH|b kvs IH] using rval_ind_nested;
    intros Hw d p; simpl in Hw |- *; try by rewrite Forall_nil.
  - destruct d; [by rewrite Forall_nil|]. by apply IH.
  - rewrite Forall_bind. apply collect_Forall. intros i [n e t w] Hx.
    rewrite Forall_forall in IH. specialize (IH _ Hx). simpl in IH.
    rewrite forallb_forall in Hw.
    specialize (Hw _ ltac:(by apply list_elem_of_In)). simpl in Hw.
    destruct e; simpl; [|by rewrite Forall_nil].
    destruct (bool_decide (t = Some "validate")); [by apply handleTaggedStructField_nil|].
    by apply IH.
  - by apply Hlist.
  - by apply Hlist.
  - rewrite Forall_bind. apply collect_Forall. intros i kv Hx.
    rewrite Forall_forall in IH. apply IH; [done|].
    rewrite forallb_forall in Hw. by apply (Hw kv), list_elem_of_In.
Qed.
End accepted.

(** ** The expressions of a Karta

    What a reader of the API would list: every field documented as a JQ path,
    expression or filter. *)

Definition suspend_strings (d : SuspendDefinition) : list string :=
  (sa_Path <$> sus_SuspendActions d) ++ (sa_Path <$> sus_ResumeActions d).

Definition fragmented_strings (d : FragmentedPodSpecDefinition) : list string :=
  [fd_SchedulerNamePath d; fd_LabelsPath d; fd_AnnotationsPath d; fd_ResourcesPath d;
   fd_ResourceClaimsPath d; fd_PodAffinityPath d; fd_NodeAffinityPath d; fd_ContainersPath d;
   fd_ContainerPath d; fd_PriorityClassNamePath d; fd_ImagePath d] ≫= option_list.

Definition spec_strings (d : SpecDefinition) : list string :=
  ([sd_PodTemplateSpecPath d; sd_PodSpecPath d; sd_MetadataPath d] ≫= option_list) ++
  (option_list (sd_FragmentedPodSpecDefinition d) ≫= fragmented_strings).

Definition scale_strings (d : ScaleDefinition) : list string :=
  [sc_ReplicasPath d; sc_MinReplicasPath d; sc_MaxReplicasPath d] ≫= option_list.

Definition selector_strings (d : PodSelector) : list string :=
  (cts_KeyPath <$> option_list (ps_ComponentTypeSelector d)) ++
  (cis_IdPath <$> option_list (ps_ComponentInstanceSelector d)) ++
  (rs_KeyPath <$> option_list (ps_ReplicaSelector d)).

Definition matcher_strings (d : StatusMatcher) : list string :=
  em_Expression <$> option_list (sm_ByExpression d).

Definition mappings_strings (d : StatusMappings) : list string :=
  [smp_Initializing d; smp_Running d; smp_Completed d; smp_Failed d; smp_Degraded d;
   smp_Suspended d; smp_Suspending d; smp_Resuming d] ≫= λ ms, ms ≫= matcher_strings.

Definition status_strings (d : StatusDefinition) : list string :=
  (pd_Path <$> option_list (std_PhaseDefinition d)) ++
  (cnd_Path <$> option_list (std_ConditionsDefinition d)) ++
  mappings_strings (std_StatusMappings d).

Definition component_strings (d : ComponentDefinition) : list string :=
  (option_list (cd_SpecDefinition d) ≫= spec_strings) ++
  (option_list (cd_ScaleDefinition d) ≫= scale_strings) ++
  (option_list (cd_StatusDefinition d) ≫= status_strings) ++
  (option_list (cd_SuspendDefinition d) ≫= suspend_strings) ++
  option_list (cd_InstanceIdPath d) ++
  (option_list (cd_PodSelector d) ≫= selector_strings).

Definition gang_strings (d : GangSchedulingInstruction) : list string :=
  gs_PodGroups d ≫= λ g, pg_Members g ≫= λ m, pm_GroupByKeyPaths m ++ pm_Filters m.

Definition jq_strings (k : Karta) : list string :=
  component_strings (RootComponent k) ++
  (ChildComponents k ≫= component_strings) ++
  (option_list (GangScheduling k) ≫= gang_strings).

(** A field list without any tagged string below it. *)
Definition untagged (fs : list rfield) : Prop :=
  well_tagged (RStruct fs) = true ∧ tagged_strings false (RStruct fs) = [].

Section reflect_lemmas.
Lemma strings_ostr d o : tagged_strings d (ostr o) = [].
Proof. by destruct d, o. Qed.
Lemma field_strings_ostr o : field_strings (ostr o) = option_list o.
Proof. by destruct o. Qed.
Lemma field_strings_strs l : field_strings (strs l) = l.
Proof. unfold strs. simpl. induction l as [|x l IH]; csimpl; [done|]. by rewrite IH. Qed.
Lemma strings_optr {A} (f : A → rval) (g : A → list string) o :
  (∀ x, tagged_strings true (f x) = g x) →
  tagged_strings false (optr f o) = option_list o ≫= g.
Proof. intros Hf. destruct o as [x|]; csimpl; [|done]. by rewrite Hf, app_nil_r. Qed.
Lemma strings_oslice {A} (f : A → rval) (g : A → list string) l :
  (∀ x, tagged_strings false (f x) = g x) →
  tagged_strings false (oslice f l) = l ≫= g.
Proof.
  intros Hf. unfold oslice. simpl. induction l as [|x l IH]; csimpl; [done|]. by rewrite Hf, IH.
Qed.
Lemma string_field_ostr o : string_field (ostr o) = true.
Proof. by destruct o. Qed.
Lemma string_field_strs l : string_field (strs l) = true.
Proof. unfold strs. simpl. by induction l. Qed.
Lemma well_tagged_ostr o : well_tagged (ostr o) = true.
Proof. by destruct o. Qed.
Lemma well_tagged_optr {A} (f : A → rval) o :
  (∀ x, well_tagged (f x) = true) → well_tagged (optr f o) = true.
Proof. intros H. destruct o; simpl; auto. Qed.
Lemma well_tagged_oslice {A} (f : A → rval) l :
  (∀ x, well_tagged (f x) = true) → well_tagged (oslice f l) = true.
Proof.
  intros H. unfold oslice. simpl. apply forallb_forall. intros v Hv%list_elem_of_In.
  apply list_elem_of_fmap in Hv as (x & -> & _). apply H.
Qed.
End reflect_lemmas.

Create HintDb reflect discriminated.
Create Rewrite HintDb reflect.
#[export] Hint Resolve string_field_ostr string_field_strs well_tagged_ostr
  well_tagged_optr well_tagged_oslice : reflect.

(** One struct is well tagged when each of its fields is. *)
Definition field_ok (f : rfield) : Prop :=
  match f with
  | RField _ _ tag w =>
      if bool_decide (tag = Some "validate") then string_field w = true else well_tagged w = true
  end.

Lemma well_tagged_struct fs : Forall field_ok fs → well_tagged (RStruct fs) = true.
Proof.
  intros H. simpl. apply forallb_forall. intros [n e t w] Hx%list_elem_of_In.
  rewrite Forall_forall in H. specialize (H _ Hx). simpl in H. by case_bool_decide.
Qed.

Lemma field_ok_rtag n v : string_field v = true → field_ok (rtag n v).
Proof. done. Qed.
Lemma field_ok_rfld n v : well_tagged v = true → field_ok (rfld n v).
Proof. done. Qed.
Lemma field_ok_rstr n s : field_ok (rstr n s).
Proof. done. Qed.
Lemma string_field_RString s : string_field (RString s) = true.
Proof. done. Qed.

#[export] Hint Resolve field_ok_rtag field_ok_rfld field_ok_rstr string_field_RString : reflect.

Ltac solve_tagged :=
  repeat intro; apply well_tagged_struct;
  repeat (apply Forall_cons_2 || apply Forall_nil_2); auto with reflect.

Lemma wt_SuspendAction x : well_tagged (reflect_SuspendAction x) = true.
Proof. done. Qed.
Lemma wt_GVK x : well_tagged (reflect_GVK x) = true.
Proof. done. Qed.
#[export] Hint Resolve wt_SuspendAction wt_GVK : reflect.
Lemma wt_Suspend x : well_tagged (reflect_SuspendDefinition x) = true.
Proof. solve_tagged. Qed.
Lemma wt_Fragmented x : well_tagged (reflect_FragmentedPodSpecDefinition x) = true.
Proof. solve_tagged. Qed.
#[export] Hint Resolve wt_Suspend wt_Fragmented : reflect.
Lemma wt_Spec x : well_tagged (reflect_SpecDefinition x) = true.
Proof. solve_tagged. Qed.
Lemma wt_Scale x : well_tagged (reflect_ScaleDefinition x) = true.
Proof. solve_tagged. Qed.
Lemma wt_TypeSelector x : well_tagged (reflect_ComponentTypeSelector x) = true.
Proof. solve_tagged. Qed.
Lemma wt_InstanceSelector x : well_tagged (reflect_ComponentInstanceSelector x) = true.
Proof. done. Qed.
Lemma wt_ReplicaSelector x : well_tagged (reflect_ReplicaSelector x) = true.
Proof. done. Qed.
#[export] Hint Resolve wt_Spec wt_Scale wt_TypeSelector wt_InstanceSelector wt_ReplicaSelector
  : reflect.
Lemma wt_PodSelector x : well_tagged (reflect_PodSelector x) = true.
Proof. solve_tagged. Qed.
Lemma wt_Phase x : well_tagged (reflect_PhaseDefinition x) = true.
Proof. done. Qed.
Lemma wt_Conditions x : well_tagged (reflect_ConditionsDefinition x) = true.
Proof. solve_tagged. Qed.
Lemma wt_Expression x : well_tagged (reflect_ExpressionMatcher x) = true.
Proof. done. Qed.
Lemma wt_Expected x : well_tagged (reflect_ExpectedCondition x) = true.
Proof. solve_tagged. Qed.
#[export] Hint Resolve wt_PodSelector wt_Phase wt_Conditions wt_Expression wt_Expected : reflect.
Lemma wt_Matcher x : well_tagged (reflect_StatusMatcher x) = true.
Proof. solve_tagged. Qed.
#[export] Hint Resolve wt_Matcher : reflect.
Lemma wt_Mappings x : well_tagged (reflect_StatusMappings x) = true.
Proof. solve_tagged. Qed.
#[export] Hint Resolve wt_Mappings : reflect.
Lemma wt_Status x : well_tagged (reflect_StatusDefinition x) = true.
Proof. solve_tagged. Qed.
#[export] Hint Resolve wt_Status : reflect.
Lemma wt_Component x : well_tagged (reflect_ComponentDefinition x) = true.
Proof. solve_tagged. Qed.
#[export] Hint Resolve wt_Component : reflect.
Lemma wt_Structure x : well_tagged (reflect_StructureDefinition x) = true.
Proof. solve_tagged. Qed.
Lemma wt_Topology x : well_tagged (reflect_TopologyConstraint x) = true.
Proof. done. Qed.
#[export] Hint Resolve wt_Structure wt_Topology : reflect.
Lemma wt_SubGroup x : well_tagged (reflect_SubGroupComponentMapping x) = true.
Proof. solve_tagged. Qed.
#[export] Hint Resolve wt_SubGroup : reflect.
Lemma wt_Mapping x : well_tagged (reflect_PodGroupComponentsMapping x) = true.
Proof. solve_tagged. Qed.
Lemma wt_Member x : well_tagged (reflect_PodGroupMemberDefinition x) = true.
Proof. solve_tagged. Qed.
#[export] Hint Resolve wt_Mapping wt_Member : reflect.
Lemma wt_Group x : well_tagged (reflect_PodGroupDefinition x) = true.
Proof. solve_tagged. Qed.
#[export] Hint Resolve wt_Group : reflect.
Lemma wt_Gang x : well_tagged (reflect_GangSchedulingInstruction x) = true.
Proof. solve_tagged. Qed.
#[export] Hint Resolve wt_Gang : reflect.
Lemma wt_Instructions x : well_tagged (reflect_OptimizationInstructions x) = true.
Proof. solve_tagged. Qed.
#[export] Hint Resolve wt_Instructions : reflect.
Lemma wt_KartaSpec x : well_tagged (reflect_KartaSpec x) = true.
Proof. solve_tagged. Qed.
#[export] Hint Resolve wt_KartaSpec : reflect.

Section strings_of_structs.
Lemma ts_nil d : tagged_strings d (RStruct []) = [].
Proof. done. Qed.
Lemma ts_rtag d n v fs :
  tagged_strings d (RStruct (rtag n v :: fs)) = field_strings v ++ tagged_strings d (RStruct fs).
Proof. done. Qed.
Lemma ts_rfld d n v fs :
  tagged_strings d (RStruct (rfld n v :: fs)) =
  tagged_strings false v ++ tagged_strings d (RStruct fs).
Proof. done. Qed.
Lemma ts_rstr d n s fs :
  tagged_strings d (RStruct (rstr n s :: fs)) = tagged_strings d (RStruct fs).
Proof. done. Qed.
Lemma fs_RString s : field_strings (RString s) = [s].
Proof. done. Qed.
End strings_of_structs.

#[export] Hint Rewrite ts_nil ts_rtag ts_rfld ts_rstr fs_RString field_strings_ostr
  field_strings_strs strings_ostr app_nil_r : reflect.
#[export] Hint Rewrite <- app_assoc : reflect.

(** Rewrite a struct into the strings of its fields; [t] knows the nested ones. *)
Ltac solve_strings t :=
  intros; match goal with |- tagged_strings _ (?f _) = _ => unfold f end;
  repeat (autorewrite with reflect; t);
  autorewrite with reflect; try done.

Lemma option_list_fmap_bind {A} (f : A → string) o :
  (option_list o ≫= λ x, [f x]) = f <$> option_list o.
Proof. by destruct o. Qed.

Lemma str_SuspendAction d x : tagged_strings d (reflect_SuspendAction x) = [sa_Path x].
Proof. solve_strings idtac. Qed.
Lemma str_GVK d x : tagged_strings d (reflect_GVK x) = [].
Proof. solve_strings idtac. Qed.
Lemma list_bind_singleton {A B} (f : A → B) l : (l ≫= λ x, [f x]) = f <$> l.
Proof. induction l as [|x l IH]; csimpl; [done|]. by rewrite IH. Qed.
Lemma list_bind_nil {A B} (l : list A) : (l ≫= λ _, ([] : list B)) = [].
Proof. induction l as [|x l IH]; csimpl; done. Qed.
#[export] Hint Rewrite @list_bind_singleton @list_bind_nil : reflect.

Lemma str_Suspend d x : tagged_strings d (reflect_SuspendDefinition x) = suspend_strings x.
Proof. solve_strings ltac:(rewrite ?(strings_oslice _ _ _ (str_SuspendAction false))). Qed.
Lemma str_Fragmented d x :
  tagged_strings d (reflect_FragmentedPodSpecDefinition x) = fragmented_strings x.
Proof. solve_strings idtac. unfold fragmented_strings. csimpl. by rewrite app_nil_r. Qed.
Lemma str_Spec d x : tagged_strings d (reflect_SpecDefinition x) = spec_strings x.
Proof.
  solve_strings ltac:(rewrite ?(strings_optr _ _ _ (str_Fragmented true))).
  unfold spec_strings. csimpl. by autorewrite with reflect.
Qed.
Lemma str_Scale d x : tagged_strings d (reflect_ScaleDefinition x) = scale_strings x.
Proof. solve_strings idtac. unfold scale_strings. csimpl. by rewrite app_nil_r. Qed.
Lemma str_TypeSelector d x : tagged_strings d (reflect_ComponentTypeSelector x) = [cts_KeyPath x].
Proof. solve_strings idtac. Qed.
Lemma str_InstanceSelector d x :
  tagged_strings d (reflect_ComponentInstanceSelector x) = [cis_IdPath x].
Proof. solve_strings idtac. Qed.
Lemma str_ReplicaSelector d x : tagged_strings d (reflect_ReplicaSelector x) = [rs_KeyPath x].
Proof. solve_strings idtac. Qed.
Lemma str_PodSelector d x : tagged_strings d (reflect_PodSelector x) = selector_strings x.
Proof.
  solve_strings ltac:(rewrite ?(strings_optr _ _ _ (str_TypeSelector true)),
    ?(strings_optr _ _ _ (str_InstanceSelector true)),
    ?(strings_optr _ _ _ (str_ReplicaSelector true))).
Qed.
Lemma str_Phase d x : tagged_strings d (reflect_PhaseDefinition x) = [pd_Path x].
Proof. solve_strings idtac. Qed.
Lemma str_Conditions d x : tagged_strings d (reflect_ConditionsDefinition x) = [cnd_Path x].
Proof. solve_strings idtac. Qed.
Lemma str_Expression d x : tagged_strings d (reflect_ExpressionMatcher x) = [em_Expression x].
Proof. solve_strings idtac. Qed.
Lemma str_Expected d x : tagged_strings d (reflect_ExpectedCondition x) = [].
Proof. solve_strings idtac. Qed.
Lemma str_Matcher d x : tagged_strings d (reflect_StatusMatcher x) = matcher_strings x.
Proof.
  solve_strings ltac:(rewrite ?(strings_oslice _ _ _ (str_Expected false)),
    ?(strings_optr _ _ _ (str_Expression true))).
Qed.
Lemma str_Mappings d x : tagged_strings d (reflect_StatusMappings x) = mappings_strings x.
Proof.
  solve_strings ltac:(rewrite ?(strings_oslice _ _ _ (str_Matcher false))).
  unfold mappings_strings. csimpl. by rewrite app_nil_r.
Qed.
Lemma str_Status d x : tagged_strings d (reflect_StatusDefinition x) = status_strings x.
Proof.
  solve_strings ltac:(rewrite ?(strings_optr _ _ _ (str_Phase true)),
    ?(strings_optr _ _ _ (str_Conditions true)), ?str_Mappings).
Qed.
Lemma str_Component d x : tagged_strings d (reflect_ComponentDefinition x) = component_strings x.
Proof.
  solve_strings ltac:(rewrite ?(strings_optr _ _ _ (str_GVK true)),
    ?(strings_optr _ _ _ (str_Spec true)), ?(strings_optr _ _ _ (str_Scale true)),
    ?(strings_optr _ _ _ (str_Status true)), ?(strings_optr _ _ _ (str_Suspend true)),
    ?(strings_optr _ _ _ (str_PodSelector true))).
Qed.
Lemma str_Structure d x : tagged_strings d (reflect_StructureDefinition x) =
  component_strings (st_RootComponent x) ++ (st_ChildComponents x ≫= component_strings).
Proof.
  solve_strings ltac:(rewrite ?str_Component, ?(strings_oslice _ _ _ (str_Component false)),
    ?(strings_oslice _ _ _ (str_GVK false))).
Qed.
Lemma str_Topology d x : tagged_strings d (reflect_TopologyConstraint x) = [].
Proof. solve_strings idtac. Qed.
Lemma str_SubGroup d x : tagged_strings d (reflect_SubGroupComponentMapping x) = [].
Proof. solve_strings ltac:(rewrite ?(strings_optr _ _ _ (str_Topology true))). Qed.
Lemma str_Mapping d x : tagged_strings d (reflect_PodGroupComponentsMapping x) = [].
Proof.
  solve_strings ltac:(rewrite ?(strings_optr _ _ _ (str_Topology true)),
    ?(strings_oslice _ _ _ (str_SubGroup false))).
Qed.
Lemma str_Member d x : tagged_strings d (reflect_PodGroupMemberDefinition x) =
  pm_GroupByKeyPaths x ++ pm_Filters x.
Proof. solve_strings idtac. Qed.
Lemma str_Group d x : tagged_strings d (reflect_PodGroupDefinition x) =
  pg_Members x ≫= λ m, pm_GroupByKeyPaths m ++ pm_Filters m.
Proof. solve_strings ltac:(rewrite ?(strings_oslice _ _ _ (str_Member false))). Qed.
Lemma str_Gang d x : tagged_strings d (reflect_GangSchedulingInstruction x) = gang_strings x.
Proof.
  solve_strings ltac:(rewrite ?(strings_oslice _ _ _ (str_Group false)),
    ?(strings_optr _ _ _ (str_Mapping true))).
Qed.
Lemma str_Instructions d x : tagged_strings d (reflect_OptimizationInstructions x) =
  option_list (oi_GangScheduling x) ≫= gang_strings.
Proof. solve_strings ltac:(rewrite ?(strings_optr _ _ _ (str_Gang true))). Qed.

Lemma jq_strings_reflect meta status k :
  untagged meta → untagged status →
  tagged_strings false (reflect_Karta meta status k) = jq_strings k.
Proof.
  intros [_ Hm] [_ Hs]. unfold reflect_Karta. cbn [tagged_strings] in Hm, Hs |- *.
  rewrite !bind_app, Hm, Hs, app_nil_r. cbn [app].
  change (tagged_strings true (RStruct [rfld "Spec" (reflect_KartaSpec (k_Spec k))]) = jq_strings k).
  autorewrite with reflect. unfold reflect_KartaSpec. autorewrite with reflect.
  rewrite str_Structure, str_Instructions. by autorewrite with reflect.
Qed.

Lemma well_tagged_reflect meta status k :
  untagged meta → untagged status → well_tagged (reflect_Karta meta status k) = true.
Proof.
  intros [Hm _] [Hs _]. simpl in Hm, Hs. unfold reflect_Karta. cbn [well_tagged].
  rewrite !forallb_app, Hm, Hs. pose proof (wt_KartaSpec (k_Spec k)) as H.
  unfold rfld. cbn [forallb]. rewrite bool_decide_eq_false_2 by done. by rewrite H.
Qed.

Lemma ValidateJQExpressions_nil Parse meta status k :
  untagged meta → untagged status →
  ValidateJQExpressions Parse (reflect_Karta meta status k) = [] ↔
  Forall (jq_accepted Parse) (jq_strings k).
Proof.
  intros Hmeta Hstatus. unfold ValidateJQExpressions.
  rewrite validateJQExpressionsRecursive_nil by by apply well_tagged_reflect.
  by rewrite jq_strings_reflect.
Qed.

(** ** Properties *)

(** C5: the syntax walk accepts a parsed query exactly when no node it can
    inspect assigns, deletes, descends recursively or calls one of the
    unbounded built-ins. *)
Theorem ValidateParsedJQ_iff q :
  ValidateParsedJQ q = None ↔ ∀ n, inspected false q n → ¬ forbidden n.
Proof. apply walkAST_None. Qed.

(** C4: the reflection walk of a Karta reports nothing exactly when every JQ
    path, expression and filter the API declares is accepted: the walk misses
    no field and looks at no other. *)
Theorem ValidateJQExpressions_covers Parse meta status k
    (Hmeta : untagged meta) (Hstatus : untagged status) :
  ValidateJQExpressions Parse (reflect_Karta meta status k) = [] ↔
  Forall (jq_accepted Parse) (jq_strings k).
Proof.
  by apply ValidateJQExpressions_nil.
Qed.

Lemma ValidateJQExpressions_covers_witness :
  untagged [] ∧ untagged [] ∧
  (ValidateJQExpressions (λ _, Ok AScalar) (reflect_Karta [] [] sample_karta) = [] ↔
   Forall (jq_accepted (λ _, Ok AScalar)) (jq_strings sample_karta)).
Proof.
  split; [by split|]. split; [by split|].
  apply (ValidateJQExpressions_covers (λ _, Ok AScalar) [] [] sample_karta); by split.
Defined.
