(* ===== verification/Validator.v ===== *)
(** * Validator: the structural check of a Karta

    Models [karta/sdk/pkg/api/runai/v1alpha1/validation.go].  The validator's
    state is the record the Go struct is; [initialize] fills it.  The ownership
    walk of [checkPathToRoot] is a loop over a growing set of visited names, so
    it carries fuel; [followOwners_total] shows that one step per known component
    and one more are always enough. *)

From S2P Require Import Prelude Api JqValidate.

Definition kindsWithoutGroup (kind : string) : bool := bool_decide (kind = "Pod").

Record KartaValidator := {
  v_karta : Karta;
  v_rootComponent : ComponentDefinition;
  v_allComponents : gmap string ComponentDefinition;
}.

(** [NewKartaValidator] leaves the other fields at their zero values. *)
Definition NewKartaValidator (karta : Karta) : KartaValidator :=
  {| v_karta := karta; v_rootComponent := zero_component; v_allComponents := ∅ |}.

(** One turn of the registration loop. *)
Definition register (acc : list error * gmap string ComponentDefinition)
    (component : ComponentDefinition) : list error * gmap string ComponentDefinition :=
  let '(errs, m) := acc in
  (match m !! cd_Name component with
   | Some _ => errs ++ [Errorf "component name %s is not unique" [AStr (cd_Name component)] []]
   | None => errs
   end, <[cd_Name component := component]> m).

Definition initialize (v : KartaValidator) : list error * KartaValidator :=
  let allComponents := ChildComponents (v_karta v) ++ [RootComponent (v_karta v)] in
  let '(errs, m) := foldl register ([], ∅) allComponents in
  (errs, {| v_karta := v_karta v; v_rootComponent := RootComponent (v_karta v);
            v_allComponents := m |}).

Definition validateMultiInstanceComponent (component : ComponentDefinition) : option error :=
  let hasSelector :=
    match cd_PodSelector component with
    | Some ps => match ps_ComponentInstanceSelector ps with Some _ => true | None => false end
    | None => false
    end in
  match cd_InstanceIdPath component with
  | Some _ =>
      if hasSelector then None
      else Some (Errorf "component '%s' has instance id path but no pod component instance selector"
                   [AStr (cd_Name component)] [])
  | None =>
      if hasSelector
      then Some (Errorf "component '%s' has pod component instance selector but no instance id path"
                   [AStr (cd_Name component)] [])
      else None
  end.

Definition count_some {A} (o : option A) : nat := match o with Some _ => 1 | None => 0 end.

Definition validateComponent (component : ComponentDefinition) : list error :=
  (if bool_decide (cd_Name component = "") then [Errorf "component name is empty" [] []] else []) ++
  (match cd_SpecDefinition component with
   | Some sd =>
       let counter := count_some (sd_PodTemplateSpecPath sd) + count_some (sd_PodSpecPath sd) +
                      count_some (sd_FragmentedPodSpecDefinition sd) in
       if 1 <? counter
       then [Errorf "component '%s' has multiple pod spec definitions"
               [AStr (cd_Name component)] []]
       else []
   | None => []
   end) ++
  option_list (validateMultiInstanceComponent component).

Definition validateRootComponent (v : KartaValidator) : list error :=
  let root := v_rootComponent v in
  (match cd_Kind root with
   | Some k =>
       if bool_decide (gvk_Version k = "") || bool_decide (gvk_Kind k = "") ||
          (bool_decide (gvk_Group k = "") && negb (kindsWithoutGroup (gvk_Kind k)))
       then [Errorf "root component must have full kind (group, version, kind)" [] []] else []
   | None => [Errorf "root component must have full kind (group, version, kind)" [] []]
   end) ++
  (match cd_OwnerRef root with
   | Some _ => [Errorf "root component cannot have owner ref" [] []]
   | None => []
   end) ++
  (match cd_StatusDefinition root with
   | None => [Errorf "root component must have status definition" [] []]
   | Some _ => []
   end) ++
  validateComponent root.

Definition validateChildComponent (v : KartaValidator) (component : ComponentDefinition)
    : list error :=
  (match cd_OwnerRef component with
   | None => [Errorf "child component '%s' has no owner ref" [AStr (cd_Name component)] []]
   | Some owner =>
       if bool_decide (owner = "")
       then [Errorf "child component '%s' has no owner ref" [AStr (cd_Name component)] []]
       else match v_allComponents v !! owner with
            | Some _ => []
            | None => [Errorf "child component '%s' has owner ref to non-existing component '%s'"
                         [AStr (cd_Name component); AStr owner] []]
            end
   end) ++
  validateComponent component.

(** The walk from [current] towards the root.  The answer is the error, if
    any, and whether the walk left the loop by its condition (only then is the
    component recorded as validated).  [None] is out of fuel. *)
Fixpoint followOwners (all : gmap string ComponentDefinition) (validated : gset string)
    (fuel : nat) (visited : gset string) (current : string) (alreadyValidated : bool)
    : option (option error * bool) :=
  match fuel with
  | O => None
  | S fuel' =>
      if bool_decide (current = "") || alreadyValidated then Some (None, true) else
      if bool_decide (current ∈ visited)
      then Some (Some (Errorf "ownership cycle detected involving component %s"
                         [AStr current] []), false)
      else
        match cd_OwnerRef (default zero_component (all !! current)) with
        | None => Some (None, false)
        | Some parent =>
            followOwners all validated fuel' ({[current]} ∪ visited) parent
              (bool_decide (parent ∈ validated))
        end
  end.

(** Enough steps for any walk: every turn but the last visits a new name. *)
Definition ownerFuel (all : gmap string ComponentDefinition) : nat := S (size all).

Definition checkPathToRoot (v : KartaValidator) (component : ComponentDefinition)
    (validated : gset string) : option error * gset string :=
  match followOwners (v_allComponents v) validated (ownerFuel (v_allComponents v)) ∅
          (cd_Name component) false with
  | Some (Some err, _) => (Some err, validated)
  | Some (None, true) => (None, {[cd_Name component]} ∪ validated)
  | Some (None, false) => (None, validated)
  | None => (Some (External "out of fuel"), validated)
  end.

Fixpoint checkPathsToRoot (v : KartaValidator) (validated : gset string)
    (children : list ComponentDefinition) : option error * gset string :=
  match children with
  | [] => (None, validated)
  | child :: rest =>
      match checkPathToRoot v child validated with
      | (Some err, validated') => (Some err, validated')
      | (None, validated') => checkPathsToRoot v validated' rest
      end
  end.

Definition validateNoOwnershipCycles (v : KartaValidator) : option error :=
  (checkPathsToRoot v ∅ (ChildComponents (v_karta v))).1.

Definition validateStructureDefinition (v : KartaValidator) : list error :=
  let errs := validateRootComponent v ++
              (ChildComponents (v_karta v) ≫= validateChildComponent v) in
  match errs with
  | _ :: _ => errs
  | [] => option_list (validateNoOwnershipCycles v)
  end.

Definition validateGangScheduling (v : KartaValidator) : list error :=
  match GangScheduling (v_karta v) with
  | None => []
  | Some gs =>
      gs_PodGroups gs ≫= λ group, pg_Members group ≫= λ member,
        match v_allComponents v !! pm_ComponentName member with
        | Some _ => []
        | None => [Errorf "pod-group member component '%s' is not defined (should be a root or child component)"
                     [AStr (pm_ComponentName member)] []]
        end
  end.

Definition validateInstructions (v : KartaValidator) : list error := validateGangScheduling v.

Section validate.
(** The JQ parser, and the fields of the embedded Kubernetes structs. *)
Context (Parse : string → result aval) (meta status : list rfield).

Definition Validate (karta : option Karta) : option error :=
  match karta with
  | None => Some (Errorf "karta is nil" [] [])
  | Some k =>
      let '(initErrs, v) := initialize (NewKartaValidator k) in
      match initErrs with
      | _ :: _ => errors_Join initErrs
      | [] =>
          errors_Join (validateStructureDefinition v ++ validateInstructions v ++
                       ValidateJQExpressions Parse (reflect_Karta meta status k))
      end
  end.
End validate.

(** ** Specification *)

Section specification.
Context (k : Karta).

Definition components : list ComponentDefinition := ChildComponents k ++ [RootComponent k].
Definition component_names : list string := cd_Name <$> components.

(** The component of that name is the root or is owned, through children,
    by the root. *)
Inductive rooted : string → Prop :=
  | rooted_root : rooted (cd_Name (RootComponent k))
  | rooted_child c p :
      c ∈ ChildComponents k → cd_OwnerRef c = Some p → rooted p → rooted (cd_Name c).

Definition instance_selector (c : ComponentDefinition) : option ComponentInstanceSelector :=
  cd_PodSelector c ≫= ps_ComponentInstanceSelector.

(** At most one way of describing the pods, and instance ids exactly when
    pods are split by instance. *)
Record wf_component (c : ComponentDefinition) : Prop := {
  wf_name : cd_Name c ≠ "";
  wf_one_spec : ∀ sd, cd_SpecDefinition c = Some sd →
    (is_Some (sd_PodTemplateSpecPath sd) → sd_PodSpecPath sd = None) ∧
    (is_Some (sd_PodTemplateSpecPath sd) → sd_FragmentedPodSpecDefinition sd = None) ∧
    (is_Some (sd_PodSpecPath sd) → sd_FragmentedPodSpecDefinition sd = None);
  wf_instances : is_Some (cd_InstanceIdPath c) ↔ is_Some (instance_selector c);
}.

Record wf_root (c : ComponentDefinition) : Prop := {
  wf_kind : ∃ g, cd_Kind c = Some g ∧ gvk_Version g ≠ "" ∧ gvk_Kind g ≠ "" ∧
                 (gvk_Group g ≠ "" ∨ gvk_Kind g = "Pod");
  wf_no_owner : cd_OwnerRef c = None;
  wf_status : is_Some (cd_StatusDefinition c);
  wf_root_component : wf_component c;
}.

Record wf_structure : Prop := {
  wf_unique : NoDup component_names;
  wf_of_root : wf_root (RootComponent k);
  wf_children : ∀ c, c ∈ ChildComponents k →
    wf_component c ∧ ∃ p, cd_OwnerRef c = Some p ∧ p ≠ "" ∧ p ∈ component_names;
  wf_rooted : ∀ c, c ∈ ChildComponents k → rooted (cd_Name c);
  wf_members : ∀ gs g m, GangScheduling k = Some gs → g ∈ gs_PodGroups gs →
    m ∈ pg_Members g → pm_ComponentName m ∈ component_names;
}.
End specification.

(** ** The component table *)

Lemma foldl_register_errs l errs0 m0 :
  (foldl register (errs0, m0) l).1 = [] ↔
  errs0 = [] ∧ NoDup (cd_Name <$> l) ∧ ∀ c, c ∈ l → m0 !! cd_Name c = None.
Proof.
  revert errs0 m0. induction l as [|c l IH]; intros errs0 m0; csimpl.
  - split; [intros ->; split; [done|split; [constructor|set_solver]]|naive_solver].
  - rewrite IH, NoDup_cons. clear IH. destruct (m0 !! cd_Name c) eqn:E.
    + split; [|intros (_ & _ & H); rewrite H in E by set_solver; done].
      intros (H & _). by destruct errs0.
    + setoid_rewrite elem_of_cons. setoid_rewrite lookup_insert_None.
      setoid_rewrite list_elem_of_fmap. split.
      * intros (-> & Hnd & Hl). split; [done|].
        split; [split; [|done]; intros (c' & Heq & Hc'); by eapply Hl|].
        intros c' [->|Hc']; [done|]. by apply Hl.
      * intros (-> & [Hc Hnd] & Hl). split; [done|]. split; [done|].
        intros c' Hc'. split; [by apply Hl; right|]. intros Heq. apply Hc. by exists c'.
Qed.

Lemma foldl_register_lookup l errs0 m0 n c :
  NoDup (cd_Name <$> l) →
  ((foldl register (errs0, m0) l).2 !! n = Some c) ↔
  (c ∈ l ∧ cd_Name c = n) ∨ (¬ (n ∈ (cd_Name <$> l)) ∧ m0 !! n = Some c).
Proof.
  revert errs0 m0. induction l as [|d l IH]; intros errs0 m0; csimpl.
  - set_solver.
  - intros [Hd Hnd]%NoDup_cons. rewrite IH by done. clear IH.
    rewrite !elem_of_cons. destruct (decide (cd_Name d = n)) as [<-|Hne].
    + rewrite lookup_insert_eq. split.
      * intros [[Hc Heq]|[_ [= <-]]]; [|by left; auto]. left. auto.
      * intros [[[->|Hc] Heq]|[H _]]; [by right|by left|]. destruct H. by left.
    + rewrite lookup_insert_ne by done. split.
      * intros [[Hc Heq]|[Hn Hm]]; [left; auto|]. right. split; [|done].
        intros [->|]; [done|by apply Hn].
      * intros [[[->|Hc] Heq]|[Hn Hm]]; [done|by left; auto|]. right. split; [|done].
        intros H. apply Hn. by right.
Qed.

Section initialized.
Context (k : Karta).

Definition initialized : KartaValidator := (initialize (NewKartaValidator k)).2.

Lemma initialize_eq :
  initialize (NewKartaValidator k) = ((initialize (NewKartaValidator k)).1, initialized).
Proof. by destruct (initialize _) eqn:E; unfold initialized; rewrite E. Qed.

Lemma initialize_errs :
  (initialize (NewKartaValidator k)).1 = [] ↔ NoDup (component_names k).
Proof.
  unfold initialize, component_names, components; simpl.
  pose proof (foldl_register_errs (ChildComponents k ++ [RootComponent k]) [] ∅) as H.
  destruct (foldl register _ _) as [errs m]; simpl in H |- *. rewrite H.
  split; [naive_solver|]. intros Hnd. split; [done|]. split; [done|]. intros. apply lookup_empty.
Qed.

Lemma initialized_karta : v_karta initialized = k.
Proof.
  unfold initialized, initialize; simpl. by destruct (foldl register _ _).
Qed.
Lemma initialized_root : v_rootComponent initialized = RootComponent k.
Proof.
  unfold initialized, initialize; simpl. by destruct (foldl register _ _).
Qed.

Lemma initialized_lookup n c :
  NoDup (component_names k) →
  v_allComponents initialized !! n = Some c ↔ c ∈ components k ∧ cd_Name c = n.
Proof.
  intros Hnd. unfold initialized, initialize; simpl.
  pose proof (foldl_register_lookup (components k) [] ∅ n c Hnd) as H.
  unfold components in *.
  destruct (foldl register _ _) as [errs m]; simpl in H |- *. rewrite H.
  rewrite lookup_empty. naive_solver.
Qed.

Lemma initialized_dom n :
  NoDup (component_names k) →
  is_Some (v_allComponents initialized !! n) ↔ n ∈ component_names k.
Proof.
  intros Hnd. unfold component_names. rewrite list_elem_of_fmap. split.
  - intros [c Hc]. apply initialized_lookup in Hc as [? ?]; [|done]. eauto.
  - intros (c & -> & Hc). exists c. by apply initialized_lookup.
Qed.
End initialized.

(** ** The ownership walk *)

Section walk.
Context (all : gmap string ComponentDefinition).

(** One step of the walk: from a component to its owner. *)
Definition owner (n p : string) : Prop :=
  cd_OwnerRef (default zero_component (all !! n)) = Some p.

(** The walk from this name ends at a component without owner. *)
Inductive reaches_top : string → Prop :=
  | top_here n : cd_OwnerRef (default zero_component (all !! n)) = None → reaches_top n
  | top_step n p : owner n p → reaches_top p → reaches_top n.

Lemma owner_functional n p q : owner n p → owner n q → p = q.
Proof. unfold owner. congruence. Qed.

Lemma owner_dom n p : owner n p → n ∈ dom all.
Proof. unfold owner. rewrite elem_of_dom. by destruct (all !! n). Qed.

Lemma reaches_top_acyclic n : reaches_top n → ¬ tc owner n n.
Proof.
  induction 1 as [n Hn|n p Hp _ IH]; intros Hc.
  - inversion Hc as [? y Hy|? y ? Hy]; subst; unfold owner in Hy; congruence.
  - apply IH. inversion Hc as [? y Hy|? y ? Hy Hr]; subst.
    + assert (n = p) as <- by by eapply owner_functional. done.
    + assert (y = p) as -> by by eapply owner_functional. by eapply tc_r.
Qed.

(** A failed walk visited a component twice, so it lies on a cycle. *)
Lemma followOwners_error validated fuel visited cur err b :
  (∀ v, v ∈ visited → tc owner v cur) →
  followOwners all validated fuel visited cur false = Some (Some err, b) →
  ¬ reaches_top cur.
Proof.
  generalize false as ok. revert visited cur.
  induction fuel as [|fuel IH]; intros visited cur ok Hvis; cbn [followOwners]; [done|].
  destruct (bool_decide (cur = "") || ok); [done|].
  case_bool_decide as Hin; [intros _ Htop; by apply (reaches_top_acyclic cur), Hvis|].
  destruct (cd_OwnerRef _) as [p|] eqn:Ho; [|done]. intros Hf Htop.
  eapply IH; [|done|].
  - intros v [->%elem_of_singleton|Hv]%elem_of_union; [by apply tc_once|].
    eapply tc_r; [by apply Hvis|done].
  - inversion Htop as [n Hn|n q Hq Hr]; subst; [congruence|].
    by assert (p = q) as -> by by eapply owner_functional.
Qed.

(** A walk that ends without error, nothing being recorded as validated, has
    reached the top. *)
Lemma followOwners_ok fuel visited cur b :
  (∀ n p, owner n p → p ≠ "") → cur ≠ "" →
  followOwners all ∅ fuel visited cur false = Some (None, b) →
  b = false ∧ reaches_top cur.
Proof.
  intros Hne. revert visited cur.
  induction fuel as [|fuel IH]; intros visited cur Hcur; cbn [followOwners]; [done|].
  rewrite bool_decide_eq_false_2 by done. cbn [orb].
  case_bool_decide; [done|].
  destruct (cd_OwnerRef _) as [p|] eqn:Ho.
  - rewrite bool_decide_eq_false_2 by set_solver. intros [-> Hp]%IH; [|by eapply Hne].
    split; [done|]. by eapply top_step.
  - intros [= <-]. split; [done|]. by apply top_here.
Qed.

(** Fuel: every turn but the last adds a component to the visited set. *)
Lemma followOwners_total validated fuel visited cur ok :
  size (dom all ∖ visited) < fuel →
  is_Some (followOwners all validated fuel visited cur ok).
Proof.
  revert visited cur ok. induction fuel as [|fuel IH]; intros visited cur ok Hf; [lia|].
  cbn [followOwners]. destruct (bool_decide (cur = "") || ok); [done|].
  case_bool_decide as Hin; [done|].
  destruct (cd_OwnerRef _) as [p|] eqn:Ho; [|done].
  apply IH. assert (Hd : cur ∈ dom all) by by eapply owner_dom.
  assert (size (dom all ∖ ({[cur]} ∪ visited)) < size (dom all ∖ visited)); [|lia].
  apply subset_size. set_solver.
Qed.

Lemma followOwners_fuel validated cur :
  is_Some (followOwners all validated (ownerFuel all) ∅ cur false).
Proof.
  apply followOwners_total. unfold ownerFuel.
  replace (dom all ∖ ∅) with (dom all) by set_solver. rewrite size_dom. lia.
Qed.
End walk.

(** ** The checks one by one *)

Lemma bind_nil {A B} (f : A → list B) l : l ≫= f = [] ↔ ∀ x, x ∈ l → f x = [].
Proof.
  induction l as [|x l IH]; csimpl; [set_solver|]. rewrite app_nil, IH. set_solver.
Qed.

Lemma option_list_nil {A} (o : option A) : option_list o = [] ↔ o = None.
Proof. by destruct o. Qed.

Lemma errors_Join_None errs : errors_Join errs = None ↔ errs = [].
Proof. by destruct errs. Qed.

Lemma validateMultiInstanceComponent_None c :
  validateMultiInstanceComponent c = None ↔
  (is_Some (cd_InstanceIdPath c) ↔ is_Some (instance_selector c)).
Proof.
  unfold validateMultiInstanceComponent, instance_selector.
  destruct (cd_InstanceIdPath c), (cd_PodSelector c) as [[t [i|] r]|]; csimpl;
    rewrite ?is_Some_alt; naive_solver.
Qed.

Lemma validateComponent_nil c : validateComponent c = [] ↔ wf_component c.
Proof.
  unfold validateComponent. rewrite !app_nil, option_list_nil, validateMultiInstanceComponent_None.
  split.
  - intros (Hn & Hs & Hi). split; [by case_bool_decide| |done].
    intros sd Hsd. rewrite Hsd in Hs.
    destruct (sd_PodTemplateSpecPath sd), (sd_PodSpecPath sd), (sd_FragmentedPodSpecDefinition sd);
      try done; rewrite ?is_Some_alt; naive_solver.
  - intros [Hn Hs Hi]. split; [by rewrite bool_decide_eq_false_2|]. split; [|done].
    destruct (cd_SpecDefinition c) as [sd|]; [|done]. destruct (Hs sd eq_refl) as (H1 & H2 & H3).
    destruct (sd_PodTemplateSpecPath sd), (sd_PodSpecPath sd), (sd_FragmentedPodSpecDefinition sd);
      try done; first [by specialize (H1 ltac:(eauto))|by specialize (H2 ltac:(eauto))
                      |by specialize (H3 ltac:(eauto))].
Qed.

Lemma validateRootComponent_nil v : validateRootComponent v = [] ↔ wf_root (v_rootComponent v).
Proof.
  unfold validateRootComponent. rewrite !app_nil, validateComponent_nil.
  generalize (v_rootComponent v) as c. intros c. split.
  - intros (Hk & Ho & Hs & Hc). split; [|by destruct (cd_OwnerRef c)|by destruct (cd_StatusDefinition c)|done].
    destruct (cd_Kind c) as [g|]; [|done]. exists g. split; [done|].
    unfold kindsWithoutGroup in Hk. repeat case_bool_decide; simpl in Hk; naive_solver.
  - intros [(g & -> & Hv & Hkd & Hg) -> [sd ->] Hc]. split; [|done].
    unfold kindsWithoutGroup. rewrite (bool_decide_eq_false_2 (gvk_Version g = "")) by done.
    rewrite (bool_decide_eq_false_2 (gvk_Kind g = "")) by done.
    destruct Hg as [Hg|Hg]; [by rewrite bool_decide_eq_false_2|].
    rewrite (bool_decide_eq_true_2 (gvk_Kind g = "Pod")) by done. by rewrite andb_false_r.
Qed.

Lemma validateChildComponent_nil v c :
  validateChildComponent v c = [] ↔
  wf_component c ∧
  ∃ p, cd_OwnerRef c = Some p ∧ p ≠ "" ∧ is_Some (v_allComponents v !! p).
Proof.
  unfold validateChildComponent. rewrite app_nil, validateComponent_nil.
  assert (∀ P Q R : Prop, (P ↔ Q) → (P ∧ R ↔ R ∧ Q)) as Hcomm by tauto. apply Hcomm.
  destruct (cd_OwnerRef c) as [p|]; [|naive_solver].
  case_bool_decide; [naive_solver|].
  destruct (v_allComponents v !! p) eqn:E; rewrite ?is_Some_alt; [naive_solver|].
  split; [done|]. intros (p' & [= <-] & _ & [? H']). congruence.
Qed.

(** ** The validator against the specification *)

Section cycles.
Context (k : Karta) (Hwf : NoDup (component_names k))
  (Hroot : cd_OwnerRef (RootComponent k) = None)
  (Hchildren : ∀ c, c ∈ ChildComponents k →
    ∃ p, cd_OwnerRef c = Some p ∧ p ≠ "" ∧ p ∈ component_names k)
  (Hnames : ∀ c, c ∈ components k → cd_Name c ≠ "").

Let all := v_allComponents (initialized k).

Lemma owner_spec n p :
  owner all n p ↔ ∃ c, c ∈ ChildComponents k ∧ cd_Name c = n ∧ cd_OwnerRef c = Some p.
Proof.
  unfold owner, all. split.
  - destruct (v_allComponents _ !! n) as [c|] eqn:E; [|done]. simpl. intros Hp.
    apply initialized_lookup in E as [Hc Hn]; [|done]. exists c. split; [|done].
    unfold components in Hc. apply elem_of_app in Hc as [?|Hc%list_elem_of_singleton]; [done|].
    subst c. congruence.
  - intros (c & Hc & Hn & Hp).
    assert (E : v_allComponents (initialized k) !! n = Some c); [|by rewrite E].
    apply initialized_lookup; [done|]. split; [|done]. unfold components. set_solver.
Qed.

Lemma owner_nonempty n p : owner all n p → p ≠ "".
Proof.
  intros (c & Hc & _ & Hp)%owner_spec. destruct (Hchildren c Hc) as (p' & Hp' & Hne & _).
  congruence.
Qed.

Lemma reaches_top_rooted n : n ∈ component_names k → reaches_top all n ↔ rooted k n.
Proof.
  intros Hn. split.
  - intros Htop. revert Hn. induction Htop as [n Hn|n p Ho _ IH]; intros Hin.
    + apply initialized_dom in Hin as [c Hc]; [|done]. unfold all in Hn. rewrite Hc in Hn.
      apply initialized_lookup in Hc as [Hc <-]; [|done]. simpl in Hn.
      unfold components in Hc. apply elem_of_app in Hc as [Hc|Hc%list_elem_of_singleton].
      * destruct (Hchildren c Hc) as (p & Hp & _). congruence.
      * subst c. constructor.
    + apply owner_spec in Ho as (c & Hc & <- & Hp). eapply rooted_child; [done|done|].
      apply IH. destruct (Hchildren c Hc) as (p' & Hp' & _ & Hin'). congruence.
  - intros Hr. clear Hn. induction Hr as [|c p Hc Hp _ IH].
    + apply top_here. unfold all.
      assert (E : v_allComponents (initialized k) !! cd_Name (RootComponent k) =
                  Some (RootComponent k)); [|by rewrite E].
      apply initialized_lookup; [done|]. unfold components. set_solver.
    + eapply top_step; [|done]. apply owner_spec. eauto.
Qed.

(** Checking one child against an empty record of validated components
    leaves the record empty. *)
Lemma checkPathToRoot_spec c :
  c ∈ ChildComponents k →
  (checkPathToRoot (initialized k) c ∅).2 = ∅ ∧
  ((checkPathToRoot (initialized k) c ∅).1 = None ↔ rooted k (cd_Name c)).
Proof.
  intros Hc. unfold checkPathToRoot. fold all.
  assert (Hin : cd_Name c ∈ component_names k).
  { apply list_elem_of_fmap. exists c. split; [done|]. unfold components. set_solver. }
  assert (Hne : cd_Name c ≠ "") by (apply Hnames; unfold components; set_solver).
  rewrite <- (reaches_top_rooted _ Hin).
  destruct (followOwners_fuel all ∅ (cd_Name c)) as [[[e|] b] E]; rewrite E.
  - split; [done|]. split; [done|]. intros Htop.
    by apply followOwners_error in E; [|set_solver].
  - apply followOwners_ok in E as [-> Htop]; [|by apply owner_nonempty|done]. done.
Qed.

Lemma checkPathsToRoot_spec cs :
  (∀ c, c ∈ cs → c ∈ ChildComponents k) →
  (checkPathsToRoot (initialized k) ∅ cs).2 = ∅ ∧
  ((checkPathsToRoot (initialized k) ∅ cs).1 = None ↔ ∀ c, c ∈ cs → rooted k (cd_Name c)).
Proof.
  induction cs as [|c cs IH]; intros Hcs; simpl; [set_solver|].
  destruct (checkPathToRoot_spec c ltac:(set_solver)) as [H1 H2].
  destruct (checkPathToRoot (initialized k) c ∅) as [[e|] s]; simpl in H1, H2; subst s.
  - split; [done|]. split; [done|]. intros H. apply H2. set_solver.
  - destruct IH as [IH1 IH2]; [set_solver|]. split; [done|]. rewrite IH2. set_solver.
Qed.
End cycles.

Lemma validateGangScheduling_nil k :
  NoDup (component_names k) →
  validateGangScheduling (initialized k) = [] ↔
  ∀ gs g m, GangScheduling k = Some gs → g ∈ gs_PodGroups gs →
    m ∈ pg_Members g → pm_ComponentName m ∈ component_names k.
Proof.
  intros Hnd. unfold validateGangScheduling. rewrite initialized_karta.
  destruct (GangScheduling k) as [gs|]; [|naive_solver].
  rewrite bind_nil. setoid_rewrite bind_nil. setoid_rewrite <- initialized_dom; [|done].
  split.
  - intros H gs' g m [= <-] Hg Hm. specialize (H g Hg m Hm).
    by destruct (v_allComponents _ !! _).
  - intros H g Hg m Hm. destruct (H gs g m eq_refl Hg Hm) as [c Hc]. by rewrite Hc.
Qed.

Lemma first_checks_nil k :
  NoDup (component_names k) →
  validateRootComponent (initialized k) ++
    (ChildComponents k ≫= validateChildComponent (initialized k)) = [] ↔
  wf_root (RootComponent k) ∧ ∀ c, c ∈ ChildComponents k →
    wf_component c ∧ ∃ p, cd_OwnerRef c = Some p ∧ p ≠ "" ∧ p ∈ component_names k.
Proof.
  intros Hnd. rewrite app_nil, validateRootComponent_nil, initialized_root, bind_nil.
  setoid_rewrite validateChildComponent_nil. by setoid_rewrite initialized_dom.
Qed.

Lemma walk_of_checked k :
  NoDup (component_names k) → wf_root (RootComponent k) →
  (∀ c, c ∈ ChildComponents k →
    wf_component c ∧ ∃ p, cd_OwnerRef c = Some p ∧ p ≠ "" ∧ p ∈ component_names k) →
  (checkPathsToRoot (initialized k) ∅ (ChildComponents k)).2 = ∅ ∧
  ((checkPathsToRoot (initialized k) ∅ (ChildComponents k)).1 = None ↔
   ∀ c, c ∈ ChildComponents k → rooted k (cd_Name c)).
Proof.
  intros Hnd Hr Hc. apply checkPathsToRoot_spec; [done|apply Hr| |..].
  - intros c Hin. by destruct (Hc c Hin) as [_ ?].
  - intros c. unfold components. rewrite elem_of_app, list_elem_of_singleton.
    intros [Hin| ->]; [by apply Hc|apply Hr].
  - done.
Qed.

Lemma validateStructureDefinition_nil k :
  NoDup (component_names k) →
  validateStructureDefinition (initialized k) = [] ↔
  wf_root (RootComponent k) ∧
  (∀ c, c ∈ ChildComponents k →
    wf_component c ∧ ∃ p, cd_OwnerRef c = Some p ∧ p ≠ "" ∧ p ∈ component_names k) ∧
  (∀ c, c ∈ ChildComponents k → rooted k (cd_Name c)).
Proof.
  intros Hnd. pose proof (first_checks_nil k Hnd) as Hfirst. unfold validateStructureDefinition. rewrite initialized_karta.
  destruct (_ ++ _) as [|e es]; [|split; [done|]; intros (H1 & H2 & _);
    by destruct (proj2 Hfirst (conj H1 H2))].
  destruct (proj1 Hfirst eq_refl) as [Hr Hc]. clear Hfirst.
  rewrite option_list_nil. unfold validateNoOwnershipCycles. rewrite initialized_karta.
  destruct (walk_of_checked k Hnd Hr Hc) as [_ ->]. naive_solver.
Qed.

Lemma Validate_None Parse meta status k
    (Hmeta : untagged meta) (Hstatus : untagged status) :
  Validate Parse meta status (Some k) = None ↔
  wf_structure k ∧ Forall (jq_accepted Parse) (jq_strings k).
Proof.
  unfold Validate. rewrite initialize_eq.
  destruct (initialize (NewKartaValidator k)).1 as [|e es] eqn:E.
  - apply initialize_errs in E as Hnd. rewrite errors_Join_None, !app_nil.
    rewrite validateStructureDefinition_nil by done.
    unfold validateInstructions. rewrite validateGangScheduling_nil by done.
    rewrite ValidateJQExpressions_nil by done. split.
    + intros [(Hr & Hc & Hro) [Hm Hjq]]. split; [|done]. by split.
    + intros [[] ?]. done.
  - rewrite errors_Join_None. split; [done|]. intros [[Hnd] _].
    apply initialize_errs in Hnd. congruence.
Qed.

(** ** Properties *)

(** C1: the validator accepts a Karta exactly when its structure is well
    formed - unique names, a complete root, children owned by known components
    on a chain that ends at the root, defined pod-group members - and every JQ
    expression in it is accepted. *)
Theorem Validate_iff Parse meta status k
    (Hmeta : untagged meta) (Hstatus : untagged status) :
  Validate Parse meta status (Some k) = None ↔
  wf_structure k ∧ Forall (jq_accepted Parse) (jq_strings k).
Proof. by apply Validate_None. Qed.

Lemma sample_wf : wf_structure sample_karta.
Proof.
  apply (Validate_None (λ _, Ok AScalar) [] [] sample_karta); [by split..|].
  vm_compute. reflexivity.
Qed.

Lemma Validate_iff_witness :
  untagged [] ∧
  (Validate (λ _, Ok AScalar) [] [] (Some sample_karta) = None ↔
   wf_structure sample_karta ∧ Forall (jq_accepted (λ _, Ok AScalar)) (jq_strings sample_karta)).
Proof.
  split; [by split|]. apply (Validate_iff (λ _, Ok AScalar) [] [] sample_karta); by split.
Defined.

(** C2: the ownership walk always ends, whatever the table and the record of
    validated components, within one step per known component and one more. *)
Theorem checkPathToRoot_terminates all validated cur :
  is_Some (followOwners all validated (ownerFuel all) ∅ cur false).
Proof. apply followOwners_fuel. Qed.

(** The record of validated components is never written: the walk returns
    when it reaches the root, before the assignment, so on a structure that
    passed the earlier checks the record is empty after every child. *)
Theorem validated_record_stays_empty k
    (Hinit : (initialize (NewKartaValidator k)).1 = [])
    (Hpass : validateRootComponent (initialized k) ++
             (ChildComponents k ≫= validateChildComponent (initialized k)) = []) :
  (checkPathsToRoot (initialized k) ∅ (ChildComponents k)).2 = ∅.
Proof.
  apply initialize_errs in Hinit as Hnd. apply first_checks_nil in Hpass as [Hr Hc]; [|done].
  by apply walk_of_checked.
Qed.

Lemma validated_record_stays_empty_witness :
  (initialize (NewKartaValidator sample_karta)).1 = [] ∧
  (checkPathsToRoot (initialized sample_karta) ∅ (ChildComponents sample_karta)).2 = ∅.
Proof.
  split; [by vm_compute|]. apply (validated_record_stays_empty sample_karta); by vm_compute.
Defined.

(** The checks run: the sample passes, and each of three defects is found. *)
Example sample_validates : Validate (λ _, Ok AScalar) [] [] (Some sample_karta) = None.
Proof. by vm_compute. Qed.

Definition with_children (cs : list ComponentDefinition) : Karta := {|
  k_ObjectMeta := k_ObjectMeta sample_karta;
  k_Spec := {|
    ks_StructureDefinition := {| st_RootComponent := RootComponent sample_karta;
      st_ChildComponents := cs; st_AdditionalChildKinds := [] |};
    ks_Instructions := {| oi_GangScheduling := None |} |} |}.

Example cycle_is_reported :
  Validate (λ _, Ok AScalar) [] []
    (Some (with_children [sample_component "a" (Some "b") true; sample_component "b" (Some "a") true])) =
  Some (Errorf "" [] [Errorf "ownership cycle detected involving component %s" [AStr "a"] []]).
Proof. by vm_compute. Qed.

Example duplicate_is_reported :
  Validate (λ _, Ok AScalar) [] [] (Some (with_children [sample_component "job" (Some "job") true])) =
  Some (Errorf "" [] [Errorf "component name %s is not unique" [AStr "job"] []]).
Proof. by vm_compute. Qed.
