(* ===== verification/Value.v ===== *)
(** * Value: dynamic values and JSON

    The program passes data of type [any] between Go, JSON and jq.  [value] is
    such a dynamic value, [json] a JSON document (the text up to layout), and
    [json_Marshal]/[json_Unmarshal] are the two directions of [encoding/json]
    the code uses.  [GoType] says how a static type takes part: the type
    assertion [v.(T)], unmarshalling into a zeroed [T], and boxing into [any].
    Conversions of [karta/sdk/pkg/jq/execution/runner.go] and
    [karta/sdk/pkg/resource/accessor.go] close the file. *)

From S2P Require Import Prelude.
From stdpp Require Import pretty.
From Stdlib Require Import Ascii.

(** ** JSON documents and dynamic values *)

(** A number literal: an integer, or the finite float [m * 2^e]. *)
Inductive number :=
  | NInt (z : Z)
  | NFloat (m e : Z).

Inductive json :=
  | JNull
  | JBool (b : bool)
  | JNumber (n : number)
  | JString (s : string)
  | JArray (l : list json)
  | JObject (m : gmap string json).

(** [VInt] is an [int] (or the [*big.Int] jq computes with), [VFloat] a finite
    [float64]; [VGo] is a value of a Go type the program never looks into,
    known by what [json.Marshal] makes of it. *)
Inductive value :=
  | VNil
  | VBool (b : bool)
  | VInt (z : Z)
  | VFloat (m e : Z)
  | VString (s : string)
  | VArray (l : list value)
  | VMap (m : gmap string value)
  | VGo (encoding : result json).

(** ** Numbers *)

(** [m * 2^e] with the factors of two of [m] moved to the exponent. *)
Fixpoint strip_twos (fuel : nat) (m e : Z) : Z * Z :=
  match fuel with
  | O => (m, e)
  | S n => if Z.even m then strip_twos n (m / 2) (e + 1)%Z else (m, e)
  end.

Definition canonical (m e : Z) : Z * Z :=
  if (m =? 0)%Z then (0, 0)%Z else strip_twos (Z.to_nat (Z.log2 (Z.abs m))) m e.

(** The nearest [float64] of an integer, ties to even; none past the largest. *)
Definition float_of_Z (z : Z) : option (Z * Z) :=
  let a := Z.abs z in
  let k := Z.max 0 (Z.log2 a - 52) in
  let q := Z.shiftr a k in
  let r := (a - Z.shiftl q k)%Z in
  let half := (2 ^ k)%Z in
  let q' := if (2 * r <? half)%Z then q
            else if (half <? 2 * r)%Z then (q + 1)%Z
            else if (k =? 0)%Z || Z.even q then q else (q + 1)%Z in
  if (2 ^ 1024 <=? Z.shiftl q' k)%Z then None
  else Some (canonical (Z.sgn z * q') k).

(** The integer a float stands for, if it is one. *)
Definition Z_of_float (m e : Z) : option Z :=
  if (0 <=? e)%Z then Some (m * 2 ^ e)%Z
  else if (m mod 2 ^ (- e) =? 0)%Z then Some (m / 2 ^ (- e))%Z
  else None.

Definition Z_of_number (n : number) : option Z :=
  match n with NInt z => Some z | NFloat m e => Z_of_float m e end.

(** ** Marshal and unmarshal *)

Fixpoint json_Marshal (v : value) : result json :=
  match v with
  | VNil => Ok JNull
  | VBool b => Ok (JBool b)
  | VInt z => Ok (JNumber (NInt z))
  | VFloat m e => Ok (JNumber (NFloat m e))
  | VString s => Ok (JString s)
  | VArray l => JArray <$> sequence (json_Marshal <$> l)
  | VMap m => JObject <$> map_sequence (json_Marshal <$> m)
  | VGo enc => enc
  end.

(** Into an [any]: numbers become [float64]. *)
Fixpoint json_Unmarshal (j : json) : result value :=
  match j with
  | JNull => Ok VNil
  | JBool b => Ok (VBool b)
  | JNumber (NInt z) =>
      match float_of_Z z with
      | Some (m, e) => Ok (VFloat m e)
      | None => Fail (Errorf "json: cannot unmarshal number into Go value of type float64" [] [])
      end
  | JNumber (NFloat m e) => Ok (VFloat m e)
  | JString s => Ok (VString s)
  | JArray l => VArray <$> sequence (json_Unmarshal <$> l)
  | JObject m => VMap <$> map_sequence (json_Unmarshal <$> m)
  end.

Definition convertToPrimitive (v : value) : result value :=
  jsonBytes ← map_error (λ err, Errorf "failed to marshal value to JSON: %w" [] [err])
                (json_Marshal v);
  map_error (λ err, Errorf "failed to unmarshal JSON data: %w" [] [err])
    (json_Unmarshal jsonBytes).

(** ** Typed unmarshalling *)

Definition json_type_error (ty : string) : error :=
  Errorf "json: cannot unmarshal into Go value of type %s" [AStr ty] [].

Class GoType (T : Type) := {
  zero : T;
  type_assert : value → option T;
  json_Unmarshal_T : json → result T;
  box : T → value;
}.

#[export] Instance GoType_string : GoType string := {|
  zero := "";
  type_assert v := match v with VString s => Some s | _ => None end;
  json_Unmarshal_T j := match j with
                        | JNull => Ok ""
                        | JString s => Ok s
                        | _ => Fail (json_type_error "string")
                        end;
  box := VString;
|}.

(** A pointer to an [int32]. *)
Record ptr_int32 := PtrInt32 { deref_int32 : option Z }.

Definition int32_of_number (n : number) : option Z :=
  z ← Z_of_number n; if in_int32 z then Some z else None.

#[export] Instance GoType_ptr_int32 : GoType ptr_int32 := {|
  zero := PtrInt32 None;
  type_assert _ := None;
  json_Unmarshal_T j :=
    match j with
    | JNull => Ok (PtrInt32 None)
    | JNumber n => match int32_of_number n with
                   | Some z => Ok (PtrInt32 (Some z))
                   | None => Fail (json_type_error "int32")
                   end
    | _ => Fail (json_type_error "int32")
    end;
  box p := match deref_int32 p with None => VGo (Ok JNull) | Some z => VGo (Ok (JNumber (NInt z))) end;
|}.

(** [map[string]string]; [None] is the nil map. *)
Definition string_map := option (gmap string string).

#[export] Instance GoType_string_map : GoType string_map := {|
  zero := None;
  type_assert _ := None;
  json_Unmarshal_T j :=
    match j with
    | JNull => Ok None
    | JObject m => Some <$> map_sequence (json_Unmarshal_T <$> m)
    | _ => Fail (json_type_error "map[string]string")
    end;
  box o := VGo (Ok match o with None => JNull | Some m => JObject (JString <$> m) end);
|}.

(** [map[string]any], read only through lookups. *)
Definition json_Unmarshal_map (j : json) : result (gmap string value) :=
  match j with
  | JNull => Ok ∅
  | JObject m => map_sequence (json_Unmarshal <$> m)
  | _ => Fail (json_type_error "map[string]interface {}")
  end.

#[export] Instance GoType_map_slice : GoType (list (gmap string value)) := {|
  zero := [];
  type_assert _ := None;
  json_Unmarshal_T j :=
    match j with
    | JNull => Ok []
    | JArray l => mapR json_Unmarshal_map l
    | _ => Fail (json_type_error "[]map[string]interface {}")
    end;
  box l := VArray (VMap <$> l);
|}.

(** A third-party struct: its zero value and its two JSON directions. *)
Class GoStruct (T : Type) := {
  struct_zero : T;
  struct_Unmarshal : json → result T;
  struct_Marshal : T → result json;
}.

#[export] Instance GoType_struct {T} `{GoStruct T} : GoType T := {|
  zero := struct_zero;
  type_assert _ := None;
  json_Unmarshal_T := struct_Unmarshal;
  box t := VGo (struct_Marshal t);
|}.

(** A pointer [*T] to such a struct. *)
#[export] Instance GoType_pointer {T} `{GoStruct T} : GoType (option T) := {|
  zero := None;
  type_assert _ := None;
  json_Unmarshal_T j := match j with JNull => Ok None | _ => Some <$> struct_Unmarshal j end;
  box o := VGo match o with None => Ok JNull | Some t => struct_Marshal t end;
|}.

(** A slice [[]T] of such structs; [None] is the nil slice. *)
Definition slice (T : Type) : Type := option (list T).

#[export] Instance GoType_slice {T} `{GoStruct T} : GoType (slice T) := {|
  zero := None;
  type_assert _ := None;
  json_Unmarshal_T j :=
    match j with
    | JNull => Ok None
    | JArray l => Some <$> mapR struct_Unmarshal l
    | _ => Fail (json_type_error "slice")
    end;
  box o := VGo match o with
               | None => Ok JNull
               | Some l => JArray <$> mapR struct_Marshal l
               end;
|}.

(** ** Conversions of the accessor *)

(** convertViaJSON into a zeroed destination. *)
Definition convertViaJSON {T} `{GoType T} (src : value) : result T :=
  jsonBytes ← map_error (λ err, Errorf "failed to marshal source: %w" [] [err])
                (json_Marshal src);
  map_error (λ err, Errorf "failed to unmarshal to destination: %w" [] [err])
    (json_Unmarshal_T jsonBytes).

Definition convert_element {T} `{GoType T} (object : value) : result T :=
  match type_assert object with
  | Some converted => Ok converted
  | None => map_error (λ err, Errorf "failed to convert object at index %d to type %T: %w" [] [err])
              (convertViaJSON object)
  end.

Definition safeConvertSlice {T} `{GoType T} (slice : list value) : result (list T) :=
  mapR convert_element slice.

(** safeGetByIndex: the zero value out of range; an index is never negative. *)
Definition safeGetByIndex {T} `{GoType T} (slice : list T) (index : nat) : T :=
  default zero (slice !! index).

(** ** Decimal numbers *)

Definition digit_of (c : ascii) : option Z :=
  let n := Z.of_N (N_of_ascii c) in
  if (48 <=? n)%Z && (n <=? 57)%Z then Some (n - 48)%Z else None.

Fixpoint parse_digits (acc : Z) (s : string) : option Z :=
  match s with
  | EmptyString => Some acc
  | String c s' => match digit_of c with
                   | Some d => parse_digits (10 * acc + d)%Z s'
                   | None => None
                   end
  end.

Definition parse_unsigned (s : string) : option Z :=
  match s with EmptyString => None | _ => parse_digits 0 s end.

(** [strconv.ParseInt(s, 10, 32)] *)
Definition ParseInt32 (s : string) : option Z :=
  z ← match s with
      | String "+" s' => parse_unsigned s'
      | String "-" s' => Z.opp <$> parse_unsigned s'
      | _ => parse_unsigned s
      end;
  if in_int32 z then Some z else None.

(** [fmt.Sprintf("%v", v)]: a float is printed as by [%g] in its shortest form,
    so one that is an integer prints without exponent below [10^6] and with one
    from there on; [other] prints the floats not printed here and the composite
    values. *)
Definition Sprint_v (other : value → string) (v : value) : string :=
  match v with
  | VString s => s
  | VBool b => if b then "true" else "false"
  | VInt z => pretty z
  | VFloat m e => match Z_of_float m e with
                  | Some z => if (Z.abs z <? 10 ^ 6)%Z then pretty z else other v
                  | None => other v
                  end
  | VNil => "<nil>"
  | _ => other v
  end.

Example parse_int32 :
  (ParseInt32 <$> ["2"; "-17"; "+3"; "2147483647"; "2147483648"; "-2147483648"; ""; "-"; "1e3"; "007"])
  = [Some 2; Some (-17); Some 3; Some 2147483647; None; Some (-2147483648); None; None; None; Some 7]%Z.
Proof. reflexivity. Qed.

Example floats :
  (float_of_Z <$> [0; 6; -5; 2 ^ 53 + 1; 2 ^ 53 + 3; 2 ^ 1024]%Z)
  = [Some (0, 0); Some (3, 1); Some (-5, 0); Some (1, 53); Some (2251799813685249, 2); None]%Z.
Proof. vm_compute. reflexivity. Qed.

Example sprint :
  (Sprint_v (λ _, "?") <$> [VFloat 3 1; VFloat 999999 0; VFloat 15625 6; VInt 1000000; VInt (-4); VBool true; VFloat 1 (-1)])
  = ["6"; "999999"; "?"; "1000000"; "-4"; "true"; "?"].
Proof. vm_compute. reflexivity. Qed.

(** ** Conversion to primitive values is idempotent *)

Fixpoint json_size (j : json) : nat :=
  match j with
  | JArray l => S (sum_list (json_size <$> l))
  | JObject m => S (map_fold (λ _ n acc, n + acc) 0 (json_size <$> m))
  | _ => 1
  end.

Lemma json_size_array l j : j ∈ l → json_size j < json_size (JArray l).
Proof.
  cbn. induction 1 as [|j' x l _ IH]; cbn in *; lia.
Qed.

Lemma map_fold_sum_le (m : gmap string nat) k n :
  m !! k = Some n → n ≤ map_fold (λ _ n acc, n + acc) 0 m.
Proof.
  intros Hk. rewrite (map_fold_delete_L _ _ k n) by (intros; lia || done). lia.
Qed.

Lemma json_size_object m k j : m !! k = Some j → json_size j < json_size (JObject m).
Proof.
  intros Hk. cbn.
  pose proof (map_fold_sum_le (json_size <$> m) k (json_size j)) as H.
  rewrite lookup_fmap, Hk in H. specialize (H eq_refl). lia.
Qed.

(** Induction through arrays and objects. *)
Lemma json_nested_ind (P : json → Prop) :
  P JNull → (∀ b, P (JBool b)) → (∀ n, P (JNumber n)) → (∀ s, P (JString s)) →
  (∀ l, Forall P l → P (JArray l)) →
  (∀ m, map_Forall (λ _, P) m → P (JObject m)) →
  ∀ j, P j.
Proof.
  intros Hn Hb Hi Hs Ha Ho j.
  induction j as [j IH] using (well_founded_induction (Wf_nat.well_founded_ltof _ json_size)).
  unfold Wf_nat.ltof in IH. destruct j as [| | | |l|m]; auto.
  - apply Ha, Forall_forall. intros j Hj. apply IH. by apply json_size_array.
  - apply Ho. intros k j Hj. apply IH. by eapply json_size_object.
Qed.

Fixpoint value_size (v : value) : nat :=
  match v with
  | VArray l => S (sum_list (value_size <$> l))
  | VMap m => S (map_fold (λ _ n acc, n + acc) 0 (value_size <$> m))
  | _ => 1
  end.

Lemma value_nested_ind (P : value → Prop) :
  (∀ l, Forall P l → P (VArray l)) → (∀ m, map_Forall (λ _, P) m → P (VMap m)) →
  (∀ v, (∀ l, v ≠ VArray l) → (∀ m, v ≠ VMap m) → P v) →
  ∀ v, P v.
Proof.
  intros Ha Hm Hv v.
  induction v as [v IH] using (well_founded_induction (Wf_nat.well_founded_ltof _ value_size)).
  unfold Wf_nat.ltof in IH. destruct v as [| | | | |l|m|]; try by apply Hv.
  - apply Ha, Forall_forall. intros v Hin. apply IH. cbn. clear IH. induction Hin; cbn in *; lia.
  - apply Hm. intros k v Hk. apply IH. cbn. pose proof (map_fold_sum_le (value_size <$> m) k (value_size v)) as H.
    rewrite lookup_fmap, Hk in H. specialize (H eq_refl). lia.
Qed.

(** The document of a value [json.Unmarshal] produced. *)
Fixpoint json_of (v : value) : json :=
  match v with
  | VNil | VGo _ => JNull
  | VBool b => JBool b
  | VInt z => JNumber (NInt z)
  | VFloat m e => JNumber (NFloat m e)
  | VString s => JString s
  | VArray l => JArray (json_of <$> l)
  | VMap m => JObject (json_of <$> m)
  end.

Definition primitive (p : value) : Prop :=
  json_Marshal p = Ok (json_of p) ∧ json_Unmarshal (json_of p) = Ok p.

Lemma primitive_array l : Forall primitive l → primitive (VArray l).
Proof.
  intros Hl. unfold primitive. cbn.
  assert (json_Marshal <$> l = Ok <$> (json_of <$> l) ∧
          json_Unmarshal <$> (json_of <$> l) = Ok <$> l) as [E1 E2].
  { induction Hl as [|p l [H1 H2] _ [IH1 IH2]]; [done|].
    rewrite !fmap_cons, H1, H2, IH1, IH2. done. }
  apply sequence_Ok in E1, E2. by rewrite E1, E2.
Qed.

Lemma primitive_map m : map_Forall (λ _, primitive) m → primitive (VMap m).
Proof.
  intros Hm. unfold primitive. cbn.
  assert (E1 : json_Marshal <$> m = Ok <$> (json_of <$> m)).
  { rewrite <- map_fmap_compose. apply map_fmap_ext. intros k p Hp. by apply (Hm k p). }
  assert (E2 : json_Unmarshal <$> (json_of <$> m) = Ok <$> m).
  { rewrite <- map_fmap_compose. apply map_fmap_ext. intros k p Hp. by apply (Hm k p). }
  apply map_sequence_Ok in E1, E2. by rewrite E1, E2.
Qed.

Lemma json_Unmarshal_primitive j p : json_Unmarshal j = Ok p → primitive p.
Proof.
  revert p. induction j as [|b|n|s|l IH|m IH] using json_nested_ind; intros p; cbn.
  - by intros [= <-].
  - by intros [= <-].
  - destruct n; [destruct (float_of_Z z) as [[]|]|]; [| |]; by intros [= <-].
  - by intros [= <-].
  - destruct (sequence _) as [ps|] eqn:E; [|done]. intros [= <-].
    apply primitive_array. apply sequence_Ok in E.
    apply Forall_forall. intros q (i & Hq)%list_elem_of_lookup.
    assert (H : (json_Unmarshal <$> l) !! i = Some (Ok q)) by (by rewrite E, list_lookup_fmap, Hq).
    rewrite list_lookup_fmap in H. destruct (l !! i) as [j|] eqn:Hj; [|done].
    injection H as H. apply (proj1 (Forall_lookup _ _) IH i j Hj _ H).
  - destruct (map_sequence _) as [ps|] eqn:E; [|done]. intros [= <-].
    apply primitive_map. apply map_sequence_Ok in E. intros k q Hq.
    assert (H : (json_Unmarshal <$> m) !! k = Some (Ok q)) by (by rewrite E, lookup_fmap, Hq).
    rewrite lookup_fmap in H. destruct (m !! k) as [j|] eqn:Hj; [|done].
    injection H as H. apply (IH k j Hj _ H).
Qed.

(** The data a runner holds is a fixed point of the conversion. *)
Lemma convertToPrimitive_fixed v p : convertToPrimitive v = Ok p → convertToPrimitive p = Ok p.
Proof.
  unfold convertToPrimitive. intros (j & _ & H)%result_bind_Ok.
  apply map_error_Ok in H. apply json_Unmarshal_primitive in H as [E1 E2].
  rewrite E1. cbn. by rewrite E2.
Qed.

(** Converting to primitive JSON data is idempotent, integers included:
    what a runner holds is unchanged by converting it again. *)
Theorem convertToPrimitive_idempotent v p :
  convertToPrimitive v = Ok p → convertToPrimitive p = Ok p.
Proof. apply convertToPrimitive_fixed. Qed.

Lemma convertToPrimitive_idempotent_witness :
  let v := VMap {[ "replicas" := VInt 6; "tags" := VArray [VString "a"; VNil] ]} in
  let p := VMap {[ "replicas" := VFloat 3 1; "tags" := VArray [VString "a"; VNil] ]} in
  convertToPrimitive v = Ok p ∧ convertToPrimitive p = Ok p.
Proof.
  intros v p. assert (E : convertToPrimitive v = Ok p) by (vm_compute; reflexivity).
  split; [exact E|]. apply (convertToPrimitive_idempotent v p E).
Defined.
