(* ===== verification/Runner.v ===== *)
(** * Runner: the jq runner and its interface

    Models [karta/sdk/pkg/jq/execution/interface.go] (the [Runner] interface,
    with the laws its clients rely on) and [runner.go] (the implementation over
    gojq).  The gojq parser, compiler and interpreter are parameters; an
    execution is a stream of results, which may be infinite, and an expired
    timeout is one of its errors.  Contexts carry nothing else the code reads
    and are left out. *)

From S2P Require Import Prelude Value.
From Stdlib Require Import Ascii.

(** ** Computations on a runner *)

(** The observable equality of states is an [Equiv]: a runner that has made
    its lazy conversion behaves as one that has not. *)
Section computations.
Context {R : Type} `{Equiv R} `{!Equivalence (≡@{R})}.
Context {A B : Type}.

(** Equal results, and states no client can tell apart. *)
Definition same_outcome (x y : result A * R) : Prop := x.1 = y.1 ∧ x.2 ≡ y.2.

Definition respects (m : M R A) : Prop := ∀ r r', r ≡ r' → same_outcome (m r) (m r').

Definition readonly (m : M R A) : Prop := respects m ∧ ∀ r, (m r).2 ≡ r.

(** The result alone. *)
Definition run (m : M R A) (r : R) : result A := (m r).1.
End computations.
#[export] Hint Unfold respects readonly : core.

Create HintDb readonly.

Section computation_lemmas.
Context {R : Type} `{Equiv R} `{!Equivalence (≡@{R})}.

#[export] Instance same_outcome_equivalence {A} : Equivalence (@same_outcome R _ A).
Proof.
  split.
  - by split.
  - intros ?? []; by split.
  - intros ??? [] []. split; etrans; eauto.
Qed.

Lemma readonly_respects {A} (m : M R A) : readonly m → respects m.
Proof. by intros []. Qed.

Lemma readonly_state {A} (m : M R A) r : readonly m → (m r).2 ≡ r.
Proof. by intros []. Qed.

Lemma respects_ret {A} (a : A) : respects (R:=R) (mret a).
Proof. intros ???. by split. Qed.

Lemma respects_lift {A} (x : result A) : respects (R:=R) (lift x).
Proof. intros ???. by split. Qed.

Lemma respects_fail {A} e : respects (R:=R) (A:=A) (fail e).
Proof. intros ???. by split. Qed.

Lemma respects_bind {A B} (m : M R A) (f : A → M R B) :
  respects m → (∀ a, respects (f a)) → respects (m ≫= f).
Proof.
  intros Hm Hf r r' Hr. destruct (Hm r r' Hr) as [H1 H2]. unfold mbind, M_bind.
  destruct (m r) as [[a|e] s], (m r') as [[a'|e'] s']; simplify_eq/=; [|by split].
  by apply Hf.
Qed.

Lemma respects_wrap {A} w (m : M R A) : respects m → respects (wrap w m).
Proof.
  intros Hm r r' Hr. destruct (Hm r r' Hr) as [H1 H2]. unfold wrap.
  destruct (m r), (m r'); simplify_eq/=. by split.
Qed.

Lemma respects_catch {A} (m : M R A) h :
  respects m → (∀ e, respects (h e)) → respects (catch m h).
Proof.
  intros Hm Hf r r' Hr. destruct (Hm r r' Hr) as [H1 H2]. unfold catch.
  destruct (m r) as [[a|e] s], (m r') as [[a'|e'] s']; simplify_eq/=; [by split|].
  by apply Hf.
Qed.

Lemma respects_mapM {A B} (f : A → M R B) l : (∀ a, respects (f a)) → respects (mapM f l).
Proof.
  intros Hf. induction l as [|x l IH]; cbn; [apply respects_ret|].
  apply respects_bind; [done|]. intros y. apply respects_bind; [done|].
  intros; apply respects_ret.
Qed.

Lemma readonly_ret {A} (a : A) : readonly (R:=R) (mret a).
Proof. split; [apply respects_ret|done]. Qed.

Lemma readonly_lift {A} (x : result A) : readonly (R:=R) (lift x).
Proof. split; [apply respects_lift|done]. Qed.

Lemma readonly_fail {A} e : readonly (R:=R) (A:=A) (fail e).
Proof. split; [apply respects_fail|done]. Qed.

Lemma readonly_bind {A B} (m : M R A) (f : A → M R B) :
  readonly m → (∀ a, readonly (f a)) → readonly (m ≫= f).
Proof.
  intros [Hm Hm'] Hf. split; [apply respects_bind; firstorder|].
  intros r. pose proof (Hm' r) as Hr. unfold mbind, M_bind.
  destruct (m r) as [[a|e] s]; cbn in *; [|done].
  destruct (Hf a) as [_ H']. etrans; [apply H'|done].
Qed.

Lemma readonly_wrap {A} w (m : M R A) : readonly m → readonly (wrap w m).
Proof.
  intros [Hm Hm']. split; [by apply respects_wrap|].
  intros r. specialize (Hm' r). unfold wrap. by destruct (m r).
Qed.

Lemma readonly_catch {A} (m : M R A) h :
  readonly m → (∀ e, readonly (h e)) → readonly (catch m h).
Proof.
  intros [Hm Hm'] Hf. split; [apply respects_catch; firstorder|].
  intros r. pose proof (Hm' r) as Hr. unfold catch.
  destruct (m r) as [[a|e] s]; cbn in *; [done|].
  destruct (Hf e) as [_ H']. etrans; [apply H'|done].
Qed.

Lemma readonly_mapM {A B} (f : A → M R B) l : (∀ a, readonly (f a)) → readonly (mapM f l).
Proof.
  intros Hf. induction l as [|x l IH]; cbn; [apply readonly_ret|].
  apply readonly_bind; [done|]. intros y. apply readonly_bind; [done|].
  intros; apply readonly_ret.
Qed.

Lemma respects_attempt {A} (m : M R A) : respects m → respects (attempt m).
Proof.
  intros Hm r r' Hr. destruct (Hm r r' Hr) as [H1 H2]. unfold attempt.
  destruct (m r), (m r'); simplify_eq/=. by split.
Qed.

Lemma readonly_attempt {A} (m : M R A) : readonly m → readonly (attempt m).
Proof.
  intros [Hm Hm']. split; [by apply respects_attempt|].
  intros r. specialize (Hm' r). unfold attempt. by destruct (m r).
Qed.

Lemma run_attempt {A} (m : M R A) r : run (attempt m) r = Ok (run m r).
Proof. unfold run, attempt. by destruct (m r). Qed.

(** Sequencing after a read-only computation is sequencing of results. *)
Lemma run_bind {A B} (m : M R A) (f : A → M R B) r :
  readonly m → (∀ a, respects (f a)) → run (m ≫= f) r = (run m r ≫= λ a, run (f a) r).
Proof.
  intros [_ Hm] Hf. specialize (Hm r). unfold run, mbind, M_bind, result_bind.
  destruct (m r) as [[a|e] s]; cbn in *; [|done]. by apply (Hf a).
Qed.

Lemma run_bind_Ok {A B} (m : M R A) (f : A → M R B) r b :
  readonly m → (∀ a, respects (f a)) →
  run (m ≫= f) r = Ok b ↔ ∃ a, run m r = Ok a ∧ run (f a) r = Ok b.
Proof. intros Hm Hf. by rewrite run_bind, result_bind_Ok. Qed.

Lemma run_wrap {A} w (m : M R A) r : run (wrap w m) r = map_error w (run m r).
Proof. unfold run, wrap. by destruct (m r). Qed.

Lemma run_catch {A} (m : M R A) h r :
  readonly m → (∀ e, respects (h e)) →
  run (catch m h) r = match run m r with Ok a => Ok a | Fail e => run (h e) r end.
Proof.
  intros [_ Hm] Hf. specialize (Hm r). unfold run, catch.
  destruct (m r) as [[a|e] s]; cbn in *; [done|]. by apply (Hf e).
Qed.

Lemma run_ret {A} (a : A) r : run (R:=R) (mret a) r = Ok a.
Proof. done. Qed.

Lemma run_lift {A} (x : result A) r : run (R:=R) (lift x) r = x.
Proof. done. Qed.

Lemma run_mapM {A B} (f : A → M R B) l r :
  (∀ a, readonly (f a)) → run (mapM f l) r = mapR (λ a, run (f a) r) l.
Proof.
  intros Hf. induction l as [|x l IH]; [done|].
  cbn [mapM mapR]. rewrite run_bind; [|done|].
  - destruct (run (f x) r) eqn:E; cbn; [|done].
    rewrite run_bind; [|by apply readonly_mapM|intros; apply respects_ret].
    rewrite IH. by destruct (mapR _ l).
  - intros y. apply respects_bind; [by apply readonly_respects, readonly_mapM|].
    intros; apply respects_ret.
Qed.
End computation_lemmas.

#[export] Hint Resolve readonly_ret readonly_lift readonly_fail readonly_bind
  readonly_wrap readonly_catch readonly_attempt readonly_mapM readonly_respects : readonly.
#[export] Hint Resolve respects_ret respects_lift respects_fail respects_bind
  respects_wrap respects_catch respects_attempt respects_mapM : readonly.

(** Read-only computations built from read-only steps. *)
Ltac solve_readonly :=
  repeat first
    [ progress intros
    | apply readonly_bind | apply readonly_ret | apply readonly_lift
    | apply readonly_fail | apply readonly_wrap | apply readonly_catch | apply readonly_attempt
    | apply readonly_mapM
    | case_match
    | solve [eauto 3 with readonly] ].

Ltac solve_respects :=
  repeat first
    [ progress intros
    | apply respects_bind | apply respects_ret | apply respects_lift
    | apply respects_fail | apply respects_wrap | apply respects_catch | apply respects_attempt
    | apply respects_mapM
    | case_match
    | solve [eauto 3 with readonly] ].

(** Push [run] through a computation whose first step is read-only. *)
Ltac run_step :=
  rewrite run_bind; [|solve [solve_readonly]|solve [intros; solve_respects]].

Ltac run_ok :=
  rewrite run_bind_Ok; [|solve [solve_readonly]|solve [intros; solve_respects]].
Ltac run_ok_in H :=
  rewrite run_bind_Ok in H; [|solve [solve_readonly]|solve [intros; solve_respects]].

(** ** The interface *)

Class Runner (R : Type) := {
  Evaluate : string → M R (list value);
  GetObject : M R value;
  Assign : string → value → M R ();
  AssignZip : string → list value → M R ();
}.

(** What a client may rely on: queries do not change the object, every
    operation depends on the observable state only, and an assignment that
    fails leaves the object as it was. *)
Class RunnerLaws (R : Type) `{Runner R} `{Equiv R} : Prop := {
  runner_equivalence :: Equivalence (≡@{R});
  Evaluate_readonly p : readonly (Evaluate (R:=R) p);
  GetObject_readonly : readonly (GetObject (R:=R));
  Assign_respects p v : respects (Assign (R:=R) p v);
  AssignZip_respects p vs : respects (AssignZip (R:=R) p vs);
  Assign_atomic p v r e : run (Assign p v) r = Fail e → (Assign p v r).2 ≡ r;
  AssignZip_atomic p vs r e : run (AssignZip p vs) r = Fail e → (AssignZip p vs r).2 ≡ r;
}.
#[export] Hint Resolve Evaluate_readonly GetObject_readonly
  Assign_respects AssignZip_respects : readonly.

(** ** The implementation *)

(** What the code uses of gojq: an execution, under a timeout in milliseconds,
    answers the [n]-th call of its iterator. *)
Class Gojq := {
  Query : Type;
  Code : Type;
  gojq_Parse : string → result Query;
  gojq_Compile : Query → list string → result Code;
  RunWithContext : Z → Code → value → list value → nat → option (result value);
}.

Definition defaultMaxResults : Z := 1000.
Definition defaultTimeoutInMilliseconds : Z := 10000.

(** [jsonOnce] tells whether the conversion ran. *)
Record runner := Runner_ {
  source : value;
  maxResults : Z;
  queryTimeout : Z;
  jsonOnce : bool;
  objectData : value;
  jsonErr : option error;
}.

Definition NewDefaultRunner (source : value) : runner :=
  Runner_ source defaultMaxResults defaultTimeoutInMilliseconds false VNil None.

Definition NewRunner (source : value) (queryMaxResults queryTimeoutInMilliseconds : option Z) : runner :=
  Runner_ source (default defaultMaxResults queryMaxResults)
    (default defaultTimeoutInMilliseconds queryTimeoutInMilliseconds) false VNil None.

Definition set_objectData (r : runner) (v : value) : runner :=
  Runner_ (source r) (maxResults r) (queryTimeout r) (jsonOnce r) v (jsonErr r).

(** The body of [jsonOnce.Do]. *)
Definition convert_once (r : runner) : runner :=
  if jsonOnce r then r else
  match convertToPrimitive (source r) with
  | Fail err =>
      Runner_ (source r) (maxResults r) (queryTimeout r) true (objectData r)
        (Some (Errorf "failed to convert source to primitive: %w" [] [err]))
  | Ok converted =>
      Runner_ (source r) (maxResults r) (queryTimeout r) true converted (jsonErr r)
  end.

Definition getObjectData : M runner value := λ r,
  let r := convert_once r in
  (match jsonErr r with Some e => Fail e | None => Ok (objectData r) end, r).

Section iteration.
Context (iter : nat → option (result value)) (limit : Z) (expression : string).

Definition results_exceeded : error :=
  Errorf "query results exceed the allowed number %d" [AInt limit] [].

(** The loop over [iter.Next]; each turn so far appended one result. *)
Fixpoint collect (fuel : nat) (results : list value) : option (result (list value)) :=
  match fuel with
  | O => None
  | S fuel =>
      match iter (length results) with
      | None => Some (Ok results)
      | Some (Fail err) => Some (Fail (JQExecutionError expression err))
      | Some (Ok v) =>
          let results := results ++ [v] in
          if (limit <=? Z.of_nat (length results))%Z then Some (Fail results_exceeded)
          else collect fuel results
      end
  end.

(** A turn either ends the loop or appends a result, and the loop stops at the
    limit, so that many turns always suffice ([collect_total]). *)
Definition turns : nat := Z.to_nat (Z.max 1 limit).

Definition out_of_turns : error := External "unreachable: the result loop ran out of turns".

Definition run_iter : result (list value) := default (Fail out_of_turns) (collect turns []).

(** What the loop computes: the results in front of the end of the stream, its
    first error, or the refusal of a stream that reaches the limit. *)
Definition values_upto (rs : list value) : Prop :=
  ∀ i v, rs !! i = Some v → iter i = Some (Ok v).

Inductive stream_run : result (list value) → Prop :=
  | stream_end rs :
      values_upto rs → length rs < turns → iter (length rs) = None → stream_run (Ok rs)
  | stream_error rs e :
      values_upto rs → length rs < turns → iter (length rs) = Some (Fail e) →
      stream_run (Fail (JQExecutionError expression e))
  | stream_full rs :
      values_upto rs → length rs = turns → stream_run (Fail results_exceeded).

Lemma values_upto_snoc rs v :
  values_upto rs → iter (length rs) = Some (Ok v) → values_upto (rs ++ [v]).
Proof.
  intros Hrs Hv i w. rewrite lookup_app_Some.
  intros [Hi | [Hi (Hw & ->)%list_lookup_singleton_Some]]; [by apply Hrs|].
  replace i with (length rs) by lia. done.
Qed.

Lemma collect_total fuel results :
  values_upto results → length results + fuel = turns → 0 < fuel →
  ∃ r, collect fuel results = Some r ∧ stream_run r.
Proof.
  revert results. induction fuel as [|fuel IH]; intros results Hrs Hlen Hpos; [lia|].
  cbn. destruct (iter (length results)) as [[v|e]|] eqn:Hnext.
  - pose proof (values_upto_snoc _ _ Hrs Hnext) as Hrs'.
    rewrite length_app. cbn. case_match eqn:Hlim.
    + eexists; split; [done|]. apply (stream_full (results ++ [v])); [done|].
      rewrite length_app. cbn. apply Z.leb_le in Hlim. unfold turns in *. lia.
    + apply IH; [done|rewrite length_app; cbn; lia|].
      apply Z.leb_gt in Hlim. unfold turns in *. lia.
  - eexists; split; [done|]. apply (stream_error results); auto; lia.
  - eexists; split; [done|]. apply (stream_end results); auto; lia.
Qed.

Lemma run_iter_spec : stream_run run_iter.
Proof.
  destruct (collect_total turns []) as (r & E & Hr); [done|done|unfold turns; lia|].
  unfold run_iter. by rewrite E.
Qed.

Lemma values_upto_agree rs rs' :
  values_upto rs → values_upto rs' → length rs ≤ length rs' →
  ∃ k, rs' = rs ++ k.
Proof.
  intros H1 H2 Hlen. exists (drop (length rs) rs').
  rewrite <- (take_drop (length rs) rs') at 1. f_equal.
  apply list_eq_same_length with (length rs); [done|rewrite length_take; lia|].
  intros i v w Hi Hv Hw. rewrite lookup_take_lt in Hv by done.
  apply H1 in Hw. apply H2 in Hv. congruence.
Qed.

Lemma values_upto_stop rs rs' :
  values_upto rs → values_upto rs' → length rs < length rs' →
  ∃ v, iter (length rs) = Some (Ok v).
Proof.
  intros H1 H2 Hlen. destruct (lookup_lt_is_Some_2 rs' (length rs)) as [v Hv]; [lia|].
  exists v. by apply H2.
Qed.

Lemma values_upto_eq rs rs' :
  values_upto rs → values_upto rs' → length rs = length rs' → rs = rs'.
Proof.
  intros H1 H2 E. destruct (values_upto_agree rs rs') as [k ->]; [done..|lia|].
  rewrite length_app in E. destruct k; cbn in *; [by rewrite app_nil_r|lia].
Qed.

Lemma stream_run_fun r r' : stream_run r → stream_run r' → r = r'.
Proof.
  destruct 1 as [rs Hv Hl He|rs e Hv Hl He|rs Hv Hl];
    destruct 1 as [rs' Hv' Hl' He'|rs' e' Hv' Hl' He'|rs' Hv' Hl'];
    destruct (lt_eq_lt_dec (length rs) (length rs')) as [[L|L]|L];
    try (destruct (values_upto_stop rs rs') as [? ?]; [done..|congruence]);
    try (destruct (values_upto_stop rs' rs) as [? ?]; [done..|congruence]);
    try (pose proof (values_upto_eq rs rs' Hv Hv' L); subst); congruence || lia.
Qed.
End iteration.

Definition quote : string := String "034"%char EmptyString.
Definition newline : string := String "010"%char EmptyString.
Definition tab : string := String "009"%char EmptyString.

Definition assign_expression (expression : string) : string :=
  "(" +:+ expression +:+ ") = $val".

Definition assign_zip_expression (expression : string) : string :=
  newline +:+ tab +:+ tab +:+ "[path(" +:+ expression +:+ ")] as $paths |" +:+
  newline +:+ tab +:+ tab +:+ "if ($paths | length) == ($val | length) then" +:+
  newline +:+ tab +:+ tab +:+ tab +:+
    "reduce range($paths | length) as $i (.; setpath($paths[$i]; $val[$i]))" +:+
  newline +:+ tab +:+ tab +:+ "else" +:+
  newline +:+ tab +:+ tab +:+ tab +:+
    "error(" +:+ quote +:+ "array length mismatch: expected " +:+ quote +:+
    " + ($paths | length | tostring) + " +:+ quote +:+ " values but got " +:+ quote +:+
    " + ($val | length | tostring))" +:+
  newline +:+ tab +:+ tab +:+ "end" +:+ newline +:+ tab.

Section implementation.
Context `{Gojq}.

Definition compile (expression : string) (variables : list string) : result Code :=
  match gojq_Parse expression with
  | Fail err => Fail (JQParseError expression err)
  | Ok parsed =>
      match gojq_Compile parsed variables with
      | Fail compileErr => Fail (JQCompileError expression compileErr)
      | Ok compiled => Ok compiled
      end
  end.

Definition safeRunWithVariables (r : runner) (q : Code) (input : value) (expression : string)
    (variables : list value) : result (list value) :=
  run_iter (RunWithContext (queryTimeout r) q input variables) (maxResults r) expression.

Definition runner_Evaluate (expression : string) : M runner (list value) :=
  objectData ← wrap (λ err, Errorf "failed to get JSON data: %w" [] [err]) getObjectData;
  gets (λ r, query ← compile expression []; safeRunWithVariables r query objectData expression []).

Definition assignWithExpression (updateExpression : string) (variables : list string)
    (values : list value) : M runner () :=
  if decide (length variables ≠ length values) then
    fail (Errorf "variables and values length mismatch: %d variables but %d values"
            [ANat (length variables); ANat (length values)] [])
  else
  objectData ← wrap (λ err, Errorf "failed to get JSON data: %w" [] [err]) getObjectData;
  convertedValues ← lift (mapR (λ v,
      map_error (λ err, Errorf "failed to convert value to primitive: %w" [] [err])
        (convertToPrimitive v)) values);
  modify (λ r,
    query ← compile updateExpression variables;
    results ← safeRunWithVariables r query objectData updateExpression convertedValues;
    match results with
    | [] => Fail (Errorf "update query returned no results for expression: %s"
                    [AStr updateExpression] [])
    | result :: _ => Ok (set_objectData r result)
    end).

Definition runner_Assign (expression : string) (v : value) : M runner () :=
  assignWithExpression (assign_expression expression) ["$val"] [v].

Definition runner_AssignZip (expression : string) (values : list value) : M runner () :=
  assignWithExpression (assign_zip_expression expression) ["$val"] [VArray values].

Definition runner_GetObject : M runner value := getObjectData.

#[export] Instance Runner_runner : Runner runner := {|
  Evaluate := runner_Evaluate;
  GetObject := runner_GetObject;
  Assign := runner_Assign;
  AssignZip := runner_AssignZip;
|}.

(** *** The laws hold *)

(** Two runners are observably equal when they agree after the conversion;
    the source is not looked at again. *)
Definition observe (r : runner) : result value * (Z * Z) :=
  (run getObjectData r, (maxResults r, queryTimeout r)).

#[export] Instance runner_equiv : Equiv runner := λ r r', observe r = observe r'.

#[export] Instance runner_equiv_equivalence : Equivalence (≡@{runner}).
Proof. split; unfold equiv, runner_equiv; repeat intro; congruence. Qed.

Lemma convert_once_idemp r : convert_once (convert_once r) = convert_once r.
Proof.
  unfold convert_once. destruct (jsonOnce r) eqn:E; [by rewrite E|].
  by destruct (convertToPrimitive _).
Qed.

Lemma convert_once_equiv r : convert_once r ≡ r.
Proof.
  unfold equiv, runner_equiv, observe, run, getObjectData. cbn.
  rewrite convert_once_idemp. f_equal.
  unfold convert_once. by repeat case_match.
Qed.

Lemma runner_equiv_spec r r' :
  r ≡ r' → run getObjectData r = run getObjectData r' ∧
    maxResults r = maxResults r' ∧ queryTimeout r = queryTimeout r'.
Proof. unfold equiv, runner_equiv, observe. intros [= ? ? ?]. done. Qed.

Lemma convert_once_jsonOnce r : jsonOnce (convert_once r) = true.
Proof. unfold convert_once. by repeat case_match. Qed.

Lemma convert_once_params r :
  maxResults (convert_once r) = maxResults r ∧ queryTimeout (convert_once r) = queryTimeout r.
Proof. unfold convert_once. by repeat case_match. Qed.

Lemma getObjectData_readonly : readonly getObjectData.
Proof.
  split; [|intros r; apply convert_once_equiv].
  intros r r' E. split; [by apply (runner_equiv_spec r r')|].
  cbn. by rewrite !convert_once_equiv.
Qed.

(** A query over the object, as a function of the observable state. *)
Definition query (r : runner) (expression : string) (variables : list string)
    (objectData : value) (values : list value) : result (list value) :=
  q ← compile expression variables; safeRunWithVariables r q objectData expression values.

Lemma query_equiv r r' e vars o vs : r ≡ r' → query r e vars o vs = query r' e vars o vs.
Proof.
  intros (_ & E1 & E2)%runner_equiv_spec. unfold query, safeRunWithVariables.
  by rewrite E1, E2.
Qed.

Lemma runner_Evaluate_run e r :
  run (runner_Evaluate e) r =
    o ← map_error (λ err, Errorf "failed to get JSON data: %w" [] [err]) (run getObjectData r);
    query r e [] o [].
Proof.
  unfold run, runner_Evaluate, wrap, getObjectData, query, safeRunWithVariables, gets.
  unfold mbind, M_bind, result_bind. cbn.
  destruct (convert_once_params r) as [E1 E2].
  destruct (jsonErr (convert_once r)); cbn; [done|]. by rewrite E1, E2.
Qed.

Lemma runner_Evaluate_state e r : (runner_Evaluate e r).2 ≡ r.
Proof.
  unfold runner_Evaluate, wrap, getObjectData, gets, mbind, M_bind. cbn.
  destruct (jsonErr (convert_once r)); apply convert_once_equiv.
Qed.

(** The update an assignment performs, in one equation. *)
Definition update (r : runner) (e : string) (values : list value) : result value :=
  o ← map_error (λ err, Errorf "failed to get JSON data: %w" [] [err]) (run getObjectData r);
  vs ← mapR (λ v, map_error (λ err, Errorf "failed to convert value to primitive: %w" [] [err])
                    (convertToPrimitive v)) values;
  rs ← query r e ["$val"] o vs;
  match rs with
  | [] => Fail (Errorf "update query returned no results for expression: %s" [AStr e] [])
  | result :: _ => Ok result
  end.

Lemma assignWithExpression_eq e v r :
  assignWithExpression e ["$val"] [v] r =
    match update r e [v] with
    | Ok o => (Ok (), set_objectData (convert_once r) o)
    | Fail err => (Fail err, convert_once r)
    end.
Proof.
  unfold assignWithExpression. rewrite decide_False by (cbn; lia).
  unfold update, query, run, wrap, lift, getObjectData, safeRunWithVariables, modify.
  unfold mbind, M_bind, result_bind. cbn.
  destruct (convert_once_params r) as [E1 E2].
  destruct (jsonErr (convert_once r)); cbn; [done|].
  destruct (convertToPrimitive v); cbn; [|done]. rewrite E1, E2.
  destruct (compile e ["$val"]); cbn; [|done]. by destruct (run_iter _ _ _) as [[]|].
Qed.

Lemma update_equiv r r' e vs : r ≡ r' → update r e vs = update r' e vs.
Proof.
  intros E. unfold update. destruct (runner_equiv_spec _ _ E) as (-> & _).
  destruct (map_error _ _); [|done]. cbn. destruct (mapR _ _); [|done]. cbn.
  by rewrite (query_equiv _ _ _ _ _ _ E).
Qed.

Lemma update_no_error r e vs o : update r e vs = Ok o → jsonErr (convert_once r) = None.
Proof. unfold update, run, getObjectData. cbn. by destruct (jsonErr _). Qed.

Lemma set_objectData_read r v :
  jsonErr (convert_once r) = None →
  run getObjectData (set_objectData (convert_once r) v) = Ok v.
Proof.
  intros E. unfold run, getObjectData.
  assert (Hc : convert_once (set_objectData (convert_once r) v) = set_objectData (convert_once r) v).
  { unfold convert_once at 1. cbn. by rewrite convert_once_jsonOnce. }
  rewrite Hc. cbn. by rewrite E.
Qed.

Lemma assignWithExpression_respects e v : respects (assignWithExpression e ["$val"] [v]).
Proof.
  intros r r' E. rewrite !assignWithExpression_eq, (update_equiv _ _ _ _ E).
  destruct (update r' e [v]) as [o|err] eqn:Hu.
  - split; [done|]. cbn. pose proof (update_no_error _ _ _ _ Hu) as Hn'.
    rewrite <- (update_equiv _ _ _ _ E) in Hu.
    pose proof (update_no_error _ _ _ _ Hu) as Hn.
    unfold equiv, runner_equiv, observe. rewrite !set_objectData_read by done.
    destruct (runner_equiv_spec _ _ E) as (_ & E1 & E2). cbn.
    destruct (convert_once_params r) as [-> ->], (convert_once_params r') as [-> ->].
    by rewrite E1, E2.
  - split; [done|]. cbn. by rewrite !convert_once_equiv.
Qed.

Lemma assign_atomic e v r err :
  run (assignWithExpression e ["$val"] [v]) r = Fail err →
  (assignWithExpression e ["$val"] [v] r).2 ≡ r.
Proof.
  unfold run. rewrite assignWithExpression_eq.
  destruct (update r e [v]); [done|]. intros _. apply convert_once_equiv.
Qed.

Lemma runner_lawful : RunnerLaws runner.
Proof.
  split.
  - apply _.
  - intros e. split; [|intros r; apply runner_Evaluate_state].
    intros r r' E. split.
    + cbn [Evaluate Runner_runner]. change (run (runner_Evaluate e) r = run (runner_Evaluate e) r').
      rewrite !runner_Evaluate_run. destruct (runner_equiv_spec _ _ E) as (-> & _).
      destruct (map_error _ _); [|done]. cbn. by apply query_equiv.
    + change ((runner_Evaluate e r).2 ≡ (runner_Evaluate e r').2). by rewrite !runner_Evaluate_state.
  - apply getObjectData_readonly.
  - intros. apply assignWithExpression_respects.
  - intros. apply assignWithExpression_respects.
  - intros ????. apply assign_atomic.
  - intros ????. apply assign_atomic.
Qed.
#[export] Existing Instance runner_lawful.

(** *** Properties *)

(** C6: running a compiled query always returns: it yields every result of the
    stream when the stream ends below the limit, the stream's first error when
    that comes first, and otherwise, even on an infinite stream, a refusal as
    soon as the results reach the limit. *)
Theorem safeRunWithVariables_spec r q input expression vs res :
  safeRunWithVariables r q input expression vs = res ↔
  stream_run (RunWithContext (queryTimeout r) q input vs) (maxResults r) expression res.
Proof.
  unfold safeRunWithVariables. split.
  - intros <-. apply run_iter_spec.
  - intros Hres. eapply stream_run_fun; [apply run_iter_spec|done].
Qed.

(** C7: the gojq runner keeps the promises of the interface: queries never
    change the object, results depend on the observable object alone, and a
    failing assignment leaves the object as it was. *)
Theorem runner_implements_Runner : RunnerLaws runner.
Proof. apply runner_lawful. Qed.

(** An assignment evaluates the update query on the current object and,
    exactly when that produces a result, makes the first result the object
    later reads see. *)
Theorem Assign_then_GetObject r p v vs :
  run (Assign p v ≫= λ _, GetObject) r = update r (assign_expression p) [v] ∧
  run (AssignZip p vs ≫= λ _, GetObject) r = update r (assign_zip_expression p) [VArray vs].
Proof.
  assert (Hgen : ∀ e w, run (assignWithExpression e ["$val"] [w] ≫= λ _, getObjectData) r
                        = update r e [w]).
  { intros e w. unfold run at 1. unfold mbind, M_bind. rewrite assignWithExpression_eq.
    destruct (update r e [w]) as [o|err] eqn:Hu; [|done].
    apply set_objectData_read. by eapply update_no_error. }
  split; apply Hgen.
Qed.
End implementation.

(** ** A runner that answers from a table

    A second, closed implementation of the interface: it shows that the laws
    can be met without gojq, and concrete inputs are evaluated on it. *)

Record table := Table { answers : gmap string (list value) }.

#[export] Instance table_equiv : Equiv table := (=).

#[export] Instance Runner_table : Runner table := {|
  Evaluate p t := (Ok (default [] (answers t !! p)), t);
  GetObject t := (Ok (VMap (VArray <$> answers t)), t);
  Assign p v t := (Ok (), Table (<[p := [v]]> (answers t)));
  AssignZip p vs t :=
    if bool_decide (length (default [] (answers t !! p)) = length vs)
    then (Ok (), Table (<[p := vs]> (answers t)))
    else (Fail (External "array length mismatch"), t);
|}.

#[export] Instance table_lawful : RunnerLaws table.
Proof.
  assert (Heq : ∀ A (m : M table A), respects m) by (by intros A m r r' <-; split).
  split; try (by intros; apply Heq).
  - apply _.
  - intros. by split.
  - by split.
  - done.
  - unfold run. cbn. intros p vs r e. by case_bool_decide.
Qed.
