(* ===== verification/Accessor.v ===== *)
(** * Accessor: reading and writing the parts of a component

    Models [karta/sdk/pkg/resource/accessor.go] and the interface
    [ComponentAccessor] of [component_factory.go] it implements.  The accessor
    is generic in the runner; everything is proved from the laws of the
    [Runner] interface.  The Kubernetes types are parameters known by their
    JSON directions, and [decode] stands for [json.Unmarshal] of the text of an
    action's value. *)

From S2P Require Import Prelude Api Value Runner.

(** ** Kubernetes types *)

Class K8s := {
  PodTemplateSpec : Type;
  PodSpec : Type;
  ObjectMeta : Type;
  ResourceRequirements : Type;
  PodResourceClaim : Type;
  PodAffinity : Type;
  NodeAffinity : Type;
  Container : Type;
  PodTemplateSpec_struct :: GoStruct PodTemplateSpec;
  PodSpec_struct :: GoStruct PodSpec;
  ObjectMeta_struct :: GoStruct ObjectMeta;
  ResourceRequirements_struct :: GoStruct ResourceRequirements;
  PodResourceClaim_struct :: GoStruct PodResourceClaim;
  PodAffinity_struct :: GoStruct PodAffinity;
  NodeAffinity_struct :: GoStruct NodeAffinity;
  Container_struct :: GoStruct Container;
}.

(** ** Extracted data *)

Record Scale := MkScale {
  scale_Replicas : option Z;
  scale_MinReplicas : option Z;
  scale_MaxReplicas : option Z;
}.

Record Condition := MkCondition {
  cond_Type : string;
  cond_Status : option string;
  cond_Reason : option string;
  cond_Message : string;
}.

Record Status := MkStatus {
  status_Phase : option string;
  status_Conditions : list Condition;
  status_MatchedStatuses : list ResourceStatus;
}.

Record FragmentedPodSpec `{K8s} := MkFragmentedPodSpec {
  fps_SchedulerName : string;
  fps_Labels : string_map;
  fps_Annotations : string_map;
  fps_Resources : option ResourceRequirements;
  fps_ResourceClaims : slice PodResourceClaim;
  fps_PodAffinity : option PodAffinity;
  fps_NodeAffinity : option NodeAffinity;
  fps_Containers : slice Container;
  fps_Container : option Container;
  fps_PriorityClassName : string;
  fps_Image : string;
}.
Arguments MkFragmentedPodSpec {_}.

(** ** Errors *)

Definition not_found (fmt : string) (definition : ComponentDefinition) : error :=
  DefinitionNotFoundError fmt [AStr (cd_Name definition)].

Definition no_spec := not_found "component %s does not have spec definition".
Definition no_pod_template_spec := not_found "component %s does not have pod template spec definition".
Definition no_pod_spec := not_found "component %s does not have pod spec definition".
Definition no_pod_metadata := not_found "component %s does not have pod metadata definition".
Definition no_scale := not_found "component %s does not have scale definition".
Definition no_fragmented := not_found "component %s does not have fragmented pod spec definition".
Definition no_status := not_found "component %s does not have status definition".
Definition no_suspend := not_found "component %s does not have suspendDefinition".

(** A run-time panic of the Go program. *)
Definition index_panic : error := External "panic: index out of range [0] with length 0".

Definition require {S A} (o : option A) (e : error) : M S A :=
  match o with Some a => mret a | None => fail e end.

(** ** Pure parts *)

(** The element of [extractReplicas]: a numeric string becomes a number. *)
Definition normalize_replicas (i : nat) (object : value) : result value :=
  match object with
  | VString str =>
      match ParseInt32 str with
      | Some parsed => Ok (VInt parsed)
      | None => Fail (Errorf "replicas value %q at index %d is not a number" [AStr str; ANat i] [])
      end
  | _ => Ok object
  end.

Definition lookup_string (condMap : gmap string value) (field : string) : option string :=
  match condMap !! field with Some (VString s) => Some s | _ => None end.

Definition condition_of (condDef : ConditionsDefinition) (condMap : gmap string value) : Condition :=
  MkCondition
    (default "" (lookup_string condMap (cnd_TypeFieldName condDef)))
    (lookup_string condMap (cnd_StatusFieldName condDef))
    (cnd_ReasonFieldName condDef ≫= lookup_string condMap)
    (default "" (cnd_MessageFieldName condDef ≫= lookup_string condMap)).

(** Later conditions of the same type win. *)
Definition conditions_by_type (conditions : list Condition) : gmap string Condition :=
  foldl (λ m cond, <[cond_Type cond := cond]> m) ∅ conditions.

Definition checkCondition (conditionsMap : gmap string Condition) (expectedCond : ExpectedCondition)
  : option Condition := conditionsMap !! ec_Type expectedCond.

(** One turn of the condition loop of [match_]: may the matcher go on? *)
Definition condition_ok (conditionsMap : gmap string Condition) (expectedCond : ExpectedCondition) : bool :=
  match checkCondition conditionsMap expectedCond with
  | None => false
  | Some actualCond =>
      let expectedStatus := default "" (ec_Status expectedCond) in
      let expectedReason := default "" (ec_Reason expectedCond) in
      if bool_decide (expectedStatus ≠ "") &&
         bool_decide (expectedStatus ≠ default "" (cond_Status actualCond)) then false
      else if bool_decide (expectedReason ≠ "") &&
              bool_decide (expectedReason ≠ default "" (cond_Reason actualCond)) then false
      else true
  end.

Definition phase_ok (phase : option string) (matcher : StatusMatcher) : bool :=
  if bool_decide (sm_ByPhase matcher ≠ "") then bool_decide (phase = Some (sm_ByPhase matcher))
  else true.

(** An expected condition holds when it is present with the expected status and
    reason where these are given. *)
Definition condition_matches (c : ExpectedCondition) (a : Condition) : Prop :=
  (default "" (ec_Status c) = "" ∨ default "" (ec_Status c) = default "" (cond_Status a)) ∧
  (default "" (ec_Reason c) = "" ∨ default "" (ec_Reason c) = default "" (cond_Reason a)).

Definition condition_holds (cm : gmap string Condition) (c : ExpectedCondition) : Prop :=
  ∃ a, cm !! ec_Type c = Some a ∧ condition_matches c a.

Lemma phase_ok_spec phase m :
  phase_ok phase m = true ↔ sm_ByPhase m = "" ∨ phase = Some (sm_ByPhase m).
Proof. unfold phase_ok. repeat case_bool_decide; naive_solver. Qed.

Lemma condition_ok_spec cm c : condition_ok cm c = true ↔ condition_holds cm c.
Proof.
  unfold condition_ok, condition_holds, checkCondition.
  destruct (cm !! ec_Type c) as [a|]; [|by split; [|intros (? & ? & _)]].
  assert (Hs : (∃ a', Some a = Some a' ∧ condition_matches c a') ↔ condition_matches c a) by naive_solver.
  unfold condition_matches in Hs. rewrite Hs. clear Hs.
  generalize (default "" (ec_Status c)) (default "" (ec_Reason c))
    (default "" (cond_Status a)) (default "" (cond_Reason a)).
  intros s1 s2 s3 s4. repeat (case_bool_decide; cbn); intuition congruence.
Qed.

(** ** The accessor over a runner *)

Section accessor.
Context `{K8s}.
Context {R : Type} `{Runner R}.
Context (decode : string → result value).

Definition accessor_GetObject : M R (gmap string value) :=
  object ← GetObject;
  match object with
  | VMap objectMap => mret objectMap
  | _ => fail (Errorf "object is not a map[string]interface{}" [] [])
  end.

Definition extract {T} `{GoType T} (path : option string) : M R (list T) :=
  match path with
  | None => mret []
  | Some path => results ← Evaluate path; lift (safeConvertSlice results)
  end.

Definition extractReplicas (path : option string) : M R (list ptr_int32) :=
  match path with
  | None => mret []
  | Some path =>
      results ← Evaluate path;
      normalized ← lift (mapR (λ '(i, object), normalize_replicas i object) (imap pair results));
      lift (safeConvertSlice normalized)
  end.

Definition ExtractPodTemplateSpec (definition : ComponentDefinition) : M R (list PodTemplateSpec) :=
  spec ← require (cd_SpecDefinition definition) (no_spec definition);
  path ← require (sd_PodTemplateSpecPath spec) (no_pod_template_spec definition);
  extract (Some path).

Definition ExtractPodSpec (definition : ComponentDefinition) : M R (list PodSpec) :=
  spec ← require (cd_SpecDefinition definition) (no_spec definition);
  path ← require (sd_PodSpecPath spec) (no_pod_spec definition);
  extract (Some path).

Definition ExtractPodMetadata (definition : ComponentDefinition) : M R (list ObjectMeta) :=
  spec ← require (cd_SpecDefinition definition) (no_spec definition);
  path ← require (sd_MetadataPath spec) (no_pod_metadata definition);
  extract (Some path).

Definition ExtractScale (definition : ComponentDefinition) : M R (list Scale) :=
  scaleDefinition ← require (cd_ScaleDefinition definition) (no_scale definition);
  replicas ← extractReplicas (sc_ReplicasPath scaleDefinition);
  let scaleCount := Nat.max 0 (length replicas) in
  minReplicas ← extractReplicas (sc_MinReplicasPath scaleDefinition);
  let scaleCount := Nat.max scaleCount (length minReplicas) in
  maxReplicas ← extractReplicas (sc_MaxReplicasPath scaleDefinition);
  let scaleCount := Nat.max scaleCount (length maxReplicas) in
  mret ((λ i, MkScale (deref_int32 (safeGetByIndex replicas i))
                      (deref_int32 (safeGetByIndex minReplicas i))
                      (deref_int32 (safeGetByIndex maxReplicas i))) <$> seq 0 scaleCount).

Definition ExtractFragmentedPodSpec (definition : ComponentDefinition) : M R (list FragmentedPodSpec) :=
  spec ← require (cd_SpecDefinition definition) (no_spec definition);
  fragmentedDefinition ← require (sd_FragmentedPodSpecDefinition spec) (no_fragmented definition);
  schedulerName ← extract (fd_SchedulerNamePath fragmentedDefinition);
  let specCount := Nat.max 0 (length schedulerName) in
  labels ← extract (fd_LabelsPath fragmentedDefinition);
  let specCount := Nat.max specCount (length labels) in
  annotations ← extract (fd_AnnotationsPath fragmentedDefinition);
  let specCount := Nat.max specCount (length annotations) in
  resources ← extract (fd_ResourcesPath fragmentedDefinition);
  let specCount := Nat.max specCount (length resources) in
  resourceClaims ← extract (fd_ResourceClaimsPath fragmentedDefinition);
  let specCount := Nat.max specCount (length resourceClaims) in
  podAffinity ← extract (fd_PodAffinityPath fragmentedDefinition);
  let specCount := Nat.max specCount (length podAffinity) in
  nodeAffinity ← extract (fd_NodeAffinityPath fragmentedDefinition);
  let specCount := Nat.max specCount (length nodeAffinity) in
  containers ← extract (fd_ContainersPath fragmentedDefinition);
  let specCount := Nat.max specCount (length containers) in
  container ← extract (fd_ContainerPath fragmentedDefinition);
  let specCount := Nat.max specCount (length container) in
  priorityClassName ← extract (fd_PriorityClassNamePath fragmentedDefinition);
  let specCount := Nat.max specCount (length priorityClassName) in
  image ← extract (fd_ImagePath fragmentedDefinition);
  let specCount := Nat.max specCount (length image) in
  mret ((λ i, MkFragmentedPodSpec
                (safeGetByIndex schedulerName i)
                (safeGetByIndex labels i)
                (safeGetByIndex annotations i)
                (safeGetByIndex resources i)
                (safeGetByIndex resourceClaims i)
                (safeGetByIndex podAffinity i)
                (safeGetByIndex nodeAffinity i)
                (safeGetByIndex containers i)
                (safeGetByIndex container i)
                (safeGetByIndex priorityClassName i)
                (safeGetByIndex image i)) <$> seq 0 specCount).

Definition extractConditions (condDef : option ConditionsDefinition) : M R (list Condition) :=
  match condDef with
  | None => mret []
  | Some condDef =>
      extractedRawConditions ←
        wrap (λ err, Errorf "failed to extract conditions: %w" [] [err])
          (extract (T:=list (gmap string value)) (Some (cnd_Path condDef)));
      let rawConditions := concat extractedRawConditions in
      mret (condition_of condDef <$> rawConditions)
  end.

Definition matchByExpression (expression : ExpressionMatcher) : M R bool :=
  results ← wrap (λ err, Errorf "failed to evaluate ByExpression: %w" [] [err])
    (Evaluate ("(" +:+ em_Expression expression +:+ ") | tostring"));
  match results with
  | [] => mret false
  | VNil :: _ => mret false
  | VString actual :: _ => mret (bool_decide (actual = em_ExpectedResult expression))
  | _ => fail (Errorf "expression result did not convert to a string, got %T" [] [])
  end.

Definition match_ (phase : option string) (conditionsMap : gmap string Condition)
    (matcher : StatusMatcher) : M R bool :=
  if negb (phase_ok phase matcher) then mret false
  else if negb (forallb (condition_ok conditionsMap) (sm_ByConditions matcher)) then mret false
  else match sm_ByExpression matcher with
       | Some expression => matchByExpression expression
       | None => mret true
       end.

Fixpoint evaluateMatchers (phase : option string) (conditionsMap : gmap string Condition)
    (matchers : list StatusMatcher) : M R bool :=
  match matchers with
  | [] => mret false
  | matcher :: matchers =>
      matched ← wrap (λ err, Errorf "failed to evaluate matcher: %w" [] [err])
        (match_ phase conditionsMap matcher);
      if (matched : bool) then mret true else evaluateMatchers phase conditionsMap matchers
  end.

Fixpoint matchEntries (phase : option string) (conditionsMap : gmap string Condition)
    (entries : list StatusMatchEntry) : M R (list ResourceStatus) :=
  match entries with
  | [] => mret []
  | entry :: entries =>
      matched ← evaluateMatchers phase conditionsMap (sme_Matchers entry);
      rest ← matchEntries phase conditionsMap entries;
      mret (if (matched : bool) then sme_Status entry :: rest else rest)
  end.

Definition matchStatus (phase : option string) (conditions : list Condition)
    (mappings : StatusMappings) : M R (list ResourceStatus) :=
  let conditionsMap := conditions_by_type conditions in
  matchedStatuses ← matchEntries phase conditionsMap (Entries mappings);
  mret match matchedStatuses with [] => [UndefinedStatus] | _ => matchedStatuses end.

Definition ExtractStatus (definition : ComponentDefinition) : M R Status :=
  statusDef ← require (cd_StatusDefinition definition) (no_status definition);
  phase ← match std_PhaseDefinition statusDef with
          | None => mret None
          | Some phaseDefinition =>
              phases ← wrap (λ err, Errorf "failed to extract phase: %w" [] [err])
                (extract (T:=string) (Some (pd_Path phaseDefinition)));
              mret (head phases)
          end;
  conditions ← extractConditions (std_ConditionsDefinition statusDef);
  matchedStatuses ← wrap (λ err, Errorf "failed to match status: %w" [] [err])
    (matchStatus phase conditions (std_StatusMappings statusDef));
  mret (MkStatus phase conditions matchedStatuses).

Definition ExtractInstanceIds (definition : ComponentDefinition) : M R (list string) :=
  path ← require (cd_InstanceIdPath definition)
           (DefinitionNotFoundError "no instance id path defined" []);
  instanceIds ← extract (Some path);
  if bool_decide ("" ∈ instanceIds) then
    fail (Errorf "instance id path contained empty string values [%s]" [AStrs instanceIds] [])
  else mret instanceIds.

(** *** Suspend and resume *)

(** The loop over the actions of either list, [i] counting from 0. *)
Fixpoint applyActions (fmt_decode fmt_assign : string) (i : nat) (actions : list SuspendAction)
  : M R () :=
  match actions with
  | [] => mret ()
  | action :: actions =>
      v ← lift (map_error (λ err, Errorf fmt_decode [ANat i] [err]) (decode (sa_Value action)));
      _ ← wrap (λ err, Errorf fmt_assign [ANat i] [err]) (Assign (sa_Path action) v);
      applyActions fmt_decode fmt_assign (S i) actions
  end.

Definition ApplySuspendActions (definition : ComponentDefinition) : M R () :=
  suspendDefinition ← require (cd_SuspendDefinition definition) (no_suspend definition);
  applyActions "suspendActions[%d]: failed to decode value: %w" "suspendActions[%d]: %w"
    0 (sus_SuspendActions suspendDefinition).

Definition ApplyResumeActions (definition : ComponentDefinition) : M R () :=
  suspendDefinition ← require (cd_SuspendDefinition definition) (no_suspend definition);
  applyActions "resumeActions[%d]: failed to decode value: %w" "resumeActions[%d]: %w"
    0 (sus_ResumeActions suspendDefinition).

(** *** Updates *)

(** [values[0]] of an empty slice panics. *)
Definition assign (definition : ComponentDefinition) (path : string) (values : list value) : M R () :=
  match cd_InstanceIdPath definition with
  | Some _ => AssignZip path values
  | None => match values with
            | [] => fail index_panic
            | v :: _ => Assign path v
            end
  end.

Definition UpdatePodTemplateSpec (definition : ComponentDefinition)
    (podTemplateSpecs : list PodTemplateSpec) : M R () :=
  spec ← require (cd_SpecDefinition definition) (no_spec definition);
  path ← require (sd_PodTemplateSpecPath spec) (no_pod_template_spec definition);
  assign definition path (box <$> podTemplateSpecs).

Definition UpdatePodSpec (definition : ComponentDefinition) (podSpecs : list PodSpec) : M R () :=
  spec ← require (cd_SpecDefinition definition) (no_spec definition);
  path ← require (sd_PodSpecPath spec) (no_pod_spec definition);
  assign definition path (box <$> podSpecs).

Definition UpdatePodMetadata (definition : ComponentDefinition) (podMetadata : list ObjectMeta) : M R () :=
  spec ← require (cd_SpecDefinition definition) (no_spec definition);
  path ← require (sd_MetadataPath spec) (no_pod_metadata definition);
  assign definition path (box <$> podMetadata).

Definition updateField {T} `{GoType T} (def : ComponentDefinition) (path : option string)
    (values : list T) (isEmpty : T → bool) : M R () :=
  match path with
  | Some path => if forallb isEmpty values then mret () else assign def path (box <$> values)
  | None => if forallb isEmpty values then mret ()
            else fail (Errorf "path is not defined and values are not empty" [] [])
  end.

Definition updateStringField (def : ComponentDefinition) (path : option string)
    (specs : list FragmentedPodSpec) (getter : FragmentedPodSpec → string) : M R () :=
  updateField def path (getter <$> specs) (λ v, bool_decide (v = "")).

Definition string_map_empty (v : string_map) : bool :=
  match v with None => true | Some m => bool_decide (size m = 0) end.

Definition updateMapField (def : ComponentDefinition) (path : option string)
    (specs : list FragmentedPodSpec) (getter : FragmentedPodSpec → string_map) : M R () :=
  updateField def path (getter <$> specs) string_map_empty.

Definition updateStructPointerField {T} `{GoStruct T} (def : ComponentDefinition)
    (path : option string) (specs : list FragmentedPodSpec)
    (getter : FragmentedPodSpec → option T) : M R () :=
  updateField def path (getter <$> specs) (λ v, negb (bool_decide (is_Some v))).

Definition slice_empty {T} (v : slice T) : bool :=
  match v with None | Some [] => true | _ => false end.

Definition updateSliceField {T} `{GoStruct T} (def : ComponentDefinition) (path : option string)
    (specs : list FragmentedPodSpec) (getter : FragmentedPodSpec → slice T) : M R () :=
  updateField def path (getter <$> specs) slice_empty.

(** [if err := m; err != nil { return fmt.Errorf("failed to update ...: %w", err) }] *)
Definition updating (what : string) (m : M R ()) : M R () :=
  wrap (λ err, Errorf ("failed to update " +:+ what +:+ ": %w") [] [err]) m.

Definition UpdateFragmentedPodSpec (definition : ComponentDefinition)
    (specs : list FragmentedPodSpec) : M R () :=
  spec ← require (cd_SpecDefinition definition) (no_spec definition);
  def ← require (sd_FragmentedPodSpecDefinition spec) (no_fragmented definition);
  _ ← updating "scheduler name"
        (updateStringField definition (fd_SchedulerNamePath def) specs fps_SchedulerName);
  _ ← updating "priority class name"
        (updateStringField definition (fd_PriorityClassNamePath def) specs fps_PriorityClassName);
  _ ← updating "image" (updateStringField definition (fd_ImagePath def) specs fps_Image);
  _ ← updating "labels" (updateMapField definition (fd_LabelsPath def) specs fps_Labels);
  _ ← updating "annotations"
        (updateMapField definition (fd_AnnotationsPath def) specs fps_Annotations);
  _ ← updating "resources"
        (updateStructPointerField definition (fd_ResourcesPath def) specs fps_Resources);
  _ ← updating "pod affinity"
        (updateStructPointerField definition (fd_PodAffinityPath def) specs fps_PodAffinity);
  _ ← updating "node affinity"
        (updateStructPointerField definition (fd_NodeAffinityPath def) specs fps_NodeAffinity);
  _ ← updating "container"
        (updateStructPointerField definition (fd_ContainerPath def) specs fps_Container);
  _ ← updating "resource claims"
        (updateSliceField definition (fd_ResourceClaimsPath def) specs fps_ResourceClaims);
  updating "containers" (updateSliceField definition (fd_ContainersPath def) specs fps_Containers).

(** *** Reads are read-only, updates depend on the observable object *)

#[local] Set Default Proof Using "Type*".

Context `{Equiv R} `{!RunnerLaws R}.

Lemma require_readonly {A} (o : option A) e : readonly (R:=R) (require o e).
Proof. destruct o; [apply readonly_ret|apply readonly_fail]. Qed.

Lemma require_respects {A} (o : option A) e : respects (R:=R) (require o e).
Proof. apply readonly_respects, require_readonly. Qed.

Lemma extract_readonly {T} `{GoType T} (path : option string) : readonly (extract (T:=T) path).
Proof. unfold extract. solve_readonly. Qed.

Lemma extractReplicas_readonly (path : option string) : readonly (extractReplicas path).
Proof. unfold extractReplicas. solve_readonly. Qed.

#[local] Hint Resolve require_readonly require_respects extract_readonly
  extractReplicas_readonly : readonly.

Lemma accessor_GetObject_readonly : readonly accessor_GetObject.
Proof. unfold accessor_GetObject. solve_readonly. Qed.

Lemma ExtractPodTemplateSpec_readonly d : readonly (ExtractPodTemplateSpec d).
Proof. unfold ExtractPodTemplateSpec. solve_readonly. Qed.

Lemma ExtractPodSpec_readonly d : readonly (ExtractPodSpec d).
Proof. unfold ExtractPodSpec. solve_readonly. Qed.

Lemma ExtractPodMetadata_readonly d : readonly (ExtractPodMetadata d).
Proof. unfold ExtractPodMetadata. solve_readonly. Qed.

Lemma ExtractScale_readonly d : readonly (ExtractScale d).
Proof. unfold ExtractScale. solve_readonly. Qed.

Lemma ExtractFragmentedPodSpec_readonly d : readonly (ExtractFragmentedPodSpec d).
Proof. unfold ExtractFragmentedPodSpec. solve_readonly. Qed.

Lemma matchByExpression_readonly e : readonly (matchByExpression e).
Proof. unfold matchByExpression. solve_readonly. Qed.
#[local] Hint Resolve matchByExpression_readonly : readonly.

Lemma match_readonly ph cm m : readonly (match_ ph cm m).
Proof. unfold match_. solve_readonly. Qed.
#[local] Hint Resolve match_readonly : readonly.

Lemma evaluateMatchers_readonly ph cm ms : readonly (evaluateMatchers ph cm ms).
Proof. induction ms; cbn [evaluateMatchers]; solve_readonly. Qed.
#[local] Hint Resolve evaluateMatchers_readonly : readonly.

Lemma matchEntries_readonly ph cm es : readonly (matchEntries ph cm es).
Proof. induction es; cbn [matchEntries]; solve_readonly. Qed.
#[local] Hint Resolve matchEntries_readonly : readonly.

Lemma matchStatus_readonly ph cs ms : readonly (matchStatus ph cs ms).
Proof. unfold matchStatus. solve_readonly. Qed.

Lemma extractConditions_readonly cd : readonly (extractConditions cd).
Proof. unfold extractConditions. solve_readonly. Qed.
#[local] Hint Resolve matchStatus_readonly extractConditions_readonly : readonly.

Lemma ExtractStatus_readonly d : readonly (ExtractStatus d).
Proof. unfold ExtractStatus. solve_readonly. Qed.

Lemma ExtractInstanceIds_readonly d : readonly (ExtractInstanceIds d).
Proof. unfold ExtractInstanceIds. solve_readonly. Qed.

Lemma assign_respects d p vs : respects (assign d p vs).
Proof. unfold assign. repeat case_match; eauto with readonly. Qed.
#[local] Hint Resolve assign_respects : readonly.

Lemma applyActions_respects f g i l : respects (applyActions f g i l).
Proof. revert i. induction l; intros i; cbn [applyActions]; solve_respects. Qed.
#[local] Hint Resolve applyActions_respects : readonly.

Lemma updateField_respects {T} `{GoType T} d (p : option string) (vs : list T) e : respects (updateField d p vs e).
Proof. unfold updateField. solve_respects. Qed.
#[local] Hint Resolve updateField_respects : readonly.

Lemma UpdateFragmentedPodSpec_respects d fs : respects (UpdateFragmentedPodSpec d fs).
Proof.
  unfold UpdateFragmentedPodSpec, updating, updateStringField, updateMapField,
    updateStructPointerField, updateSliceField. solve_respects.
Qed.

(** *** Scale *)

Lemma run_require {A} (o : option A) e r :
  run (R:=R) (require o e) r = match o with Some a => Ok a | None => Fail e end.
Proof. by destruct o. Qed.

Lemma ptr_int32_unmarshal_range j p z :
  json_Unmarshal_T (T:=ptr_int32) j = Ok p → deref_int32 p = Some z → in_int32 z = true.
Proof.
  cbn. destruct j; intros Hj Hz; simplify_eq/=.
  destruct (int32_of_number n) as [z'|] eqn:E; simplify_eq/=.
  unfold int32_of_number in E. apply bind_Some in E as (z'' & _ & E).
  destruct (in_int32 z'') eqn:E'; by simplify_eq.
Qed.

Lemma safeConvertSlice_int32 vs l :
  safeConvertSlice (T:=ptr_int32) vs = Ok l →
  Forall (λ p, ∀ z, deref_int32 p = Some z → in_int32 z = true) l.
Proof.
  unfold safeConvertSlice. rewrite mapR_Ok. induction 1 as [|v p vs l Hv _ IH]; [constructor|].
  constructor; [|done]. intros z Hz. unfold convert_element in Hv. cbn [type_assert GoType_ptr_int32] in Hv.
  apply map_error_Ok in Hv. unfold convertViaJSON in Hv.
  apply result_bind_Ok in Hv as (j & _ & Hv). apply map_error_Ok in Hv.
  by eapply ptr_int32_unmarshal_range.
Qed.

Lemma extractReplicas_int32 path r l :
  run (extractReplicas path) r = Ok l →
  Forall (λ p, ∀ z, deref_int32 p = Some z → in_int32 z = true) l.
Proof.
  unfold extractReplicas. destruct path as [path|]; [|intros [= <-]; constructor].
  intros E. run_ok_in E. destruct E as (rs & _ & E).
  run_ok_in E. destruct E as (n & _ & E).
  rewrite run_lift in E. by eapply safeConvertSlice_int32.
Qed.

(** The [i]-th count of an extracted list, absent out of range. *)
Definition count_at (l : list ptr_int32) (i : nat) : option Z := l !! i ≫= deref_int32.

Lemma safeGetByIndex_count l i : deref_int32 (safeGetByIndex l i) = count_at l i.
Proof. unfold safeGetByIndex, count_at. by destruct (l !! i). Qed.

Lemma count_at_range (path : option string) r l i z :
  run (extractReplicas path) r = Ok l → count_at l i = Some z → in_int32 z = true.
Proof.
  intros Hl Hz. apply extractReplicas_int32 in Hl. unfold count_at in Hz.
  apply bind_Some in Hz as (p & Hp & Hz). by apply (proj1 (Forall_lookup _ _) Hl i p Hp).
Qed.

Lemma ExtractScale_run d r scales :
  run (ExtractScale d) r = Ok scales ↔
  ∃ sd replicas minReplicas maxReplicas,
    cd_ScaleDefinition d = Some sd ∧
    run (extractReplicas (sc_ReplicasPath sd)) r = Ok replicas ∧
    run (extractReplicas (sc_MinReplicasPath sd)) r = Ok minReplicas ∧
    run (extractReplicas (sc_MaxReplicasPath sd)) r = Ok maxReplicas ∧
    scales = (λ i, MkScale (count_at replicas i) (count_at minReplicas i) (count_at maxReplicas i))
      <$> seq 0 ((length replicas `max` length minReplicas) `max` length maxReplicas).
Proof.
  unfold ExtractScale. split.
  - intros E. run_ok_in E. destruct E as (sd & Hsd & E). rewrite run_require in Hsd.
    destruct (cd_ScaleDefinition d) as [sd'|]; [injection Hsd as ->|done].
    run_ok_in E. destruct E as (l1 & Hl1 & E). run_ok_in E. destruct E as (l2 & Hl2 & E).
    run_ok_in E. destruct E as (l3 & Hl3 & [= <-]). exists sd, l1, l2, l3.
    split_and!; [done..|]. cbn [Nat.max]. apply list_fmap_ext. intros _ i _.
    by rewrite !safeGetByIndex_count.
  - intros (sd & l1 & l2 & l3 & Hsd & Hl1 & Hl2 & Hl3 & ->).
    run_ok. exists sd. rewrite run_require, Hsd. split; [done|].
    run_ok. exists l1. split; [done|]. run_ok. exists l2. split; [done|].
    run_ok. exists l3. split; [done|]. rewrite run_ret.
    f_equal. cbn [Nat.max]. apply list_fmap_ext. intros _ i _. by rewrite !safeGetByIndex_count.
Qed.

(** A component's scales are its three extracted columns side by side: as
    many scales as the longest column has entries, the [i]-th made of the
    [i]-th replicas, minimum and maximum, each absent where its column is
    shorter; and nothing else ever comes out. *)
Theorem ExtractScale_spec d r scales :
  run (ExtractScale d) r = Ok scales ↔
  ∃ sd replicas minReplicas maxReplicas,
    cd_ScaleDefinition d = Some sd ∧
    run (extractReplicas (sc_ReplicasPath sd)) r = Ok replicas ∧
    run (extractReplicas (sc_MinReplicasPath sd)) r = Ok minReplicas ∧
    run (extractReplicas (sc_MaxReplicasPath sd)) r = Ok maxReplicas ∧
    length scales = (length replicas `max` length minReplicas) `max` length maxReplicas ∧
    ∀ i, i < length scales →
      scales !! i = Some (MkScale (count_at replicas i) (count_at minReplicas i)
                                  (count_at maxReplicas i)).
Proof.
  rewrite ExtractScale_run. split.
  - intros (sd & l1 & l2 & l3 & E0 & E1 & E2 & E3 & ->). exists sd, l1, l2, l3.
    split_and!; [done..|by rewrite length_fmap, length_seq|].
    intros i Hi. rewrite length_fmap, length_seq in Hi.
    by rewrite list_lookup_fmap, lookup_seq_lt.
  - intros (sd & l1 & l2 & l3 & E0 & E1 & E2 & E3 & Hlen & Hall). exists sd, l1, l2, l3.
    split_and!; [done..|]. apply list_eq_same_length with (length scales); [|done|].
    + by rewrite length_fmap, length_seq.
    + intros i x y Hi Hx Hy. rewrite Hall in Hx by done.
      rewrite list_lookup_fmap, lookup_seq_lt in Hy by lia. cbn in Hy. congruence.
Qed.

(** Whatever the object holds, numbers or numeric strings, every extracted
    count is a 32-bit integer. *)
Theorem ExtractScale_int32 d r scales :
  run (ExtractScale d) r = Ok scales →
  ∀ s z, s ∈ scales →
    (scale_Replicas s = Some z ∨ scale_MinReplicas s = Some z ∨ scale_MaxReplicas s = Some z) →
    (int32_min ≤ z ≤ int32_max)%Z.
Proof.
  rewrite ExtractScale_run. intros (sd & l1 & l2 & l3 & _ & E1 & E2 & E3 & ->) s z Hs Hz.
  apply list_elem_of_fmap in Hs as (i & -> & _). apply in_int32_spec.
  destruct Hz as [Hz|[Hz|Hz]]; cbn in Hz.
  - apply (count_at_range _ _ _ _ _ E1 Hz).
  - apply (count_at_range _ _ _ _ _ E2 Hz).
  - apply (count_at_range _ _ _ _ _ E3 Hz).
Qed.

(** *** Status *)

Lemma run_lift_wrap {A} w (m : M R A) r a :
  run (wrap w m) r = Ok a ↔ run m r = Ok a.
Proof. rewrite run_wrap. apply map_error_Ok. Qed.

(** A matcher applies when its phase, its conditions and its expression do. *)
Definition expression_holds (r : R) (e : ExpressionMatcher) : Prop :=
  ∃ rest, run (Evaluate ("(" +:+ em_Expression e +:+ ") | tostring")) r
          = Ok (VString (em_ExpectedResult e) :: rest).

Definition matcher_holds (r : R) (phase : option string) (cm : gmap string Condition)
    (m : StatusMatcher) : Prop :=
  (sm_ByPhase m = "" ∨ phase = Some (sm_ByPhase m)) ∧
  Forall (condition_holds cm) (sm_ByConditions m) ∧
  match sm_ByExpression m with None => True | Some e => expression_holds r e end.

Lemma matchByExpression_true e r :
  run (matchByExpression e) r = Ok true ↔ expression_holds r e.
Proof.
  unfold matchByExpression. run_ok. setoid_rewrite run_lift_wrap. unfold expression_holds. split.
  - intros (vs & E & Hm). unfold run, mret, M_ret, fail in Hm.
    destruct vs as [|[] vs]; try discriminate Hm.
    injection Hm as ->%bool_decide_eq_true. by exists vs.
  - intros [rest E]. eexists. split; [exact E|].
    cbn beta iota. rewrite run_ret. by rewrite bool_decide_true.
Qed.

Lemma match_true phase cm m r :
  run (match_ phase cm m) r = Ok true ↔ matcher_holds r phase cm m.
Proof.
  unfold match_, matcher_holds. rewrite <- phase_ok_spec.
  destruct (phase_ok phase m); cbn [negb]; [|rewrite run_ret; intuition discriminate].
  assert (Hc : forallb (condition_ok cm) (sm_ByConditions m) = true ↔
               Forall (condition_holds cm) (sm_ByConditions m)).
  { rewrite forallb_forall, Forall_forall. setoid_rewrite condition_ok_spec.
    by setoid_rewrite list_elem_of_In. }
  rewrite <- Hc. destruct (forallb _ _); cbn [negb]; [|rewrite run_ret; intuition discriminate].
  destruct (sm_ByExpression m); [rewrite matchByExpression_true|rewrite run_ret]; intuition.
Qed.

Lemma evaluateMatchers_spec phase cm ms r b :
  run (evaluateMatchers phase cm ms) r = Ok b →
  (b = true ↔ ∃ m, m ∈ ms ∧ matcher_holds r phase cm m).
Proof.
  revert b. induction ms as [|m ms IH]; intros b E; cbn [evaluateMatchers] in E.
  - rewrite run_ret in E. injection E as <-. split; [done|]. intros (? & ? & _). set_solver.
  - run_ok_in E. destruct E as ([] & Hm%run_lift_wrap & E).
    + rewrite run_ret in E. injection E as <-. split; [|done]. intros _.
      exists m. split; [set_solver|]. by apply match_true.
    + apply IH in E. rewrite E. setoid_rewrite elem_of_cons.
      assert (¬ matcher_holds r phase cm m) by (rewrite <- match_true; congruence).
      naive_solver.
Qed.

Lemma matchEntries_spec phase cm es r l :
  run (matchEntries phase cm es) r = Ok l →
  l `sublist_of` (sme_Status <$> es) ∧
  ∀ s, s ∈ l ↔ ∃ e m, e ∈ es ∧ sme_Status e = s ∧ m ∈ sme_Matchers e ∧ matcher_holds r phase cm m.
Proof.
  clear decode. revert l. induction es as [|e es IH]; intros l E; cbn [matchEntries] in E.
  - rewrite run_ret in E. injection E as <-. split; [done|]. intros s. set_solver.
  - run_ok_in E. destruct E as (b & Hb%evaluateMatchers_spec & E).
    run_ok_in E. destruct E as (l' & Hl' & E). rewrite run_ret in E. injection E as <-.
    destruct (IH _ Hl') as [Hsub Hin]. split.
    + destruct b; cbn; by constructor.
    + intros s. setoid_rewrite elem_of_cons. destruct b.
      * rewrite elem_of_cons, Hin. naive_solver.
      * rewrite Hin. naive_solver.
Qed.

Definition status_holds (r : R) (phase : option string) (cm : gmap string Condition)
    (mappings : StatusMappings) (s : ResourceStatus) : Prop :=
  ∃ e m, e ∈ Entries mappings ∧ sme_Status e = s ∧ m ∈ sme_Matchers e ∧ matcher_holds r phase cm m.

(** C12: the matched statuses are exactly the statuses one of whose matchers
    applies, without repetition and in the fixed evaluation order, and are
    never empty: [Undefined] stands alone when, and only when, none applies. *)
Theorem matchStatus_spec phase conditions mappings r l :
  run (matchStatus phase conditions mappings) r = Ok l →
  let holds := status_holds r phase (conditions_by_type conditions) mappings in
  l ≠ [] ∧ NoDup l ∧
  (l = [UndefinedStatus] ∨ l `sublist_of` (sme_Status <$> Entries mappings)) ∧
  ∀ s, s ∈ l ↔ holds s ∨ (s = UndefinedStatus ∧ ∀ s', ¬ holds s').
Proof.
  clear decode. intros E holds. unfold matchStatus in E. run_ok_in E. destruct E as (ms & Hms & E).
  rewrite run_ret in E. injection E as <-. apply matchEntries_spec in Hms as [Hsub Hin].
  change (∀ s, s ∈ ms ↔ holds s) in Hin.
  destruct ms as [|s0 ms].
  - assert (∀ s, ¬ holds s) by (intros s; rewrite <- Hin; set_solver).
    split_and!; [done|apply NoDup_singleton|by left|].
    intros s. rewrite list_elem_of_singleton. naive_solver.
  - split_and!; [done| |by right|].
    + eapply sublist_NoDup; [apply (Entries_NoDup mappings)|apply Hsub].
    + intros s. rewrite Hin. split; [by left|]. intros [|[_ Hno]]; [done|].
      destruct (Hno s0). apply Hin. set_solver.
Qed.

(** *** Suspend and resume *)

(** [applied actions r r']: the actions, all of them, lead from [r] to [r']. *)
Inductive applied : list SuspendAction → R → R → Prop :=
  | applied_nil r r' : r ≡ r' → applied [] r r'
  | applied_cons a l r r1 r2 v :
      decode (sa_Value a) = Ok v → Assign (sa_Path a) v r = (Ok (), r1) →
      applied l r1 r2 → applied (a :: l) r r2.

Lemma applyActions_prefix f g i l r :
  ∃ k, k ≤ length l ∧ applied (take k l) r (applyActions f g i l r).2 ∧
    (is_ok (applyActions f g i l r).1 = true ↔ k = length l).
Proof.
  revert i r. induction l as [|a l IH]; intros i r; cbn [applyActions].
  - exists 0. split_and!; [done|by constructor|done].
  - unfold lift, wrap, mbind, M_bind at 1. destruct (decode (sa_Value a)) as [v|e] eqn:Hv; cbn.
    + pose proof (Assign_atomic (sa_Path a) v r) as Hatomic. unfold run in Hatomic. unfold M_bind.
      destruct (Assign (sa_Path a) v r) as [[[]|e] r1] eqn:Ha; cbn in *.
      * destruct (IH (S i) r1) as (k & Hk & Happ & Hok). exists (S k).
        split_and!; [lia|by econstructor|]. rewrite Hok. lia.
      * exists 0. split_and!; [lia| |split; [done|lia]].
        constructor. symmetry. by eapply Hatomic.
    + exists 0. split_and!; [lia|by constructor|split; [done|lia]].
Qed.

(** Suspending applies the listed actions in order; when one fails, the
    object has exactly the actions before it applied, and the call succeeds
    exactly when all of them were. *)
Theorem ApplySuspendActions_prefix d sd r :
  cd_SuspendDefinition d = Some sd →
  ∃ k, k ≤ length (sus_SuspendActions sd) ∧
    applied (take k (sus_SuspendActions sd)) r (ApplySuspendActions d r).2 ∧
    (is_ok (ApplySuspendActions d r).1 = true ↔ k = length (sus_SuspendActions sd)).
Proof.
  intros Hd. unfold ApplySuspendActions. rewrite Hd. cbn. apply applyActions_prefix.
Qed.

(** *** Updates *)

(** A field's values survive an update when the field has a path or they are
    all empty. *)
Definition kept {T} (path : option string) (values : list T) (isEmpty : T → bool) : Prop :=
  is_Some path ∨ forallb isEmpty values = true.

Definition fields_kept (def : FragmentedPodSpecDefinition) (specs : list FragmentedPodSpec) : Prop :=
  kept (fd_SchedulerNamePath def) (fps_SchedulerName <$> specs) (λ v, bool_decide (v = "")) ∧
  kept (fd_PriorityClassNamePath def) (fps_PriorityClassName <$> specs) (λ v, bool_decide (v = "")) ∧
  kept (fd_ImagePath def) (fps_Image <$> specs) (λ v, bool_decide (v = "")) ∧
  kept (fd_LabelsPath def) (fps_Labels <$> specs) string_map_empty ∧
  kept (fd_AnnotationsPath def) (fps_Annotations <$> specs) string_map_empty ∧
  kept (fd_ResourcesPath def) (fps_Resources <$> specs) (λ v, negb (bool_decide (is_Some v))) ∧
  kept (fd_PodAffinityPath def) (fps_PodAffinity <$> specs) (λ v, negb (bool_decide (is_Some v))) ∧
  kept (fd_NodeAffinityPath def) (fps_NodeAffinity <$> specs) (λ v, negb (bool_decide (is_Some v))) ∧
  kept (fd_ContainerPath def) (fps_Container <$> specs) (λ v, negb (bool_decide (is_Some v))) ∧
  kept (fd_ResourceClaimsPath def) (fps_ResourceClaims <$> specs) slice_empty ∧
  kept (fd_ContainersPath def) (fps_Containers <$> specs) slice_empty.

Lemma updateField_kept {T} `{GoType T} d path (vs : list T) isEmpty r r' :
  updateField d path vs isEmpty r = (Ok (), r') → kept path vs isEmpty.
Proof.
  unfold updateField, kept. destruct path; [by left; eexists|].
  destruct (forallb isEmpty vs); [by right|done].
Qed.

Lemma bind_unit_Ok {A} (m : M R ()) (n : M R A) r b r' :
  (m ≫= λ _, n) r = (Ok b, r') ↔ ∃ r1, m r = (Ok (), r1) ∧ n r1 = (Ok b, r').
Proof. unfold mbind, M_bind. destruct (m r) as [[[]|] ?]; naive_solver. Qed.

Lemma wrap_Ok {A} w (m : M R A) r a r' : wrap w m r = (Ok a, r') ↔ m r = (Ok a, r').
Proof. unfold wrap. destruct (m r) as [[]]; naive_solver. Qed.

Ltac split_updates E :=
  repeat (apply bind_unit_Ok in E as (? & ?%wrap_Ok & E)).

(** An update of fragmented pod specs that succeeds lost nothing: every
    field for which some spec carries a value has a path to write it to. *)
Theorem UpdateFragmentedPodSpec_loses_nothing d specs r r' :
  UpdateFragmentedPodSpec d specs r = (Ok (), r') →
  ∃ sd def, cd_SpecDefinition d = Some sd ∧ sd_FragmentedPodSpecDefinition sd = Some def ∧
    fields_kept def specs.
Proof.
  unfold UpdateFragmentedPodSpec. destruct (cd_SpecDefinition d) as [sd|] eqn:Esd; [|done].
  intros E. change (require (Some sd) (no_spec d)) with (mret (M:=M R) sd) in E.
  unfold mbind at 1, M_bind at 1, mret, M_ret in E.
  destruct (sd_FragmentedPodSpecDefinition sd) as [def|] eqn:Edef; [|done].
  exists sd, def. split_and!; [done..|].
  change (require (Some def) (no_fragmented d)) with (mret (M:=M R) def) in E.
  unfold mbind at 1, M_bind at 1, mret, M_ret in E.
  unfold updating, updateStringField, updateMapField, updateStructPointerField, updateSliceField in E.
  split_updates E. apply wrap_Ok in E.
  unfold fields_kept. split_and!; eapply updateField_kept; eassumption.
Qed.

(** Empty fields are not written: updating with specs that carry nothing is a
    success that leaves the object alone. *)
Lemma updateField_empty {T} `{GoType T} d path (vs : list T) isEmpty r :
  forallb isEmpty vs = true → updateField d path vs isEmpty r = (Ok (), r).
Proof. intros E. unfold updateField. rewrite E. by destruct path. Qed.
End accessor.

(** ** The interface *)

Class ComponentAccessor `{K8s} (S : Type) := {
  acc_ExtractPodTemplateSpec : ComponentDefinition → M S (list PodTemplateSpec);
  acc_ExtractPodSpec : ComponentDefinition → M S (list PodSpec);
  acc_ExtractPodMetadata : ComponentDefinition → M S (list ObjectMeta);
  acc_ExtractFragmentedPodSpec : ComponentDefinition → M S (list FragmentedPodSpec);
  acc_ExtractScale : ComponentDefinition → M S (list Scale);
  acc_ExtractStatus : ComponentDefinition → M S Status;
  acc_ExtractInstanceIds : ComponentDefinition → M S (list string);
  acc_GetObject : M S (gmap string value);
  acc_UpdatePodTemplateSpec : ComponentDefinition → list PodTemplateSpec → M S ();
  acc_UpdatePodSpec : ComponentDefinition → list PodSpec → M S ();
  acc_UpdatePodMetadata : ComponentDefinition → list ObjectMeta → M S ();
  acc_UpdateFragmentedPodSpec : ComponentDefinition → list FragmentedPodSpec → M S ();
  acc_ApplySuspendActions : ComponentDefinition → M S ();
  acc_ApplyResumeActions : ComponentDefinition → M S ();
}.

(** What the accessor promises to components: reads do not change the object,
    and a definition without an instance id path is reported as such. *)
Class ComponentAccessorLaws `{K8s} (S : Type) `{!ComponentAccessor S} `{Equiv S} : Prop := {
  accessor_equivalence :: Equivalence (≡@{S});
  acc_ExtractPodTemplateSpec_readonly d : readonly (acc_ExtractPodTemplateSpec (S:=S) d);
  acc_ExtractPodSpec_readonly d : readonly (acc_ExtractPodSpec (S:=S) d);
  acc_ExtractPodMetadata_readonly d : readonly (acc_ExtractPodMetadata (S:=S) d);
  acc_ExtractFragmentedPodSpec_readonly d : readonly (acc_ExtractFragmentedPodSpec (S:=S) d);
  acc_ExtractScale_readonly d : readonly (acc_ExtractScale (S:=S) d);
  acc_ExtractStatus_readonly d : readonly (acc_ExtractStatus (S:=S) d);
  acc_ExtractInstanceIds_readonly d : readonly (acc_ExtractInstanceIds (S:=S) d);
  acc_GetObject_readonly : readonly (acc_GetObject (S:=S));
  acc_ExtractInstanceIds_none d (s : S) :
    cd_InstanceIdPath d = None →
    run (acc_ExtractInstanceIds d) s = Fail (DefinitionNotFoundError "no instance id path defined" []);
  acc_ExtractInstanceIds_nonempty d (s : S) ids :
    run (acc_ExtractInstanceIds d) s = Ok ids → "" ∉ ids;
}.
#[export] Hint Resolve acc_ExtractPodTemplateSpec_readonly acc_ExtractPodSpec_readonly
  acc_ExtractPodMetadata_readonly acc_ExtractFragmentedPodSpec_readonly acc_ExtractScale_readonly
  acc_ExtractStatus_readonly acc_ExtractInstanceIds_readonly acc_GetObject_readonly : readonly.

Section accessor_implementation.
Context `{K8s} {R : Type} `{Runner R} (decode : string → result value).

Definition NewAccessor : ComponentAccessor R := {|
  acc_ExtractPodTemplateSpec := ExtractPodTemplateSpec;
  acc_ExtractPodSpec := ExtractPodSpec;
  acc_ExtractPodMetadata := ExtractPodMetadata;
  acc_ExtractFragmentedPodSpec := ExtractFragmentedPodSpec;
  acc_ExtractScale := ExtractScale;
  acc_ExtractStatus := ExtractStatus;
  acc_ExtractInstanceIds := ExtractInstanceIds;
  acc_GetObject := accessor_GetObject;
  acc_UpdatePodTemplateSpec := UpdatePodTemplateSpec;
  acc_UpdatePodSpec := UpdatePodSpec;
  acc_UpdatePodMetadata := UpdatePodMetadata;
  acc_UpdateFragmentedPodSpec := UpdateFragmentedPodSpec;
  acc_ApplySuspendActions := ApplySuspendActions decode;
  acc_ApplyResumeActions := ApplyResumeActions decode;
|}.

Context `{Equiv R} `{!RunnerLaws R}.

Lemma ExtractInstanceIds_nonempty d r ids : run (ExtractInstanceIds d) r = Ok ids → "" ∉ ids.
Proof.
  unfold ExtractInstanceIds. intros E.
  rewrite run_bind_Ok in E; [|apply require_readonly|intros; apply readonly_respects].
  - destruct E as (path & _ & E).
    rewrite run_bind_Ok in E; [|apply extract_readonly|intros; case_bool_decide; solve_respects].
    destruct E as (l & _ & E). case_bool_decide; [done|]. by injection E as ->.
  - apply readonly_bind; [apply extract_readonly|]. intros. case_bool_decide; solve_readonly.
Qed.

Lemma accessor_lawful : @ComponentAccessorLaws _ R NewAccessor _.
Proof.
  split; cbn.
  - apply runner_equivalence.
  - apply ExtractPodTemplateSpec_readonly.
  - apply ExtractPodSpec_readonly.
  - apply ExtractPodMetadata_readonly.
  - apply ExtractFragmentedPodSpec_readonly.
  - apply ExtractScale_readonly.
  - apply ExtractStatus_readonly.
  - apply ExtractInstanceIds_readonly.
  - apply accessor_GetObject_readonly.
  - intros d r E. unfold ExtractInstanceIds. by rewrite E.
  - apply ExtractInstanceIds_nonempty.
Qed.

(** C14: over any lawful runner the accessor keeps the promises components
    rely on: extraction never changes the object, and instance ids are never
    empty. *)
Theorem accessor_implements_ComponentAccessor : @ComponentAccessorLaws _ R NewAccessor _.
Proof. apply accessor_lawful. Qed.
End accessor_implementation.

(** ** Concrete inputs *)

(** Structs kept as their JSON. *)
#[export] Instance json_struct : GoStruct json := {|
  struct_zero := JNull;
  struct_Unmarshal j := Ok j;
  struct_Marshal j := Ok j;
|}.

#[export] Instance json_K8s : K8s := {|
  PodTemplateSpec := json; PodSpec := json; ObjectMeta := json; ResourceRequirements := json;
  PodResourceClaim := json; PodAffinity := json; NodeAffinity := json; Container := json;
|}.

Definition set_component (d : ComponentDefinition) (scale : option ScaleDefinition)
    (status : option StatusDefinition) (suspend : option SuspendDefinition)
    (spec : option SpecDefinition) : ComponentDefinition :=
  {| cd_Name := cd_Name d; cd_Kind := cd_Kind d; cd_OwnerRef := cd_OwnerRef d;
     cd_SpecDefinition := spec; cd_ScaleDefinition := scale; cd_StatusDefinition := status;
     cd_SuspendDefinition := suspend; cd_InstanceIdPath := cd_InstanceIdPath d;
     cd_PodSelector := cd_PodSelector d |}.

Definition sample_table : table := Table {[
  ".spec.groups[].replicas" := [VInt 2; VString "3"; VNil];
  ".spec.min" := [VFloat 1 0];
  ".status.phase" := [VString "Active"];
  "(.status.ready) | tostring" := [VString "true"]
]}.

Definition sample_scale : ScaleDefinition :=
  {| sc_ReplicasPath := Some ".spec.groups[].replicas"; sc_MinReplicasPath := Some ".spec.min";
     sc_MaxReplicasPath := None |}.

Definition sample_scaled := set_component zero_component (Some sample_scale) None None None.

Definition sample_scales : list Scale :=
  [MkScale (Some 2%Z) (Some 1%Z) None; MkScale (Some 3%Z) None None; MkScale None None None].

Example ExtractScale_sample : run (ExtractScale sample_scaled) sample_table = Ok sample_scales.
Proof. vm_compute. reflexivity. Qed.

Lemma ExtractScale_spec_witness :
  ∃ sd replicas minReplicas maxReplicas,
    cd_ScaleDefinition sample_scaled = Some sd ∧
    run (extractReplicas (sc_ReplicasPath sd)) sample_table = Ok replicas ∧
    run (extractReplicas (sc_MinReplicasPath sd)) sample_table = Ok minReplicas ∧
    run (extractReplicas (sc_MaxReplicasPath sd)) sample_table = Ok maxReplicas ∧
    length sample_scales = (length replicas `max` length minReplicas) `max` length maxReplicas ∧
    ∀ i, i < length sample_scales →
      sample_scales !! i = Some (MkScale (count_at replicas i) (count_at minReplicas i) (count_at maxReplicas i)).
Proof.
  apply (proj1 (ExtractScale_spec sample_scaled sample_table sample_scales)). vm_compute. reflexivity.
Defined.

Lemma ExtractScale_int32_witness : (int32_min ≤ 3 ≤ int32_max)%Z.
Proof.
  apply (ExtractScale_int32 sample_scaled sample_table sample_scales)
    with (s := MkScale (Some 3%Z) None None).
  - vm_compute. reflexivity.
  - by right; left.
  - left. reflexivity.
Defined.

(** A mapping with two applicable statuses, listed out of evaluation order. *)
Definition sample_mappings : StatusMappings :=
  let by_phase p := [{| sm_ByPhase := p; sm_ByConditions := []; sm_ByExpression := None |}] in
  {| smp_Initializing := by_phase "Pending"; smp_Running := by_phase "Active";
     smp_Completed := []; smp_Failed := by_phase "Broken";
     smp_Degraded := [{| sm_ByPhase := ""; sm_ByConditions := [];
       sm_ByExpression := Some {| em_Expression := ".status.ready"; em_ExpectedResult := "true" |} |}];
     smp_Suspended := []; smp_Suspending := []; smp_Resuming := [] |}.

Example matchStatus_sample :
  run (matchStatus (Some "Active") [] sample_mappings) sample_table = Ok [RunningStatus; DegradedStatus] ∧
  run (matchStatus (Some "Gone") [] sample_mappings) (Table ∅) = Ok [UndefinedStatus].
Proof. vm_compute. done. Qed.

Lemma matchStatus_spec_witness : NoDup [RunningStatus; DegradedStatus].
Proof.
  apply (matchStatus_spec (Some "Active") [] sample_mappings sample_table [RunningStatus; DegradedStatus]).
  vm_compute. reflexivity.
Defined.

Definition sample_suspend : SuspendDefinition :=
  {| sus_SuspendActions := [{| sa_Path := ".spec.suspend"; sa_Value := "true" |};
                            {| sa_Path := ".spec.replicas"; sa_Value := "{" |}];
     sus_ResumeActions := [] |}.

Definition sample_decode (s : string) : result value :=
  if bool_decide (s = "true") then Ok (VBool true) else Fail (External "unexpected end of JSON input").

Definition sample_suspended := set_component zero_component None None (Some sample_suspend) None.

Example ApplySuspendActions_sample :
  answers (ApplySuspendActions sample_decode sample_suspended sample_table).2 !! ".spec.suspend"
  = Some [VBool true].
Proof. vm_compute. done. Qed.

Lemma ApplySuspendActions_prefix_witness :
  ∃ k, k ≤ 2 ∧
    applied sample_decode (take k (sus_SuspendActions sample_suspend)) sample_table
      (ApplySuspendActions sample_decode sample_suspended sample_table).2 ∧
    (is_ok (ApplySuspendActions sample_decode sample_suspended sample_table).1 = true ↔ k = 2).
Proof.
  apply (ApplySuspendActions_prefix sample_decode sample_suspended sample_suspend sample_table).
  reflexivity.
Defined.

Definition sample_fragmented : FragmentedPodSpecDefinition :=
  {| fd_SchedulerNamePath := Some ".spec.schedulerName"; fd_LabelsPath := None;
     fd_AnnotationsPath := None; fd_ResourcesPath := None; fd_ResourceClaimsPath := None;
     fd_PodAffinityPath := None; fd_NodeAffinityPath := None; fd_ContainersPath := None;
     fd_ContainerPath := None; fd_PriorityClassNamePath := None; fd_ImagePath := None |}.

Definition sample_fragmented_component :=
  set_component zero_component None None None
    (Some {| sd_PodTemplateSpecPath := None; sd_PodSpecPath := None; sd_MetadataPath := None;
             sd_FragmentedPodSpecDefinition := Some sample_fragmented |}).

Definition sample_specs : list FragmentedPodSpec :=
  [MkFragmentedPodSpec "kai" None (Some ∅) None None None None None None "" ""].

Lemma UpdateFragmentedPodSpec_loses_nothing_witness :
  ∃ sd def, cd_SpecDefinition sample_fragmented_component = Some sd ∧
    sd_FragmentedPodSpecDefinition sd = Some def ∧ fields_kept def sample_specs.
Proof.
  apply (UpdateFragmentedPodSpec_loses_nothing sample_fragmented_component sample_specs sample_table
           (Table (<[".spec.schedulerName" := [VString "kai"]]> (answers sample_table)))).
  vm_compute. reflexivity.
Defined.

Lemma accessor_implements_ComponentAccessor_witness :
  @ComponentAccessorLaws _ table (NewAccessor sample_decode) _.
Proof. apply (accessor_implements_ComponentAccessor sample_decode). Defined.
