(* ===== verification/Component.v ===== *)
(** * Component: a component of a workload and the factory that builds them

    Models [karta/sdk/pkg/resource/component.go] and [component_factory.go].
    A component reads and updates the one object behind its accessor; it is
    generic in the accessor, and everything is proved from the laws of the
    [ComponentAccessor] interface.  A nil map is [None]. *)

From S2P Require Import Prelude Api Validator Value Runner Accessor.

Record Component := MkComponent {
  comp_name : string;
  comp_definition : ComponentDefinition;
}.

Record ExtractedInstance `{K8s} := MkExtractedInstance {
  ei_PodTemplateSpec : option PodTemplateSpec;
  ei_PodSpec : option PodSpec;
  ei_FragmentedPodSpec : option FragmentedPodSpec;
  ei_Metadata : option ObjectMeta;
  ei_Scale : option Scale;
}.
Arguments MkExtractedInstance {_}.

Definition Kind (c : Component) : option GroupVersionKind :=
  match cd_Kind (comp_definition c) with
  | None => None
  | Some k => Some (GVK (gvk_Group k) (gvk_Version k) (gvk_Kind k))
  end.

Definition isDefinitionNotFoundError : error → bool :=
  error_any (λ e, match e with DefinitionNotFoundError _ _ => true | _ => false end).

Definition HasSuspendDefinition (c : Component) : bool :=
  bool_decide (is_Some (cd_SuspendDefinition (comp_definition c))).

Definition has_pod_definition (spec : SpecDefinition) : bool :=
  bool_decide (is_Some (sd_PodTemplateSpecPath spec)) ||
  bool_decide (is_Some (sd_PodSpecPath spec)) ||
  bool_decide (is_Some (sd_FragmentedPodSpecDefinition spec)).

Definition HasPodDefinition (c : Component) : bool :=
  match cd_SpecDefinition (comp_definition c) with
  | None => false
  | Some spec => has_pod_definition spec
  end.

Definition GetPodSelector (c : Component) : option PodSelector := cd_PodSelector (comp_definition c).

Definition HasInstanceIdDefinition (c : Component) : bool :=
  bool_decide (is_Some (cd_InstanceIdPath (comp_definition c))).

(** ** Zipping by instance id *)

(** A repeated id keeps its last value. *)
Definition zip_ids {T} (instanceIds : list string) (results : list T) : gmap string T :=
  foldl (λ zipped '(instanceId, v), <[instanceId := v]> zipped) ∅ (zip instanceIds results).

Definition zipWithInstanceIds {T} (instanceIds : list string) (results : list T)
  : result (gmap string T) :=
  if bool_decide (length instanceIds ≠ length results) then
    Fail (Errorf "instance ids count (%d) does not match results count (%d)"
            [ANat (length instanceIds); ANat (length results)] [])
  else Ok (zip_ids instanceIds results).

Definition value_of {T} (valueMap : gmap string T) (instanceId : string) : result T :=
  match valueMap !! instanceId with
  | None => Fail (Errorf "value not found for instance id: %s" [AStr instanceId] [])
  | Some value => Ok value
  end.

Section zip_lemmas.
Context {T : Type}.
Implicit Types (ids : list string) (vs : list T).

Lemma zip_fold_lookup_notin ids vs (m : gmap string T) id :
  id ∉ ids →
  foldl (λ zipped '(i, v), <[i := v]> zipped) m (zip ids vs) !! id = m !! id.
Proof.
  revert vs m. induction ids as [|i ids IH]; intros [|v vs] m Hid; [done..|].
  cbn. rewrite IH by set_solver. apply lookup_insert_ne. set_solver.
Qed.

Lemma zip_ids_lookup ids vs i id v :
  NoDup ids → ids !! i = Some id → vs !! i = Some v → zip_ids ids vs !! id = Some v.
Proof.
  unfold zip_ids. generalize (∅ : gmap string T) as m. revert vs i.
  induction ids as [|i' ids IH]; intros vs i m Hnd Hi Hv; [done|].
  inversion Hnd as [|?? Hni Hnd']; subst. destruct vs as [|v' vs]; [done|].
  destruct i as [|i]; cbn in *; simplify_eq.
  - rewrite zip_fold_lookup_notin by done. by rewrite lookup_insert_eq.
  - by eapply IH.
Qed.

Lemma zip_ids_dom ids vs id :
  length ids = length vs → is_Some (zip_ids ids vs !! id) ↔ id ∈ ids.
Proof.
  unfold zip_ids.
  assert (Hgen : ∀ m : gmap string T, length ids = length vs →
    is_Some (foldl (λ zipped '(i, v), <[i := v]> zipped) m (zip ids vs) !! id)
    ↔ id ∈ ids ∨ is_Some (m !! id)).
  { revert vs. induction ids as [|i ids IH]; intros [|v vs] m E; try done; cbn.
    - set_solver.
    - rewrite IH by (cbn in E; lia). rewrite elem_of_cons.
      destruct (decide (i = id)) as [->|Hne].
      + rewrite lookup_insert_eq. naive_solver.
      + rewrite lookup_insert_ne by done. naive_solver. }
  intros E. rewrite Hgen by done. rewrite lookup_empty.
  split; [intros [?|[? ?]]; done|by left].
Qed.

(** Reading the values back by id restores the list. *)
Lemma value_of_zip_ids ids vs :
  NoDup ids → length ids = length vs → mapR (value_of (zip_ids ids vs)) ids = Ok vs.
Proof.
  intros Hnd Hlen. apply mapR_Ok, Forall2_same_length_lookup. split; [done|].
  intros i id v Hid Hv. unfold value_of. by rewrite (zip_ids_lookup _ _ _ _ _ Hnd Hid Hv).
Qed.
End zip_lemmas.

Lemma foldl_insert_lookup {T} (f : string → T) ids id :
  foldl (λ m i, <[i := f i]> m) (∅ : gmap string T) ids !! id =
  if bool_decide (id ∈ ids) then Some (f id) else None.
Proof.
  assert (Hgen : ∀ m : gmap string T, foldl (λ m i, <[i := f i]> m) m ids !! id =
    if bool_decide (id ∈ ids) then Some (f id) else m !! id).
  { induction ids as [|i ids IH]; intros m; [done|]. cbn [foldl]. rewrite IH.
    destruct (decide (i = id)) as [->|Hne].
    - rewrite lookup_insert_eq, (bool_decide_true (id ∈ id :: ids)) by set_solver.
      by case_bool_decide.
    - rewrite lookup_insert_ne by done. repeat case_bool_decide; set_solver. }
  rewrite Hgen. by rewrite lookup_empty.
Qed.

(** ** The component over an accessor *)

Section component.
Context `{K8s} {S : Type} `{!ComponentAccessor S}.

Definition errGetInstanceIds : string := "failed to get instance ids".

Definition GetInstanceIds (c : Component) : M S (list string) :=
  outcome ← attempt (acc_ExtractInstanceIds (comp_definition c));
  match outcome with
  | Fail err =>
      if isDefinitionNotFoundError err then mret [""]
      else fail (Errorf "failed to extract instance ids for component %s: %w" [AStr (comp_name c)] [err])
  | Ok instanceIds => mret instanceIds
  end.

(** The shape the five getters share. *)
Definition get_by_instance {T} (fmt : string) (extracted : M S (list T)) (c : Component)
  : M S (option (gmap string T)) :=
  outcome ← attempt extracted;
  match outcome with
  | Fail err => if isDefinitionNotFoundError err then mret None else fail (Errorf fmt [] [err])
  | Ok values =>
      instanceIds ← wrap (λ err, Errorf "%s: %w" [AStr errGetInstanceIds] [err]) (GetInstanceIds c);
      zipped ← lift (zipWithInstanceIds instanceIds values);
      mret (Some zipped)
  end.

Definition GetPodTemplateSpec (c : Component) : M S (option (gmap string PodTemplateSpec)) :=
  get_by_instance "failed to extract pod template specs: %w"
    (acc_ExtractPodTemplateSpec (comp_definition c)) c.

Definition GetFragmentedPodSpec (c : Component) : M S (option (gmap string FragmentedPodSpec)) :=
  get_by_instance "failed to extract fragmented pod specs: %w"
    (acc_ExtractFragmentedPodSpec (comp_definition c)) c.

Definition GetPodSpec (c : Component) : M S (option (gmap string PodSpec)) :=
  get_by_instance "failed to extract pod specs: %w" (acc_ExtractPodSpec (comp_definition c)) c.

Definition GetPodMetadata (c : Component) : M S (option (gmap string ObjectMeta)) :=
  get_by_instance "failed to extract pod metadata: %w"
    (acc_ExtractPodMetadata (comp_definition c)) c.

Definition GetScale (c : Component) : M S (option (gmap string Scale)) :=
  get_by_instance "failed to extract scales: %w" (acc_ExtractScale (comp_definition c)) c.

Definition GetStatus (c : Component) : M S (option Status) :=
  outcome ← attempt (acc_ExtractStatus (comp_definition c));
  match outcome with
  | Fail err => if isDefinitionNotFoundError err then mret None
                else fail (Errorf "failed to extract status: %w" [] [err])
  | Ok status => mret (Some status)
  end.

Definition unzipWithInstanceIds {T} (c : Component) (valueMap : gmap string T)
  : M S (list string * list T) :=
  instanceIds ← wrap (λ err, Errorf "%s: %w" [AStr errGetInstanceIds] [err]) (GetInstanceIds c);
  results ← lift (mapR (value_of valueMap) instanceIds);
  mret (instanceIds, results).

Definition component_UpdatePodTemplateSpec (c : Component) (m : gmap string PodTemplateSpec) : M S () :=
  '(_, podTemplateSpecs) ←
    wrap (λ err, Errorf "failed to unzip given pod template specs and instance ids: %w" [] [err])
      (unzipWithInstanceIds c m);
  acc_UpdatePodTemplateSpec (comp_definition c) podTemplateSpecs.

Definition component_UpdatePodSpec (c : Component) (m : gmap string PodSpec) : M S () :=
  '(_, podSpecs) ←
    wrap (λ err, Errorf "failed to unzip given pod specs and instance ids: %w" [] [err])
      (unzipWithInstanceIds c m);
  acc_UpdatePodSpec (comp_definition c) podSpecs.

Definition component_UpdatePodMetadata (c : Component) (m : gmap string ObjectMeta) : M S () :=
  '(_, podMetadata) ←
    wrap (λ err, Errorf "failed to unzip given pod metadata and instance ids: %w" [] [err])
      (unzipWithInstanceIds c m);
  acc_UpdatePodMetadata (comp_definition c) podMetadata.

Definition component_UpdateFragmentedPodSpec (c : Component) (m : gmap string FragmentedPodSpec) : M S () :=
  '(_, fragmentedPodSpecs) ←
    wrap (λ err, Errorf "failed to unzip given fragmented pod specs and instance ids: %w" [] [err])
      (unzipWithInstanceIds c m);
  acc_UpdateFragmentedPodSpec (comp_definition c) fragmentedPodSpecs.

(** [if m != nil { if v, ok := m[id]; ok { field = &v } }] *)
Definition at_instance {T} (m : option (gmap string T)) (instanceID : string) : option T :=
  m ≫= lookup instanceID.

Definition GetExtractedInstances (c : Component) : M S (gmap string ExtractedInstance) :=
  instanceIds ← wrap (λ err, Errorf "%s: %w" [AStr errGetInstanceIds] [err]) (GetInstanceIds c);
  podTemplateSpecs ← wrap (λ err, Errorf "failed to get pod template specs: %w" [] [err])
    (GetPodTemplateSpec c);
  podSpecs ← wrap (λ err, Errorf "failed to get pod specs: %w" [] [err]) (GetPodSpec c);
  fragmentedPodSpecs ← wrap (λ err, Errorf "failed to get fragmented pod specs: %w" [] [err])
    (GetFragmentedPodSpec c);
  metadata ← wrap (λ err, Errorf "failed to get pod metadata: %w" [] [err]) (GetPodMetadata c);
  scales ← wrap (λ err, Errorf "failed to get scales: %w" [] [err]) (GetScale c);
  mret (foldl (λ result instanceID,
          <[instanceID := MkExtractedInstance
              (at_instance podTemplateSpecs instanceID)
              (at_instance podSpecs instanceID)
              (at_instance fragmentedPodSpecs instanceID)
              (at_instance metadata instanceID)
              (at_instance scales instanceID)]> result) ∅ instanceIds).

(** [Suspend] and [Resume] ignore a missing suspend definition. *)
Definition ignore_not_found (fmt : string) (c : Component) (m : M S ()) : M S () :=
  catch m (λ err, if isDefinitionNotFoundError err then mret ()
                  else fail (Errorf fmt [AStr (comp_name c)] [err])).

Definition Suspend (c : Component) : M S () :=
  ignore_not_found "apply suspend actions for component '%s': %w" c
    (acc_ApplySuspendActions (comp_definition c)).

Definition Resume (c : Component) : M S () :=
  ignore_not_found "apply resume actions for component '%s': %w" c
    (acc_ApplyResumeActions (comp_definition c)).
End component.

(** ** Reads *)

Section component_reads.
Context `{K8s} {S : Type} `{!ComponentAccessor S} `{Equiv S} `{!ComponentAccessorLaws S}.

#[local] Set Default Proof Using "Type*".

Lemma GetInstanceIds_readonly c : readonly (R:=S) (GetInstanceIds c).
Proof. unfold GetInstanceIds. solve_readonly. Qed.
#[local] Hint Resolve GetInstanceIds_readonly : readonly.

Lemma get_by_instance_readonly {T} fmt (m : M S (list T)) c :
  readonly m → readonly (get_by_instance fmt m c).
Proof. intros Hm. unfold get_by_instance. solve_readonly. Qed.
#[local] Hint Resolve get_by_instance_readonly : readonly.

Lemma GetPodTemplateSpec_readonly c : readonly (R:=S) (GetPodTemplateSpec c).
Proof. apply get_by_instance_readonly. eauto with readonly. Qed.

Lemma GetPodSpec_readonly c : readonly (R:=S) (GetPodSpec c).
Proof. apply get_by_instance_readonly. eauto with readonly. Qed.

Lemma GetFragmentedPodSpec_readonly c : readonly (R:=S) (GetFragmentedPodSpec c).
Proof. apply get_by_instance_readonly. eauto with readonly. Qed.

Lemma GetPodMetadata_readonly c : readonly (R:=S) (GetPodMetadata c).
Proof. apply get_by_instance_readonly. eauto with readonly. Qed.

Lemma GetScale_readonly c : readonly (R:=S) (GetScale c).
Proof. apply get_by_instance_readonly. eauto with readonly. Qed.

Lemma GetStatus_readonly c : readonly (R:=S) (GetStatus c).
Proof. unfold GetStatus. solve_readonly. Qed.
#[local] Hint Resolve GetPodTemplateSpec_readonly GetPodSpec_readonly
  GetFragmentedPodSpec_readonly GetPodMetadata_readonly GetScale_readonly : readonly.

Lemma unzipWithInstanceIds_readonly {T} c (m : gmap string T) :
  readonly (R:=S) (unzipWithInstanceIds c m).
Proof. unfold unzipWithInstanceIds. solve_readonly. Qed.

Lemma GetExtractedInstances_readonly c : readonly (R:=S) (GetExtractedInstances c).
Proof. unfold GetExtractedInstances. solve_readonly. Qed.

(** A component without an instance id path has the single id [""]; the ids
    of the others are never empty. *)
Lemma GetInstanceIds_single c (s : S) :
  cd_InstanceIdPath (comp_definition c) = None → run (GetInstanceIds c) s = Ok [""].
Proof.
  intros E. unfold GetInstanceIds. run_step. rewrite run_attempt, acc_ExtractInstanceIds_none by done.
  reflexivity.
Qed.

Lemma get_by_instance_Some {T} fmt (m : M S (list T)) c (s : S) zipped :
  readonly m →
  run (get_by_instance fmt m c) s = Ok (Some zipped) →
  ∃ ids vs, run (GetInstanceIds c) s = Ok ids ∧ run m s = Ok vs ∧
    length ids = length vs ∧ zipped = zip_ids ids vs.
Proof.
  intros Hm E. unfold get_by_instance in E. run_ok_in E. destruct E as (outcome & Ho & E).
  rewrite run_attempt in Ho. injection Ho as <-. destruct (run m s) as [vs|err].
  - run_ok_in E. destruct E as (ids & Hids & E). rewrite run_wrap, map_error_Ok in Hids.
    run_ok_in E. destruct E as (z & Hz & E). rewrite run_lift in Hz. rewrite run_ret in E.
    injection E as ->. unfold zipWithInstanceIds in Hz. case_bool_decide as Hlen; [done|].
    injection Hz as <-. exists ids, vs. split_and!; [done..|lia|done].
  - by destruct (isDefinitionNotFoundError err).
Qed.

Lemma unzip_run {T} c (m : gmap string T) (s : S) ids vs :
  run (unzipWithInstanceIds c m) s = Ok (ids, vs) ↔
  run (GetInstanceIds c) s = Ok ids ∧ mapR (value_of m) ids = Ok vs.
Proof.
  unfold unzipWithInstanceIds. split.
  - intros E. run_ok_in E. destruct E as (ids' & Hids & E). rewrite run_wrap, map_error_Ok in Hids.
    run_ok_in E. destruct E as (vs' & Hvs & E). rewrite run_lift in Hvs. rewrite run_ret in E.
    by injection E as -> ->.
  - intros [Hids Hvs]. run_ok. exists ids. rewrite run_wrap, Hids. split; [done|].
    run_ok. exists vs. by rewrite run_lift, run_ret.
Qed.

Lemma unzip_get {T} fmt (m : M S (list T)) c (s : S) zipped ids :
  readonly m →
  run (GetInstanceIds c) s = Ok ids → NoDup ids →
  run (get_by_instance fmt m c) s = Ok (Some zipped) →
  ∃ vs, run m s = Ok vs ∧ run (unzipWithInstanceIds c zipped) s = Ok (ids, vs).
Proof.
  intros Hm Hids Hnd (ids' & vs & Hids' & Hvs & Hlen & ->)%get_by_instance_Some; [|done].
  rewrite Hids in Hids'. injection Hids' as <-. exists vs. split; [done|].
  apply unzip_run. split; [done|]. by apply value_of_zip_ids.
Qed.

(** Reading a component's data and writing it back unchanged hands the
    writer exactly the extracted list, in order, for pod template specs, pod
    specs, fragmented pod specs and metadata alike, whenever the instance ids
    are distinct. *)
Theorem get_then_unzip c (s : S) ids :
  run (GetInstanceIds c) s = Ok ids → NoDup ids →
  (∀ m, run (GetPodTemplateSpec c) s = Ok (Some m) →
     ∃ vs, run (acc_ExtractPodTemplateSpec (comp_definition c)) s = Ok vs ∧
           run (unzipWithInstanceIds c m) s = Ok (ids, vs)) ∧
  (∀ m, run (GetPodSpec c) s = Ok (Some m) →
     ∃ vs, run (acc_ExtractPodSpec (comp_definition c)) s = Ok vs ∧
           run (unzipWithInstanceIds c m) s = Ok (ids, vs)) ∧
  (∀ m, run (GetFragmentedPodSpec c) s = Ok (Some m) →
     ∃ vs, run (acc_ExtractFragmentedPodSpec (comp_definition c)) s = Ok vs ∧
           run (unzipWithInstanceIds c m) s = Ok (ids, vs)) ∧
  (∀ m, run (GetPodMetadata c) s = Ok (Some m) →
     ∃ vs, run (acc_ExtractPodMetadata (comp_definition c)) s = Ok vs ∧
           run (unzipWithInstanceIds c m) s = Ok (ids, vs)).
Proof.
  intros Hids Hnd.
  split_and!; intros m Hm; (eapply unzip_get; [solve [eauto with readonly]|done|done|exact Hm]).
Qed.

(** A component without an instance id path writes exactly one value, so the
    accessor never indexes an empty list. *)
Lemma unzip_single {T} c (m : gmap string T) (s : S) ids vs :
  cd_InstanceIdPath (comp_definition c) = None →
  run (unzipWithInstanceIds c m) s = Ok (ids, vs) → ids = [""] ∧ length vs = 1.
Proof.
  intros Hid [Hids Hvs]%unzip_run. rewrite GetInstanceIds_single in Hids by done.
  injection Hids as <-. split; [done|]. by apply mapR_length in Hvs.
Qed.

(** The instances of [m] carry what the getter found: nothing when the
    component does not define that kind of data, and otherwise each its own. *)
Definition carries {T} (getter : M S (option (gmap string T))) (s : S)
    (m : gmap string ExtractedInstance) (field : ExtractedInstance → option T) : Prop :=
  ∃ o, run getter s = Ok o ∧
    ∀ id inst, m !! id = Some inst →
      field inst = at_instance o id ∧ (is_Some (field inst) ↔ is_Some o).

Lemma carries_intro {T} fmt (e : M S (list T)) c s ids m o (field : ExtractedInstance → option T) :
  readonly e →
  run (GetInstanceIds c) s = Ok ids →
  run (get_by_instance fmt e c) s = Ok o →
  (∀ id inst, m !! id = Some inst → id ∈ ids ∧ field inst = at_instance o id) →
  carries (get_by_instance fmt e c) s m field.
Proof.
  intros He Hids Ho Hm. exists o. split; [done|]. intros id inst Hinst.
  destruct (Hm _ _ Hinst) as [Hin ->]. split; [done|].
  destruct o as [z|]; [|by cbn]. cbn. split; [intros; by eexists|]. intros _.
  apply get_by_instance_Some in Ho as (ids' & vs & Hids' & _ & Hlen & ->); [|done].
  rewrite Hids in Hids'. injection Hids' as <-. by apply zip_ids_dom.
Qed.

(** The extracted instances are one per instance id, each carrying for
    every kind of data the component defines exactly the value extracted for
    its id, and nothing for the kinds it does not define. *)
Theorem GetExtractedInstances_spec c (s : S) m :
  run (GetExtractedInstances c) s = Ok m →
  ∃ ids, run (GetInstanceIds c) s = Ok ids ∧ (∀ id, is_Some (m !! id) ↔ id ∈ ids) ∧
    carries (GetPodTemplateSpec c) s m ei_PodTemplateSpec ∧
    carries (GetPodSpec c) s m ei_PodSpec ∧
    carries (GetFragmentedPodSpec c) s m ei_FragmentedPodSpec ∧
    carries (GetPodMetadata c) s m ei_Metadata ∧
    carries (GetScale c) s m ei_Scale.
Proof.
  unfold GetExtractedInstances. intros E.
  run_ok_in E. destruct E as (ids & Hids & E). rewrite run_wrap, map_error_Ok in Hids.
  run_ok_in E. destruct E as (o1 & H1 & E). rewrite run_wrap, map_error_Ok in H1.
  run_ok_in E. destruct E as (o2 & H2 & E). rewrite run_wrap, map_error_Ok in H2.
  run_ok_in E. destruct E as (o3 & H3 & E). rewrite run_wrap, map_error_Ok in H3.
  run_ok_in E. destruct E as (o4 & H4 & E). rewrite run_wrap, map_error_Ok in H4.
  run_ok_in E. destruct E as (o5 & H5 & E). rewrite run_wrap, map_error_Ok in H5.
  rewrite run_ret in E. injection E as <-. exists ids. split; [done|]. split.
  { intros id. rewrite foldl_insert_lookup. case_bool_decide; split; intros Hx; done. }
  split_and!; (eapply carries_intro; [solve [eauto with readonly]|exact Hids|eassumption|]);
    intros id inst; rewrite foldl_insert_lookup; case_bool_decide; intros [= <-]; done.
Qed.
End component_reads.

(** ** The factory *)

Record ComponentFactory := MkComponentFactory {
  fac_karta : option Karta;
  fac_componentDefinitionsByName : gmap string ComponentDefinition;
  fac_childNamesByParent : gmap string (list string);
}.

Definition allDefinitions (karta : Karta) : list ComponentDefinition :=
  ChildComponents karta ++ [RootComponent karta].

Definition add_definition (maps : gmap string ComponentDefinition * gmap string (list string))
    (d : ComponentDefinition) : gmap string ComponentDefinition * gmap string (list string) :=
  let '(definitionsByName, childNamesByParent) := maps in
  (<[cd_Name d := d]> definitionsByName,
   match cd_OwnerRef d with
   | None => childNamesByParent
   | Some parent =>
       <[parent := default [] (childNamesByParent !! parent) ++ [cd_Name d]]> childNamesByParent
   end).

Definition NewComponentFactory (karta : Karta) : ComponentFactory :=
  let '(definitionsByName, childNamesByParent) := foldl add_definition (∅, ∅) (allDefinitions karta) in
  MkComponentFactory (Some karta) definitionsByName childNamesByParent.

Definition GetComponent (f : ComponentFactory) (name : string) : result Component :=
  match fac_componentDefinitionsByName f !! name with
  | None => Fail (Errorf "component %s not found" [AStr name] [])
  | Some definition => Ok (MkComponent name definition)
  end.

Definition GetRootComponent (f : ComponentFactory) : result Component :=
  match fac_karta f with
  | None => Fail (Errorf "karta is nil" [] [])
  | Some karta => GetComponent f (cd_Name (RootComponent karta))
  end.

Definition get_child (f : ComponentFactory) (name : string) : result Component :=
  map_error (λ err, Errorf "failed to get child component %s: %w" [AStr name] [err])
    (GetComponent f name).

Definition GetChildComponentsOf (f : ComponentFactory) (parentName : string)
  : result (list Component) :=
  mapR (get_child f) (default [] (fac_childNamesByParent f !! parentName)).

Definition GetChildComponents (f : ComponentFactory) : result (list Component) :=
  match fac_karta f with
  | None => Fail (Errorf "karta is nil" [] [])
  | Some karta => mapR (λ d, get_child f (cd_Name d)) (ChildComponents karta)
  end.

Definition isComponentHasSpecDefinition (d : ComponentDefinition) : bool :=
  match cd_SpecDefinition d with None => false | Some spec => has_pod_definition spec end.

Definition IsContainSpecDefinition (f : ComponentFactory) : result bool :=
  components ← map_error (λ err, Errorf "failed to get child components: %w" [] [err])
                 (GetChildComponents f);
  rootComponent ← map_error (λ err, Errorf "failed to get root component: %w" [] [err])
                    (GetRootComponent f);
  Ok (existsb (λ c, isComponentHasSpecDefinition (comp_definition c)) (components ++ [rootComponent])).

(** What the code reads of an [unstructured.Unstructured] object. *)
Class UnstructuredReader := {
  u_GroupVersionKind : gmap string value → GroupVersionKind;
  u_GetName : gmap string value → string;
  u_GetGenerateName : gmap string value → string;
}.

Definition validateKubernetesObject `{UnstructuredReader} (u : gmap string value) : option error :=
  let gvk := u_GroupVersionKind u in
  if bool_decide (gvk_Group gvk = "") && bool_decide (gvk_Version gvk = "") then
    Some (Errorf "missing apiVersion" [] [])
  else if bool_decide (gvk_Kind gvk = "") then Some (Errorf "missing kind" [] [])
  else if bool_decide (u_GetName u = "") && bool_decide (u_GetGenerateName u = "") then
    Some (Errorf "missing metadata.name or metadata.generateName" [] [])
  else None.

Definition GetResource `{UnstructuredReader} `{K8s} {S} `{!ComponentAccessor S}
  : M S (gmap string value) :=
  object ← wrap (λ err, Errorf "failed to get updated data: %w" [] [err]) acc_GetObject;
  match validateKubernetesObject object with
  | Some err => fail (Errorf "invalid Kubernetes object: %w" [] [err])
  | None => mret object
  end.

(** ** The factory of a Karta with distinct component names *)

Definition component_of (d : ComponentDefinition) : Component := MkComponent (cd_Name d) d.

Definition owned_by (parent : string) (d : ComponentDefinition) : Prop := cd_OwnerRef d = Some parent.

#[export] Instance owned_by_decision parent d : Decision (owned_by parent d).
Proof. unfold owned_by. apply _. Defined.

Lemma add_definitions_notin l maps n :
  n ∉ cd_Name <$> l → (foldl add_definition maps l).1 !! n = maps.1 !! n.
Proof.
  revert maps. induction l as [|d l IH]; intros [defs ch]; [done|].
  rewrite fmap_cons, not_elem_of_cons. intros [Hne Hni]. cbn [foldl]. rewrite IH by done.
  cbn. by rewrite lookup_insert_ne by done.
Qed.

Lemma add_definitions_lookup l maps d :
  NoDup (cd_Name <$> l) → d ∈ l → (foldl add_definition maps l).1 !! cd_Name d = Some d.
Proof.
  revert maps. induction l as [|d' l IH]; intros [defs ch] Hnd Hd; [set_solver|].
  rewrite fmap_cons in Hnd. inversion Hnd as [|?? Hni Hnd']; subst. cbn [foldl].
  apply elem_of_cons in Hd as [<-|Hd]; [|by apply IH].
  rewrite add_definitions_notin by done. cbn. by rewrite lookup_insert_eq.
Qed.

Lemma add_definitions_children l maps p :
  default [] ((foldl add_definition maps l).2 !! p) =
  default [] (maps.2 !! p) ++ (cd_Name <$> filter (owned_by p) l).
Proof.
  revert maps. induction l as [|d l IH]; intros [defs ch]; cbn [foldl].
  - cbn. by rewrite app_nil_r.
  - rewrite IH, filter_cons. cbn [add_definition snd]. case_decide as Ho; unfold owned_by in Ho.
    + rewrite Ho, lookup_insert_eq. cbn. by rewrite <- app_assoc.
    + destruct (cd_OwnerRef d) as [q|]; [|done]. by rewrite lookup_insert_ne by congruence.
Qed.

Lemma factory_tables k :
  fac_karta (NewComponentFactory k) = Some k ∧
  fac_componentDefinitionsByName (NewComponentFactory k) = (foldl add_definition (∅, ∅) (components k)).1 ∧
  fac_childNamesByParent (NewComponentFactory k) = (foldl add_definition (∅, ∅) (components k)).2.
Proof.
  unfold NewComponentFactory. change (allDefinitions k) with (components k).
  by destruct (foldl _ _ _).
Qed.

Section factory_lemmas.
Context (k : Karta) (Hnd : NoDup (component_names k)).

Lemma GetComponent_of d :
  d ∈ components k → GetComponent (NewComponentFactory k) (cd_Name d) = Ok (component_of d).
Proof using Hnd.
  intros Hd. unfold GetComponent. destruct (factory_tables k) as (_ & -> & _).
  by rewrite (add_definitions_lookup _ _ _ Hnd Hd).
Qed.

Lemma GetComponent_inv n c :
  GetComponent (NewComponentFactory k) n = Ok c → ∃ d, d ∈ components k ∧ cd_Name d = n ∧ c = component_of d.
Proof using Hnd.
  unfold GetComponent. intros E. destruct (decide (n ∈ component_names k)) as [Hin|Hni].
  - apply list_elem_of_fmap in Hin as (d & -> & Hd). exists d. split_and!; [done..|].
    revert E. destruct (factory_tables k) as (_ & -> & _).
    rewrite (add_definitions_lookup _ _ _ Hnd Hd). by intros [= <-].
  - revert E. destruct (factory_tables k) as (_ & -> & _).
    by rewrite add_definitions_notin by done.
Qed.

Lemma get_children l :
  (∀ d, d ∈ l → d ∈ components k) →
  mapR (get_child (NewComponentFactory k)) (cd_Name <$> l) = Ok (component_of <$> l).
Proof using Hnd.
  intros Hl. apply mapR_Ok. induction l as [|d l IH]; [constructor|].
  rewrite !fmap_cons. constructor; [|apply IH; set_solver].
  unfold get_child. rewrite GetComponent_of by set_solver. done.
Qed.
End factory_lemmas.

(** The factory of a Karta with distinct component names serves the
    structure as written: every component under its name and no other name, the
    root, all the children in order, and for every parent exactly the components
    owned by it, in order. *)
Theorem NewComponentFactory_spec k :
  NoDup (component_names k) →
  let f := NewComponentFactory k in
  (∀ n c, GetComponent f n = Ok c ↔ ∃ d, d ∈ components k ∧ cd_Name d = n ∧ c = component_of d) ∧
  GetRootComponent f = Ok (component_of (RootComponent k)) ∧
  GetChildComponents f = Ok (component_of <$> ChildComponents k) ∧
  (∀ p, GetChildComponentsOf f p = Ok (component_of <$> filter (owned_by p) (components k))).
Proof.
  intros Hnd f. subst f. split_and!.
  - intros n c. split; [by apply GetComponent_inv|]. intros (d & Hd & <- & ->). by apply GetComponent_of.
  - unfold GetRootComponent. destruct (factory_tables k) as (-> & _). apply GetComponent_of; [done|].
    unfold components. set_solver.
  - unfold GetChildComponents. destruct (factory_tables k) as (-> & _).
    rewrite <- (get_children k Hnd) by (unfold components; set_solver).
    clear. induction (ChildComponents k) as [|d l IH]; [done|]. cbn. by rewrite IH.
  - intros p. unfold GetChildComponentsOf. destruct (factory_tables k) as (_ & _ & ->).
    rewrite add_definitions_children. apply (get_children k Hnd).
    intros d Hd. by apply list_elem_of_filter in Hd as [_ ?].
Qed.

Lemma NewComponentFactory_spec_witness :
  GetRootComponent (NewComponentFactory sample_karta) = Ok (component_of (RootComponent sample_karta)).
Proof.
  apply (NewComponentFactory_spec sample_karta).
  apply (bool_decide_unpack _). vm_compute. exact I.
Defined.

(** ** Concrete inputs *)

#[export] Instance sample_accessor : ComponentAccessor table := NewAccessor sample_decode.
#[export] Instance sample_accessor_lawful : ComponentAccessorLaws table := accessor_lawful sample_decode.

Definition sample_groups : Component := component_of {|
  cd_Name := "groups"; cd_Kind := None; cd_OwnerRef := Some "root";
  cd_SpecDefinition := Some {| sd_PodTemplateSpecPath := None; sd_PodSpecPath := Some ".specs";
    sd_MetadataPath := None; sd_FragmentedPodSpecDefinition := None |};
  cd_ScaleDefinition := None; cd_StatusDefinition := None; cd_SuspendDefinition := None;
  cd_InstanceIdPath := Some ".ids"; cd_PodSelector := None |}.

Definition sample_groups_table : table := Table {[
  ".ids" := [VString "a"; VString "b"];
  ".specs" := [VMap {[ "nodeName" := VString "n1" ]}; VMap {[ "nodeName" := VString "n2" ]}] ]}.

Definition sample_pod_spec (n : string) : json := JObject {[ "nodeName" := JString n ]}.

Lemma get_then_unzip_witness :
  ∃ vs, run (acc_ExtractPodSpec (comp_definition sample_groups)) sample_groups_table = Ok vs ∧
    run (unzipWithInstanceIds sample_groups
           ({[ "a" := sample_pod_spec "n1"; "b" := sample_pod_spec "n2" ]} : gmap string PodSpec))
        sample_groups_table = Ok (["a"; "b"], vs).
Proof.
  eapply (get_then_unzip sample_groups sample_groups_table ["a"; "b"]).
  - vm_compute. reflexivity.
  - apply (bool_decide_unpack _). vm_compute. exact I.
  - vm_compute. reflexivity.
Defined.

Lemma GetExtractedInstances_spec_witness :
  let m := {[ "a" := MkExtractedInstance None (Some (sample_pod_spec "n1" : PodSpec)) None None None;
              "b" := MkExtractedInstance None (Some (sample_pod_spec "n2" : PodSpec)) None None None ]}
    : gmap string ExtractedInstance in
  ∃ ids, run (GetInstanceIds sample_groups) sample_groups_table = Ok ids ∧
    (∀ id, is_Some (m !! id) ↔ id ∈ ids) ∧
    carries (GetPodTemplateSpec sample_groups) sample_groups_table m ei_PodTemplateSpec ∧
    carries (GetPodSpec sample_groups) sample_groups_table m ei_PodSpec ∧
    carries (GetFragmentedPodSpec sample_groups) sample_groups_table m ei_FragmentedPodSpec ∧
    carries (GetPodMetadata sample_groups) sample_groups_table m ei_Metadata ∧
    carries (GetScale sample_groups) sample_groups_table m ei_Scale.
Proof.
  intros m. apply (GetExtractedInstances_spec sample_groups sample_groups_table m).
  vm_compute. reflexivity.
Defined.
