(* ===== verification/PodQuerier.v ===== *)
(** * PodQuerier: questions asked of a pod

    Models [karta/sdk/pkg/resource/pod_querier.go].  The querier holds a pod and
    an evaluator over it; it is generic in the evaluator, of which it uses the
    query half only. *)

From S2P Require Import Prelude Api Value Runner.
From Stdlib Require Import Ascii.

(** ** Quoting a string for a query *)

Definition byte_in (lo hi : N) (c : ascii) : bool :=
  let n := N_of_ascii c in (lo <=? n)%N && (n <=? hi)%N.

Definition backslash : ascii := "092"%char.
Definition dquote : ascii := "034"%char.

Definition hex_digit (n : N) : ascii :=
  ascii_of_N (if (n <? 10)%N then 48 + n else 87 + n)%N.

(** A backslash, [u00] and two hexadecimal digits. *)
Definition escape_u00 (c : ascii) : string :=
  String backslash (String "u" (String "0" (String "0"
    (String (hex_digit (N_of_ascii c / 16)) (String (hex_digit (N_of_ascii c mod 16)) ""))))).

(** [json.Marshal] of an ASCII character inside a string, HTML escaping on. *)
Definition escape_ascii (c : ascii) : string :=
  let short (c : ascii) := String backslash (String c "") in
  if Ascii.eqb c dquote || Ascii.eqb c backslash then short c
  else if Ascii.eqb c "010" then short "n"%char
  else if Ascii.eqb c "013" then short "r"%char
  else if Ascii.eqb c "009" then short "t"%char
  else if Ascii.eqb c "008" then short "b"%char
  else if Ascii.eqb c "012" then short "f"%char
  else if byte_in 0 31 c || Ascii.eqb c "<" || Ascii.eqb c ">" || Ascii.eqb c "&" then escape_u00 c
  else String c "".

Definition escape_of (digits : string) : string := String backslash (String "u" digits).

(** The text between the quotes: valid UTF-8 stands for itself, but for the two
    line separators; every byte that starts no valid sequence is replaced. *)
Fixpoint escape_string (s : string) : string :=
  match s with
  | EmptyString => ""
  | String c s1 =>
      if byte_in 0 127 c then escape_ascii c +:+ escape_string s1 else
      let invalid := escape_of "fffd" +:+ escape_string s1 in
      match s1 with
      | String c1 s2 =>
          if byte_in 194 223 c && byte_in 128 191 c1 then
            String c (String c1 (escape_string s2))
          else
          match s2 with
          | String c2 s3 =>
              let lo := if Ascii.eqb c "224" then 160%N else 128%N in
              let hi := if Ascii.eqb c "237" then 159%N else 191%N in
              if byte_in 224 239 c && byte_in lo hi c1 && byte_in 128 191 c2 then
                if Ascii.eqb c "226" && Ascii.eqb c1 "128" && Ascii.eqb c2 "168" then
                  escape_of "2028" +:+ escape_string s3
                else if Ascii.eqb c "226" && Ascii.eqb c1 "128" && Ascii.eqb c2 "169" then
                  escape_of "2029" +:+ escape_string s3
                else String c (String c1 (String c2 (escape_string s3)))
              else
              match s3 with
              | String c3 s4 =>
                  let lo := if Ascii.eqb c "240" then 144%N else 128%N in
                  let hi := if Ascii.eqb c "244" then 143%N else 191%N in
                  if byte_in 240 244 c && byte_in lo hi c1 && byte_in 128 191 c2 && byte_in 128 191 c3
                  then String c (String c1 (String c2 (String c3 (escape_string s4))))
                  else invalid
              | EmptyString => invalid
              end
          | EmptyString => invalid
          end
      | EmptyString => invalid
      end
  end.

(** Marshalling a string never fails. *)
Definition serialize (value : string) : string :=
  String dquote (escape_string value +:+ String dquote "").

(** *** Reading a quoted string back

    The string literals of jq: JSON's, where a backslash before a parenthesis
    would start an interpolation and is no literal. *)

Definition hex_value (c : ascii) : option N :=
  if byte_in 48 57 c then Some (N_of_ascii c - 48)%N
  else if byte_in 97 102 c then Some (N_of_ascii c - 87)%N
  else None.

Definition simple_escape (c : ascii) : option ascii :=
  if Ascii.eqb c dquote || Ascii.eqb c backslash then Some c
  else if Ascii.eqb c "n" then Some "010"%char
  else if Ascii.eqb c "r" then Some "013"%char
  else if Ascii.eqb c "t" then Some "009"%char
  else if Ascii.eqb c "b" then Some "008"%char
  else if Ascii.eqb c "f" then Some "012"%char
  else None.

Definition push (c : ascii) (o : option (string * string)) : option (string * string) :=
  '(s, rest) ← o; Some (String c s, rest).

(** The literal up to its closing quote, and the text behind it. *)
Fixpoint read_literal (s : string) : option (string * string) :=
  match s with
  | EmptyString => None
  | String c s1 =>
      if Ascii.eqb c dquote then Some ("", s1)
      else if Ascii.eqb c backslash then
        match s1 with
        | EmptyString => None
        | String e s2 =>
            if Ascii.eqb e "u" then
              match s2 with
              | String z0 (String z1 (String h (String l s3))) =>
                  match hex_value z0, hex_value z1, hex_value h, hex_value l with
                  | Some 0%N, Some 0%N, Some h, Some l =>
                      push (ascii_of_N (16 * h + l)) (read_literal s3)
                  | _, _, _, _ => None
                  end
              | _ => None
              end
            else
              match simple_escape e with
              | Some c => push c (read_literal s2)
              | None => None
              end
        end
      else if byte_in 0 31 c then None
      else push c (read_literal s1)
  end.

Definition read_string (s : string) : option (string * string) :=
  match s with
  | String c s => if Ascii.eqb c dquote then read_literal s else None
  | EmptyString => None
  end.

Fixpoint ascii_only (s : string) : bool :=
  match s with EmptyString => true | String c s => byte_in 0 127 c && ascii_only s end.

Lemma read_escape_ascii c t :
  byte_in 0 127 c = true → read_literal (escape_ascii c +:+ t) = push c (read_literal t).
Proof.
  destruct c as [b0 b1 b2 b3 b4 b5 b6 b7].
  destruct b7, b6, b5, b4, b3, b2, b1, b0; intros H; reflexivity || discriminate H.
Qed.

Lemma app_assoc_string (s1 s2 s3 : string) : (s1 +:+ s2) +:+ s3 = s1 +:+ (s2 +:+ s3).
Proof. induction s1 as [|c s1 IH]; [reflexivity|]. exact (f_equal (String c) IH). Qed.

(** C19: an ASCII string quoted for a query reads back as itself and ends where
    it should, whatever text follows: a selector's value cannot break out of
    the query it is compared in. *)
Theorem serialize_read s rest :
  ascii_only s = true → read_string (serialize s +:+ rest) = Some (s, rest).
Proof.
  intros Hs. unfold serialize.
  change (read_literal ((escape_string s +:+ String dquote "") +:+ rest) = Some (s, rest)).
  rewrite app_assoc_string. induction s as [|c s IH]; [reflexivity|].
  cbn in Hs. apply andb_true_iff in Hs as [Hc Hs].
  cbn [escape_string]. rewrite Hc, app_assoc_string, read_escape_ascii by done.
  by rewrite IH.
Qed.

Lemma serialize_read_witness :
  let s := "a" +:+ quote +:+ " or true # <b>\(.x)" +:+ newline in
  read_string (serialize s +:+ " | not") = Some (s, " | not").
Proof. intros s. apply (serialize_read s " | not"). vm_compute. reflexivity. Defined.

(** ** The querier over an evaluator *)

(** [results[0] == nil || results[0] == ""] *)
Definition empty_result (v : value) : bool :=
  match v with VNil => true | VString s => bool_decide (s = "") | _ => false end.

Definition is_nil (v : value) : bool := match v with VNil => true | _ => false end.

(** [result == true] *)
Definition is_true (v : value) : bool := match v with VBool b => b | _ => false end.

Definition validateSingleQueryResult (results : list value) : result value :=
  match results with
  | [v] => if empty_result v then Fail (Errorf "query result is empty %v" [] []) else Ok v
  | _ => Fail (Errorf "expected single query result, got %d" [ANat (length results)] [])
  end.

Section querier.
Context {R : Type} `{Runner R}.
Context (other : value → string) (GetPodName : string).

Definition checkKeyExists (keyPath : string) : M R bool :=
  results ← Evaluate keyPath;
  mret (existsb (λ r, negb (is_nil r)) results).

Definition checkKeyValue (keyPath expectedValue : string) : M R bool :=
  let serializedValue := serialize expectedValue in
  results ← Evaluate (keyPath +:+ " == " +:+ serializedValue);
  mret (existsb is_true results).

Definition MatchesComponentType (selector : option ComponentTypeSelector) : M R bool :=
  match selector with
  | None => mret false
  | Some selector =>
      match cts_Value selector with
      | None => checkKeyExists (cts_KeyPath selector)
      | Some value => checkKeyValue (cts_KeyPath selector) value
      end
  end.

Definition evaluateSingleResult (jqPath : string) : M R value :=
  results ← Evaluate jqPath; lift (validateSingleQueryResult results).

Definition evaluateStringField (jqPath : string) : M R string :=
  result ← evaluateSingleResult jqPath; mret (Sprint_v other result).

Definition ExtractInstanceId (instanceSelector : option ComponentInstanceSelector)
  : M R (string * bool) :=
  match instanceSelector with
  | None => mret ("", false)
  | Some selector =>
      if bool_decide (cis_IdPath selector = "") then mret ("", false)
      else
        value ← wrap (λ err, Errorf "failed to extract instance id from path %q: %w"
                               [AStr (cis_IdPath selector)] [err])
                  (evaluateStringField (cis_IdPath selector));
        mret (value, true)
  end.

Definition ExtractReplicaKey (selector : option ReplicaSelector) : M R (string * bool) :=
  match selector with
  | None => mret ("", false)
  | Some selector =>
      if bool_decide (rs_KeyPath selector = "") then mret ("", false)
      else
        value ← wrap (λ err, Errorf "failed to extract replica key from path %q: %w"
                               [AStr (rs_KeyPath selector)] [err])
                  (evaluateStringField (rs_KeyPath selector));
        mret (value, true)
  end.

Definition ExtractGroupKeys (keyPaths : list string) : M R (list string) :=
  mapM (λ keyPath,
          wrap (λ err, Errorf "failed to extract group key from path %q: %w" [AStr keyPath] [err])
            (evaluateStringField keyPath)) keyPaths.

Fixpoint PassesFilters (filters : list string) : M R bool :=
  match filters with
  | [] => mret true
  | filter :: filters =>
      result ← wrap (λ err, Errorf "failed to evaluate filter %q: %w" [AStr filter] [err])
                 (evaluateSingleResult filter);
      if negb (is_true result) then mret false else PassesFilters filters
  end.

Definition GetMatchingInstanceId (instanceSelector : option ComponentInstanceSelector)
    (instanceIds : list string) : M R string :=
  match instanceSelector with
  | None => if bool_decide (instanceIds = [""]) then mret ""
            else fail (Errorf "no instance selector provided but instance ids are not empty" [] [])
  | Some _ =>
      '(podInstanceId, _) ← ExtractInstanceId instanceSelector;
      if bool_decide (podInstanceId ∈ instanceIds) then mret podInstanceId
      else fail (InstanceNotFoundError "could not match instance id %q. existing instance ids %v"
                   [AStr podInstanceId; AStrs instanceIds])
  end.

(** *** Queries leave the pod alone *)

Context `{Equiv R} `{!RunnerLaws R}.
#[local] Set Default Proof Using "Type*".

Lemma evaluateSingleResult_readonly p : readonly (evaluateSingleResult p).
Proof. unfold evaluateSingleResult. solve_readonly. Qed.
#[local] Hint Resolve evaluateSingleResult_readonly : readonly.

Lemma evaluateStringField_readonly p : readonly (evaluateStringField p).
Proof. unfold evaluateStringField. solve_readonly. Qed.
#[local] Hint Resolve evaluateStringField_readonly : readonly.

Lemma MatchesComponentType_readonly s : readonly (MatchesComponentType s).
Proof. unfold MatchesComponentType, checkKeyExists, checkKeyValue. solve_readonly. Qed.

Lemma ExtractInstanceId_readonly s : readonly (ExtractInstanceId s).
Proof. unfold ExtractInstanceId. solve_readonly. Qed.
#[local] Hint Resolve ExtractInstanceId_readonly : readonly.

Lemma ExtractReplicaKey_readonly s : readonly (ExtractReplicaKey s).
Proof. unfold ExtractReplicaKey. solve_readonly. Qed.

Lemma ExtractGroupKeys_readonly l : readonly (ExtractGroupKeys l).
Proof. unfold ExtractGroupKeys. solve_readonly. Qed.

Lemma PassesFilters_readonly l : readonly (PassesFilters l).
Proof. induction l; cbn [PassesFilters]; solve_readonly. Qed.

Lemma GetMatchingInstanceId_readonly s ids : readonly (GetMatchingInstanceId s ids).
Proof. unfold GetMatchingInstanceId. solve_readonly. Qed.

#[local] Hint Resolve MatchesComponentType_readonly ExtractReplicaKey_readonly
  ExtractGroupKeys_readonly PassesFilters_readonly GetMatchingInstanceId_readonly : readonly.

(** *** What the answers mean *)

Lemma evaluateSingleResult_Ok p r v :
  run (evaluateSingleResult p) r = Ok v ↔ run (Evaluate p) r = Ok [v] ∧ empty_result v = false.
Proof.
  unfold evaluateSingleResult. run_ok. split.
  - intros (vs & E & Hv). rewrite run_lift in Hv. destruct vs as [|w [|? ?]]; try discriminate Hv.
    cbn in Hv. destruct (empty_result w) eqn:Hw; [discriminate Hv|]. by injection Hv as <-.
  - intros [E Hv]. exists [v]. split; [done|]. rewrite run_lift. cbn. by rewrite Hv.
Qed.

Lemma PassesFilters_true filters r :
  run (PassesFilters filters) r = Ok true ↔
  ∀ f, f ∈ filters → run (Evaluate f) r = Ok [VBool true].
Proof.
  induction filters as [|f filters IH]; cbn [PassesFilters].
  - rewrite run_ret. split; [|done]. by intros _ f ?%elem_of_nil.
  - run_ok. setoid_rewrite elem_of_cons. split.
    + intros (v & Ev & E) g Hg. rewrite run_wrap, map_error_Ok in Ev.
      apply evaluateSingleResult_Ok in Ev as [Ev _]. destruct Hg as [->|Hg].
      * rewrite Ev. destruct v as [|[]| | | | | |]; try done; discriminate E.
      * destruct (is_true v); [|discriminate E]. by apply IH.
    + intros Hall. exists (VBool true). rewrite run_wrap, map_error_Ok, evaluateSingleResult_Ok.
      split; [split; [by apply Hall; left|done]|]. cbn. apply IH. intros g Hg. apply Hall. by right.
Qed.

(** A pod passes its filters exactly when each of them evaluates to the
    single result [true]; a false, missing, repeated or failing filter never
    lets it through. *)
Theorem PassesFilters_spec filters r :
  run (PassesFilters filters) r = Ok true ↔
  Forall (λ f, run (Evaluate f) r = Ok [VBool true]) filters.
Proof. rewrite PassesFilters_true. by rewrite Forall_forall. Qed.

Lemma GetMatchingInstanceId_elem sel ids r id :
  run (GetMatchingInstanceId sel ids) r = Ok id → id ∈ ids.
Proof.
  unfold GetMatchingInstanceId. destruct sel as [sel|].
  - intros E. run_ok_in E. destruct E as ([pid found] & _ & E).
    case_bool_decide; [|done]. by injection E as <-.
  - case_bool_decide as Hids; [|done]. intros [= <-]. rewrite Hids. by left.
Qed.
End querier.

Lemma PassesFilters_spec_witness :
  let t := Table {[ ".ready" := [VBool true]; ".done" := [VBool true; VBool true] ]} in
  (run (PassesFilters [".ready"]) t = Ok true ↔
   Forall (λ f, run (Evaluate f) t = Ok [VBool true]) [".ready"]) ∧
  run (PassesFilters [".ready"]) t = Ok true ∧ is_ok (run (PassesFilters [".ready"; ".done"]) t) = false.
Proof.
  intros t. split; [apply (PassesFilters_spec [".ready"] t)|].
  split; vm_compute; reflexivity.
Defined.
