(* ===== verification/Sort.v ===== *)
(** * Sort: the sorting functions of the Go library the program calls

    [sort.Slice] promises an ordered permutation and nothing about equal
    elements; [GoSort] states that promise, and [insertion_GoSort] is one
    implementation of it (the one Go uses on short slices).  [sort.Strings] has
    a single possible answer and is defined outright. *)

From S2P Require Import Prelude.

(** ** sort.Slice *)

Record strict_weak {A} (less : A → A → bool) : Prop := {
  less_irrefl x : less x x = false;
  less_trans x y z : less x y = true → less y z = true → less x z = true;
  less_split x y z : less x z = true → less x y = true ∨ less y z = true;
}.

(** No element is less than one in front of it. *)
Definition sorted_by {A} (less : A → A → bool) : list A → Prop :=
  StronglySorted (λ x y, less y x = false).

Class GoSort := {
  sort_Slice {A} : (A → A → bool) → list A → list A;
  sort_Slice_Permutation {A} (less : A → A → bool) l : sort_Slice less l ≡ₚ l;
  sort_Slice_sorted {A} (less : A → A → bool) l :
    strict_weak less → sorted_by less (sort_Slice less l);
}.

Section insertion.
Context {A : Type} (less : A → A → bool).

Fixpoint insert_sorted (x : A) (l : list A) : list A :=
  match l with
  | [] => [x]
  | y :: l' => if less x y then x :: y :: l' else y :: insert_sorted x l'
  end.

Definition insertion_sort (l : list A) : list A := foldl (λ s x, insert_sorted x s) [] l.

Lemma insert_sorted_Permutation x l : insert_sorted x l ≡ₚ x :: l.
Proof.
  induction l as [|y l IH]; [done|]. cbn. destruct (less x y); [done|].
  rewrite IH. by rewrite Permutation_swap.
Qed.

Lemma insertion_sort_Permutation l : insertion_sort l ≡ₚ l.
Proof.
  unfold insertion_sort. change l with ([] ++ l) at 2. generalize ([] : list A) as s.
  induction l as [|x l IH]; intros s; cbn; [by rewrite app_nil_r|].
  rewrite IH, insert_sorted_Permutation. cbn. by rewrite Permutation_middle.
Qed.

Lemma insert_sorted_sorted x l :
  strict_weak less → sorted_by less l → sorted_by less (insert_sorted x l).
Proof.
  intros Hw Hl. unfold sorted_by in *. induction Hl as [|y l Hl IH Hy]; [by repeat constructor|].
  cbn. destruct (less x y) eqn:Hxy.
  - constructor; [by constructor|]. constructor.
    + destruct (less y x) eqn:Hyx; [|done].
      rewrite <- (less_irrefl _ Hw x). symmetry. by apply (less_trans _ Hw x y x).
    + eapply Forall_impl; [exact Hy|]. intros z Hz. cbn in *. destruct (less z x) eqn:Hzx; [|done].
      rewrite (less_trans _ Hw z x y) in Hz by done. done.
  - constructor; [done|]. rewrite insert_sorted_Permutation. by constructor.
Qed.

Lemma insertion_sort_sorted l : strict_weak less → sorted_by less (insertion_sort l).
Proof.
  intros Hw. unfold insertion_sort.
  assert (Hgen : ∀ s, sorted_by less s → sorted_by less (foldl (λ s x, insert_sorted x s) s l)).
  { induction l as [|x l IH]; intros s Hs; [done|]. cbn. by apply IH, insert_sorted_sorted. }
  apply Hgen. constructor.
Qed.
End insertion.

(** ** slices.SortStableFunc

    Has one possible answer, that of an insertion sort; [less a b] is
    [cmp(a, b) < 0]. *)

Definition SortStableFunc {A} (less : A → A → bool) : list A → list A := insertion_sort less.

Section stable.
Context {A : Type} (less : A → A → bool) (Hw : strict_weak less).

(** Neither is in front of the other. *)
Definition tied (x y : A) : Prop := less x y = false ∧ less y x = false.
#[export] Instance tied_dec x y : Decision (tied x y).
Proof. unfold tied. apply _. Defined.

Lemma insert_sorted_tied z x s :
  sorted_by less s →
  filter (tied z) (insert_sorted less x s) = filter (tied z) (s ++ [x]).
Proof.
  induction 1 as [|y s Hs IH Hy]; [done|]. cbn [insert_sorted app].
  destruct (less x y) eqn:Hxy.
  - change (x :: y :: s) with ([x] ++ y :: s). change (y :: s ++ [x]) with ((y :: s) ++ [x]).
    rewrite !filter_app. destruct (decide (tied z x)) as [Hzx|Hzx].
    + assert (filter (tied z) (y :: s) = []) as ->; [|by rewrite app_nil_r].
      assert (Hall : ∀ w, w ∈ y :: s → less x w = true).
      { intros w [->|Hw']%elem_of_cons; [done|]. rewrite Forall_forall in Hy.
        destruct (less_split _ Hw x w y Hxy) as [?|E]; [done|]. by rewrite (Hy w Hw') in E. }
      destruct (filter (tied z) (y :: s)) as [|w l] eqn:E; [done|]. exfalso.
      assert (Hf : w ∈ filter (tied z) (y :: s)) by (rewrite E; by left).
      apply list_elem_of_filter in Hf as [[Hzw Hwz] Hin]. destruct Hzx as [H1 H2].
      destruct (less_split _ Hw x z w (Hall w Hin)); congruence.
    + rewrite filter_cons_False by done. change (filter (tied z) []) with (@nil A). by rewrite app_nil_r.
  - destruct (decide (tied z y)).
    + rewrite !filter_cons_True by done. by rewrite IH.
    + rewrite !filter_cons_False by done. done.
Qed.

(** Elements that tie stay in order. *)
Lemma SortStableFunc_stable z l : filter (tied z) (SortStableFunc less l) = filter (tied z) l.
Proof.
  unfold SortStableFunc, insertion_sort. change l with ([] ++ l) at 2.
  assert (Hs : sorted_by less []) by constructor. revert Hs. generalize ([] : list A) as s.
  induction l as [|x l IH]; intros s Hs; cbn; [by rewrite app_nil_r|].
  rewrite IH by (by apply insert_sorted_sorted). change (s ++ x :: l) with (s ++ [x] ++ l).
  by rewrite (assoc_L (++)), !(filter_app _ _ l), insert_sorted_tied.
Qed.
End stable.

Definition insertion_GoSort : GoSort := {|
  sort_Slice A := insertion_sort;
  sort_Slice_Permutation A := insertion_sort_Permutation;
  sort_Slice_sorted A := insertion_sort_sorted;
|}.

(** Sorting by a two-valued priority puts one class in front of the other. *)
Section partition.
Context `{GoSort} {A : Type} (first : A → bool).

Definition first_less (x y : A) : bool := first x && negb (first y).

Lemma first_less_strict_weak : strict_weak first_less.
Proof.
  unfold first_less. split.
  - intros x. by destruct (first x).
  - intros x y z. by destruct (first x), (first y), (first z).
  - intros x y z. destruct (first x), (first y), (first z); cbn; auto.
Qed.

Lemma sorted_by_first l :
  sorted_by first_less l →
  ∃ l1 l2, l = l1 ++ l2 ∧ Forall (λ x, first x = true) l1 ∧ Forall (λ x, first x = false) l2.
Proof.
  unfold sorted_by. induction 1 as [|x l _ (l1 & l2 & -> & H1 & H2) Hx].
  - by exists [], [].
  - destruct (first x) eqn:E.
    + exists (x :: l1), l2. split_and!; [done| |done]. by constructor.
    + exists [], (x :: l1 ++ l2). split_and!; [done|constructor|]. constructor; [done|].
      eapply Forall_impl; [exact Hx|]. cbn. intros y. unfold first_less. rewrite E.
      by destruct (first y).
Qed.

Lemma sort_Slice_first l :
  ∃ l1 l2, sort_Slice first_less l = l1 ++ l2 ∧
    Forall (λ x, first x = true) l1 ∧ Forall (λ x, first x = false) l2.
Proof. apply sorted_by_first, sort_Slice_sorted, first_less_strict_weak. Qed.
End partition.

Lemma filter_all {A} (P : A → Prop) `{!∀ x, Decision (P x)} l : Forall P l → filter P l = l.
Proof. induction 1 as [|x l Hx _ IH]; [done|]. by rewrite filter_cons_True, IH. Qed.

Lemma filter_none {A} (P : A → Prop) `{!∀ x, Decision (P x)} l : Forall (λ x, ¬ P x) l → filter P l = [].
Proof. induction 1 as [|x l Hx _ IH]; [done|]. by rewrite filter_cons_False. Qed.

Lemma SortStableFunc_first {A} (first : A → bool) l :
  SortStableFunc (first_less first) l =
  filter (λ x, first x = true) l ++ filter (λ x, first x = false) l.
Proof.
  pose proof (first_less_strict_weak first) as Hw.
  destruct (sorted_by_first first (SortStableFunc (first_less first) l)) as (l1 & l2 & E & H1 & H2).
  { by apply insertion_sort_sorted. }
  assert (Htied : ∀ x y, tied (first_less first) x y ↔ first y = first x).
  { intros x y. unfold tied, first_less. destruct (first x), (first y); cbn; naive_solver. }
  assert (Hfil : ∀ x, filter (λ y, first y = first x) (SortStableFunc (first_less first) l) =
                      filter (λ y, first y = first x) l).
  { intros x. rewrite <- !(list_filter_iff _ _ _ (Htied x)). by apply SortStableFunc_stable. }
  assert (Hin : ∀ y, y ∈ SortStableFunc (first_less first) l ↔ y ∈ l).
  { intros y. unfold SortStableFunc. by rewrite insertion_sort_Permutation. }
  assert (Hb : ∀ b, filter (λ y, first y = b) (SortStableFunc (first_less first) l) =
                    filter (λ y, first y = b) l).
  { intros b. destruct (decide (Exists (λ y, first y = b) l)) as [(x & _ & <-)%Exists_exists|Hno]; [apply Hfil|].
    assert (Hn : Forall (λ y, ¬ first y = b) l) by (by apply Forall_Exists_neg).
    rewrite (filter_none _ l) by done. apply filter_none. rewrite Forall_forall in Hn.
    apply Forall_forall. intros y Hy. by apply Hn, Hin. }
  rewrite <- (Hb true), <- (Hb false), E, !filter_app.
  rewrite (filter_all (λ x, first x = true) l1), (filter_all (λ x, first x = false) l2) by done.
  rewrite (filter_none (λ x, first x = false) l1), (filter_none (λ x, first x = true) l2);
    [by rewrite app_nil_r|..].
  - eapply Forall_impl; [exact H2|]. intros x ->. done.
  - eapply Forall_impl; [exact H1|]. intros x ->. done.
Qed.

(** ** The order of strings *)

(** [a < b] on strings, by bytes. *)
Definition string_lt (a b : string) : bool := bool_decide (String.le a b) && negb (bool_decide (a = b)).

Lemma string_lt_spec a b : string_lt a b = true ↔ String.le a b ∧ a ≠ b.
Proof. unfold string_lt. by rewrite andb_true_iff, negb_true_iff, bool_decide_eq_true, bool_decide_eq_false. Qed.

Lemma string_lt_total a b : string_lt a b = false → string_lt b a = false → a = b.
Proof.
  intros Hab Hba. destruct (decide (a = b)) as [|Hne]; [done|].
  destruct (total String.le a b) as [H|H].
  - assert (string_lt a b = true) by (by apply string_lt_spec). congruence.
  - assert (string_lt b a = true) by (by apply string_lt_spec; auto). congruence.
Qed.

Lemma string_lt_strict_weak : strict_weak string_lt.
Proof.
  split.
  - intros x. apply not_true_is_false. rewrite string_lt_spec. by intros [_ ?].
  - intros x y z. rewrite !string_lt_spec. intros [H1 N1] [H2 N2]. split; [by etrans|].
    intros ->. apply N1. by apply (anti_symm String.le).
  - intros x y z H. destruct (string_lt x y) eqn:Hxy; [by left|right].
    destruct (string_lt y x) eqn:Hyx.
    + apply string_lt_spec in H as [H N], Hyx as [H' N']. apply string_lt_spec. split; [by etrans|].
      intros ->. apply N. by apply (anti_symm String.le).
    + by rewrite <- (string_lt_total x y Hxy Hyx).
Qed.

(** Comparing by a key. *)
Lemma strict_weak_on {A B} (less : B → B → bool) (f : A → B) :
  strict_weak less → strict_weak (λ x y, less (f x) (f y)).
Proof.
  intros [H1 H2 H3]. split.
  - intros x. apply H1.
  - intros x y z. apply H2.
  - intros x y z. apply H3.
Qed.

(** First by one order, then by another. *)
Lemma strict_weak_lex {A} (less1 less2 : A → A → bool) :
  strict_weak less1 → strict_weak less2 →
  strict_weak (λ x y, less1 x y || (negb (less1 y x) && less2 x y)).
Proof.
  intros [I1 T1 S1] [I2 T2 S2].
  assert (Hspec : ∀ x y, less1 x y || (negb (less1 y x) && less2 x y) = true ↔
    less1 x y = true ∨ (less1 y x = false ∧ less2 x y = true)).
  { intros x y. by rewrite orb_true_iff, andb_true_iff, negb_true_iff. }
  split.
  - intros x. by rewrite I1, I2, andb_false_r.
  - intros x y z. rewrite !Hspec. intros [H1|[N1 L1]] [H2|[N2 L2]].
    + left. by apply (T1 x y z).
    + left. destruct (S1 x z y H1) as [H|H]; [done|congruence].
    + left. destruct (S1 y x z H2) as [H|H]; [congruence|done].
    + right. split; [|by apply (T2 x y z)]. destruct (less1 z x) eqn:E; [|done].
      destruct (S1 z y x E) as [H|H]; congruence.
  - intros x y z. rewrite !Hspec. intros [H|[N L]].
    + destruct (S1 x y z H) as [?|?]; auto.
    + destruct (less1 x y) eqn:E1; [by left; left|]. destruct (less1 y z) eqn:E2; [by right; left|].
      destruct (S2 x y z L) as [?|?].
      * destruct (less1 y x) eqn:E3; [|by left; right]. destruct (S1 y z x E3); congruence.
      * destruct (less1 z y) eqn:E3; [|by right; right]. destruct (S1 z x y E3); congruence.
Qed.

(** ** Electing the best of a list

    The loop [if winner == nil || better(x, winner) { winner = x }]. *)

Section pick.
Context {A : Type} (better : A → A → bool).

Definition pick_step (winner : option A) (x : A) : option A :=
  match winner with
  | Some w => if better x w then Some x else winner
  | None => Some x
  end.

Definition pick (winner : option A) (l : list A) : option A := foldl pick_step winner l.

Lemma pick_spec winner l :
  strict_weak better →
  match pick winner l with
  | None => winner = None ∧ l = []
  | Some w => w ∈ option_list winner ++ l ∧ ∀ x, x ∈ option_list winner ++ l → better x w = false
  end.
Proof.
  intros [Hirr Htrans Hsplit]. unfold pick. revert winner.
  induction l as [|x l IH]; intros winner; cbn [foldl].
  { destruct winner as [w|]; cbn; [|done]. split; [by left|]. by intros y ->%list_elem_of_singleton. }
  specialize (IH (pick_step winner x)). destruct (foldl pick_step (pick_step winner x) l) as [w'|].
  2: { destruct winner; cbn in IH; [case_match|]; by destruct IH. }
  destruct IH as [Hin Hbest]. destruct winner as [w|]; cbn [pick_step option_list app] in *; [|done].
  destruct (better x w) eqn:E; cbn [option_list app] in *.
  - split; [set_solver|]. intros y [->|Hy]%elem_of_cons; [|by apply Hbest].
    destruct (better w w') eqn:Ey; [|done]. rewrite <- (Hbest x) by (by left). symmetry. by apply (Htrans x w w').
  - split; [set_solver|]. intros y [->|[->|Hy]%elem_of_cons]%elem_of_cons; [apply Hbest; by left| |apply Hbest; by right].
    destruct (better x w') eqn:Ex; [|done]. destruct (Hsplit x w w' Ex) as [?|Hw]; [congruence|].
    rewrite <- (Hbest w) by (by left). done.
Qed.
End pick.

(** ** sort.Strings *)

Definition sort_Strings : list string → list string := merge_sort String.le.

Lemma sort_Strings_Permutation l : sort_Strings l ≡ₚ l.
Proof. apply merge_sort_Permutation. Qed.

Lemma sort_Strings_sorted l : StronglySorted String.le (sort_Strings l).
Proof. apply StronglySorted_merge_sort; apply _. Qed.

(** The order of the input does not matter. *)
Lemma sort_Strings_proper l l' : l ≡ₚ l' → sort_Strings l = sort_Strings l'.
Proof.
  intros Hl. apply (StronglySorted_unique String.le); [apply sort_Strings_sorted..|].
  by rewrite !sort_Strings_Permutation.
Qed.

(** ** Orders given by a comparison *)

Record total_order {A} (cmp : A → A → comparison) : Prop := {
  cmp_sym x y : cmp y x = CompOpp (cmp x y);
  cmp_cong x y z : cmp x y = Eq → cmp x z = cmp y z;
  cmp_lt x y z : cmp x y = Lt → cmp y z = Lt → cmp x z = Lt;
}.

(** [if order := ..; order != 0 { return order }] *)
Definition or_else (order next : comparison) : comparison :=
  match order with Eq => next | _ => order end.

Fixpoint compare_list {A} (cmp : A → A → comparison) (l r : list A) : comparison :=
  match l, r with
  | [], [] => Eq
  | [], _ => Lt
  | _, [] => Gt
  | a :: l, b :: r => or_else (cmp a b) (compare_list cmp l r)
  end.

Section orders.
Context {A : Type} (cmp : A → A → comparison) (Hcmp : total_order cmp).

Lemma cmp_refl x : cmp x x = Eq.
Proof. pose proof (cmp_sym _ Hcmp x x) as E. by destruct (cmp x x). Qed.

Lemma cmp_cong_r x y z : cmp x y = Eq → cmp z x = cmp z y.
Proof. intros E. by rewrite (cmp_sym _ Hcmp x z), (cmp_sym _ Hcmp y z), (cmp_cong _ Hcmp x y z). Qed.

Lemma cmp_gt x y : cmp x y = Gt ↔ cmp y x = Lt.
Proof. rewrite (cmp_sym _ Hcmp x y). by destruct (cmp x y). Qed.

Lemma cmp_le_trans x y z : cmp x y ≠ Gt → cmp y z ≠ Gt → cmp x z ≠ Gt.
Proof.
  intros H1 H2. destruct (cmp x y) eqn:E1; [|destruct (cmp y z) eqn:E2|done]; [|..|done].
  - by rewrite (cmp_cong _ Hcmp x y z).
  - by rewrite <- (cmp_cong_r y z x), E1.
  - by rewrite (cmp_lt _ Hcmp x y z).
Qed.

Lemma total_order_on {B} (f : B → A) : total_order (λ x y, cmp (f x) (f y)).
Proof. split; intros *; [apply Hcmp|apply Hcmp|apply Hcmp]. Qed.

Lemma total_order_else (cmp' : A → A → comparison) :
  total_order cmp' → total_order (λ x y, or_else (cmp x y) (cmp' x y)).
Proof.
  intros H'. split.
  - intros x y. rewrite (cmp_sym _ Hcmp x y), (cmp_sym _ H' x y). by destruct (cmp x y).
  - intros x y z. destruct (cmp x y) eqn:E; [|done|done]. cbn. intros E'.
    by rewrite (cmp_cong _ Hcmp x y z), (cmp_cong _ H' x y z).
  - intros x y z. destruct (cmp x y) eqn:E; cbn; [|..|done].
    + rewrite (cmp_cong _ Hcmp x y z) by done. destruct (cmp y z); cbn; [|done..]. by apply (cmp_lt _ H').
    + intros _. destruct (cmp y z) eqn:E2; cbn; [|..|done]; intros _.
      * by rewrite <- (cmp_cong_r y z x), E.
      * by rewrite (cmp_lt _ Hcmp x y z).
Qed.

Lemma total_order_list : total_order (compare_list cmp).
Proof.
  split.
  - intros x. induction x as [|a x IH]; intros [|b y]; [done..|]. cbn. rewrite (cmp_sym _ Hcmp a b), IH. by destruct (cmp a b).
  - intros x. induction x as [|a x IH]; intros [|b y] z; [done..|]. cbn. destruct (cmp a b) eqn:E; [|done..].
    cbn. intros E'. destruct z as [|d z]; [done|]. by rewrite (cmp_cong _ Hcmp a b d), (IH y z).
  - intros x. induction x as [|a x IH]; intros [|b y] [|d z]; [done..|]. cbn.
    destruct (cmp a b) eqn:E; cbn; [|..|done].
    + rewrite (cmp_cong _ Hcmp a b d) by done. destruct (cmp b d); cbn; [|done..]. apply IH.
    + intros _. destruct (cmp b d) eqn:E2; cbn; [|..|done]; intros _.
      * by rewrite <- (cmp_cong_r b d a), E.
      * by rewrite (cmp_lt _ Hcmp a b d).
Qed.
End orders.

Lemma total_order_nat : total_order Nat.compare.
Proof.
  split.
  - intros x y. apply Nat.compare_antisym.
  - intros x y z E%Nat.compare_eq. by subst.
  - intros x y z. rewrite !Nat.compare_lt_iff. lia.
Qed.

(** The loop over both lists, then their lengths. *)
Lemma compare_list_zip {A} (cmp : A → A → comparison) l r :
  foldr or_else (Nat.compare (length l) (length r)) (zip_with cmp l r) = compare_list cmp l r.
Proof. revert r. induction l as [|a l IH]; intros [|b r]; [done..|]. cbn. f_equal. apply IH. Qed.
