(* ===== verification/Summary.v ===== *)
(** * Summary: the structure summary of a Karta

    Models [karta/sdk/pkg/instructions/summary.go]: the parent and child tables
    and, for gang scheduling, the candidates each component may be grouped
    under.  The walk to the ancestors is a loop of the source; it is run with
    fuel, [None] standing for a run that does not end, and shown to end on every
    well-formed structure. *)

From S2P Require Import Prelude Api Validator Sort Component.

Record effectiveComponentCandidate := Candidate {
  ecc_effectiveComponent : string;
  ecc_podGroupName : string;
  ecc_member : PodGroupMemberDefinition;
}.

Record gangSchedulingSummary := MkGangSchedulingSummary {
  gss_effectiveComponentCandidates : gmap string (list effectiveComponentCandidate);
  gss_podGroupsByName : gmap string PodGroupDefinition;
}.

Record StructureSummary := MkStructureSummary {
  ss_karta : Karta;
  ss_parentMap : gmap string string;
  ss_childrenMap : gmap string (list string);
  ss_componentDefinitionsByName : gmap string ComponentDefinition;
  ss_leafComponents : list string;
  ss_hasScaleDefinition : bool;
  ss_gangSchedulingSummary : option gangSchedulingSummary;
}.

Definition getAllComponents (karta : Karta) : list ComponentDefinition :=
  RootComponent karta :: ChildComponents karta.

Definition hasPodDefinition (component : ComponentDefinition) : bool :=
  match cd_SpecDefinition component with None => false | Some spec => has_pod_definition spec end.

(** One turn of the component loop of [build]. *)
Definition add_component (s : StructureSummary) (component : ComponentDefinition) : StructureSummary :=
  {| ss_karta := ss_karta s;
     ss_parentMap := match cd_OwnerRef component with
                     | None => ss_parentMap s
                     | Some parentName => <[cd_Name component := parentName]> (ss_parentMap s)
                     end;
     ss_childrenMap := match cd_OwnerRef component with
                       | None => ss_childrenMap s
                       | Some parentName =>
                           <[parentName := default [] (ss_childrenMap s !! parentName)
                                           ++ [cd_Name component]]> (ss_childrenMap s)
                       end;
     ss_componentDefinitionsByName :=
       <[cd_Name component := component]> (ss_componentDefinitionsByName s);
     ss_leafComponents := if hasPodDefinition component
                          then ss_leafComponents s ++ [cd_Name component]
                          else ss_leafComponents s;
     ss_hasScaleDefinition := ss_hasScaleDefinition s ||
                              bool_decide (is_Some (cd_ScaleDefinition component));
     ss_gangSchedulingSummary := ss_gangSchedulingSummary s |}.

Definition empty_summary (karta : Karta) : StructureSummary :=
  MkStructureSummary karta ∅ ∅ ∅ [] false None.

(** The mentions of a component in the pod groups, in definition order. *)
Definition mentions (groups : list PodGroupDefinition) (current : string)
  : list effectiveComponentCandidate :=
  groups ≫= λ group,
    Candidate current (pg_Name group) <$>
      filter (λ member, pm_ComponentName member = current) (pg_Members group).

Fixpoint findEffectiveComponentCandidates (fuel : nat) (groups : list PodGroupDefinition)
    (parentMap : gmap string string) (current : string) (candidates : list effectiveComponentCandidate)
  : option (list effectiveComponentCandidate) :=
  match fuel with
  | O => None
  | S fuel =>
      if bool_decide (current = "") then Some candidates
      else findEffectiveComponentCandidates fuel groups parentMap
             (default "" (parentMap !! current)) (candidates ++ mentions groups current)
  end.

Section build.
Context `{GoSort}.

Definition sortEffectiveComponentCandidatesByPriority (candidates : list effectiveComponentCandidate)
    (originalComponent : string) : list effectiveComponentCandidate :=
  sort_Slice (λ i j,
    let iIsDirect := bool_decide (ecc_effectiveComponent i = originalComponent) in
    let jIsDirect := bool_decide (ecc_effectiveComponent j = originalComponent) in
    if xorb iIsDirect jIsDirect then iIsDirect else false) candidates.

(** More turns than the longest chain of distinct components. *)
Definition candidateFuel (karta : Karta) : nat := S (S (length (ChildComponents karta))).

Fixpoint buildEffectiveComponentCandidates (s : StructureSummary) (groups : list PodGroupDefinition)
    (components : list ComponentDefinition) (table : gmap string (list effectiveComponentCandidate))
  : option (gmap string (list effectiveComponentCandidate)) :=
  match components with
  | [] => Some table
  | component :: components =>
      candidates ← findEffectiveComponentCandidates (S (candidateFuel (ss_karta s))) groups
                     (ss_parentMap s) (cd_Name component) [];
      buildEffectiveComponentCandidates s groups components
        (if bool_decide (0 < length candidates) then
           <[cd_Name component :=
               sortEffectiveComponentCandidatesByPriority candidates (cd_Name component)]> table
         else table)
  end.

Definition build (s : StructureSummary) : option StructureSummary :=
  let s := foldl add_component s (getAllComponents (ss_karta s)) in
  match GangScheduling (ss_karta s) with
  | None => Some s
  | Some gangScheduling =>
      table ← buildEffectiveComponentCandidates s (gs_PodGroups gangScheduling)
                (getAllComponents (ss_karta s)) ∅;
      Some (MkStructureSummary (ss_karta s) (ss_parentMap s) (ss_childrenMap s)
              (ss_componentDefinitionsByName s) (ss_leafComponents s) (ss_hasScaleDefinition s)
              (Some (MkGangSchedulingSummary table
                 (foldl (λ m group, <[pg_Name group := group]> m) ∅ (gs_PodGroups gangScheduling)))))
  end.

(** [build] reports no error of its own. *)
Definition NewStructureSummary (karta : option Karta) : option (result StructureSummary) :=
  match karta with
  | None => Some (Fail (Errorf "karta cannot be nil" [] []))
  | Some karta => Ok <$> build (empty_summary karta)
  end.
End build.

(** ** The tables *)

Lemma add_components_karta l s : ss_karta (foldl add_component s l) = ss_karta s.
Proof. revert s. induction l as [|d l IH]; intros s; [done|]. cbn. by rewrite IH. Qed.

Lemma add_components_gang l s :
  ss_gangSchedulingSummary (foldl add_component s l) = ss_gangSchedulingSummary s.
Proof. revert s. induction l as [|d l IH]; intros s; [done|]. cbn. by rewrite IH. Qed.

Lemma add_components_leaves l s :
  ss_leafComponents (foldl add_component s l) =
  ss_leafComponents s ++ (cd_Name <$> filter (λ d, hasPodDefinition d = true) l).
Proof.
  revert s. induction l as [|d l IH]; intros s; cbn [foldl]; [by rewrite app_nil_r|].
  rewrite IH, filter_cons. cbn. case_decide as Hd.
  - rewrite Hd. by rewrite <- app_assoc.
  - by destruct (hasPodDefinition d).
Qed.

Lemma add_components_scale l s :
  ss_hasScaleDefinition (foldl add_component s l) = true ↔
  ss_hasScaleDefinition s = true ∨ ∃ d, d ∈ l ∧ is_Some (cd_ScaleDefinition d).
Proof.
  revert s. induction l as [|d l IH]; intros s; cbn [foldl].
  - split; [by left|]. intros [|(? & ?%elem_of_nil & _)]; done.
  - rewrite IH. cbn. rewrite orb_true_iff, bool_decide_eq_true. setoid_rewrite elem_of_cons.
    naive_solver.
Qed.

Lemma add_components_children l s p :
  default [] (ss_childrenMap (foldl add_component s l) !! p) =
  default [] (ss_childrenMap s !! p) ++ (cd_Name <$> filter (owned_by p) l).
Proof.
  revert s. induction l as [|d l IH]; intros s; cbn [foldl]; [by rewrite app_nil_r|].
  rewrite IH, filter_cons. cbn [add_component ss_childrenMap].
  case_decide as Ho; unfold owned_by in Ho.
  - rewrite Ho, lookup_insert_eq. cbn. by rewrite <- app_assoc.
  - destruct (cd_OwnerRef d) as [q|]; [|done]. by rewrite lookup_insert_ne by congruence.
Qed.

Lemma add_components_definitions_notin l s n :
  n ∉ cd_Name <$> l →
  ss_componentDefinitionsByName (foldl add_component s l) !! n = ss_componentDefinitionsByName s !! n ∧
  ss_parentMap (foldl add_component s l) !! n = ss_parentMap s !! n.
Proof.
  revert s. induction l as [|d l IH]; intros s; [done|].
  rewrite fmap_cons, not_elem_of_cons. intros [Hne Hni]. cbn [foldl].
  destruct (IH (add_component s d) Hni) as [-> ->]. cbn. split; [by rewrite lookup_insert_ne|].
  destruct (cd_OwnerRef d); [by rewrite lookup_insert_ne|done].
Qed.

Lemma add_components_lookup l s d :
  NoDup (cd_Name <$> l) → (∀ n, ss_parentMap s !! n = None) → d ∈ l →
  ss_componentDefinitionsByName (foldl add_component s l) !! cd_Name d = Some d ∧
  ss_parentMap (foldl add_component s l) !! cd_Name d = cd_OwnerRef d.
Proof.
  intros Hnd Hs Hd.
  assert (Hgen : ∀ s, (∀ n, n ∈ cd_Name <$> l → ss_parentMap s !! n = None) →
    ss_componentDefinitionsByName (foldl add_component s l) !! cd_Name d = Some d ∧
    ss_parentMap (foldl add_component s l) !! cd_Name d = cd_OwnerRef d).
  { clear s Hs. induction l as [|d' l IH]; intros s Hs; [by apply elem_of_nil in Hd|].
    rewrite fmap_cons in Hnd, Hs. inversion Hnd as [|?? Hni Hnd']; subst. cbn [foldl].
    apply elem_of_cons in Hd as [<-|Hd].
    - destruct (add_components_definitions_notin l (add_component s d) (cd_Name d) Hni) as [-> ->].
      cbn. rewrite lookup_insert_eq. split; [done|].
      destruct (cd_OwnerRef d); [by rewrite lookup_insert_eq|]. apply Hs. by left.
    - apply IH; [done..|]. intros n Hn. cbn.
      assert (n ≠ cd_Name d') by (intros ->; done).
      destruct (cd_OwnerRef d'); [rewrite lookup_insert_ne by done|]; apply Hs; by right. }
  by apply Hgen.
Qed.

Lemma build_tables `{GoSort} s s' :
  build s = Some s' →
  let t := foldl add_component s (getAllComponents (ss_karta s)) in
  ss_karta s' = ss_karta s ∧ ss_parentMap s' = ss_parentMap t ∧
  ss_childrenMap s' = ss_childrenMap t ∧
  ss_componentDefinitionsByName s' = ss_componentDefinitionsByName t ∧
  ss_leafComponents s' = ss_leafComponents t ∧ ss_hasScaleDefinition s' = ss_hasScaleDefinition t.
Proof.
  intros E t. subst t. unfold build in E. rewrite !add_components_karta in E.
  destruct (GangScheduling (ss_karta s)).
  - apply bind_Some in E as (table & _ & [= <-]). cbn. by rewrite ?add_components_karta.
  - injection E as <-. by rewrite ?add_components_karta.
Qed.

(** ** Ownership chains *)

Section chains.
Context (k : Karta).

(** The chain of component names from a component up to the root. *)
Inductive owner_path : string → list string → Prop :=
  | path_root : owner_path (cd_Name (RootComponent k)) [cd_Name (RootComponent k)]
  | path_child c p l :
      c ∈ ChildComponents k → cd_OwnerRef c = Some p → owner_path p l →
      owner_path (cd_Name c) (cd_Name c :: l).

Lemma rooted_path n : rooted k n → ∃ l, owner_path n l.
Proof.
  induction 1 as [|c p Hc Hp _ [l Hl]]; eexists; [constructor|by eapply path_child].
Qed.

Lemma owner_path_head n l : owner_path n l → ∃ l', l = n :: l'.
Proof. destruct 1; eauto. Qed.

Lemma owner_path_names n l a : owner_path n l → a ∈ l → a ∈ component_names k.
Proof.
  unfold component_names, components. induction 1 as [|c p l Hc Hp _ IH]; intros Ha.
  - apply list_elem_of_singleton in Ha as ->. apply list_elem_of_fmap_2. set_solver.
  - apply elem_of_cons in Ha as [->|Ha]; [|by apply IH]. apply list_elem_of_fmap_2. set_solver.
Qed.

Context (Hwf : wf_structure k).

Lemma component_by_name c d :
  c ∈ components k → d ∈ components k → cd_Name c = cd_Name d → c = d.
Proof using Hwf.
  pose proof (wf_unique _ Hwf) as Hnd. unfold component_names in Hnd.
  intros (i & Hi)%list_elem_of_lookup (j & Hj)%list_elem_of_lookup E.
  assert (i = j) as <-; [|congruence].
  apply (NoDup_lookup _ _ _ (cd_Name c) Hnd); rewrite list_lookup_fmap.
  - by rewrite Hi.
  - by rewrite Hj, E.
Qed.

Lemma child_not_root c p :
  c ∈ ChildComponents k → cd_OwnerRef c = Some p → cd_Name c ≠ cd_Name (RootComponent k).
Proof using Hwf.
  intros Hc Hp E. apply component_by_name in E; [|unfold components; set_solver..].
  pose proof (wf_no_owner _ (wf_of_root _ Hwf)). congruence.
Qed.

Lemma owner_path_fun n l l' : owner_path n l → owner_path n l' → l = l'.
Proof using Hwf.
  intros Hl. revert l'. induction Hl as [|c p l Hc Hp _ IH]; intros l' Hl'.
  - inversion Hl' as [|c p l Hc Hp Hl E]; subst; [done|]. by destruct (child_not_root c p Hc Hp).
  - inversion Hl' as [E|c' p' l0 Hc' Hp' Hl0 E]; subst.
    + by destruct (child_not_root c p Hc Hp).
    + assert (c' = c) as -> by (apply component_by_name; [unfold components; set_solver..|done]).
      f_equal. apply IH. congruence.
Qed.

Lemma owner_path_suffix n l l1 a l2 : owner_path n l → l = l1 ++ a :: l2 → owner_path a (a :: l2).
Proof.
  intros Hl. revert l1. induction Hl as [|c p l Hc Hp Hl IH]; intros l1 E.
  - destruct l1 as [|? [|]]; simplify_eq/=. constructor.
  - destruct l1 as [|? l1]; simplify_eq/=; [by eapply path_child|]. by eapply IH.
Qed.

Lemma owner_path_NoDup n l : owner_path n l → NoDup l.
Proof using Hwf.
  induction 1 as [|c p l Hc Hp Hl IH]; [apply NoDup_singleton|].
  constructor; [|done]. intros (l1 & l2 & E)%list_elem_of_split.
  pose proof (owner_path_suffix _ _ _ _ _ Hl E) as Hs.
  assert (Hfull : owner_path (cd_Name c) (cd_Name c :: l)) by by eapply path_child.
  pose proof (owner_path_fun _ _ _ Hs Hfull) as E'. injection E' as E'.
  apply (f_equal length) in E'. rewrite E, length_app in E'. cbn in E'. lia.
Qed.

Lemma owner_path_length n l : owner_path n l → length l ≤ S (length (ChildComponents k)).
Proof using Hwf.
  intros Hl. assert (Hle : length l ≤ length (component_names k)).
  { apply submseteq_length, NoDup_submseteq; [by eapply owner_path_NoDup|].
    intros a. by eapply owner_path_names. }
  unfold component_names, components in Hle. rewrite length_fmap, length_app in Hle. cbn in Hle. lia.
Qed.

(** *** The walk to the ancestors *)

Context (s : StructureSummary) (groups : list PodGroupDefinition).
Context (Hparent : ∀ d, d ∈ components k → ss_parentMap s !! cd_Name d = cd_OwnerRef d).

Lemma find_along_path n l fuel acc :
  owner_path n l → S (length l) < S fuel →
  findEffectiveComponentCandidates fuel groups (ss_parentMap s) n acc =
  Some (acc ++ (l ≫= mentions groups)).
Proof using Hwf Hparent.
  intros Hl. revert fuel acc. induction Hl as [|c p l Hc Hp Hl IH]; intros fuel acc Hfuel.
  - destruct fuel as [|[|fuel]]; cbn in Hfuel; [lia..|]. cbn.
    rewrite bool_decide_false by apply (wf_name _ (wf_root_component _ (wf_of_root _ Hwf))).
    rewrite Hparent by (unfold components; set_solver).
    rewrite (wf_no_owner _ (wf_of_root _ Hwf)). cbn. by rewrite app_nil_r.
  - destruct fuel as [|fuel]; cbn in Hfuel; [lia|]. cbn [findEffectiveComponentCandidates].
    destruct (wf_children _ Hwf c Hc) as [Hcomp _].
    rewrite bool_decide_false by apply (wf_name _ Hcomp).
    rewrite Hparent by (unfold components; set_solver). rewrite Hp. cbn [default].
    rewrite IH by lia. cbn [mbind list_bind]. by rewrite <- app_assoc.
Qed.
End chains.

(** ** The candidates of a well-formed Karta *)

Lemma names_all k n : n ∈ component_names k ↔ ∃ d, d ∈ getAllComponents k ∧ cd_Name d = n.
Proof.
  unfold component_names, components, getAllComponents. rewrite list_elem_of_fmap.
  setoid_rewrite elem_of_app. setoid_rewrite elem_of_cons. setoid_rewrite elem_of_nil. naive_solver.
Qed.

Lemma all_components k d : d ∈ getAllComponents k ↔ d ∈ components k.
Proof. unfold getAllComponents, components. set_solver. Qed.

Section candidates.
Context `{GoSort} (k : Karta) (Hwf : wf_structure k).

Lemma all_NoDup : NoDup (cd_Name <$> getAllComponents k).
Proof using Hwf.
  pose proof (wf_unique _ Hwf) as Hnd. unfold component_names, components in Hnd.
  unfold getAllComponents. rewrite fmap_app in Hnd. cbn in *.
  by rewrite Permutation_app_comm in Hnd.
Qed.

Lemma named_rooted n : n ∈ component_names k → rooted k n.
Proof using Hwf.
  intros (d & [->|Hd]%elem_of_cons & <-)%names_all; [constructor|by apply Hwf].
Qed.

(** A sorted candidate list: the direct mentions, then the others. *)
Definition ranked (n : string) (all l : list effectiveComponentCandidate) : Prop :=
  l ≡ₚ all ∧ ∃ direct rest, l = direct ++ rest ∧
    Forall (λ c, ecc_effectiveComponent c = n) direct ∧
    Forall (λ c, ecc_effectiveComponent c ≠ n) rest.

Lemma sort_ranked n all : ranked n all (sortEffectiveComponentCandidatesByPriority all n).
Proof.
  split; [apply sort_Slice_Permutation|].
  pose (first c := bool_decide (ecc_effectiveComponent c = n)).
  unfold sortEffectiveComponentCandidatesByPriority.
  match goal with |- context [sort_Slice ?f all] => set (less := f) end.
  assert (Heq : ∀ x y, less x y = first_less first x y).
  { intros x y. unfold less, first_less, first. by do 2 case_bool_decide. }
  assert (Hs : sorted_by (first_less first) (sort_Slice less all)).
  { assert (Hw : strict_weak less).
    { destruct (first_less_strict_weak first) as [H1 H2 H3].
      split; intros *; rewrite !Heq; eauto. }
    pose proof (sort_Slice_sorted less all Hw) as Hl. unfold sorted_by in *.
    induction Hl as [|x l Hl IH Hx]; constructor; [done|].
    eapply Forall_impl; [exact Hx|]. cbn. intros y. by rewrite Heq. }
  apply sorted_by_first in Hs as (l1 & l2 & -> & H1 & H2). exists l1, l2. split_and!; [done| |].
  - eapply Forall_impl; [exact H1|]. cbn. unfold first. by intros c ?%bool_decide_eq_true.
  - eapply Forall_impl; [exact H2|]. cbn. unfold first. by intros c ?%bool_decide_eq_false.
Qed.

Context (s : StructureSummary) (Hk : ss_karta s = k) (groups : list PodGroupDefinition).
Context (Hparent : ∀ d, d ∈ components k → ss_parentMap s !! cd_Name d = cd_OwnerRef d).

Lemma find_candidates n :
  n ∈ component_names k →
  ∃ chain, owner_path k n chain ∧
    findEffectiveComponentCandidates (S (candidateFuel k)) groups (ss_parentMap s) n [] =
    Some (chain ≫= mentions groups).
Proof using Hwf Hparent.
  intros Hn. destruct (rooted_path k n (named_rooted n Hn)) as [chain Hchain].
  exists chain. split; [done|]. rewrite (find_along_path k Hwf s groups Hparent n chain); [done..|].
  pose proof (owner_path_length k Hwf n chain Hchain). unfold candidateFuel. lia.
Qed.

Lemma build_candidates l table0 :
  NoDup (cd_Name <$> l) → (∀ d, d ∈ l → d ∈ components k) →
  ∃ table, buildEffectiveComponentCandidates s groups l table0 = Some table ∧
    (∀ n, n ∉ cd_Name <$> l → table !! n = table0 !! n) ∧
    ∀ n, n ∈ cd_Name <$> l → table0 !! n = None →
      ∃ chain, owner_path k n chain ∧
        ranked n (chain ≫= mentions groups) (default [] (table !! n)).
Proof using Hwf Hk Hparent.
  revert table0. induction l as [|d l IH]; intros table0 Hnd Hl.
  - exists table0. split_and!; [done..|]. by intros n ?%elem_of_nil.
  - rewrite fmap_cons in Hnd |- *. inversion Hnd as [|?? Hni Hnd']; subst x l0.
    assert (Hd : cd_Name d ∈ component_names k) by (apply list_elem_of_fmap_2, Hl; by left).
    destruct (find_candidates (cd_Name d) Hd) as (chain & Hchain & Hfind).
    cbn [buildEffectiveComponentCandidates]. rewrite Hk, Hfind. cbn [mbind option_bind].
    set (cands := chain ≫= mentions groups) in *.
    set (table1 := if bool_decide (0 < length cands) then _ else _).
    assert (Hd1 : default [] (table1 !! cd_Name d) = default [] (table0 !! cd_Name d) ∧ cands = [] ∨
                  table1 !! cd_Name d = Some (sortEffectiveComponentCandidatesByPriority cands (cd_Name d))).
    { unfold table1. case_bool_decide as Hlen; [right; by rewrite lookup_insert_eq|left].
      split; [done|]. destruct cands; [done|cbn in Hlen; lia]. }
    assert (Hother : ∀ n, n ≠ cd_Name d → table1 !! n = table0 !! n).
    { intros n Hne. unfold table1. case_bool_decide; [by rewrite lookup_insert_ne|done]. }
    destruct (IH table1 Hnd') as (table & E & Hout & Hin); [intros; apply Hl; by right|].
    exists table. split; [done|]. setoid_rewrite not_elem_of_cons. setoid_rewrite elem_of_cons. split.
    + intros n [Hne Hn]. by rewrite Hout, Hother.
    + intros n Hn Hnone. destruct (decide (n = cd_Name d)) as [->|Hne].
      * exists chain. split; [done|]. rewrite Hout by done. fold cands.
        destruct Hd1 as [[-> ->]| ->]; [rewrite Hnone|apply sort_ranked].
        split; [done|]. by exists [], [].
      * destruct Hn as [|Hn]; [done|]. apply Hin; [done|]. by rewrite Hother.
Qed.
End candidates.

(** On every well-formed Karta the summary is built, and the gang
    scheduling candidates of a component are all the mentions, in any pod
    group, of the component and of its ancestors up to the root, each once per
    mention, with the mentions of the component itself in front. *)
Theorem NewStructureSummary_candidates `{GoSort} k gs :
  wf_structure k → GangScheduling k = Some gs →
  ∃ s g, NewStructureSummary (Some k) = Some (Ok s) ∧ ss_gangSchedulingSummary s = Some g ∧
    ∀ n, n ∈ component_names k → ∃ chain, owner_path k n chain ∧
      ranked n (chain ≫= mentions (gs_PodGroups gs))
        (default [] (gss_effectiveComponentCandidates g !! n)).
Proof.
  intros Hwf Hgs. unfold NewStructureSummary, build. rewrite add_components_karta. cbn [ss_karta empty_summary].
  rewrite Hgs. set (t := foldl add_component (empty_summary k) (getAllComponents k)).
  assert (Hparent : ∀ d, d ∈ components k → ss_parentMap t !! cd_Name d = cd_OwnerRef d).
  { intros d Hd. apply (add_components_lookup (getAllComponents k) (empty_summary k));
      [by apply all_NoDup|done|by apply all_components]. }
  destruct (build_candidates k Hwf t (add_components_karta _ _) (gs_PodGroups gs) Hparent
              (getAllComponents k) ∅) as (table & -> & _ & Hin).
  - by apply all_NoDup.
  - intros d. apply all_components.
  - eexists _, _. split; [reflexivity|]. split; [reflexivity|]. cbn.
    intros n (d & Hd & <-)%names_all. apply Hin; [by apply list_elem_of_fmap_2|done].
Qed.

(** The summary and the component factory of a well-formed Karta describe
    the same structure: the same children under every parent, the same
    definitions, and as leaves exactly the components with pods, in order. *)
Theorem NewStructureSummary_tables `{GoSort} k s :
  wf_structure k → NewStructureSummary (Some k) = Some (Ok s) →
  (∀ p, GetChildComponentsOf (NewComponentFactory k) p =
        mapR (get_child (NewComponentFactory k)) (default [] (ss_childrenMap s !! p))) ∧
  (∀ d, d ∈ components k →
     ss_componentDefinitionsByName s !! cd_Name d = Some d ∧
     ss_parentMap s !! cd_Name d = cd_OwnerRef d) ∧
  ss_leafComponents s = cd_Name <$> filter (λ d, hasPodDefinition d = true) (getAllComponents k) ∧
  (ss_hasScaleDefinition s = true ↔ ∃ d, d ∈ components k ∧ is_Some (cd_ScaleDefinition d)).
Proof.
  intros Hwf Hs. unfold NewStructureSummary in Hs. apply fmap_Some in Hs as (s' & Hb & [= <-]).
  apply build_tables in Hb as (_ & Hp & Hc & Hd & Hl & Hsc). cbn [ss_karta empty_summary] in *.
  rewrite Hp, Hc, Hd, Hl, Hsc. split_and!.
  - intros p. unfold GetChildComponentsOf. destruct (factory_tables k) as (_ & _ & ->).
    rewrite add_definitions_children, add_components_children. cbn [empty_summary fst snd ss_childrenMap].
    do 2 f_equal. unfold components, getAllComponents.
    assert (Hroot : ¬ owned_by p (RootComponent k)).
    { unfold owned_by. rewrite (wf_no_owner _ (wf_of_root _ Hwf)). done. }
    by rewrite filter_app, !filter_cons_False, filter_nil, app_nil_r by done.
  - intros d Hd'. apply add_components_lookup; [by apply all_NoDup|done|by apply all_components].
  - by rewrite add_components_leaves.
  - rewrite add_components_scale. cbn. setoid_rewrite all_components. naive_solver.
Qed.

Lemma NewStructureSummary_candidates_witness :
  ∃ gs, GangScheduling sample_karta = Some gs ∧
  ∃ s g, NewStructureSummary (H:=insertion_GoSort) (Some sample_karta) = Some (Ok s) ∧
    ss_gangSchedulingSummary s = Some g ∧
    ∀ n, n ∈ component_names sample_karta → ∃ chain, owner_path sample_karta n chain ∧
      ranked n (chain ≫= mentions (gs_PodGroups gs))
        (default [] (gss_effectiveComponentCandidates g !! n)).
Proof.
  eexists. split; [reflexivity|].
  apply (NewStructureSummary_candidates (H:=insertion_GoSort) sample_karta _ sample_wf). reflexivity.
Defined.

Lemma NewStructureSummary_tables_witness :
  ∃ s, NewStructureSummary (H:=insertion_GoSort) (Some sample_karta) = Some (Ok s) ∧
    ss_leafComponents s =
      cd_Name <$> filter (λ d, hasPodDefinition d = true) (getAllComponents sample_karta).
Proof.
  eexists. split; [vm_compute; reflexivity|].
  apply (NewStructureSummary_tables (H:=insertion_GoSort) sample_karta _ sample_wf).
  vm_compute. reflexivity.
Defined.
