(* ===== verification/Gang.v ===== *)
(** * Gang: gang scheduling of pods and subtree scale

    Models [karta/sdk/pkg/instructions/gang_scheduling.go] and [pod.go].  The
    recursive scale computations run over the child table of the summary with
    fuel; on a well-formed structure the fuel given is never used up.  Sums and
    products are those of 32-bit integers, wrap-around included. *)

From S2P Require Import Prelude Api JqValidate Validator Value Runner Accessor Component.
From S2P Require Import PodQuerier Sort Summary.

(** ** Two states side by side: the workload object and the pod *)

Definition on_fst {S T A} (m : M S A) : M (S * T) A := λ '(s, t),
  match m s with (r, s') => (r, (s', t)) end.

Definition on_snd {S T A} (m : M T A) : M (S * T) A := λ '(s, t),
  match m t with (r, t') => (r, (s, t')) end.

(** ** The effective component of a pod *)

Record PodGroupingEffectiveComponent := MkPodGroupingEffectiveComponent {
  pge_EffectiveComponent : string;
  pge_PodGroupName : string;
  pge_MemberDefinition : PodGroupMemberDefinition;
}.

Definition effective_of (candidate : effectiveComponentCandidate) : PodGroupingEffectiveComponent :=
  MkPodGroupingEffectiveComponent (ecc_effectiveComponent candidate) (ecc_podGroupName candidate)
    (ecc_member candidate).

Section pods.
Context {R : Type} `{Runner R} (other : value → string) (podName : string).

(** The loop over the candidates. *)
Fixpoint first_candidate (candidates : list effectiveComponentCandidate)
  : M R (option PodGroupingEffectiveComponent) :=
  match candidates with
  | [] => mret None
  | candidate :: candidates =>
      if bool_decide (pm_Filters (ecc_member candidate) = []) then mret (Some (effective_of candidate))
      else
        passed ← wrap (λ err, Errorf "failed to evaluate filters for component %s in group %s: %w"
                                [AStr (ecc_effectiveComponent candidate);
                                 AStr (ecc_podGroupName candidate)] [err])
                   (PassesFilters (pm_Filters (ecc_member candidate)));
        if (passed : bool) then mret (Some (effective_of candidate)) else first_candidate candidates
  end.

Definition getEffectiveComponentForPod (componentName : string) (summary : StructureSummary)
  : M R (option PodGroupingEffectiveComponent) :=
  match ss_gangSchedulingSummary summary with
  | None => mret None
  | Some g =>
      match gss_effectiveComponentCandidates g !! componentName with
      | None | Some [] => mret None
      | Some candidates => first_candidate candidates
      end
  end.

Definition GetPodGroupingEffectiveComponent (podComponentName : string) (summary : StructureSummary)
  : M R (option PodGroupingEffectiveComponent) :=
  getEffectiveComponentForPod podComponentName summary.

(** The selector loop of [InferPodComponent]. *)
Fixpoint first_selected (summary : StructureSummary) (leaves : list string) : M R string :=
  match leaves with
  | [] => fail (Errorf "no component found for pod %s" [AStr podName] [])
  | componentName :: leaves =>
      let leafDefinition := default zero_component
                              (ss_componentDefinitionsByName summary !! componentName) in
      match cd_PodSelector leafDefinition with
      | None => first_selected summary leaves
      | Some selector =>
          matches ← wrap (λ err, Errorf "failed to check if pod matches component %s: %w"
                                   [AStr componentName] [err])
                      (MatchesComponentType (ps_ComponentTypeSelector selector));
          if (matches : bool) then mret componentName else first_selected summary leaves
      end
  end.

Definition InferPodComponent (summary : StructureSummary) : M R string :=
  match ss_leafComponents summary with
  | [leaf] => mret leaf
  | leaves => first_selected summary leaves
  end.
End pods.

Section pod_instance.
Context `{K8s} {S : Type} `{!ComponentAccessor S} {R : Type} `{Runner R} (other : value → string).

Definition InferPodComponentInstance (componentName : string) (factory : ComponentFactory)
  : M (S * R) (option string) :=
  component ← lift (GetComponent factory componentName);
  instanceIds ← on_fst (GetInstanceIds component);
  match instanceIds, GetPodSelector component with
  | id :: _, Some selector =>
      if bool_decide (id = "") then mret None
      else
        podComponentInstanceName ←
          on_snd (GetMatchingInstanceId other (ps_ComponentInstanceSelector selector) instanceIds);
        mret (if bool_decide (podComponentInstanceName = "") then None
              else Some podComponentInstanceName)
  | _, _ => mret None
  end.
End pod_instance.

(** ** Subtree scale *)

Record SubtreeRoot := MkSubtreeRoot {
  sr_ComponentName : string;
  sr_InstanceId : option string;
}.

Definition getEffectiveMinReplicas (scale : Scale) : Z :=
  match scale_MinReplicas scale with
  | Some n => if (0 <? n)%Z then n else
              match scale_Replicas scale with
              | Some n => if (0 <? n)%Z then n else 0%Z
              | None => 0%Z
              end
  | None => match scale_Replicas scale with
            | Some n => if (0 <? n)%Z then n else 0%Z
            | None => 0%Z
            end
  end.

Definition out_of_fuel : error := External "diverges: the owner references form a cycle".

(** [for ... { sum += x }] on [int32]. *)
Definition sum32 (l : list Z) : Z := foldl (λ acc x, wrap32 (acc + x)) 0%Z l.

Section scale.
Context `{K8s} {S : Type} `{!ComponentAccessor S}.
Context (factory : ComponentFactory) (summary : StructureSummary).

Definition instance_not_found (instanceId : string) : error :=
  Errorf "instance id %s not found" [AStr instanceId] [].

(** The scale of the component alone. *)
Definition own_scale (scales : option (gmap string Scale)) (currentComponentName : string)
    (subtreeRoot : SubtreeRoot) : result Z :=
  let sum := sum32 ((λ p, getEffectiveMinReplicas p.2) <$> map_to_list (default ∅ scales)) in
  match sr_InstanceId subtreeRoot with
  | Some instanceId =>
      if bool_decide (sr_ComponentName subtreeRoot = currentComponentName) then
        match default ∅ scales !! instanceId with
        | Some instanceScale => Ok (getEffectiveMinReplicas instanceScale)
        | None => Fail (instance_not_found instanceId)
        end
      else Ok sum
  | None => Ok sum
  end.

Definition combine_scale (currentComponentScale childrenSum : Z) : Z :=
  if (childrenSum =? 0)%Z then currentComponentScale
  else if (currentComponentScale =? 0)%Z then childrenSum
  else wrap32 (currentComponentScale * childrenSum).

Fixpoint calculateSubtreeScaleByDefinition (fuel : nat) (currentComponentName : string)
    (subtreeRoot : SubtreeRoot) : M S Z :=
  match fuel with
  | O => fail out_of_fuel
  | Datatypes.S fuel =>
      component ← lift (GetComponent factory currentComponentName);
      outcome ← attempt (GetScale component);
      scales ← match outcome with
               | Ok scales => mret scales
               | Fail err => if isDefinitionNotFoundError err then mret None else fail err
               end;
      currentComponentScale ← lift (own_scale scales currentComponentName subtreeRoot);
      match default [] (ss_childrenMap summary !! currentComponentName) with
      | [] => mret currentComponentScale
      | children =>
          childScales ← mapM (λ child, calculateSubtreeScaleByDefinition fuel child subtreeRoot) children;
          mret (combine_scale currentComponentScale (sum32 childScales))
      end
  end.

Fixpoint calculateSubtreeScaleByLeaves (fuel : nat) (currentComponentName : string)
    (subtreeRoot : SubtreeRoot) : M S Z :=
  match fuel with
  | O => fail out_of_fuel
  | Datatypes.S fuel =>
      component ← lift (GetComponent factory currentComponentName);
      if bool_decide (comp_name component ∈ ss_leafComponents summary) then
        if negb (HasInstanceIdDefinition component) then mret 1%Z
        else
          instanceIds ← GetInstanceIds component;
          match sr_InstanceId subtreeRoot with
          | Some instanceId =>
              if bool_decide (currentComponentName = sr_ComponentName subtreeRoot) then
                if bool_decide (instanceId ∈ instanceIds) then mret 1%Z
                else fail (instance_not_found instanceId)
              else mret (wrap32 (Z.of_nat (length instanceIds)))
          | None => mret (wrap32 (Z.of_nat (length instanceIds)))
          end
      else
        childLeafCounts ← mapM (λ child, calculateSubtreeScaleByLeaves fuel child subtreeRoot)
                            (default [] (ss_childrenMap summary !! currentComponentName));
        mret (sum32 childLeafCounts)
  end.

Definition scaleFuel : nat := Datatypes.S (Datatypes.S (length (ChildComponents (ss_karta summary)))).

Definition CalculateSubtreeScale (componentName : string) (instanceId : option string) : M S Z :=
  if bool_decide (instanceId = Some "") then fail (Errorf "instance id is empty" [] [])
  else
    let subtreeRoot := MkSubtreeRoot componentName instanceId in
    if ss_hasScaleDefinition summary then
      calculateSubtreeScaleByDefinition scaleFuel componentName subtreeRoot
    else calculateSubtreeScaleByLeaves scaleFuel componentName subtreeRoot.
End scale.

(** ** Exact scale *)

Fixpoint Zsum (l : list Z) : Z := match l with [] => 0%Z | z :: l => (z + Zsum l)%Z end.

Definition combine_exact (own children : Z) : Z :=
  if (children =? 0)%Z then own else if (own =? 0)%Z then children else (own * children)%Z.

Section arithmetic.
Local Open Scope Z_scope.

Lemma Zsum_nonneg l : Forall (λ z, 0 ≤ z) l → 0 ≤ Zsum l.
Proof. induction 1; cbn in *; lia. Qed.

Lemma Zsum_member l z : Forall (λ z, 0 ≤ z) l → z ∈ l → z ≤ Zsum l.
Proof.
  induction 1 as [|x l Hx Hl IH]; [by intros ?%elem_of_nil|]. pose proof (Zsum_nonneg l Hl).
  intros [->|Hz]%elem_of_cons; cbn in *; [lia|]. specialize (IH Hz). lia.
Qed.

(** 32-bit sums of non-negative numbers are exact below the limit. *)
Lemma sum32_exact l : Forall (λ z, 0 ≤ z) l → Zsum l ≤ int32_max → sum32 l = Zsum l.
Proof.
  unfold sum32. intros Hl Hmax.
  assert (Hgen : ∀ acc, 0 ≤ acc → acc + Zsum l ≤ int32_max →
            foldl (λ acc x, wrap32 (acc + x)) acc l = acc + Zsum l).
  { clear Hmax. induction Hl as [|x l Hx Hl IH]; intros acc Hacc Hmax; cbn in *; [lia|].
    pose proof (Zsum_nonneg l Hl). rewrite wrap32_id by (unfold int32_min; lia).
    rewrite IH by lia. lia. }
  rewrite Hgen by lia. lia.
Qed.

Lemma combine_exact_bounds o s :
  0 ≤ o → 0 ≤ s → 0 ≤ combine_exact o s ∧ o ≤ combine_exact o s ∧
    (0 < s → s ≤ combine_exact o s).
Proof.
  intros Ho Hs. unfold combine_exact. destruct (Z.eqb_spec s 0), (Z.eqb_spec o 0); nia.
Qed.

Lemma combine_scale_exact o s :
  0 ≤ o → 0 ≤ s → combine_exact o s ≤ int32_max → combine_scale o s = combine_exact o s.
Proof.
  intros Ho Hs. unfold combine_scale, combine_exact.
  destruct (Z.eqb_spec s 0), (Z.eqb_spec o 0); try done.
  intros Hmax. apply wrap32_id. unfold int32_min. nia.
Qed.

Lemma getEffectiveMinReplicas_nonneg sc : 0 ≤ getEffectiveMinReplicas sc.
Proof.
  unfold getEffectiveMinReplicas.
  destruct (scale_MinReplicas sc), (scale_Replicas sc); repeat case_match; lia.
Qed.
End arithmetic.

(** The number a 32-bit computation is meant to give, or its failure: a failure is
    the same, a number is the same as long as it fits. *)
Definition agrees (exact computed : result Z) : Prop :=
  match exact with
  | Fail err => computed = Fail err
  | Ok z => (0 ≤ z)%Z ∧ ∃ n, computed = Ok n ∧ ((z ≤ int32_max)%Z → n = z)
  end.

Lemma agrees_refl n : (0 ≤ n)%Z → agrees (Ok n) (Ok n).
Proof. intros Hn. split; [done|]. by exists n. Qed.

Lemma agrees_Fail err : agrees (Fail err) (Fail err).
Proof. done. Qed.

Lemma agrees_sum32 l : Forall (λ z, (0 ≤ z)%Z) l → agrees (Ok (Zsum l)) (Ok (sum32 l)).
Proof. intros Hl. split; [by apply Zsum_nonneg|]. eexists. split; [done|]. by apply sum32_exact. Qed.

Lemma agrees_wrap32 z : (0 ≤ z)%Z → agrees (Ok z) (Ok (wrap32 z)).
Proof.
  intros Hz. split; [done|]. eexists. split; [done|]. intros Hmax. apply wrap32_id. unfold int32_min. lia.
Qed.

(** The list of numbers of a list of computations. *)
Definition agrees_list (zs : result (list Z)) (ns : result (list Z)) : Prop :=
  match zs with
  | Fail err => ns = Fail err
  | Ok zs => Forall (λ z, (0 ≤ z)%Z) zs ∧ ∃ ns', ns = Ok ns' ∧ Forall2 (λ z n, (z ≤ int32_max)%Z → n = z) zs ns'
  end.

Lemma agrees_mapR {A} (exact computed : A → result Z) l :
  (∀ x, x ∈ l → agrees (exact x) (computed x)) → agrees_list (mapR exact l) (mapR computed l).
Proof.
  induction l as [|x l IH]; intros Hl; cbn [mapR]; [split; [constructor|exists []; by split]|].
  pose proof (Hl x ltac:(by left)) as Hx. specialize (IH ltac:(intros; apply Hl; by right)).
  destruct (exact x) as [z|err]; [|by rewrite Hx]. destruct Hx as (Hz & n & -> & Hn).
  destruct (mapR exact l) as [zs|err]; [|by rewrite IH]. destruct IH as (Hzs & ns & -> & Hns).
  split; [by constructor|]. exists (n :: ns). split; [done|by constructor].
Qed.

(** The sum of numbers that agree where they fit. *)
Lemma agrees_sum zs ns :
  Forall (λ z, (0 ≤ z)%Z) zs → Forall2 (λ z n, (z ≤ int32_max)%Z → n = z) zs ns →
  (Zsum zs ≤ int32_max)%Z → sum32 ns = Zsum zs.
Proof.
  intros Hzs Hns Hmax. assert (ns = zs) as ->; [|by apply sum32_exact].
  revert Hmax. induction Hns as [|z n zs ns Hz Hns IH]; [done|]. cbn. intros Hmax.
  apply Forall_cons in Hzs as [Hz0 Hzs]. pose proof (Zsum_nonneg zs Hzs). rewrite Hz, IH by (done || lia). done.
Qed.

Lemma mapR_fmap {A B C} (g : A → B) (f : B → result C) l : mapR f (g <$> l) = mapR (f ∘ g) l.
Proof. induction l as [|x l IH]; [done|]. cbn [fmap list_fmap mapR compose]. by rewrite <- IH. Qed.

Lemma mapR_ext {A B} (f g : A → result B) l : (∀ x, x ∈ l → f x = g x) → mapR f l = mapR g l.
Proof.
  induction l as [|x l IH]; intros Hl; [done|]. cbn [mapR].
  rewrite (Hl x) by (by left). rewrite IH; [done|]. intros y Hy. apply Hl. by right.
Qed.

Section exact_scale.
Context `{K8s} {S : Type} `{!ComponentAccessor S} `{Equiv S} `{!ComponentAccessorLaws S} `{GoSort}.
Context (k : Karta) (s : S).

(** The scale of the instances of a component, or of one of them. *)
Definition instance_scale (scales : gmap string Scale) (instance : option string) : result Z :=
  match instance with
  | Some id => match scales !! id with
               | Some scale => Ok (getEffectiveMinReplicas scale)
               | None => Fail (instance_not_found id)
               end
  | None => Ok (Zsum ((λ p, getEffectiveMinReplicas p.2) <$> map_to_list scales))
  end.

(** A component's own scale; one without a definition has no instances. *)
Definition own_exact (d : ComponentDefinition) (instance : option string) : result Z :=
  match run (GetScale (component_of d)) s with
  | Ok scales => instance_scale (default ∅ scales) instance
  | Fail err => if isDefinitionNotFoundError err then instance_scale ∅ instance else Fail err
  end.

(** The leaves of a component that bears pods: its instances. *)
Definition own_leaves (d : ComponentDefinition) (instance : option string) : result Z :=
  if HasInstanceIdDefinition (component_of d) then
    match run (GetInstanceIds (component_of d)) s with
    | Fail err => Fail err
    | Ok ids =>
        match instance with
        | Some id => if bool_decide (id ∈ ids) then Ok 1%Z else Fail (instance_not_found id)
        | None => Ok (Z.of_nat (length ids))
        end
    end
  else Ok 1%Z.

(** Some component says how it is scaled. *)
Definition structure_scaled : bool :=
  existsb (λ d, bool_decide (is_Some (cd_ScaleDefinition d))) (components k).

(** The components directly under one, in the order the summary lists them. *)
Definition children_of (d : ComponentDefinition) : list ComponentDefinition :=
  filter (owned_by (cd_Name d)) (getAllComponents k).

(** The scale of a subtree, of one instance of its root or of all: where scales
    are defined, the product of the root's own and its children's together, and
    whichever is given if one is not; where none is, the number of leaves. *)
Definition subtree_scale_of (below : ComponentDefinition → result Z) (d : ComponentDefinition)
    (instance : option string) : result Z :=
  if structure_scaled then
    own ← own_exact d instance; scales ← mapR below (children_of d); Ok (combine_exact own (Zsum scales))
  else if hasPodDefinition d then own_leaves d instance
  else counts ← mapR below (children_of d); Ok (Zsum counts).

Fixpoint exact_scale (fuel : nat) (d : ComponentDefinition) (instance : option string) : result Z :=
  match fuel with
  | O => Fail out_of_fuel
  | Datatypes.S fuel => subtree_scale_of (λ child, exact_scale fuel child None) d instance
  end.

Context (Hwf : wf_structure k).
Context (summary : StructureSummary) (Hsum : NewStructureSummary (Some k) = Some (Ok summary)).

Lemma summary_tables :
  ss_karta summary = k ∧ ss_hasScaleDefinition summary = structure_scaled ∧
  ss_leafComponents summary = cd_Name <$> filter (λ d, hasPodDefinition d = true) (getAllComponents k) ∧
  ∀ d, default [] (ss_childrenMap summary !! cd_Name d) = cd_Name <$> children_of d.
Proof using Hwf Hsum.
  unfold NewStructureSummary in Hsum. apply fmap_Some in Hsum as (s' & Hb & [= <-]).
  apply build_tables in Hb as (Hk & _ & Hc & _ & Hl & Hs). split_and!.
  - done.
  - rewrite Hs. apply eq_bool_prop_intro. rewrite !Is_true_true, add_components_scale.
    unfold structure_scaled. rewrite existsb_exists. cbn [ss_hasScaleDefinition].
    setoid_rewrite bool_decide_eq_true. setoid_rewrite <- list_elem_of_In.
    split; [intros [|(d & ?%all_components & ?)]; [done|by exists d]|].
    intros (d & ?%all_components & ?). right. by exists d.
  - by rewrite Hl, add_components_leaves.
  - intros d. rewrite Hc. rewrite add_components_children. done.
Qed.

Lemma leaf_iff d : d ∈ components k → cd_Name d ∈ ss_leafComponents summary ↔ hasPodDefinition d = true.
Proof using Hwf Hsum.
  intros Hd. destruct summary_tables as (_ & _ & -> & _). split.
  - intros (d' & En & [Hp Hd'%all_components]%list_elem_of_filter)%list_elem_of_fmap.
    pose proof (GetComponent_of k (wf_unique _ Hwf) d Hd) as E.
    rewrite En, (GetComponent_of k (wf_unique _ Hwf) d' Hd') in E. by injection E as _ <-.
  - intros Hp. apply list_elem_of_fmap_2, list_elem_of_filter. split; [done|by apply all_components].
Qed.

(** Going down to a child lengthens the chain to the root. *)
Lemma child_path d l c : owner_path k (cd_Name d) l → c ∈ children_of d → owner_path k (cd_Name c) (cd_Name c :: l).
Proof using Hwf.
  intros Hl [Ho Hc]%list_elem_of_filter. unfold owned_by in Ho.
  apply elem_of_cons in Hc as [->|Hc]; [|by eapply path_child].
  by rewrite (wf_no_owner _ (wf_of_root _ Hwf)) in Ho.
Qed.

Lemma child_component d c : c ∈ children_of d → c ∈ components k.
Proof. intros [_ Hc]%list_elem_of_filter. by apply all_components. Qed.

Definition enough (fuel : nat) (l : list string) : Prop :=
  Datatypes.S (length (ChildComponents k)) < fuel + length l.

Lemma enough_pos n l fuel : owner_path k n l → enough fuel l → ∃ fuel', fuel = Datatypes.S fuel'.
Proof using Hwf.
  intros Hl He. destruct fuel as [|fuel]; [|by exists fuel].
  apply owner_path_length in Hl; [|done]. unfold enough in He. lia.
Qed.

Lemma exact_scale_fuel fuel fuel' d l instance :
  owner_path k (cd_Name d) l → enough fuel l → enough fuel' l →
  exact_scale fuel d instance = exact_scale fuel' d instance.
Proof using Hwf.
  revert fuel' d l instance. induction fuel as [|fuel IH]; intros fuel' d l instance Hl He He'.
  { by destruct (enough_pos _ l 0 Hl He). }
  destruct (enough_pos _ l fuel' Hl He') as [f ->]. cbn. unfold subtree_scale_of.
  rewrite (mapR_ext (λ child, exact_scale fuel child None) (λ child, exact_scale f child None)); [done|].
  intros c Hc. apply (IH f c (cd_Name c :: l)); [by eapply child_path|unfold enough in *; cbn; lia..].
Qed.

Lemma calculate_readonly f root fuel n :
  readonly (R:=S) (calculateSubtreeScaleByDefinition f summary fuel n root).
Proof.
  revert n. induction fuel as [|fuel IH]; intros n; cbn [calculateSubtreeScaleByDefinition];
    [apply readonly_fail|].
  pose proof GetScale_readonly. solve_readonly.
Qed.

Lemma leaves_readonly f root fuel n :
  readonly (R:=S) (calculateSubtreeScaleByLeaves f summary fuel n root).
Proof.
  revert n. induction fuel as [|fuel IH]; intros n; cbn [calculateSubtreeScaleByLeaves];
    [apply readonly_fail|].
  pose proof GetInstanceIds_readonly. solve_readonly.
Qed.
#[local] Hint Resolve calculate_readonly leaves_readonly GetScale_readonly GetInstanceIds_readonly : readonly.

(** The instance asked for concerns the root of the subtree only. *)
Definition instance_at (root : SubtreeRoot) (d : ComponentDefinition) : option string :=
  if bool_decide (sr_ComponentName root = cd_Name d) then sr_InstanceId root else None.

Lemma instance_below root d l c :
  owner_path k (cd_Name d) l → sr_ComponentName root ∈ l → c ∈ children_of d → instance_at root c = None.
Proof using Hwf.
  intros Hl Hr Hc. pose proof (owner_path_NoDup k Hwf _ _ (child_path d l c Hl Hc)) as Hnd.
  apply NoDup_cons in Hnd as [Hni _]. unfold instance_at. case_bool_decide as E; [|done]. by rewrite E in Hr.
Qed.

Lemma own_scale_agrees d scales root :
  agrees (instance_scale (default ∅ scales) (instance_at root d)) (own_scale scales (cd_Name d) root).
Proof.
  unfold own_scale, instance_scale, instance_at.
  assert (Hsum32 : agrees (Ok (Zsum ((λ p, getEffectiveMinReplicas p.2) <$> map_to_list (default ∅ scales))))
    (Ok (sum32 ((λ p, getEffectiveMinReplicas p.2) <$> map_to_list (default ∅ scales))))).
  { apply agrees_sum32, Forall_fmap, Forall_true. intros x. apply getEffectiveMinReplicas_nonneg. }
  destruct (sr_InstanceId root) as [id|]; case_bool_decide; try exact Hsum32.
  destruct (default ∅ scales !! id); [|done]. apply agrees_refl, getEffectiveMinReplicas_nonneg.
Qed.

Lemma own_exact_agrees d root :
  agrees (own_exact d (instance_at root d))
    (scales ← match run (GetScale (component_of d)) s with
              | Ok scales => Ok scales
              | Fail err => if isDefinitionNotFoundError err then Ok None else Fail err
              end; own_scale scales (cd_Name d) root).
Proof.
  unfold own_exact. destruct (run _ s) as [scales|err]; [apply own_scale_agrees|].
  destruct (isDefinitionNotFoundError err); [|done]. apply (own_scale_agrees d None).
Qed.

(** The two recursions, on the chain from the root of the subtree. *)
Lemma combine_agrees own o zs ns :
  agrees (Ok own) (Ok o) → agrees_list (Ok zs) (Ok ns) →
  agrees (Ok (combine_exact own (Zsum zs))) (Ok (combine_scale o (sum32 ns))).
Proof.
  intros (Hown & o' & [= <-] & Ho) (Hzs & ns' & [= <-] & Hns).
  pose proof (Zsum_nonneg zs Hzs) as Hsum0. destruct (combine_exact_bounds own _ Hown Hsum0) as (Hc & Hco & Hcs).
  split; [done|]. eexists. split; [done|]. intros Hmax. rewrite Ho by lia.
  rewrite (agrees_sum zs ns) by (done || unfold int32_max in *; lia). by apply combine_scale_exact.
Qed.

Section recursion.
Context (root : SubtreeRoot).

Lemma children_agree (computed : string → result Z) fuel d l :
  owner_path k (cd_Name d) l → sr_ComponentName root ∈ l →
  (∀ c, c ∈ children_of d → agrees (exact_scale fuel c (instance_at root c)) (computed (cd_Name c))) →
  agrees_list (mapR (λ child, exact_scale fuel child None) (children_of d))
    (mapR computed (default [] (ss_childrenMap summary !! cd_Name d))).
Proof using Hwf Hsum.
  intros Hl Hr Hc. destruct summary_tables as (_ & _ & _ & ->). rewrite mapR_fmap. apply agrees_mapR.
  intros c Hin. specialize (Hc c Hin). by rewrite (instance_below root d l c) in Hc.
Qed.

(** What both recursions do once they have a component's own number. *)
Lemma sum_children_agrees (compute : string → M S Z) own o zs names (join : Z → Z → Z) (join32 : Z → Z → Z) rest :
  (∀ n, rest n = (ns ← mapM compute names; mret (join32 n (sum32 ns)))) → (∀ n, readonly (compute n)) → agrees own o → agrees_list zs (mapR (λ n, run (compute n) s) names) →
  (∀ own o zs ns, agrees (Ok own) (Ok o) → agrees_list (Ok zs) (Ok ns) →
     agrees (Ok (join own (Zsum zs))) (Ok (join32 o (sum32 ns)))) →
  agrees (own ← own; zs ← zs; Ok (join own (Zsum zs)))
    (run (own ← lift o; rest own) s).
Proof using Type*.
  intros Hrest Hread Hown Hzs Hjoin.
  destruct own as [own|err]; [|by cbn in Hown; rewrite Hown]. pose proof Hown as (_ & n & -> & _).
  replace (run (own ← lift (Ok n); rest own) s) with (run (rest n) s) by done. rewrite Hrest. cbn [mbind result_bind]. run_step. rewrite run_mapM by done.
  destruct zs as [zs|err]; [|by cbn in Hzs; rewrite Hzs]. pose proof Hzs as (_ & ns & E & _).
  rewrite E in Hzs |- *. cbn [mbind result_bind]. rewrite run_ret. by apply Hjoin.
Qed.

(** A component without children has its own number. *)
Lemma no_children (compute : string → M S Z) n names :
  match names with
  | [] => mret n
  | name :: names => ns ← mapM compute (name :: names); mret (combine_scale n (sum32 ns))
  end = (ns ← mapM compute names; mret (combine_scale n (sum32 ns)) : M S Z).
Proof. by destruct names. Qed.

Lemma byDefinition_agrees fuel d l :
  structure_scaled = true → d ∈ components k → owner_path k (cd_Name d) l → sr_ComponentName root ∈ l →
  enough fuel l →
  agrees (exact_scale fuel d (instance_at root d))
    (run (calculateSubtreeScaleByDefinition (NewComponentFactory k) summary fuel (cd_Name d) root) s).
Proof using All.
  intros Hscaled. revert d l. induction fuel as [|fuel IH]; intros d l Hd Hl Hr He.
  { by destruct (enough_pos _ l 0 Hl He). }
  assert (Hch := children_agree (λ n, run (calculateSubtreeScaleByDefinition (NewComponentFactory k) summary fuel n root) s)
    fuel d l Hl Hr (λ c Hc, IH c (cd_Name c :: l) (child_component d c Hc) (child_path d l c Hl Hc)
      ltac:(by right) ltac:(unfold enough in *; cbn; lia))).
  cbn [exact_scale calculateSubtreeScaleByDefinition]. unfold subtree_scale_of. rewrite Hscaled.
  run_step. rewrite run_lift, GetComponent_of; [|by apply Hwf|done]. cbn [mbind result_bind].
  run_step. rewrite run_attempt. cbn [mbind result_bind].
  pose proof (own_exact_agrees d root) as Hown.
  assert (Hjoin := λ scales H, sum_children_agrees
    (λ child, calculateSubtreeScaleByDefinition (NewComponentFactory k) summary fuel child root)
    (own_exact d (instance_at root d)) (own_scale scales (cd_Name d) root) _ _ combine_exact combine_scale
    _ (λ n, no_children _ n _) (calculate_readonly _ _ _) H Hch combine_agrees).
  destruct (run (GetScale (component_of d)) s) as [scales|err]; [|destruct (isDefinitionNotFoundError err)];
    cbn [mbind result_bind] in Hown; run_step; rewrite ?run_ret; cbn [mbind result_bind].
  - by apply Hjoin.
  - by apply Hjoin.
  - destruct (own_exact d _); [by destruct Hown as (_ & ? & [=] & _)|]. by injection Hown as ->.
Qed.

Lemma own_leaves_agrees d :
  agrees (own_leaves d (instance_at root d))
    (run (if negb (HasInstanceIdDefinition (component_of d)) then mret 1%Z
          else
            instanceIds ← GetInstanceIds (component_of d);
            match sr_InstanceId root with
            | Some instanceId =>
                if bool_decide (cd_Name d = sr_ComponentName root) then
                  if bool_decide (instanceId ∈ instanceIds) then mret 1%Z
                  else fail (instance_not_found instanceId)
                else mret (wrap32 (Z.of_nat (length instanceIds)))
            | None => mret (wrap32 (Z.of_nat (length instanceIds)))
            end) s).
Proof using Type*.
  unfold own_leaves. destruct (HasInstanceIdDefinition _); cbn [negb]; [|by apply agrees_refl].
  run_step. destruct (run (GetInstanceIds _) s) as [ids|err]; [|done]. cbn [mbind result_bind].
  unfold instance_at. destruct (decide (cd_Name d = sr_ComponentName root)) as [E|E].
  - rewrite !bool_decide_eq_true_2 by done. destruct (sr_InstanceId root) as [id|]; [|apply agrees_wrap32; lia].
    case_bool_decide; [by apply agrees_refl|done].
  - rewrite !bool_decide_eq_false_2 by done. destruct (sr_InstanceId root); apply agrees_wrap32; lia.
Qed.

Lemma sum_agrees (own o : Z) zs ns :
  agrees (Ok own) (Ok o) → agrees_list (Ok zs) (Ok ns) → agrees (Ok (Zsum zs)) (Ok (sum32 ns)).
Proof.
  intros _ (Hzs & ns' & [= <-] & Hns). split; [by apply Zsum_nonneg|]. eexists. split; [done|].
  by apply agrees_sum.
Qed.

Lemma byLeaves_agrees fuel d l :
  structure_scaled = false → d ∈ components k → owner_path k (cd_Name d) l → sr_ComponentName root ∈ l →
  enough fuel l →
  agrees (exact_scale fuel d (instance_at root d))
    (run (calculateSubtreeScaleByLeaves (NewComponentFactory k) summary fuel (cd_Name d) root) s).
Proof using All.
  intros Hscaled. revert d l. induction fuel as [|fuel IH]; intros d l Hd Hl Hr He.
  { by destruct (enough_pos _ l 0 Hl He). }
  assert (Hch := children_agree (λ n, run (calculateSubtreeScaleByLeaves (NewComponentFactory k) summary fuel n root) s)
    fuel d l Hl Hr (λ c Hc, IH c (cd_Name c :: l) (child_component d c Hc) (child_path d l c Hl Hc)
      ltac:(by right) ltac:(unfold enough in *; cbn; lia))).
  cbn [exact_scale calculateSubtreeScaleByLeaves]. unfold subtree_scale_of. rewrite Hscaled.
  run_step. rewrite run_lift, GetComponent_of; [|by apply Hwf|done]. cbn [mbind result_bind].
  cbn [component_of comp_name]. pose proof (leaf_iff d Hd) as Hleaf.
  destruct (hasPodDefinition d).
  - rewrite bool_decide_eq_true_2 by tauto. apply own_leaves_agrees.
  - rewrite bool_decide_eq_false_2 by (rewrite Hleaf; done).
    exact (sum_children_agrees
      (λ child, calculateSubtreeScaleByLeaves (NewComponentFactory k) summary fuel child root)
      (Ok 0%Z) (Ok 0%Z) _ _ (λ _ n, n) (λ _ n, n) _ (λ _, eq_refl) (leaves_readonly _ _ _) (agrees_refl 0 ltac:(done)) Hch sum_agrees).
Qed.
End recursion.
End exact_scale.

(** C21: on a well-formed structure the scale of every component's subtree, or of
    the subtree of one of its instances, is what the structure and the object
    say.  Where some component defines a scale, it is the minimum replicas of the
    component (over its instances, or of the one asked for) times the sum over
    its children, and whichever is not zero if one is; where none does, it is the
    number of leaves, one for each instance.  A failure is the one of the first
    component that fails, an instance that is not there included; and as long as
    the exact number fits in 32 bits no sum or product on the way wraps around. *)
Theorem CalculateSubtreeScale_exact `{K8s} {S : Type} `{!ComponentAccessor S} `{Equiv S}
    `{!ComponentAccessorLaws S} `{GoSort} k summary (s : S) :
  wf_structure k → NewStructureSummary (Some k) = Some (Ok summary) →
  ∃ exact : ComponentDefinition → option string → result Z,
    (∀ d instance, d ∈ components k →
       exact d instance =
       if structure_scaled k then
         own ← own_exact s d instance;
         scales ← mapR (λ child, exact child None) (filter (owned_by (cd_Name d)) (getAllComponents k));
         Ok (combine_exact own (Zsum scales))
       else if hasPodDefinition d then own_leaves s d instance
       else
         counts ← mapR (λ child, exact child None) (filter (owned_by (cd_Name d)) (getAllComponents k));
         Ok (Zsum counts)) ∧
    ∀ d instance, d ∈ components k →
      let computed := run (CalculateSubtreeScale (NewComponentFactory k) summary (cd_Name d) instance) s in
      if bool_decide (instance = Some "") then computed = Fail (Errorf "instance id is empty" [] [])
      else
        match exact d instance with
        | Fail err => computed = Fail err
        | Ok z => (0 ≤ z)%Z ∧ ∃ n, computed = Ok n ∧ ((z ≤ int32_max)%Z → n = z)
        end.
Proof.
  intros Hwf Hsum. destruct (summary_tables k Hwf summary Hsum) as (Hk & Hscaled & _).
  exists (exact_scale k s (scaleFuel summary)).
  assert (Hpath : ∀ d, d ∈ components k →
    ∃ l, owner_path k (cd_Name d) (cd_Name d :: l) ∧ enough k (scaleFuel summary) (cd_Name d :: l)).
  { intros d Hd. destruct (rooted_path k (cd_Name d)) as [l Hl].
    - apply named_rooted; [done|by apply list_elem_of_fmap_2].
    - destruct (owner_path_head _ _ _ Hl) as [l' ->]. exists l'. split; [done|].
      unfold enough, scaleFuel. rewrite Hk. cbn. lia. }
  split.
  - intros d instance Hd. destruct (Hpath d Hd) as (l & Hl & He).
    rewrite (exact_scale_fuel k s Hwf _ (Datatypes.S (scaleFuel summary)) d (cd_Name d :: l) instance Hl He)
      by (unfold enough in *; lia). done.
  - intros d instance Hd. cbv zeta. unfold CalculateSubtreeScale. case_bool_decide as Hempty; [done|].
    destruct (Hpath d Hd) as (l & Hl & He).
    pose (root := MkSubtreeRoot (cd_Name d) instance).
    assert (Hat : instance_at root d = instance) by (unfold instance_at; by rewrite bool_decide_eq_true_2).
    change (agrees (exact_scale k s (scaleFuel summary) d instance)
      (run (if ss_hasScaleDefinition summary then
              calculateSubtreeScaleByDefinition (NewComponentFactory k) summary (scaleFuel summary) (cd_Name d) root
            else calculateSubtreeScaleByLeaves (NewComponentFactory k) summary (scaleFuel summary) (cd_Name d) root) s)).
    rewrite Hscaled, <- Hat at 1. destruct (structure_scaled k) eqn:E.
    + by apply (byDefinition_agrees k s Hwf summary Hsum root _ d (cd_Name d :: l)); [..|left|].
    + by apply (byLeaves_agrees k s Hwf summary Hsum root _ d (cd_Name d :: l)); [..|left|].
Qed.

(** ** The component a pod is grouped under *)

Section grouping.
Context {R : Type} `{Runner R} `{Equiv R} `{!RunnerLaws R}.

#[local] Set Default Proof Using "Type*".

(** The pod passes every filter of the candidate. *)
Definition accepts (r : R) (c : effectiveComponentCandidate) : Prop :=
  Forall (λ f, run (Evaluate f) r = Ok [VBool true]) (pm_Filters (ecc_member c)).

#[local] Hint Resolve PassesFilters_readonly : readonly.

Lemma first_candidate_readonly l : readonly (R:=R) (first_candidate l).
Proof. induction l; cbn [first_candidate]; solve_readonly. Qed.
#[local] Hint Resolve first_candidate_readonly : readonly.

Lemma first_candidate_spec l r o :
  run (first_candidate l) r = Ok o →
  match o with
  | Some e => ∃ l1 c l2, l = l1 ++ c :: l2 ∧ e = effective_of c ∧ accepts r c ∧
                Forall (λ c, ¬ accepts r c) l1
  | None => Forall (λ c, ¬ accepts r c) l
  end.
Proof.
  induction l as [|c l IH]; cbn [first_candidate]; [by intros [= <-]|].
  assert (Hskip : ¬ accepts r c → run (first_candidate l) r = Ok o →
    match o with
    | Some e => ∃ l1 c' l2, c :: l = l1 ++ c' :: l2 ∧ e = effective_of c' ∧ accepts r c' ∧
                  Forall (λ c, ¬ accepts r c) l1
    | None => Forall (λ c, ¬ accepts r c) (c :: l)
    end).
  { intros Hno E. apply IH in E. destruct o as [e|]; [|by constructor].
    destruct E as (l1 & c' & l2 & -> & ? & ? & ?). exists (c :: l1), c', l2. by split_and!; [..|constructor]. }
  case_bool_decide as Hf.
  - rewrite run_ret. intros [= <-]. exists [], c, l. split_and!; [done..| |constructor].
    unfold accepts. by rewrite Hf.
  - intros E. run_ok_in E. destruct E as (b & Hb & E). rewrite run_wrap, map_error_Ok in Hb.
    pose proof (PassesFilters_true (pm_Filters (ecc_member c)) r) as Hp.
    rewrite Hb, <- Forall_forall in Hp. change (Ok b = Ok true ↔ accepts r c) in Hp. destruct b.
    + rewrite run_ret in E. injection E as <-. exists [], c, l. split_and!; [done..|by apply Hp|constructor].
    + apply Hskip; [|done]. by intros [=]%Hp.
Qed.

(** The component a pod is grouped under is the first of its component's
    candidates all of whose filters the pod passes, and there is none exactly
    because no candidate accepts the pod. *)
Theorem GetPodGroupingEffectiveComponent_first n summary r o :
  run (GetPodGroupingEffectiveComponent n summary) r = Ok o →
  let candidates := default [] (ss_gangSchedulingSummary summary ≫= λ g,
                                  gss_effectiveComponentCandidates g !! n) in
  match o with
  | Some e => ∃ l1 c l2, candidates = l1 ++ c :: l2 ∧ e = effective_of c ∧ accepts r c ∧
                Forall (λ c, ¬ accepts r c) l1
  | None => Forall (λ c, ¬ accepts r c) candidates
  end.
Proof.
  unfold GetPodGroupingEffectiveComponent, getEffectiveComponentForPod. intros E.
  destruct (ss_gangSchedulingSummary summary) as [g|]; [|by injection E as <-].
  cbn. destruct (gss_effectiveComponentCandidates g !! n) as [[|c l]|];
    [by injection E as <-| |by injection E as <-].
  by apply first_candidate_spec.
Qed.
End grouping.

(** ** The instance a pod belongs to *)

Section instance.
Context `{K8s} {S : Type} `{!ComponentAccessor S} `{Equiv S} `{!ComponentAccessorLaws S}.
Context {R : Type} `{Runner R} `{Equiv R} `{!RunnerLaws R}.
Context (other : value → string).

(** An inferred instance is one of the component's instance ids, read from
    the same object, and never the empty id. *)
Theorem InferPodComponentInstance_member n f (s : S) (r : R) id :
  (InferPodComponentInstance other n f (s, r)).1 = Ok (Some id) →
  id ≠ "" ∧ ∃ c ids, GetComponent f n = Ok c ∧ run (GetInstanceIds c) s = Ok ids ∧ id ∈ ids.
Proof.
  unfold InferPodComponentInstance, mbind, M_bind, lift, on_fst.
  destruct (GetComponent f n) as [c|] eqn:Hc; [|done].
  unfold run. destruct (GetInstanceIds c s) as [[ids|] s'] eqn:Hids; [|done].
  destruct ids as [|id0 ids]; [done|]. destruct (GetPodSelector c) as [sel|]; [|done].
  case_bool_decide; [done|]. unfold on_snd.
  destruct (GetMatchingInstanceId other (ps_ComponentInstanceSelector sel) (id0 :: ids) r)
    as [[id'|] r'] eqn:Hm; [|done]. cbn. case_bool_decide as Hid; [done|]. intros [= <-].
  split; [done|]. exists c, (id0 :: ids). split_and!; [done|by rewrite Hids|].
  eapply (GetMatchingInstanceId_elem other _ _ r). unfold run. by rewrite Hm.
Qed.
End instance.

(** ** Concrete inputs *)

(** The sample Karta with a replica count under every child. *)
Definition scaled (d : ComponentDefinition) : ComponentDefinition :=
  set_component d
    (Some {| sc_ReplicasPath := Some (".scale." +:+ cd_Name d); sc_MinReplicasPath := None;
             sc_MaxReplicasPath := None |})
    (cd_StatusDefinition d) (cd_SuspendDefinition d) (cd_SpecDefinition d).

Definition scaled_karta : Karta := {|
  k_ObjectMeta := k_ObjectMeta sample_karta;
  k_Spec := {|
    ks_StructureDefinition := {|
      st_RootComponent := RootComponent sample_karta;
      st_ChildComponents := scaled <$> ChildComponents sample_karta;
      st_AdditionalChildKinds := [] |};
    ks_Instructions := ks_Instructions (k_Spec sample_karta) |} |}.

Lemma scaled_wf : wf_structure scaled_karta.
Proof.
  apply (Validate_None (λ _, Ok AScalar) [] [] scaled_karta); [by split..|].
  vm_compute. reflexivity.
Qed.

Definition scale_table (groups leaders workers : Z) : table := Table {[
  ".scale.group" := [VInt groups]; ".scale.leader" := [VInt leaders]; ".scale.worker" := [VInt workers] ]}.

Definition scaled_summary : option StructureSummary :=
  match NewStructureSummary (H:=insertion_GoSort) (Some scaled_karta) with
  | Some (Ok s) => Some s
  | _ => None
  end.

Definition subtree_scale (t : table) (n : string) (instance : option string) : option (result Z) :=
  s ← scaled_summary; Some (run (CalculateSubtreeScale (NewComponentFactory scaled_karta) s n instance) t).

(** Three groups of one leader and four workers; a missing instance; and a
    product that wraps around to zero, which the callers then take for "no
    scale given". *)
Example subtree_scale_samples :
  subtree_scale (scale_table 3 1 4) "group" None = Some (Ok 15%Z) ∧
  subtree_scale (scale_table 3 1 4) "worker" None = Some (Ok 4%Z) ∧
  subtree_scale (scale_table 3 1 4) "worker" (Some "w1") = Some (Fail (instance_not_found "w1")) ∧
  subtree_scale (scale_table 65536 0 65536) "group" None = Some (Ok 0%Z).
Proof. vm_compute. done. Qed.

Definition sample_summary : option StructureSummary :=
  match NewStructureSummary (H:=insertion_GoSort) (Some sample_karta) with
  | Some (Ok s) => Some s
  | _ => None
  end.

(** Where no scale is defined the leaves are counted: a group has two kinds of pods. *)
Example leaf_count_samples :
  structure_scaled sample_karta = false ∧
  (s ← sample_summary;
   Some ((λ p : string * option string,
            run (CalculateSubtreeScale (NewComponentFactory sample_karta) s p.1 p.2) (Table ∅)) <$>
         [("group", None); ("worker", None); ("worker", Some "")]))
  = Some [Ok 2%Z; Ok 1%Z; Fail (Errorf "instance id is empty" [] [])].
Proof. vm_compute. done. Qed.

Lemma CalculateSubtreeScale_exact_witness :
  wf_structure scaled_karta ∧
  ∃ summary, NewStructureSummary (H:=insertion_GoSort) (Some scaled_karta) = Some (Ok summary) ∧
  ∃ exact : ComponentDefinition → option string → result Z,
    agrees (exact (RootComponent scaled_karta) None)
      (run (CalculateSubtreeScale (NewComponentFactory scaled_karta) summary
              (cd_Name (RootComponent scaled_karta)) None) (scale_table 3 1 4)).
Proof.
  split; [exact scaled_wf|]. destruct (NewStructureSummary (H:=insertion_GoSort) (Some scaled_karta)) as [[summary|err]|] eqn:E;
    [|vm_compute in E; discriminate..].
  exists summary. split; [done|].
  destruct (CalculateSubtreeScale_exact (H1:=insertion_GoSort) scaled_karta summary (scale_table 3 1 4) scaled_wf E)
    as (exact & _ & Hexact).
  exists exact. exact (Hexact (RootComponent scaled_karta) None
    (proj1 (all_components scaled_karta (RootComponent scaled_karta)) (list_elem_of_here _ _))).
Defined.

Definition gpu_table (gpu : bool) : table := Table {[ ".metadata.labels.gpu == 1" := [VBool gpu] ]}.

(** A worker pod with a GPU is grouped as a worker, one without by its group. *)
Example grouping_samples :
  (s ← sample_summary; Some ((λ b, run (GetPodGroupingEffectiveComponent "worker" s) (gpu_table b))
                               <$> [true; false]))
  = Some [Ok (Some (MkPodGroupingEffectiveComponent "worker" "workers"
                      (sample_member "worker" [".metadata.labels.gpu == 1"])));
          Ok (Some (MkPodGroupingEffectiveComponent "group" "all" (sample_member "group" [])))].
Proof. vm_compute. reflexivity. Qed.

Lemma GetPodGroupingEffectiveComponent_first_witness :
  ∃ s, sample_summary = Some s ∧
  ∃ l1 c l2, default [] (ss_gangSchedulingSummary s ≫= λ g,
                           gss_effectiveComponentCandidates g !! "worker") = l1 ++ c :: l2 ∧
    MkPodGroupingEffectiveComponent "group" "all" (sample_member "group" []) = effective_of c ∧
    accepts (gpu_table false) c ∧ Forall (λ c, ¬ accepts (gpu_table false) c) l1.
Proof.
  eexists. split; [vm_compute; reflexivity|].
  apply (GetPodGroupingEffectiveComponent_first "worker" _ (gpu_table false)
           (Some (MkPodGroupingEffectiveComponent "group" "all" (sample_member "group" [])))).
  vm_compute. reflexivity.
Defined.

Definition instance_karta : Karta := {|
  k_ObjectMeta := k_ObjectMeta sample_karta;
  k_Spec := {|
    ks_StructureDefinition := {|
      st_RootComponent := RootComponent sample_karta;
      st_ChildComponents := [{|
        cd_Name := "groups"; cd_Kind := None; cd_OwnerRef := Some "job"; cd_SpecDefinition := None;
        cd_ScaleDefinition := None; cd_StatusDefinition := None; cd_SuspendDefinition := None;
        cd_InstanceIdPath := Some ".ids";
        cd_PodSelector := Some {| ps_ComponentTypeSelector := None;
          ps_ComponentInstanceSelector := Some {| cis_IdPath := ".labels.id" |};
          ps_ReplicaSelector := None |} |}];
      st_AdditionalChildKinds := [] |};
    ks_Instructions := ks_Instructions (k_Spec sample_karta) |} |}.

Lemma InferPodComponentInstance_member_witness :
  "b" ≠ "" ∧ ∃ c ids, GetComponent (NewComponentFactory instance_karta) "groups" = Ok c ∧
    run (GetInstanceIds c) sample_groups_table = Ok ids ∧ "b" ∈ ids.
Proof.
  apply (InferPodComponentInstance_member (λ _, "") "groups" (NewComponentFactory instance_karta)
           sample_groups_table (Table {[ ".labels.id" := [VString "b"] ]}) "b").
  vm_compute. reflexivity.
Defined.
