(* ===== verification/Tree.v ===== *)
(** * Tree: the hierarchy of a workload

    Models [karta/sdk/pkg/tree/tree.go] and [builder.go].  The builder's
    recursion over the components a parent owns runs with fuel; [Build]
    validates the Karta first, and on a valid Karta the fuel is never used up.
    Cloning a subtree copies its values; the model has no sharing to undo, so
    the clone is shown to be the subtree itself. *)

From S2P Require Import Prelude Api JqValidate Validator Value Runner Accessor Component.
From S2P Require Import Sort Summary Gang.

Section nodes.
Context `{K8s}.

Inductive ComponentNode :=
  | MkComponentNode (cn_Name : string) (cn_Kind : option GroupVersionKind)
      (cn_HasPodDefinition : bool) (cn_Instances : list InstanceNode)
with InstanceNode :=
  | MkInstanceNode (in_InstanceKey in_ReplicaKey : option string) (in_Scale : option Scale)
      (in_ExtractedInstance : option ExtractedInstance) (in_Children : list ComponentNode).

Definition cn_Instances (n : ComponentNode) : list InstanceNode :=
  match n with MkComponentNode _ _ _ l => l end.

Definition in_Children (i : InstanceNode) : list ComponentNode :=
  match i with MkInstanceNode _ _ _ _ l => l end.

Record WorkloadStatus := MkWorkloadStatus { ws_Phases : list string }.

Record WorkloadTree := MkWorkloadTree {
  wt_Status : option WorkloadStatus;
  wt_Children : list ComponentNode;
}.

(** *** Cloning *)

Fixpoint clone_component (n : ComponentNode) : ComponentNode :=
  match n with
  | MkComponentNode name kind pods instances =>
      MkComponentNode name kind pods (clone_instance <$> instances)
  end
with clone_instance (i : InstanceNode) : InstanceNode :=
  match i with
  | MkInstanceNode key replica scale extracted children =>
      MkInstanceNode key replica scale extracted (clone_component <$> children)
  end.

Definition cloneComponentNodes (nodes : list ComponentNode) : list ComponentNode :=
  clone_component <$> nodes.

Definition cloneInstanceNodes (instances : list InstanceNode) : list InstanceNode :=
  clone_instance <$> instances.

Definition clone_component_list (F : ∀ n, clone_component n = n) :=
  fix G (l : list ComponentNode) : cloneComponentNodes l = l :=
  match l return cloneComponentNodes l = l with
  | [] => eq_refl
  | n :: l => f_equal2 cons (F n) (G l)
  end.

Definition clone_instance_list (F : ∀ i, clone_instance i = i) :=
  fix G (l : list InstanceNode) : cloneInstanceNodes l = l :=
  match l return cloneInstanceNodes l = l with
  | [] => eq_refl
  | i :: l => f_equal2 cons (F i) (G l)
  end.

Fixpoint clone_component_id (n : ComponentNode) : clone_component n = n :=
  match n with
  | MkComponentNode name kind pods instances =>
      f_equal (MkComponentNode name kind pods) (clone_instance_list clone_instance_id instances)
  end
with clone_instance_id (i : InstanceNode) : clone_instance i = i :=
  match i with
  | MkInstanceNode key replica scale extracted children =>
      f_equal (MkInstanceNode key replica scale extracted)
        (clone_component_list clone_component_id children)
  end.

Lemma cloneComponentNodes_id nodes : cloneComponentNodes nodes = nodes.
Proof. apply clone_component_list, clone_component_id. Qed.
End nodes.

(** ** The builder *)

Section builder.
Context `{K8s} {S : Type} `{!ComponentAccessor S}.
Context (factory : ComponentFactory).

Definition instance_node (extractedInstances : gmap string ExtractedInstance)
    (baseChildren : list ComponentNode) (key : string) : InstanceNode :=
  let instanceKey := if bool_decide (key ≠ "") then Some key else None in
  let extracted := extractedInstances !! key in
  let scale := extracted ≫= ei_Scale in
  let childNodes := cloneComponentNodes baseChildren in
  MkInstanceNode instanceKey None scale extracted childNodes.

(** The subtree of the children is built once, by [build_children]. *)
Definition buildInstanceNodes (instanceKeys : list string)
    (extractedInstances : gmap string ExtractedInstance)
    (build_children : M S (list ComponentNode)) : M S (list InstanceNode) :=
  let instanceKeys := sort_Strings instanceKeys in
  baseChildren ← build_children;
  mret (instance_node extractedInstances baseChildren <$> instanceKeys).

(** One turn of the component loop. *)
Definition buildComponentNode (build_nodes : list Component → M S (list ComponentNode))
    (component : Component) : M S ComponentNode :=
  instanceKeys ← wrap (λ err, Errorf "get instance ids for component %s: %w"
                                [AStr (comp_name component)] [err])
    (GetInstanceIds component);
  children ← lift (GetChildComponentsOf factory (comp_name component));
  extractedInstances ← wrap (λ err, Errorf "get extracted instances for component %s: %w"
                                      [AStr (comp_name component)] [err])
    (GetExtractedInstances component);
  instances ← wrap (λ err, Errorf "build instance nodes for component %s: %w"
                             [AStr (comp_name component)] [err])
    (buildInstanceNodes instanceKeys extractedInstances (build_nodes children));
  mret (MkComponentNode (comp_name component) (Kind component) (HasPodDefinition component) instances).

Fixpoint buildComponentNodes (fuel : nat) (components : list Component) : M S (list ComponentNode) :=
  match fuel with
  | O => fail out_of_fuel
  | Datatypes.S fuel => mapM (buildComponentNode (buildComponentNodes fuel)) components
  end.

Definition matchedStatusStrings (status : Status) : list string := status_MatchedStatuses status.

Definition treeFuel : nat :=
  match fac_karta factory with
  | None => 0
  | Some karta => Datatypes.S (Datatypes.S (length (ChildComponents karta)))
  end.

Context (Parse : string → result aval) (meta status : list rfield).

Definition Build : M S WorkloadTree :=
  match Validate Parse meta status (fac_karta factory) with
  | Some err => fail (Errorf "invalid karta: %w" [] [err])
  | None =>
      rootComponent ← lift (map_error (λ err, Errorf "failed to get root component: %w" [] [err])
                              (GetRootComponent factory));
      rootNodes ← buildComponentNodes treeFuel [rootComponent];
      match rootNodes with
      | [] => fail index_panic
      | rootNode :: _ =>
          let children := match cn_Instances rootNode with
                          | [] => []
                          | instance :: _ => in_Children instance
                          end in
          status ← wrap (λ err, Errorf "failed to get root status: %w" [] [err])
            (GetStatus rootComponent);
          mret (MkWorkloadTree
                  ((λ st, MkWorkloadStatus (matchedStatusStrings st)) <$> (status : option Status))
                  children)
      end
  end.

Context `{Equiv S} `{!ComponentAccessorLaws S}.

#[local] Set Default Proof Using "Type*".

Lemma buildInstanceNodes_readonly keys ext (m : M S (list ComponentNode)) :
  readonly m → readonly (buildInstanceNodes keys ext m).
Proof. intros Hm. unfold buildInstanceNodes. solve_readonly. Qed.

Lemma buildComponentNode_readonly build c :
  (∀ cs, readonly (build cs)) → readonly (buildComponentNode build c).
Proof.
  intros Hb. pose proof GetInstanceIds_readonly. pose proof GetExtractedInstances_readonly.
  pose proof buildInstanceNodes_readonly. unfold buildComponentNode. solve_readonly.
Qed.

Lemma buildComponentNodes_readonly fuel cs : readonly (buildComponentNodes fuel cs).
Proof.
  revert cs. induction fuel as [|fuel IH]; intros cs; cbn [buildComponentNodes]; [apply readonly_fail|].
  apply readonly_mapM. intros c. by apply buildComponentNode_readonly.
Qed.
#[local] Hint Resolve buildComponentNodes_readonly buildInstanceNodes_readonly
  GetInstanceIds_readonly GetExtractedInstances_readonly GetStatus_readonly : readonly.

Lemma Build_read : readonly Build.
Proof. unfold Build. solve_readonly. Qed.

Lemma buildComponentNode_run build c s node :
  (∀ cs, readonly (build cs)) →
  run (buildComponentNode build c) s = Ok node ↔
  ∃ ids kids ext base,
    run (GetInstanceIds c) s = Ok ids ∧ GetChildComponentsOf factory (comp_name c) = Ok kids ∧
    run (GetExtractedInstances c) s = Ok ext ∧ run (build kids) s = Ok base ∧
    node = MkComponentNode (comp_name c) (Kind c) (HasPodDefinition c)
             (instance_node ext base <$> sort_Strings ids).
Proof.
  intros Hb. unfold buildComponentNode. split.
  - intros E. run_ok_in E. destruct E as (ids & Hids & E). rewrite run_wrap, map_error_Ok in Hids.
    run_ok_in E. destruct E as (kids & Hkids & E). rewrite run_lift in Hkids.
    run_ok_in E. destruct E as (ext & Hext & E). rewrite run_wrap, map_error_Ok in Hext.
    run_ok_in E. destruct E as (insts & Hin & E). rewrite run_wrap, map_error_Ok in Hin.
    unfold buildInstanceNodes in Hin. run_ok_in Hin. destruct Hin as (base & Hbase & Hin).
    rewrite run_ret in Hin. rewrite run_ret in E. injection Hin as <-. injection E as <-. by exists ids, kids, ext, base.
  - intros (ids & kids & ext & base & Hids & Hkids & Hext & Hbase & ->).
    run_ok. exists ids. rewrite run_wrap, Hids. split; [done|].
    run_ok. exists kids. rewrite run_lift. split; [done|].
    run_ok. exists ext. rewrite run_wrap, Hext. split; [done|].
    run_ok. eexists. rewrite run_wrap, map_error_Ok. split; [|by rewrite run_ret].
    unfold buildInstanceNodes. run_ok. exists base. by rewrite run_ret.
Qed.
End builder.
#[export] Hint Resolve buildComponentNode_readonly buildComponentNodes_readonly : readonly.

(** ** What the tree describes *)

Section describes.
Context `{K8s} {S : Type} `{!ComponentAccessor S} `{Equiv S} `{!ComponentAccessorLaws S}.
Context (k : Karta) (s : S).

(** The node of a component: its identity, and one instance per instance id in
    sorted order, each with the data extracted for it and over the nodes of the
    components this one owns. *)
Inductive node_of : ComponentDefinition → ComponentNode → Prop :=
  | node_of_intro d ids ext nodes :
      run (GetInstanceIds (component_of d)) s = Ok ids →
      run (GetExtractedInstances (component_of d)) s = Ok ext →
      Forall2 node_of (filter (owned_by (cd_Name d)) (components k)) nodes →
      node_of d (MkComponentNode (cd_Name d) (Kind (component_of d)) (HasPodDefinition (component_of d))
        ((λ key, MkInstanceNode (if bool_decide (key ≠ "") then Some key else None) None
                   (ext !! key ≫= ei_Scale) (ext !! key) nodes) <$> sort_Strings ids)).

Context (Hwf : wf_structure k).

(** The fuel left reaches past the deepest component below. *)
Definition within (fuel : nat) (d : ComponentDefinition) : Prop :=
  d ∈ components k ∧ ∃ l, owner_path k (cd_Name d) (cd_Name d :: l) ∧
    Datatypes.S (Datatypes.S (length (ChildComponents k))) < fuel + length (cd_Name d :: l).

Lemma within_child fuel d c :
  within (Datatypes.S fuel) d → c ∈ filter (owned_by (cd_Name d)) (components k) → within fuel c.
Proof using Hwf.
  intros (Hd & l & Hl & He) [Ho Hc]%list_elem_of_filter. split; [done|].
  exists (cd_Name d :: l). unfold owned_by in Ho. split.
  - unfold components in Hc. apply elem_of_app in Hc as [Hc|Hc].
    + by eapply path_child.
    + apply list_elem_of_singleton in Hc as ->.
      by rewrite (wf_no_owner _ (wf_of_root _ Hwf)) in Ho.
  - cbn in *. lia.
Qed.

Lemma children_of_component d :
  GetChildComponentsOf (NewComponentFactory k) (cd_Name d) =
  Ok (component_of <$> filter (owned_by (cd_Name d)) (components k)).
Proof using Hwf.
  unfold GetChildComponentsOf. destruct (factory_tables k) as (_ & _ & ->).
  rewrite add_definitions_children. apply (get_children k (wf_unique _ Hwf)).
  by intros c [_ ?]%list_elem_of_filter.
Qed.

Lemma build_describes fuel ds nodes :
  Forall (within fuel) ds →
  run (buildComponentNodes (NewComponentFactory k) fuel (component_of <$> ds)) s = Ok nodes →
  Forall2 node_of ds nodes.
Proof using All.
  revert ds nodes. induction fuel as [|fuel IH]; intros ds nodes Hds E; [done|].
  cbn [buildComponentNodes] in E. rewrite run_mapM in E.
  2: { eauto with readonly. }
  apply mapR_Ok in E. apply Forall2_fmap_l in E.
  induction E as [|d node ds nodes Hnode _ IHds]; [constructor|].
  apply Forall_cons in Hds as [Hd Hds]. constructor; [|by apply IHds].
  unfold compose in Hnode. rewrite buildComponentNode_run in Hnode by eauto with readonly.
  destruct Hnode as (ids & kids & ext & base & Hids & Hkids & Hext & Hbase & ->).
  cbn [comp_name component_of] in *. rewrite children_of_component in Hkids. injection Hkids as <-.
  apply IH in Hbase; [|by apply Forall_forall; intros c Hc; eapply within_child].
  replace (instance_node ext base <$> sort_Strings ids) with
    ((λ key, MkInstanceNode (if bool_decide (key ≠ "") then Some key else None) None
               (ext !! key ≫= ei_Scale) (ext !! key) base) <$> sort_Strings ids).
  - by econstructor.
  - apply list_fmap_ext. intros _ key _. unfold instance_node. by rewrite cloneComponentNodes_id.
Qed.

Context (Hids : ∀ d, d ∈ components k → is_ok (run (GetInstanceIds (component_of d)) s) = true).
Context (Hext : ∀ d, d ∈ components k → is_ok (run (GetExtractedInstances (component_of d)) s) = true).

Lemma build_succeeds fuel ds :
  Forall (within fuel) ds → fuel ≠ 0 →
  ∃ nodes, run (buildComponentNodes (NewComponentFactory k) fuel (component_of <$> ds)) s = Ok nodes.
Proof using All.
  revert ds. induction fuel as [|fuel IH]; intros ds Hds Hpos; [done|].
  cbn [buildComponentNodes]. rewrite run_mapM.
  2: { eauto with readonly. }
  induction Hds as [|d ds Hd Hds IHds]; [by exists []|]. destruct IHds as [nodes Hnodes].
  destruct (run (GetInstanceIds (component_of d)) s) as [ids|] eqn:E1;
    [|pose proof (Hids d (proj1 Hd)) as E; by rewrite E1 in E].
  destruct (run (GetExtractedInstances (component_of d)) s) as [ext|] eqn:E2;
    [|pose proof (Hext d (proj1 Hd)) as E; by rewrite E2 in E].
  assert (Hkids : ∃ base, run (buildComponentNodes (NewComponentFactory k) fuel
      (component_of <$> filter (owned_by (cd_Name d)) (components k))) s = Ok base).
  { assert (Hw : Forall (within fuel) (filter (owned_by (cd_Name d)) (components k)))
      by (apply Forall_forall; intros c Hc; by eapply within_child).
    destruct fuel as [|fuel']; [|by apply IH].
    destruct Hd as (Hd & l & Hl & He). apply owner_path_length in Hl; [|done].
    cbn in *. lia. }
  destruct Hkids as [base Hbase].
  assert (Hnode : ∃ node, run (buildComponentNode (NewComponentFactory k)
            (buildComponentNodes (NewComponentFactory k) fuel) (component_of d)) s = Ok node).
  { eexists. rewrite buildComponentNode_run by eauto with readonly.
    exists ids, (component_of <$> filter (owned_by (cd_Name d)) (components k)), ext, base.
    split_and!; [done|apply children_of_component|done..]. }
  destruct Hnode as [node Hnode]. exists (node :: nodes). rewrite fmap_cons. cbn [mapR].
  by rewrite Hnode, Hnodes.
Qed.

Lemma root_within : within (treeFuel (NewComponentFactory k)) (RootComponent k).
Proof using Type.
  split; [apply elem_of_app; right; by left|]. exists []. split; [constructor|].
  unfold treeFuel. destruct (factory_tables k) as (-> & _). cbn. clear. lia.
Qed.
End describes.

(** Building the tree never changes the workload object. *)
Theorem Build_readonly `{K8s} {S : Type} `{!ComponentAccessor S} `{Equiv S}
    `{!ComponentAccessorLaws S} f Parse meta status :
  readonly (R:=S) (Build f Parse meta status).
Proof. by apply Build_read. Qed.

Lemma Validate_wf Parse meta status k :
  untagged meta → untagged status → Validate Parse meta status (Some k) = None → wf_structure k.
Proof. intros Hm Hs Hv. by apply (Validate_None Parse meta status k Hm Hs). Qed.

Lemma GetRootComponent_of k :
  NoDup (component_names k) →
  GetRootComponent (NewComponentFactory k) = Ok (component_of (RootComponent k)).
Proof.
  intros Hnd. unfold GetRootComponent. destruct (factory_tables k) as (-> & _).
  apply GetComponent_of; [done|unfold components; set_solver].
Qed.

(** C24: a tree that is built describes the workload: below the hidden root
    component it has, recursively, one node per component the parent owns, with
    one instance per instance id in sorted order and the data extracted for it,
    and its phases are the root's matched statuses. *)
Theorem Build_describes `{K8s} {S : Type} `{!ComponentAccessor S} `{Equiv S}
    `{!ComponentAccessorLaws S} Parse meta status k (s : S) tree :
  untagged meta → untagged status →
  run (Build (NewComponentFactory k) Parse meta status) s = Ok tree →
  ∃ root st, node_of k s (RootComponent k) root ∧
    wt_Children tree = match cn_Instances root with [] => [] | i :: _ => in_Children i end ∧
    run (GetStatus (component_of (RootComponent k))) s = Ok st ∧
    wt_Status tree = (λ st, MkWorkloadStatus (status_MatchedStatuses st)) <$> st.
Proof.
  intros Hmeta Hstatus E. unfold Build in E.
  replace (fac_karta (NewComponentFactory k)) with (Some k) in E by (symmetry; apply factory_tables).
  destruct (Validate Parse meta status (Some k)) eqn:Hv; [done|].
  apply Validate_wf in Hv as Hwf; [|done..].
  run_ok_in E. destruct E as (rc & Hrc & E). rewrite run_lift, map_error_Ok, GetRootComponent_of in Hrc
    by apply Hwf. injection Hrc as <-.
  rewrite run_bind_Ok in E; [|eauto with readonly|intros; pose proof GetStatus_readonly; solve_respects].
  destruct E as (nodes & Hnodes & E).
  apply (build_describes k s Hwf _ [RootComponent k]) in Hnodes; [|by repeat constructor; apply root_within].
  apply Forall2_cons_inv_l in Hnodes as (root & rest & Hroot & _ & ->).
  pose proof GetStatus_readonly. run_ok_in E. destruct E as (st & Hst & E).
  rewrite run_wrap, map_error_Ok in Hst. rewrite run_ret in E. injection E as <-.
  by exists root, st.
Qed.

(** C25: building a tree of a valid Karta succeeds whenever the object answers
    the reads: the ids and data of every component and the root's status. *)
Theorem Build_succeeds `{K8s} {S : Type} `{!ComponentAccessor S} `{Equiv S}
    `{!ComponentAccessorLaws S} Parse meta status k (s : S) :
  untagged meta → untagged status → Validate Parse meta status (Some k) = None →
  (∀ d, d ∈ components k → is_ok (run (GetInstanceIds (component_of d)) s) = true) →
  (∀ d, d ∈ components k → is_ok (run (GetExtractedInstances (component_of d)) s) = true) →
  is_ok (run (GetStatus (component_of (RootComponent k))) s) = true →
  ∃ tree, run (Build (NewComponentFactory k) Parse meta status) s = Ok tree.
Proof.
  intros Hmeta Hstatus Hv Hids Hext Hst. apply Validate_wf in Hv as Hwf; [|done..].
  destruct (build_succeeds k s Hwf Hids Hext (treeFuel (NewComponentFactory k)) [RootComponent k])
    as [nodes Hnodes]; [by repeat constructor; apply root_within| |].
  { unfold treeFuel. by destruct (factory_tables k) as (-> & _). }
  assert (Hne : nodes ≠ []).
  { apply (build_describes k s Hwf _ [RootComponent k]) in Hnodes; [|by repeat constructor; apply root_within].
    by inversion Hnodes. }
  destruct nodes as [|root rest]; [done|].
  destruct (run (GetStatus (component_of (RootComponent k))) s) as [st|] eqn:Hs; [|done].
  unfold Build. replace (fac_karta (NewComponentFactory k)) with (Some k) by (symmetry; apply factory_tables).
  rewrite Hv. eexists. pose proof GetStatus_readonly. run_ok. eexists.
  rewrite run_lift, map_error_Ok, GetRootComponent_of by apply Hwf. split; [done|].
  rewrite run_bind_Ok; [|eauto with readonly|intros; solve_respects]. eexists. split; [exact Hnodes|].
  run_ok. exists st. by rewrite run_wrap, Hs, run_ret.
Qed.

(** ** Concrete inputs *)

Definition tree_table : table := Table {[
  ".status.phase" := [VString "Running"];
  ".spec.leader" := [VMap {[ "spec" := VNil ]}];
  ".spec.worker" := [VMap {[ "spec" := VNil ]}] ]}.

Definition sample_Build : M table WorkloadTree :=
  Build (NewComponentFactory sample_karta) (λ _, Ok AScalar) [] [].

(** One group over a leader and a worker, running. *)
Example Build_sample :
  ∃ tree, run sample_Build tree_table = Ok tree ∧
    wt_Status tree = Some (MkWorkloadStatus [RunningStatus]) ∧
    (match wt_Children tree with
     | [MkComponentNode n _ _ [MkInstanceNode None None None _ [MkComponentNode n1 _ p1 _;
                                                                MkComponentNode n2 _ p2 _]]] =>
         Some (n, (n1, p1), (n2, p2))
     | _ => None
     end) = Some ("group", ("leader", true), ("worker", true)).
Proof. eexists. split; [vm_compute; reflexivity|]. done. Qed.

Lemma Build_readonly_witness : readonly (R:=table) sample_Build.
Proof. apply (Build_readonly (NewComponentFactory sample_karta)). Defined.

Lemma Build_describes_witness :
  ∃ tree, run sample_Build tree_table = Ok tree ∧
  ∃ root st, node_of sample_karta tree_table (RootComponent sample_karta) root ∧
    wt_Children tree = match cn_Instances root with [] => [] | i :: _ => in_Children i end ∧
    run (GetStatus (component_of (RootComponent sample_karta))) tree_table = Ok st ∧
    wt_Status tree = (λ st, MkWorkloadStatus (status_MatchedStatuses st)) <$> st.
Proof.
  eexists. split; [vm_compute; reflexivity|].
  apply (Build_describes (λ _, Ok AScalar) [] [] sample_karta tree_table); [by split..|].
  vm_compute. reflexivity.
Defined.

Lemma Build_succeeds_witness : ∃ tree, run sample_Build tree_table = Ok tree.
Proof.
  apply (Build_succeeds (λ _, Ok AScalar) [] [] sample_karta tree_table).
  - by split.
  - by split.
  - vm_compute. reflexivity.
  - apply Forall_forall. repeat (constructor; [vm_compute; reflexivity|]). constructor.
  - apply Forall_forall. repeat (constructor; [vm_compute; reflexivity|]). constructor.
  - vm_compute. reflexivity.
Defined.
