(* ===== verification/Store.v ===== *)
(** * Store: the published results of the exporter

    Models [dsx-workload-exporter/pkg/store/store.go].  Every method runs under
    the store's lock and is one step.  Results are values here; that the copies
    the methods make let a pointer to a result stand for its value, whatever the
    callers write later, is what [StoreHeap] proves.  The store is specified as a
    log: what a key holds is decided by the last operation on that key alone. *)

From S2P Require Import Prelude Api.

Definition UID := string.

Record ObjectRef := MkObjectRef {
  or_GVK : GroupVersionKind;
  or_Namespace : string;
  or_Name : string;
  or_UID : UID;
  or_ResourceVersion : string;
}.

Definition OwnerResolution := string.
Definition Resolved : OwnerResolution := "resolved".
Definition IgnoredOwner : OwnerResolution := "ignored_owner".
Definition UnknownOwner : OwnerResolution := "unknown".

Record GroupVersionResource := GVR { gvr_Group : string; gvr_Version : string; gvr_Resource : string }.

Record SourceKey := MkSourceKey { sk_Resource : GroupVersionResource; sk_Namespace : string }.

#[export] Instance GroupVersionResource_eq_dec : EqDecision GroupVersionResource.
Proof. solve_decision. Defined.
#[export] Instance GroupVersionResource_countable : Countable GroupVersionResource.
Proof.
  refine (inj_countable' (λ r, (gvr_Group r, gvr_Version r, gvr_Resource r))
    (λ '(g, v, r), GVR g v r) _). by intros [].
Defined.
#[export] Instance SourceKey_eq_dec : EqDecision SourceKey.
Proof. solve_decision. Defined.
#[export] Instance SourceKey_countable : Countable SourceKey.
Proof.
  refine (inj_countable' (λ k, (sk_Resource k, sk_Namespace k)) (λ '(r, n), MkSourceKey r n) _).
  by intros [].
Defined.

Record PodRecord := MkPodRecord {
  pr_Workload : ObjectRef;
  pr_Karta : string;
  pr_KartaSource : string;
  pr_Namespace : string;
  pr_UID : UID;
  pr_Name : string;
  pr_Component : string;
  pr_Instance : string;
  pr_Group : string;
  pr_OwnerResolution : OwnerResolution;
  pr_Labels : gmap string string;
}.

Record PodResult := MkPodResult {
  pres_Record : PodRecord;
  pres_Input : ObjectRef;
  pres_HasValue : bool;
  pres_Error : string;
  pres_Sources : list SourceKey;
}.

Record WorkloadRecord := MkWorkloadRecord {
  wr_UID : UID;
  wr_Ref : ObjectRef;
  wr_Karta : string;
  wr_KartaSource : string;
  wr_OwnerResolution : OwnerResolution;
  wr_HasStatus : bool;
  wr_Phases : list string;
  wr_CreatedTimestamp : Z;
  wr_StatusLabels : gmap string string;
}.

Record WorkloadResult := MkWorkloadResult {
  wres_Record : WorkloadRecord;
  wres_HasValue : bool;
  wres_Error : string;
  wres_StatusError : string;
  wres_Sources : list SourceKey;
  wres_CreationSources : list SourceKey;
}.

Record SourceHealth := MkSourceHealth {
  sh_GVK : GroupVersionKind;
  sh_Synced : bool;
  sh_Error : string;
}.

Record DiscoveryFailure := MkDiscoveryFailure { df_Input : ObjectRef; df_Error : string }.

Record Store := MkStore {
  st_pods : gmap UID PodResult;
  st_workloads : gmap UID WorkloadResult;
  st_sources : gmap SourceKey SourceHealth;
  st_failures : gmap UID DiscoveryFailure;
}.

Record CapturedView := MkCapturedView {
  cv_Pods : list PodResult;
  cv_Workloads : list WorkloadResult;
  cv_Sources : gmap SourceKey SourceHealth;
  cv_Failures : list DiscoveryFailure;
}.

Definition ReasonNone : string := "none".
Definition ReasonPermissionDenied : string := "permission_denied".
Definition ReasonAPIUnavailable : string := "api_unavailable".
Definition ReasonInvalidDefinition : string := "invalid_definition".
Definition ReasonUnresolvedOwner : string := "unresolved_owner".
Definition ReasonEvaluationFailed : string := "evaluation_failed".

(** ** Operations *)

Definition New : Store := MkStore ∅ ∅ ∅ ∅.

Definition UpsertPod (result : PodResult) (s : Store) : Store :=
  MkStore (<[pr_UID (pres_Record result) := result]> (st_pods s)) (st_workloads s)
    (st_sources s) (st_failures s).

Definition Pod (uid : UID) (s : Store) : option PodResult := st_pods s !! uid.

Definition RemovePod (uid : UID) (s : Store) : Store :=
  MkStore (delete uid (st_pods s)) (st_workloads s) (st_sources s) (st_failures s).

Definition UpsertWorkload (result : WorkloadResult) (s : Store) : Store :=
  MkStore (st_pods s) (<[wr_UID (wres_Record result) := result]> (st_workloads s))
    (st_sources s) (st_failures s).

Definition Workload (uid : UID) (s : Store) : option WorkloadResult := st_workloads s !! uid.

Definition RemoveWorkload (uid : UID) (s : Store) : Store :=
  MkStore (st_pods s) (delete uid (st_workloads s)) (st_sources s) (st_failures s).

Definition SetSourceHealth (key : SourceKey) (health : SourceHealth) (s : Store) : Store :=
  MkStore (st_pods s) (st_workloads s) (<[key := health]> (st_sources s)) (st_failures s).

Definition RemoveSourceHealth (key : SourceKey) (s : Store) : Store :=
  MkStore (st_pods s) (st_workloads s) (delete key (st_sources s)) (st_failures s).

Definition SetDiscoveryFailure (input : ObjectRef) (reason : string) (s : Store) : Store :=
  MkStore (st_pods s) (st_workloads s) (st_sources s)
    (<[or_UID input := MkDiscoveryFailure input reason]> (st_failures s)).

Definition RemoveDiscoveryFailure (uid : UID) (s : Store) : Store :=
  MkStore (st_pods s) (st_workloads s) (st_sources s) (delete uid (st_failures s)).

Definition Capture (s : Store) : CapturedView :=
  MkCapturedView ((map_to_list (st_pods s)).*2) ((map_to_list (st_workloads s)).*2)
    (st_sources s) ((map_to_list (st_failures s)).*2).

(** The zero value a Go map lookup yields for a missing source. *)
Definition zero_health : SourceHealth := MkSourceHealth (GVK "" "" "") false "".

Fixpoint valid_sources (v : CapturedView) (sources : list SourceKey) (reason : string)
  : bool * string :=
  match sources with
  | [] => (bool_decide (reason = ReasonNone), reason)
  | key :: sources =>
      let exists_ := bool_decide (is_Some (cv_Sources v !! key)) in
      let health := default zero_health (cv_Sources v !! key) in
      if bool_decide (sh_Error health = ReasonPermissionDenied) then (false, ReasonPermissionDenied)
      else if negb exists_ || negb (sh_Synced health) ||
              (bool_decide (sh_Error health ≠ "") && bool_decide (sh_Error health ≠ ReasonNone))
      then valid_sources v sources ReasonAPIUnavailable
      else valid_sources v sources reason
  end.

Definition Valid (v : CapturedView) (sources : list SourceKey) (reason : string) : bool * string :=
  if bool_decide (reason ≠ "") && bool_decide (reason ≠ ReasonNone) then (false, reason)
  else valid_sources v sources ReasonNone.

(** ** The store as a log *)

Inductive operation :=
  | OpUpsertPod (r : PodResult)
  | OpRemovePod (uid : UID)
  | OpUpsertWorkload (r : WorkloadResult)
  | OpRemoveWorkload (uid : UID)
  | OpSetSourceHealth (k : SourceKey) (h : SourceHealth)
  | OpRemoveSourceHealth (k : SourceKey)
  | OpSetDiscoveryFailure (input : ObjectRef) (reason : string)
  | OpRemoveDiscoveryFailure (uid : UID).

Definition step (s : Store) (op : operation) : Store :=
  match op with
  | OpUpsertPod r => UpsertPod r s
  | OpRemovePod uid => RemovePod uid s
  | OpUpsertWorkload r => UpsertWorkload r s
  | OpRemoveWorkload uid => RemoveWorkload uid s
  | OpSetSourceHealth k h => SetSourceHealth k h s
  | OpRemoveSourceHealth k => RemoveSourceHealth k s
  | OpSetDiscoveryFailure i r => SetDiscoveryFailure i r s
  | OpRemoveDiscoveryFailure uid => RemoveDiscoveryFailure uid s
  end.

Definition execute (ops : list operation) : Store := foldl step New ops.

(** What an operation writes at a key, if anything. *)
Definition pod_write (uid : UID) (op : operation) : option (option PodResult) :=
  match op with
  | OpUpsertPod r => if bool_decide (pr_UID (pres_Record r) = uid) then Some (Some r) else None
  | OpRemovePod uid' => if bool_decide (uid' = uid) then Some None else None
  | _ => None
  end.

Definition workload_write (uid : UID) (op : operation) : option (option WorkloadResult) :=
  match op with
  | OpUpsertWorkload r => if bool_decide (wr_UID (wres_Record r) = uid) then Some (Some r) else None
  | OpRemoveWorkload uid' => if bool_decide (uid' = uid) then Some None else None
  | _ => None
  end.

Definition source_write (key : SourceKey) (op : operation) : option (option SourceHealth) :=
  match op with
  | OpSetSourceHealth k h => if bool_decide (k = key) then Some (Some h) else None
  | OpRemoveSourceHealth k => if bool_decide (k = key) then Some None else None
  | _ => None
  end.

Definition failure_write (uid : UID) (op : operation) : option (option DiscoveryFailure) :=
  match op with
  | OpSetDiscoveryFailure i r =>
      if bool_decide (or_UID i = uid) then Some (Some (MkDiscoveryFailure i r)) else None
  | OpRemoveDiscoveryFailure uid' => if bool_decide (uid' = uid) then Some None else None
  | _ => None
  end.

Ltac solve_write :=
  intros s []; cbn; try done; case_bool_decide; subst; cbn;
  rewrite ?lookup_insert_eq, ?lookup_delete_eq, ?lookup_insert_ne, ?lookup_delete_ne by done; done.

Lemma pod_step uid s op : Pod uid (step s op) = default (Pod uid s) (pod_write uid op).
Proof. revert s op. unfold Pod. solve_write. Qed.

Lemma workload_step uid s op : Workload uid (step s op) = default (Workload uid s) (workload_write uid op).
Proof. revert s op. unfold Workload. solve_write. Qed.

Lemma source_step key s op :
  st_sources (step s op) !! key = default (st_sources s !! key) (source_write key op).
Proof. revert s op. solve_write. Qed.

Lemma failure_step uid s op :
  st_failures (step s op) !! uid = default (st_failures s !! uid) (failure_write uid op).
Proof. revert s op. solve_write. Qed.

Lemma Pod_execute uid ops : Pod uid (execute ops) = last_write (pod_write uid) ops.
Proof. by apply (foldl_last_write step New (pod_write uid) (Pod uid)); [|intros; apply pod_step]. Qed.

Lemma Workload_execute uid ops : Workload uid (execute ops) = last_write (workload_write uid) ops.
Proof.
  by apply (foldl_last_write step New (workload_write uid) (Workload uid)); [|intros; apply workload_step].
Qed.

Lemma Source_execute key ops : st_sources (execute ops) !! key = last_write (source_write key) ops.
Proof.
  by apply (foldl_last_write step New (source_write key) (λ s, st_sources s !! key));
    [|intros; apply source_step].
Qed.

Lemma Failure_execute uid ops : st_failures (execute ops) !! uid = last_write (failure_write uid) ops.
Proof.
  by apply (foldl_last_write step New (failure_write uid) (λ s, st_failures s !! uid));
    [|intros; apply failure_step].
Qed.

(** A pod result is filed under its own UID, a workload result under its own. *)
Lemma Pod_key uid ops r : Pod uid (execute ops) = Some r → pr_UID (pres_Record r) = uid.
Proof.
  rewrite Pod_execute. unfold last_write.
  destruct (last (omap (pod_write uid) ops)) as [w|] eqn:E; [|done]. cbn. intros ->.
  apply last_omap_elem in E as (op & _ & E). destruct op; try done; cbn in E; case_bool_decide; congruence.
Qed.

Lemma Workload_key uid ops r : Workload uid (execute ops) = Some r → wr_UID (wres_Record r) = uid.
Proof.
  rewrite Workload_execute. unfold last_write.
  destruct (last (omap (workload_write uid) ops)) as [w|] eqn:E; [|done]. cbn. intros ->.
  apply last_omap_elem in E as (op & _ & E). destruct op; try done; cbn in E; case_bool_decide; congruence.
Qed.

Lemma values_NoDup {A} (m : gmap UID A) (key : A → UID) :
  (∀ k a, m !! k = Some a → key a = k) → NoDup (key <$> (map_to_list m).*2).
Proof.
  intros Hkey. rewrite <- list_fmap_compose.
  replace ((key ∘ snd) <$> map_to_list m) with (fst <$> map_to_list m); [apply NoDup_fst_map_to_list|].
  apply list_fmap_ext. intros i [k a] Hi%list_elem_of_lookup_2. apply elem_of_map_to_list in Hi.
  symmetry. by apply Hkey.
Qed.

Lemma values_elem {A} (m : gmap UID A) a : a ∈ (map_to_list m).*2 ↔ ∃ k, m !! k = Some a.
Proof.
  rewrite list_elem_of_fmap. split.
  - intros ([k a'] & -> & Hk%elem_of_map_to_list). by exists k.
  - intros [k Hk]. exists (k, a). split; [done|]. by apply elem_of_map_to_list.
Qed.

(** ** Properties *)

(** A capture shows each published result once: exactly the pods and
    workloads last written and not removed, no UID twice, with the failures that
    stand and the health of every source. *)
Theorem Capture_spec ops :
  let v := Capture (execute ops) in
  (∀ r, r ∈ cv_Pods v ↔ ∃ uid, last_write (pod_write uid) ops = Some r) ∧
  (∀ r, r ∈ cv_Workloads v ↔ ∃ uid, last_write (workload_write uid) ops = Some r) ∧
  (∀ f, f ∈ cv_Failures v ↔ ∃ uid, last_write (failure_write uid) ops = Some f) ∧
  NoDup ((λ r, pr_UID (pres_Record r)) <$> cv_Pods v) ∧
  NoDup ((λ r, wr_UID (wres_Record r)) <$> cv_Workloads v) ∧
  ∀ key, cv_Sources v !! key = last_write (source_write key) ops.
Proof.
  unfold Capture. cbn [cv_Pods cv_Workloads cv_Sources cv_Failures]. split_and!.
  - intros r. rewrite values_elem. by setoid_rewrite <- Pod_execute.
  - intros r. rewrite values_elem. by setoid_rewrite <- Workload_execute.
  - intros f. rewrite values_elem. by setoid_rewrite <- Failure_execute.
  - apply values_NoDup. intros uid r. apply Pod_key.
  - apply values_NoDup. intros uid r. apply Workload_key.
  - intros key. apply Source_execute.
Qed.

Definition denied (v : CapturedView) (key : SourceKey) : bool :=
  match cv_Sources v !! key with
  | Some h => bool_decide (sh_Error h = ReasonPermissionDenied)
  | None => false
  end.

Definition healthy (v : CapturedView) (key : SourceKey) : bool :=
  match cv_Sources v !! key with
  | Some h => sh_Synced h && (bool_decide (sh_Error h = "") || bool_decide (sh_Error h = ReasonNone))
  | None => false
  end.

Lemma valid_sources_spec v sources reason :
  valid_sources v sources reason =
  if existsb (denied v) sources then (false, ReasonPermissionDenied)
  else if forallb (healthy v) sources then (bool_decide (reason = ReasonNone), reason)
  else (false, ReasonAPIUnavailable).
Proof.
  revert reason. induction sources as [|key sources IH]; intros reason; [done|].
  cbn [valid_sources existsb forallb]. unfold denied at 1, healthy at 1.
  destruct (cv_Sources v !! key) as [h|].
  - cbn [default from_option id]. rewrite (bool_decide_true (is_Some (Some h))) by done.
    case_bool_decide as Hd; [done|]. cbn [orb negb].
    destruct (sh_Synced h); cbn [negb orb andb].
    + destruct (decide (sh_Error h = "")) as [E1|E1], (decide (sh_Error h = ReasonNone)) as [E2|E2];
        rewrite ?(bool_decide_true (sh_Error h = "")), ?(bool_decide_false (sh_Error h = "")),
          ?(bool_decide_true (sh_Error h = ReasonNone)), ?(bool_decide_false (sh_Error h = ReasonNone)),
          ?(bool_decide_true (sh_Error h ≠ "")), ?(bool_decide_false (sh_Error h ≠ "")),
          ?(bool_decide_true (sh_Error h ≠ ReasonNone)), ?(bool_decide_false (sh_Error h ≠ ReasonNone))
          by (done || auto); cbn; rewrite IH; clear IH; by destruct (existsb (denied v) sources), (forallb (healthy v) sources).
    + rewrite IH. clear IH; by destruct (existsb (denied v) sources), (forallb (healthy v) sources).
  - cbn [default from_option id]. rewrite (bool_decide_false (is_Some (@None SourceHealth))) by (by intros []).
    cbn. rewrite IH.
    clear IH; by destruct (existsb (denied v) sources), (forallb (healthy v) sources).
Qed.

Lemma Valid_eq v sources reason :
  Valid v sources reason =
  if bool_decide (reason = "" ∨ reason = ReasonNone) then
    if existsb (denied v) sources then (false, ReasonPermissionDenied)
    else if forallb (healthy v) sources then (true, ReasonNone)
    else (false, ReasonAPIUnavailable)
  else (false, reason).
Proof.
  unfold Valid. destruct (decide (reason = "" ∨ reason = ReasonNone)) as [Hr|Hr].
  - rewrite (bool_decide_true (_ ∨ _)) by done. rewrite valid_sources_spec.
    replace (bool_decide (reason ≠ "") && bool_decide (reason ≠ ReasonNone)) with false; [done|].
    symmetry. apply andb_false_iff. rewrite !bool_decide_eq_false. destruct Hr; [left|right]; auto.
  - rewrite (bool_decide_false (_ ∨ _)) by done. by rewrite !bool_decide_true by tauto.
Qed.

(** A result is valid exactly when its own evaluation gave no error and
    every collection it was computed from is synchronised without error; an
    error of its own is reported first, then a denied collection wherever it
    stands in the list, then unavailability. *)
Theorem Valid_spec v sources reason :
  Valid v sources reason =
  if bool_decide (reason = "" ∨ reason = ReasonNone) then
    if existsb (denied v) sources then (false, ReasonPermissionDenied)
    else if forallb (healthy v) sources then (true, ReasonNone)
    else (false, ReasonAPIUnavailable)
  else (false, reason).
Proof. apply Valid_eq. Qed.
