(* ===== verification/StoreHeap.v ===== *)
(** * StoreHeap: the memory behind the published results

    [Store] keeps results as values.  Here the same methods of
    [dsx-workload-exporter/pkg/store/store.go] run on a heap: a result is an object
    that points to its maps and slices, callers keep the pointers they pass in and
    may write through them later, [Pod], [Workload] and [Capture] hand out pointers
    to what the store keeps, and the health of the sources is one map written in
    place.  The theorem is that, as long as callers do not write to what they were
    handed, the heap is the store of values: the copies the methods make are
    enough. *)

From S2P Require Import Prelude Api Store.

Notation loc := nat (only parsing).

(** What memory holds.  The fields of a result that are maps or slices are where
    its pointers lead; those of the record beside them are not used. *)
Inductive cell :=
  | CLabels (labels : gmap string string)
  | CStrings (strings : list string)
  | CKeys (keys : list SourceKey)
  | CHealth (sources : gmap SourceKey SourceHealth)
  | CPod (fields : PodResult) (labels sources : option loc)
  | CWorkload (fields : WorkloadResult) (statusLabels phases sources creationSources : option loc).

Notation heap := (gmap loc cell) (only parsing).

(** The store.  [hs_published] is not memory: the cells it has handed out or may
    hand out, which callers only read. *)
Record HeapStore := MkHeapStore {
  hs_heap : heap;
  hs_published : gset loc;
  hs_pods : gmap UID loc;
  hs_workloads : gmap UID loc;
  hs_sources : loc;
  hs_failures : gmap UID DiscoveryFailure;
}.

Record HeapView := MkHeapView {
  hv_Pods : list loc;
  hv_Workloads : list loc;
  hv_Sources : loc;
  hv_Failures : list DiscoveryFailure;
}.

(** ** Reading *)

Definition load_labels (h : heap) (l : loc) : option (gmap string string) :=
  match h !! l with Some (CLabels m) => Some m | _ => None end.
Definition load_strings (h : heap) (l : loc) : option (list string) :=
  match h !! l with Some (CStrings m) => Some m | _ => None end.
Definition load_keys (h : heap) (l : loc) : option (list SourceKey) :=
  match h !! l with Some (CKeys m) => Some m | _ => None end.
Definition load_health (h : heap) (l : loc) : option (gmap SourceKey SourceHealth) :=
  match h !! l with Some (CHealth m) => Some m | _ => None end.

(** A nil map or slice reads as an empty one. *)
Definition read_or {A} (zero : A) (load : loc → option A) (p : option loc) : option A :=
  match p with None => Some zero | Some l => load l end.

Definition set_pod (r : PodResult) (labels : gmap string string) (sources : list SourceKey) : PodResult :=
  let p := pres_Record r in
  MkPodResult
    (MkPodRecord (pr_Workload p) (pr_Karta p) (pr_KartaSource p) (pr_Namespace p) (pr_UID p) (pr_Name p)
       (pr_Component p) (pr_Instance p) (pr_Group p) (pr_OwnerResolution p) labels)
    (pres_Input r) (pres_HasValue r) (pres_Error r) sources.

Definition set_workload (r : WorkloadResult) (statusLabels : gmap string string) (phases : list string)
    (sources creationSources : list SourceKey) : WorkloadResult :=
  let w := wres_Record r in
  MkWorkloadResult
    (MkWorkloadRecord (wr_UID w) (wr_Ref w) (wr_Karta w) (wr_KartaSource w) (wr_OwnerResolution w)
       (wr_HasStatus w) phases (wr_CreatedTimestamp w) statusLabels)
    (wres_HasValue r) (wres_Error r) (wres_StatusError r) sources creationSources.

(** What a pointer to a result shows. *)
Definition read_pod (h : heap) (l : loc) : option PodResult :=
  match h !! l with
  | Some (CPod fields labels sources) =>
      labels ← read_or ∅ (load_labels h) labels;
      sources ← read_or [] (load_keys h) sources;
      Some (set_pod fields labels sources)
  | _ => None
  end.

Definition read_workload (h : heap) (l : loc) : option WorkloadResult :=
  match h !! l with
  | Some (CWorkload fields statusLabels phases sources creationSources) =>
      statusLabels ← read_or ∅ (load_labels h) statusLabels;
      phases ← read_or [] (load_strings h) phases;
      sources ← read_or [] (load_keys h) sources;
      creationSources ← read_or [] (load_keys h) creationSources;
      Some (set_workload fields statusLabels phases sources creationSources)
  | _ => None
  end.

(** The next address, past all in use. *)
Definition unused (h : heap) : loc := S (max_list ((map_to_list h).*1)).

Lemma unused_None (h : heap) : h !! unused h = None.
Proof.
  destruct (h !! unused h) as [c|] eqn:E; [|done]. apply elem_of_map_to_list in E.
  apply (list_elem_of_fmap_2 fst), max_list_elem_of_le in E. unfold unused in E. cbn in E. lia.
Qed.

(** ** Operations; no answer is a panic: a nil or dangling pointer *)

Definition New : HeapStore :=
  let sources := 0 in MkHeapStore {[ sources := CHealth ∅ ]} ∅ ∅ ∅ sources ∅.

(** A cell the store makes, which callers do not write. *)
Definition alloc (c : cell) (s : HeapStore) : loc * HeapStore :=
  let l := unused (hs_heap s) in
  (l, MkHeapStore (<[l := c]> (hs_heap s)) ({[l]} ∪ hs_published s) (hs_pods s) (hs_workloads s)
        (hs_sources s) (hs_failures s)).

(** [maps.Clone] and [slices.Clone]: a nil one stays nil. *)
Definition clone {A} (load : heap → loc → option A) (make : A → cell) (p : option loc) (s : HeapStore)
    : option (option loc * HeapStore) :=
  match p with
  | None => Some (None, s)
  | Some l => v ← load (hs_heap s) l; let '(l', s) := alloc (make v) s in Some (Some l', s)
  end.

Definition UpsertPod (result : loc) (s : HeapStore) : option HeapStore :=
  match hs_heap s !! result with
  | Some (CPod fields labels sources) =>
      '(labels, s) ← clone load_labels CLabels labels s;
      '(sources, s) ← clone load_keys CKeys sources s;
      let '(next, s) := alloc (CPod fields labels sources) s in
      Some (MkHeapStore (hs_heap s) (hs_published s) (<[pr_UID (pres_Record fields) := next]> (hs_pods s))
              (hs_workloads s) (hs_sources s) (hs_failures s))
  | _ => None
  end.

Definition Pod (uid : UID) (s : HeapStore) : option loc := hs_pods s !! uid.

Definition RemovePod (uid : UID) (s : HeapStore) : HeapStore :=
  MkHeapStore (hs_heap s) (hs_published s) (delete uid (hs_pods s)) (hs_workloads s) (hs_sources s)
    (hs_failures s).

Definition UpsertWorkload (result : loc) (s : HeapStore) : option HeapStore :=
  match hs_heap s !! result with
  | Some (CWorkload fields statusLabels phases sources creationSources) =>
      '(statusLabels, s) ← clone load_labels CLabels statusLabels s;
      '(phases, s) ← clone load_strings CStrings phases s;
      '(sources, s) ← clone load_keys CKeys sources s;
      '(creationSources, s) ← clone load_keys CKeys creationSources s;
      let '(next, s) := alloc (CWorkload fields statusLabels phases sources creationSources) s in
      Some (MkHeapStore (hs_heap s) (hs_published s) (hs_pods s)
              (<[wr_UID (wres_Record fields) := next]> (hs_workloads s)) (hs_sources s) (hs_failures s))
  | _ => None
  end.

Definition Workload (uid : UID) (s : HeapStore) : option loc := hs_workloads s !! uid.

Definition RemoveWorkload (uid : UID) (s : HeapStore) : HeapStore :=
  MkHeapStore (hs_heap s) (hs_published s) (hs_pods s) (delete uid (hs_workloads s)) (hs_sources s)
    (hs_failures s).

(** A write to the map of sources, in place. *)
Definition over_sources (f : gmap SourceKey SourceHealth → gmap SourceKey SourceHealth) (s : HeapStore)
    : option HeapStore :=
  sources ← load_health (hs_heap s) (hs_sources s);
  Some (MkHeapStore (<[hs_sources s := CHealth (f sources)]> (hs_heap s)) (hs_published s) (hs_pods s)
          (hs_workloads s) (hs_sources s) (hs_failures s)).

Definition SetSourceHealth (key : SourceKey) (health : SourceHealth) : HeapStore → option HeapStore :=
  over_sources (insert key health).

Definition RemoveSourceHealth (key : SourceKey) : HeapStore → option HeapStore := over_sources (delete key).

Definition SetDiscoveryFailure (input : ObjectRef) (reason : string) (s : HeapStore) : HeapStore :=
  MkHeapStore (hs_heap s) (hs_published s) (hs_pods s) (hs_workloads s) (hs_sources s)
    (<[or_UID input := MkDiscoveryFailure input reason]> (hs_failures s)).

Definition RemoveDiscoveryFailure (uid : UID) (s : HeapStore) : HeapStore :=
  MkHeapStore (hs_heap s) (hs_published s) (hs_pods s) (hs_workloads s) (hs_sources s)
    (delete uid (hs_failures s)).

(** The view owns its map of sources, which its caller may write, and shares the
    results. *)
Definition Capture (s : HeapStore) : option (HeapView * HeapStore) :=
  sources ← load_health (hs_heap s) (hs_sources s);
  let l := unused (hs_heap s) in
  Some (MkHeapView ((map_to_list (hs_pods s)).*2) ((map_to_list (hs_workloads s)).*2) l
          ((map_to_list (hs_failures s)).*2),
        MkHeapStore (<[l := CHealth sources]> (hs_heap s)) (hs_published s) (hs_pods s) (hs_workloads s)
          (hs_sources s) (hs_failures s)).

(** ** What callers do *)

(** A method of the store, or a write of the caller's: to a new cell or to one of
    its own, whether or not it passed a pointer to it before. *)
Inductive action :=
  | Write (l : loc) (c : cell)
  | CallUpsertPod (result : loc)
  | CallRemovePod (uid : UID)
  | CallUpsertWorkload (result : loc)
  | CallRemoveWorkload (uid : UID)
  | CallSetSourceHealth (key : SourceKey) (health : SourceHealth)
  | CallRemoveSourceHealth (key : SourceKey)
  | CallSetDiscoveryFailure (input : ObjectRef) (reason : string)
  | CallRemoveDiscoveryFailure (uid : UID)
  | CallCapture.

(** The pointers in a cell. *)
Definition points (c : cell) : list loc :=
  match c with
  | CPod _ labels sources => option_list labels ++ option_list sources
  | CWorkload _ statusLabels phases sources creationSources =>
      option_list statusLabels ++ option_list phases ++ option_list sources ++ option_list creationSources
  | _ => []
  end.

(** The contract: results are not written, and nobody else has the map of sources;
    and pointers lead to memory. *)
Definition writable (l : loc) (c : cell) (s : HeapStore) : bool :=
  bool_decide (l ∉ hs_published s) && bool_decide (l ≠ hs_sources s) &&
  forallb (λ x, bool_decide (is_Some (hs_heap s !! x))) (points c).

Definition write (l : loc) (c : cell) (s : HeapStore) : option HeapStore :=
  if writable l c s then
    Some (MkHeapStore (<[l := c]> (hs_heap s)) (hs_published s) (hs_pods s) (hs_workloads s) (hs_sources s)
            (hs_failures s))
  else None.

Definition perform (s : HeapStore) (a : action) : option HeapStore :=
  match a with
  | Write l c => write l c s
  | CallUpsertPod result => UpsertPod result s
  | CallRemovePod uid => Some (RemovePod uid s)
  | CallUpsertWorkload result => UpsertWorkload result s
  | CallRemoveWorkload uid => Some (RemoveWorkload uid s)
  | CallSetSourceHealth key health => SetSourceHealth key health s
  | CallRemoveSourceHealth key => RemoveSourceHealth key s
  | CallSetDiscoveryFailure input reason => Some (SetDiscoveryFailure input reason s)
  | CallRemoveDiscoveryFailure uid => Some (RemoveDiscoveryFailure uid s)
  | CallCapture => snd <$> Capture s
  end.

Fixpoint performs (s : HeapStore) (actions : list action) : option HeapStore :=
  match actions with
  | [] => Some s
  | a :: actions => s ← perform s a; performs s actions
  end.

(** What a call asks of the store of values: the arguments as they read when it is
    made. *)
Definition asked (s : HeapStore) (a : action) : option operation :=
  match a with
  | Write _ _ | CallCapture => None
  | CallUpsertPod result => OpUpsertPod <$> read_pod (hs_heap s) result
  | CallRemovePod uid => Some (OpRemovePod uid)
  | CallUpsertWorkload result => OpUpsertWorkload <$> read_workload (hs_heap s) result
  | CallRemoveWorkload uid => Some (OpRemoveWorkload uid)
  | CallSetSourceHealth key health => Some (OpSetSourceHealth key health)
  | CallRemoveSourceHealth key => Some (OpRemoveSourceHealth key)
  | CallSetDiscoveryFailure input reason => Some (OpSetDiscoveryFailure input reason)
  | CallRemoveDiscoveryFailure uid => Some (OpRemoveDiscoveryFailure uid)
  end.

Fixpoint log (s : HeapStore) (actions : list action) : list operation :=
  match actions with
  | [] => []
  | a :: actions =>
      option_list (asked s a) ++ match perform s a with Some s => log s actions | None => [] end
  end.

(** The store of values a heap shows. *)
Definition shown (s : HeapStore) : Store :=
  MkStore (omap (read_pod (hs_heap s)) (hs_pods s)) (omap (read_workload (hs_heap s)) (hs_workloads s))
    (default ∅ (load_health (hs_heap s) (hs_sources s))) (hs_failures s).

(** A call that does not panic by its argument, and a write that keeps the
    contract. *)
Definition callable (s : HeapStore) (a : action) : Prop :=
  match a with
  | Write l c => writable l c s = true
  | CallUpsertPod result => is_Some (read_pod (hs_heap s) result)
  | CallUpsertWorkload result => is_Some (read_workload (hs_heap s) result)
  | _ => True
  end.

(** ** Invariants *)

(** Pointers lead to memory; what is published points to published cells only; the
    map of sources is the store's own; and what the store keeps can be read. *)
Record wf (s : HeapStore) : Prop := {
  wf_safe l c x : hs_heap s !! l = Some c → x ∈ points c → is_Some (hs_heap s !! x);
  wf_published l : l ∈ hs_published s → is_Some (hs_heap s !! l);
  wf_closed l c x : l ∈ hs_published s → hs_heap s !! l = Some c → x ∈ points c → x ∈ hs_published s;
  wf_private : hs_sources s ∉ hs_published s;
  wf_health : is_Some (load_health (hs_heap s) (hs_sources s));
  wf_pods uid l : hs_pods s !! uid = Some l → l ∈ hs_published s ∧ is_Some (read_pod (hs_heap s) l);
  wf_workloads uid l : hs_workloads s !! uid = Some l → l ∈ hs_published s ∧ is_Some (read_workload (hs_heap s) l);
}.

(** What is published stays so, and is never written. *)
Definition extends (s s' : HeapStore) : Prop :=
  hs_published s ⊆ hs_published s' ∧ hs_sources s' = hs_sources s ∧
  ∀ l, l ∈ hs_published s → hs_heap s' !! l = hs_heap s !! l.

#[export] Instance extends_preorder : PreOrder extends.
Proof.
  split; [done|]. intros s1 s2 s3 (P1 & S1 & E1) (P2 & S2 & E2). split_and!; [by etrans|congruence|].
  intros l Hl. rewrite E2, E1; [done..|]. by apply P1.
Qed.

Lemma load_health_eq h h' l : h' !! l = h !! l → load_health h' l = load_health h l.
Proof. unfold load_health. by intros ->. Qed.

Lemma read_or_ext {A} (zero : A) load load' p :
  (∀ x, p = Some x → load' x = load x) → read_or zero load' p = read_or zero load p.
Proof. destruct p; [|done]. intros Hx. by apply Hx. Qed.

(** Reading looks at a cell and at those it points to. *)
Lemma read_pod_ext h h' l :
  h' !! l = h !! l → (∀ c x, h !! l = Some c → x ∈ points c → h' !! x = h !! x) → read_pod h' l = read_pod h l.
Proof.
  intros Hl Hx. unfold read_pod. rewrite Hl. destruct (h !! l) as [[| | | |fields lb sr|]|]; try done.
  rewrite (read_or_ext ∅ (load_labels h) (load_labels h')), (read_or_ext [] (load_keys h) (load_keys h')); [done|..];
    intros x ->; unfold load_labels, load_keys; (rewrite (Hx _ x eq_refl); [done|]); cbn; set_solver.
Qed.

Lemma read_workload_ext h h' l :
  h' !! l = h !! l → (∀ c x, h !! l = Some c → x ∈ points c → h' !! x = h !! x) →
  read_workload h' l = read_workload h l.
Proof.
  intros Hl Hx. unfold read_workload. rewrite Hl. destruct (h !! l) as [[| | | | |fields lb ph sr cr]|]; try done.
  rewrite (read_or_ext ∅ (load_labels h) (load_labels h')), (read_or_ext [] (load_strings h) (load_strings h')),
    (read_or_ext [] (load_keys h) (load_keys h') sr), (read_or_ext [] (load_keys h) (load_keys h') cr); [done|..];
    intros x ->; unfold load_labels, load_strings, load_keys; (rewrite (Hx _ x eq_refl); [done|]); cbn; set_solver.
Qed.

Lemma read_pod_extends s s' l :
  wf s → extends s s' → l ∈ hs_published s → read_pod (hs_heap s') l = read_pod (hs_heap s) l.
Proof.
  intros Hs (_ & _ & He) Hl. apply read_pod_ext; [by apply He|]. intros c x Hc Hx. apply He. by eapply wf_closed.
Qed.

Lemma read_workload_extends s s' l :
  wf s → extends s s' → l ∈ hs_published s → read_workload (hs_heap s') l = read_workload (hs_heap s) l.
Proof.
  intros Hs (_ & _ & He) Hl. apply read_workload_ext; [by apply He|]. intros c x Hc Hx. apply He. by eapply wf_closed.
Qed.

Lemma omap_ext_in {A B} (f g : A → option B) (m : gmap UID A) :
  (∀ k x, m !! k = Some x → f x = g x) → omap f m = omap g m.
Proof.
  intros Hfg. apply map_eq. intros k. rewrite !lookup_omap. destruct (m !! k) as [x|] eqn:E; [|done].
  cbn. by eapply Hfg.
Qed.

(** The published results do not change as long as the store keeps the same ones. *)
Lemma shown_pods s s' :
  wf s → extends s s' → omap (read_pod (hs_heap s')) (hs_pods s) = omap (read_pod (hs_heap s)) (hs_pods s).
Proof. intros Hs He. apply omap_ext_in. intros k l [Hl _]%(wf_pods _ Hs). by apply read_pod_extends. Qed.

Lemma shown_workloads s s' :
  wf s → extends s s' →
  omap (read_workload (hs_heap s')) (hs_workloads s) = omap (read_workload (hs_heap s)) (hs_workloads s).
Proof. intros Hs He. apply omap_ext_in. intros k l [Hl _]%(wf_workloads _ Hs). by apply read_workload_extends. Qed.

(** *** Making cells *)

(** New cells, and nothing else. *)
Record grown (s s' : HeapStore) : Prop := {
  gr_wf : wf s';
  gr_heap : hs_heap s ⊆ hs_heap s';
  gr_published : hs_published s ⊆ hs_published s';
  gr_pods : hs_pods s' = hs_pods s;
  gr_workloads : hs_workloads s' = hs_workloads s;
  gr_sources : hs_sources s' = hs_sources s;
  gr_failures : hs_failures s' = hs_failures s;
}.

Lemma grown_refl s : wf s → grown s s.
Proof. by split. Qed.

Lemma grown_trans s1 s2 s3 : grown s1 s2 → grown s2 s3 → grown s1 s3.
Proof. intros [] []. split; [done|by etrans|by etrans|congruence..]. Qed.

Lemma lookup_grown (h h' : heap) x : h ⊆ h' → is_Some (h !! x) → h' !! x = h !! x.
Proof. intros Hh [c Hc]. rewrite Hc. by eapply lookup_weaken. Qed.

Lemma grown_extends s s' : wf s → grown s s' → extends s s'.
Proof.
  intros Hs Hg. split_and!; [apply Hg|apply Hg|]. intros l Hl. apply lookup_grown; [apply Hg|by apply wf_published].
Qed.

Lemma read_pod_grown s h l r :
  wf s → hs_heap s ⊆ h → read_pod (hs_heap s) l = Some r → read_pod h l = Some r.
Proof.
  intros Hs Hh Hr. rewrite <- Hr. apply read_pod_ext.
  - apply lookup_grown; [done|]. unfold read_pod in Hr. by destruct (hs_heap s !! l).
  - intros c x Hc Hx. apply lookup_grown; [done|by eapply wf_safe].
Qed.

Lemma read_workload_grown s h l r :
  wf s → hs_heap s ⊆ h → read_workload (hs_heap s) l = Some r → read_workload h l = Some r.
Proof.
  intros Hs Hh Hr. rewrite <- Hr. apply read_workload_ext.
  - apply lookup_grown; [done|]. unfold read_workload in Hr. by destruct (hs_heap s !! l).
  - intros c x Hc Hx. apply lookup_grown; [done|by eapply wf_safe].
Qed.

Lemma fresh_cell s : hs_heap s !! unused (hs_heap s) = None.
Proof. apply unused_None. Qed.

(** A well-formed store stays so with one more cell; [published] says which of the
    cells are the store's. *)
Lemma wf_new_cell s c (published : gset loc) :
  wf s → (∀ x, x ∈ points c → x ∈ hs_published s) →
  let l := unused (hs_heap s) in
  published = hs_published s ∨ published = {[l]} ∪ hs_published s →
  wf (MkHeapStore (<[l := c]> (hs_heap s)) published (hs_pods s) (hs_workloads s) (hs_sources s) (hs_failures s)).
Proof.
  intros Hs Hc l Hpub. pose proof (fresh_cell s) as Hl. fold l in Hl. clearbody l.
  assert (Hsub : hs_published s ⊆ published) by (destruct Hpub as [-> | ->]; set_solver).
  assert (Hin : ∀ x, x ∈ published → x = l ∨ x ∈ hs_published s) by (destruct Hpub as [-> | ->]; set_solver).
  assert (Hold : ∀ x, is_Some (hs_heap s !! x) → x ≠ l) by (intros x [? E] ->; congruence).
  assert (Hnew : ∀ x, is_Some (hs_heap s !! x) → <[l:=c]> (hs_heap s) !! x = hs_heap s !! x).
  { intros x Hx. rewrite lookup_insert_ne; [done|]. by apply not_eq_sym, Hold. }
  assert (Hh : hs_heap s ⊆ <[l:=c]> (hs_heap s)) by by apply insert_subseteq.
  assert (Hpt : ∀ x, x ∈ points c → is_Some (hs_heap s !! x)) by eauto using wf_published.
  assert (Hsrc : is_Some (hs_heap s !! hs_sources s)).
  { destruct (wf_health s Hs) as [m Hm]. unfold load_health in Hm. by destruct (hs_heap s !! hs_sources s). }
  split; cbn [hs_heap hs_published hs_pods hs_workloads hs_sources hs_failures].
  - intros l0 c0 x [[<- <-]|[_ Hl0]]%lookup_insert_Some Hx; rewrite Hnew; eauto using wf_safe.
  - intros l0 [->|Hl0]%Hin; [rewrite lookup_insert_eq; by eexists|rewrite Hnew; eauto using wf_published].
  - intros l0 c0 x [->|Hl0]%Hin Hl1 Hx; apply Hsub.
    + rewrite lookup_insert_eq in Hl1. injection Hl1 as <-. by apply Hc.
    + rewrite Hnew in Hl1 by (by apply wf_published). by eapply wf_closed.
  - intros [E|E]%Hin; [by apply Hold in Hsrc|by apply wf_private in E].
  - rewrite (load_health_eq (hs_heap s)) by (by apply Hnew). by apply wf_health.
  - intros uid l0 [Hl0 [r Hr]]%(wf_pods _ Hs). split; [by apply Hsub|]. exists r.
    by apply (read_pod_grown s).
  - intros uid l0 [Hl0 [r Hr]]%(wf_workloads _ Hs). split; [by apply Hsub|]. exists r.
    by apply (read_workload_grown s).
Qed.

Lemma alloc_spec c s l s' :
  wf s → (∀ x, x ∈ points c → x ∈ hs_published s) → alloc c s = (l, s') →
  grown s s' ∧ l ∈ hs_published s' ∧ hs_heap s' !! l = Some c.
Proof.
  intros Hs Hc [= <- <-]. split_and!;
    [split; cbn [hs_heap hs_published hs_pods hs_workloads hs_sources hs_failures]; try done|cbn; set_solver|].
  4: { cbn [hs_heap]. by rewrite lookup_insert_eq. }
  - apply wf_new_cell; [done..|by right].
  - by apply insert_subseteq, fresh_cell.
  - set_solver.
Qed.

(** A way to read one kind of cell. *)
Definition reads {A} (load : heap → loc → option A) (make : A → cell) : Prop :=
  (∀ h l v, load h l = Some v ↔ h !! l = Some (make v)) ∧ ∀ v, points (make v) = [].

Lemma reads_labels : reads load_labels CLabels.
Proof. split; [|done]. intros h l v. unfold load_labels. destruct (h !! l) as [[]|]; naive_solver. Qed.
Lemma reads_strings : reads load_strings CStrings.
Proof. split; [|done]. intros h l v. unfold load_strings. destruct (h !! l) as [[]|]; naive_solver. Qed.
Lemma reads_keys : reads load_keys CKeys.
Proof. split; [|done]. intros h l v. unfold load_keys. destruct (h !! l) as [[]|]; naive_solver. Qed.

Lemma read_or_grown {A} load (make : A → cell) zero p v (h h' : heap) :
  reads load make → h ⊆ h' → read_or zero (load h) p = Some v → read_or zero (load h') p = Some v.
Proof.
  intros [Hload _] Hh. destruct p as [l|]; [|done]. cbn. rewrite !Hload. intros E. by eapply lookup_weaken.
Qed.

(** A copy is published, and reads as the original; there is one when the original
    can be read. *)
Lemma clone_spec {A} load (make : A → cell) zero p s p' s' :
  reads load make → wf s → clone load make p s = Some (p', s') →
  grown s s' ∧ (∀ x, p' = Some x → x ∈ hs_published s') ∧
  ∃ v, read_or zero (load (hs_heap s)) p = Some v ∧ read_or zero (load (hs_heap s')) p' = Some v.
Proof.
  intros [Hload Hpoints] Hs. destruct p as [l|]; cbn [clone].
  - intros (v & Hv & E)%bind_Some. destruct (alloc (make v) s) as [l' s1] eqn:Ea. injection E as <- <-.
    apply alloc_spec in Ea as (Hg & Hl & Hl'); [|done|rewrite Hpoints; set_solver].
    split_and!; [done|by intros x [= <-]|]. exists v. split; [done|]. cbn. by apply Hload.
  - intros [= <- <-]. split_and!; [by apply grown_refl|done|by exists zero].
Qed.

Lemma clone_Some {A} load (make : A → cell) zero p s v :
  read_or zero (load (hs_heap s)) p = Some v → is_Some (clone load make p s).
Proof. destruct p as [l|]; cbn; [intros ->; cbn|]; by eexists. Qed.

(** ** Every call is the one on values *)

(** From a well-formed store to another, in which the values are those that [f]
    makes of them. *)
Definition simulates (s s' : HeapStore) (f : Store → Store) : Prop :=
  wf s' ∧ extends s s' ∧ shown s' = f (shown s).

Lemma shown_eq s s' :
  wf s → extends s s' → hs_pods s' = hs_pods s → hs_workloads s' = hs_workloads s →
  hs_failures s' = hs_failures s →
  shown s' = MkStore (st_pods (shown s)) (st_workloads (shown s))
    (default ∅ (load_health (hs_heap s') (hs_sources s))) (st_failures (shown s)).
Proof.
  intros Hs He Hp Hw Hf. unfold shown. cbn. rewrite Hp, Hw, Hf, shown_pods, shown_workloads by done.
  by destruct He as (_ & -> & _).
Qed.

Lemma health_cell s : wf s → is_Some (hs_heap s !! hs_sources s).
Proof.
  intros [m Hm]%wf_health. unfold load_health in Hm. destruct (hs_heap s !! hs_sources s); [by eexists|done].
Qed.

Lemma grown_shown s s' : wf s → grown s s' → shown s' = shown s.
Proof.
  intros Hs Hg. rewrite (shown_eq s s') by (done || by apply grown_extends || apply Hg).
  rewrite (load_health_eq (hs_heap s)); [done|]. apply lookup_grown; [apply Hg|by apply health_cell].
Qed.

(** A published result takes its place in the store. *)
Lemma wf_pod s uid l :
  wf s → l ∈ hs_published s → is_Some (read_pod (hs_heap s) l) →
  wf (MkHeapStore (hs_heap s) (hs_published s) (<[uid := l]> (hs_pods s)) (hs_workloads s) (hs_sources s)
        (hs_failures s)).
Proof. intros [] Hl Hr. split; cbn; try done. intros uid' l' [[<- <-]|[_ ?]]%lookup_insert_Some; [done|eauto]. Qed.

Lemma wf_workload s uid l :
  wf s → l ∈ hs_published s → is_Some (read_workload (hs_heap s) l) →
  wf (MkHeapStore (hs_heap s) (hs_published s) (hs_pods s) (<[uid := l]> (hs_workloads s)) (hs_sources s)
        (hs_failures s)).
Proof. intros [] Hl Hr. split; cbn; try done. intros uid' l' [[<- <-]|[_ ?]]%lookup_insert_Some; [done|eauto]. Qed.

(** [p'] is a published copy of what [p] led to. *)
Definition copied {A} (load : heap → loc → option A) (zero : A) (s s' : HeapStore) (p p' : option loc) (v : A) : Prop :=
  (∀ x, p' = Some x → x ∈ hs_published s') ∧
  read_or zero (load (hs_heap s)) p = Some v ∧ read_or zero (load (hs_heap s')) p' = Some v.

Lemma copied_grown {A} load (make : A → cell) zero s s1 s2 p p' v :
  reads load make → copied load zero s s1 p p' v → grown s1 s2 → copied load zero s s2 p p' v.
Proof.
  intros Hread (Hp & Hv & Hv') Hg. split_and!; [|done|].
  - intros x Hx. by apply (gr_published _ _ Hg), Hp.
  - by eapply read_or_grown; [|apply Hg|].
Qed.

(** Copying, one after another, what a cell points to. *)
Lemma clone_copied {A} load (make : A → cell) zero s s0 l c p p' s' :
  reads load make → wf s → grown s s0 → hs_heap s !! l = Some c → (∀ x, p = Some x → x ∈ points c) →
  clone load make p s0 = Some (p', s') →
  grown s s' ∧ grown s0 s' ∧ ∃ v, copied load zero s s' p p' v.
Proof.
  intros Hread Hs Hg Hl Hx (Hg' & Hp & v & Hv & Hv')%(clone_spec _ _ zero); [|done|apply Hg].
  split_and!; [by eapply grown_trans|done|]. exists v. split_and!; [done| |done].
  destruct p as [x|]; [|done]. cbn in *. destruct Hread as [Hload _]. apply Hload in Hv. apply Hload.
  rewrite <- Hv. symmetry. apply lookup_grown; [apply Hg|]. eapply wf_safe; [done|exact Hl|by apply Hx].
Qed.

Lemma published_points {A} load (zero : A) s s' p p' v x :
  x ∈ option_list p' → copied load zero s s' p p' v → x ∈ hs_published s'.
Proof. intros Hx (Hp & _). destruct p'; [|by apply not_elem_of_nil in Hx]. apply Hp. set_solver. Qed.

Lemma UpsertPod_simulates s l s' :
  wf s → UpsertPod l s = Some s' →
  ∃ r, read_pod (hs_heap s) l = Some r ∧ hs_heap s ⊆ hs_heap s' ∧ simulates s s' (Store.UpsertPod r).
Proof.
  intros Hs. unfold UpsertPod, read_pod. destruct (hs_heap s !! l) as [[| | | |fields lb sr|]|] eqn:El; try done.
  intros ([lb' s1] & E1 & E)%bind_Some. apply bind_Some in E as ([sr' s2] & E2 & E).
  destruct (alloc (CPod fields lb' sr') s2) as [next s3] eqn:E3. injection E as <-.
  apply (clone_copied _ _ ∅ s s l _ _ _ _ reads_labels Hs (grown_refl s Hs) El) in E1
    as (G1 & _ & labels & C1); [|intros x ->; cbn; set_solver].
  apply (clone_copied _ _ [] s s1 l _ _ _ _ reads_keys Hs G1 El) in E2 as (G2 & G12 & sources & C2); [|intros x ->; cbn; set_solver].
  pose proof (copied_grown _ _ _ _ _ _ _ _ _ reads_labels C1 G12) as C1'.
  apply alloc_spec in E3 as (G23 & Hnext & Hcell); [|apply G2|].
  2: { cbn. intros x [Hx|Hx]%elem_of_app; (eapply published_points; [exact Hx|eassumption]). }
  pose proof (grown_trans _ _ _ G2 G23) as G.
  destruct (copied_grown _ _ _ _ _ _ _ _ _ reads_labels C1' G23) as (_ & V1 & W1).
  destruct (copied_grown _ _ _ _ _ _ _ _ _ reads_keys C2 G23) as (_ & V2 & W2).
  rewrite V1, V2. cbn [mbind option_bind]. eexists. split; [done|]. split; [apply G|].
  assert (Hr : read_pod (hs_heap s3) next = Some (set_pod fields labels sources))
    by (unfold read_pod; by rewrite Hcell, W1, W2).
  split_and!.
  - apply wf_pod; [apply G|done|]. rewrite Hr. by eexists.
  - apply (grown_extends s s3 Hs G).
  - unfold shown at 1. cbn [hs_heap hs_pods hs_workloads hs_sources hs_failures].
    rewrite (omap_insert_Some _ _ _ _ (set_pod fields labels sources)) by done.
    pose proof (grown_shown s s3 Hs G) as [= Ep Ew Eh Ef]. unfold Store.UpsertPod. by rewrite Ep, Ew, Eh, Ef.
Qed.

Lemma UpsertWorkload_simulates s l s' :
  wf s → UpsertWorkload l s = Some s' →
  ∃ r, read_workload (hs_heap s) l = Some r ∧ hs_heap s ⊆ hs_heap s' ∧ simulates s s' (Store.UpsertWorkload r).
Proof.
  intros Hs. unfold UpsertWorkload, read_workload.
  destruct (hs_heap s !! l) as [[| | | | |fields lb ph sr cr]|] eqn:El; try done.
  intros ([lb' s1] & E1 & E)%bind_Some. apply bind_Some in E as ([ph' s2] & E2 & E).
  apply bind_Some in E as ([sr' s3] & E3 & E). apply bind_Some in E as ([cr' s4] & E4 & E).
  destruct (alloc (CWorkload fields lb' ph' sr' cr') s4) as [next s5] eqn:E5. injection E as <-.
  apply (clone_copied _ _ ∅ s s l _ _ _ _ reads_labels Hs (grown_refl s Hs) El) in E1
    as (G1 & _ & labels & C1); [|intros x ->; cbn; set_solver].
  apply (clone_copied _ _ [] s s1 l _ _ _ _ reads_strings Hs G1 El) in E2 as (G2 & G12 & phases & C2); [|intros x ->; cbn; set_solver].
  apply (clone_copied _ _ [] s s2 l _ _ _ _ reads_keys Hs G2 El) in E3 as (G3 & G23 & sources & C3); [|intros x ->; cbn; set_solver].
  apply (clone_copied _ _ [] s s3 l _ _ _ _ reads_keys Hs G3 El) in E4 as (G4 & G34 & creation & C4); [|intros x ->; cbn; set_solver].
  pose proof (grown_trans _ _ _ G23 G34) as G24.
  pose proof (copied_grown _ _ _ _ _ _ _ _ _ reads_labels C1 G12) as C1'.
  pose proof (copied_grown _ _ _ _ _ _ _ _ _ reads_labels C1' G24) as C1''.
  pose proof (copied_grown _ _ _ _ _ _ _ _ _ reads_strings C2 G24) as C2'.
  pose proof (copied_grown _ _ _ _ _ _ _ _ _ reads_keys C3 G34) as C3'.
  apply alloc_spec in E5 as (G45 & Hnext & Hcell); [|apply G4|].
  2: { cbn. intros x Hx. repeat (apply elem_of_app in Hx as [Hx|Hx]); (eapply published_points; [exact Hx|eassumption]). }
  pose proof (grown_trans _ _ _ G4 G45) as G.
  destruct (copied_grown _ _ _ _ _ _ _ _ _ reads_labels C1'' G45) as (_ & V1 & W1).
  destruct (copied_grown _ _ _ _ _ _ _ _ _ reads_strings C2' G45) as (_ & V2 & W2).
  destruct (copied_grown _ _ _ _ _ _ _ _ _ reads_keys C3' G45) as (_ & V3 & W3).
  destruct (copied_grown _ _ _ _ _ _ _ _ _ reads_keys C4 G45) as (_ & V4 & W4).
  rewrite V1, V2, V3, V4. cbn [mbind option_bind]. eexists. split; [done|]. split; [apply G|].
  assert (Hr : read_workload (hs_heap s5) next = Some (set_workload fields labels phases sources creation))
    by (unfold read_workload; by rewrite Hcell, W1, W2, W3, W4).
  split_and!.
  - apply wf_workload; [apply G|done|]. rewrite Hr. by eexists.
  - apply (grown_extends s s5 Hs G).
  - unfold shown at 1. cbn [hs_heap hs_pods hs_workloads hs_sources hs_failures].
    rewrite (omap_insert_Some _ _ _ _ (set_workload fields labels phases sources creation)) by done.
    pose proof (grown_shown s s5 Hs G) as [= Ep Ew Eh Ef]. unfold Store.UpsertWorkload. by rewrite Ep, Ew, Eh, Ef.
Qed.

(** A cell that is not published is written. *)
Definition with_cell (l : loc) (c : cell) (s : HeapStore) : HeapStore :=
  MkHeapStore (<[l := c]> (hs_heap s)) (hs_published s) (hs_pods s) (hs_workloads s) (hs_sources s) (hs_failures s).

Lemma extends_with_cell s l c : l ∉ hs_published s → extends s (with_cell l c s).
Proof.
  intros Hl. split_and!; [done|done|]. intros l' Hl'. cbn [hs_heap with_cell]. apply lookup_insert_ne. by intros ->.
Qed.

Lemma wf_with_cell s l c :
  wf s → l ∉ hs_published s → (∀ x, x ∈ points c → is_Some (hs_heap s !! x)) →
  is_Some (load_health (<[l := c]> (hs_heap s)) (hs_sources s)) → wf (with_cell l c s).
Proof.
  intros Hs Hl Hc Hh. pose proof (extends_with_cell s l c Hl) as He. pose proof He as (_ & _ & Hsame).
  assert (Hdom : ∀ x, is_Some (hs_heap s !! x) → is_Some (<[l:=c]> (hs_heap s) !! x)).
  { intros x Hx. destruct (decide (x = l)) as [->|]; [rewrite lookup_insert_eq; by eexists|by rewrite lookup_insert_ne]. }
  split; cbn [with_cell hs_heap hs_published hs_pods hs_workloads hs_sources hs_failures] in *; try done.
  - intros l0 c0 x [[<- <-]|[_ Hl0]]%lookup_insert_Some Hx; apply Hdom; eauto using wf_safe.
  - intros l0 Hl0. rewrite Hsame by done. by apply wf_published.
  - intros l0 c0 x Hl0 Hc0. rewrite Hsame in Hc0 by done. by eapply wf_closed.
  - by apply wf_private.
  - intros uid l0 [Hl0 [r Hr]]%(wf_pods _ Hs). split; [done|]. exists r.
    by rewrite (read_pod_extends s (with_cell l c s)).
  - intros uid l0 [Hl0 [r Hr]]%(wf_workloads _ Hs). split; [done|]. exists r.
    by rewrite (read_workload_extends s (with_cell l c s)).
Qed.

Lemma write_simulates s l c s' : wf s → write l c s = Some s' → simulates s s' id.
Proof.
  intros Hs. unfold write. destruct (writable l c s) eqn:Ew; [|done]. intros [= <-].
  apply andb_true_iff in Ew as [[Hl%bool_decide_eq_true Hsrc%bool_decide_eq_true]%andb_true_iff Hc].
  rewrite forallb_forall in Hc.
  change (MkHeapStore _ _ _ _ _ _) with (with_cell l c s).
  assert (Hh : load_health (<[l := c]> (hs_heap s)) (hs_sources s) = load_health (hs_heap s) (hs_sources s))
    by (apply load_health_eq; by apply lookup_insert_ne).
  pose proof (extends_with_cell s l c Hl) as He. split_and!; [|done|].
  - apply wf_with_cell; [done..| |by rewrite Hh; apply wf_health].
    intros x Hx. by eapply bool_decide_eq_true_1, Hc, list_elem_of_In.
  - rewrite (shown_eq s) by done. cbn [with_cell hs_heap]. by rewrite Hh.
Qed.

Lemma over_sources_simulates f s :
  wf s → ∃ s', over_sources f s = Some s' ∧
    simulates s s' (λ v, MkStore (st_pods v) (st_workloads v) (f (st_sources v)) (st_failures v)).
Proof.
  intros Hs. destruct (wf_health s Hs) as [m Hm]. unfold over_sources. rewrite Hm. cbn [mbind option_bind].
  eexists. split; [done|]. change (MkHeapStore _ _ _ _ _ _) with (with_cell (hs_sources s) (CHealth (f m)) s).
  pose proof (wf_private s Hs) as Hl. pose proof (extends_with_cell s _ (CHealth (f m)) Hl) as He.
  assert (Hh : load_health (<[hs_sources s := CHealth (f m)]> (hs_heap s)) (hs_sources s) = Some (f m))
    by (unfold load_health; by rewrite lookup_insert_eq).
  split_and!; [|done|].
  - apply wf_with_cell; [done..| |rewrite Hh; by eexists]. cbn. set_solver.
  - rewrite (shown_eq s) by done. cbn [with_cell hs_heap]. rewrite Hh. unfold shown. cbn. by rewrite Hm.
Qed.

(** The view's own map, in a new cell. *)
Lemma Capture_simulates s :
  wf s → ∃ l s',
    Capture s = Some (MkHeapView ((map_to_list (hs_pods s)).*2) ((map_to_list (hs_workloads s)).*2) l
                        ((map_to_list (hs_failures s)).*2), s') ∧
    simulates s s' id ∧ (l ≠ hs_sources s') ∧ (l ∉ hs_published s') ∧
    load_health (hs_heap s') l = Some (st_sources (shown s)).
Proof.
  intros Hs. destruct (wf_health s Hs) as [m Hm]. unfold Capture. rewrite Hm. cbn [mbind option_bind].
  set (l := unused (hs_heap s)). pose proof (fresh_cell s) as Hl. fold l in Hl.
  exists l. eexists. split; [done|]. set (s' := MkHeapStore _ _ _ _ _ _).
  assert (Hg : grown s s').
  { split; try done; [|by apply insert_subseteq]. apply wf_new_cell; [done|cbn; set_solver|by left]. }
  split; [split_and!; [apply Hg|by apply grown_extends|by apply grown_shown]|]. split_and!.
  - cbn. intros E. destruct (health_cell s Hs) as [c Hc]. congruence.
  - intros [c Hc]%(wf_published s Hs). congruence.
  - unfold load_health, shown. cbn [s' hs_heap st_sources]. by rewrite lookup_insert_eq, Hm.
Qed.

(** The methods that only take an entry out, or write the failures. *)
Ltac plain Hs :=
  split_and!; [destruct Hs; split; cbn; try done; intros ? ? [_ ?]%lookup_delete_Some; eauto|done|];
  unfold shown; cbn; by rewrite ?omap_delete.

Lemma perform_simulates s a s' :
  wf s → perform s a = Some s' → simulates s s' (λ v, foldl Store.step v (option_list (asked s a))).
Proof.
  intros Hs. destruct a; cbn [perform asked].
  - by apply write_simulates.
  - intros E. destruct (UpsertPod_simulates s result s' Hs E) as (r & -> & _ & Hsim). exact Hsim.
  - intros [= <-]. cbn. plain Hs.
  - intros E. destruct (UpsertWorkload_simulates s result s' Hs E) as (r & -> & _ & Hsim). exact Hsim.
  - intros [= <-]. cbn. plain Hs.
  - intros E. destruct (over_sources_simulates (insert key health) s Hs) as (s1 & E1 & ?).
    unfold SetSourceHealth in E. rewrite E in E1. by injection E1 as <-.
  - intros E. destruct (over_sources_simulates (delete key) s Hs) as (s1 & E1 & ?).
    unfold RemoveSourceHealth in E. rewrite E in E1. by injection E1 as <-.
  - intros [= <-]. cbn. plain Hs.
  - intros [= <-]. cbn. plain Hs.
  - destruct (Capture_simulates s Hs) as (l & s1 & -> & Hsim & _). by intros [= <-].
Qed.

Lemma performs_simulates s actions s' :
  wf s → performs s actions = Some s' → simulates s s' (λ v, foldl Store.step v (log s actions)).
Proof.
  revert s. induction actions as [|a actions IH]; intros s Hs; cbn [performs log].
  { by intros [= <-]. }
  intros (s1 & E1 & E)%bind_Some. pose proof (perform_simulates s a s1 Hs E1) as (H1 & He1 & Hv1).
  destruct (IH s1 H1 E) as (H2 & He2 & Hv2). rewrite E1.
  split_and!; [done|by etrans|]. by rewrite foldl_app, <- Hv1.
Qed.

Lemma New_wf : wf New ∧ shown New = Store.New.
Proof.
  split; [|done]. split; cbn [New hs_heap hs_published hs_pods hs_workloads hs_sources]; try done.
  - intros l c x [<- <-]%lookup_singleton_Some. cbn. set_solver.
Qed.

(** A cell that is neither the map of sources nor written by its owner stays. *)
Lemma perform_other s a s' l :
  wf s → perform s a = Some s' → is_Some (hs_heap s !! l) → l ≠ hs_sources s → (∀ c, a ≠ Write l c) →
  hs_heap s' !! l = hs_heap s !! l.
Proof.
  intros Hs E Hl Hsrc Hw.
  assert (Hsources : ∀ f, over_sources f s = Some s' → hs_heap s' !! l = hs_heap s !! l).
  { unfold over_sources. intros f (m & _ & [= <-])%bind_Some. cbn [hs_heap]. by apply lookup_insert_ne. }
  destruct a as [l0 c|result|uid|result|uid|key health|key|input reason|uid|]; cbn [perform] in E;
    try (by injection E as <-); try (by eapply Hsources).
  - unfold write in E. destruct (writable l0 c s); [|done]. injection E as <-. cbn [hs_heap].
    apply lookup_insert_ne. intros ->. by apply (Hw c).
  - destruct (UpsertPod_simulates s result s' Hs E) as (r & _ & Hh & _). by apply lookup_grown.
  - destruct (UpsertWorkload_simulates s result s' Hs E) as (r & _ & Hh & _). by apply lookup_grown.
  - unfold Capture in E. apply fmap_Some in E as ([view s1] & (m & _ & [= _ <-])%bind_Some & ->). cbn [snd hs_heap].
    apply lookup_insert_ne. intros <-. destruct Hl as [c Hc]. by rewrite fresh_cell in Hc.
Qed.

Definition unwritten (l : loc) (actions : list action) : Prop := ∀ c, Write l c ∉ actions.

Lemma performs_other s actions s' l :
  wf s → performs s actions = Some s' → is_Some (hs_heap s !! l) → l ≠ hs_sources s → unwritten l actions →
  hs_heap s' !! l = hs_heap s !! l.
Proof.
  revert s. induction actions as [|a actions IH]; intros s Hs; cbn [performs].
  { by intros [= <-]. }
  intros (s1 & E1 & E)%bind_Some Hl Hsrc Hw. pose proof (perform_simulates s a s1 Hs E1) as (H1 & (_ & Esrc & _) & _).
  assert (Heq : hs_heap s1 !! l = hs_heap s !! l).
  { eapply perform_other; [done..|]. intros c ->. apply (Hw c). by left. }
  rewrite <- Heq. apply (IH s1); [done|done|by rewrite Heq|congruence|]. intros c Hc. apply (Hw c). by right.
Qed.

(** A call that may be made does not panic. *)
Lemma perform_callable s a : wf s → callable s a → is_Some (perform s a).
Proof.
  intros Hs. destruct a as [l c|l|uid|l|uid|key health|key|input reason|uid|]; cbn [perform callable]; try by eexists.
  - unfold write. intros ->. by eexists.
  - unfold read_pod, UpsertPod. destruct (hs_heap s !! l) as [[| | | |fields lb sr|]|] eqn:El; try by intros [? [=]].
    intros [r (labels & Hlb & (sources & Hsr & _)%bind_Some)%bind_Some].
    destruct (clone_Some load_labels CLabels ∅ lb s labels Hlb) as [[lb' s1] E1]. rewrite E1. cbn [mbind option_bind].
    destruct (clone_spec _ _ ∅ _ _ _ _ reads_labels Hs E1) as (G1 & _ & _).
    destruct (clone_Some load_keys CKeys [] sr s1 sources (read_or_grown _ _ _ _ _ _ _ reads_keys (gr_heap _ _ G1) Hsr))
      as [[sr' s2] E2]. rewrite E2. cbn. by eexists.
  - unfold read_workload, UpsertWorkload.
    destruct (hs_heap s !! l) as [[| | | | |fields lb ph sr cr]|] eqn:El; try by intros [? [=]].
    intros [r (labels & Hlb & E)%bind_Some]. apply bind_Some in E as (phases & Hph & E).
    apply bind_Some in E as (sources & Hsr & E). apply bind_Some in E as (creation & Hcr & _).
    destruct (clone_Some load_labels CLabels ∅ lb s labels Hlb) as [[lb' s1] E1]. rewrite E1. cbn [mbind option_bind].
    destruct (clone_spec _ _ ∅ _ _ _ _ reads_labels Hs E1) as (G1 & _ & _).
    destruct (clone_Some load_strings CStrings [] ph s1 phases (read_or_grown _ _ _ _ _ _ _ reads_strings (gr_heap _ _ G1) Hph))
      as [[ph' s2] E2]. rewrite E2. cbn [mbind option_bind].
    destruct (clone_spec _ _ [] _ _ _ _ reads_strings (gr_wf _ _ G1) E2) as (G2 & _ & _).
    pose proof (grown_trans _ _ _ G1 G2) as G12.
    destruct (clone_Some load_keys CKeys [] sr s2 sources (read_or_grown _ _ _ _ _ _ _ reads_keys (gr_heap _ _ G12) Hsr))
      as [[sr' s3] E3]. rewrite E3. cbn [mbind option_bind].
    destruct (clone_spec _ _ [] _ _ _ _ reads_keys (gr_wf _ _ G2) E3) as (G3 & _ & _).
    pose proof (grown_trans _ _ _ G12 G3) as G13.
    destruct (clone_Some load_keys CKeys [] cr s3 creation (read_or_grown _ _ _ _ _ _ _ reads_keys (gr_heap _ _ G13) Hcr))
      as [[cr' s4] E4]. rewrite E4. cbn. by eexists.
  - intros _. destruct (over_sources_simulates (insert key health) s Hs) as (s' & E & _). by exists s'.
  - intros _. destruct (over_sources_simulates (delete key) s Hs) as (s' & E & _). by exists s'.
  - intros _. destruct (Capture_simulates s Hs) as (l & s' & -> & _). by eexists.
Qed.

(** ** The results a view shares *)

(** The values of a map of pointers, all readable. *)
Lemma captured_values {A} (read : loc → option A) (m : gmap UID loc) :
  (∀ uid l, m !! uid = Some l → is_Some (read l)) →
  read <$> (map_to_list m).*2 ≡ₚ Some <$> (map_to_list (omap read m)).*2.
Proof.
  induction m as [|uid l m Hm IH] using map_ind; intros Hread.
  { by rewrite omap_empty, !map_to_list_empty. }
  destruct (Hread uid l) as [v Hv]; [by rewrite lookup_insert_eq|].
  rewrite (omap_insert_Some _ _ _ _ v) by done. rewrite !map_to_list_insert by (done || by rewrite lookup_omap, Hm).
  rewrite !fmap_cons. cbn. rewrite Hv, IH; [done|]. intros uid' l' E. apply (Hread uid').
  rewrite lookup_insert_ne; [done|]. intros ->. congruence.
Qed.

(** ** Properties *)

(** C26: with pointers, copies and writes in place the store is the one of values,
    whatever callers do later to what they passed in.  After any calls, and any
    writes of the callers to memory of their own, it shows what the calls asked
    for when they were made; every result handed out before, by [Pod], [Workload]
    or [Capture], still reads as it did then; a view's map of sources changes only
    if its owner writes it; and no call panics whose argument can be read. *)
Theorem heap_refines before s1 view s2 after s3 :
  performs New before = Some s1 → Capture s1 = Some (view, s2) → performs s2 after = Some s3 →
  let told := execute (log New before) in
  shown s1 = told ∧ shown s3 = foldl Store.step told (log s2 after) ∧
  (∀ uid, read_pod (hs_heap s3) <$> Pod uid s1 = Some <$> Store.Pod uid told) ∧
  (∀ uid, read_workload (hs_heap s3) <$> Workload uid s1 = Some <$> Store.Workload uid told) ∧
  read_pod (hs_heap s3) <$> hv_Pods view ≡ₚ Some <$> cv_Pods (Store.Capture told) ∧
  read_workload (hs_heap s3) <$> hv_Workloads view ≡ₚ Some <$> cv_Workloads (Store.Capture told) ∧
  hv_Failures view = cv_Failures (Store.Capture told) ∧
  (unwritten (hv_Sources view) after →
   load_health (hs_heap s3) (hv_Sources view) = Some (cv_Sources (Store.Capture told))) ∧
  ∀ a, callable s3 a → is_Some (perform s3 a).
Proof.
  intros E1 Ec E3 told. destruct New_wf as [Hnew Hv0].
  destruct (performs_simulates New before s1 Hnew E1) as (H1 & _ & Hv1). rewrite Hv0 in Hv1.
  destruct (Capture_simulates s1 H1) as (l & s2' & Ec' & (H2 & He2 & Hv2) & Hl & _ & Hhealth).
  rewrite Ec' in Ec. injection Ec as <- <-.
  destruct (performs_simulates s2' after s3 H2 E3) as (H3 & He3 & Hv3).
  assert (He : extends s1 s3) by by etrans. change (foldl Store.step Store.New (log New before)) with told in Hv1.
  pose proof (shown_pods s1 s3 H1 He) as Hpods. pose proof (shown_workloads s1 s3 H1 He) as Hworkloads.
  assert (Hp : ∀ uid l', hs_pods s1 !! uid = Some l' → is_Some (read_pod (hs_heap s3) l')).
  { intros uid l' [Hin ?]%(wf_pods _ H1). by rewrite (read_pod_extends s1 s3). }
  assert (Hw : ∀ uid l', hs_workloads s1 !! uid = Some l' → is_Some (read_workload (hs_heap s3) l')).
  { intros uid l' [Hin ?]%(wf_workloads _ H1). by rewrite (read_workload_extends s1 s3). }
  split_and!.
  - exact Hv1.
  - rewrite Hv3, Hv2. cbn. by rewrite Hv1.
  - intros uid. rewrite <- Hv1. unfold Store.Pod, Pod. cbn [shown st_pods]. rewrite <- Hpods, lookup_omap.
    destruct (hs_pods s1 !! uid) as [l'|] eqn:E; [|done]. cbn. by destruct (Hp _ _ E) as [r ->].
  - intros uid. rewrite <- Hv1. unfold Store.Workload, Workload. cbn [shown st_workloads].
    rewrite <- Hworkloads, lookup_omap. destruct (hs_workloads s1 !! uid) as [l'|] eqn:E; [|done]. cbn.
    by destruct (Hw _ _ E) as [r ->].
  - rewrite <- Hv1. cbn [hv_Pods Store.Capture cv_Pods shown st_pods]. rewrite <- Hpods. by apply captured_values.
  - rewrite <- Hv1. cbn [hv_Workloads Store.Capture cv_Workloads shown st_workloads]. rewrite <- Hworkloads.
    by apply captured_values.
  - by rewrite <- Hv1.
  - intros Hun. cbn [hv_Sources] in *. rewrite <- Hv1.
    change (load_health (hs_heap s3) l = Some (st_sources (shown s1))). rewrite <- Hhealth. apply load_health_eq.
    eapply performs_other; [done..| |done|done]. unfold load_health in Hhealth. by destruct (hs_heap s2' !! l).
  - intros a. by apply perform_callable.
Qed.

(** ** A concrete run *)

Definition sample_ref : ObjectRef := MkObjectRef (GVK "" "v1" "Pod") "ns" "p" "p1" "1".
Definition sample_record : PodRecord :=
  MkPodRecord sample_ref "k" "api" "ns" "p1" "p" "worker" "" "" Resolved ∅.
Definition sample_fields : PodResult := MkPodResult sample_record sample_ref true "" [].
Definition sample_source : SourceKey := MkSourceKey (GVR "" "v1" "pods") "".
Definition sample_health (synced : bool) : SourceHealth := MkSourceHealth (GVK "" "v1" "Pod") synced "".

(** A caller publishes a result with a label and a source, ... *)
Definition sample_before : list action :=
  [Write 11 (CLabels {["team" := "a"]}); Write 12 (CKeys [sample_source]);
   Write 10 (CPod sample_fields (Some 11) (Some 12)); CallUpsertPod 10;
   CallSetSourceHealth sample_source (sample_health true)].

(** ... and then uses the same memory for another result, and the source fails. *)
Definition sample_after : list action :=
  [Write 11 (CLabels {["team" := "b"]}); Write 12 (CKeys []); Write 10 (CPod sample_fields None (Some 12));
   CallSetSourceHealth sample_source (sample_health false); CallUpsertPod 10; CallRemovePod "p1"].

Definition sample_run : option (HeapView * HeapStore * HeapStore) :=
  s1 ← performs New sample_before; '(view, s2) ← Capture s1; s3 ← performs s2 sample_after; Some (view, s2, s3).

Definition sample_result : PodResult := set_pod sample_fields {["team" := "a"]} [sample_source].

Lemma sample_view :
  match sample_run with
  | Some (view, s2, s3) =>
      hv_Sources view = 16 ∧ omap (read_pod (hs_heap s3)) (hv_Pods view) = [sample_result] ∧
      (.!! sample_source) <$> load_health (hs_heap s3) (hv_Sources view) = Some (Some (sample_health true)) ∧
      Store.Pod "p1" (shown s3) = None ∧ st_sources (shown s3) !! sample_source = Some (sample_health false)
  | None => False
  end.
Proof. vm_compute. repeat split. Qed.

Lemma heap_refines_witness :
  ∃ s1 view s2 s3,
    performs New sample_before = Some s1 ∧ Capture s1 = Some (view, s2) ∧ performs s2 sample_after = Some s3 ∧
    load_health (hs_heap s3) (hv_Sources view) = Some (cv_Sources (Store.Capture (execute (log New sample_before)))).
Proof.
  pose proof sample_view as Hrun. unfold sample_run in Hrun.
  destruct (performs New sample_before) as [s1|] eqn:E1; [|destruct Hrun].
  cbn [mbind option_bind] in Hrun. destruct (Capture s1) as [[view s2]|] eqn:Ec; [|destruct Hrun].
  cbn [mbind option_bind] in Hrun. destruct (performs s2 sample_after) as [s3|] eqn:E3; [|destruct Hrun].
  destruct Hrun as [Hview _]. exists s1, view, s2, s3. split; [done|]. split; [done|]. split; [exact E3|].
  destruct (heap_refines sample_before s1 view s2 sample_after s3 E1 Ec E3) as (_ & _ & _ & _ & _ & _ & _ & Hs & _).
  apply Hs. intros c Hc. rewrite Hview in Hc. unfold sample_after in Hc.
  rewrite !elem_of_cons, elem_of_nil in Hc. repeat (destruct Hc as [Hc|Hc]; [discriminate|]). destruct Hc.
Defined.
