(* ===== verification/Discovery.v ===== *)
(** * Discovery: resolving an object to its top owner

    Models [dsx-workload-exporter/pkg/discovery/discovery.go] and [resolve.go].
    The context, the cache and the API server may answer differently at every
    turn of the walk, so their answers are parameters indexed by the turn.  The
    parser of group-versions and the predicates on API errors belong to the
    Kubernetes libraries and are parameters too. *)

From S2P Require Import Prelude Api Store.

Record OwnerReference := MkOwnerReference {
  own_Controller : option bool;
  own_APIVersion : string;
  own_Kind : string;
  own_Name : string;
  own_UID : UID;
}.

(** What the code reads of a [metav1.Object]. *)
Record Object := MkObject {
  obj_Name : string;
  obj_Namespace : string;
  obj_UID : UID;
  obj_ResourceVersion : string;
  obj_OwnerReferences : list OwnerReference;
}.

Record GenericWorkload := MkGenericWorkload {
  gw_Root : ObjectRef;
  gw_Path : list ObjectRef;
  gw_Resolution : OwnerResolution;
}.

Definition ErrPending : string := "discovery inputs not synchronized".
Definition ErrPermissionDenied : string := "discovery read denied".
Definition ErrUnavailable : string := "discovery source unavailable".
Definition ErrUnresolvedOwner : string := "owner chain unresolved".
Definition ErrInvalidDefinition : string := "invalid Karta definition".
Definition ErrEvaluation : string := "karta evaluation failed".
Definition ErrStale : string := "discovery inputs changed".
Definition ErrReaderRequired : string := "reader required".

(** [fmt.Errorf("%w: ...", sentinel)] *)
Definition sentinel_error (fmt : string) (args : list arg) (sentinel : string) : error :=
  Errorf fmt args [Sentinel sentinel].

Class KubernetesErrors := {
  ParseGroupVersion : string → result (string * string);
  IsForbidden : error → bool;
  IsUnauthorized : error → bool;
  IsNotFound : error → bool;
}.

Section discovery.
Context `{KubernetesErrors}.

Definition empty_ref : ObjectRef := MkObjectRef (GVK "" "" "") "" "" "" "".

(** The loop over the owner references; [None] for a malformed one. *)
Fixpoint controller_owner (owners : list OwnerReference) (ref : ObjectRef) : option ObjectRef :=
  match owners with
  | [] => Some ref
  | owner :: owners =>
      if negb (default false (own_Controller owner)) then controller_owner owners ref
      else
        match ParseGroupVersion (own_APIVersion owner) with
        | Fail _ => None
        | Ok (group, version) =>
            if bool_decide (or_UID ref ≠ "") || bool_decide (version = "") ||
               bool_decide (own_Name owner = "") || bool_decide (own_Kind owner = "") ||
               bool_decide (own_UID owner = "")
            then None
            else controller_owner owners
                   (MkObjectRef (GVK group version (own_Kind owner)) "" (own_Name owner) (own_UID owner) "")
        end
  end.

Definition ControllerOwner (object : Object) : option ObjectRef :=
  controller_owner (obj_OwnerReferences object) empty_ref.

Definition readError (err : error) : error :=
  if errors_Is ErrPending err then Errorf "%w: %w" [] [Sentinel ErrPending; err]
  else if errors_Is ErrStale err then err
  else if IsForbidden err || IsUnauthorized err || errors_Is ErrPermissionDenied err then
    Errorf "%w: %w" [] [Sentinel ErrPermissionDenied; err]
  else if IsNotFound err || errors_Is ErrUnresolvedOwner err then
    Errorf "%w: %w" [] [Sentinel ErrUnresolvedOwner; err]
  else Errorf "%w: %w" [] [Sentinel ErrUnavailable; err].

(** The reader and the context, turn by turn; a cached nil object is no hit. *)
Context (ctx_Err : nat → option error).
Context (Cached : nat → ObjectRef → option Object).
Context (GetMetadata : nat → ObjectRef → result (option Object)).
Context (ignored : GroupVersionKind → bool).

Definition read_object (turn : nat) (ref : ObjectRef) : result Object :=
  match Cached turn ref with
  | Some cached => Ok cached
  | None =>
      match GetMetadata turn ref with
      | Fail err => Fail (readError err)
      | Ok None => Fail (sentinel_error "%w: empty metadata" [] ErrUnavailable)
      | Ok (Some metadata) => Ok metadata
      end
  end.

Definition with_namespace (ref : ObjectRef) (namespace : string) : ObjectRef :=
  MkObjectRef (or_GVK ref) namespace (or_Name ref) (or_UID ref) (or_ResourceVersion ref).

(** The checks of one turn, and the reference with what was read. *)
Definition identify (first : bool) (ref : ObjectRef) (object : Object) : result ObjectRef :=
  let ref := if negb first && bool_decide (obj_Namespace object = "") then with_namespace ref "" else ref in
  if bool_decide (or_Name ref ≠ obj_Name object) || bool_decide (or_Namespace ref ≠ obj_Namespace object) ||
     bool_decide (obj_UID object = "") ||
     (bool_decide (or_UID ref ≠ "") && bool_decide (or_UID ref ≠ obj_UID object))
  then Fail (sentinel_error "%w: object identity changed" [] ErrStale)
  else if bool_decide (or_ResourceVersion ref ≠ "") &&
          bool_decide (or_ResourceVersion ref ≠ obj_ResourceVersion object)
  then Fail (sentinel_error "%w: resource version changed" [] ErrStale)
  else Ok (MkObjectRef (or_GVK ref) (or_Namespace ref) (or_Name ref) (obj_UID object)
             (obj_ResourceVersion object)).

(** The loop; [None] is out of fuel. *)
Fixpoint walk (fuel : nat) (ref : ObjectRef) (seen : gset UID) (path : list ObjectRef)
  : option (result GenericWorkload) :=
  match fuel with
  | O => None
  | S fuel =>
      let turn := length path in
      match ctx_Err turn with
      | Some err => Some (Fail err)
      | None =>
          if bool_decide (or_UID ref ∈ seen) then
            Some (Fail (sentinel_error "%w: ownership cycle at %s" [AStr (or_Name ref)] ErrUnresolvedOwner))
          else if (1024 <=? size seen) then
            Some (Fail (sentinel_error "%w: owner chain exceeds limit" [] ErrUnresolvedOwner))
          else
            match (object ← read_object turn ref;
                   ref ← identify (bool_decide (path = [])) ref object;
                   Ok (object, ref)) with
            | Fail err => Some (Fail err)
            | Ok (object, ref) =>
                let seen := {[or_UID ref]} ∪ seen in
                let path := path ++ [ref] in
                match ControllerOwner object with
                | None => Some (Fail (sentinel_error "%w: invalid controller reference" [] ErrUnresolvedOwner))
                | Some owner =>
                    if bool_decide (or_UID owner = "") then
                      Some (Ok (MkGenericWorkload ref path Resolved))
                    else if ignored (or_GVK owner) then
                      Some (Ok (MkGenericWorkload ref path IgnoredOwner))
                    else walk fuel (with_namespace owner (or_Namespace ref)) seen path
                end
            end
      end
  end.

(** More turns than owners the walk accepts. *)
Definition walkFuel : nat := 1025.

Definition out_of_turns : error := External "unreachable: the owner walk ran out of turns".

Definition Get (ref : ObjectRef) : result GenericWorkload :=
  default (Fail out_of_turns) (walk walkFuel ref ∅ []).

(** ** The path *)

(** A link of the path: the next reference is the controller of an object read
    for this one. *)
Definition link (turn : nat) (child parent : ObjectRef) : Prop :=
  ∃ asked object owner, read_object turn asked = Ok object ∧
    or_GVK asked = or_GVK child ∧ obj_UID object = or_UID child ∧ obj_Name object = or_Name child ∧
    obj_Namespace object = or_Namespace child ∧
    ControllerOwner object = Some owner ∧ ignored (or_GVK owner) = false ∧ or_UID owner ≠ "" ∧
    or_GVK parent = or_GVK owner ∧ or_Name parent = or_Name owner ∧ or_UID parent = or_UID owner.

(** The end of the path: no controller, or an ignored one. *)
Definition finish (turn : nat) (last : ObjectRef) (resolution : OwnerResolution) : Prop :=
  ∃ asked object owner, read_object turn asked = Ok object ∧
    or_GVK asked = or_GVK last ∧ obj_UID object = or_UID last ∧ obj_Name object = or_Name last ∧
    ControllerOwner object = Some owner ∧
    ((or_UID owner = "" ∧ resolution = Resolved) ∨
     (or_UID owner ≠ "" ∧ ignored (or_GVK owner) = true ∧ resolution = IgnoredOwner)).

Record good_path (input : ObjectRef) (path : list ObjectRef) : Prop := {
  path_head : ∀ r, head path = Some r → or_GVK r = or_GVK input ∧ or_Name r = or_Name input ∧
    or_Namespace r = or_Namespace input ∧ (or_UID input = "" ∨ or_UID r = or_UID input);
  path_uids : NoDup (or_UID <$> path) ∧ "" ∉ (or_UID <$> path);
  path_links : ∀ i child parent, path !! i = Some child → path !! S i = Some parent → link i child parent;
}.

Lemma identify_Ok first ref object ref' :
  identify first ref object = Ok ref' →
  or_GVK ref' = or_GVK ref ∧ or_Name ref' = or_Name ref ∧ or_Name ref' = obj_Name object ∧
  or_Namespace ref' = obj_Namespace object ∧ or_UID ref' = obj_UID object ∧ or_UID ref' ≠ "" ∧
  (or_UID ref = "" ∨ or_UID ref' = or_UID ref) ∧
  (first = true → or_Namespace ref' = or_Namespace ref).
Proof.
  unfold identify.
  set (ref0 := if negb first && _ then _ else _).
  assert (E : or_GVK ref0 = or_GVK ref ∧ or_Name ref0 = or_Name ref ∧ or_UID ref0 = or_UID ref ∧
              (first = true → ref0 = ref)).
  { unfold ref0. destruct first; cbn; [done|]. destruct (bool_decide _); by split_and!. }
  destruct E as (E1 & E2 & E3 & E4).
  destruct (bool_decide (or_Name ref0 ≠ obj_Name object)) eqn:B1; [done|].
  destruct (bool_decide (or_Namespace ref0 ≠ obj_Namespace object)) eqn:B2; [done|].
  destruct (bool_decide (obj_UID object = "")) eqn:B3; [done|]. cbn [orb].
  destruct (bool_decide (or_UID ref0 ≠ "") && bool_decide (or_UID ref0 ≠ obj_UID object)) eqn:B4; [done|].
  destruct (bool_decide (or_ResourceVersion ref0 ≠ "") && _); [done|]. intros [= <-]. cbn.
  apply bool_decide_eq_false, dec_stable in B1, B2. apply bool_decide_eq_false in B3.
  apply andb_false_iff in B4. rewrite !bool_decide_eq_false in B4.
  split_and!; try congruence.
  - destruct B4 as [B4|B4]; apply dec_stable in B4; [left|right]; congruence.
  - intros Hf. by rewrite E4.
Qed.

Lemma good_path_snoc input path r :
  good_path input path →
  (path = [] → or_GVK r = or_GVK input ∧ or_Name r = or_Name input ∧
     or_Namespace r = or_Namespace input ∧ (or_UID input = "" ∨ or_UID r = or_UID input)) →
  or_UID r ≠ "" → or_UID r ∉ (or_UID <$> path) →
  (∀ child, last path = Some child → link (pred (length path)) child r) →
  good_path input (path ++ [r]).
Proof.
  intros [Hhead [Hnd Hne] Hlinks] Hfirst Hr Hnew Hlast. split.
  - intros r0 Hr0. destruct path as [|p path]; [|by apply Hhead].
    injection Hr0 as <-. by apply Hfirst.
  - rewrite fmap_app. split.
    + apply NoDup_app. split_and!; [done| |apply NoDup_singleton].
      intros u Hu ->%list_elem_of_singleton. done.
    + intros [?|E%list_elem_of_singleton]%elem_of_app; [done|congruence].
  - intros i child parent Hc Hp. apply lookup_app_Some in Hp as [Hp|[Hlen Hp]].
    + apply (Hlinks i child parent); [|done].
      apply lookup_lt_Some in Hp. rewrite lookup_app_l in Hc by lia. done.
    + apply list_lookup_singleton_Some in Hp as [Hi <-].
      assert (Hi' : S i = length path) by lia. rewrite lookup_app_l in Hc by lia.
      replace i with (pred (length path)) by lia. apply Hlast.
      rewrite last_lookup. by replace (pred (length path)) with i by lia.
Qed.

(** What the walk keeps true between turns. *)
Record walk_state (input ref : ObjectRef) (seen : gset UID) (path : list ObjectRef) : Prop := {
  ws_path : good_path input path;
  ws_seen : seen = list_to_set (or_UID <$> path);
  ws_bound : length path ≤ 1024;
  ws_first : path = [] → ref = input;
  ws_next : path ≠ [] → or_UID ref ≠ "" ∧
    ∀ child r, last path = Some child → or_GVK r = or_GVK ref → or_Name r = or_Name ref →
      or_UID r = or_UID ref → link (pred (length path)) child r;
}.

Lemma walk_state_size input ref seen path :
  walk_state input ref seen path → size seen = length path.
Proof.
  intros [[_ [Hnd _] _] -> _ _ _]. rewrite size_list_to_set by done. by rewrite length_fmap.
Qed.

Definition good_result (input : ObjectRef) (w : GenericWorkload) : Prop :=
  good_path input (gw_Path w) ∧ length (gw_Path w) ≤ 1024 ∧ last (gw_Path w) = Some (gw_Root w) ∧
  finish (pred (length (gw_Path w))) (gw_Root w) (gw_Resolution w).

Lemma walk_turn input ref seen path object ref' owner :
  walk_state input ref seen path → or_UID ref ∉ seen → length path < 1024 →
  read_object (length path) ref = Ok object →
  identify (bool_decide (path = [])) ref object = Ok ref' →
  good_path input (path ++ [ref']) ∧
  (ControllerOwner object = Some owner → or_UID owner ≠ "" → ignored (or_GVK owner) = false →
   walk_state input (with_namespace owner (or_Namespace ref')) ({[or_UID ref']} ∪ seen) (path ++ [ref'])).
Proof.
  intros [Hpath Hseen Hbound Hfirst Hnext] Hnew Hlen Hread Hid.
  apply identify_Ok in Hid as (Hg & Hn & Hno & Hns & Hu & Hne & Huid & Hf).
  assert (Hgood : good_path input (path ++ [ref'])).
  { apply good_path_snoc; [done| |done| |].
    - intros E. specialize (Hfirst E). subst ref. rewrite E in Hf. split_and!; [done|done|by apply Hf|done].
    - destruct path as [|p path']; [by intros ?%elem_of_nil|].
      destruct Hnext as [Hrne _]; [done|]. destruct Huid as [?|Huid]; [done|].
      rewrite Huid. rewrite Hseen in Hnew. by rewrite elem_of_list_to_set in Hnew.
    - intros child Hlast. assert (path ≠ []) as Hp by (by intros ->).
      destruct (Hnext Hp) as [Hrne Hl]. apply Hl; [done..|]. by destruct Huid. }
  split; [done|]. intros Howner Hone Hign. split.
  - done.
  - rewrite fmap_app, list_to_set_app_L, Hseen. cbn. set_solver.
  - rewrite length_app. cbn. lia.
  - intros E. by apply app_nil in E as [_ ?].
  - intros _. split; [done|]. intros child r Hlast Hrg Hrn Hru.
    rewrite last_snoc in Hlast. injection Hlast as <-. cbn in Hrg, Hrn, Hru.
    rewrite length_app. replace (pred (length path + length [ref'])) with (length path) by (cbn; lia).
    exists ref, object, owner. split_and!; try done; congruence.
Qed.

Lemma walk_total input fuel ref seen path :
  walk_state input ref seen path → 1024 < fuel + length path →
  ∃ res, walk fuel ref seen path = Some res ∧ ∀ w, res = Ok w → good_result input w.
Proof.
  revert ref seen path. induction fuel as [|fuel IH]; intros ref seen path Hst Hfuel.
  { pose proof (ws_bound _ _ _ _ Hst). cbn in Hfuel. lia. }
  cbn [walk]. destruct (ctx_Err (length path)) as [e|]; [by eexists|].
  case_bool_decide as Hnew; [by eexists|].
  rewrite (walk_state_size _ _ _ _ Hst). destruct (1024 <=? length path) eqn:Hlen; [by eexists|].
  apply Nat.leb_gt in Hlen.
  destruct (read_object (length path) ref) as [object|e] eqn:Hread; [|by eexists]. cbn [mbind result_bind].
  destruct (identify _ ref object) as [ref'|e] eqn:Hid; [|by eexists]. cbn [mbind result_bind].
  pose proof (λ owner, walk_turn input ref seen path object ref' owner Hst Hnew Hlen Hread Hid) as Hturn.
  assert (Hgood : good_path input (path ++ [ref'])) by exact (proj1 (Hturn empty_ref)).
  apply identify_Ok in Hid as (Hg & Hn & Hno & Hns & Hu & Hne & _ & _).
  assert (Hdone : ∀ owner resolution, ControllerOwner object = Some owner →
    ((or_UID owner = "" ∧ resolution = Resolved) ∨
     (or_UID owner ≠ "" ∧ ignored (or_GVK owner) = true ∧ resolution = IgnoredOwner)) →
    good_result input (MkGenericWorkload ref' (path ++ [ref']) resolution)).
  { intros owner res Ho Hres. split_and!; cbn; [done| |by rewrite last_snoc|].
    - rewrite length_app. cbn. lia.
    - rewrite length_app. replace (pred (length path + length [ref'])) with (length path) by (cbn; lia).
      exists ref, object, owner. split_and!; try done; congruence. }
  destruct (ControllerOwner object) as [owner|] eqn:Howner; [|by eexists].
  case_bool_decide as Hou.
  - eexists. split; [done|]. intros w [= <-]. apply (Hdone owner); auto.
  - destruct (ignored (or_GVK owner)) eqn:Hign.
    + eexists. split; [done|]. intros w [= <-]. apply (Hdone owner); auto.
    + apply IH; [by apply (proj2 (Hturn owner))|]. rewrite length_app. cbn. lia.
Qed.

Lemma start_state ref : walk_state ref ref ∅ [].
Proof. split; [split| | | |]; try done; [by split; [constructor|intros ?%elem_of_nil]|cbn; lia]. Qed.
End discovery.

(** Resolving owners always ends, and a resolved path is an ownership
    chain: it starts at the given object, every next element is the controller
    of the one before as read from the source, no UID occurs twice, it has at
    most 1024 elements, and it ends at the root, which has no controller or
    only an ignored one. *)
Theorem Get_path `{KubernetesErrors} ctx_Err Cached GetMetadata ignored ref :
  ∃ res, walk ctx_Err Cached GetMetadata ignored walkFuel ref ∅ [] = Some res ∧
    Get ctx_Err Cached GetMetadata ignored ref = res ∧
    ∀ w, res = Ok w → good_result Cached GetMetadata ignored ref w.
Proof.
  destruct (walk_total ctx_Err Cached GetMetadata ignored ref walkFuel ref ∅ []) as (res & E & Hres).
  - apply start_state.
  - unfold walkFuel. cbn. lia.
  - exists res. split_and!; [done| |done]. unfold Get. by rewrite E.
Qed.

Definition discovery_errors : list string :=
  [ErrPending; ErrStale; ErrPermissionDenied; ErrUnresolvedOwner; ErrUnavailable].

(** Every read error is reported under exactly one of the classes the
    controller distinguishes: pending and stale reads first, then denied
    access, then a missing owner, and everything else as unavailable; the
    original error stays in the chain. *)
Theorem readError_class `{KubernetesErrors} err :
  let e := readError err in
  (e = err ∨ ∃ class, e = Errorf "%w: %w" [] [Sentinel class; err]) ∧
  (errors_Is ErrPending err = true → errors_Is ErrPending e = true) ∧
  (errors_Is ErrPending err = false → errors_Is ErrStale err = true → e = err) ∧
  (errors_Is ErrPending err = false → errors_Is ErrStale err = false →
   if IsForbidden err || IsUnauthorized err || errors_Is ErrPermissionDenied err
   then errors_Is ErrPermissionDenied e = true
   else if IsNotFound err || errors_Is ErrUnresolvedOwner err
   then errors_Is ErrUnresolvedOwner e = true ∧ errors_Is ErrPermissionDenied e = false
   else errors_Is ErrUnavailable e = true ∧ errors_Is ErrPermissionDenied e = false ∧
        errors_Is ErrUnresolvedOwner e = false).
Proof.
  unfold readError.
  destruct (errors_Is ErrPending err) eqn:E1; [by split_and!; [right; eexists|..]|].
  destruct (errors_Is ErrStale err) eqn:E2; [by split_and!; [left|..]|].
  assert (Hwrap : ∀ n c, errors_Is n (Errorf "%w: %w" [] [Sentinel c; err]) =
                         bool_decide (c = n) || errors_Is n err).
  { intros n c. unfold errors_Is. cbn. by rewrite !orb_false_r. }
  destruct (IsForbidden err || IsUnauthorized err || errors_Is ErrPermissionDenied err) eqn:E3.
  { split_and!; [by right; eexists|done..|]. intros _ _. by rewrite Hwrap, bool_decide_true. }
  apply orb_false_iff in E3 as [_ E3].
  destruct (IsNotFound err || errors_Is ErrUnresolvedOwner err) eqn:E4.
  { split_and!; [by right; eexists|done..|]. intros _ _. rewrite !Hwrap, E3. by split. }
  apply orb_false_iff in E4 as [_ E4].
  split_and!; [by right; eexists|done..|]. intros _ _. rewrite !Hwrap, E3, E4. by split_and!.
Qed.

(** ** A concrete chain *)

#[export] Instance sample_kubernetes : KubernetesErrors := {|
  ParseGroupVersion s := if bool_decide (s = "apps/v1") then Ok ("apps", "v1") else Fail (External "bad");
  IsForbidden _ := false; IsUnauthorized _ := false; IsNotFound _ := false;
|}.

Definition sample_owner (kind name uid : string) : OwnerReference :=
  MkOwnerReference (Some true) "apps/v1" kind name uid.

Definition sample_objects (turn : nat) (ref : ObjectRef) : option Object :=
  if bool_decide (or_Name ref = "pod") then
    Some (MkObject "pod" "ns" "u1" "1" [sample_owner "ReplicaSet" "rs" "u2"])
  else if bool_decide (or_Name ref = "rs") then
    Some (MkObject "rs" "ns" "u2" "7" [sample_owner "Deployment" "web" "u3"])
  else if bool_decide (or_Name ref = "web") then Some (MkObject "web" "ns" "u3" "9" [])
  else if bool_decide (or_Name ref = "loop") then
    Some (MkObject "loop" "ns" "u4" "1" [sample_owner "ReplicaSet" "loop" "u4"])
  else None.

Definition sample_Get (ignored : GroupVersionKind → bool) (name : string) : result GenericWorkload :=
  Get (λ _, None) sample_objects (λ _ _, Ok None) ignored (MkObjectRef (GVK "" "v1" "Pod") "ns" name "" "").

Example Get_samples :
  (λ w, (gw_Resolution w, or_Name <$> gw_Path w, or_UID (gw_Root w))) <$> sample_Get (λ _, false) "pod"
    = Ok (Resolved, ["pod"; "rs"; "web"], "u3") ∧
  (λ w, (gw_Resolution w, or_Name <$> gw_Path w, or_UID (gw_Root w))) <$>
    sample_Get (λ g, bool_decide (gvk_Kind g = "Deployment")) "pod"
    = Ok (IgnoredOwner, ["pod"; "rs"], "u2") ∧
  sample_Get (λ _, false) "loop"
    = Fail (sentinel_error "%w: ownership cycle at %s" [AStr "loop"] ErrUnresolvedOwner).
Proof. vm_compute. done. Qed.
