(* ===== verification/Otel.v ===== *)
(** * Otel: the metrics of one collection

    Models [dsx-workload-exporter/pkg/adapters/otel/collector.go] and
    [names.go].  A collection is a function of the captured view and of the
    answers the context gives when it is polled: it yields the observations made
    and the error that cut it short, if any.  The printing of a kind belongs to
    the Kubernetes library, the de-duplication of attributes to OpenTelemetry;
    the first is a parameter, the second is left to the reader of the
    observations.  A timestamp is kept as the integer it converts from. *)

From S2P Require Import Prelude Api Sort Store.

(** ** Names *)

Definition MetricPodWorkloadInfo : string := "dsx_workload_pod_info".
Definition MetricWorkloadStatus : string := "dsx_workload_status".
Definition MetricWorkloadCreatedTimestamp : string := "dsx_workload_created_timestamp_seconds".
Definition MetricExporterObservationValid : string := "dsx_exporter_observation_valid".

Definition LabelNamespace : string := "namespace".
Definition LabelPod : string := "pod_name".
Definition LabelPodUID : string := "pod_uid".
Definition LabelWorkload : string := "workload_name".
Definition LabelWorkloadUID : string := "workload_uid".
Definition LabelWorkloadKind : string := "workload_kind".
Definition LabelWorkloadGroup : string := "workload_group".
Definition LabelWorkloadVersion : string := "workload_version".
Definition LabelOwnerResolution : string := "owner_resolution".
Definition LabelKarta : string := "karta".
Definition LabelKartaSource : string := "karta_source".
Definition LabelComponent : string := "component".
Definition LabelComponentInstance : string := "component_instance".
Definition LabelReplicaGroupID : string := "replica_group_id".
Definition LabelPhase : string := "phase".
Definition LabelReason : string := "reason".
Definition LabelObservationValid : string := "observation_valid".
Definition LabelResourceGroup : string := "resource_group".
Definition LabelResourceVersion : string := "resource_version".
Definition LabelResourceKind : string := "resource_kind".

Definition allPhases : list ResourceStatus :=
  [InitializingStatus; RunningStatus; CompletedStatus; FailedStatus; DegradedStatus;
   SuspendedStatus; SuspendingStatus; ResumingStatus; UndefinedStatus].

Record gauge := MkGauge { g_name : string; g_labels : list string }.

Definition workloadIdentityLabels : list string :=
  [LabelNamespace; LabelWorkload; LabelWorkloadGroup; LabelWorkloadVersion; LabelWorkloadKind;
   LabelWorkloadUID].

Definition podInfo : gauge := MkGauge MetricPodWorkloadInfo
  (workloadIdentityLabels ++ [LabelOwnerResolution; LabelPod; LabelPodUID; LabelComponent;
     LabelComponentInstance; LabelReplicaGroupID; LabelObservationValid]).

Definition workloadStatus : gauge := MkGauge MetricWorkloadStatus
  (workloadIdentityLabels ++ [LabelPhase; LabelOwnerResolution; LabelKarta; LabelKartaSource;
     LabelObservationValid]).

Definition workloadCreated : gauge := MkGauge MetricWorkloadCreatedTimestamp
  [LabelNamespace; LabelWorkload; LabelWorkloadUID].

Definition observationValid : gauge := MkGauge MetricExporterObservationValid
  ["scope"; LabelNamespace; LabelResourceGroup; LabelResourceVersion; LabelResourceKind;
   LabelWorkload; LabelWorkloadUID; LabelReason].

Record observation := MkObservation {
  ob_metric : string;
  ob_value : Z;
  ob_attributes : list (string * string);
}.

Definition observe (g : gauge) (value : Z) (custom : gmap string string) (values : list string)
  : observation :=
  MkObservation (g_name g) value (map_to_list custom ++ zip (g_labels g) values).

(** ** Reasons *)

Definition reasons : list string :=
  [ReasonPermissionDenied; ReasonAPIUnavailable; ReasonInvalidDefinition; ReasonUnresolvedOwner;
   ReasonEvaluationFailed].

(** [slices.Index], and the precedence of an unrecognised error. *)
Definition reason_index (reason : string) : nat :=
  match list_find (λ r, r = reason) reasons with Some (i, _) => i | None => 1 end.

Definition failureReason (current next : string) : string :=
  let priority := foldl (λ priority reason,
      if bool_decide (reason = "") || bool_decide (reason = ReasonNone) then priority
      else Nat.min priority (reason_index reason)) (length reasons) [current; next] in
  if bool_decide (priority = length reasons) then "" else default "" (reasons !! priority).

(** ** One collection *)

Record workloadFailure := MkWorkloadFailure { wf_ref : ObjectRef; wf_reason : string }.

Record discoveryFailure := MkDiscovery {
  dsf_gvk : GroupVersionKind;
  dsf_namespace : string;
  dsf_reason : string;
}.

#[export] Instance discoveryFailure_eq_dec : EqDecision discoveryFailure.
Proof. solve_decision. Defined.
#[export] Instance discoveryFailure_countable : Countable discoveryFailure.
Proof.
  refine (inj_countable' (λ f, (dsf_gvk f, dsf_namespace f, dsf_reason f))
    (λ '(g, n, r), MkDiscovery g n r) _). by intros [].
Defined.

Definition zero_ref : ObjectRef := MkObjectRef (GVK "" "" "") "" "" "" "".
Definition zero_failure : workloadFailure := MkWorkloadFailure zero_ref "".

Definition FormatBool (b : bool) : string := if b then "true" else "false".

Section collect.
Context (gvk_String : GroupVersionKind → string).

Record accumulated := MkAccumulated {
  acc_observations : list observation;
  acc_failures : gmap UID workloadFailure;
  acc_discovery : gset discoveryFailure;
}.

Definition emit (a : accumulated) (obs : list observation) : accumulated :=
  MkAccumulated (acc_observations a ++ obs) (acc_failures a) (acc_discovery a).

Definition source_observation (view : CapturedView) (source : SourceKey * SourceHealth) : observation :=
  let '(key, health) := source in
  let '(valid, reason) := Valid view [key] "" in
  let gvk := sh_GVK health in
  observe observationValid (if valid then 1 else 0)%Z ∅
    ["resource_type"; sk_Namespace key; gvk_Group gvk; gvk_Version gvk; gvk_Kind gvk; ""; "";
     if valid then reason else failureReason "" reason].

Definition discovery_of (failures : list DiscoveryFailure) : gset discoveryFailure :=
  foldl (λ s failure,
    let reason := failureReason "" (df_Error failure) in
    if bool_decide (reason ≠ "") then
      {[MkDiscovery (or_GVK (df_Input failure)) (or_Namespace (df_Input failure)) reason]} ∪ s
    else s) ∅ failures.

(** The failure record of a root after one more invalid pod. *)
Definition pod_failure (failures : gmap UID workloadFailure) (ref : ObjectRef) (reason : string)
  : gmap UID workloadFailure :=
  let previous := default zero_failure (failures !! or_UID ref) in
  let new_ref := if bool_decide (or_UID (wf_ref previous) = "") ||
                    string_lt (gvk_String (or_GVK ref)) (gvk_String (or_GVK (wf_ref previous)))
                 then ref else wf_ref previous in
  <[or_UID ref := MkWorkloadFailure new_ref (failureReason (wf_reason previous) reason)]> failures.

Definition collect_pod (view : CapturedView) (a : accumulated) (result : PodResult) : accumulated :=
  let pod := pres_Record result in
  let ref := pr_Workload pod in
  let '(valid, reason) := Valid view (pres_Sources result) (pres_Error result) in
  let a := if (valid : bool) then a
           else if bool_decide (or_UID ref = "") then
             MkAccumulated (acc_observations a) (acc_failures a)
               ({[MkDiscovery (or_GVK (pres_Input result)) (or_Namespace (pres_Input result))
                    (failureReason "" reason)]} ∪ acc_discovery a)
           else MkAccumulated (acc_observations a) (pod_failure (acc_failures a) ref reason)
                  (acc_discovery a) in
  if negb (pres_HasValue result) then a
  else emit a [observe podInfo 1 (pr_Labels pod)
                 [pr_Namespace pod; or_Name ref; gvk_Group (or_GVK ref); gvk_Version (or_GVK ref);
                  gvk_Kind (or_GVK ref); or_UID ref; pr_OwnerResolution pod; pr_Name pod; pr_UID pod;
                  pr_Component pod; pr_Instance pod; pr_Group pod; FormatBool valid]].

(** The reason of a workload's own failure, empty when it has none. *)
Definition workload_reason (view : CapturedView) (result : WorkloadResult) : string :=
  let '(creationValid, creationReason) := Valid view (wres_CreationSources result) (wres_Error result) in
  let '(statusValid, statusReason) :=
    Valid view (wres_Sources result) (failureReason (wres_Error result) (wres_StatusError result)) in
  let reason := if (creationValid : bool) then "" else failureReason "" creationReason in
  if (statusValid : bool) then reason else failureReason reason statusReason.

Definition workload_failure (failures : gmap UID workloadFailure) (uid : UID) (ref : ObjectRef)
    (reason : string) : gmap UID workloadFailure :=
  let previous := default zero_failure (failures !! uid) in
  if bool_decide (wf_reason previous ≠ "") || bool_decide (reason ≠ "") then
    <[uid := MkWorkloadFailure ref (failureReason (wf_reason previous) reason)]> failures
  else failures.

Definition phase_observation (workload : WorkloadRecord) (statusValid : bool) (phase : ResourceStatus)
  : observation :=
  let ref := wr_Ref workload in
  observe workloadStatus (if bool_decide (phase ∈ wr_Phases workload) then 1 else 0)%Z
    (wr_StatusLabels workload)
    [or_Namespace ref; or_Name ref; gvk_Group (or_GVK ref); gvk_Version (or_GVK ref);
     gvk_Kind (or_GVK ref); wr_UID workload; phase; wr_OwnerResolution workload; wr_Karta workload;
     wr_KartaSource workload; FormatBool statusValid].

Definition collect_workload (view : CapturedView) (a : accumulated) (result : WorkloadResult)
  : accumulated :=
  let workload := wres_Record result in
  let ref := wr_Ref workload in
  let '(creationValid, _) := Valid view (wres_CreationSources result) (wres_Error result) in
  let '(statusValid, _) :=
    Valid view (wres_Sources result) (failureReason (wres_Error result) (wres_StatusError result)) in
  let a := MkAccumulated (acc_observations a)
             (workload_failure (acc_failures a) (wr_UID workload) ref (workload_reason view result))
             (acc_discovery a) in
  if negb (wres_HasValue result) then a
  else
    let a := if (creationValid : bool) && (0 <? wr_CreatedTimestamp workload)%Z then
               emit a [observe workloadCreated (wr_CreatedTimestamp workload) ∅
                         [or_Namespace ref; or_Name ref; wr_UID workload]]
             else a in
    if wr_HasStatus workload then emit a (phase_observation workload statusValid <$> allPhases) else a.

(** The loop over pods or workloads, polling the context at every turn. *)
Fixpoint collect_each {A} (ctx_Err : nat → option error) (turn : nat)
    (collect_one : accumulated → A → accumulated) (results : list A) (a : accumulated)
  : accumulated * option error :=
  match results with
  | [] => (a, None)
  | result :: results =>
      match ctx_Err turn with
      | Some err => (a, Some err)
      | None => collect_each ctx_Err (S turn) collect_one results (collect_one a result)
      end
  end.

Definition failure_observation (failure : workloadFailure) : observation :=
  let ref := wf_ref failure in
  observe observationValid 0 ∅
    ["workload"; or_Namespace ref; gvk_Group (or_GVK ref); gvk_Version (or_GVK ref);
     gvk_Kind (or_GVK ref); or_Name ref; or_UID ref; wf_reason failure].

Definition discovery_observation (failure : discoveryFailure) : observation :=
  observe observationValid 0 ∅
    ["discovery"; dsf_namespace failure; gvk_Group (dsf_gvk failure); gvk_Version (dsf_gvk failure);
     gvk_Kind (dsf_gvk failure); ""; ""; dsf_reason failure].

Definition collect (ctx_Err : nat → option error) (view : CapturedView)
  : list observation * option error :=
  match ctx_Err 0 with
  | Some err => ([], Some err)
  | None =>
      let a := MkAccumulated (source_observation view <$> map_to_list (cv_Sources view)) ∅
                 (discovery_of (cv_Failures view)) in
      match collect_each ctx_Err 1 (collect_pod view) (cv_Pods view) a with
      | (a, Some err) => (acc_observations a, Some err)
      | (a, None) =>
          match collect_each ctx_Err (S (length (cv_Pods view))) (collect_workload view)
                  (cv_Workloads view) a with
          | (a, Some err) => (acc_observations a, Some err)
          | (a, None) =>
              (acc_observations a ++
               (failure_observation <$> (map_to_list (acc_failures a)).*2) ++
               (discovery_observation <$> elements (acc_discovery a)), None)
          end
      end
  end.
End collect.

(** ** Severity *)

(** 0 is the most severe reason, [length reasons] no failure at all. *)
Definition severity (reason : string) : nat :=
  if bool_decide (reason = "") || bool_decide (reason = ReasonNone) then length reasons
  else reason_index reason.

Definition reason_at (n : nat) : string := default "" (reasons !! n).

Lemma reason_index_lt reason : reason_index reason < length reasons.
Proof.
  unfold reason_index. destruct (list_find _ reasons) as [[i x]|] eqn:E; [|cbn; lia].
  apply list_find_Some in E as (E & _). by apply lookup_lt_Some in E.
Qed.

Lemma severity_le reason : severity reason ≤ length reasons.
Proof. unfold severity. case_match; [done|]. pose proof (reason_index_lt reason). lia. Qed.

Lemma severity_reason_at n : n ≤ length reasons → severity (reason_at n) = n.
Proof. intros Hn. cbn in Hn. do 6 (destruct n as [|n]; [done|]). lia. Qed.

Lemma failureReason_eq a b : failureReason a b = reason_at (severity a `min` severity b).
Proof.
  unfold failureReason. cbn [foldl]. unfold severity.
  pose proof (reason_index_lt a) as Ha. pose proof (reason_index_lt b) as Hb.
  set (n := length reasons) in *.
  destruct (bool_decide (a = "") || bool_decide (a = ReasonNone)),
    (bool_decide (b = "") || bool_decide (b = ReasonNone)).
  - by rewrite Nat.min_id, bool_decide_true.
  - rewrite bool_decide_false by lia. done.
  - rewrite bool_decide_false by lia. rewrite Nat.min_comm. done.
  - rewrite bool_decide_false by lia. unfold reason_at. do 2 f_equal. lia.
Qed.

Lemma failureReason_severity a b : severity (failureReason a b) = severity a `min` severity b.
Proof.
  rewrite failureReason_eq. apply severity_reason_at. pose proof (severity_le a). lia.
Qed.

(** Combining failure reasons keeps the most severe one, whatever the
    order and however often a reason is reported; no failure is neutral. *)
Theorem failureReason_semilattice a b c :
  severity (failureReason a b) = severity a `min` severity b ∧
  failureReason a b = failureReason b a ∧
  failureReason a (failureReason b c) = failureReason (failureReason a b) c ∧
  failureReason (failureReason a b) b = failureReason a b ∧
  failureReason "" (failureReason a b) = failureReason a b ∧
  (failureReason a b = "" ↔ severity a = length reasons ∧ severity b = length reasons).
Proof.
  pose proof (severity_le a) as Ha. pose proof (severity_le b) as Hb.
  split_and!; [apply failureReason_severity| | | | |].
  - rewrite !failureReason_eq. f_equal. lia.
  - rewrite (failureReason_eq a (failureReason b c)), (failureReason_eq (failureReason a b) c),
      !failureReason_severity. f_equal. lia.
  - rewrite (failureReason_eq (failureReason a b)), failureReason_severity, failureReason_eq.
    f_equal. lia.
  - rewrite (failureReason_eq "" (failureReason a b)), failureReason_severity, failureReason_eq.
    f_equal. change (severity "") with (length reasons). lia.
  - split.
    + intros E. pose proof (failureReason_severity a b) as Hs. rewrite E in Hs.
      change (severity "") with (length reasons) in Hs. lia.
    + intros [E1 E2]. rewrite failureReason_eq, E1, E2. done.
Qed.

(** ** What a collection reports *)

Definition invalid_pod (view : CapturedView) (uid : UID) (result : PodResult) : Prop :=
  or_UID (pr_Workload (pres_Record result)) = uid ∧ uid ≠ "" ∧
  (Valid view (pres_Sources result) (pres_Error result)).1 = false.

#[export] Instance invalid_pod_decision view uid result : Decision (invalid_pod view uid result).
Proof. unfold invalid_pod. apply _. Defined.

(** The reasons that bear on a root: those of its invalid pods, then its own. *)
Definition pod_reasons (view : CapturedView) (uid : UID) (pods : list PodResult) : list string :=
  (λ r, (Valid view (pres_Sources r) (pres_Error r)).2) <$> filter (invalid_pod view uid) pods.

Definition own_reasons (view : CapturedView) (uid : UID) (workloads : list WorkloadResult) : list string :=
  workload_reason view <$> filter (λ r, wr_UID (wres_Record r) = uid) workloads.

Definition reason_of (failures : gmap UID workloadFailure) (uid : UID) : string :=
  wf_reason (default zero_failure (failures !! uid)).

Section reports.
Context (gvk_String : GroupVersionKind → string) (view : CapturedView).

Lemma emit_failures a obs : acc_failures (emit a obs) = acc_failures a.
Proof. done. Qed.

Lemma collect_pod_failures a r :
  acc_failures (collect_pod gvk_String view a r) =
  if decide (invalid_pod view (or_UID (pr_Workload (pres_Record r))) r) then
    pod_failure gvk_String (acc_failures a) (pr_Workload (pres_Record r))
      (Valid view (pres_Sources r) (pres_Error r)).2
  else acc_failures a.
Proof.
  unfold collect_pod. case_decide as H; unfold invalid_pod in H;
    destruct (Valid view (pres_Sources r) (pres_Error r)) as [v reason]; cbn [fst snd] in *.
  - destruct H as (_ & Hne & ->). rewrite bool_decide_false by done. by destruct (pres_HasValue r).
  - destruct v; [by destruct (pres_HasValue r)|].
    case_bool_decide as E; [by destruct (pres_HasValue r)|]. by destruct H.
Qed.

Lemma reason_of_pod_failure failures ref reason uid :
  reason_of (pod_failure gvk_String failures ref reason) uid =
  if decide (or_UID ref = uid) then failureReason (reason_of failures uid) reason
  else reason_of failures uid.
Proof.
  unfold reason_of, pod_failure. case_decide as E.
  - rewrite E, lookup_insert_eq. done.
  - by rewrite lookup_insert_ne.
Qed.

Lemma collect_pods_reason a pods uid :
  reason_of (acc_failures (foldl (collect_pod gvk_String view) a pods)) uid =
  foldl failureReason (reason_of (acc_failures a) uid) (pod_reasons view uid pods).
Proof.
  revert a. induction pods as [|r pods IH]; intros a; [done|]. cbn [foldl].
  rewrite IH. clear IH. unfold pod_reasons. rewrite filter_cons, collect_pod_failures.
  destruct (decide (or_UID (pr_Workload (pres_Record r)) = uid)) as [<-|Hne].
  - case_decide; [|done]. cbn [fmap list_fmap foldl]. f_equal.
    by rewrite reason_of_pod_failure, decide_True.
  - rewrite (decide_False (P:=invalid_pod view uid r)) by by intros [? _].
    f_equal. case_decide; [|done]. by rewrite reason_of_pod_failure, decide_False.
Qed.

Lemma workload_failure_reason failures uid' ref reason uid :
  severity (reason_of (workload_failure failures uid' ref reason) uid) =
  severity (if decide (uid' = uid) then failureReason (reason_of failures uid) reason
            else reason_of failures uid).
Proof.
  unfold workload_failure. case_decide as E.
  - subst uid'. fold (reason_of failures uid).
    destruct (bool_decide (reason_of failures uid ≠ "")) eqn:E1; cbn [orb].
    { unfold reason_of at 1. by rewrite lookup_insert_eq. }
    apply bool_decide_eq_false, dec_stable in E1.
    case_bool_decide as E2; [unfold reason_of at 1; by rewrite lookup_insert_eq|].
    rewrite E1, E2. done.
  - case_match; [|done]. unfold reason_of. by rewrite lookup_insert_ne.
Qed.

Lemma collect_workload_failures a r :
  acc_failures (collect_workload view a r) =
  workload_failure (acc_failures a) (wr_UID (wres_Record r)) (wr_Ref (wres_Record r))
    (workload_reason view r).
Proof.
  unfold collect_workload.
  destruct (Valid view (wres_CreationSources r) (wres_Error r)) as [cv ?],
    (Valid view (wres_Sources r) _) as [sv ?].
  destruct (negb (wres_HasValue r)); [done|].
  by destruct (cv && _), (wr_HasStatus (wres_Record r)).
Qed.

Lemma collect_workloads_severity a workloads uid :
  severity (reason_of (acc_failures (foldl (collect_workload view) a workloads)) uid) =
  foldr Nat.min (severity (reason_of (acc_failures a) uid))
    (severity <$> own_reasons view uid workloads).
Proof.
  revert a. induction workloads as [|r workloads IH]; intros a; [done|]. cbn [foldl].
  rewrite IH, collect_workload_failures, workload_failure_reason. unfold own_reasons.
  rewrite filter_cons. case_decide as E; [|done]. rewrite failureReason_severity.
  cbn [fmap list_fmap foldr]. generalize (severity (reason_of (acc_failures a) uid)) as m.
  generalize (severity (workload_reason view r)) as n. clear.
  induction (workload_reason view <$> _) as [|x l IH]; intros n m; cbn; [lia|]. rewrite IH. lia.
Qed.

Lemma foldl_failureReason_severity init l :
  severity (foldl failureReason init l) = foldr Nat.min (severity init) (severity <$> l).
Proof.
  revert init. induction l as [|x l IH]; intros init; [done|]. cbn [foldl].
  rewrite IH, failureReason_severity. cbn. generalize (severity x) (severity init). clear.
  intros n m. induction (severity <$> l) as [|y k IH]; cbn; [lia|]. rewrite IH. lia.
Qed.

Lemma collect_each_uncancelled {A} ctx_Err turn (f : accumulated → A → accumulated) l a :
  (∀ n, ctx_Err n = None) → collect_each ctx_Err turn f l a = (foldl f a l, None).
Proof.
  intros Hctx. revert turn a. induction l as [|x l IH]; intros turn a; [done|].
  cbn. rewrite Hctx. apply IH.
Qed.

Lemma collect_each_spec {A} ctx_Err turn (f : accumulated → A → accumulated) l a :
  match collect_each ctx_Err turn f l a with
  | (a', None) => a' = foldl f a l
  | (a', Some err) => ∃ l1 l2, l = l1 ++ l2 ∧ a' = foldl f a l1 ∧ length l1 < length l ∧
                        ctx_Err (turn + length l1) = Some err
  end.
Proof.
  revert turn a. induction l as [|x l IH]; intros turn a; [done|]. cbn [collect_each].
  destruct (ctx_Err turn) as [err|] eqn:E.
  - exists [], (x :: l). rewrite Nat.add_0_r. split_and!; cbn; [done..|lia|done].
  - specialize (IH (S turn) (f a x)). destruct (collect_each _ _ _ _ _) as [a' [err|]]; [|done].
    destruct IH as (l1 & l2 & -> & -> & Hl & He). exists (x :: l1), l2. cbn.
    split_and!; [done..|lia|]. rewrite <- He. f_equal. lia.
Qed.

(** The accumulated state of a collection that is not cancelled. *)
Definition collected : accumulated :=
  foldl (collect_workload view)
    (foldl (collect_pod gvk_String view)
       (MkAccumulated (source_observation view <$> map_to_list (cv_Sources view)) ∅
          (discovery_of (cv_Failures view))) (cv_Pods view)) (cv_Workloads view).

Lemma collect_uncancelled ctx_Err :
  (∀ n, ctx_Err n = None) →
  collect gvk_String ctx_Err view =
  (acc_observations collected ++
   (failure_observation <$> (map_to_list (acc_failures collected)).*2) ++
   (discovery_observation <$> elements (acc_discovery collected)), None).
Proof.
  intros Hctx. unfold collect. rewrite Hctx, collect_each_uncancelled by done.
  by rewrite collect_each_uncancelled.
Qed.

Lemma Valid_reason sources reason :
  (Valid view sources reason).1 = false → severity (Valid view sources reason).2 < length reasons.
Proof.
  rewrite Valid_eq. case_bool_decide as E.
  - destruct (existsb (denied view) sources), (forallb (healthy view) sources); intros Hv; try done; vm_compute; lia.
  - intros _. cbn [snd]. unfold severity. rewrite !bool_decide_false by tauto. apply reason_index_lt.
Qed.

(** A recorded reason is one of [reasons]. *)
Definition recorded (failures : gmap UID workloadFailure) : Prop :=
  ∀ uid f, failures !! uid = Some f →
    severity (wf_reason f) < length reasons ∧ wf_reason f = reason_at (severity (wf_reason f)).

Lemma failureReason_canonical a b : failureReason a b = reason_at (severity (failureReason a b)).
Proof. by rewrite failureReason_severity, <- failureReason_eq. Qed.

Lemma canonical_severity r : r = reason_at (severity r) → r ≠ "" → severity r < length reasons.
Proof.
  intros E Hne. pose proof (severity_le r). destruct (decide (severity r = length reasons)) as [Hs|]; [|lia].
  rewrite Hs in E. done.
Qed.

Lemma workload_reason_canonical r :
  workload_reason view r = reason_at (severity (workload_reason view r)).
Proof.
  unfold workload_reason. destruct (Valid view (wres_CreationSources r) _) as [[] ?],
    (Valid view (wres_Sources r) _) as [[] ?]; try apply failureReason_canonical. done.
Qed.

Lemma reason_of_canonical failures uid :
  recorded failures → reason_of failures uid = reason_at (severity (reason_of failures uid)).
Proof.
  intros Hrec. unfold reason_of. destruct (failures !! uid) as [f|] eqn:E; [|done]. by apply (Hrec uid).
Qed.

Lemma recorded_insert failures uid ref a b :
  recorded failures → severity a `min` severity b < length reasons →
  recorded (<[uid := MkWorkloadFailure ref (failureReason a b)]> failures).
Proof.
  intros Hrec Hab uid' f [[<- <-]|[_ Hf]]%lookup_insert_Some; [|by apply (Hrec uid')].
  cbn [wf_reason]. split; [by rewrite failureReason_severity|apply failureReason_canonical].
Qed.

Lemma recorded_pods a pods :
  recorded (acc_failures a) → recorded (acc_failures (foldl (collect_pod gvk_String view) a pods)).
Proof.
  revert a. induction pods as [|r pods IH]; intros a Hrec; [done|]. cbn [foldl]. apply IH.
  rewrite collect_pod_failures. case_decide as H; [|done]. apply recorded_insert; [done|].
  destruct H as (_ & _ & H%Valid_reason). lia.
Qed.

Lemma recorded_workloads a workloads :
  recorded (acc_failures a) → recorded (acc_failures (foldl (collect_workload view) a workloads)).
Proof.
  revert a. induction workloads as [|r workloads IH]; intros a Hrec; [done|]. cbn [foldl]. apply IH.
  rewrite collect_workload_failures. unfold workload_failure. case_match eqn:E; [|done].
  apply recorded_insert; [done|]. fold (reason_of (acc_failures a) (wr_UID (wres_Record r))).
  apply orb_true_iff in E as [E|E]; apply bool_decide_eq_true in E.
  - pose proof (canonical_severity _ (reason_of_canonical _ _ Hrec) E). lia.
  - pose proof (canonical_severity _ (workload_reason_canonical r) E). lia.
Qed.

(** The observations that say a workload is invalid. *)
Definition about_workload (o : observation) : Prop :=
  ob_metric o = MetricExporterObservationValid ∧ ("scope", "workload") ∈ ob_attributes o.

#[local] Instance about_workload_decision o : Decision (about_workload o).
Proof. unfold about_workload. apply _. Defined.

Lemma about_workload_source source : ¬ about_workload (source_observation view source).
Proof.
  destruct source as [key health]. unfold source_observation.
  destruct (Valid view [key] "") as [v r]. intros [_ H]. cbn in H.
  by repeat (apply elem_of_cons in H as [H|H]; [discriminate H|]); apply elem_of_nil in H.
Qed.

Lemma about_workload_discovery failure : ¬ about_workload (discovery_observation failure).
Proof.
  intros [_ H]. cbn in H.
  by repeat (apply elem_of_cons in H as [H|H]; [discriminate H|]); apply elem_of_nil in H.
Qed.

Lemma about_workload_failure failure : about_workload (failure_observation failure).
Proof. split; [done|]. cbn. by left. Qed.

(** The rows of a pod and of a workload. *)
Definition pod_rows (r : PodResult) : list observation :=
  let pod := pres_Record r in
  let ref := pr_Workload pod in
  if pres_HasValue r then
    [observe podInfo 1 (pr_Labels pod)
       [pr_Namespace pod; or_Name ref; gvk_Group (or_GVK ref); gvk_Version (or_GVK ref);
        gvk_Kind (or_GVK ref); or_UID ref; pr_OwnerResolution pod; pr_Name pod; pr_UID pod;
        pr_Component pod; pr_Instance pod; pr_Group pod;
        FormatBool (Valid view (pres_Sources r) (pres_Error r)).1]]
  else [].

Definition workload_rows (r : WorkloadResult) : list observation :=
  let workload := wres_Record r in
  let ref := wr_Ref workload in
  if wres_HasValue r then
    (if (Valid view (wres_CreationSources r) (wres_Error r)).1 && (0 <? wr_CreatedTimestamp workload)%Z
     then [observe workloadCreated (wr_CreatedTimestamp workload) ∅
             [or_Namespace ref; or_Name ref; wr_UID workload]]
     else []) ++
    (if wr_HasStatus workload
     then phase_observation workload
            (Valid view (wres_Sources r) (failureReason (wres_Error r) (wres_StatusError r))).1 <$> allPhases
     else [])
  else [].

Lemma collect_pod_observations a r :
  acc_observations (collect_pod gvk_String view a r) = acc_observations a ++ pod_rows r.
Proof.
  unfold collect_pod, pod_rows. destruct (Valid view (pres_Sources r) (pres_Error r)) as [v reason].
  destruct (pres_HasValue r), v; cbn [negb fst]; rewrite ?app_nil_r; try done; by case_match.
Qed.

Lemma collect_workload_observations a r :
  acc_observations (collect_workload view a r) = acc_observations a ++ workload_rows r.
Proof.
  unfold collect_workload, workload_rows.
  destruct (Valid view (wres_CreationSources r) (wres_Error r)) as [cv ?],
    (Valid view (wres_Sources r) _) as [sv ?]. cbn [fst].
  destruct (wres_HasValue r); cbn [negb]; [|by rewrite app_nil_r].
  destruct (cv && _), (wr_HasStatus (wres_Record r)); cbn [emit acc_observations app];
    by rewrite ?app_nil_r, <- ?(assoc_L (++)).
Qed.

Lemma foldl_observations {A} (f : accumulated → A → accumulated) (rows : A → list observation) a l :
  (∀ a x, acc_observations (f a x) = acc_observations a ++ rows x) →
  acc_observations (foldl f a l) = acc_observations a ++ l ≫= rows.
Proof.
  intros Hf. revert a. induction l as [|x l IH]; intros a; cbn; [by rewrite app_nil_r|].
  by rewrite IH, Hf, (assoc_L (++)).
Qed.

Lemma collected_observations :
  acc_observations (collected) =
  (source_observation view <$> map_to_list (cv_Sources view)) ++
  (cv_Pods view ≫= pod_rows) ++ (cv_Workloads view ≫= workload_rows).
Proof.
  unfold collected.
  rewrite (foldl_observations _ workload_rows) by apply collect_workload_observations.
  rewrite (foldl_observations _ pod_rows) by apply collect_pod_observations.
  by rewrite <- (assoc_L (++)).
Qed.

Lemma collected_quiet : filter about_workload (acc_observations collected) = [].
Proof.
  rewrite collected_observations. apply filter_none, Forall_forall. intros o [H|[H|H]%elem_of_app]%elem_of_app.
  - apply list_elem_of_fmap in H as (source & -> & _). apply about_workload_source.
  - apply list_elem_of_bind in H as (r & H & _). unfold pod_rows in H.
    intros [Hm _]. destruct (pres_HasValue r); [|by apply elem_of_nil in H].
    apply list_elem_of_singleton in H as ->. done.
  - apply list_elem_of_bind in H as (r & H & _). unfold workload_rows in H. intros [Hm _].
    destruct (wres_HasValue r); [|by apply elem_of_nil in H]. apply elem_of_app in H as [H|H].
    + destruct (_ && _); [|by apply elem_of_nil in H]. apply list_elem_of_singleton in H as ->. done.
    + destruct (wr_HasStatus _); [|by apply elem_of_nil in H].
      apply list_elem_of_fmap in H as (ph & -> & _). done.
Qed.

(** The most severe of the reasons that bear on a root. *)
Definition worst (uid : UID) : string :=
  reason_at (foldr Nat.min (length reasons)
    (severity <$> own_reasons view uid (cv_Workloads view) ++ pod_reasons view uid (cv_Pods view))).

Lemma collected_recorded : recorded (acc_failures collected).
Proof. apply recorded_workloads, recorded_pods. by intros uid f. Qed.

Lemma collected_reason uid : reason_of (acc_failures collected) uid = worst uid.
Proof.
  rewrite (reason_of_canonical _ _ collected_recorded). unfold worst. f_equal. unfold collected.
  rewrite collect_workloads_severity, collect_pods_reason, foldl_failureReason_severity.
  by rewrite fmap_app, foldr_app.
Qed.

Lemma collected_lookup uid :
  wf_reason <$> acc_failures collected !! uid =
  if bool_decide (worst uid = "") then None else Some (worst uid).
Proof.
  rewrite <- collected_reason. unfold reason_of.
  destruct (acc_failures collected !! uid) as [f|] eqn:E; cbn; [|done].
  rewrite bool_decide_false; [done|]. intros Hr. destruct (collected_recorded uid f E) as [H _].
  rewrite Hr in H. vm_compute in H. lia.
Qed.
End reports.

(** A collection that is not cancelled reports a root as invalid exactly
    when some reason bears on it (one of its invalid pods, or its own creation
    or status), once per root, and under the most severe of those reasons,
    whatever the order of pods and workloads in the view. *)
Theorem collect_reports_worst gvk_String ctx_Err view :
  (∀ n, ctx_Err n = None) →
  ∃ (reported : gmap UID workloadFailure) obs,
    collect gvk_String ctx_Err view = (obs, None) ∧
    filter about_workload obs = failure_observation <$> (map_to_list reported).*2 ∧
    ∀ uid, wf_reason <$> reported !! uid =
           if bool_decide (worst view uid = "") then None else Some (worst view uid).
Proof.
  intros Hctx. exists (acc_failures (collected gvk_String view)). eexists.
  split_and!; [by apply collect_uncancelled| |by apply collected_lookup].
  rewrite !filter_app, collected_quiet. cbn [app].
  rewrite (filter_all _ (failure_observation <$> _)), filter_none, app_nil_r; [done|..]; apply Forall_forall.
  - intros o (f & -> & _)%list_elem_of_fmap. apply about_workload_discovery.
  - intros o (f & -> & _)%list_elem_of_fmap. apply about_workload_failure.
Qed.

(** The rows of a collection, in order: one per source with its health;
    one per pod with a value, marked with the pod's validity; per workload with
    a value its creation time when that is known and valid, and with a status
    one row for each of the nine phases, 1 for the matched ones and 0 for the
    others; then the failures.  A cancelled collection makes a prefix of them. *)
Theorem collect_rows gvk_String ctx_Err view :
  let rows := (source_observation view <$> map_to_list (cv_Sources view)) ++
              (cv_Pods view ≫= pod_rows view) ++ (cv_Workloads view ≫= workload_rows view) in
  match collect gvk_String ctx_Err view with
  | (obs, None) => ∃ failures discovery, obs = rows ++
      (failure_observation <$> failures) ++ (discovery_observation <$> discovery)
  | (obs, Some err) => obs `prefix_of` rows ∧ ∃ turn, ctx_Err turn = Some err ∧
      turn ≤ length (cv_Pods view) + length (cv_Workloads view)
  end.
Proof.
  intros rows. unfold collect. destruct (ctx_Err 0) as [err|] eqn:E0.
  { split; [apply prefix_nil|]. exists 0. split; [done|lia]. }
  set (a0 := MkAccumulated _ _ _).
  pose proof (collect_each_spec ctx_Err 1 (collect_pod gvk_String view) (cv_Pods view) a0) as Hp.
  destruct (collect_each _ 1 _ _ _) as [a [err|]].
  { destruct Hp as (l1 & l2 & El & -> & Hl & He). split.
    - rewrite (foldl_observations _ (pod_rows view)) by apply collect_pod_observations.
      unfold rows. apply prefix_app. rewrite El, bind_app, <- (assoc_L (++)). by apply prefix_app_r.
    - eexists. split; [done|]. lia. }
  subst a. set (a1 := foldl _ _ _).
  pose proof (collect_each_spec ctx_Err (S (length (cv_Pods view))) (collect_workload view)
    (cv_Workloads view) a1) as Hw.
  assert (Ea1 : acc_observations a1 = acc_observations a0 ++ cv_Pods view ≫= pod_rows view)
    by apply foldl_observations, collect_pod_observations.
  destruct (collect_each _ _ _ _ _) as [a [err|]].
  - destruct Hw as (l1 & l2 & El & -> & Hl & He). split; [|eexists; split; [done|lia]].
    rewrite (foldl_observations _ (workload_rows view)) by apply collect_workload_observations.
    rewrite Ea1. unfold rows. rewrite <- (assoc_L (++)). do 2 apply prefix_app.
    rewrite El, bind_app. by apply prefix_app_r.
  - subst a. do 2 eexists.
    rewrite (foldl_observations _ (workload_rows view)) by apply collect_workload_observations.
    rewrite Ea1. unfold rows. by rewrite <- !(assoc_L (++)).
Qed.

(** ** A concrete view *)

Definition sample_ref (name uid : string) : ObjectRef :=
  MkObjectRef (GVK "batch" "v1" "Job") "ns" name uid "".

Definition sample_pod (uid workload reason : string) : PodResult :=
  MkPodResult (MkPodRecord (sample_ref "job" workload) "k" "builtin" "ns" uid uid "worker" "" "" Resolved ∅)
    (sample_ref uid uid) true reason [].

Definition sample_workload (reason statusReason : string) : WorkloadResult :=
  MkWorkloadResult (MkWorkloadRecord "w" (sample_ref "job" "w") "k" "builtin" Resolved true
    [RunningStatus; DegradedStatus] 7 ∅) true reason statusReason [] [].

Definition sample_view : CapturedView :=
  MkCapturedView [sample_pod "p1" "w" ReasonEvaluationFailed; sample_pod "p2" "w" "";
                  sample_pod "p3" "w" ReasonInvalidDefinition]
    [sample_workload "" ReasonUnresolvedOwner] ∅ [].

Definition sample_gvk_String (g : GroupVersionKind) : string :=
  gvk_Group g +:+ "/" +:+ gvk_Version g +:+ ", Kind=" +:+ gvk_Kind g.

Example worst_samples :
  worst sample_view "w" = ReasonInvalidDefinition ∧ worst sample_view "other" = "" ∧
  ob_value <$> (workload_rows sample_view (sample_workload "" "")) = [7; 0; 1; 0; 0; 1; 0; 0; 0; 0]%Z.
Proof. vm_compute. done. Qed.

Lemma collect_reports_worst_witness :
  worst sample_view "w" ≠ "" ∧
  ∃ (reported : gmap UID workloadFailure) obs,
    collect sample_gvk_String (λ _, None) sample_view = (obs, None) ∧
    filter about_workload obs = failure_observation <$> (map_to_list reported).*2 ∧
    ∀ uid, wf_reason <$> reported !! uid =
           if bool_decide (worst sample_view uid = "") then None else Some (worst sample_view uid).
Proof.
  split; [vm_compute; done|]. exact (collect_reports_worst sample_gvk_String (λ _, None) sample_view (λ _, eq_refl)).
Defined.
