(* ===== verification/LabelResolver.v ===== *)
(** * LabelResolver: custom metric labels

    Models [dsx-workload-exporter/pkg/labelresolver/resolver.go] and
    [validate.go], and the evaluator of
    [dsx-workload-exporter/pkg/labelevaluator/cel.go].  The CEL engine is a
    parameter.  Evaluation is timed: the clock counts the evaluations of one
    call of [Resolve], and a context is the answers it gives when polled along
    that clock, so an evaluator may answer differently every time it is asked. *)

From S2P Require Import Prelude.

Definition context := nat → option error.

(** ** Configuration *)

Definition Source := string.
Definition SourceWorkload : Source := "workload".
Definition SourcePod : Source := "pod".

Definition MetricPodWorkloadInfo : string := "dsx_workload_pod_info".
Definition MetricWorkloadStatus : string := "dsx_workload_status".

Definition supportedMetrics : gmap string bool :=
  {[ MetricPodWorkloadInfo := true; MetricWorkloadStatus := false ]}.

Record Limits := MkLimits { CostLimit : Z; MaxExpressionBytes : Z; MaxResultBytes : Z }.

Record LabelRule := MkLabelRule {
  lr_Name : string;
  lr_Metrics : list string;
  lr_Sources : list Source;
  lr_Expression : string;
}.

Record Config := MkConfig { cfg_Rules : list LabelRule; cfg_Limits : Limits }.

Definition ErrMissingCompiler : string := "label resolver requires a compiler".
Definition ErrDuplicateMetric : string := "duplicate metric".
Definition ErrUnsupportedMetric : string := "unsupported metric".
Definition ErrMissingWorkload : string := "label input workload is nil".
Definition ErrMissingPod : string := "label input Pod is nil".
Definition ErrNegativeLimit : string := "label limits must not be negative".
Definition ErrMissingObject : string := "label input object is nil".
Definition ErrValueTooLong : string := "label value exceeds the maximum length".
Definition ErrNotString : string := "label expression must produce a string".
Definition ErrExpressionTooLong : string := "label expression exceeds the maximum length".

(** ** Strings *)

Definition bytes (s : string) : list nat := Ascii.nat_of_ascii <$> String.list_ascii_of_string s.

Definition between (a b n : nat) : bool := (a <=? n) && (n <=? b).
Definition is_letter (n : nat) : bool := between 97 122 n || between 65 90 n || (n =? 95).

(** [^[a-zA-Z_][a-zA-Z0-9_]*$] *)
Definition labelName (s : string) : bool :=
  match bytes s with
  | [] => false
  | b :: rest => is_letter b && forallb (λ n, is_letter n || between 48 57 n) rest
  end.

(** [strings.TrimSpace(s) == ""]: only white space, as UTF-8. *)
Fixpoint blank (s : list nat) : bool :=
  match s with
  | [] => true
  | 194 :: (133 | 160) :: s => blank s
  | 225 :: 154 :: 128 :: s => blank s
  | 226 :: 128 :: b :: s => (between 128 138 b || (b =? 168) || (b =? 169) || (b =? 175)) && blank s
  | 226 :: 129 :: 159 :: s => blank s
  | 227 :: 128 :: 128 :: s => blank s
  | b :: s => (between 9 13 b || (b =? 32)) && blank s
  end.

(** ** Validation *)

Definition rule_error (fmt : string) (i : nat) (args : list arg) : error :=
  Errorf fmt (ANat i :: args) [].

Fixpoint validate_sources (i : nat) (sources : list Source) (seen : gset Source)
  : result (gset Source) :=
  match sources with
  | [] => Ok seen
  | source :: sources =>
      if (bool_decide (source ≠ SourceWorkload) && bool_decide (source ≠ SourcePod)) ||
         bool_decide (source ∈ seen)
      then Fail (rule_error "labelRules[%d]: invalid or duplicate source %q" i [AStr source])
      else validate_sources i sources ({[source]} ∪ seen)
  end.

Fixpoint validate_metrics (i : nat) (sources : gset Source) (metrics : list string) (seen : gset string)
  : result () :=
  match metrics with
  | [] => Ok ()
  | metric :: metrics =>
      match supportedMetrics !! metric with
      | None => Fail (rule_error "labelRules[%d]: unsupported metric %q" i [AStr metric])
      | Some allowsPod =>
          if bool_decide (SourcePod ∈ sources) && negb allowsPod then
            Fail (rule_error "labelRules[%d]: %s cannot use a Pod source" i [AStr metric])
          else if bool_decide (metric ∈ seen) then
            Fail (rule_error "labelRules[%d]: duplicate metric %q" i [AStr metric])
          else validate_metrics i sources metrics ({[metric]} ∪ seen)
      end
  end.

Definition validate_rule (i : nat) (rule : LabelRule) : result () :=
  if negb (labelName (lr_Name rule)) || String.prefix "__" (lr_Name rule) then
    Fail (rule_error "labelRules[%d]: invalid label name %q" i [AStr (lr_Name rule)])
  else if bool_decide (lr_Metrics rule = []) || bool_decide (lr_Sources rule = []) ||
          blank (bytes (lr_Expression rule)) then
    Fail (rule_error "labelRules[%d]: metrics, sources and expression are required" i [])
  else
    sources ← validate_sources i (lr_Sources rule) ∅;
    validate_metrics i sources (lr_Metrics rule) ∅.

Fixpoint validate_rules (i : nat) (rules : list LabelRule) : result () :=
  match rules with
  | [] => Ok ()
  | rule :: rules => _ ← validate_rule i rule; validate_rules (S i) rules
  end.

Definition ValidateConfig (cfg : Config) : result () := validate_rules 0 (cfg_Rules cfg).

(** ** The resolver *)

Section resolver.
Context {Unstructured : Type}.

Definition Evaluator := context → nat → option Unstructured → result string.
Definition Compiler := string → Limits → result Evaluator.

Record compiledRule := MkCompiledRule {
  cr_name : string;
  cr_sources : list Source;
  cr_evaluator : Evaluator;
}.

Record resolver := MkResolver {
  r_rules : list compiledRule;
  r_rulesByMetric : gmap string (list nat);
  r_podMetrics : gset string;
}.

Record ruleResult := MkRuleResult { rr_value : string; rr_err : option error }.

Record Input := MkInput {
  in_Metrics : list string;
  in_Workload : option Unstructured;
  in_Pod : option Unstructured;
}.

Record ResolvedMetricLabels := MkResolved {
  rl_Metric : string;
  rl_Labels : gmap string string;
  rl_Errors : gmap string error;
}.

Definition add_metric (i : nat) (readsPod : bool) (r : resolver) (metric : string) : resolver :=
  MkResolver (r_rules r)
    (<[metric := default [] (r_rulesByMetric r !! metric) ++ [i]]> (r_rulesByMetric r))
    (if readsPod then {[metric]} ∪ r_podMetrics r else r_podMetrics r).

Definition add_rule (i : nat) (rule : LabelRule) (evaluator : Evaluator) (r : resolver) : resolver :=
  let r := MkResolver (r_rules r ++ [MkCompiledRule (lr_Name rule) (lr_Sources rule) evaluator])
             (r_rulesByMetric r) (r_podMetrics r) in
  foldl (add_metric i (bool_decide (SourcePod ∈ lr_Sources rule))) r (lr_Metrics rule).

Fixpoint compile_rules (compile : Compiler) (limits : Limits) (i : nat) (rules : list LabelRule)
    (r : resolver) : result resolver :=
  match rules with
  | [] => Ok r
  | rule :: rules =>
      match compile (lr_Expression rule) limits with
      | Fail err => Fail (Errorf "labelRules[%d] %q: %w" [ANat i; AStr (lr_Name rule)] [err])
      | Ok evaluator => compile_rules compile limits (S i) rules (add_rule i rule evaluator r)
      end
  end.

Definition New (cfg : Config) (compiler : option Compiler) : result resolver :=
  match compiler with
  | None => Fail (Sentinel ErrMissingCompiler)
  | Some compile =>
      if (MaxExpressionBytes (cfg_Limits cfg) <? 0)%Z || (MaxResultBytes (cfg_Limits cfg) <? 0)%Z then
        Fail (Sentinel ErrNegativeLimit)
      else
        _ ← ValidateConfig cfg;
        compile_rules compile (cfg_Limits cfg) 0 (cfg_Rules cfg) (MkResolver [] ∅ ∅)
  end.

(** The sources in order; the state is the clock. *)
Fixpoint evaluate_sources (ctx : context) (evaluator : Evaluator) (objects : Source → option Unstructured)
    (sources : list Source) (errs : list error) : M nat ruleResult :=
  match sources with
  | [] => mret (MkRuleResult "" (errors_Join errs))
  | source :: sources => λ t,
      let outcome := evaluator ctx t (objects source) in
      match ctx (S t) with
      | Some ctxErr => (Fail ctxErr, S t)
      | None =>
          match outcome with
          | Fail err =>
              evaluate_sources ctx evaluator objects sources
                (errs ++ [Errorf "%s source: %w" [AStr source] [err]]) (S t)
          | Ok value =>
              if bool_decide (value ≠ "") then (Ok (MkRuleResult value (errors_Join errs)), S t)
              else evaluate_sources ctx evaluator objects sources errs (S t)
          end
      end
  end.

Definition evaluate (ctx : context) (objects : Source → option Unstructured) (rule : compiledRule)
  : M nat ruleResult :=
  evaluate_sources ctx (cr_evaluator rule) objects (cr_sources rule) [].

(** One outcome added to the labels of a metric. *)
Definition add_outcome (result : ResolvedMetricLabels) (name : string) (outcome : ruleResult)
  : ResolvedMetricLabels :=
  MkResolved (rl_Metric result)
    (if bool_decide (rr_value outcome ≠ "") then <[name := rr_value outcome]> (rl_Labels result)
     else rl_Labels result)
    (match rr_err outcome with
     | None => rl_Errors result
     | Some err =>
         <[name := Errorf "" [] (option_list (rl_Errors result !! name) ++ [err])]> (rl_Errors result)
     end).

Definition out_of_range : error := External "panic: index out of range".

(** The rules of one metric; [evaluated] is shared with the other metrics. *)
Fixpoint resolve_rules (ctx : context) (r : resolver) (objects : Source → option Unstructured)
    (indices : list nat) (evaluated : gmap nat ruleResult) (result : ResolvedMetricLabels)
  : M nat (gmap nat ruleResult * ResolvedMetricLabels) :=
  match indices with
  | [] => mret (evaluated, result)
  | i :: indices =>
      match r_rules r !! i with
      | None => fail out_of_range
      | Some rule =>
          '(evaluated, outcome) ←
            match evaluated !! i with
            | Some outcome => mret (evaluated, outcome)
            | None => outcome ← evaluate ctx objects rule; mret (<[i := outcome]> evaluated, outcome)
            end;
          resolve_rules ctx r objects indices evaluated (add_outcome result (cr_name rule) outcome)
      end
  end.

Fixpoint resolve_metrics (ctx : context) (r : resolver) (objects : Source → option Unstructured)
    (metrics : list string) (evaluated : gmap nat ruleResult) (results : list ResolvedMetricLabels)
  : M nat (list ResolvedMetricLabels) :=
  match metrics with
  | [] => mret results
  | metric :: metrics =>
      '(evaluated, result) ← resolve_rules ctx r objects (default [] (r_rulesByMetric r !! metric))
                               evaluated (MkResolved metric ∅ ∅);
      resolve_metrics ctx r objects metrics evaluated (results ++ [result])
  end.

(** The checks of the requested metrics; answers whether one reads the Pod. *)
Fixpoint check_requested (r : resolver) (metrics : list string) (requested : gset string)
    (readsPod : bool) : result bool :=
  match metrics with
  | [] => Ok readsPod
  | metric :: metrics =>
      if bool_decide (supportedMetrics !! metric = None) then
        Fail (Errorf "%w %q" [AStr metric] [Sentinel ErrUnsupportedMetric])
      else if bool_decide (metric ∈ requested) then
        Fail (Errorf "%w %q" [AStr metric] [Sentinel ErrDuplicateMetric])
      else check_requested r metrics ({[metric]} ∪ requested)
             (readsPod || bool_decide (metric ∈ r_podMetrics r))
  end.

Definition objects_of (input : Input) (source : Source) : option Unstructured :=
  if bool_decide (source = SourceWorkload) then in_Workload input
  else if bool_decide (source = SourcePod) then in_Pod input else None.

Definition Resolve (ctx : context) (r : resolver) (input : Input) : M nat (list ResolvedMetricLabels) :=
  λ t,
  match ctx t with
  | Some err => (Fail err, t)
  | None =>
      if bool_decide (is_Some (in_Workload input)) then
        match check_requested r (in_Metrics input) ∅ false with
        | Fail err => (Fail err, t)
        | Ok readsPod =>
            if readsPod && negb (bool_decide (is_Some (in_Pod input))) then (Fail (Sentinel ErrMissingPod), t)
            else resolve_metrics ctx r (objects_of input) (in_Metrics input) ∅ [] t
        end
      else (Fail (Sentinel ErrMissingWorkload), t)
  end.

(** Copies the resolved labels over the built-in ones. *)
Definition Apply (r : ResolvedMetricLabels) (builtIn : gmap string string) : gmap string string :=
  rl_Labels r ∪ builtIn.
End resolver.

Arguments Evaluator : clear implicits.
Arguments Compiler : clear implicits.
Arguments resolver : clear implicits.
Arguments Input : clear implicits.

(** ** The CEL evaluator *)

Definition DefaultMaxExpressionBytes : Z := 4096.
Definition DefaultCostLimit : Z := 10000.
Definition DefaultMaxResultBytes : Z := 1024.

Inductive output_type := StringType | DynType | OtherType (name : string).

Inductive cel_value := CelString (s : string) | CelOther.

(** What the code relies on of the CEL library. *)
Class CEL (Unstructured : Type) := {
  Ast : Type;
  NewEnv : option error;
  env_Compile : string → result Ast;
  OutputType : Ast → output_type;
  env_Program : Ast → Z → result (context → nat → Unstructured → result cel_value);
}.

Section cel.
Context {Unstructured : Type} `{!CEL Unstructured}.

Definition disabledEvaluator : Evaluator Unstructured := λ ctx t _,
  match ctx t with Some err => Fail err | None => Ok "" end.

Definition celEvaluator (program : context → nat → Unstructured → result cel_value) (maxResultBytes : Z)
  : Evaluator Unstructured := λ ctx t obj,
  match ctx t with
  | Some err => Fail err
  | None =>
      match obj with
      | None => Fail (Sentinel ErrMissingObject)
      | Some obj =>
          match program ctx t obj with
          | Fail err => Fail (Errorf "evaluating label expression: %w" [] [err])
          | Ok (CelString value) =>
              if (maxResultBytes <? Z.of_nat (String.length value))%Z then Fail (Sentinel ErrValueTooLong)
              else Ok value
          | Ok CelOther => Fail (Sentinel ErrNotString)
          end
      end
  end.

Definition or_default (limit default : Z) : Z := if (limit =? 0)%Z then default else limit.

Definition Compile : Compiler Unstructured := λ expression limits,
  if (MaxExpressionBytes limits <? 0)%Z || (MaxResultBytes limits <? 0)%Z then
    Fail (Sentinel ErrNegativeLimit)
  else if blank (bytes expression) then Ok disabledEvaluator
  else if (or_default (MaxExpressionBytes limits) DefaultMaxExpressionBytes
             <? Z.of_nat (String.length expression))%Z then
    Fail (Errorf "%w (%d bytes)"
            [AInt (or_default (MaxExpressionBytes limits) DefaultMaxExpressionBytes)]
            [Sentinel ErrExpressionTooLong])
  else
    match NewEnv with
    | Some err => Fail (Errorf "creating CEL environment: %w" [] [err])
    | None =>
        match env_Compile expression with
        | Fail err => Fail (Errorf "compiling label expression: %w" [] [err])
        | Ok ast =>
            match OutputType ast with
            | OtherType name => Fail (Errorf "%w, got %s" [AStr name] [Sentinel ErrNotString])
            | _ =>
                match env_Program ast (or_default (CostLimit limits) DefaultCostLimit) with
                | Fail err => Fail (Errorf "building label program: %w" [] [err])
                | Ok program =>
                    Ok (celEvaluator program (or_default (MaxResultBytes limits) DefaultMaxResultBytes))
                end
            end
        end
    end.
End cel.

(** ** What [New] accepts and builds *)

Record rule_wf (rule : LabelRule) : Prop := {
  rw_name : labelName (lr_Name rule) = true ∧ String.prefix "__" (lr_Name rule) = false;
  rw_metrics : lr_Metrics rule ≠ [] ∧ NoDup (lr_Metrics rule);
  rw_sources : lr_Sources rule ≠ [] ∧ NoDup (lr_Sources rule) ∧
    ∀ s, s ∈ lr_Sources rule → s = SourceWorkload ∨ s = SourcePod;
  rw_expression : blank (bytes (lr_Expression rule)) = false;
  rw_supported : ∀ m, m ∈ lr_Metrics rule →
    ∃ allowsPod, supportedMetrics !! m = Some allowsPod ∧ (SourcePod ∈ lr_Sources rule → allowsPod = true);
}.

Lemma validate_sources_Ok i sources seen s :
  validate_sources i sources seen = Ok s ↔
  NoDup sources ∧ (∀ x, x ∈ sources → (x = SourceWorkload ∨ x = SourcePod) ∧ x ∉ seen) ∧
  s = list_to_set sources ∪ seen.
Proof.
  revert seen. induction sources as [|x sources IH]; intros seen; cbn.
  { split; [intros [= <-]|intros (_ & _ & ->); f_equal; set_solver].
    split_and!; [constructor|by intros ? ?%elem_of_nil|set_solver]. }
  destruct (bool_decide (x ≠ SourceWorkload) && bool_decide (x ≠ SourcePod) || bool_decide (x ∈ seen)) eqn:E.
  - split; [done|]. intros (_ & Hx & _). destruct (Hx x) as [Hs Hn]; [by left|].
    rewrite (bool_decide_false (x ∈ seen)), orb_false_r in E by done.
    apply andb_true_iff in E as [E1%bool_decide_eq_true E2%bool_decide_eq_true]. by destruct Hs.
  - apply orb_false_iff in E as [E1 E2%bool_decide_eq_false].
    assert (Hs : x = SourceWorkload ∨ x = SourcePod).
    { apply andb_false_iff in E1. rewrite !bool_decide_eq_false in E1.
      destruct E1 as [E1|E1]; apply dec_stable in E1; auto. }
    rewrite IH, NoDup_cons. setoid_rewrite elem_of_cons. split.
    + intros (Hnd & Hx & ->). split_and!; [intros Hin; set_solver|done|set_solver|set_solver].
    + intros ((Hn & Hnd) & Hx & ->). split_and!; [done| |set_solver].
      intros y Hy. destruct (Hx y); [auto|]. split; [done|]. intros [->%elem_of_singleton|?]%elem_of_union; done.
Qed.

Lemma validate_metrics_Ok i sources metrics seen :
  validate_metrics i sources metrics seen = Ok () ↔
  NoDup metrics ∧ (∀ m, m ∈ metrics → (m ∉ seen) ∧
    ∃ allowsPod, supportedMetrics !! m = Some allowsPod ∧ (SourcePod ∈ sources → allowsPod = true)).
Proof.
  revert seen. induction metrics as [|m metrics IH]; intros seen; cbn [validate_metrics].
  { split; [|done]. intros _. split; [constructor|by intros ? ?%elem_of_nil]. }
  destruct (supportedMetrics !! m) as [allows|] eqn:Em.
  2: { split; [done|]. intros (_ & H). destruct (H m) as (_ & ? & ? & _); [by left|]. congruence. }
  destruct (bool_decide (SourcePod ∈ sources) && negb allows) eqn:E1.
  { split; [done|]. intros (_ & H). destruct (H m) as (_ & a & Ha & Hp); [by left|].
    apply andb_true_iff in E1 as [E1%bool_decide_eq_true E2]. rewrite Em in Ha. injection Ha as <-.
    by rewrite Hp in E2. }
  assert (Ha : SourcePod ∈ sources → allows = true).
  { intros Hp. rewrite bool_decide_true in E1 by done. by destruct allows. }
  clear E1. case_bool_decide as Hs.
  { split; [done|]. intros (_ & H). destruct (H m) as [? _]; [by left|done]. }
  rewrite IH, NoDup_cons. split.
  - intros (Hnd & H). split_and!.
    + intros Hin. apply H in Hin as [Hin _]. set_solver.
    + done.
    + intros y [->|Hy]%elem_of_cons; [by eauto|]. destruct (H y Hy) as [Hn ?]. set_solver.
  - intros ((Hn & Hnd) & H). split; [done|]. intros y Hy.
    destruct (H y) as [Hy' ?]; [by right|]. split; [|done].
    intros [->%elem_of_singleton|?]%elem_of_union; done.
Qed.

Lemma validate_rule_Ok i rule : validate_rule i rule = Ok () ↔ rule_wf rule.
Proof.
  unfold validate_rule. destruct (labelName (lr_Name rule)) eqn:E1; cbn [negb orb];
    [|split; [done|intros [[? _] _ _ _ _]; congruence]].
  destruct (String.prefix "__" (lr_Name rule)) eqn:E2;
    [split; [done|intros [[_ ?] _ _ _ _]; congruence]|].
  case_bool_decide as E3; [split; [done|intros [_ [? _] _ _ _]; congruence]|]. cbn [orb].
  case_bool_decide as E4; [split; [done|intros [_ _ [? _] _ _]; congruence]|]. cbn [orb].
  destruct (blank (bytes (lr_Expression rule))) eqn:E5;
    [split; [done|intros [_ _ _ ? _]; congruence]|].
  rewrite result_bind_Ok. setoid_rewrite validate_sources_Ok. setoid_rewrite validate_metrics_Ok. split.
  - intros (s & (Hnd & Hs & ->) & Hnd' & Hm). split; try done.
    + split_and!; [done..|]. intros x Hx. by apply Hs.
    + intros m Hin. destruct (Hm m Hin) as (_ & a & Ha & Hp). exists a. split; [done|].
      intros Hpod. apply Hp. set_solver.
  - intros [_ [_ Hm] (_ & Hs & Hs') _ Hsup]. exists (list_to_set (lr_Sources rule)). split_and!; try done.
    + intros x Hx. split; [by apply Hs'|set_solver].
    + set_solver.
    + intros m Hin. split; [set_solver|]. destruct (Hsup m Hin) as (a & Ha & Hp). exists a. set_solver.
Qed.

Lemma validate_rules_Ok i rules : validate_rules i rules = Ok () ↔ Forall rule_wf rules.
Proof.
  revert i. induction rules as [|rule rules IH]; intros i; cbn [validate_rules]; [by split; [constructor|]|].
  rewrite result_bind_Ok, Forall_cons, <- (IH (S i)), <- (validate_rule_Ok i). split.
  - intros ([] & ? & ?). done.
  - intros [? ?]. by exists ().
Qed.

(** The indices of the rules that target a metric, in order. *)
Fixpoint rules_from (i : nat) (rules : list LabelRule) (metric : string) : list nat :=
  match rules with
  | [] => []
  | rule :: rules =>
      (if bool_decide (metric ∈ lr_Metrics rule) then [i] else []) ++ rules_from (S i) rules metric
  end.

Lemma rules_from_snoc i rules rule metric :
  rules_from i (rules ++ [rule]) metric =
  rules_from i rules metric ++
    (if bool_decide (metric ∈ lr_Metrics rule) then [i + length rules] else []).
Proof.
  revert i. induction rules as [|x rules IH]; intros i; cbn.
  - by rewrite Nat.add_0_r, app_nil_r.
  - rewrite IH, (assoc_L (++)). do 2 f_equal. by replace (S i + length rules) with (i + S (length rules)) by lia.
Qed.

Lemma rules_from_elem i rules metric j :
  j ∈ rules_from i rules metric ↔
  ∃ rule, i ≤ j ∧ rules !! (j - i) = Some rule ∧ metric ∈ lr_Metrics rule.
Proof.
  revert i. induction rules as [|x rules IH]; intros i; cbn [rules_from].
  { split; [by intros ?%elem_of_nil|]. by intros (? & _ & ? & _). }
  rewrite elem_of_app, IH. split.
  - intros [H|(rule & Hi & Hl & Hm)].
    + case_bool_decide; [|by apply elem_of_nil in H]. apply list_elem_of_singleton in H as ->.
      exists x. by rewrite Nat.sub_diag.
    + exists rule. split_and!; [lia| |done]. by replace (j - i) with (S (j - S i)) by lia.
  - intros (rule & Hi & Hl & Hm). destruct (decide (j = i)) as [->|Hne].
    + left. rewrite Nat.sub_diag in Hl. injection Hl as <-. rewrite bool_decide_true by done. by left.
    + right. exists rule. split_and!; [lia| |done].
      by replace (j - i) with (S (j - S i)) in Hl by lia.
Qed.

Section tables.
Context {Unstructured : Type}.
Implicit Types (r : resolver Unstructured) (compile : Compiler Unstructured).

(** The tables of a resolver built for some rules. *)
Record tables compile (limits : Limits) (rules : list LabelRule) r : Prop := {
  tb_rules : Forall2 (λ rule compiled, compile (lr_Expression rule) limits = Ok (cr_evaluator compiled) ∧
    cr_name compiled = lr_Name rule ∧ cr_sources compiled = lr_Sources rule) rules (r_rules r);
  tb_byMetric : ∀ m, default [] (r_rulesByMetric r !! m) = rules_from 0 rules m;
  tb_pod : ∀ m, m ∈ r_podMetrics r ↔
    ∃ rule, rule ∈ rules ∧ m ∈ lr_Metrics rule ∧ SourcePod ∈ lr_Sources rule;
}.

Lemma add_metrics i readsPod metrics r :
  NoDup metrics →
  let r' := foldl (add_metric i readsPod) r metrics in
  r_rules r' = r_rules r ∧
  (∀ m, default [] (r_rulesByMetric r' !! m) =
        default [] (r_rulesByMetric r !! m) ++ (if bool_decide (m ∈ metrics) then [i] else [])) ∧
  (∀ m, m ∈ r_podMetrics r' ↔ m ∈ r_podMetrics r ∨ (readsPod = true ∧ m ∈ metrics)).
Proof.
  revert r. induction metrics as [|x metrics IH]; intros r Hnd; cbn [foldl].
  { split_and!; [done| |].
    - intros m. by rewrite bool_decide_false, app_nil_r by (by intros ?%elem_of_nil).
    - intros m. split; [auto|]. by intros [?|[_ ?%elem_of_nil]]. }
  apply NoDup_cons in Hnd as [Hx Hnd]. destruct (IH (add_metric i readsPod r x) Hnd) as (E1 & E2 & E3).
  split_and!; [by rewrite E1| |].
  - intros m. rewrite E2. cbn [add_metric r_rulesByMetric]. destruct (decide (m = x)) as [->|Hne].
    + rewrite lookup_insert_eq, bool_decide_false, bool_decide_true, app_nil_r by (done || by left). done.
    + rewrite lookup_insert_ne by done. f_equal.
      by rewrite (bool_decide_ext (m ∈ x :: metrics) (m ∈ metrics)) by (rewrite elem_of_cons; naive_solver).
  - intros m. rewrite E3, elem_of_cons. cbn [add_metric r_podMetrics].
    destruct readsPod; [rewrite elem_of_union, elem_of_singleton|]; naive_solver.
Qed.

Lemma add_rule_tables compile limits rules rule evaluator r :
  tables compile limits rules r → NoDup (lr_Metrics rule) →
  compile (lr_Expression rule) limits = Ok evaluator →
  tables compile limits (rules ++ [rule]) (add_rule (length rules) rule evaluator r).
Proof.
  intros [Hr Hm Hp] Hnd Hc. unfold add_rule.
  edestruct (add_metrics (length rules) (bool_decide (SourcePod ∈ lr_Sources rule)) (lr_Metrics rule))
    as (E1 & E2 & E3); [exact Hnd|]. split.
  - rewrite E1. cbn [r_rules]. apply Forall2_app; [done|]. by constructor.
  - intros m. rewrite E2. cbn [r_rulesByMetric]. by rewrite Hm, rules_from_snoc.
  - intros m. rewrite E3, bool_decide_eq_true. cbn [r_podMetrics]. rewrite Hp.
    setoid_rewrite elem_of_app. setoid_rewrite list_elem_of_singleton. naive_solver.
Qed.

Lemma compile_rules_Ok compile limits pre rules r r' :
  tables compile limits pre r → Forall rule_wf rules →
  compile_rules compile limits (length pre) rules r = Ok r' → tables compile limits (pre ++ rules) r'.
Proof.
  revert pre r. induction rules as [|rule rules IH]; intros pre r Ht Hwf.
  { intros [= <-]. by rewrite app_nil_r. }
  apply Forall_cons in Hwf as [[_ [_ Hnd] _ _ _] Hwf]. cbn [compile_rules].
  destruct (compile (lr_Expression rule) limits) as [ev|] eqn:E; [|done]. intros H.
  rewrite cons_middle, (assoc_L (++)). eapply IH; [by apply add_rule_tables|done|].
  rewrite length_app. cbn. by rewrite Nat.add_comm.
Qed.

Lemma compile_rules_total compile limits i rules r :
  (∀ rule, rule ∈ rules → is_ok (compile (lr_Expression rule) limits) = true) ↔
  is_ok (compile_rules compile limits i rules r) = true.
Proof.
  revert i r. induction rules as [|rule rules IH]; intros i r; cbn [compile_rules].
  { split; [done|]. by intros _ ? ?%elem_of_nil. }
  destruct (compile (lr_Expression rule) limits) as [ev|err] eqn:E.
  - rewrite <- IH. setoid_rewrite elem_of_cons. split; [auto|]. intros H x [->|Hx]; [by rewrite E|auto].
  - split; [|done]. intros H. specialize (H rule (list_elem_of_here _ _)). by rewrite E in H.
Qed.

Lemma New_tables cfg compile r :
  New cfg (Some compile) = Ok r → tables compile (cfg_Limits cfg) (cfg_Rules cfg) r.
Proof.
  unfold New. case_match; [done|]. intros ([] & Hv & Hc)%result_bind_Ok.
  apply validate_rules_Ok in Hv. apply (compile_rules_Ok _ _ [] _ (MkResolver [] ∅ ∅)); [|done|done].
  split; [constructor|done|]. intros m. cbn. split; [set_solver|]. by intros (? & ?%elem_of_nil & _).
Qed.
End tables.

(** A label resolver is built exactly when there is a compiler, no limit is
    negative, every rule is well formed (a valid label name, distinct supported
    metrics, distinct sources, no Pod source for a workload metric, a non-blank
    expression) and every expression compiles; its tables then list, for each
    metric, the rules that target it in order, and the metrics that read the Pod. *)
Theorem New_spec {Unstructured} (cfg : Config) (compiler : option (Compiler Unstructured)) :
  (is_ok (New cfg compiler) = true ↔ ∃ compile, compiler = Some compile ∧
     (0 ≤ MaxExpressionBytes (cfg_Limits cfg) ∧ 0 ≤ MaxResultBytes (cfg_Limits cfg))%Z ∧
     Forall rule_wf (cfg_Rules cfg) ∧
     ∀ rule, rule ∈ cfg_Rules cfg → is_ok (compile (lr_Expression rule) (cfg_Limits cfg)) = true) ∧
  ∀ compile r, compiler = Some compile → New cfg compiler = Ok r →
    tables compile (cfg_Limits cfg) (cfg_Rules cfg) r.
Proof.
  split; [|by intros compile r -> ?; apply New_tables].
  unfold New. destruct compiler as [compile|]; [|by split; [|intros (? & ? & _)]].
  destruct (_ || _) eqn:E.
  - split; [done|]. intros (? & _ & [H1 H2] & _). apply orb_true_iff in E. lia.
  - apply orb_false_iff in E as [E1%Z.ltb_ge E2%Z.ltb_ge]. unfold ValidateConfig. split.
    + destruct (validate_rules 0 (cfg_Rules cfg)) as [[]|] eqn:Ev; [|done]. intros H.
      exists compile. split_and!; [done..|by apply validate_rules_Ok in Ev|by eapply compile_rules_total].
    + intros (? & [= <-] & _ & Hwf & Hc). apply (validate_rules_Ok 0) in Hwf. rewrite Hwf.
      by apply compile_rules_total.
Qed.

(** ** What [Resolve] answers *)

Section resolution.
Context {Unstructured : Type}.
Implicit Types (r : resolver Unstructured) (objects : Source → option Unstructured).

(** The answers an evaluator gives for the sources of a rule, from a time on. *)
Fixpoint answers (ctx : context) (evaluator : Evaluator Unstructured) objects (sources : list Source) (t : nat)
  : list (Source * result string) :=
  match sources with
  | [] => []
  | s :: sources => (s, evaluator ctx t (objects s)) :: answers ctx evaluator objects sources (S t)
  end.

Definition failures (l : list (Source * result string)) : list error :=
  omap (λ '(s, a), match a with
                   | Fail err => Some (Errorf "%s source: %w" [AStr s] [err])
                   | Ok _ => None
                   end) l.

Definition unhelpful (a : result string) : Prop := a = Ok "" ∨ ∃ err, a = Fail err.

(** The first non-empty value, with the errors of the sources before it. *)
Definition first_value (errs : list error) (l : list (Source * result string)) (o : ruleResult) : Prop :=
  ∃ k, Forall (λ a, unhelpful a.2) (take k l) ∧ rr_err o = errors_Join (errs ++ failures (take k l)) ∧
    ((length l ≤ k ∧ rr_value o = "") ∨
     (∃ s, l !! k = Some (s, Ok (rr_value o)) ∧ rr_value o ≠ "")).

Lemma first_value_cons errs s a l o :
  unhelpful a → first_value (errs ++ failures [(s, a)]) l o → first_value errs ((s, a) :: l) o.
Proof.
  intros Ha (k & Hf & He & Hk). exists (S k). cbn [take]. split_and!.
  - by constructor.
  - rewrite He, <- (assoc_L (++)). do 2 f_equal. unfold failures. by destruct a.
  - destruct Hk as [[? ?]|Hk]; [left; cbn; split; [lia|done]|by right].
Qed.

Lemma evaluate_sources_ok ctx evaluator objects sources errs t :
  (∀ n, ctx n = None) →
  ∃ o t', evaluate_sources ctx evaluator objects sources errs t = (Ok o, t') ∧
    t ≤ t' ∧ t' ≤ t + length sources ∧ first_value errs (answers ctx evaluator objects sources t) o.
Proof.
  intros Hctx. revert errs t. induction sources as [|s sources IH]; intros errs t; cbn [evaluate_sources answers].
  { do 2 eexists. split_and!; [done|lia|cbn; lia|]. exists 0. cbn. rewrite app_nil_r.
    split_and!; [constructor|done|by left]. }
  rewrite Hctx. destruct (evaluator ctx t (objects s)) as [value|err] eqn:Ea; cbn [length].
  - case_bool_decide as Hv.
    + do 2 eexists. split_and!; [done|lia|lia|]. exists 0. cbn. rewrite app_nil_r.
      split_and!; [constructor|done|right; by exists s].
    + destruct (IH errs (S t)) as (o & t' & E & ? & ? & Ho). exists o, t'. split_and!; [done|lia|lia|].
      subst value. apply first_value_cons; [by left|]. by rewrite app_nil_r.
  - destruct (IH (errs ++ [Errorf "%s source: %w" [AStr s] [err]]) (S t)) as (o & t' & E & ? & ? & Ho).
    exists o, t'. split_and!; [done|lia|lia|]. apply first_value_cons; [right; by eexists|done].
Qed.

(** ** The rules of a metric *)

Definition zero_result : ruleResult := MkRuleResult "" None.
Definition outcome_of (evaluated : gmap nat ruleResult) (i : nat) : ruleResult :=
  default zero_result (evaluated !! i).

Definition rule_name r (i : nat) : string := default "" (cr_name <$> r_rules r !! i).

Definition metric_labels r (outcome : nat → ruleResult) (start : ResolvedMetricLabels) (indices : list nat)
  : ResolvedMetricLabels :=
  foldl (λ res i, add_outcome res (rule_name r i) (outcome i)) start indices.

Lemma metric_labels_ext r o1 o2 start indices :
  (∀ i, i ∈ indices → o1 i = o2 i) → metric_labels r o1 start indices = metric_labels r o2 start indices.
Proof.
  unfold metric_labels. revert start. induction indices as [|i indices IH]; intros start H; [done|].
  cbn [foldl]. rewrite (H i) by (by left). apply IH. intros j Hj. apply H. by right.
Qed.

Definition sources_count r (i : nat) : nat := default 0 (length <$> (cr_sources <$> r_rules r !! i)).

(** What is remembered of the rules evaluated since time [t0]. *)
Record memo (ctx : context) r objects (t0 : nat) (evaluated : gmap nat ruleResult) (t : nat) : Prop := {
  mm_done : ∃ finished, NoDup finished ∧ (∀ i, i ∈ finished → i < length (r_rules r)) ∧
    (∀ i, i ∈ finished ↔ is_Some (evaluated !! i)) ∧
    t ≤ t0 + sum_list_with (sources_count r) finished;
  mm_time : t0 ≤ t;
  mm_outcome : ∀ i o, evaluated !! i = Some o → ∃ rule ti, r_rules r !! i = Some rule ∧ t0 ≤ ti ∧
    first_value [] (answers ctx (cr_evaluator rule) objects (cr_sources rule) ti) o;
}.

Lemma memo_insert ctx r objects t0 evaluated t i rule o t' ti :
  memo ctx r objects t0 evaluated t → evaluated !! i = None → r_rules r !! i = Some rule →
  t ≤ t' → t' ≤ t + length (cr_sources rule) → t0 ≤ ti →
  first_value [] (answers ctx (cr_evaluator rule) objects (cr_sources rule) ti) o →
  memo ctx r objects t0 (<[i := o]> evaluated) t'.
Proof.
  intros [(fin & Hnd & Hlt & Hin & Ht) Htime Ho] Hnew Hrule Hle1 Hle2 Hti Hfirst. split; [|lia|].
  - exists (i :: fin). split_and!.
    + constructor; [|done]. rewrite Hin, Hnew. by intros [].
    + intros j [->|Hj]%elem_of_cons; [by apply lookup_lt_Some in Hrule|by apply Hlt].
    + intros j. rewrite elem_of_cons, Hin. destruct (decide (j = i)) as [->|Hne].
      * rewrite lookup_insert_eq. split; [done|by left].
      * rewrite lookup_insert_ne by done. split; [by intros [?|?]|by right].
    + cbn. unfold sources_count at 1. rewrite Hrule. cbn. lia.
  - intros j o' [[<- <-]|[_ Hj]]%lookup_insert_Some; [|by apply Ho]. by exists rule, ti.
Qed.

Lemma resolve_rules_ok ctx r objects t0 indices evaluated result t :
  (∀ n, ctx n = None) → memo ctx r objects t0 evaluated t →
  (∀ i, i ∈ indices → i < length (r_rules r)) →
  ∃ evaluated' t',
    resolve_rules ctx r objects indices evaluated result t =
      (Ok (evaluated', metric_labels r (outcome_of evaluated') result indices), t') ∧
    memo ctx r objects t0 evaluated' t' ∧ evaluated ⊆ evaluated' ∧
    ∀ i, i ∈ indices → is_Some (evaluated' !! i).
Proof.
  intros Hctx. revert evaluated result t.
  induction indices as [|i indices IH]; intros evaluated result t Hmemo Hlt; cbn [resolve_rules].
  { exists evaluated, t. split_and!; [done..|]. by intros ? ?%elem_of_nil. }
  destruct (lookup_lt_is_Some_2 (r_rules r) i) as [rule Hrule]; [apply Hlt; by left|]. rewrite Hrule.
  assert (Hstep : ∃ evaluated1 outcome t1,
    (match evaluated !! i with
     | Some outcome => mret (evaluated, outcome)
     | None => outcome ← evaluate ctx objects rule; mret (<[i := outcome]> evaluated, outcome)
     end : M nat _) t = (Ok (evaluated1, outcome), t1) ∧
    memo ctx r objects t0 evaluated1 t1 ∧ evaluated ⊆ evaluated1 ∧ evaluated1 !! i = Some outcome).
  { destruct (evaluated !! i) as [o|] eqn:Ei; [by exists evaluated, o, t|].
    destruct (evaluate_sources_ok ctx (cr_evaluator rule) objects (cr_sources rule) [] t Hctx)
      as (o & t1 & E & Hle1 & Hle2 & Ho).
    exists (<[i := o]> evaluated), o, t1. split_and!.
    - unfold mbind, M_bind, evaluate. by rewrite E.
    - eapply memo_insert; [done..|by destruct Hmemo|done].
    - by apply insert_subseteq.
    - by rewrite lookup_insert_eq. }
  destruct Hstep as (evaluated1 & outcome & t1 & E & Hmemo1 & Hsub1 & Hi).
  destruct (IH evaluated1 (add_outcome result (cr_name rule) outcome) t1 Hmemo1) as (ev' & t' & E' & Hm' & Hsub & His).
  { intros j Hj. apply Hlt. by right. }
  exists ev', t'. split_and!; [|done|by etrans|].
  - unfold mbind at 1, M_bind at 1. rewrite E, E'. unfold metric_labels. cbn [foldl].
    assert (Ename : rule_name r i = cr_name rule) by (unfold rule_name; by rewrite Hrule).
    assert (Eo : outcome_of ev' i = outcome) by (unfold outcome_of; by rewrite (lookup_weaken _ _ _ _ Hi Hsub)).
    by rewrite Ename, Eo.
  - intros j [->|Hj]%elem_of_cons; [|by apply His]. rewrite (lookup_weaken _ _ _ _ Hi Hsub). done.
Qed.

Definition rules_of r (metric : string) : list nat := default [] (r_rulesByMetric r !! metric).

Lemma resolve_metrics_ok ctx r objects t0 metrics evaluated results t :
  (∀ n, ctx n = None) → memo ctx r objects t0 evaluated t →
  (∀ m i, m ∈ metrics → i ∈ rules_of r m → i < length (r_rules r)) →
  ∃ evaluated' t',
    resolve_metrics ctx r objects metrics evaluated results t =
      (Ok (results ++ ((λ m, metric_labels r (outcome_of evaluated') (MkResolved m ∅ ∅) (rules_of r m)) <$> metrics)), t') ∧
    memo ctx r objects t0 evaluated' t' ∧ evaluated ⊆ evaluated' ∧
    ∀ m i, m ∈ metrics → i ∈ rules_of r m → is_Some (evaluated' !! i).
Proof.
  intros Hctx. revert evaluated results t.
  induction metrics as [|m metrics IH]; intros evaluated results t Hmemo Hlt; cbn [resolve_metrics].
  { exists evaluated, t. split_and!; [by rewrite app_nil_r|done|done|]. by intros ? ? ?%elem_of_nil. }
  destruct (resolve_rules_ok ctx r objects t0 (rules_of r m) evaluated (MkResolved m ∅ ∅) t Hctx Hmemo)
    as (ev1 & t1 & E1 & Hm1 & Hsub1 & His1). { intros i. apply Hlt. by left. }
  destruct (IH ev1 (results ++ [metric_labels r (outcome_of ev1) (MkResolved m ∅ ∅) (rules_of r m)]) t1 Hm1)
    as (ev' & t' & E' & Hm' & Hsub & His). { intros x i Hx. apply Hlt. by right. }
  exists ev', t'. split_and!; [|done|by etrans|].
  - unfold mbind at 1, M_bind at 1. fold (rules_of r m). rewrite E1, E', <- (assoc_L (++)). cbn.
    do 4 f_equal. apply metric_labels_ext. intros i Hi. destruct (His1 i Hi) as [o Ho].
    unfold outcome_of. by rewrite Ho, (lookup_weaken _ _ _ _ Ho Hsub).
  - intros x i [->|Hx]%elem_of_cons Hi; [|by eapply His]. destruct (His1 i Hi) as [o Ho].
    rewrite (lookup_weaken _ _ _ _ Ho Hsub). done.
Qed.
(** ** Labels by name *)

Definition rule_label (rules : list LabelRule) (i : nat) : string := default "" (lr_Name <$> rules !! i).

(** The value a rule gives a label, if any. *)
Definition label_value (names : nat → string) (outcome : nat → ruleResult) (name : string) (i : nat)
  : option string :=
  if bool_decide (names i = name ∧ rr_value (outcome i) ≠ "") then Some (rr_value (outcome i)) else None.

Lemma metric_labels_labels r outcome m indices name :
  rl_Labels (metric_labels r outcome (MkResolved m ∅ ∅) indices) !! name =
  last (omap (label_value (rule_name r) outcome name) indices).
Proof.
  unfold metric_labels. induction indices as [|i indices IH] using rev_ind; [done|].
  rewrite foldl_snoc, omap_app, last_app. cbn [omap list_omap add_outcome rl_Labels].
  unfold label_value at 1. destruct (decide (rr_value (outcome i) = "")) as [Ev|Ev].
  - rewrite (bool_decide_false (_ ≠ _)), (bool_decide_false (_ ∧ _)) by tauto. cbn. by rewrite IH.
  - rewrite (bool_decide_true (_ ≠ _)) by done. destruct (decide (rule_name r i = name)) as [En|En].
    + rewrite En, lookup_insert_eq, bool_decide_true by done. done.
    + rewrite lookup_insert_ne, bool_decide_false by tauto. cbn. by rewrite IH.
Qed.

Lemma metric_labels_errors r outcome m indices name :
  is_Some (rl_Errors (metric_labels r outcome (MkResolved m ∅ ∅) indices) !! name) ↔
  ∃ i, i ∈ indices ∧ rule_name r i = name ∧ rr_err (outcome i) ≠ None.
Proof.
  unfold metric_labels. induction indices as [|i indices IH] using rev_ind.
  { cbn. split; [by intros []|by intros (? & ?%elem_of_nil & _)]. }
  rewrite foldl_snoc. setoid_rewrite elem_of_app. setoid_rewrite list_elem_of_singleton.
  cbn [add_outcome rl_Errors]. destruct (rr_err (outcome i)) as [err|] eqn:Ee.
  - destruct (decide (rule_name r i = name)) as [En|En].
    + rewrite En, lookup_insert_eq. split; [|done]. intros _. exists i. by rewrite Ee; auto.
    + rewrite lookup_insert_ne, IH by done. naive_solver.
  - rewrite IH. naive_solver.
Qed.

Lemma metric_labels_metric r outcome start indices :
  rl_Metric (metric_labels r outcome start indices) = rl_Metric start.
Proof. unfold metric_labels. revert start. induction indices as [|i l IH]; intros start; [done|]. cbn. by rewrite IH. Qed.

(** ** Requests *)

Lemma check_requested_Ok r metrics requested readsPod b :
  check_requested r metrics requested readsPod = Ok b ↔
  NoDup metrics ∧ (∀ m, m ∈ metrics → is_Some (supportedMetrics !! m) ∧ (m ∉ requested)) ∧
  b = readsPod || existsb (λ m, bool_decide (m ∈ r_podMetrics r)) metrics.
Proof.
  revert requested readsPod. induction metrics as [|m metrics IH]; intros requested readsPod; cbn [check_requested existsb].
  { rewrite orb_false_r. split; [intros [= <-]|by intros (_ & _ & ->)].
    split_and!; [constructor|by intros ? ?%elem_of_nil|done]. }
  destruct (supportedMetrics !! m) as [a|] eqn:Em.
  - rewrite bool_decide_false by done. case_bool_decide as Hr.
    { split; [done|]. intros (_ & H & _). destruct (H m) as [_ ?]; [by left|done]. }
    rewrite IH, NoDup_cons, orb_assoc. split.
    + intros (Hnd & H & ->). split_and!; [| done| |done].
      * intros Hin. apply H in Hin as [_ Hin]. set_solver.
      * intros y [->|Hy]%elem_of_cons; [by rewrite Em|]. destruct (H y Hy). set_solver.
    + intros ((Hn & Hnd) & H & ->). split_and!; [done| |done]. intros y Hy.
      destruct (H y) as [? Hny]; [by right|]. split; [done|].
      intros [->%elem_of_singleton|?]%elem_of_union; done.
  - rewrite bool_decide_true by done. split; [done|]. intros (_ & H & _).
    destruct (H m) as [[? ?] _]; [by left|congruence].
Qed.

Lemma check_requested_total r metrics requested readsPod :
  NoDup metrics → (∀ m, m ∈ metrics → is_Some (supportedMetrics !! m) ∧ (m ∉ requested)) →
  check_requested r metrics requested readsPod =
    Ok (readsPod || existsb (λ m, bool_decide (m ∈ r_podMetrics r)) metrics).
Proof. intros. by apply check_requested_Ok. Qed.

Lemma sum_list_with_seq {A} (f : A → nat) (l : list A) :
  sum_list_with (λ i, default 0 (f <$> l !! i)) (seq 0 (length l)) = sum_list_with f l.
Proof.
  assert (HS : ∀ (g : nat → nat) k, sum_list_with g (S <$> k) = sum_list_with (λ i, g (S i)) k).
  { intros g k. induction k as [|i k IH]; [done|]. cbn. by rewrite IH. }
  induction l as [|x l IH]; [done|]. cbn [length seq sum_list_with]. rewrite <- fmap_S_seq, HS.
  exact (f_equal (Nat.add (f x)) IH).
Qed.

Lemma sum_list_with_bound r finished :
  NoDup finished → (∀ i, i ∈ finished → i < length (r_rules r)) →
  sum_list_with (sources_count r) finished ≤ sum_list_with (λ c, length (cr_sources c)) (r_rules r).
Proof.
  intros Hnd Hlt. rewrite <- (sum_list_with_seq (λ c, length (cr_sources c))).
  assert (Hsub : finished ⊆+ seq 0 (length (r_rules r))).
  { apply NoDup_submseteq; [done|]. intros i Hi%Hlt. apply elem_of_seq. lia. }
  apply submseteq_Permutation in Hsub as [k Hk].
  transitivity (sum_list_with (sources_count r) (finished ++ k)).
  { rewrite sum_list_with_app. lia. }
  rewrite <- Hk. apply Nat.eq_le_incl. clear. induction (seq 0 _) as [|i l IH]; [done|].
  cbn [sum_list_with]. rewrite IH. f_equal. unfold sources_count. by destruct (r_rules r !! i).
Qed.
End resolution.

(** A request the rules can serve. *)
Record valid_request {Unstructured} (cfg : Config) (input : Input Unstructured) : Prop := {
  vr_workload : is_Some (in_Workload input);
  vr_metrics : NoDup (in_Metrics input) ∧ ∀ m, m ∈ in_Metrics input → is_Some (supportedMetrics !! m);
  vr_pod : ∀ rule m, rule ∈ cfg_Rules cfg → m ∈ in_Metrics input → m ∈ lr_Metrics rule →
    SourcePod ∈ lr_Sources rule → is_Some (in_Pod input);
}.

Section resolved.
Context {Unstructured : Type} (cfg : Config) (compile : Compiler Unstructured) (r : resolver Unstructured).
Context (Htables : tables compile (cfg_Limits cfg) (cfg_Rules cfg) r).
#[local] Set Default Proof Using "Type*".

Lemma rule_name_label i : rule_name r i = rule_label (cfg_Rules cfg) i.
Proof.
  unfold rule_name, rule_label. destruct (cfg_Rules cfg !! i) as [rule|] eqn:E.
  - destruct (Forall2_lookup_l _ _ _ _ _ (tb_rules _ _ _ _ Htables) E) as (c & Hc & _ & Hn & _).
    rewrite Hc. cbn. done.
  - apply lookup_ge_None in E. rewrite (Forall2_length _ _ _ (tb_rules _ _ _ _ Htables)) in E.
    apply lookup_ge_None in E. by rewrite E.
Qed.

Lemma sources_total :
  sum_list_with (λ c, length (cr_sources c)) (r_rules r) =
  sum_list_with (λ rule, length (lr_Sources rule)) (cfg_Rules cfg).
Proof.
  destruct Htables as [Hr _ _]. clear Htables. induction Hr as [|rule c rules cs (_ & _ & E) _ IH]; [done|].
  cbn. by rewrite IH, E.
Qed.

Lemma readsPod_iff input :
  existsb (λ m, bool_decide (m ∈ r_podMetrics r)) (in_Metrics (Unstructured:=Unstructured) input) = true ↔
  ∃ rule m, rule ∈ cfg_Rules cfg ∧ m ∈ in_Metrics input ∧ m ∈ lr_Metrics rule ∧ SourcePod ∈ lr_Sources rule.
Proof.
  rewrite existsb_exists. setoid_rewrite bool_decide_eq_true. setoid_rewrite (tb_pod _ _ _ _ Htables).
  setoid_rewrite <- list_elem_of_In. naive_solver.
Qed.

Lemma Resolve_invalid ctx input t :
  ctx t = None → ¬ valid_request cfg input → ∃ e, Resolve ctx r input t = (Fail e, t).
Proof.
  intros Hctx Hbad. unfold Resolve. rewrite Hctx. case_bool_decide as Hw; [|by eexists].
  destruct (check_requested r (in_Metrics input) ∅ false) as [b|e] eqn:E; [|by eexists].
  apply check_requested_Ok in E as (Hnd & Hm & ->). cbn [orb].
  destruct (existsb _ _ && _) eqn:Ep; [by eexists|]. destruct Hbad. split; [done| |].
  - split; [done|]. intros m Hin. by apply Hm.
  - intros rule m H1 H2 H3 H4. apply andb_false_iff in Ep as [Ep|Ep].
    + assert (existsb (λ m, bool_decide (m ∈ r_podMetrics r)) (in_Metrics input) = true) as Ht
        by (apply readsPod_iff; exists rule, m; done). congruence.
    + apply negb_false_iff, bool_decide_eq_true in Ep. done.
Qed.

Lemma Resolve_runs ctx input t :
  ctx t = None → valid_request cfg input →
  Resolve ctx r input t = resolve_metrics ctx r (objects_of input) (in_Metrics input) ∅ [] t.
Proof.
  intros Hctx [Hw [Hnd Hm] Hp]. unfold Resolve. rewrite Hctx, bool_decide_true by done.
  rewrite check_requested_total by (set_solver || done). cbn [orb].
  destruct (existsb _ _) eqn:E; [|done].
  apply readsPod_iff in E as (rule & m & ? & ? & ? & ?). rewrite (bool_decide_true (is_Some (in_Pod input))); [done|].
  by apply (Hp rule m).
Qed.
End resolved.

(** C33: resolving with a context that is not cancelled refuses an invalid
    request before evaluating anything, and answers a valid one: one result per
    metric in request order, where a label carries the value of the last rule
    with its name that yields one, a rule yields the first non-empty value of
    its sources with the errors of the sources before it, an error is kept for
    a label exactly when a rule of that name met one, and every metric sees the
    same outcome of a rule, which is evaluated at most once. *)
Theorem Resolve_spec {Unstructured} (cfg : Config) (compile : Compiler Unstructured) r ctx input t :
  New cfg (Some compile) = Ok r → (∀ n, ctx n = None) →
  (¬ valid_request cfg input → ∃ e, Resolve ctx r input t = (Fail e, t)) ∧
  (valid_request cfg input → ∃ outcome results t',
     Resolve ctx r input t = (Ok results, t') ∧
     t' ≤ t + sum_list_with (λ rule, length (lr_Sources rule)) (cfg_Rules cfg) ∧
     (∀ i rule m, cfg_Rules cfg !! i = Some rule → m ∈ in_Metrics input → m ∈ lr_Metrics rule →
        ∃ evaluator ti, compile (lr_Expression rule) (cfg_Limits cfg) = Ok evaluator ∧ t ≤ ti ∧
          first_value [] (answers ctx evaluator (objects_of input) (lr_Sources rule) ti) (outcome i)) ∧
     Forall2 (λ m res, rl_Metric res = m ∧ ∀ name,
        rl_Labels res !! name =
          last (omap (label_value (rule_label (cfg_Rules cfg)) outcome name) (rules_from 0 (cfg_Rules cfg) m)) ∧
        (is_Some (rl_Errors res !! name) ↔ ∃ i, i ∈ rules_from 0 (cfg_Rules cfg) m ∧
           rule_label (cfg_Rules cfg) i = name ∧ rr_err (outcome i) ≠ None))
       (in_Metrics input) results).
Proof.
  intros Hr%New_tables Hctx. split; [by apply (Resolve_invalid cfg compile)|]. intros Hvalid.
  assert (Hlt : ∀ m i, m ∈ in_Metrics input → i ∈ rules_of r m → i < length (r_rules r)).
  { intros m i _. unfold rules_of. rewrite (tb_byMetric _ _ _ _ Hr).
    intros (rule & _ & Hl%lookup_lt_Some & _)%rules_from_elem. rewrite Nat.sub_0_r in Hl.
    by rewrite <- (Forall2_length _ _ _ (tb_rules _ _ _ _ Hr)). }
  destruct (resolve_metrics_ok ctx r (objects_of input) t (in_Metrics input) ∅ [] t Hctx)
    as (ev & t' & E & [(fin & Hnd & Hfin & Hdone & Ht) _ Ho] & _ & His); [|exact Hlt|].
  { split; [|lia|done]. exists []. cbn. split_and!; [constructor|by intros ? ?%elem_of_nil| |lia].
    intros i. split; [by intros ?%elem_of_nil|by intros []]. }
  exists (outcome_of ev). do 2 eexists. split_and!.
  - rewrite (Resolve_runs cfg compile r Hr) by done. exact E.
  - pose proof (sum_list_with_bound r fin Hnd Hfin). rewrite (sources_total cfg compile r Hr) in *. lia.
  - intros i rule m Hl Hm Hin. destruct (His m i Hm) as [o Hoi].
    { unfold rules_of. rewrite (tb_byMetric _ _ _ _ Hr). apply rules_from_elem. exists rule.
      rewrite Nat.sub_0_r. split_and!; [lia|done|done]. }
    destruct (Ho i o Hoi) as (c & ti & Hc & Hti & Hf).
    destruct (Forall2_lookup_lr _ _ _ _ _ _ (tb_rules _ _ _ _ Hr) Hl Hc) as (Hcomp & _ & Es).
    exists (cr_evaluator c), ti. unfold outcome_of. rewrite Hoi, <- Es. done.
  - cbn [app]. apply Forall2_fmap_r, Forall_Forall2_diag, Forall_forall. intros m _.
    split; [apply metric_labels_metric|]. intros name. unfold rules_of. rewrite (tb_byMetric _ _ _ _ Hr).
    rewrite metric_labels_labels, metric_labels_errors. setoid_rewrite (rule_name_label cfg compile r Hr).
    split; [|done]. f_equal. apply list_omap_ext.
    apply Forall_Forall2_diag, Forall_forall. intros i _. unfold label_value.
    by rewrite (rule_name_label cfg compile r Hr).
Qed.

(** ** The CEL evaluators *)

(** What a compiled expression can answer: nothing when it is blank, otherwise
    a value within the limit, and never for a missing object. *)
Lemma Compile_bounded `{CEL Unstructured} expression limits (evaluator : Evaluator Unstructured) :
  Compile expression limits = Ok evaluator →
  ∀ ctx t obj value, evaluator ctx t obj = Ok value →
    ctx t = None ∧
    if blank (bytes expression) then value = ""
    else is_Some obj ∧
      (Z.of_nat (String.length expression) ≤
         or_default (MaxExpressionBytes limits) DefaultMaxExpressionBytes)%Z ∧
      (Z.of_nat (String.length value) ≤ or_default (MaxResultBytes limits) DefaultMaxResultBytes)%Z.
Proof.
  unfold Compile. destruct (_ || _); [done|]. destruct (blank (bytes expression)).
  { intros [= <-] ctx t obj value. unfold disabledEvaluator. destruct (ctx t); [done|]. by intros [= <-]. }
  destruct (_ <? Z.of_nat (String.length expression))%Z eqn:Elen; [done|]. apply Z.ltb_ge in Elen.
  destruct NewEnv; [done|]. destruct (env_Compile expression) as [ast|]; [|done]. intros Hc.
  assert (Hp : ∃ program, evaluator = celEvaluator program (or_default (MaxResultBytes limits) DefaultMaxResultBytes)).
  { destruct (OutputType ast); [..|done]; destruct (env_Program ast _) as [program|]; try done;
      injection Hc as <-; by exists program. }
  destruct Hp as [program ->]. intros ctx t obj value. unfold celEvaluator.
  destruct (ctx t); [done|]. destruct obj as [obj|]; [|done].
  destruct (program ctx t obj) as [[s|]|]; [|done..].
  destruct (_ <? Z.of_nat (String.length s))%Z eqn:Es; [done|]. apply Z.ltb_ge in Es. by intros [= <-].
Qed.

(** ** A concrete configuration *)

(** Expressions are field names of a flat object. *)
#[local] Instance sample_cel : CEL (gmap string string) := {|
  Ast := string; NewEnv := None; env_Compile e := Ok e; OutputType _ := StringType;
  env_Program ast _ := Ok (λ _ _ obj, match obj !! ast with
                                      | Some v => Ok (CelString v)
                                      | None => Fail (External "no such key")
                                      end);
|}.

Definition sample_config : Config := MkConfig
  [MkLabelRule "team" [MetricWorkloadStatus; MetricPodWorkloadInfo] [SourceWorkload] "team";
   MkLabelRule "team" [MetricPodWorkloadInfo] [SourcePod; SourceWorkload] "squad"] (MkLimits 0 0 8).

Definition sample_input : Input (gmap string string) :=
  MkInput [MetricPodWorkloadInfo; MetricWorkloadStatus]
    (Some {[ "team" := "ml"; "squad" := "blue" ]}) (Some ∅).

Example Resolve_samples :
  (λ labels, (rl_Metric labels, map_to_list (rl_Labels labels))) <$>
    (match New sample_config (Some Compile) with
     | Ok r => default [] (match (Resolve (λ _, None) r sample_input 0).1 with Ok l => Some l | _ => None end)
     | Fail _ => []
     end) =
  [(MetricPodWorkloadInfo, [("team", "blue")]); (MetricWorkloadStatus, [("team", "ml")])] ∧
  is_ok (New (MkConfig [MkLabelRule "__x" [MetricWorkloadStatus] [SourceWorkload] "e"] (MkLimits 0 0 0))
           (Some Compile)) = false ∧
  is_ok (New (MkConfig [MkLabelRule "x" [MetricWorkloadStatus] [SourcePod] "e"] (MkLimits 0 0 0))
           (Some Compile)) = false.
Proof. vm_compute. done. Qed.

Lemma sample_valid : valid_request sample_config sample_input.
Proof.
  split; [by eexists| |by intros; eexists]. split.
  - apply (bool_decide_unpack _). vm_compute. done.
  - intros m [->|[->|?%elem_of_nil]%elem_of_cons]%elem_of_cons; [by eexists..|done].
Qed.

Lemma Resolve_spec_witness :
  ∃ r, New sample_config (Some Compile) = Ok r ∧ valid_request sample_config sample_input ∧
    ∃ results t', Resolve (λ _, None) r sample_input 0 = (Ok results, t') ∧ t' ≤ 3 ∧ length results = 2.
Proof.
  destruct (New sample_config (Some Compile)) as [r|e] eqn:E; [|vm_compute in E; discriminate E].
  exists r. split; [done|]. split; [apply sample_valid|].
  destruct (Resolve_spec sample_config Compile r (λ _, None) sample_input 0 E (λ _, eq_refl)) as [_ H].
  destruct (H sample_valid) as (outcome & results & t' & HR & Ht & _ & Hf).
  exists results, t'. split_and!; [exact HR|exact Ht|]. symmetry. exact (Forall2_length _ _ _ Hf).
Defined.
