(* ===== verification/Catalog.v ===== *)
(** * Catalog: the built-in Karta definitions, by the kind of their root

    Models [karta/sdk/pkg/catalog/catalog.go]: construction, lookup and listing.
    The definitions themselves, the printing of a kind and the sort are
    parameters, as are the JSON and YAML encoders.  A deep copy is the value;
    the built-in definitions are in [Kartas], what holds of them in [Builtin]. *)

From Stdlib Require Import Ascii.
From S2P Require Import Prelude Api Sort.

Definition ErrNotFound : string := "catalog: no Karta registered for GVK".
Definition ErrInvalidGVK : string := "catalog: root component GVK incomplete".

Record Catalog := MkCatalog { byGVK : gmap GroupVersionKind Karta }.

Definition RootKey (k : Karta) : GroupVersionKind := default (GVK "" "" "") (cd_Kind (RootComponent k)).

Definition incomplete (karta : Karta) : bool :=
  match cd_Kind (RootComponent karta) with
  | None => true
  | Some kind => bool_decide (gvk_Version kind = "") || bool_decide (gvk_Kind kind = "")
  end.

(** ** File names

    [strings.ToLower] and [strings.ReplaceAll(_, ".", "-")], on ASCII. *)

Definition lower_ascii (c : ascii) : ascii :=
  let n := nat_of_ascii c in
  if (65 <=? n)%nat && (n <=? 90)%nat then ascii_of_nat (n + 32) else c.

Fixpoint map_string (f : ascii → ascii) (s : string) : string :=
  match s with
  | EmptyString => EmptyString
  | String c s => String (f c) (map_string f s)
  end.

Definition ToLower : string → string := map_string lower_ascii.
Definition dots_to_dashes : string → string := map_string (λ c, if Ascii.eqb c "." then "-" else c)%char.

Definition Slug (k : Karta) : result string :=
  let gvk := RootKey k in
  if bool_decide (gvk_Version gvk = "") || bool_decide (gvk_Kind gvk = "") then
    Fail (Errorf "%w: Karta %q" [AStr (k_Name k)] [Sentinel ErrInvalidGVK])
  else
    let group := gvk_Group gvk in
    let group := if bool_decide (group = "") then "core" else group in
    Ok (dots_to_dashes group +:+ "-" +:+ ToLower (gvk_Kind gvk) +:+ "-" +:+ gvk_Version gvk).

(** ** Rendering

    The parts of a node of the YAML library the code reads and writes; [other]
    is what it leaves alone. *)

Inductive Node := MkNode {
  Style : N;
  Value : string;
  other : string;
  Content : list Node;
}.

(** Drops the first pair whose key has that value; a last odd node is no key. *)
Fixpoint drop_pair (content : list Node) (key : string) : list Node :=
  match content with
  | k :: v :: content =>
      if bool_decide (Value k = key) then content else k :: v :: drop_pair content key
  | content => content
  end.

Definition dropMapKey (mapping : Node) (key : string) : Node :=
  MkNode (Style mapping) (Value mapping) (other mapping) (drop_pair (Content mapping) key).

Fixpoint clearStyle (n : Node) : Node :=
  MkNode 0 (Value n) (other n) (clearStyle <$> Content n).

Definition newline : string := String "010" EmptyString.
Definition yamlHeader : string :=
  "# SPDX-License-Identifier: Apache-2.0" +:+ newline +:+
  "# Copyright (c) 2026 NVIDIA Corporation" +:+ newline.

Section rendering.
Context (json_Marshal : Karta → result string) (yaml_Unmarshal : string → result Node)
  (yaml_Encode : Node → result string).

Definition document_panic : error := External "runtime error: index out of range".

Definition MarshalYAML (k : Karta) : result string :=
  match json_Marshal k with
  | Fail err => Fail (Errorf "marshal Karta %q: %w" [AStr (k_Name k)] [err])
  | Ok jsonBytes =>
      match yaml_Unmarshal jsonBytes with
      | Fail err => Fail (Errorf "re-parse Karta %q: %w" [AStr (k_Name k)] [err])
      | Ok node =>
          let node := clearStyle node in
          match Content node with
          | [] => Fail document_panic
          | mapping :: content =>
              let node := MkNode (Style node) (Value node) (other node)
                            (dropMapKey mapping "status" :: content) in
              match yaml_Encode node with
              | Fail err => Fail (Errorf "encode Karta %q: %w" [AStr (k_Name k)] [err])
              | Ok text => Ok (yamlHeader +:+ text)
              end
          end
      end
  end.
End rendering.

Section catalog.
Context (gvk_String : GroupVersionKind → string) `{GoSort}.

Fixpoint add_definitions (defs : list Karta) (c : Catalog) : result Catalog :=
  match defs with
  | [] => Ok c
  | karta :: defs =>
      if incomplete karta then Fail (Errorf "%w: Karta %q" [AStr (k_Name karta)] [Sentinel ErrInvalidGVK])
      else
        match byGVK c !! RootKey karta with
        | Some existing =>
            Fail (Errorf "duplicate GVK %s defined by %q and %q"
                    [AStr (gvk_String (RootKey karta)); AStr (k_Name existing); AStr (k_Name karta)] [])
        | None => add_definitions defs (MkCatalog (<[RootKey karta := karta]> (byGVK c)))
        end
  end.

Definition newCatalog (defs : list Karta) : result Catalog := add_definitions defs (MkCatalog ∅).

Definition Get (c : Catalog) (gvk : GroupVersionKind) : result Karta :=
  match byGVK c !! gvk with
  | Some k => Ok k
  | None => Fail (Errorf "%w: %s" [AStr (gvk_String gvk)] [Sentinel ErrNotFound])
  end.

Definition gvk_less (a b : GroupVersionKind) : bool := string_lt (gvk_String a) (gvk_String b).

Definition List (c : Catalog) : list Karta :=
  omap (λ gvk, byGVK c !! gvk) (sort_Slice gvk_less (map_to_list (byGVK c)).*1).

(** [New] panics where [newCatalog] reports a violation. *)
Definition New (definitions : list Karta) : option Catalog :=
  match newCatalog definitions with Ok c => Some c | Fail _ => None end.

(** ** Properties *)

(** Of a mapping, as pairs, the first pair with the key goes and nothing else. *)
Lemma drop_pair_pairs (l : list (Node * Node)) key :
  ∃ l', drop_pair (l ≫= λ p, [p.1; p.2]) key = (l' ≫= λ p, [p.1; p.2]) ∧
    (l' = l ∧ Forall (λ p, Value p.1 ≠ key) l ∨
     ∃ l1 p l2, l = l1 ++ p :: l2 ∧ l' = l1 ++ l2 ∧ Value p.1 = key ∧ Forall (λ p, Value p.1 ≠ key) l1).
Proof.
  induction l as [|p l (l' & IH & Hl')]; cbn; [by exists []; split; [|left]|].
  case_bool_decide as Hp.
  - exists l. split; [done|right]. by exists [], p, l.
  - exists (p :: l'). cbn. rewrite IH. split; [done|].
    destruct Hl' as [[-> ?]|(l1 & q & l2 & -> & -> & ? & ?)]; [left; split; [done|by constructor]|right].
    exists (p :: l1), q, l2. split_and!; [done..|by constructor].
Qed.

(** A definition the catalog can index. *)
Definition keyed (k : Karta) : Prop := gvk_Version (RootKey k) ≠ "" ∧ gvk_Kind (RootKey k) ≠ "".

Lemma keyed_iff karta : incomplete karta = false ↔ keyed karta.
Proof.
  unfold incomplete, keyed, RootKey. destruct (cd_Kind (RootComponent karta)) as [kind|]; cbn.
  - by rewrite orb_false_iff, !bool_decide_eq_false.
  - split; [done|]. by intros [? _].
Qed.

Lemma add_definitions_Ok defs c c' :
  add_definitions defs c = Ok c' ↔
  Forall keyed defs ∧ NoDup (RootKey <$> defs) ∧ (∀ k, k ∈ defs → byGVK c !! RootKey k = None) ∧
  c' = MkCatalog (list_to_map ((λ k, (RootKey k, k)) <$> reverse defs) ∪ byGVK c).
Proof.
  revert c. induction defs as [|k defs IH]; intros [m]; cbn [add_definitions byGVK fmap list_fmap].
  { rewrite reverse_nil. cbn. rewrite (left_id_L ∅ (∪)). split.
    - intros [= <-]. split_and!; [constructor|constructor|by intros ? ?%elem_of_nil|done].
    - by intros (_ & _ & _ & ->). }
  rewrite Forall_cons, NoDup_cons, <- keyed_iff. destruct (incomplete k) eqn:Ek;
    [by split; [|intros [[? _] _]]|].
  destruct (m !! RootKey k) as [existing|] eqn:Em.
  { split; [done|]. intros (_ & _ & Hm & _). rewrite Hm in Em by (by left). done. }
  rewrite IH. cbn [byGVK]. clear IH.
  assert (Eq : ∀ (l : list Karta), RootKey k ∉ RootKey <$> l →
    list_to_map ((λ k, (RootKey k, k)) <$> reverse l) ∪ <[RootKey k := k]> m =
    (list_to_map ((λ k, (RootKey k, k)) <$> reverse (k :: l)) ∪ m : gmap _ _)).
  { intros l Hl. rewrite reverse_cons, fmap_app, list_to_map_app, <- (assoc_L (∪)). f_equal.
    cbn. by rewrite insert_empty, insert_union_singleton_l. }
  split.
  - intros (Hk & Hnd & Hm & ->).
    assert (Hnew : RootKey k ∉ RootKey <$> defs).
    { intros (x & E & Hx)%list_elem_of_fmap. apply Hm in Hx. rewrite <- E, lookup_insert_eq in Hx. done. }
    split_and!; [done..| |by rewrite Eq].
    intros x [->|Hx]%elem_of_cons; [done|]. specialize (Hm x Hx).
    destruct (decide (RootKey k = RootKey x)) as [<-|Hne]; [done|]. by rewrite lookup_insert_ne in Hm.
  - intros ((_ & Hk) & (Hnew & Hnd) & Hm & ->). split_and!; [done..| |by rewrite Eq].
    intros x Hx. rewrite lookup_insert_ne; [apply Hm; by right|]. intros E. apply Hnew.
    rewrite E. by apply list_elem_of_fmap_2.
Qed.

Lemma newCatalog_lookup defs c gvk k :
  newCatalog defs = Ok c → byGVK c !! gvk = Some k ↔ k ∈ defs ∧ RootKey k = gvk.
Proof.
  intros (_ & Hnd & _ & ->)%add_definitions_Ok. cbn [byGVK]. rewrite (right_id_L ∅ (∪)).
  rewrite <- elem_of_list_to_map.
  - rewrite list_elem_of_fmap. setoid_rewrite elem_of_reverse. naive_solver.
  - rewrite <- list_fmap_compose, fmap_reverse. cbn. by rewrite reverse_Permutation.
Qed.

Lemma newCatalog_is_ok defs :
  is_ok (newCatalog defs) = true ↔ Forall keyed defs ∧ NoDup (RootKey <$> defs).
Proof.
  split.
  - destruct (newCatalog defs) as [c|] eqn:E; [|done]. intros _.
    by apply add_definitions_Ok in E as (? & ? & _).
  - intros [Hk Hnd].
    assert (E : newCatalog defs = Ok (MkCatalog (list_to_map ((λ k, (RootKey k, k)) <$> reverse defs) ∪ ∅))).
    { apply add_definitions_Ok. split_and!; [done..| |done]. intros k _. apply lookup_empty. }
    by rewrite E.
Qed.

Lemma Get_Ok defs c gvk k : newCatalog defs = Ok c → Get c gvk = Ok k ↔ k ∈ defs ∧ RootKey k = gvk.
Proof.
  intros Hc. rewrite <- (newCatalog_lookup defs c gvk k Hc). unfold Get.
  destruct (byGVK c !! gvk); naive_solver.
Qed.

Lemma sorted_by_keys {A B} (less : B → B → bool) (f : B → option A) (key : A → B) l :
  sorted_by less l → (∀ b a, f b = Some a → key a = b) →
  sorted_by (λ x y, less (key x) (key y)) (omap f l).
Proof.
  intros Hl Hkey. unfold sorted_by in *. induction Hl as [|b l _ IH Hb]; [constructor|].
  cbn. destruct (f b) as [a|] eqn:E; [|done]. constructor; [done|].
  apply Forall_forall. intros x (b' & Hb' & E')%list_elem_of_omap.
  rewrite (Hkey _ _ E), (Hkey _ _ E'). rewrite Forall_forall in Hb. by apply Hb.
Qed.

Lemma List_Permutation defs c : newCatalog defs = Ok c → List c ≡ₚ defs.
Proof.
  intros Hc. pose proof Hc as (_ & Hnd & _ & E)%add_definitions_Ok. unfold List.
  assert (Hkeys : (map_to_list (byGVK c)).*1 ≡ₚ RootKey <$> defs).
  { rewrite E. cbn [byGVK]. rewrite (right_id_L ∅ (∪)), map_to_list_to_map.
    - rewrite <- list_fmap_compose. cbn. by rewrite reverse_Permutation.
    - rewrite <- list_fmap_compose. cbn. by rewrite reverse_Permutation. }
  rewrite sort_Slice_Permutation, Hkeys.
  assert (Hget : ∀ k, k ∈ defs → byGVK c !! RootKey k = Some k).
  { intros k Hk. by apply (newCatalog_lookup defs). }
  clear -Hget. induction defs as [|k defs IH]; [done|]. cbn. rewrite (Hget k) by (by left).
  constructor. apply IH. intros x Hx. apply Hget. by right.
Qed.

(** The catalog is built exactly when every definition has a root with a
    version and a kind and no two share one; it then finds each definition under
    its root kind and nothing else, and lists all of them once, in the order of
    their kinds as printed. *)
Theorem newCatalog_spec defs :
  (is_ok (newCatalog defs) = true ↔ Forall keyed defs ∧ NoDup (RootKey <$> defs)) ∧
  ∀ c, newCatalog defs = Ok c →
    (∀ gvk k, Get c gvk = Ok k ↔ k ∈ defs ∧ RootKey k = gvk) ∧
    List c ≡ₚ defs ∧
    sorted_by (λ a b, string_lt (gvk_String (RootKey a)) (gvk_String (RootKey b))) (List c).
Proof.
  split; [|intros c Hc; split_and!].
  - apply newCatalog_is_ok.
  - intros gvk k. by apply Get_Ok.
  - by apply List_Permutation.
  - apply (sorted_by_keys gvk_less (λ gvk, byGVK c !! gvk)).
    + apply sort_Slice_sorted, (strict_weak_on string_lt gvk_String), string_lt_strict_weak.
    + intros gvk k E. by apply (newCatalog_lookup defs c) in E as [_ ?].
Qed.
End catalog.

Example newCatalog_samples :
  let keys := λ r, match r with Ok c => k_Name <$> List (λ g, gvk_Kind g) c (H:=insertion_GoSort) | Fail _ => [] end in
  keys (newCatalog (λ g, gvk_Kind g) [sample_karta]) = ["sample"] ∧
  is_ok (newCatalog (λ g, gvk_Kind g) [sample_karta; sample_karta]) = false.
Proof. vm_compute. done. Qed.
