(* ===== verification/Wasm.v ===== *)
(** * Wasm: the SDK behind the bindings for a browser

    Models [karta-wasm/core/core.go] and the envelope of [codec.go] and
    [bindings.go]: a tree is built of two JSON texts, and an answer carries data
    or an error.  The syntax of JSON, the decoding of a Karta, the encoding of a
    result and the text of an error are parameters, as is what the accessor keeps
    of an object; JavaScript values are the texts they hold. *)

From S2P Require Import Prelude Api JqValidate Validator Value Runner Accessor Component Sort Summary Tree Catalog.

Section core.
Context `{K8s} {S : Type} `{!ComponentAccessor S}.
Context (ParseJSON : string → result json) (Unmarshal_Karta : json → result Karta).
(** The accessor over an unstructured object; [None] is the object without fields
    of a JSON [null] *)
Context (of_object : option (gmap string value) → S).
Context (Parse : string → result aval) (meta status : list rfield).

Definition DecodeDefinition (definitionJSON : string) : result Karta :=
  map_error (λ err, Errorf "failed to unmarshal definition: %w" [] [err])
    (ParseJSON definitionJSON ≫= Unmarshal_Karta).

(** Into a [map[string]any] *)
Definition unmarshal_object (j : json) : result (option (gmap string value)) :=
  match j with
  | JNull => Ok None
  | JObject m => Some <$> map_sequence (json_Unmarshal <$> m)
  | _ => Fail (json_type_error "map[string]interface {}")
  end.

Definition DecodeWorkload (workloadJSON : string) : result (option (gmap string value)) :=
  map_error (λ err, Errorf "failed to unmarshal workload: %w" [] [err])
    (ParseJSON workloadJSON ≫= unmarshal_object).

Definition BuildTree (definitionJSON workloadJSON : string) : result WorkloadTree :=
  definition ← DecodeDefinition definitionJSON;
  workload ← DecodeWorkload workloadJSON;
  run (Build (NewComponentFactory definition) Parse meta status) (of_object workload).

Definition ListCatalog (gvk_String : GroupVersionKind → string) `{GoSort} (catalog : Catalog) : list Karta :=
  List gvk_String catalog.

(** ** The envelope *)

Record envelope := Envelope { env_data : option string; env_error : option string }.

Context (Error : error → string).

Definition encodeEnvelope {A} (Marshal : A → result string) (resultErr : result A) : envelope :=
  match resultErr with
  | Fail err => Envelope None (Some (Error err))
  | Ok result =>
      match Marshal result with
      | Fail marshalErr => Envelope None (Some (Error marshalErr))
      | Ok encodedResult => Envelope (Some encodedResult) None
      end
  end.

Definition jsBuildTree (Marshal : WorkloadTree → result string) (arguments : list string) : envelope :=
  match arguments with
  | [definitionJSON; workloadJSON] => encodeEnvelope Marshal (BuildTree definitionJSON workloadJSON)
  | _ => encodeEnvelope Marshal
           (Fail (Errorf "buildTree: expected 2 arguments, got %d" [ANat (length arguments)] []))
  end.

Definition jsListCatalog (gvk_String : GroupVersionKind → string) `{GoSort} (Marshal : list Karta → result string)
    (catalog : Catalog) : envelope :=
  encodeEnvelope Marshal (Ok (ListCatalog gvk_String catalog)).

(** An answer has data or an error, never both and never neither. *)
Lemma encodeEnvelope_one {A} (Marshal : A → result string) r :
  is_Some (env_data (encodeEnvelope Marshal r)) ↔ env_error (encodeEnvelope Marshal r) = None.
Proof.
  unfold encodeEnvelope, is_Some. destruct r as [result|]; [destruct (Marshal result)|]; naive_solver.
Qed.

(** Data comes of a tree that was built, encoded. *)
Lemma jsBuildTree_data Marshal arguments data :
  env_data (jsBuildTree Marshal arguments) = Some data →
  ∃ definitionJSON workloadJSON tree, arguments = [definitionJSON; workloadJSON] ∧
    BuildTree definitionJSON workloadJSON = Ok tree ∧ Marshal tree = Ok data.
Proof.
  unfold jsBuildTree, encodeEnvelope. destruct arguments as [|d [|w [|]]]; try done.
  destruct (BuildTree d w) as [tree|] eqn:Et; [|done]. destruct (Marshal tree) as [text|] eqn:E; [|done].
  intros [= <-]. by exists d, w, tree.
Qed.
End core.

(** A tree is built only of a well-formed Karta: what is not is refused with the
    validator's error, whatever the workload holds. *)
Lemma BuildTree_valid `{K8s} {S : Type} `{!ComponentAccessor S} `{Equiv S} `{!ComponentAccessorLaws S}
    ParseJSON Unmarshal_Karta (of_object : option (gmap string value) → S) Parse meta status d w tree :
  untagged meta → untagged status →
  BuildTree ParseJSON Unmarshal_Karta of_object Parse meta status d w = Ok tree →
  ∃ k object, DecodeDefinition ParseJSON Unmarshal_Karta d = Ok k ∧ DecodeWorkload ParseJSON w = Ok object ∧
    wf_structure k ∧
    run (Build (NewComponentFactory k) Parse meta status) (of_object object) = Ok tree.
Proof.
  intros Hm Hs. unfold BuildTree.
  destruct (DecodeDefinition _ _ d) as [k|]; [|done]. destruct (DecodeWorkload _ w) as [object|]; [|done]. cbn.
  intros E. exists k, object. split_and!; [done..| |done].
  apply (Validate_wf Parse meta status); [done..|]. unfold Build in E.
  replace (fac_karta (NewComponentFactory k)) with (Some k) in E by (symmetry; apply factory_tables).
  by destruct (Validate Parse meta status (Some k)).
Qed.
