(* ===== verification/Verify.v ===== *)
(** * Verify: what a Karta extracts from a workload, checked

    Models [karta/sdk/hack/karta-verify/main.go]: the walk over the tree of a
    workload, the warnings, the comparison with a prediction and the exit codes.
    Files, YAML and what is read of the Kubernetes structs are parameters.  What
    is printed is left out but for warnings and mismatches, kept as format and
    arguments. *)

From S2P Require Import Prelude Api JqValidate Validator Value Runner Accessor Component Sort Literal Summary Tree Catalog.

Record component := MkComponent {
  c_Key : string;
  c_Replicas : option Z;
  c_MinReplicas : option Z;
  c_MaxReplicas : option Z;
  c_PodSpec : option bool;
  (** [None] is the nil slice. *)
  c_Containers : option (list string);
}.

Record observation := MkObservation { obs_Status : option (list string); obs_Components : list component }.

Definition texts (l : option (list string)) : list string := default [] l.

Definition message := (string * list arg)%type.

(** ** Comparison *)

(** [strings.Join(want, ",") != strings.Join(got, ",")] of sorted copies *)
Definition differ (want got : list string) : bool :=
  negb (bool_decide (strings_Join (sort_Strings want) "," = strings_Join (sort_Strings got) ",")).

Definition formatInt (v : option Z) : arg := match v with None => AStr "<none>" | Some z => AInt z end.
Definition formatBool (v : option bool) : arg :=
  AStr match v with None => "n/a" | Some true => "yes" | Some false => "NO" end.
Definition formatList (v : list string) : arg :=
  AStr match v with [] => "<none>" | _ => strings_Join v "," end.

Definition by_key (components : list component) : gmap string component :=
  foldl (λ byKey c, <[c_Key c := c]> byKey) ∅ components.

Definition check_int (key name : string) (want got : option Z) : list message :=
  if bool_decide (is_Some want) && negb (bool_decide (got = want))
  then [("%s %s: predicted %s, extracted %s", [AStr key; AStr name; formatInt want; formatInt got])] else [].

Definition compare_component (byKey : gmap string component) (want : component) : list message :=
  let key := c_Key want in
  match byKey !! key with
  | None =>
      [("%s: predicted but not extracted; extracted keys are %s",
        [AStr key; formatList (sort_Strings (map_to_list byKey).*1)])]
  | Some got =>
      check_int key "replicas" (c_Replicas want) (c_Replicas got) ++
      check_int key "minReplicas" (c_MinReplicas want) (c_MinReplicas got) ++
      check_int key "maxReplicas" (c_MaxReplicas want) (c_MaxReplicas got) ++
      (if bool_decide (is_Some (c_PodSpec want)) && negb (bool_decide (c_PodSpec got = c_PodSpec want))
       then [("%s podSpec: predicted %s, extracted %s", [AStr key; formatBool (c_PodSpec want); formatBool (c_PodSpec got)])]
       else []) ++
      (if bool_decide (is_Some (c_Containers want)) && differ (texts (c_Containers want)) (texts (c_Containers got))
       then [("%s containers: predicted %s, extracted %s",
              [AStr key; formatList (texts (c_Containers want)); formatList (texts (c_Containers got))])]
       else [])
  end.

Definition compare (predicted observed : observation) : list message :=
  (if bool_decide (is_Some (obs_Status predicted)) && differ (texts (obs_Status predicted)) (texts (obs_Status observed))
   then [("status: predicted %s, extracted %s",
          [formatList (texts (obs_Status predicted)); formatList (texts (obs_Status observed))])]
   else []) ++
  (obs_Components predicted ≫= compare_component (by_key (obs_Components observed))).

Definition count (set : bool) : nat := if set then 1 else 0.

Definition countPredicted (p : observation) : nat :=
  count (bool_decide (is_Some (obs_Status p))) +
  sum_list ((λ c, count (bool_decide (is_Some (c_Replicas c))) + count (bool_decide (is_Some (c_MinReplicas c))) +
                  count (bool_decide (is_Some (c_MaxReplicas c))) + count (bool_decide (is_Some (c_PodSpec c))) +
                  count (bool_decide (is_Some (c_Containers c))))%nat <$> obs_Components p).

Section tool.
Context `{K8s}.
(** The names of the containers of a pod template, a pod spec; the name of a container *)
Context (template_containers : PodTemplateSpec → list string) (spec_containers : PodSpec → list string)
        (Container_Name : Container → string).

(** ** The walk *)

(** What the walk meets: a component without instances, or one of them. *)
Inductive found :=
  | NoInstances (name : string)
  | Found (c : component).

(** The containers of the pod definition that was extracted, if one was *)
Definition extracted_containers (e : option ExtractedInstance) : option (list string) :=
  match e with
  | None => None
  | Some e =>
      match ei_PodTemplateSpec e, ei_PodSpec e, ei_FragmentedPodSpec e with
      | Some template, _, _ => Some (template_containers template)
      | None, Some spec, _ => Some (spec_containers spec)
      | None, None, Some fragments =>
          Some ((Container_Name <$> default [] (fps_Containers fragments)) ++
                (Container_Name <$> option_list (fps_Container fragments)))
      | None, None, None => None
      end
  end.

Definition instance_key (prefix name : string) (InstanceKey ReplicaKey : option string) : string :=
  let key := prefix +:+ name in
  let key := match InstanceKey with Some instance => key +:+ "[" +:+ instance +:+ "]" | None => key end in
  match ReplicaKey with Some replica => key +:+ "{" +:+ replica +:+ "}" | None => key end.

Definition instance_component (key : string) (HasPodDefinition : bool) (scale : option Scale)
    (extracted : option ExtractedInstance) : component :=
  let containers := extracted_containers extracted in
  MkComponent key (scale ≫= scale_Replicas) (scale ≫= scale_MinReplicas) (scale ≫= scale_MaxReplicas)
    (if HasPodDefinition then Some (bool_decide (is_Some containers)) else None)
    (match containers with Some (c :: l) => Some (c :: l) | _ => None end).

Fixpoint walk_component (prefix : string) (node : ComponentNode) : list found :=
  match node with
  | MkComponentNode name _ hasPodDefinition instances =>
      (if bool_decide (length instances = 0) then [NoInstances (prefix +:+ name)] else []) ++
      concat (walk_instance prefix name hasPodDefinition <$> instances)
  end
with walk_instance (prefix name : string) (hasPodDefinition : bool) (inst : InstanceNode) : list found :=
  match inst with
  | MkInstanceNode instanceKey replicaKey scale extracted children =>
      let key := instance_key prefix name instanceKey replicaKey in
      Found (instance_component key hasPodDefinition scale extracted) ::
      concat (walk_component (key +:+ "/") <$> children)
  end.

Definition walk (nodes : list ComponentNode) : list found := concat (walk_component "" <$> nodes).

Definition observe (wt : WorkloadTree) : observation :=
  MkObservation (ws_Phases <$> wt_Status wt)
    (omap (λ f, match f with Found c => Some c | NoInstances _ => None end) (walk (wt_Children wt))).

Definition noInstances (wt : WorkloadTree) : list string :=
  omap (λ f, match f with NoInstances name => Some name | Found _ => None end) (walk (wt_Children wt)).

Definition unresolved (observed : observation) : bool :=
  bool_decide (texts (obs_Status observed) = []) || bool_decide (texts (obs_Status observed) = [UndefinedStatus]).

Definition component_warnings (c : component) : list message :=
  (if bool_decide (c_PodSpec c = Some false)
   then [("%s declares a specDefinition but extracted no pod spec: the spec path missed", [AStr (c_Key c)])] else []) ++
  (if bool_decide (c_PodSpec c = Some true) && bool_decide (texts (c_Containers c) = [])
   then [("%s extracted a pod spec with no containers", [AStr (c_Key c)])] else []).

Definition warnings (wt : WorkloadTree) : list message :=
  let observed := observe wt in
  (if unresolved observed then [("status is unresolved: no rule in statusDefinition matched this object", [])] else []) ++
  (obs_Components observed ≫= component_warnings) ++
  ((λ name, ("%s produced no instances: instanceIdPath matched nothing", [AStr name])) <$> noInstances wt).

(** ** The command *)

Context {S : Type} `{!ComponentAccessor S}.
Context (ReadFile : string → result string) (WriteFile : string → string → option error).
Context (Unmarshal_Karta : string → result Karta) (Unmarshal_object : string → result (option (gmap string value))).
Context (Unmarshal_observation : string → result observation) (Marshal : observation → result string).
Context (of_object : option (gmap string value) → S).
Context (Parse : string → result aval) (meta status : list rfield).

Record outcome := MkOutcome {
  out_code : Z;
  out_err : option error;
  out_warnings : list message;
  out_mismatches : list message;
}.

Definition failed (err : error) : outcome := MkOutcome 1 (Some err) [] [].

Definition wrapping {A} (fmt : string) (m : result A) : result A := map_error (λ err, Errorf fmt [] [err]) m.

(** What is extracted, or the error of a step before. *)
Definition extract (kartaPath workloadPath : string) : result (Karta * option WorkloadTree) :=
  kartaYAML ← wrapping "read Karta definition: %w" (ReadFile kartaPath);
  karta ← wrapping "parse Karta definition: %w" (Unmarshal_Karta kartaYAML);
  _ ← wrapping "invalid Karta definition: %w" (err_result (Validate Parse meta status (Some karta)));
  if bool_decide (workloadPath = "") then Ok (karta, None)
  else
    workloadYAML ← wrapping "read workload: %w" (ReadFile workloadPath);
    obj ← wrapping "parse workload: %w" (Unmarshal_object workloadYAML);
    wt ← map_error (λ err, Errorf "build workload tree against %s: %w" [AStr workloadPath] [err])
           (Runner.run (Build (NewComponentFactory karta) Parse meta status) (of_object obj));
    Ok (karta, Some wt).

Definition dump (dumpPath : string) (observed : observation) : result () :=
  if bool_decide (dumpPath = "") then Ok ()
  else
    out ← wrapping "marshal observation: %w" (Marshal observed);
    wrapping "write dump: %w" (err_result (WriteFile dumpPath out)).

(** The mismatches with the prediction, if there is one. *)
Definition predict (predictPath : string) (observed : observation) : result (list message) :=
  if bool_decide (predictPath = "") then Ok []
  else
    predictYAML ← wrapping "read predictions: %w" (ReadFile predictPath);
    predicted ← wrapping "parse predictions: %w" (Unmarshal_observation predictYAML);
    Ok (compare predicted observed).

Definition run (kartaPath workloadPath predictPath dumpPath : string) (strict : bool) : outcome :=
  match extract kartaPath workloadPath with
  | Fail err => failed err
  | Ok (_, None) => MkOutcome 0 None [] []
  | Ok (_, Some wt) =>
      let observed := observe wt in
      let warned := warnings wt in
      match dump dumpPath observed ≫= (λ _, predict predictPath observed) with
      | Fail err => MkOutcome 1 (Some err) warned []
      | Ok [] =>
          if strict && bool_decide (0 < length warned)%nat
          then MkOutcome 3 (Some (Errorf "%d warning(s) under --strict" [ANat (length warned)] [])) warned []
          else MkOutcome 0 None warned []
      | Ok mismatches => MkOutcome 2 None warned mismatches
      end
  end.

(** The flags that need a workload are refused without one. *)
Definition main (kartaPath workloadPath predictPath dumpPath : string) (strict : bool) : Z :=
  if bool_decide (kartaPath = "") then 1%Z
  else if bool_decide (workloadPath = "") && (bool_decide (predictPath ≠ "") || bool_decide (dumpPath ≠ "") || strict)
  then 1%Z
  else out_code (run kartaPath workloadPath predictPath dumpPath strict).
End tool.

(** ** Properties *)

Lemma by_key_lookup cs key : by_key cs !! key = List.find (λ c, bool_decide (c_Key c = key)) (reverse cs).
Proof.
  unfold by_key. induction cs as [|c cs IH] using rev_ind; [done|].
  rewrite foldl_snoc, reverse_snoc. cbn. case_bool_decide as E.
  - by rewrite E, lookup_insert_eq.
  - by rewrite lookup_insert_ne.
Qed.

(** With keys of their own every component is found under its key. *)
Lemma by_key_NoDup cs c : NoDup (c_Key <$> cs) → c ∈ cs → by_key cs !! c_Key c = Some c.
Proof.
  intros Hnd Hc. rewrite by_key_lookup.
  rewrite <- elem_of_reverse in Hc. rewrite <- (reverse_Permutation cs) in Hnd.
  induction (reverse cs) as [|d l IH]; [by apply elem_of_nil in Hc|].
  cbn in *. apply NoDup_cons in Hnd as [Hd Hnd]. apply elem_of_cons in Hc as [->|Hc]; [by rewrite bool_decide_eq_true_2|].
  rewrite bool_decide_eq_false_2; [by apply IH|]. intros E. apply Hd. rewrite E. by apply list_elem_of_fmap_2.
Qed.

(** What a predicted value says of the extracted one: none says nothing. *)
Definition agrees {A} (want got : option A) : Prop := ∀ v, want = Some v → got = Some v.

(** Of names the prediction counts the joined text of the sorted ones. *)
Definition agree_names (want got : option (list string)) : Prop :=
  ∀ names, want = Some names → strings_Join (sort_Strings names) "," = strings_Join (sort_Strings (texts got)) ",".

Record component_agrees (want got : component) : Prop := MkAgrees {
  ag_Replicas : agrees (c_Replicas want) (c_Replicas got);
  ag_MinReplicas : agrees (c_MinReplicas want) (c_MinReplicas got);
  ag_MaxReplicas : agrees (c_MaxReplicas want) (c_MaxReplicas got);
  ag_PodSpec : agrees (c_PodSpec want) (c_PodSpec got);
  ag_Containers : agree_names (c_Containers want) (c_Containers got);
}.

Lemma check_agrees {A} `{EqDecision A} (want got : option A) (m : message) :
  (if bool_decide (is_Some want) && negb (bool_decide (got = want)) then [m] else []) = [] ↔ agrees want got.
Proof.
  unfold agrees. destruct want as [v|]; [|split; [by intros _ ?|done]].
  rewrite bool_decide_eq_true_2 by done. cbn. case_bool_decide as E; cbn.
  - split; [intros _ w [= <-]; exact E|done].
  - split; [done|]. intros H. by destruct E; apply H.
Qed.

Lemma check_names (want got : option (list string)) (m : message) :
  (if bool_decide (is_Some want) && differ (texts want) (texts got) then [m] else []) = [] ↔ agree_names want got.
Proof.
  unfold agree_names, differ. destruct want as [l|]; [|split; [by intros _ ?|done]].
  rewrite bool_decide_eq_true_2 by done. cbn. case_bool_decide as E; cbn.
  - split; [intros _ w [= <-]; exact E|done].
  - split; [done|]. intros H. by destruct E; apply H.
Qed.

Lemma compare_component_nil byKey want :
  compare_component byKey want = [] ↔ ∃ got, byKey !! c_Key want = Some got ∧ component_agrees want got.
Proof.
  unfold compare_component, check_int. destruct (byKey !! c_Key want) as [got|]; [|split; [done|by intros (? & ? & _)]].
  rewrite !app_nil, !check_agrees, check_names. split.
  - intros (? & ? & ? & ? & ?). by exists got.
  - intros (? & [= <-] & [? ? ? ? ?]). done.
Qed.

(** There is no mismatch exactly when every value the prediction declares is
    the one extracted; what it leaves out is not compared. *)
Theorem compare_nil predicted observed :
  compare predicted observed = [] ↔
  agree_names (obs_Status predicted) (obs_Status observed) ∧
  ∀ want, want ∈ obs_Components predicted →
    ∃ got, by_key (obs_Components observed) !! c_Key want = Some got ∧ component_agrees want got.
Proof.
  unfold compare. rewrite app_nil, check_names. f_equiv.
  induction (obs_Components predicted) as [|want l IH].
  { split; [by intros _ ? ?%elem_of_nil|done]. }
  rewrite bind_cons, app_nil, compare_component_nil, IH. setoid_rewrite elem_of_cons. naive_solver.
Qed.

(** What was dumped predicts the same extraction, if no two components share a
    key. *)
Theorem compare_dump observed :
  NoDup (c_Key <$> obs_Components observed) → compare observed observed = [].
Proof.
  intros Hnd. apply compare_nil. split; [by intros names ->|].
  intros want Hw. exists want. split; [by apply by_key_NoDup|].
  split; try (by intros ? ?). by intros names ->.
Qed.

(** Two instances of one key are told apart by neither: the second answers. *)
Example compare_dump_clash :
  let c n := MkComponent "worker" (Some n) None None None None in
  compare (MkObservation None [c 1%Z; c 2%Z]) (MkObservation None [c 1%Z; c 2%Z]) ≠ [].
Proof. vm_compute. done. Qed.

(** A prediction that declares nothing matches everything. *)
Lemma countPredicted_zero predicted observed :
  countPredicted predicted = 0 → (∀ want, want ∈ obs_Components predicted →
    is_Some (by_key (obs_Components observed) !! c_Key want)) → compare predicted observed = [].
Proof.
  unfold countPredicted. intros Hc Hkeys. apply compare_nil. split.
  { intros names E. rewrite E in Hc. cbn in Hc. done. }
  intros want Hw. destruct (Hkeys want Hw) as [got Hg]. exists got. split; [done|].
  apply list_elem_of_lookup in Hw as [i Hi].
  assert (Hz : ∀ l : list component, sum_list ((λ c, count (bool_decide (is_Some (c_Replicas c))) +
    count (bool_decide (is_Some (c_MinReplicas c))) + count (bool_decide (is_Some (c_MaxReplicas c))) +
    count (bool_decide (is_Some (c_PodSpec c))) + count (bool_decide (is_Some (c_Containers c))))%nat <$> l) = 0 →
    want ∈ l → component_agrees want got).
  { induction l as [|c l IH]; [by intros _ ?%elem_of_nil|]. cbn. intros Hs [<-|Hin]%elem_of_cons; [|apply IH; [lia|done]].
    destruct (c_Replicas want) eqn:?, (c_MinReplicas want) eqn:?, (c_MaxReplicas want) eqn:?,
      (c_PodSpec want) eqn:?, (c_Containers want) eqn:?; cbn in Hs; try lia.
    split; intros ?; congruence. }
  apply (Hz (obs_Components predicted)); [lia|]. by eapply list_elem_of_lookup_2.
Qed.

Section properties.
Context `{K8s} {S : Type} `{!ComponentAccessor S}.
Context (template_containers : PodTemplateSpec → list string) (spec_containers : PodSpec → list string)
        (Container_Name : Container → string).
Abbreviation observe := (observe template_containers spec_containers Container_Name).
Abbreviation warnings := (warnings template_containers spec_containers Container_Name).

(** Every node without instances is named in a warning. *)
Lemma noInstances_warned wt name :
  name ∈ noInstances template_containers spec_containers Container_Name wt →
  ("%s produced no instances: instanceIdPath matched nothing", [AStr name]) ∈ warnings wt.
Proof.
  intros Hn. unfold Verify.warnings. apply elem_of_app. right. apply elem_of_app. right.
  apply list_elem_of_fmap. by exists name.
Qed.

Context (ReadFile : string → result string) (WriteFile : string → string → option error).
Context (Unmarshal_Karta : string → result Karta) (Unmarshal_object : string → result (option (gmap string value))).
Context (Unmarshal_observation : string → result observation) (Marshal : observation → result string).
Context (of_object : option (gmap string value) → S).
Context (Parse : string → result aval) (meta status : list rfield).
Abbreviation extract := (extract ReadFile Unmarshal_Karta Unmarshal_object of_object Parse meta status).
Abbreviation dump := (dump WriteFile Marshal).
Abbreviation predict := (predict ReadFile Unmarshal_observation).
Abbreviation run := (run template_containers spec_containers Container_Name ReadFile WriteFile Unmarshal_Karta
  Unmarshal_object Unmarshal_observation Marshal of_object Parse meta status).

Section codes.
Context (k w p d : string) (strict : bool).

(** What each exit code says of the files that were given. *)
Inductive exit_code : Z → Prop :=
  | exit_valid karta : extract k w = Ok (karta, None) → exit_code 0
  | exit_matched karta t : extract k w = Ok (karta, Some t) → dump d (observe t) = Ok () →
      predict p (observe t) = Ok [] → (strict = true → warnings t = []) → exit_code 0
  | exit_mismatch karta t m ms : extract k w = Ok (karta, Some t) → dump d (observe t) = Ok () →
      predict p (observe t) = Ok (m :: ms) → exit_code 2
  | exit_warned karta t : extract k w = Ok (karta, Some t) → dump d (observe t) = Ok () →
      predict p (observe t) = Ok [] → strict = true → warnings t ≠ [] → exit_code 3
  | exit_unread err : extract k w = Fail err → exit_code 1
  | exit_undumped karta t err : extract k w = Ok (karta, Some t) → dump d (observe t) = Fail err → exit_code 1
  | exit_unpredicted karta t err : extract k w = Ok (karta, Some t) → dump d (observe t) = Ok () →
      predict p (observe t) = Fail err → exit_code 1.

(** Zero means that the definition is valid and, of a workload, that the tree
    was built, all predicted values were extracted and, if asked for, nothing
    was warned of; two means a mismatch, three that only warnings stand in the
    way; anything that could not be read, built or written is one. *)
Theorem run_codes code : out_code (run k w p d strict) = code ↔ exit_code code.
Proof.
  split.
  - intros <-. unfold Verify.run. destruct (extract k w) as [[karta [t|]]|err] eqn:E; [|eapply exit_valid; eassumption|eapply exit_unread; eassumption].
    destruct (dump d (observe t)) as [[]|] eqn:Ed; [|eapply exit_undumped; eassumption].
    change (Ok () ≫= ?f) with (f ()); cbv beta.
    destruct (predict p (observe t)) as [[|m ms]|] eqn:Ep; [|eapply exit_mismatch; eassumption|eapply exit_unpredicted; eassumption].
    destruct (strict && _) eqn:Es.
    + apply andb_true_iff in Es as [Es Hw%bool_decide_eq_true].
      eapply exit_warned; [eassumption..|]. intros Ew. rewrite Ew in Hw. cbn in Hw. lia.
    + eapply exit_matched; [eassumption..|]. intros ->. cbn in Es. apply bool_decide_eq_false in Es.
      destruct (warnings t); [done|]. destruct Es. cbn. lia.
  - unfold Verify.run. destruct 1 as [? ->|? ? -> -> E Hw|? ? ? ? -> -> E|? ? -> -> E -> Hw|? ->|? ? ? -> ->|? ? ? -> -> E];
      [done|..]; try done; change (Ok () ≫= ?f) with (f ()); cbv beta; rewrite E; [|done| |done].
    + destruct strict; [|done]. by rewrite Hw.
    + destruct (warnings _); [done|]. done.
Qed.
End codes.
End properties.
