(* ===== verification/Samples.v ===== *)
(** * Samples: the catalog, written as files

    Models [karta/sdk/hack/gen-samples/main.go]: the directory [docs/catalog] is
    emptied of YAML files and written anew from the definitions of the catalog.
    The directory is a map from names to texts; what the file system refuses and
    the encoders are parameters.  A write that fails is taken to leave the
    directory as it was. *)

From S2P Require Import Prelude Api Sort Text Catalog.

Section samples.
Context (json_Marshal : Karta → result string) (yaml_Unmarshal : string → result Node)
  (yaml_Encode : Node → result string).
Context (MkdirAll Remove WriteFile : string → option error).

Definition outputDir : string := "../../docs/catalog".
Definition in_dir (name : string) : string := outputDir +:+ "/" +:+ name.

(** The pattern [*.yaml] of [filepath.Glob], on the names of one directory *)
Definition yaml_name (name : string) : bool := HasSuffix name ".yaml".
Definition Glob (dir : gmap string string) : list string := sort_Strings (filter (λ name, yaml_name name) (map_to_list dir).*1).

Fixpoint clear (existing : list string) (dir : gmap string string) : option error * gmap string string :=
  match existing with
  | [] => (None, dir)
  | name :: existing =>
      match Remove (in_dir name) with
      | Some err => (Some (Errorf "remove %s: %w" [AStr (in_dir name)] [err]), dir)
      | None => clear existing (delete name dir)
      end
  end.

Fixpoint write (definitions : list Karta) (dir : gmap string string) : option error * gmap string string :=
  match definitions with
  | [] => (None, dir)
  | k :: definitions =>
      match Slug k with
      | Fail err => (Some (Errorf "slug for %q: %w" [AStr (k_Name k)] [err]), dir)
      | Ok slug =>
          match MarshalYAML json_Marshal yaml_Unmarshal yaml_Encode k with
          | Fail err => (Some err, dir)
          | Ok data =>
              let name := slug +:+ ".yaml" in
              match WriteFile (in_dir name) with
              | Some err => (Some (Errorf "write %s: %w" [AStr (in_dir name)] [err]), dir)
              | None => write definitions (<[name := data]> dir)
              end
          end
      end
  end.

Definition run (definitions : list Karta) (dir : gmap string string) : option error * gmap string string :=
  match MkdirAll outputDir with
  | Some err => (Some (Errorf "create %s: %w" [AStr outputDir] [err]), dir)
  | None =>
      match clear (Glob dir) dir with
      | (Some err, dir) => (Some err, dir)
      | (None, dir) => write definitions dir
      end
  end.

Definition main (definitions : list Karta) (dir : gmap string string) : Z :=
  match (run definitions dir).1 with Some _ => 1 | None => 0 end.

(** ** Properties *)

(** The file of a definition. *)
Definition file_of (k : Karta) : option (string * string) :=
  match Slug k, MarshalYAML json_Marshal yaml_Unmarshal yaml_Encode k with
  | Ok slug, Ok data => Some (slug +:+ ".yaml", data)
  | _, _ => None
  end.

Lemma clear_Ok existing dir dir' :
  clear existing dir = (None, dir') → dir' = filter (λ p, p.1 ∉ existing) dir.
Proof.
  revert dir. induction existing as [|name existing IH]; cbn; intros dir.
  { intros [= <-]. symmetry. apply map_filter_id. by intros i x _ ?%elem_of_nil. }
  destruct (Remove _); [done|]. intros ->%IH. apply map_eq. intros i. apply option_eq. intros x.
  rewrite !map_lookup_filter_Some, lookup_delete_Some. cbn. rewrite elem_of_cons. naive_solver.
Qed.

Lemma write_Ok definitions dir dir' :
  write definitions dir = (None, dir') →
  ∃ files, Forall2 (λ k file, file_of k = Some file) definitions files ∧
    dir' = list_to_map (reverse files) ∪ dir.
Proof.
  revert dir. induction definitions as [|k ks IH]; cbn; intros dir.
  { intros [= <-]. exists []. split; [done|]. symmetry. apply (left_id_L ∅ (∪)). }
  destruct (Slug k) as [slug|] eqn:Es; [|done]. destruct (MarshalYAML _ _ _ k) as [data|] eqn:Em; [|done].
  destruct (WriteFile _); [done|]. intros (files & Hf & ->)%IH. exists ((slug +:+ ".yaml", data) :: files). split.
  - constructor; [|done]. unfold file_of. by rewrite Es, Em.
  - rewrite reverse_cons, list_to_map_app, <- (assoc_L (∪)). f_equal. cbn.
    by rewrite insert_empty, insert_union_singleton_l.
Qed.

(** Slugs end the name they are given the way the pattern does. *)
Lemma file_of_yaml k name data : file_of k = Some (name, data) → yaml_name name = true.
Proof.
  unfold file_of. destruct (Slug k) as [slug|]; [|done]. destruct (MarshalYAML _ _ _ k); [|done].
  intros [= <- _]. apply HasSuffix_app.
Qed.

(** Regenerated without error, the YAML files of the directory are those of the
    definitions and no others, none that was there before lingers, and every
    other file is as it was. *)
Theorem run_regenerates definitions dir dir' :
  run definitions dir = (None, dir') →
  (∀ name, yaml_name name = false → dir' !! name = dir !! name) ∧
  (∀ name, yaml_name name = true → is_Some (dir' !! name) ↔
     ∃ k data, k ∈ definitions ∧ file_of k = Some (name, data)) ∧
  (∀ k, k ∈ definitions → is_Some (file_of k)) ∧
  (NoDup (Slug <$> definitions) → ∀ k name data, k ∈ definitions →
     file_of k = Some (name, data) → dir' !! name = Some data).
Proof.
  unfold run. destruct (MkdirAll _); [done|]. destruct (clear (Glob dir) dir) as [[err|] dir1] eqn:Ec; [done|].
  apply clear_Ok in Ec as ->. intros (files & Hf & ->)%write_Ok.
  assert (Hcleared : ∀ name, yaml_name name = true → filter (λ p, p.1 ∉ Glob dir) dir !! name = None).
  { intros name Hn. apply map_lookup_filter_None. right. intros x Hx Hin. apply Hin. cbn. unfold Glob.
    rewrite sort_Strings_Permutation, list_elem_of_filter. split; [by rewrite Hn|].
    apply list_elem_of_fmap. exists (name, x). split; [done|]. by apply elem_of_map_to_list. }
  assert (Hin : ∀ name data, (name, data) ∈ files ↔ ∃ k, k ∈ definitions ∧ file_of k = Some (name, data)).
  { clear -Hf. induction Hf as [|k f ks fs Hk _ IH]; [by setoid_rewrite elem_of_nil; naive_solver|].
    setoid_rewrite elem_of_cons. setoid_rewrite IH. naive_solver. }
  split_and!.
  - intros name Hn. assert (Hnew : (list_to_map (reverse files) : gmap string string) !! name = None).
    { apply not_elem_of_list_to_map_1. intros ([n data] & -> & Hd)%list_elem_of_fmap.
      apply elem_of_reverse, Hin in Hd as (k & _ & Hk). apply file_of_yaml in Hk. cbn in Hn. congruence. }
    rewrite lookup_union_r by done. destruct (dir !! name) as [x|] eqn:Ex.
    + apply map_lookup_filter_Some. split; [done|]. cbn. unfold Glob.
      rewrite sort_Strings_Permutation, list_elem_of_filter, Hn. by intros [[] _].
    + apply map_lookup_filter_None. by left.
  - intros name Hn. rewrite lookup_union, (Hcleared name Hn), (right_id_L None (∪)). split.
    + intros [data Hd]. apply elem_of_list_to_map_2, elem_of_reverse, Hin in Hd as (k & ? & ?). by exists k, data.
    + intros (k & data & Hk & Hfk). destruct (list_to_map (reverse files) !! name) eqn:E; [done|].
      apply not_elem_of_list_to_map in E. destruct E. apply list_elem_of_fmap. exists (name, data).
      split; [done|]. apply elem_of_reverse, Hin. by exists k.
  - intros k Hk. apply list_elem_of_lookup in Hk as [i Hi]. by eapply Forall2_lookup_l in Hf as (f & _ & ->).
  - intros Hnd k name data Hk Hfk. rewrite lookup_union_l'; [|].
    all: cycle 1.
    + apply not_eq_None_Some. intros E. apply not_elem_of_list_to_map in E. destruct E. apply list_elem_of_fmap.
      exists (name, data). split; [done|]. apply elem_of_reverse, Hin. by exists k.
    + apply elem_of_list_to_map_1; [|apply elem_of_reverse, Hin; by exists k].
      rewrite fmap_reverse, reverse_Permutation. clear -Hf Hnd.
      induction Hf as [|k' [n d] ks fs Hk' Hf IH]; [constructor|]. cbn in *. apply NoDup_cons in Hnd as [Hn Hnd].
      constructor; [|by apply IH]. intros ([n' d'] & E & Hfs)%list_elem_of_fmap. cbn in E. subst n'.
      apply list_elem_of_lookup in Hfs as [i Hi]. eapply Forall2_lookup_r in Hf as (k'' & Hk'' & Hfile); [|done].
      apply Hn. unfold file_of in Hk', Hfile. destruct (Slug k') as [s1|] eqn:E1; [|done].
      destruct (Slug k'') as [s2|] eqn:E2; [|by destruct (MarshalYAML _ _ _ k')].
      destruct (MarshalYAML _ _ _ k'); [|done]. destruct (MarshalYAML _ _ _ k''); [|done].
      injection Hk' as <- _. injection Hfile as Ename _. apply app_suffix_inj in Ename as ->.
      apply list_elem_of_fmap. exists k''. split; [done|]. by eapply list_elem_of_lookup_2.
Qed.
End samples.

(** Two runs over different directories: the stale definition goes, the notes
    stay; a definition without a version stops the rewriting half way. *)
Example run_samples :
  let run := run (λ k, Ok (k_Name k)) (λ s, Ok (MkNode 1 "" "" [MkNode 0 s "" []])) (λ n, Ok (match Content n with m :: _ => Value m | [] => "" end))
    (λ _, None) (λ _, None) (λ _, None) in
  let dir : gmap string string := {["old.yaml" := "old"; "README.md" := "notes"]} in
  run [sample_karta] dir =
    (None, {["README.md" := "notes";
             match Slug sample_karta with Ok s => s +:+ ".yaml" | Fail _ => "" end := yamlHeader +:+ k_Name sample_karta]}).
Proof. vm_compute. done. Qed.
