(* ===== verification/Inventory.v ===== *)
(** * Inventory: the Karta definitions the exporter selects from

    Models [dsx-workload-exporter/pkg/kartadefinitioninventory/inventory.go].
    The inventory is a state machine: the reflector of client-go calls it from
    several goroutines, every call runs under its lock and is one step, and any
    sequence of steps is considered.  The built-in catalog, the decoding of
    objects, the comparison of Kubernetes versions, the predicates on API errors
    and the JQ parser are parameters.  Channels are kept as what they show: a
    closed channel is [true], and [inv_changes] says that the one-place channel
    of changes is full.  Times are nanoseconds.  Logging is left out; the two
    lists that only serve to log once are kept.  [Run] and [WaitLoaded] as
    goroutines around the inventory are in [InventoryRun]. *)

From S2P Require Import Prelude Api JqValidate Validator Sort Catalog Discovery.

Definition Source := string.
Definition SourceCatalog : Source := "catalog".
Definition SourceCluster : Source := "cluster".

Record Origin := MkOrigin {
  o_Source : Source;
  o_Name : string;
  o_UID : string;
  o_ResourceVersion : string;
}.

Record Selection := MkSelection {
  sel_Definition : option Karta;
  sel_GVK : GroupVersionKind;
  sel_Origin : Origin;
}.

Record SelectionResult := MkSelectionResult { sr_Selection : Selection; sr_Err : option error }.

Record SourceConfig := MkSourceConfig { src_Enabled : bool; src_Include : list string; src_Exclude : list string }.

Record Config := MkConfig { cfg_Catalog : SourceConfig; cfg_Cluster : SourceConfig; cfg_RequestTimeout : Z }.

Definition ErrInvalidConfig : string := "invalid definition source config".
Definition ErrNoClient : string := "the cluster definition source requires a client".
Definition ErrNotReady : string := "definition sources not ready".
Definition ErrUnavailable : string := "definition source unavailable".
Definition ErrPermissionDenied : string := "definition source permission denied".
Definition ErrInvalidDefinition : string := "invalid Karta definition".
Definition errStopped : string := "inventory stopped".
Definition errRelist : string := "watch not resumed after a failure; relisting to confirm fresh data".
Definition errShortWatch : string := "watch closed within a second without events; relisting".

Record definitionEntry := MkEntry { de_definition : option Karta; de_err : option error }.
Definition zero_entry : definitionEntry := MkEntry None None.

Record sourceFilter := MkFilter { f_enabled : bool; f_include : gset string; f_exclude : gset string }.

Record Inventory := MkInventory {
  inv_catalog : gmap GroupKind definitionEntry;
  inv_clusterFilter : sourceFilter;
  inv_loaded : bool;
  inv_done : bool;
  inv_changes : bool;
  inv_started : bool;
  inv_cluster : gmap string definitionEntry;
  inv_synced : bool;
  inv_stopped : bool;
  inv_failure : option error;
  inv_failures : Z;
  inv_listedFrom : Z;
  inv_applied : option Z;
  inv_unkeyable : list string;
  inv_unmatchedIncludes : list string;
}.

(** A [uint64]. *)
Definition wrap64 (z : Z) : Z := (z mod 2 ^ 64)%Z.

(** ** Configuration *)

Definition matches (f : sourceFilter) (name : string) : bool :=
  f_enabled f && (bool_decide (f_include f = ∅) || bool_decide (name ∈ f_include f)) &&
  negb (bool_decide (name ∈ f_exclude f)).

Fixpoint compileNames (source field : string) (known : option (gset string)) (names : list string)
    (set : gset string) : gset string * list error :=
  match names with
  | [] => (set, [])
  | name :: names =>
      let problem (text : string) (args : list arg) :=
        [Errorf ("%w: %s.%s: " +:+ text) ([AStr source; AStr field] ++ args) [Sentinel ErrInvalidConfig]] in
      let errs :=
        if bool_decide (name = "") then problem "empty definition name" []
        else if bool_decide (name ∈ set) then problem "duplicate definition name %q" [AStr name]
        else match known with
             | Some known =>
                 if bool_decide (name ∈ known) then []
                 else problem "unknown definition %q; known: %s"
                        [AStr name; AStrs (sort_Strings (elements known))]
             | None => []
             end in
      let '(set, errs') := compileNames source field known names ({[name]} ∪ set) in
      (set, errs ++ errs')
  end.

Definition compileSource (source : Source) (config : SourceConfig) (known : option (gset string))
  : sourceFilter * list error :=
  let '(include, errs) := compileNames source "include" known (src_Include config) ∅ in
  let '(exclude, errs') := compileNames source "exclude" known (src_Exclude config) ∅ in
  (MkFilter (src_Enabled config) include exclude, errs ++ errs').

Class VersionOrder := { CompareKubeAwareVersionStrings : string → string → Z }.

(** What an object of the reflector may be. *)
Inductive object (Unstructured : Type) :=
  | Object_ (u : Unstructured)
  | NotUnstructured (type : string).
Arguments Object_ {_} u.
Arguments NotUnstructured {_} type.

(** The objects the API server sends, and their decoding. *)
Class Unstructureds := {
  Unstructured : Type;
  GetName : Unstructured → string;
  FromUnstructured : Unstructured → result Karta;
}.

Section inventory.
Context (Parse : string → result aval) (meta status : list rfield).
Context `{!KubernetesErrors, !VersionOrder, !Unstructureds}.

(** ** Entries *)

Definition zero_status_definition : StatusDefinition := {|
  std_PhaseDefinition := None; std_ConditionsDefinition := None;
  std_StatusMappings := {|
    smp_Initializing := []; smp_Running := []; smp_Completed := []; smp_Failed := []; smp_Degraded := [];
    smp_Suspended := []; smp_Suspending := []; smp_Resuming := [] |} |}.

Definition with_root_status (c : ComponentDefinition) : ComponentDefinition :=
  match cd_StatusDefinition c with
  | Some _ => c
  | None => {|
      cd_Name := cd_Name c; cd_Kind := cd_Kind c; cd_OwnerRef := cd_OwnerRef c;
      cd_SpecDefinition := cd_SpecDefinition c; cd_ScaleDefinition := cd_ScaleDefinition c;
      cd_StatusDefinition := Some zero_status_definition;
      cd_SuspendDefinition := cd_SuspendDefinition c; cd_InstanceIdPath := cd_InstanceIdPath c;
      cd_PodSelector := cd_PodSelector c |}
  end.

Definition validation_copy (k : Karta) : Karta := {|
  k_ObjectMeta := k_ObjectMeta k;
  k_Spec := {|
    ks_StructureDefinition := {|
      st_RootComponent := with_root_status (RootComponent k);
      st_ChildComponents := ChildComponents k;
      st_AdditionalChildKinds := st_AdditionalChildKinds (ks_StructureDefinition (k_Spec k)) |};
    ks_Instructions := ks_Instructions (k_Spec k) |} |}.

Definition validatedEntry (k : Karta) : definitionEntry :=
  MkEntry (Some k)
    (match Validate Parse meta status (Some (validation_copy k)) with
     | None => None
     | Some err => Some (Errorf "%w %q: %w" [AStr (k_Name k)] [Sentinel ErrInvalidDefinition; err])
     end).

Definition decodeKarta (u : Unstructured) : definitionEntry :=
  match FromUnstructured u with
  | Fail err =>
      MkEntry None (Some (Errorf "%w: decode Karta %q: %w" [AStr (GetName u)] [Sentinel ErrUnavailable; err]))
  | Ok k => validatedEntry k
  end.

(** ** Construction *)

Definition GroupKind_key (k : Karta) : GroupKind := GroupKind_of (RootKey k).

(** Greatest version first, then the smallest name. *)
Definition newer (k other : Karta) : bool :=
  let c := CompareKubeAwareVersionStrings (gvk_Version (RootKey other)) (gvk_Version (RootKey k)) in
  if (c =? 0)%Z then string_lt (k_Name k) (k_Name other) else (c <? 0)%Z.

Definition add_catalog (filter : sourceFilter) (catalog : gmap GroupKind definitionEntry) (k : Karta)
  : gmap GroupKind definitionEntry :=
  if negb (matches filter (k_Name k)) then catalog
  else
    match de_definition (default zero_entry (catalog !! GroupKind_key k)) with
    | None => <[GroupKind_key k := MkEntry (Some k) None]> catalog
    | Some other =>
        if newer k other then <[GroupKind_key k := MkEntry (Some k) None]> catalog else catalog
    end.

Definition revalidate (entry : definitionEntry) : definitionEntry :=
  match de_definition entry with
  | Some k => validatedEntry k
  | None => zero_entry
  end.

Definition New (catalogDefinitions : list Karta) (client : bool) (config : Config) : result Inventory :=
  if (cfg_RequestTimeout config <? 0)%Z then
    Fail (Errorf "%w: request timeout must not be negative" [] [Sentinel ErrInvalidConfig])
  else
    let known : gset string := list_to_set (k_Name <$> catalogDefinitions) in
    let '(catalogFilter, catalogErrs) := compileSource SourceCatalog (cfg_Catalog config) (Some known) in
    let '(clusterFilter, clusterErrs) := compileSource SourceCluster (cfg_Cluster config) None in
    match errors_Join (catalogErrs ++ clusterErrs) with
    | Some err => Fail err
    | None =>
        if f_enabled clusterFilter && negb client then Fail (Sentinel ErrNoClient)
        else
          let catalog := revalidate <$> foldl (add_catalog catalogFilter) ∅ catalogDefinitions in
          let idle := negb (f_enabled clusterFilter) in
          Ok (MkInventory catalog clusterFilter idle false true false ∅ idle false None 0 0 None [] [])
    end.

(** ** Source health *)

(** The first entry of the cluster that was not decoded. *)
Definition undecoded (i : Inventory) : option definitionEntry :=
  snd <$> (list_find (λ e, de_definition e = None) (map_to_list (inv_cluster i)).*2).

Definition ready (i : Inventory) : option error :=
  if negb (f_enabled (inv_clusterFilter i)) then None
  else if inv_stopped i then Some (Errorf "%w: %w" [] [Sentinel ErrUnavailable; Sentinel errStopped])
  else
    match inv_failure i with
    | Some failure =>
        if IsForbidden failure || IsUnauthorized failure
        then Some (Errorf "%w: %w" [] [Sentinel ErrPermissionDenied; failure])
        else Some (Errorf "%w: %w" [] [Sentinel ErrUnavailable; failure])
    | None =>
        if negb (inv_synced i) then Some (Sentinel ErrNotReady)
        else match undecoded i with
             | Some entry => de_err entry
             | None => None
             end
    end.

(** ** Election *)

Definition nil_pointer : error := External "panic: nil Karta".

(** [k] is older than [winner], or as old with a smaller name. *)
Definition older (k winner : Karta) : bool :=
  match (om_CreationTimestamp (k_ObjectMeta k) ?= om_CreationTimestamp (k_ObjectMeta winner))%Z with
  | Lt => true
  | Gt => false
  | Eq => string_lt (k_Name k) (k_Name winner)
  end.

Definition serves (gk : GroupKind) (k : Karta) : bool :=
  negb (bool_decide (GroupKind_key k ≠ gk) || bool_decide (gvk_Version (RootKey k) = "") ||
        bool_decide (gvk_Kind (RootKey k) = "")).

Fixpoint elect_cluster (gk : GroupKind) (entries : list definitionEntry) (winner : definitionEntry)
  : result definitionEntry :=
  match entries with
  | [] => Ok winner
  | entry :: entries =>
      match de_definition entry with
      | None => Fail nil_pointer
      | Some k =>
          if negb (serves gk k) then elect_cluster gk entries winner
          else
            match de_definition winner with
            | None => elect_cluster gk entries entry
            | Some w => elect_cluster gk entries (if older k w then entry else winner)
            end
      end
  end.

Definition electLocked (i : Inventory) (gvk : GroupVersionKind) : result (definitionEntry * Source) :=
  winner ← elect_cluster (GroupKind_of gvk) (map_to_list (inv_cluster i)).*2 zero_entry;
  Ok (match de_definition winner with
      | None => (default zero_entry (inv_catalog i !! GroupKind_of gvk), SourceCatalog)
      | Some _ => (winner, SourceCluster)
      end).

Definition elect (i : Inventory) (gvk : GroupVersionKind) : result (definitionEntry * Source) :=
  match ready i with
  | Some err => Fail err
  | None => electLocked i gvk
  end.

Definition zero_selection : Selection := MkSelection None (GVK "" "" "") (MkOrigin "" "" "" "").

Definition selection (k : option Karta) (source : Source) : Selection :=
  match k with
  | None => zero_selection
  | Some k =>
      let '(uid, version) :=
        if bool_decide (source = SourceCluster)
        then (om_UID (k_ObjectMeta k), om_ResourceVersion (k_ObjectMeta k)) else ("", "") in
      MkSelection (Some k) (RootKey k) (MkOrigin source (k_Name k) uid version)
  end.

Definition Lookup (i : Inventory) (gvk : GroupVersionKind) : result Selection :=
  '(winner, source) ← elect i gvk;
  match de_err winner with
  | Some err => Fail err
  | None => Ok (selection (de_definition winner) source)
  end.

Definition selected_kinds (i : Inventory) : result (gset GroupKind) :=
  foldl (λ kinds entry,
    kinds ← kinds;
    match de_definition entry with
    | None => Fail nil_pointer
    | Some k =>
        if bool_decide (gvk_Version (RootKey k) ≠ "") && bool_decide (gvk_Kind (RootKey k) ≠ "")
        then Ok ({[GroupKind_key k]} ∪ kinds) else Ok kinds
    end) (Ok (dom (inv_catalog i))) (map_to_list (inv_cluster i)).*2.

Definition WithVersion (gk : GroupKind) (version : string) : GroupVersionKind :=
  GVK (gk_Group gk) version (gk_Kind gk).

Definition listSelectedDefinitions (i : Inventory) : result (list SelectionResult) :=
  match ready i with
  | Some err => Fail err
  | None =>
      kinds ← selected_kinds i;
      mapR (λ gk, '(winner, source) ← electLocked i (WithVersion gk "");
                  Ok (MkSelectionResult
                        (MkSelection (de_definition winner) (GVK "" "" "") (MkOrigin source "" "" ""))
                        (de_err winner))) (elements kinds)
  end.

Definition result_less (gvk_String : GroupVersionKind → string) (a b : SelectionResult) : bool :=
  string_lt (gvk_String (sel_GVK (sr_Selection a))) (gvk_String (sel_GVK (sr_Selection b))).

Definition List `{GoSort} (gvk_String : GroupVersionKind → string) (i : Inventory)
  : result (list SelectionResult) :=
  results ← listSelectedDefinitions i;
  let results := (λ r, MkSelectionResult
    (selection (sel_Definition (sr_Selection r)) (o_Source (sel_Origin (sr_Selection r)))) (sr_Err r)) <$> results in
  Ok (sort_Slice (result_less gvk_String) results).
End inventory.

(** ** Steps *)

(** A step with the fields it may change. *)
Definition set_health (failure : option error) (failures listedFrom : Z) (i : Inventory) : Inventory :=
  MkInventory (inv_catalog i) (inv_clusterFilter i) (inv_loaded i) (inv_done i) (inv_changes i)
    (inv_started i) (inv_cluster i) (inv_synced i) (inv_stopped i) failure failures listedFrom
    (inv_applied i) (inv_unkeyable i) (inv_unmatchedIncludes i).

Definition set_cluster (cluster : gmap string definitionEntry) (i : Inventory) : Inventory :=
  MkInventory (inv_catalog i) (inv_clusterFilter i) (inv_loaded i) (inv_done i) (inv_changes i)
    (inv_started i) cluster (inv_synced i) (inv_stopped i) (inv_failure i) (inv_failures i)
    (inv_listedFrom i) (inv_applied i) (inv_unkeyable i) (inv_unmatchedIncludes i).

Definition set_changes (full : bool) (i : Inventory) : Inventory :=
  MkInventory (inv_catalog i) (inv_clusterFilter i) (inv_loaded i) (inv_done i) full
    (inv_started i) (inv_cluster i) (inv_synced i) (inv_stopped i) (inv_failure i) (inv_failures i)
    (inv_listedFrom i) (inv_applied i) (inv_unkeyable i) (inv_unmatchedIncludes i).

Definition set_synced (applied : option Z) (i : Inventory) : Inventory :=
  MkInventory (inv_catalog i) (inv_clusterFilter i) true (inv_done i) (inv_changes i)
    (inv_started i) (inv_cluster i) true (inv_stopped i) (inv_failure i) (inv_failures i)
    (inv_listedFrom i) applied (inv_unkeyable i) (inv_unmatchedIncludes i).

Definition notify : Inventory → Inventory := set_changes true.

(** The receiver takes the signal. *)
Definition receive_change : Inventory → Inventory := set_changes false.

Definition beginList (i : Inventory) : Inventory :=
  set_health (inv_failure i) (inv_failures i) (inv_failures i) i.

Definition beginWatch (streaming : bool) (i : Inventory) : bool * Inventory :=
  (bool_decide (is_Some (inv_failure i)), if streaming then beginList i else i).

Definition fail_ (err : error) (i : Inventory) : Inventory :=
  notify (set_health (Some err) (wrap64 (inv_failures i + 1)) (inv_listedFrom i) i).

Definition recordFailure : error → Inventory → Inventory := fail_.

Definition failWatch (stopping cancelled : bool) (err : error) (i : Inventory) : Inventory :=
  if negb stopping && negb cancelled then fail_ err i else i.

(** The beginning and the end of [list]; between them the API server answers. *)
Definition list_begin (Continue : string) (i : Inventory) : Inventory :=
  if bool_decide (Continue = "") then beginList i else i.

Definition list_end {A} (answer : result A) (i : Inventory) : result A * Inventory :=
  match answer with
  | Ok list => (Ok list, i)
  | Fail err => (Fail err, recordFailure err i)
  end.

(** The same for [startWatch]. *)
Definition startWatch_begin (streaming : bool) (i : Inventory) : result () * Inventory :=
  let '(failed, i) := beginWatch streaming i in
  if (failed : bool) && negb streaming then (Fail (Sentinel errRelist), i) else (Ok (), i).

Definition startWatch_end {A} (IsInvalid : error → bool) (streaming : bool) (answer : result A) (i : Inventory)
  : result A * Inventory :=
  match answer with
  | Ok w => (Ok w, i)
  | Fail err =>
      if streaming && IsInvalid err then (Fail err, i) else (Fail err, recordFailure err i)
  end.

Definition second : Z := 1000000000.

Definition shortWatch (now started : Z) (listEnded : option Z) (i : Inventory) : bool :=
  match listEnded with
  | None => (now - started <? second)%Z
  | Some listEnded =>
      match inv_applied i with
      | None => true
      | Some applied => (applied <? listEnded)%Z || (now - applied <? second)%Z
      end
  end.

(** The goroutine [forward]: what it remembers, and one event of the watch. *)
Record forwarding := MkForwarding { fw_received : bool; fw_listEnded : option Z }.

Inductive watch_event :=
  | WatchClosed
  | WatchBookmark (initialEventsEnd : bool)
  | WatchError (err : error)
  | WatchOther.

Definition forward_event (now started : Z) (stopping cancelled : bool) (event : watch_event)
    (fw : forwarding) (i : Inventory) : option forwarding * Inventory :=
  match event with
  | WatchClosed =>
      (None, if negb (fw_received fw) && shortWatch now started (fw_listEnded fw) i
             then failWatch stopping cancelled (Sentinel errShortWatch) i else i)
  | WatchBookmark true => (Some (MkForwarding false (Some now)), i)
  | WatchBookmark false | WatchOther => (Some (MkForwarding true (fw_listEnded fw)), i)
  | WatchError err => (Some (MkForwarding true (fw_listEnded fw)), failWatch stopping cancelled err i)
  end.

Definition start (i : Inventory) : result () * Inventory :=
  if inv_started i then (Fail (Errorf "definition inventory already started" [] []), i)
  else
    (Ok (), MkInventory (inv_catalog i) (inv_clusterFilter i) (inv_loaded i) (inv_done i) (inv_changes i)
       true (inv_cluster i) (inv_synced i) (inv_stopped i) (inv_failure i) (inv_failures i)
       (inv_listedFrom i) (inv_applied i) (inv_unkeyable i) (inv_unmatchedIncludes i)).

(** The deferred end of [Run]. *)
Definition stop (i : Inventory) : Inventory :=
  notify (MkInventory (inv_catalog i) (inv_clusterFilter i) (inv_loaded i) true (inv_changes i)
    (inv_started i) (inv_cluster i) (inv_synced i) true (inv_failure i) (inv_failures i)
    (inv_listedFrom i) (inv_applied i) (inv_unkeyable i) (inv_unmatchedIncludes i)).

Definition report (i : Inventory) : Inventory :=
  let unkeyable := sort_Strings (omap (λ '(name, entry),
      match de_definition entry with
      | Some k => if bool_decide (gvk_Version (RootKey k) = "") || bool_decide (gvk_Kind (RootKey k) = "")
                  then Some name else None
      | None => None
      end) (map_to_list (inv_cluster i))) in
  let unmatched := sort_Strings (filter (λ name, inv_cluster i !! name = None ∧ name ∉ f_exclude (inv_clusterFilter i))
      (elements (f_include (inv_clusterFilter i)))) in
  MkInventory (inv_catalog i) (inv_clusterFilter i) (inv_loaded i) (inv_done i) (inv_changes i)
    (inv_started i) (inv_cluster i) (inv_synced i) (inv_stopped i) (inv_failure i) (inv_failures i)
    (inv_listedFrom i) (inv_applied i) unkeyable unmatched.

Section reflector.
Context (Parse : string → result aval) (meta status : list rfield).
Context `{!Unstructureds}.

Definition unexpected {A} (type : string) : result A :=
  Fail (Errorf "unexpected Karta object %T" [AStr type] []).

Definition Add (obj : object Unstructured) (i : Inventory) : result () * Inventory :=
  match obj with
  | NotUnstructured type => (unexpected type, i)
  | Object_ u =>
      if negb (matches (inv_clusterFilter i) (GetName u)) then (Ok (), i)
      else
        (Ok (), notify (report (set_cluster
           (<[GetName u := decodeKarta Parse meta status u]> (inv_cluster i)) i)))
  end.

Definition Update : object Unstructured → Inventory → result () * Inventory := Add.

Definition Delete (obj : object Unstructured) (i : Inventory) : result () * Inventory :=
  match obj with
  | NotUnstructured type => (unexpected type, i)
  | Object_ u =>
      match inv_cluster i !! GetName u with
      | None => (Ok (), i)
      | Some _ => (Ok (), notify (report (set_cluster (delete (GetName u) (inv_cluster i)) i)))
      end
  end.

Fixpoint decode_list (f : sourceFilter) (list_ : list (object Unstructured))
    (cluster : gmap string definitionEntry) : result (gmap string definitionEntry) :=
  match list_ with
  | [] => Ok cluster
  | NotUnstructured type :: _ => unexpected type
  | Object_ u :: list_ =>
      decode_list f list_ (if matches f (GetName u)
                           then <[GetName u := decodeKarta Parse meta status u]> cluster else cluster)
  end.

Definition Replace (list_ : list (object Unstructured)) (now : Z) (i : Inventory) : result () * Inventory :=
  match decode_list (inv_clusterFilter i) list_ ∅ with
  | Fail err => (Fail err, i)
  | Ok cluster =>
      let i := set_cluster cluster i in
      let i := if (inv_failures i =? inv_listedFrom i)%Z
               then set_health None (inv_failures i) (inv_listedFrom i) i else i in
      (Ok (), notify (set_synced (Some now) (report i)))
  end.

Definition Resync (i : Inventory) : result () * Inventory := (Ok (), i).

(** ** Sequences of steps *)

Inductive operation :=
  | OpStart
  | OpListBegin (Continue : string)
  | OpListEnd (answer : result ())
  | OpWatchBegin (streaming : bool)
  | OpWatchEnd (IsInvalid : error → bool) (streaming : bool) (answer : result ())
  | OpForward (now started : Z) (stopping cancelled : bool) (event : watch_event) (fw : forwarding)
  | OpAdd (obj : object Unstructured)
  | OpUpdate (obj : object Unstructured)
  | OpDelete (obj : object Unstructured)
  | OpReplace (list_ : list (object Unstructured)) (now : Z)
  | OpResync
  | OpReceive
  | OpStop.

Definition step (i : Inventory) (op : operation) : Inventory :=
  match op with
  | OpStart => (start i).2
  | OpListBegin c => list_begin c i
  | OpListEnd answer => (list_end answer i).2
  | OpWatchBegin streaming => (startWatch_begin streaming i).2
  | OpWatchEnd invalid streaming answer => (startWatch_end invalid streaming answer i).2
  | OpForward now started stopping cancelled event fw =>
      (forward_event now started stopping cancelled event fw i).2
  | OpAdd obj => (Add obj i).2
  | OpUpdate obj => (Update obj i).2
  | OpDelete obj => (Delete obj i).2
  | OpReplace list_ now => (Replace list_ now i).2
  | OpResync => (Resync i).2
  | OpReceive => receive_change i
  | OpStop => stop i
  end.

Definition execute (i : Inventory) (ops : list operation) : Inventory := foldl step i ops.
End reflector.

(** ** Health *)

Section health.
Context (Parse : string → result aval) (meta status : list rfield).
Context {objects : Unstructureds}.
Implicit Types (i : Inventory) (op : operation) (ops : list operation).

#[local] Abbreviation step := (step Parse meta status).
#[local] Abbreviation execute := (execute Parse meta status).

(** The failure a step records in a state, if any. *)
Definition watch_failure (stopping cancelled : bool) (err : error) : option error :=
  if negb stopping && negb cancelled then Some err else None.

Definition failure_of i op : option error :=
  match op with
  | OpListEnd (Fail err) => Some err
  | OpWatchEnd invalid streaming (Fail err) => if streaming && invalid err then None else Some err
  | OpForward now started stopping cancelled WatchClosed fw =>
      if negb (fw_received fw) && shortWatch now started (fw_listEnded fw) i
      then watch_failure stopping cancelled (Sentinel errShortWatch) else None
  | OpForward _ _ stopping cancelled (WatchError err) _ => watch_failure stopping cancelled err
  | _ => None
  end.

(** Does the step begin a fresh list? *)
Definition begins op : bool :=
  match op with
  | OpListBegin Continue => bool_decide (Continue = "")
  | OpWatchBegin streaming => streaming
  | _ => false
  end.

(** Does it apply a complete list? *)
Definition applies (f : sourceFilter) op : bool :=
  match op with
  | OpReplace list_ _ => is_ok (decode_list Parse meta status f list_ ∅)
  | _ => false
  end.

Definition health i : option error * Z * Z := (inv_failure i, inv_failures i, inv_listedFrom i).

Definition next_health i op : option error * Z * Z :=
  match failure_of i op with
  | Some err => (Some err, wrap64 (inv_failures i + 1), inv_listedFrom i)
  | None =>
      if begins op then (inv_failure i, inv_failures i, inv_failures i)
      else if applies (inv_clusterFilter i) op && (inv_failures i =? inv_listedFrom i)%Z
      then (None, inv_failures i, inv_listedFrom i)
      else health i
  end.

(** What no step changes, and what each changes. *)
Lemma step_fixed i op :
  inv_catalog (step i op) = inv_catalog i ∧ inv_clusterFilter (step i op) = inv_clusterFilter i.
Proof.
  destruct op as [|c|answer|streaming|invalid streaming answer|now started stopping cancelled event fw
    |obj|obj|obj|l now| | |]; cbn;
    unfold start, list_begin, list_end, startWatch_begin, startWatch_end, forward_event, failWatch,
      Update, Add, Delete, Replace, beginWatch;
    repeat (case_match; simplify_eq/=); done.
Qed.

Lemma step_health i op : health (step i op) = next_health i op.
Proof.
  unfold next_health, health.
  destruct op as [|c|answer|streaming|invalid streaming answer|now started stopping cancelled event fw
    |obj|obj|obj|l now| | |]; cbn;
    unfold start, list_begin, list_end, startWatch_begin, startWatch_end, forward_event, failWatch,
      Update, Add, Delete, Replace, beginWatch, watch_failure;
    repeat (case_match; simplify_eq/=); done.
Qed.

Lemma execute_fixed i ops :
  inv_catalog (execute i ops) = inv_catalog i ∧ inv_clusterFilter (execute i ops) = inv_clusterFilter i.
Proof.
  unfold Inventory.execute. revert i. induction ops as [|op ops IH]; intros i; [done|]. cbn.
  destruct (IH (step i op)) as [-> ->]. apply step_fixed.
Qed.

Lemma execute_snoc i ops op : execute i (ops ++ [op]) = step (execute i ops) op.
Proof. unfold Inventory.execute. by rewrite foldl_snoc. Qed.

(** ** Failures and fresh lists *)

(** A step of the sequence that records a failure, with what follows it. *)
Definition fails_before i ops (err : error) (post : list operation) : Prop :=
  ∃ pre op, ops = pre ++ op :: post ∧ failure_of (execute i pre) op = Some err.

(** Some later step begins a fresh list. *)
Definition list_begun post : Prop := ∃ a op b, post = a ++ op :: b ∧ begins op = true.

(** Some later step begins a fresh list, and one after it applies a list. *)
Definition list_applied (f : sourceFilter) post : Prop :=
  ∃ a op b op' c, post = a ++ op :: b ++ op' :: c ∧ begins op = true ∧ applies f op' = true.

Lemma list_begun_snoc post op : begins op = true ∨ list_begun post → list_begun (post ++ [op]).
Proof.
  intros [H|(a & b & c & -> & H)]; [by exists post, op, []|].
  exists a, b, (c ++ [op]). by rewrite <- (assoc_L (++)).
Qed.

Lemma list_applied_snoc f post op :
  (list_begun post ∧ applies f op = true) ∨ list_applied f post → list_applied f (post ++ [op]).
Proof.
  intros [[(a & b & c & -> & H) Ha]|(a & b & c & d & e & -> & H & Ha)].
  - exists a, b, c, op, []. by rewrite <- (assoc_L (++)).
  - exists a, b, c, d, (e ++ [op]). rewrite <- (assoc_L (++)). cbn. by rewrite <- (assoc_L (++)).
Qed.

Lemma fails_before_snoc i ops op err post :
  fails_before i (ops ++ [op]) err post →
  (post = [] ∧ failure_of (execute i ops) op = Some err) ∨
  ∃ post', post = post' ++ [op] ∧ fails_before i ops err post'.
Proof.
  intros (pre & op' & E & Hf). destruct post as [|x post _] using rev_ind.
  - apply app_inj_tail in E as [<- <-]. by left.
  - right. rewrite app_comm_cons, (assoc_L (++)) in E. apply app_inj_tail in E as [-> <-].
    exists post. split; [done|]. by exists pre, op'.
Qed.

(** The counters of a healthy protocol: the list count never overtakes the
    failure count, they agree only after a fresh list began, and no failure is
    pending only after such a list was applied. *)
Record healthy i0 ops : Prop := {
  h_failures : (inv_failures (execute i0 ops) ≤ Z.of_nat (length ops))%Z;
  h_listed : (0 ≤ inv_listedFrom (execute i0 ops) ≤ inv_failures (execute i0 ops))%Z;
  h_fresh : inv_failures (execute i0 ops) = inv_listedFrom (execute i0 ops) →
    ∀ err post, fails_before i0 ops err post → list_begun post;
  h_none : inv_failure (execute i0 ops) = None →
    ∀ err post, fails_before i0 ops err post → list_applied (inv_clusterFilter i0) post;
}.

Lemma healthy_snoc i0 ops op :
  (Z.of_nat (length ops) < 2 ^ 64 - 1)%Z → healthy i0 ops → healthy i0 (ops ++ [op]).
Proof.
  intros Hlen [Hf Hl Hfresh Hnone]. pose proof (step_health (execute i0 ops) op) as Hs.
  unfold health, next_health in Hs. rewrite <- execute_snoc in Hs.
  rewrite (proj2 (execute_fixed i0 ops)) in Hs. fold (health (execute i0 ops)) in Hs.
  destruct (failure_of (execute i0 ops) op) as [err|] eqn:Efail.
  - injection Hs as E1 E2 E3. unfold wrap64 in E2. rewrite Z.mod_small in E2 by lia.
    split; rewrite ?E1, ?E2, ?E3, ?length_app; cbn [length]; [lia|lia|lia|done].
  - assert (Hold : ∀ P : list operation → Prop,
        (∀ err post, fails_before i0 ops err post → P (post ++ [op])) →
        ∀ err post, fails_before i0 (ops ++ [op]) err post → P post).
    { intros P HP err post [[_ H]|(post' & -> & H)]%fails_before_snoc; [congruence|by eapply HP]. }
    destruct (begins op) eqn:Eb; [|destruct (applies (inv_clusterFilter i0) op &&
      (inv_failures (execute i0 ops) =? inv_listedFrom (execute i0 ops))%Z) eqn:Ea];
      injection Hs as E1 E2 E3; split; rewrite ?E1, ?E2, ?E3, ?length_app; cbn [length]; try lia.
    + intros _. apply Hold. intros err post _. apply list_begun_snoc. by left.
    + intros HN. apply Hold. intros err post H. apply list_applied_snoc. right. by eapply Hnone.
    + intros HF. apply Hold. intros err post H. apply list_begun_snoc. right. by eapply Hfresh.
    + intros _. apply Hold. intros err post H. apply andb_true_iff in Ea as [Ea En%Z.eqb_eq].
      apply list_applied_snoc. left. split; [by eapply Hfresh|done].
    + intros HF. apply Hold. intros err post H. apply list_begun_snoc. right. by eapply Hfresh.
    + intros HN. apply Hold. intros err post H. apply list_applied_snoc. right. by eapply Hnone.
Qed.

Lemma execute_healthy i0 ops :
  inv_failure i0 = None → inv_failures i0 = 0%Z → inv_listedFrom i0 = 0%Z →
  (Z.of_nat (length ops) < 2 ^ 64)%Z → healthy i0 ops.
Proof.
  intros H1 H2 H3. induction ops as [|op ops IH] using rev_ind.
  - intros _. assert (Hno : ∀ err post, ¬ fails_before i0 [] err post).
    { intros err post (pre & op & E & _). by destruct pre. }
    split; cbn; rewrite ?H2, ?H3; try lia; intros _ err post H; by apply Hno in H.
  - rewrite length_app. cbn [length]. intros Hlen. apply healthy_snoc; [lia|]. apply IH. lia.
Qed.

(** ** Stopping and synchronising *)

Definition is_stop op : bool := match op with OpStop => true | _ => false end.

Lemma step_flags i op :
  inv_stopped (step i op) = inv_stopped i || is_stop op ∧
  inv_synced (step i op) = inv_synced i || applies (inv_clusterFilter i) op.
Proof.
  destruct op as [|c|answer|streaming|invalid streaming answer|now started stopping cancelled event fw
    |obj|obj|obj|l now| | |]; cbn;
    unfold start, list_begin, list_end, startWatch_begin, startWatch_end, forward_event, failWatch,
      Update, Add, Delete, Replace, beginWatch;
    repeat (case_match; simplify_eq/=); by rewrite ?orb_false_r, ?orb_true_r.
Qed.

Lemma execute_flags i ops :
  inv_stopped (execute i ops) = inv_stopped i || existsb is_stop ops ∧
  inv_synced (execute i ops) = inv_synced i || existsb (applies (inv_clusterFilter i)) ops.
Proof.
  induction ops as [|op ops [IH1 IH2]] using rev_ind; [by cbn; rewrite !orb_false_r|].
  rewrite execute_snoc, !existsb_app. cbn [existsb]. rewrite !orb_false_r, !orb_assoc, <- IH1, <- IH2.
  destruct (step_flags (execute i ops) op) as [-> ->]. by rewrite (proj2 (execute_fixed i ops)).
Qed.

(** ** The cluster as a log *)

Definition cluster_write (f : sourceFilter) (name : string) op : option (option definitionEntry) :=
  match op with
  | OpAdd (Object_ u) | OpUpdate (Object_ u) =>
      if matches f (GetName u) && bool_decide (GetName u = name)
      then Some (Some (decodeKarta Parse meta status u)) else None
  | OpDelete (Object_ u) => if bool_decide (GetName u = name) then Some None else None
  | OpReplace list_ _ =>
      match decode_list Parse meta status f list_ ∅ with
      | Ok cluster => Some (cluster !! name)
      | Fail _ => None
      end
  | _ => None
  end.

Lemma Add_cluster obj i name :
  inv_cluster (Add Parse meta status obj i).2 !! name =
  default (inv_cluster i !! name) (cluster_write (inv_clusterFilter i) name (OpAdd obj)).
Proof.
  destruct obj as [u|type]; [|done]. cbn. destruct (matches _ _); cbn; [|done].
  case_bool_decide as E; cbn; [by rewrite E, lookup_insert_eq|by rewrite lookup_insert_ne].
Qed.

Lemma step_cluster i op name :
  inv_cluster (step i op) !! name =
  default (inv_cluster i !! name) (cluster_write (inv_clusterFilter i) name op).
Proof.
  destruct op as [|c|answer|streaming|invalid streaming answer|now started stopping cancelled event fw
    |obj|obj|obj|l now| | |]; cbn [Inventory.step].
  7,8: apply Add_cluster.
  7: { destruct obj as [u|type]; [|done]. cbn. destruct (inv_cluster i !! GetName u) eqn:E; cbn;
         case_bool_decide as En; cbn; subst; rewrite ?lookup_delete_eq, ?lookup_delete_ne by done; done. }
  7: { unfold Replace. cbn. destruct (decode_list _ _ _ _ _ _); cbn; [|done]. by case_match. }
  all: cbn; unfold start, list_begin, list_end, startWatch_begin, startWatch_end, forward_event, failWatch,
      beginWatch; repeat (case_match; simplify_eq/=); done.
Qed.

Lemma execute_cluster i ops name :
  inv_cluster i = ∅ →
  inv_cluster (execute i ops) !! name = last_write (cluster_write (inv_clusterFilter i) name) ops.
Proof.
  intros Hempty. apply (foldl_last_write_inv step i _ (λ i, inv_cluster i !! name)
    (λ s, inv_clusterFilter s = inv_clusterFilter i)); [done| | |].
  - intros s op Hs. by rewrite (proj2 (step_fixed s op)).
  - by rewrite Hempty.
  - intros s op Hs. by rewrite step_cluster, Hs.
Qed.
End health.

(** ** Election *)

Class VersionOrderLaws `{VersionOrder} := {
  compare_antisym a b :
    (0 <? CompareKubeAwareVersionStrings a b)%Z = (CompareKubeAwareVersionStrings b a <? 0)%Z;
  compare_trans a b c :
    (CompareKubeAwareVersionStrings a b <= 0)%Z → (CompareKubeAwareVersionStrings b c <= 0)%Z →
    (CompareKubeAwareVersionStrings a c <= 0)%Z;
}.

Lemma older_strict_weak : strict_weak older.
Proof.
  assert (Hts : strict_weak (λ x y : Karta,
    (om_CreationTimestamp (k_ObjectMeta x) <? om_CreationTimestamp (k_ObjectMeta y))%Z)).
  { split; intros; [by rewrite Z.ltb_irrefl|lia|].
    destruct (Z.ltb_spec (om_CreationTimestamp (k_ObjectMeta x)) (om_CreationTimestamp (k_ObjectMeta y)));
      [by left|right; lia]. }
  pose proof (strict_weak_lex _ _ Hts (strict_weak_on string_lt k_Name string_lt_strict_weak)) as Hlex.
  assert (Heq : ∀ x y, older x y =
    (om_CreationTimestamp (k_ObjectMeta x) <? om_CreationTimestamp (k_ObjectMeta y))%Z ||
    (negb (om_CreationTimestamp (k_ObjectMeta y) <? om_CreationTimestamp (k_ObjectMeta x))%Z &&
     string_lt (k_Name x) (k_Name y))).
  { intros x y. unfold older, Z.ltb.
    rewrite (Z.compare_antisym (om_CreationTimestamp (k_ObjectMeta x)) (om_CreationTimestamp (k_ObjectMeta y))).
    by destruct (_ ?= _)%Z. }
  destruct Hlex as [H1 H2 H3]. split; intros; rewrite !Heq in *; [apply H1|by eapply H2|by apply H3].
Qed.

Lemma newer_strict_weak `{VersionOrderLaws} : strict_weak newer.
Proof.
  set (cmp := λ x y : Karta,
    CompareKubeAwareVersionStrings (gvk_Version (RootKey y)) (gvk_Version (RootKey x))).
  assert (Hcmp : ∀ x y, (0 <? cmp x y)%Z = (cmp y x <? 0)%Z) by (intros; apply compare_antisym).
  assert (Hlt : strict_weak (λ x y, (cmp x y <? 0)%Z)).
  { assert (Htr : ∀ x y z, (cmp y x <= 0)%Z → (cmp z y <= 0)%Z → (cmp z x <= 0)%Z).
    { intros x y z. unfold cmp. intros. by eapply compare_trans. }
    split.
    - intros x. pose proof (Hcmp x x). lia.
    - intros x y z Hxy Hyz. pose proof (Hcmp y x). pose proof (Hcmp z y). pose proof (Hcmp z x).
      destruct (cmp x z <? 0)%Z eqn:E; [done|]. pose proof (Htr x z y). pose proof (Hcmp x y). lia.
    - intros x y z Hxz. destruct (cmp x y <? 0)%Z eqn:E1; [by left|]. destruct (cmp y z <? 0)%Z eqn:E2; [by right|].
      pose proof (Hcmp y x). pose proof (Hcmp z y). pose proof (Hcmp z x). pose proof (Htr x y z). pose proof (Hcmp x y). pose proof (Hcmp y z). pose proof (Hcmp x z). lia. }
  pose proof (strict_weak_lex _ _ Hlt (strict_weak_on string_lt k_Name string_lt_strict_weak)) as Hlex.
  assert (Heq : ∀ x y, newer x y = (cmp x y <? 0)%Z || (negb (cmp y x <? 0)%Z && string_lt (k_Name x) (k_Name y))).
  { intros x y. unfold newer. rewrite <- (Hcmp x y).
    unfold cmp. set (c := CompareKubeAwareVersionStrings _ _).
    destruct (Z.eqb_spec c 0) as [->|]; [done|].
    destruct (Z.ltb_spec c 0), (Z.ltb_spec 0 c); (done || lia). }
  destruct Hlex as [H1 H2 H3]. split; intros; rewrite !Heq in *; [apply H1|by eapply H2|by apply H3].
Qed.

(** The candidates of the cluster, with their entries. *)
Definition candidate_of (gk : GroupKind) (entry : definitionEntry) : option (Karta * definitionEntry) :=
  match de_definition entry with
  | Some k => if serves gk k then Some (k, entry) else None
  | None => None
  end.

Definition entry_of (winner : option (Karta * definitionEntry)) : definitionEntry :=
  match winner with Some (_, entry) => entry | None => zero_entry end.

Definition older_pair (x y : Karta * definitionEntry) : bool := older x.1 y.1.

Lemma elect_cluster_pick gk entries winner :
  Forall (λ e, is_Some (de_definition e)) entries →
  (∀ k e, winner = Some (k, e) → de_definition e = Some k) →
  elect_cluster gk entries (entry_of winner) =
  Ok (entry_of (pick older_pair winner (omap (candidate_of gk) entries))).
Proof.
  intros Hall. revert winner. induction Hall as [|entry entries [k Hk] _ IH]; intros winner Hw; [done|].
  cbn [elect_cluster omap list_omap]. rewrite Hk. unfold candidate_of at 1. rewrite Hk.
  destruct (serves gk k); cbn [negb]; [|by apply IH].
  unfold pick. cbn [foldl]. destruct winner as [[w e]|]; cbn [entry_of pick_step].
  - rewrite (Hw w e) by done. change (older_pair (k, entry) (w, e)) with (older k w). destruct (older k w).
    + apply (IH (Some (k, entry))). by intros ? ? [= <- <-].
    + by apply (IH (Some (w, e))).
  - apply (IH (Some (k, entry))). by intros ? ? [= <- <-].
Qed.

(** A decoded candidate of the cluster for a group and kind. *)
Definition candidate (i : Inventory) (gk : GroupKind) (k : Karta) (entry : definitionEntry) : Prop :=
  ∃ name, inv_cluster i !! name = Some entry ∧ de_definition entry = Some k ∧ serves gk k = true.

Lemma candidates_elem i gk x :
  x ∈ omap (candidate_of gk) (map_to_list (inv_cluster i)).*2 ↔ candidate i gk x.1 x.2.
Proof.
  rewrite list_elem_of_omap. unfold candidate, candidate_of. split.
  - intros (e & ([name e'] & -> & He%elem_of_map_to_list)%list_elem_of_fmap & Hx). cbn in Hx, He.
    destruct (de_definition e') as [k|] eqn:Ek; [|done]. destruct (serves gk k) eqn:Es; [|done].
    injection Hx as <-. by exists name.
  - intros (name & He & Hk & Hs). exists x.2. rewrite Hk, Hs. split; [|by destruct x].
    apply list_elem_of_fmap. exists (name, x.2). split; [done|]. by apply elem_of_map_to_list.
Qed.

Lemma electLocked_spec i gvk :
  (∀ name entry, inv_cluster i !! name = Some entry → is_Some (de_definition entry)) →
  (∃ k entry, candidate i (GroupKind_of gvk) k entry ∧
     (∀ k' entry', candidate i (GroupKind_of gvk) k' entry' → older k' k = false) ∧
     electLocked i gvk = Ok (entry, SourceCluster)) ∨
  ((∀ k entry, ¬ candidate i (GroupKind_of gvk) k entry) ∧
   electLocked i gvk = Ok (default zero_entry (inv_catalog i !! GroupKind_of gvk), SourceCatalog)).
Proof.
  intros Hall. unfold electLocked. set (gk := GroupKind_of gvk).
  rewrite (elect_cluster_pick gk _ None).
  2: { apply Forall_forall. intros e ([name e'] & -> & He%elem_of_map_to_list)%list_elem_of_fmap. by eapply Hall. }
  2: done.
  pose proof (pick_spec older_pair None (omap (candidate_of gk) (map_to_list (inv_cluster i)).*2)
    (strict_weak_on older fst older_strict_weak)) as Hp.
  destruct (pick _ _ _) as [[k entry]|]; cbn [mbind result_bind entry_of option_list app] in *.
  - left. destruct Hp as [Hin Hbest]. apply candidates_elem in Hin. cbn in Hin.
    exists k, entry. split_and!; [done| |].
    + intros k' e' Hc. apply (Hbest (k', e')). by apply candidates_elem.
    + by destruct Hin as (_ & _ & -> & _).
  - right. destruct Hp as [_ Hp]. split; [|done]. intros k e Hc.
    assert (Hin : (k, e) ∈ omap (candidate_of gk) (map_to_list (inv_cluster i)).*2) by (by apply candidates_elem).
    rewrite Hp in Hin. by apply elem_of_nil in Hin.
Qed.

Lemma add_catalog_pick `{VersionOrder} f defs gk :
  foldl (add_catalog f) ∅ defs !! gk =
  (λ k, MkEntry (Some k) None) <$>
    pick newer None (filter (λ k, matches f (k_Name k) = true ∧ GroupKind_key k = gk) defs).
Proof.
  unfold pick. induction defs as [|k defs IH] using rev_ind; [cbn [foldl]; by rewrite lookup_empty|].
  rewrite foldl_snoc, filter_app, foldl_app. unfold add_catalog at 1.
  destruct (matches f (k_Name k)) eqn:Em; cbn [negb].
  2: { rewrite (filter_cons_False _ k) by (intros [? _]; congruence). by rewrite filter_nil. }
  destruct (decide (GroupKind_key k = gk)) as [E|Hne].
  - rewrite (filter_cons_True _ k), filter_nil, E by done. cbn [foldl]. rewrite IH.
    destruct (foldl (pick_step newer) None _) as [w|]; cbn; [|by rewrite lookup_insert_eq].
    destruct (newer k w); [by rewrite lookup_insert_eq|]. by rewrite IH.
  - rewrite (filter_cons_False _ k), filter_nil by (by intros [_ ?]). cbn [foldl].
    repeat case_match; rewrite ?lookup_insert_ne by done; apply IH.
Qed.

(** ** Reachable inventories *)

(** The names a source configuration selects. *)
Definition selected (config : SourceConfig) (name : string) : bool :=
  src_Enabled config && (bool_decide (src_Include config = []) || bool_decide (name ∈ src_Include config)) &&
  negb (bool_decide (name ∈ src_Exclude config)).

Lemma compileNames_set source field known names set :
  (compileNames source field known names set).1 = list_to_set names ∪ set.
Proof.
  revert set. induction names as [|name names IH]; intros set; cbn [compileNames].
  { cbn. by rewrite (left_id_L ∅ (∪)). }
  specialize (IH ({[name]} ∪ set)). destruct (compileNames _ _ _ names _) as [s errs]. cbn in *.
  rewrite IH. set_solver.
Qed.

Lemma compileSource_matches source config known name :
  matches (compileSource source config known).1 name = selected config name.
Proof.
  unfold compileSource.
  pose proof (compileNames_set source "include" known (src_Include config) ∅) as E1.
  pose proof (compileNames_set source "exclude" known (src_Exclude config) ∅) as E2.
  destruct (compileNames _ "include" _ _ _) as [inc e1], (compileNames _ "exclude" _ _ _) as [exc e2].
  cbn in *. rewrite (right_id_L ∅ (∪)) in E1, E2. subst. unfold matches, selected. cbn. f_equal; [f_equal; f_equal|f_equal].
  - apply bool_decide_ext. split; [|by intros ->]. intros E.
    destruct (src_Include config) as [|x l]; [done|]. set_solver.
  - apply bool_decide_ext, elem_of_list_to_set.
  - apply bool_decide_ext, elem_of_list_to_set.
Qed.

Section reachable.
Context (Parse : string → result aval) (meta status : list rfield).
Context {errors : KubernetesErrors} {versions : VersionOrder} {objects : Unstructureds}.
Context (catalogDefinitions : list Karta) (client : bool) (config : Config) (i0 : Inventory).
Context (Hnew : New Parse meta status catalogDefinitions client config = Ok i0).
#[local] Set Default Proof Using "Type*".

#[local] Abbreviation execute := (execute Parse meta status).
#[local] Abbreviation decodeKarta := (decodeKarta Parse meta status).
#[local] Abbreviation validatedEntry := (validatedEntry Parse meta status).

Lemma New_fields :
  (∀ name, matches (inv_clusterFilter i0) name = selected (cfg_Cluster config) name) ∧
  f_enabled (inv_clusterFilter i0) = src_Enabled (cfg_Cluster config) ∧
  inv_cluster i0 = ∅ ∧ inv_synced i0 = negb (src_Enabled (cfg_Cluster config)) ∧ inv_stopped i0 = false ∧
  inv_failure i0 = None ∧ inv_failures i0 = 0%Z ∧ inv_listedFrom i0 = 0%Z ∧
  ∀ gk, inv_catalog i0 !! gk = validatedEntry <$>
    pick newer None (filter (λ k, selected (cfg_Catalog config) (k_Name k) = true ∧ GroupKind_key k = gk) catalogDefinitions).
Proof.
  unfold New in Hnew. destruct (_ <? 0)%Z; [done|].
  pose proof (compileSource_matches SourceCatalog (cfg_Catalog config) (Some (list_to_set (k_Name <$> catalogDefinitions)))) as Hc.
  pose proof (compileSource_matches SourceCluster (cfg_Cluster config) None) as Hk.
  assert (Hen : ∀ source known, f_enabled (compileSource source (cfg_Cluster config) known).1 = src_Enabled (cfg_Cluster config)).
  { intros source known. unfold compileSource. by repeat destruct (compileNames _ _ _ _ _). }
  specialize (Hen SourceCluster None).
  destruct (compileSource SourceCatalog _ _) as [catalogFilter e1], (compileSource SourceCluster _ _) as [clusterFilter e2].
  cbn in Hc, Hk, Hen. destruct (errors_Join _); [done|]. destruct (_ && _); [done|].
  injection Hnew as <-. cbn. rewrite Hen. split_and!; try done. intros gk.
  rewrite lookup_fmap, add_catalog_pick, <- option_fmap_compose.
  rewrite (list_filter_iff (λ k, matches catalogFilter (k_Name k) = true ∧ GroupKind_key k = gk)
    (λ k, selected (cfg_Catalog config) (k_Name k) = true ∧ GroupKind_key k = gk)).
  - by destruct (pick _ _ _).
  - intros k. by rewrite Hc.
Qed.

Lemma decode_list_entry f l cluster cluster' name entry :
  decode_list Parse meta status f l cluster = Ok cluster' → cluster' !! name = Some entry →
  cluster !! name = Some entry ∨
  ∃ u, Object_ u ∈ l ∧ GetName u = name ∧ matches f name = true ∧ entry = decodeKarta u.
Proof.
  clear Hnew. revert cluster. induction l as [|[u|type] l IH]; intros cluster; cbn [decode_list]; [|intros H1 H2|done].
  { intros [= ->]. by left. }
  destruct (IH _ H1 H2) as [H|(u' & Hu & ?)]; [|right; exists u'; split; [by right|done]].
  destruct (matches f (GetName u)) eqn:Em; [|by left].
  apply lookup_insert_Some in H as [[E1 E2]|[_ H]]; [|by left].
  right. exists u. subst name entry. split_and!; [by left|done..].
Qed.

(** An entry of the cluster is a decoded object with a selected name. *)
Lemma cluster_entry ops name entry :
  inv_cluster (execute i0 ops) !! name = Some entry →
  ∃ u, GetName u = name ∧ selected (cfg_Cluster config) name = true ∧ entry = decodeKarta u.
Proof.
  destruct New_fields as (Hm & _ & Hempty & _). rewrite execute_cluster by done. unfold last_write.
  destruct (last _) as [w|] eqn:E; [|done]. cbn. intros ->.
  apply last_omap_elem in E as (op & _ & E). rewrite <- Hm.
  destruct op as [|?|?|?|? ? ?|? ? ? ? ? ?|[u|?]|[u|?]|[u|?]|l ?| | |]; try done; cbn in E.
  1,2: destruct (matches _ _) eqn:Em; cbn in E; [|done]; case_bool_decide as En; [|done];
    injection E as <-; exists u; subst name; done.
  - case_bool_decide; done.
  - destruct (decode_list _ _ _ _ _ _) as [cluster|] eqn:Ed; [|done]. injection E as E.
    destruct (decode_list_entry _ _ _ _ _ _ Ed E) as [?|(u & _ & ? & ? & ?)]; [by rewrite lookup_empty in *|].
    by exists u.
Qed.

Lemma ready_decoded ops name entry :
  ready (execute i0 ops) = None → inv_cluster (execute i0 ops) !! name = Some entry →
  is_Some (de_definition entry).
Proof.
  intros Hready He. pose proof (cluster_entry ops name entry He) as (u & _ & Hsel & Hu).
  destruct New_fields as (_ & Hen & _). destruct (de_definition entry) as [k|] eqn:Ek; [done|]. exfalso.
  unfold ready in Hready. rewrite (proj2 (execute_fixed _ _ _ i0 ops)), Hen in Hready.
  unfold selected in Hsel. destruct (src_Enabled (cfg_Cluster config)); [|done]. cbn in Hready.
  destruct (inv_stopped _); [done|]. destruct (inv_failure _); [by case_match|].
  destruct (inv_synced _); [|done]. cbn in Hready. unfold undecoded in Hready.
  destruct (list_find _ _) as [[n e]|] eqn:Ef; cbn in Hready.
  - apply list_find_Some in Ef as (Hn & Hd & _). apply list_elem_of_lookup_2 in Hn.
    apply list_elem_of_fmap in Hn as ([name' e'] & -> & Hin%elem_of_map_to_list). cbn in *.
    destruct (cluster_entry ops name' e' Hin) as (u' & _ & _ & ->).
    unfold Inventory.decodeKarta in Hd, Hready. by destruct (FromUnstructured u').
  - apply list_find_None in Ef. rewrite Forall_forall in Ef. apply (Ef entry); [|done].
    apply list_elem_of_fmap. exists (name, entry). split; [done|]. by apply elem_of_map_to_list.
Qed.
End reachable.

(** ** Properties *)

(** What a lookup makes of the elected entry. *)
Definition lookup_result (entry : definitionEntry) (source : Source) : result Selection :=
  match de_err entry with
  | Some err => Fail err
  | None => Ok (selection (de_definition entry) source)
  end.

(** A built-in definition that may serve a group and kind. *)
Definition built_in (config : SourceConfig) (defs : list Karta) (gk : GroupKind) (k : Karta) : Prop :=
  k ∈ defs ∧ selected config (k_Name k) = true ∧ GroupKind_key k = gk.

Lemma pick_built_in `{VersionOrderLaws} config defs gk :
  match pick newer None (filter (λ k, selected config (k_Name k) = true ∧ GroupKind_key k = gk) defs) with
  | Some k => built_in config defs gk k ∧ ∀ k', built_in config defs gk k' → newer k' k = false
  | None => ∀ k, ¬ built_in config defs gk k
  end.
Proof.
  pose proof (pick_spec newer None (filter (λ k, selected config (k_Name k) = true ∧ GroupKind_key k = gk) defs)
    newer_strict_weak) as Hp.
  assert (Hin : ∀ k, k ∈ filter (λ k, selected config (k_Name k) = true ∧ GroupKind_key k = gk) defs ↔
                     built_in config defs gk k).
  { intros k. rewrite list_elem_of_filter. unfold built_in. tauto. }
  destruct (pick _ _ _) as [k|]; cbn [option_list app] in Hp.
  - destruct Hp as [Hk Hbest]. split; [by apply Hin|]. intros k' Hk'. apply Hbest. by apply Hin.
  - destruct Hp as [_ Hp]. intros k Hk%Hin. rewrite Hp in Hk. by apply elem_of_nil in Hk.
Qed.

(** C3: whatever steps led there, a lookup in an inventory whose sources are
    healthy answers for the oldest Karta of the cluster that serves the group and
    kind (the smallest name among equally old ones); only when there is none,
    for the built-in definition of the greatest version; an invalid winner is an
    error, never a reason to fall back; and the requested version is ignored. *)
Theorem Lookup_elects Parse meta status `{KubernetesErrors, VersionOrderLaws, Unstructureds}
    catalogDefinitions client config i0 ops gvk :
  New Parse meta status catalogDefinitions client config = Ok i0 →
  let i := execute Parse meta status i0 ops in
  let gk := GroupKind_of gvk in
  let builtin := built_in (cfg_Catalog config) catalogDefinitions gk in
  ready i = None →
  (∃ k entry, candidate i gk k entry ∧
     (∀ k' entry', candidate i gk k' entry' → older k' k = false) ∧
     Lookup i gvk = lookup_result entry SourceCluster) ∨
  ((∀ k entry, ¬ candidate i gk k entry) ∧
   ((∃ k, builtin k ∧ (∀ k', builtin k' → newer k' k = false) ∧
      Lookup i gvk = lookup_result (validatedEntry Parse meta status k) SourceCatalog) ∨
    ((∀ k, ¬ builtin k) ∧ Lookup i gvk = Ok zero_selection))).
Proof.
  intros Hnew i gk builtin Hready.
  assert (Hl : Lookup i gvk = '(winner, source) ← electLocked i gvk; lookup_result winner source).
  { unfold Lookup, elect. by rewrite Hready. }
  destruct (electLocked_spec i gvk) as [(k & entry & Hc & Hbest & E)|[Hno E]].
  { intros name entry. by eapply ready_decoded. }
  - left. exists k, entry. split_and!; [done..|]. by rewrite Hl, E.
  - right. split; [done|]. rewrite Hl, E. cbn. fold gk.
    pose proof (proj1 (execute_fixed Parse meta status i0 ops)) as Hfix. fold i in Hfix. rewrite Hfix.
    destruct (New_fields Parse meta status catalogDefinitions client config i0 Hnew)
      as (_ & _ & _ & _ & _ & _ & _ & _ & Hcat).
    rewrite Hcat. pose proof (pick_built_in (cfg_Catalog config) catalogDefinitions gk) as Hp.
    destruct (pick _ _ _) as [k|]; cbn.
    + left. exists k. destruct Hp. done.
    + right. by split.
Qed.

(** A lookup in an inventory with a cluster source answers only with fresh
    data: the inventory was not stopped, some complete list was applied, and
    every recorded failure was followed by the beginning of a new list and then
    by a list applied.  The failure counter may not have wrapped round. *)
Theorem Lookup_fresh Parse meta status `{KubernetesErrors, VersionOrder, Unstructureds}
    catalogDefinitions client config i0 ops gvk sel :
  New Parse meta status catalogDefinitions client config = Ok i0 →
  src_Enabled (cfg_Cluster config) = true → (Z.of_nat (length ops) < 2 ^ 64)%Z →
  Lookup (execute Parse meta status i0 ops) gvk = Ok sel →
  (∀ op, op ∈ ops → op ≠ OpStop) ∧
  (∃ op, op ∈ ops ∧ applies Parse meta status (inv_clusterFilter i0) op = true) ∧
  ∀ err post, fails_before Parse meta status i0 ops err post →
    list_applied Parse meta status (inv_clusterFilter i0) post.
Proof.
  intros Hnew Hen Hlen Hl.
  destruct (New_fields _ _ _ _ _ _ _ Hnew) as (_ & Hf & _ & Hs & Hst & Hz1 & Hz2 & Hz3 & _).
  assert (Hready : ready (execute Parse meta status i0 ops) = None).
  { unfold Lookup, elect in Hl. by destruct (ready _). }
  unfold ready in Hready. rewrite (proj2 (execute_fixed _ _ _ i0 ops)), Hf, Hen in Hready. cbn [negb] in Hready.
  destruct (execute_flags Parse meta status i0 ops) as [Estop Esync].
  rewrite Hst in Estop. rewrite Hs, Hen in Esync. cbn [negb orb] in Estop, Esync. rewrite Estop, Esync in Hready.
  destruct (existsb is_stop ops) eqn:E1; [done|].
  destruct (inv_failure (execute Parse meta status i0 ops)) as [failure|] eqn:Efail; [by case_match|].
  destruct (existsb (applies _ _ _ _) ops) eqn:E2; [|done]. split_and!.
  - intros op Hop ->. assert (existsb is_stop ops = true); [|congruence].
    apply existsb_exists. exists OpStop. split; [by apply list_elem_of_In|done].
  - apply existsb_exists in E2 as (op & Hop%list_elem_of_In & Ha). by exists op.
  - intros err post Hfails.
    by apply (h_none _ _ _ _ _ (execute_healthy Parse meta status i0 ops Hz1 Hz2 Hz3 Hlen) Efail err).
Qed.

(** The definitions of the cluster an inventory holds are, name by name,
    what the last accepted event left: an added or updated object decoded, a
    deletion, or a complete list; only selected names are held, and the built-in
    definitions never change. *)
Theorem cluster_log Parse meta status `{KubernetesErrors, VersionOrder, Unstructureds}
    catalogDefinitions client config i0 ops :
  New Parse meta status catalogDefinitions client config = Ok i0 →
  let i := execute Parse meta status i0 ops in
  inv_catalog i = inv_catalog i0 ∧
  ∀ name,
    inv_cluster i !! name =
      last_write (cluster_write Parse meta status (inv_clusterFilter i0) name) ops ∧
    ∀ entry, inv_cluster i !! name = Some entry →
      ∃ u, GetName u = name ∧ selected (cfg_Cluster config) name = true ∧ entry = decodeKarta Parse meta status u.
Proof.
  intros Hnew i. split; [apply execute_fixed|]. intros name. split.
  - apply execute_cluster. by destruct (New_fields _ _ _ _ _ _ _ Hnew) as (_ & _ & ? & _).
  - intros entry He. by eapply cluster_entry.
Qed.

(** ** A concrete inventory *)

#[local] Instance sample_versions : VersionOrder := {|
  CompareKubeAwareVersionStrings a b := if string_lt a b then (-1)%Z else if string_lt b a then 1%Z else 0%Z;
|}.

#[local] Instance sample_version_laws : VersionOrderLaws.
Proof.
  destruct string_lt_strict_weak as [_ Htrans Hsplit]. split.
  - intros a b. cbn. destruct (string_lt a b) eqn:E1, (string_lt b a) eqn:E2; try done.
    pose proof (Htrans a b a E1 E2). pose proof (less_irrefl _ string_lt_strict_weak a). congruence.
  - intros a b c. cbn. destruct (string_lt a b) eqn:E1; [intros _|destruct (string_lt b a) eqn:E2; [lia|intros _]].
    + destruct (string_lt b c) eqn:E3; [intros _|destruct (string_lt c b) eqn:E4; [lia|intros _]].
      * by rewrite (Htrans a b c).
      * by rewrite <- (string_lt_total b c E3 E4), E1.
    + by rewrite (string_lt_total a b E1 E2).
Qed.

#[local] Instance sample_unstructured : Unstructureds := {|
  Unstructured := Karta; GetName := k_Name; FromUnstructured := Ok;
|}.

Definition named (name : string) (created : Z) : Karta := {|
  k_ObjectMeta := {| om_Name := name; om_UID := name; om_ResourceVersion := "1";
                     om_CreationTimestamp := created; om_Labels := ∅ |};
  k_Spec := k_Spec sample_karta |}.

Definition sample_config : Config :=
  MkConfig (MkSourceConfig true [] []) (MkSourceConfig true [] ["ignored"]) 0.

Definition sample_New : result Inventory :=
  New (λ _, Ok AScalar) [] [] [sample_karta] true sample_config.

Definition sample_ops : list operation :=
  [OpStart; OpListBegin ""; OpReplace [Object_ (named "young" 7); Object_ (named "old" 3); Object_ (named "ignored" 1)] 5].

Definition sample_lookup (ops : list operation) : option string :=
  match sample_New with
  | Fail _ => None
  | Ok i0 =>
      match Lookup (execute (λ _, Ok AScalar) [] [] i0 ops) (GVK "batch" "v2" "Job") with
      | Ok sel => Some (o_Source (sel_Origin sel) +:+ "/" +:+ o_Name (sel_Origin sel))
      | Fail _ => None
      end
  end.

(** The elected definition; a pending failure; a list begun too early; a fresh
    one; the built-in definition; a stopped inventory. *)
Example sample_lookups :
  sample_lookup [] = None ∧
  sample_lookup sample_ops = Some "cluster/old" ∧
  sample_lookup (sample_ops ++ [OpListEnd (Fail (External "e"))]) = None ∧
  sample_lookup (sample_ops ++ [OpListBegin ""; OpListEnd (Fail (External "e")); OpReplace [] 6]) = None ∧
  sample_lookup (sample_ops ++ [OpListEnd (Fail (External "e")); OpListBegin ""; OpReplace [] 6])
    = Some "catalog/sample" ∧
  sample_lookup (sample_ops ++ [OpDelete (Object_ (named "old" 3))]) = Some "cluster/young" ∧
  sample_lookup (sample_ops ++ [OpStop]) = None.
Proof. vm_compute. done. Qed.

Lemma Lookup_elects_witness :
  ∃ i0, sample_New = Ok i0 ∧ ready (execute (λ _, Ok AScalar) [] [] i0 sample_ops) = None ∧
  ∃ entry source, Lookup (execute (λ _, Ok AScalar) [] [] i0 sample_ops) (GVK "batch" "v2" "Job") =
    lookup_result entry source ∨
    Lookup (execute (λ _, Ok AScalar) [] [] i0 sample_ops) (GVK "batch" "v2" "Job") = Ok zero_selection.
Proof.
  destruct sample_New as [i0|e] eqn:E; [|vm_compute in E; discriminate E].
  exists i0. split; [done|].
  assert (Hready : ready (execute (λ _, Ok AScalar) [] [] i0 sample_ops) = None).
  { vm_compute in E. injection E as <-. vm_compute. reflexivity. }
  split; [exact Hready|].
  destruct (Lookup_elects (λ _, Ok AScalar) [] [] [sample_karta] true sample_config i0 sample_ops
    (GVK "batch" "v2" "Job") E Hready) as [(k & entry & _ & _ & Hl)|[_ [(k & _ & _ & Hl)|[_ Hl]]]].
  - exists entry, SourceCluster. left. exact Hl.
  - eexists _, SourceCatalog. left. exact Hl.
  - exists zero_entry, SourceCluster. right. exact Hl.
Defined.

Lemma Lookup_fresh_witness :
  ∃ i0 sel, sample_New = Ok i0 ∧
  Lookup (execute (λ _, Ok AScalar) [] [] i0
    (OpListEnd (Fail (External "e")) :: sample_ops)) (GVK "batch" "v2" "Job") = Ok sel ∧
  ∀ err post, fails_before (λ _, Ok AScalar) [] [] i0 (OpListEnd (Fail (External "e")) :: sample_ops) err post →
    list_applied (λ _, Ok AScalar) [] [] (inv_clusterFilter i0) post.
Proof.
  destruct sample_New as [i0|e] eqn:E; [|vm_compute in E; discriminate E].
  destruct (Lookup (execute (λ _, Ok AScalar) [] [] i0 (OpListEnd (Fail (External "e")) :: sample_ops))
    (GVK "batch" "v2" "Job")) as [sel|e] eqn:El.
  2: { exfalso. vm_compute in E. injection E as <-. vm_compute in El. discriminate El. }
  exists i0, sel. split; [done|]. split; [exact El|].
  apply (Lookup_fresh (λ _, Ok AScalar) [] [] [sample_karta] true sample_config i0
    (OpListEnd (Fail (External "e")) :: sample_ops) (GVK "batch" "v2" "Job") sel E eq_refl);
    [vm_compute; reflexivity|exact El].
Defined.

Lemma cluster_log_witness :
  ∃ i0, sample_New = Ok i0 ∧
  inv_catalog (execute (λ _, Ok AScalar) [] [] i0 sample_ops) = inv_catalog i0.
Proof.
  destruct sample_New as [i0|e] eqn:E; [|vm_compute in E; discriminate E].
  exists i0. split; [done|].
  exact (proj1 (cluster_log (λ _, Ok AScalar) [] [] [sample_karta] true sample_config i0 sample_ops E)).
Defined.
