(* ===== verification/CliDefinitions.v ===== *)
(** * CliDefinitions: the definitions the command line tool looks up

    Models [cli/pkg/definitions]: the lookup over built-in and cluster
    definitions ([resolver.go]) and how it is loaded ([load.go]).  The
    Kubernetes configuration and client, the decoding of objects, the predicates
    on errors and the printing of kinds and errors are parameters.  The sorting
    functions promise an ordered permutation and nothing about equal names
    ([Sort.GoSort]). *)

From S2P Require Import Prelude Api Sort Catalog.
From Stdlib Require Import Ascii.

Definition OriginCatalog : string := "catalog".
Definition OriginCluster : string := "cluster".

Definition ErrNotFound : string := "definitions: no Karta definition for GVK".
Definition ErrNameNotFound : string := "definitions: no Karta definition named".
Definition ErrAmbiguous : string := "definitions: more than one Karta definition for GVK".

Record Definition_ := Def { df_Karta : Karta; df_Origin : string }.
Record Collision := MkCollision { col_GVK : GroupVersionKind; col_Names : list string }.
Record Resolver := MkResolver { definitions : list Definition_ }.

Definition df_Name (d : Definition_) : string := k_Name (df_Karta d).

Definition mappable (d : Definition_) : GroupVersionKind * bool :=
  let gvk := RootKey (df_Karta d) in
  (gvk, bool_decide (gvk_Version gvk ≠ "") && bool_decide (gvk_Kind gvk ≠ "")).

Abbreviation listing := (gmap GroupVersionKind (list Definition_)).

Definition by_name (a b : Karta) : bool := string_lt (k_Name a) (k_Name b).

(** One turn of the loop of [index]. *)
Definition index_step (origin : string) (acc : list Definition_ * listing) (karta : Karta)
    : list Definition_ * listing :=
  let '(unmapped, claimed) := acc in
  let def := Def karta origin in
  let '(gvk, ok) := mappable def in
  if ok then (unmapped, <[gvk := default [] (claimed !! gvk) ++ [def]]> claimed)
  else (unmapped ++ [def], claimed).

Definition index `{GoSort} (l : listing) (kartas : list Karta) (origin : string)
    : list Definition_ * listing :=
  let '(unmapped, claimed) := foldl (index_step origin) ([], ∅) (sort_Slice by_name kartas) in
  (unmapped, claimed ∪ l).

Section resolver.
Context `{GoSort} (gvk_String : GroupVersionKind → string).
(** [GroupVersion.String] *)
Context (gv_String : string → string → string).

Definition FormatGVK (gvk : GroupVersionKind) : string :=
  gv_String (gvk_Group gvk) (gvk_Version gvk) +:+ "/" +:+ gvk_Kind gvk.

Definition New (catalogKartas cluster : list Karta) : Resolver :=
  let '(unmapped, l) := index ∅ catalogKartas OriginCatalog in
  let '(unmapped', l) := index l cluster OriginCluster in
  let gvks := sort_Slice (λ a b, string_lt (gvk_String a) (gvk_String b)) (map_to_list l).*1 in
  MkResolver ((gvks ≫= λ gvk, default [] (l !! gvk)) ++
              sort_Slice (λ a b, string_lt (df_Name a) (df_Name b)) (unmapped ++ unmapped')).

Definition is_mapped_to (gvk : GroupVersionKind) (d : Definition_) : bool :=
  let '(root, ok) := mappable d in ok && bool_decide (root = gvk).

(** [fmt.Sprintf] of a name in quotes is kept as the name. *)
Definition Resolve (r : Resolver) (gvk : GroupVersionKind) : result Definition_ :=
  match filter (λ d, is_mapped_to gvk d) (definitions r) with
  | [] => Fail (Errorf "%w: %s" [AStr (FormatGVK gvk)] [Sentinel ErrNotFound])
  | [def] => Ok def
  | defs => Fail (Errorf "%w: %s: %s" [AStr (FormatGVK gvk); AStrs (df_Name <$> defs)] [Sentinel ErrAmbiguous])
  end.

Definition List (r : Resolver) : list Definition_ := definitions r.

Definition ByRootKind (r : Resolver) (kind : string) : list Definition_ :=
  let query := ToLower kind in
  filter (λ d, let '(gvk, ok) := mappable d in ok && bool_decide (ToLower (gvk_Kind gvk) = query))
    (definitions r).

Fixpoint by_name_loop (name : string) (defs : list Definition_) (catalogMatch : option Definition_)
    : option Definition_ :=
  match defs with
  | [] => catalogMatch
  | def :: defs =>
      if bool_decide (df_Name def ≠ name) then by_name_loop name defs catalogMatch
      else if bool_decide (df_Origin def = OriginCluster) then Some def
      else by_name_loop name defs (match catalogMatch with None => Some def | Some _ => catalogMatch end)
  end.

Definition ByName (r : Resolver) (name : string) : result Definition_ :=
  match by_name_loop name (definitions r) None with
  | Some def => Ok def
  | None => Fail (Errorf "%w: %q" [AStr name] [Sentinel ErrNameNotFound])
  end.

(** The closure [flush]. *)
Definition flush (out : list Collision) (run : GroupVersionKind) (names : list string) : list Collision :=
  if bool_decide (1 < length names) then out ++ [MkCollision run names] else out.

Fixpoint collisions_loop (defs : list Definition_) (out : list Collision) (run : GroupVersionKind)
    (names : list string) : list Collision :=
  match defs with
  | [] => flush out run names
  | def :: defs =>
      let '(gvk, ok) := mappable def in
      let '(out, run, names) :=
        if negb ok || bool_decide (gvk ≠ run) then (flush out run names, gvk, []) else (out, run, names) in
      collisions_loop defs out run (if ok then names ++ [df_Name def] else names)
  end.

Definition Collisions (r : Resolver) : list Collision :=
  collisions_loop (definitions r) [] (GVK "" "" "") [].
End resolver.

(** ** Loading *)

Record Warning := MkWarning { wn_Reason : string; wn_Message : error }.

Definition ReasonCollision : string := "collision".
Definition ReasonNoCRD : string := "no_crd".
Definition ReasonForbidden : string := "forbidden".
Definition ReasonUnreachable : string := "unreachable".
Definition ReasonInvalid : string := "invalid".

Section load.
Context `{GoSort} (gvk_String : GroupVersionKind → string) (gv_String : string → string → string).
Context (IsEmptyConfig IsNotFound IsForbidden : error → bool).

(** [for cause := err; cause != nil; cause = errors.Unwrap(cause)]: the operand
    of a single [%w] or the cause of an error type; joined errors do not unwrap. *)
Fixpoint unwraps_to_empty (cause : error) : bool :=
  IsEmptyConfig cause ||
  match cause with
  | Errorf fmt _ [cause'] => if bool_decide (fmt = "") then false else unwraps_to_empty cause'
  | JQParseError _ cause' | JQCompileError _ cause' | JQExecutionError _ cause' => unwraps_to_empty cause'
  | _ => false
  end.

(** Messages are kept as format and operands; white space is not normalised. *)
Definition classify (err : error) : option Warning :=
  if unwraps_to_empty err then None
  else if IsNotFound err then
    Some (MkWarning ReasonNoCRD
            (Errorf "the kartas.run.ai CRD is not installed; showing built-in definitions only" [] []))
  else if IsForbidden err then
    Some (MkWarning ReasonForbidden
            (Errorf "not allowed to list kartas.run.ai; showing built-in definitions only. Ask a cluster administrator for 'list' permission on kartas.run.ai to include cluster definitions." [] []))
  else Some (MkWarning ReasonUnreachable
               (Errorf "could not read Karta definitions from the cluster: %v; showing built-in definitions only" [] [err])).

Context {Unstructured : Type} (GetName : Unstructured → string).
Context (FromUnstructured : Unstructured → result Karta).

(** The loop of [listWithClient] over the objects listed. *)
Fixpoint decode_each (items : list Unstructured) (warnings : list Warning) (kartas : list Karta)
    : list Karta * list Warning :=
  match items with
  | [] => (kartas, warnings)
  | item :: items =>
      match FromUnstructured item with
      | Fail err =>
          decode_each items
            (warnings ++ [MkWarning ReasonInvalid
                            (Errorf "skipping Karta definition %q: %v" [AStr (GetName item)] [err])]) kartas
      | Ok karta => decode_each items warnings (kartas ++ [karta])
      end
  end.

Definition listWithClient (listed : result (list Unstructured)) (warnings : list Warning)
    : result (list Karta) * list Warning :=
  match listed with
  | Fail err => (Fail (Errorf "list Karta definitions: %w" [] [err]), warnings)
  | Ok items => let '(kartas, warnings) := decode_each items warnings [] in (Ok kartas, warnings)
  end.

(** What connecting to the cluster gives: its configuration, then a client made
    from it, then the answer to the list. *)
Definition fetchCluster (ToRESTConfig NewForConfig : option error) (listed : result (list Unstructured))
    (warnings : list Warning) : result (list Karta) * list Warning :=
  match ToRESTConfig with
  | Some err => (Fail (Errorf "kubernetes config: %w" [] [err]), warnings)
  | None =>
      match NewForConfig with
      | Some err => (Fail (Errorf "kubernetes dynamic client: %w" [] [err]), warnings)
      | None => listWithClient listed warnings
      end
  end.

Definition collision_warning (c : Collision) : Warning :=
  MkWarning ReasonCollision
    (Errorf "%d cluster Karta definitions claim %s: %s"
       [ANat (length (col_Names c)); AStr (FormatGVK gv_String (col_GVK c)); AStrs (col_Names c)] []).

Definition Load (catalogList : list Karta) (ToRESTConfig NewForConfig : option error)
    (listed : result (list Unstructured)) : Resolver * list Warning :=
  let '(cluster, warnings) := fetchCluster ToRESTConfig NewForConfig listed [] in
  let '(cluster, warnings) :=
    match cluster with
    | Ok kartas => (kartas, warnings)
    | Fail err => ([], warnings ++ option_list (classify err))
    end in
  let resolver := New gvk_String catalogList cluster in
  (resolver, warnings ++ (collision_warning <$> Collisions resolver)).
End load.

(** ** What the resolver holds *)

Definition claims (gvk : GroupVersionKind) (k : Karta) : bool :=
  bool_decide (keyed k) && bool_decide (RootKey k = gvk).

(** The definitions of one source that claim a kind, in the order of their names. *)
Definition claimants `{GoSort} (gvk : GroupVersionKind) (origin : string) (kartas : list Karta)
    : list Definition_ :=
  (λ k, Def k origin) <$> filter (λ k, claims gvk k) (sort_Slice by_name kartas).

(** The source that counts: the cluster as soon as it claims the kind. *)
Definition effective `{GoSort} (catalogKartas cluster : list Karta) (gvk : GroupVersionKind)
    : list Definition_ :=
  match claimants gvk OriginCluster cluster with
  | [] => claimants gvk OriginCatalog catalogKartas
  | defs => defs
  end.

#[export] Instance keyed_dec k : Decision (keyed k).
Proof. unfold keyed. apply _. Defined.

Lemma mappable_claims gvk k origin : is_mapped_to gvk (Def k origin) = claims gvk k.
Proof.
  unfold is_mapped_to, mappable, claims, keyed. cbn. f_equal.
  by rewrite bool_decide_and.
Qed.

Section holds.
Context `{GoSort}.

Lemma index_fold origin kartas unmapped (claimed : listing) :
  foldl (index_step origin) (unmapped, claimed) kartas =
  (unmapped ++ ((λ k, Def k origin) <$> filter (λ k, ¬ keyed k) kartas),
   (foldl (index_step origin) (unmapped, claimed) kartas).2) ∧
  ∀ gvk, (foldl (index_step origin) (unmapped, claimed) kartas).2 !! gvk =
    match filter (λ k, claims gvk k) kartas with
    | [] => claimed !! gvk
    | ks => Some (default [] (claimed !! gvk) ++ ((λ k, Def k origin) <$> ks))
    end.
Proof.
  revert unmapped claimed. induction kartas as [|k kartas IH]; intros unmapped claimed.
  { cbn. by rewrite app_nil_r. }
  cbn [foldl]. unfold index_step at 2 4 6. cbn [mappable df_Karta].
  destruct (decide (keyed k)) as [Hk|Hk].
  - assert ((bool_decide (gvk_Version (RootKey k) ≠ "") && bool_decide (gvk_Kind (RootKey k) ≠ "")) = true) as ->.
    { destruct Hk. by rewrite !bool_decide_eq_true_2. }
    destruct (IH unmapped (<[RootKey k := default [] (claimed !! RootKey k) ++ [Def k origin]]> claimed)) as [IH1 IH2].
    split.
    + rewrite filter_cons_False by tauto. exact IH1.
    + intros gvk. rewrite IH2. destruct (decide (RootKey k = gvk)) as [<-|Hne].
      * rewrite filter_cons_True by (unfold claims; by rewrite !bool_decide_eq_true_2).
        rewrite lookup_insert_eq.
        destruct (filter (λ k', claims (RootKey k) k') kartas); cbn; [done|]. by rewrite <- (assoc_L (++)).
      * rewrite filter_cons_False by (unfold claims; rewrite (bool_decide_eq_false_2 _ Hne), andb_false_r; tauto).
        by rewrite lookup_insert_ne.
  - assert ((bool_decide (gvk_Version (RootKey k) ≠ "") && bool_decide (gvk_Kind (RootKey k) ≠ "")) = false) as ->.
    { apply not_true_is_false. rewrite andb_true_iff, !bool_decide_eq_true. exact Hk. }
    destruct (IH (unmapped ++ [Def k origin]) claimed) as [IH1 IH2]. split.
    + rewrite filter_cons_True by done. cbn. rewrite IH1 at 1. by rewrite <- (assoc_L (++)).
    + intros gvk. rewrite IH2. rewrite filter_cons_False; [done|].
      unfold claims. rewrite (bool_decide_eq_false_2 _ Hk). tauto.
Qed.

Lemma index_spec l kartas origin :
  ∃ l', index l kartas origin = ((λ k, Def k origin) <$> filter (λ k, ¬ keyed k) (sort_Slice by_name kartas), l') ∧
    ∀ gvk, l' !! gvk = match claimants gvk origin kartas with [] => l !! gvk | defs => Some defs end.
Proof.
  unfold index, claimants. destruct (index_fold origin (sort_Slice by_name kartas) [] ∅) as [-> Hl].
  eexists. split; [reflexivity|]. intros gvk. rewrite lookup_union, Hl, lookup_empty.
  destruct (filter (λ k, claims gvk k) _); by destruct (l !! gvk).
Qed.
End holds.

Section resolves.
Context `{GoSort}.

Lemma claimants_mapped gvk origin kartas :
  Forall (λ d, is_mapped_to gvk d = true) (claimants gvk origin kartas).
Proof.
  unfold claimants. apply Forall_fmap, Forall_forall. intros k [Hk _]%list_elem_of_filter.
  change (is_mapped_to gvk (Def k origin) = true). rewrite mappable_claims. by apply Is_true_true.
Qed.

Lemma effective_mapped cat clu gvk :
  Forall (λ d, is_mapped_to gvk d = true) (effective cat clu gvk).
Proof.
  unfold effective. pose proof (claimants_mapped gvk OriginCluster clu).
  destruct (claimants gvk OriginCluster clu); [apply claimants_mapped|done].
Qed.

(** The definitions of a resolver: a block for each kind that is claimed, then
    those that name no kind. *)
Lemma New_blocks gvk_String cat clu :
  ∃ gvks tail,
    definitions (New gvk_String cat clu) = (gvks ≫= effective cat clu) ++ tail ∧
    NoDup gvks ∧ (∀ gvk, gvk ∈ gvks ↔ effective cat clu gvk ≠ []) ∧
    Forall (λ d, (mappable d).2 = false) tail.
Proof.
  unfold New.
  destruct (index_spec ∅ cat OriginCatalog) as (l1 & -> & H1).
  destruct (index_spec l1 clu OriginCluster) as (l2 & -> & H2).
  assert (Hl : ∀ gvk, l2 !! gvk = match effective cat clu gvk with [] => None | defs => Some defs end).
  { intros gvk. rewrite H2, H1, lookup_empty. unfold effective.
    destruct (claimants gvk OriginCluster clu); [|done]. by destruct (claimants gvk OriginCatalog cat). }
  set (gvks := sort_Slice _ _). exists gvks.
  eexists. split; [cbn [definitions]; f_equal|split_and!].
  - clearbody gvks. induction gvks as [|gvk gvks IH]; [done|]. cbn. rewrite IH, Hl.
    by destruct (effective cat clu gvk).
  - subst gvks. rewrite sort_Slice_Permutation. apply NoDup_fst_map_to_list.
  - intros gvk. subst gvks. rewrite sort_Slice_Permutation, list_elem_of_fmap. split.
    + intros ([gvk' defs] & -> & Hd%elem_of_map_to_list). rewrite Hl in Hd. cbn. by destruct (effective cat clu gvk').
    + intros Hne. exists (gvk, effective cat clu gvk). split; [done|]. apply elem_of_map_to_list.
      rewrite Hl. by destruct (effective cat clu gvk).
  - rewrite sort_Slice_Permutation. apply Forall_app.
    split; apply Forall_fmap, Forall_forall; intros k [Hk _]%list_elem_of_filter; cbn;
      apply not_true_is_false; rewrite andb_true_iff, !bool_decide_eq_true; exact Hk.
Qed.

Lemma filter_block gvk gvk' defs :
  Forall (λ d, is_mapped_to gvk' d = true) defs →
  filter (λ d, is_mapped_to gvk d) defs = if decide (gvk' = gvk) then defs else [].
Proof.
  induction 1 as [|d defs Hd _ IH]; [by case_decide|].
  case_decide as He; subst.
  - rewrite filter_cons_True by (by rewrite Hd). by f_equal.
  - rewrite filter_cons_False; [done|]. unfold is_mapped_to in *. destruct (mappable d) as [root ok].
    apply andb_true_iff in Hd as [-> Hd%bool_decide_eq_true].
    intros Hb%Is_true_true. apply bool_decide_eq_true in Hb. congruence.
Qed.

Lemma filter_blocks cat clu gvk gvks :
  NoDup gvks →
  filter (λ d, is_mapped_to gvk d) (gvks ≫= effective cat clu) =
  if decide (gvk ∈ gvks) then effective cat clu gvk else [].
Proof.
  induction 1 as [|gvk' gvks Hni Hnd IH]; [by case_decide as Hg; [apply not_elem_of_nil in Hg|]|].
  rewrite bind_cons, filter_app, IH, (filter_block _ _ _ (effective_mapped cat clu gvk')).
  destruct (decide (gvk' = gvk)) as [->|Hne].
  - rewrite decide_False, decide_True by (done || by left). by rewrite app_nil_r.
  - destruct (decide (gvk ∈ gvks)) as [Hin|Hni'].
    + by rewrite decide_True by (by right).
    + rewrite decide_False; [done|]. by intros [->|]%elem_of_cons.
Qed.

(** Looking a kind up selects what is effective for it. *)
Lemma filter_New gvk_String cat clu gvk :
  filter (λ d, is_mapped_to gvk d) (definitions (New gvk_String cat clu)) = effective cat clu gvk.
Proof.
  destruct (New_blocks gvk_String cat clu) as (gvks & tail & -> & Hnd & Hin & Htail).
  rewrite filter_app, filter_blocks by done.
  assert (filter (λ d, is_mapped_to gvk d) tail = []) as ->.
  { clear -Htail. induction Htail as [|d tail Hd _ IH]; [done|]. rewrite filter_cons_False; [exact IH|].
    unfold is_mapped_to. destruct (mappable d). cbn in Hd. rewrite Hd. intros []. }
  rewrite app_nil_r. case_decide as Hg; [done|].
  destruct (effective cat clu gvk) eqn:E; [done|]. destruct Hg. apply Hin. by rewrite E.
Qed.

(** ** Collisions *)

Definition collision_of (gvk : GroupVersionKind) (defs : list Definition_) : list Collision :=
  flush [] gvk (df_Name <$> defs).

Lemma flush_app out run names : flush out run names = out ++ flush [] run names.
Proof. unfold flush. case_bool_decide; [done|]. by rewrite app_nil_r. Qed.

Lemma collisions_tail tail out run names :
  Forall (λ d, (mappable d).2 = false) tail →
  collisions_loop tail out run names = out ++ flush [] run names.
Proof.
  intros Ht. revert out run names. induction Ht as [|d tail Hd _ IH]; intros out run names.
  { apply flush_app. }
  cbn [collisions_loop]. destruct (mappable d) as [gvk ok]. cbn in Hd. subst ok. cbn.
  rewrite IH, (flush_app out). cbn. by rewrite app_nil_r.
Qed.

Lemma collisions_block_rest gvk defs rest out names :
  Forall (λ d, is_mapped_to gvk d = true) defs →
  collisions_loop (defs ++ rest) out gvk names = collisions_loop rest out gvk (names ++ (df_Name <$> defs)).
Proof.
  intros Hd. revert names. induction Hd as [|d defs Hd _ IH]; intros names; [by rewrite app_nil_r|].
  cbn [app collisions_loop]. unfold is_mapped_to in Hd. destruct (mappable d) as [root ok].
  apply andb_true_iff in Hd as [-> ->%bool_decide_eq_true].
  rewrite (bool_decide_eq_false_2 (gvk ≠ gvk)) by tauto. cbn. rewrite IH. by rewrite <- (assoc_L (++)).
Qed.

Lemma collisions_block gvk defs rest out run names :
  Forall (λ d, is_mapped_to gvk d = true) defs → defs ≠ [] → (run = gvk → names = []) →
  collisions_loop (defs ++ rest) out run names =
  collisions_loop rest (out ++ flush [] run names) gvk (df_Name <$> defs).
Proof.
  intros Hd Hne Hrun. destruct Hd as [|d defs Hd Hds]; [done|]. clear Hne.
  cbn [app collisions_loop]. unfold is_mapped_to in Hd. destruct (mappable d) as [root ok].
  apply andb_true_iff in Hd as [-> ->%bool_decide_eq_true].
  destruct (decide (gvk = run)) as [->|Hne].
  - rewrite Hrun, (bool_decide_eq_false_2 (run ≠ run)) by tauto. cbn. rewrite app_nil_r.
    by rewrite collisions_block_rest.
  - rewrite bool_decide_eq_true_2 by done. cbn. rewrite collisions_block_rest by done.
    by rewrite flush_app.
Qed.

Lemma collisions_blocks cat clu gvks tail out run names :
  NoDup gvks → Forall (λ gvk, effective cat clu gvk ≠ []) gvks → (run ∈ gvks → names = []) →
  Forall (λ d, (mappable d).2 = false) tail →
  collisions_loop ((gvks ≫= effective cat clu) ++ tail) out run names =
  out ++ flush [] run names ++ (gvks ≫= λ gvk, collision_of gvk (effective cat clu gvk)).
Proof.
  intros Hnd Hne Hrun Ht. revert out run names Hne Hrun.
  induction Hnd as [|gvk gvks Hni Hnd IH]; intros out run names Hne Hrun.
  { cbn. by rewrite collisions_tail, app_nil_r. }
  apply Forall_cons in Hne as [Hg Hne]. cbn. rewrite <- (assoc_L (++)).
  rewrite (collisions_block gvk); [|apply effective_mapped|done|intros ->; apply Hrun; by left].
  rewrite IH by done. by rewrite <- !(assoc_L (++)).
Qed.
End resolves.

(** ** Properties *)

Section properties.
Context `{GoSort} (gvk_String : GroupVersionKind → string) (gv_String : string → string → string).

(** C16: a kind resolves to its one effective definition - the cluster's if the
    cluster claims it, else the catalog's - it is not found when there is none and
    ambiguous when there are several; the collisions reported are exactly the
    ambiguous kinds, with the names of all claimants. *)
Theorem Resolve_elects catalogKartas cluster gvk :
  Resolve gv_String (New gvk_String catalogKartas cluster) gvk =
    match effective catalogKartas cluster gvk with
    | [] => Fail (Errorf "%w: %s" [AStr (FormatGVK gv_String gvk)] [Sentinel ErrNotFound])
    | [def] => Ok def
    | defs => Fail (Errorf "%w: %s: %s" [AStr (FormatGVK gv_String gvk); AStrs (df_Name <$> defs)]
                      [Sentinel ErrAmbiguous])
    end ∧
  ∀ names,
    MkCollision gvk names ∈ Collisions (New gvk_String catalogKartas cluster) ↔
    1 < length (effective catalogKartas cluster gvk) ∧
    names = df_Name <$> effective catalogKartas cluster gvk.
Proof.
  split; [unfold Resolve; by rewrite filter_New|]. intros names.
  destruct (New_blocks gvk_String catalogKartas cluster) as (gvks & tail & E & Hnd & Hin & Htail).
  unfold Collisions. rewrite E, collisions_blocks; [|done| |done|done].
  - change (flush [] (GVK "" "" "") []) with (@nil Collision).
    rewrite !app_nil_l, list_elem_of_bind. unfold collision_of, flush. split.
    + intros (gvk' & Hc & _). case_bool_decide as Hl; [|by apply not_elem_of_nil in Hc].
      rewrite length_fmap in Hl. cbn in Hc. apply list_elem_of_singleton in Hc. by injection Hc as -> ->.
    + intros [Hl ->]. exists gvk. rewrite bool_decide_eq_true_2 by (by rewrite length_fmap).
      split; [by left|]. apply Hin. by destruct (effective catalogKartas cluster gvk); [cbn in Hl; lia|].
  - apply Forall_forall. intros g Hg. by apply Hin.
Qed.

(** A name is looked up in the cluster first. *)
Lemma by_name_loop_spec name defs m :
  by_name_loop name defs m =
  match filter (λ d, df_Name d = name ∧ df_Origin d = OriginCluster) defs with
  | d :: _ => Some d
  | [] => match m with Some d => Some d | None => head (filter (λ d, df_Name d = name) defs) end
  end.
Proof.
  revert m. induction defs as [|d defs IH]; intros m; cbn [by_name_loop]; [by destruct m|].
  destruct (decide (df_Name d = name)) as [Hn|Hn].
  - rewrite (bool_decide_eq_false_2 (df_Name d ≠ name)) by tauto.
    rewrite (filter_cons_True (λ d, df_Name d = name)) by done.
    destruct (decide (df_Origin d = OriginCluster)) as [Ho|Ho].
    + by rewrite bool_decide_eq_true_2, filter_cons_True.
    + rewrite bool_decide_eq_false_2, filter_cons_False by tauto. rewrite IH. by destruct m.
  - rewrite bool_decide_eq_true_2 by done. rewrite !filter_cons_False by tauto. apply IH.
Qed.

Context (IsEmptyConfig IsNotFound IsForbidden : error → bool).
Context {Unstructured : Type} (GetName : Unstructured → string).
Context (FromUnstructured : Unstructured → result Karta).

(** The Kartas of a list this build can read. *)
Definition readable (items : list Unstructured) : list Karta :=
  omap (λ item, match FromUnstructured item with Ok k => Some k | Fail _ => None end) items.

Definition unreadable (items : list Unstructured) : list Warning :=
  omap (λ item, match FromUnstructured item with
                | Ok _ => None
                | Fail err => Some (MkWarning ReasonInvalid
                    (Errorf "skipping Karta definition %q: %v" [AStr (GetName item)] [err]))
                end) items.

Lemma decode_each_spec items warnings kartas :
  decode_each GetName FromUnstructured items warnings kartas =
  (kartas ++ readable items, warnings ++ unreadable items).
Proof.
  revert warnings kartas. induction items as [|item items IH]; intros warnings kartas; cbn.
  { by rewrite !app_nil_r. }
  destruct (FromUnstructured item); rewrite IH; by rewrite <- (assoc_L (++)).
Qed.

(** Loading always gives a resolver: over the built-in definitions and
    every definition of the cluster that can be read, with a warning for each
    that cannot; over the built-in ones alone when the cluster cannot be read,
    with one warning, or none when no cluster is configured. *)
Theorem Load_degrades catalogList ToRESTConfig NewForConfig listed :
  let '(resolver, warnings) :=
    Load gvk_String gv_String IsEmptyConfig IsNotFound IsForbidden GetName FromUnstructured
      catalogList ToRESTConfig NewForConfig listed in
  let collisions := collision_warning gv_String <$> Collisions resolver in
  match fetchCluster GetName FromUnstructured ToRESTConfig NewForConfig listed [] with
  | (Ok _, _) => ∃ items, listed = Ok items ∧ ToRESTConfig = None ∧ NewForConfig = None ∧
                  resolver = New gvk_String catalogList (readable items) ∧
                  warnings = unreadable items ++ collisions
  | (Fail err, _) => resolver = New gvk_String catalogList [] ∧
                  (∀ gvk, effective catalogList [] gvk = claimants gvk OriginCatalog catalogList) ∧
                  warnings = option_list (classify IsEmptyConfig IsNotFound IsForbidden err) ++ collisions
  end.
Proof.
  assert (Hnone : ∀ gvk, effective catalogList [] gvk = claimants gvk OriginCatalog catalogList).
  { intros gvk. unfold effective, claimants at 1.
    pose proof (sort_Slice_Permutation by_name []) as Hp. symmetry in Hp.
    apply Permutation_nil in Hp. by rewrite Hp. }
  unfold Load, fetchCluster.
  destruct ToRESTConfig; [done|]. destruct NewForConfig; [done|].
  unfold listWithClient. destruct listed as [items|]; [|done].
  rewrite decode_each_spec. by exists items.
Qed.
End properties.

(** Two cluster definitions of one kind: the built-in one is overridden, the
    kind is ambiguous and both names are reported. *)
Example Resolve_ambiguous :
  let named := λ n, Build_Karta (Build_ObjectMeta n "" "" 0 ∅) (k_Spec sample_karta) in
  let r := New gvk_Kind (H:=insertion_GoSort) [named "builtin"] [named "b"; named "a"] in
  col_Names <$> Collisions r = [["a"; "b"]] ∧
  is_ok (Resolve (λ g v, g) r (GVK "batch" "v1" "Job")) = false ∧
  (df_Name <$> definitions (New gvk_Kind (H:=insertion_GoSort) [named "builtin"] [])) = ["builtin"].
Proof. by vm_compute. Qed.
