(* ===== verification/CliOwners.v ===== *)
(** * CliOwners: owner chains and the pods of a workload

    Models [cli/pkg/workload/owners.go] and [pods.go]: the walk up controller
    references with its two caches, and the attribution of pods to a root.  The
    API server and the mapper may answer differently at every call, so their
    answers are indexed by the number of calls made before; a paged list ends
    with a page without token or with an error.  The parsers, mapper and
    predicates on errors of the Kubernetes libraries, the decoding of a pod and
    the text of errors are parameters. *)

From S2P Require Import Prelude Api Store Discovery.

Definition maxOwnerDepth : nat := 6.
Definition ownerListChunk : Z := 500.
Definition errChainTooLong : error :=
  Errorf "owner chain longer than %d links" [ANat maxOwnerDepth] [].

Record GroupVersionResource := GVR { gvr_Group : string; gvr_Version : string; gvr_Resource : string }.
#[export] Instance GroupVersionResource_eq_dec : EqDecision GroupVersionResource.
Proof. solve_decision. Defined.
#[export] Instance GroupVersionResource_countable : Countable GroupVersionResource.
Proof.
  refine (inj_countable' (λ g, (gvr_Group g, gvr_Version g, gvr_Resource g)) (λ t, GVR t.1.1 t.1.2 t.2) _).
  by intros [].
Defined.

Record RESTMapping := MkMapping { mp_Resource : GroupVersionResource; mp_Namespaced : bool }.

(** What the code reads of a [metav1.PartialObjectMetadata]. *)
Record PartialObject := MkPartial {
  po_Name : string;
  po_UID : UID;
  po_OwnerReferences : list OwnerReference;
}.

Record listKey := MkListKey { lk_resource : GroupVersionResource; lk_namespace : string }.
#[export] Instance listKey_eq_dec : EqDecision listKey.
Proof. solve_decision. Defined.
#[export] Instance listKey_countable : Countable listKey.
Proof.
  refine (inj_countable' (λ k, (lk_resource k, lk_namespace k)) (λ t, MkListKey t.1 t.2) _).
  by intros [].
Defined.

Record ownerList := MkOwnerList { ol_byName : gmap string PartialObject; ol_err : option error }.

(** A [namedKey]: a list's key and a name. *)
Definition namedKey : Type := listKey * string.
Record namedOwner := MkNamedOwner { no_owner : option PartialObject; no_err : option error }.

(** The calls a walker made. *)
Inductive call :=
  | CMap (gk : GroupKind) (version : option string)
  | CList (key : listKey)
  | CGet (key : namedKey).

Record OwnerWalker := MkWalker {
  ow_lists : gmap listKey ownerList;
  ow_named : gmap namedKey namedOwner;
  ow_calls : list call;
}.

(** The answers to one paged list. *)
Inductive pages (A : Type) :=
  | PMore (items : list A) (continue : string) (rest : pages A)
  | PLast (items : list A)
  | PError (err : error).
Arguments PMore {A} items continue rest.
Arguments PLast {A} items.
Arguments PError {A} err.

(** The cluster as the walker's clients and mapper show it, call by call. *)
Class API := {
  API_RESTMapping : nat → GroupKind → option string → result RESTMapping;
  API_List : nat → listKey → pages PartialObject;
  API_Get : nat → namedKey → result PartialObject;
}.

Class OwnerLibrary := {
  FromAPIVersionAndKind : string → string → GroupVersionKind;
  IsNoMatchError : error → bool;
}.

Definition NewOwnerWalker : OwnerWalker := MkWalker ∅ ∅ [].

Definition controllerRef (refs : list OwnerReference) : option OwnerReference :=
  head (filter (λ ref, own_Controller ref = Some true) refs).

(** The loop of [listOwners]. *)
Definition add_owners (owners : gmap string PartialObject) (items : list PartialObject)
    : gmap string PartialObject :=
  foldl (λ owners o, <[po_Name o := o]> owners) owners items.

Fixpoint listOwners (p : pages PartialObject) (owners : gmap string PartialObject) : ownerList :=
  match p with
  | PError err => MkOwnerList ∅ (Some err)
  | PMore items _ rest => listOwners rest (add_owners owners items)
  | PLast items => MkOwnerList (add_owners owners items) None
  end.

Section walker.
Context `{KubernetesErrors} `{OwnerLibrary} `{API}.

Definition is_forbidden (err : option error) : bool :=
  match err with Some err => IsForbidden err | None => false end.

Definition called (c : call) (w : OwnerWalker) : OwnerWalker :=
  MkWalker (ow_lists w) (ow_named w) (ow_calls w ++ [c]).
Definition turn (w : OwnerWalker) : nat := length (ow_calls w).

Definition restMapping (ref : OwnerReference) (w : OwnerWalker) : result RESTMapping * OwnerWalker :=
  match ParseGroupVersion (own_APIVersion ref) with
  | Fail err => (Fail (Errorf "parse owner apiVersion %q: %w" [AStr (own_APIVersion ref)] [err]), w)
  | Ok (group, version) =>
      let gk := GK group (own_Kind ref) in
      let wrap := map_error (λ err, Errorf "discover %s: %w" [AStr (own_Kind ref)] [err]) in
      match API_RESTMapping (turn w) gk (Some version) with
      | Ok mapping => (Ok mapping, called (CMap gk (Some version)) w)
      | Fail err =>
          let w := called (CMap gk (Some version)) w in
          if IsNoMatchError err
          then (wrap (API_RESTMapping (turn w) gk None), called (CMap gk None) w)
          else (wrap (Fail err), w)
      end
  end.

Definition listed (key : listKey) (name : string) (w : OwnerWalker)
    : option PartialObject * option error * OwnerWalker :=
  let '(owners, w) :=
    match ow_lists w !! key with
    | Some owners => (owners, w)
    | None =>
        let owners := listOwners (API_List (turn w) key) ∅ in
        (owners, MkWalker (<[key := owners]> (ow_lists w)) (ow_named w) (ow_calls w ++ [CList key]))
    end in
  (ol_byName owners !! name, ol_err owners, w).

Definition named_answer (r : result PartialObject) : namedOwner :=
  match r with
  | Ok owner => MkNamedOwner (Some owner) None
  | Fail err => if IsNotFound err then MkNamedOwner None None else MkNamedOwner None (Some err)
  end.

Definition getNamed (key : namedKey) (w : OwnerWalker) : option PartialObject * option error * OwnerWalker :=
  let '(named, w) :=
    match ow_named w !! key with
    | Some named => (named, w)
    | None =>
        let named := named_answer (API_Get (turn w) key) in
        (named, MkWalker (ow_lists w) (<[key := named]> (ow_named w)) (ow_calls w ++ [CGet key]))
    end in
  (no_owner named, no_err named, w).

(** The last lines of [get]: the owner if it is the one referred to. *)
Definition same_owner (ref : OwnerReference) (owner : option PartialObject) (err : option error)
    : result (option PartialObject) :=
  match owner with
  | Some owner =>
      if bool_decide (po_UID owner = own_UID ref) then Ok (Some owner)
      else match err with Some err => Fail err | None => Ok None end
  | None => match err with Some err => Fail err | None => Ok None end
  end.

Definition get (ref : OwnerReference) (namespace : string) (w : OwnerWalker)
    : result (option PartialObject) * OwnerWalker :=
  match restMapping ref w with
  | (Fail err, w) => (Fail err, w)
  | (Ok mapping, w) =>
      let namespace := if mp_Namespaced mapping then namespace else "" in
      let key := MkListKey (mp_Resource mapping) namespace in
      let '(owner, err, w) := listed key (own_Name ref) w in
      if is_forbidden err then
        let listErr := err in
        let '(owner, err, w) := getNamed (key, own_Name ref) w in
        let err := if is_forbidden err then listErr else err in
        (same_owner ref owner err, w)
      else (same_owner ref owner err, w)
  end.

(** [links] is how many more owners may be read. *)
Fixpoint climb_loop (links : nat) (refs : list OwnerReference) (namespace : string)
    (match_ : list OwnerReference → bool) (w : OwnerWalker) : result bool * OwnerWalker :=
  if match_ refs then (Ok true, w)
  else
    match controllerRef refs with
    | None => (Ok false, w)
    | Some controller =>
        match links with
        | 0 => (Fail errChainTooLong, w)
        | S links =>
            match get controller namespace w with
            | (Fail err, w) => (Fail err, w)
            | (Ok None, w) => (Ok false, w)
            | (Ok (Some owner), w) => climb_loop links (po_OwnerReferences owner) namespace match_ w
            end
        end
    end.

Definition climb := climb_loop maxOwnerDepth.

(** What is read of the objects of a listing. *)
Record ListedObject := MkListed {
  lo_Name : string;
  lo_Namespace : string;
  lo_OwnerReferences : list OwnerReference;
}.

Definition covers (covered : GroupKind → bool) (refs : list OwnerReference) : bool :=
  match controllerRef refs with
  | None => false
  | Some controller =>
      let gvk := FromAPIVersionAndKind (own_APIVersion controller) (own_Kind controller) in
      covered (GK (gvk_Group gvk) (gvk_Kind gvk))
  end.

Definition TopLevel (obj : ListedObject) (covered : GroupKind → bool) (w : OwnerWalker)
    : bool * option error * OwnerWalker :=
  match climb (lo_OwnerReferences obj) (lo_Namespace obj) (covers covered) w with
  | (Ok nested, w) => (negb nested, None, w)
  | (Fail err, w) => (true, Some err, w)
  end.
End walker.

(** ** Failures by cause *)

Record WalkFailures := MkFailures { wf_causes : list string; wf_objects : gmap string (list string) }.

Definition no_failures : WalkFailures := MkFailures [] ∅.

Section failures.
Context (Error : error → string).

Definition Add (f : WalkFailures) (err : error) (object : string) : WalkFailures :=
  let cause := Error err in
  let causes :=
    match wf_objects f !! cause with Some _ => wf_causes f | None => wf_causes f ++ [cause] end in
  MkFailures causes (<[cause := default [] (wf_objects f !! cause) ++ [object]]> (wf_objects f)).

Definition Warnings {W} (f : WalkFailures) (warning : string → list string → W) : list W :=
  (λ cause, warning cause (default [] (wf_objects f !! cause))) <$> wf_causes f.
End failures.

(** ** The pods of a workload *)

Section pods.
Context `{KubernetesErrors} `{OwnerLibrary} `{API}.
Context (Error : error → string) {Unstructured Pod : Type}.
Context (listedOf : Unstructured → ListedObject) (FromUnstructured : Unstructured → result Pod).

Definition reaches (rootUID : UID) (refs : list OwnerReference) : bool :=
  existsb (λ ref, bool_decide (own_UID ref = rootUID)) refs.

Definition pod_warning (cause : string) (pods : list string) : error :=
  Errorf "could not tell whether %d pod(s) belong to this workload, so pod counts may be low: %s"
    [ANat (length pods); AStr cause] [].

Fixpoint filter_loop (pods : list Unstructured) (rootUID : UID) (matched : list Pod)
    (failures : WalkFailures) (w : OwnerWalker) : result (list Pod * WalkFailures) * OwnerWalker :=
  match pods with
  | [] => (Ok (matched, failures), w)
  | pod :: pods =>
      let obj := listedOf pod in
      match climb (lo_OwnerReferences obj) (lo_Namespace obj) (reaches rootUID) w with
      | (Fail err, w) => filter_loop pods rootUID matched (Add Error failures err (lo_Name obj)) w
      | (Ok false, w) => filter_loop pods rootUID matched failures w
      | (Ok true, w) =>
          match FromUnstructured pod with
          | Fail err => (Fail (Errorf "decode pod %s: %w" [AStr (lo_Name obj)] [err]), w)
          | Ok pod => filter_loop pods rootUID (matched ++ [pod]) failures w
          end
      end
  end.

Definition Filter (pods : list Unstructured) (rootUID : UID) (w : OwnerWalker)
    : result (list Pod * list error) * OwnerWalker :=
  match filter_loop pods rootUID [] no_failures w with
  | (Fail err, w) => (Fail err, w)
  | (Ok (matched, failures), w) => (Ok (matched, Warnings failures pod_warning), w)
  end.
End pods.

(** ** Owners without caches *)

Section owners.
Context `{KubernetesErrors} `{OwnerLibrary} `{API}.

(** The cluster does not change: every call has the answer it had first. *)
Record static : Prop := {
  static_mapping n : API_RESTMapping n = API_RESTMapping 0;
  static_list n : API_List n = API_List 0;
  static_get n : API_Get n = API_Get 0;
}.

(** The resource a reference is read from. *)
Definition mapping_of (ref : OwnerReference) : result RESTMapping :=
  (restMapping ref NewOwnerWalker).1.

Definition list_of (key : listKey) : ownerList := listOwners (API_List 0 key) ∅.
Definition named_of (key : namedKey) : namedOwner := named_answer (API_Get 0 key).

(** The owner a reference points to: from the list of its kind, or read by name
    when the list is forbidden; a denial is reported as that of the list. *)
Definition owner_of (ref : OwnerReference) (namespace : string) : result (option PartialObject) :=
  mapping ← mapping_of ref;
  let key := MkListKey (mp_Resource mapping) (if mp_Namespaced mapping then namespace else "") in
  let owners := list_of key in
  if is_forbidden (ol_err owners) then
    let named := named_of (key, own_Name ref) in
    same_owner ref (no_owner named)
      (if is_forbidden (no_err named) then ol_err owners else no_err named)
  else same_owner ref (ol_byName owners !! own_Name ref) (ol_err owners).

(** The owner references [n] links up; [None] when the chain is shorter. *)
Fixpoint level (n : nat) (refs : list OwnerReference) (namespace : string)
    : result (option (list OwnerReference)) :=
  match n with
  | 0 => Ok (Some refs)
  | S n =>
      match controllerRef refs with
      | None => Ok None
      | Some controller =>
          match owner_of controller namespace with
          | Fail err => Fail err
          | Ok None => Ok None
          | Ok (Some owner) => level n (po_OwnerReferences owner) namespace
          end
      end
  end.

(** What the caches hold is what the cluster answers. *)
Record coherent (w : OwnerWalker) : Prop := {
  coherent_lists : map_Forall (λ key owners, owners = list_of key) (ow_lists w);
  coherent_named : map_Forall (λ key named, named = named_of key) (ow_named w);
}.

Lemma NewOwnerWalker_coherent : coherent NewOwnerWalker.
Proof. split; apply map_Forall_empty. Qed.

Lemma restMapping_caches ref w :
  ow_lists (restMapping ref w).2 = ow_lists w ∧ ow_named (restMapping ref w).2 = ow_named w.
Proof.
  unfold restMapping. destruct (ParseGroupVersion _) as [[g v]|]; [|done].
  destruct (API_RESTMapping _ _ _); [done|]. by destruct (IsNoMatchError _).
Qed.

Context (Hstatic : static).

Lemma restMapping_static ref w : (restMapping ref w).1 = mapping_of ref.
Proof.
  unfold mapping_of, restMapping. destruct (ParseGroupVersion _) as [[g v]|]; [|done].
  rewrite !(static_mapping Hstatic (turn _)). destruct (API_RESTMapping 0 _ _); [done|].
  by destruct (IsNoMatchError _).
Qed.

Lemma listed_static key name w :
  coherent w →
  ∃ w', listed key name w = (ol_byName (list_of key) !! name, ol_err (list_of key), w') ∧ coherent w'.
Proof.
  intros [Hl Hn]. unfold listed. destruct (ow_lists w !! key) as [owners|] eqn:E.
  - rewrite (Hl _ _ E). by exists w.
  - rewrite (static_list Hstatic (turn w)). eexists. split; [reflexivity|].
    split; cbn; [by apply map_Forall_insert_2|done].
Qed.

Lemma getNamed_static key w :
  coherent w →
  ∃ w', getNamed key w = (no_owner (named_of key), no_err (named_of key), w') ∧ coherent w'.
Proof.
  intros [Hl Hn]. unfold getNamed. destruct (ow_named w !! key) as [named|] eqn:E.
  - rewrite (Hn _ _ E). by exists w.
  - rewrite (static_get Hstatic (turn w)). eexists. split; [reflexivity|].
    split; cbn; [done|by apply map_Forall_insert_2].
Qed.

Lemma get_static ref namespace w :
  coherent w → ∃ w', get ref namespace w = (owner_of ref namespace, w') ∧ coherent w'.
Proof.
  intros Hw. unfold get, owner_of. pose proof (restMapping_static ref w) as Hm.
  pose proof (restMapping_caches ref w) as [E1 E2].
  destruct (restMapping ref w) as [r w1]. cbn in Hm, E1, E2. subst r.
  assert (Hw1 : coherent w1) by (destruct Hw; split; by rewrite ?E1, ?E2).
  destruct (mapping_of ref) as [mapping|err]; cbn; [|by exists w1].
  destruct (listed_static (MkListKey (mp_Resource mapping)
    (if mp_Namespaced mapping then namespace else "")) (own_Name ref) w1 Hw1) as (w2 & -> & Hw2).
  destruct (is_forbidden _); [|by exists w2].
  destruct (getNamed_static (MkListKey (mp_Resource mapping)
    (if mp_Namespaced mapping then namespace else ""), own_Name ref) w2 Hw2) as (w3 & -> & Hw3).
  by exists w3.
Qed.

(** The walk without caches. *)
Fixpoint climb_pure (links : nat) (refs : list OwnerReference) (namespace : string)
    (match_ : list OwnerReference → bool) : result bool :=
  if match_ refs then Ok true
  else
    match controllerRef refs with
    | None => Ok false
    | Some controller =>
        match links with
        | 0 => Fail errChainTooLong
        | S links =>
            match owner_of controller namespace with
            | Fail err => Fail err
            | Ok None => Ok false
            | Ok (Some owner) => climb_pure links (po_OwnerReferences owner) namespace match_
            end
        end
    end.

Lemma climb_static links refs namespace match_ w :
  coherent w →
  ∃ w', climb_loop links refs namespace match_ w = (climb_pure links refs namespace match_, w') ∧ coherent w'.
Proof.
  revert refs w. induction links as [|links IH]; intros refs w Hw; cbn.
  - destruct (match_ refs); [by exists w|]. destruct (controllerRef refs); by exists w.
  - destruct (match_ refs); [by exists w|]. destruct (controllerRef refs) as [c|]; [|by exists w].
    destruct (get_static c namespace w Hw) as (w' & -> & Hw').
    destruct (owner_of c namespace) as [[owner|]|]; [by apply IH|by exists w'..].
Qed.

Lemma climb_pure_true links refs namespace match_ :
  climb_pure links refs namespace match_ = Ok true ↔
  ∃ n refs', n ≤ links ∧ level n refs namespace = Ok (Some refs') ∧ match_ refs' = true.
Proof.
  revert refs. induction links as [|links IH]; intros refs; cbn.
  - split.
    + destruct (match_ refs) eqn:E; [|by destruct (controllerRef refs)]. intros _. by exists 0, refs.
    + intros (n & refs' & Hn & Hl & Hm). assert (n = 0) as -> by lia. cbn in Hl. simplify_eq. by rewrite Hm.
  - destruct (match_ refs) eqn:E.
    { split; [|done]. intros _. exists 0, refs. split; [lia|done]. }
    destruct (controllerRef refs) as [c|] eqn:Ec.
    + destruct (owner_of c namespace) as [[owner|]|] eqn:Eo.
      * rewrite IH. split.
        -- intros (n & refs' & Hn & Hl & Hm). exists (S n), refs'. split; [lia|]. cbn. by rewrite Ec, Eo.
        -- intros ([|n] & refs' & Hn & Hl & Hm); cbn in Hl; [simplify_eq; congruence|]. rewrite Ec, Eo in Hl.
           exists n, refs'. split; [lia|done].
      * split; [done|]. intros ([|n] & refs' & Hn & Hl & Hm); cbn in Hl; [simplify_eq; congruence|].
        by rewrite Ec, Eo in Hl.
      * split; [done|]. intros ([|n] & refs' & Hn & Hl & Hm); cbn in Hl; [simplify_eq; congruence|].
        by rewrite Ec, Eo in Hl.
    + split; [done|]. intros ([|n] & refs' & Hn & Hl & Hm); cbn in Hl; [simplify_eq; congruence|]. by rewrite Ec in Hl.
Qed.

(** The chain ends [n] links up: no controller there, or one that is gone. *)
Definition ends (links n : nat) (refs : list OwnerReference) (namespace : string) : Prop :=
  ∃ refs', n ≤ links ∧ level n refs namespace = Ok (Some refs') ∧
    (controllerRef refs' = None ∨
     n < links ∧ ∃ c, controllerRef refs' = Some c ∧ owner_of c namespace = Ok None).

(** The walk says no only at the end of the chain, with every level seen. *)
Lemma climb_pure_false links refs namespace match_ :
  climb_pure links refs namespace match_ = Ok false ↔
  ∃ n, ends links n refs namespace ∧
    ∀ m refs', m ≤ n → level m refs namespace = Ok (Some refs') → match_ refs' = false.
Proof.
  revert refs. induction links as [|links IH]; intros refs; cbn [climb_pure].
  - split.
    + destruct (match_ refs) eqn:E; [done|]. destruct (controllerRef refs) as [c|] eqn:Ec; [done|].
      intros _. exists 0. split; [exists refs; auto|]. intros m refs' Hm Hl.
      assert (m = 0) as -> by lia. cbn in Hl. by simplify_eq.
    + intros (n & (refs' & Hn & Hl & Hend) & Hall). assert (n = 0) as -> by lia. cbn in Hl. simplify_eq.
      rewrite (Hall 0 refs') by done. destruct Hend as [->|[? _]]; [done|lia].
  - split.
    + destruct (match_ refs) eqn:E; [done|]. destruct (controllerRef refs) as [c|] eqn:Ec.
      * destruct (owner_of c namespace) as [[owner|]|] eqn:Eo; [|intros _|done].
        -- intros (n & (refs' & Hn & Hl & Hend) & Hall)%IH. exists (S n). split.
           ++ exists refs'. split; [lia|]. split; [cbn; by rewrite Ec, Eo|].
              destruct Hend as [?|[? ?]]; [by left|right; split; [lia|done]].
           ++ intros [|m] r Hm Hr; cbn in Hr; [by simplify_eq|]. rewrite Ec, Eo in Hr.
              apply (Hall m); [lia|done].
        -- exists 0. split.
           ++ exists refs. split; [lia|]. split; [done|]. right. split; [lia|]. by exists c.
           ++ intros m r Hm Hr. assert (m = 0) as -> by lia. cbn in Hr. by simplify_eq.
      * intros _. exists 0. split; [exists refs; split; [lia|auto]|]. intros m r Hm Hr.
        assert (m = 0) as -> by lia. cbn in Hr. by simplify_eq.
    + intros (n & (refs' & Hn & Hl & Hend) & Hall). rewrite (Hall 0 refs) by (lia || done).
      destruct (controllerRef refs) as [c|] eqn:Ec; [|done]. destruct n as [|n]; cbn in Hl.
      * simplify_eq. destruct Hend as [?|[_ (c' & ? & Eo)]]; [congruence|]. simplify_eq. by rewrite Eo.
      * rewrite Ec in Hl. destruct (owner_of c namespace) as [[owner|]|] eqn:Eo; [|done..].
        apply IH. exists n. split.
        -- exists refs'. split; [lia|]. split; [done|]. destruct Hend as [?|[? ?]]; [by left|right; split; [lia|done]].
        -- intros m r Hm Hr. apply (Hall (S m)); [lia|]. cbn. by rewrite Ec, Eo.
Qed.
End owners.

(** ** Reads *)

Section reads.
Context `{KubernetesErrors} `{OwnerLibrary} `{API}.

Definition list_calls (w : OwnerWalker) : list listKey :=
  omap (λ c, match c with CList key => Some key | _ => None end) (ow_calls w).
Definition get_calls (w : OwnerWalker) : list namedKey :=
  omap (λ c, match c with CGet key => Some key | _ => None end) (ow_calls w).

(** Every list and every owner was read at most once, and is cached. *)
Record once (w : OwnerWalker) : Prop := {
  once_lists : NoDup (list_calls w);
  once_cached : ∀ key, key ∈ list_calls w ↔ is_Some (ow_lists w !! key);
  once_gets : NoDup (get_calls w);
  once_named : ∀ key, key ∈ get_calls w ↔ is_Some (ow_named w !! key);
}.

(** [m] keeps [once] and makes at most [n] calls. *)
Definition reads (n : nat) (w w' : OwnerWalker) : Prop :=
  (once w → once w') ∧ length (ow_calls w') ≤ length (ow_calls w) + n.

Lemma reads_refl w : reads 0 w w.
Proof. split; [done|lia]. Qed.

Lemma reads_trans n m w1 w2 w3 : reads n w1 w2 → reads m w2 w3 → reads (n + m) w1 w3.
Proof. intros [R1 L1] [R2 L2]. split; [auto|lia]. Qed.

Lemma reads_le n m w w' : reads n w w' → n ≤ m → reads m w w'.
Proof. intros [R1 L1] ?. split; [done|lia]. Qed.

Lemma called_map_reads gk v w : reads 1 w (called (CMap gk v) w).
Proof.
  split; [|unfold called; cbn; rewrite length_app; cbn; lia].
  intros [R1 R2 R3 R4]. split; try intros k; unfold called, list_calls, get_calls in *;
    cbn [ow_calls ow_lists ow_named]; rewrite omap_app; cbn; rewrite app_nil_r; auto.
Qed.

Lemma restMapping_reads ref w : reads 2 w (restMapping ref w).2.
Proof.
  unfold restMapping. destruct (ParseGroupVersion _) as [[g v]|]; [|by eapply reads_le; [apply reads_refl|lia]].
  destruct (API_RESTMapping _ _ _); [by eapply reads_le; [apply called_map_reads|lia]|].
  destruct (IsNoMatchError _); cbn; [|by eapply reads_le; [apply called_map_reads|lia]].
  eapply (reads_trans 1 1); apply called_map_reads.
Qed.

Lemma snoc_fresh {A} (l : list A) x (P : A → Prop) :
  NoDup l → (∀ y, y ∈ l ↔ P y) → ¬ P x →
  NoDup (l ++ [x]) ∧ ∀ y, y ∈ l ++ [x] ↔ P y ∨ y = x.
Proof.
  intros Hnd Hl Hx. split.
  - apply NoDup_app. split; [done|]. split; [|apply NoDup_singleton].
    intros y Hy ->%list_elem_of_singleton. by apply Hx, Hl.
  - intros y. by rewrite elem_of_app, list_elem_of_singleton, Hl.
Qed.

Lemma is_Some_insert {K A} `{Countable K} (m : gmap K A) k v k' :
  is_Some (<[k := v]> m !! k') ↔ is_Some (m !! k') ∨ k' = k.
Proof.
  destruct (decide (k' = k)) as [->|Hne].
  - rewrite lookup_insert_eq. split; [by right|by eauto].
  - rewrite lookup_insert_ne by done. naive_solver.
Qed.

Lemma listed_reads key name w : reads 1 w (listed key name w).2.
Proof.
  unfold listed. destruct (ow_lists w !! key) as [owners|] eqn:E.
  - by eapply reads_le; [apply reads_refl|lia].
  - split; [|cbn; rewrite length_app; cbn; lia]. intros [R1 R2 R3 R4].
    destruct (snoc_fresh _ key _ R1 R2) as [Hnd Hin]; [rewrite E; by intros []|].
    split; try intros k; unfold list_calls, get_calls in *;
      cbn [ow_calls ow_lists ow_named snd]; rewrite omap_app; cbn.
    + done.
    + by rewrite Hin, is_Some_insert.
    + by rewrite app_nil_r.
    + by rewrite app_nil_r.
Qed.

Lemma getNamed_reads key w : reads 1 w (getNamed key w).2.
Proof.
  unfold getNamed. destruct (ow_named w !! key) as [named|] eqn:E.
  - by eapply reads_le; [apply reads_refl|lia].
  - split; [|cbn; rewrite length_app; cbn; lia]. intros [R1 R2 R3 R4].
    destruct (snoc_fresh _ key _ R3 R4) as [Hnd Hin]; [rewrite E; by intros []|].
    split; try intros k; unfold list_calls, get_calls in *;
      cbn [ow_calls ow_lists ow_named snd]; rewrite omap_app; cbn.
    + by rewrite app_nil_r.
    + by rewrite app_nil_r.
    + done.
    + by rewrite Hin, is_Some_insert.
Qed.

Lemma get_reads ref namespace w : reads 4 w (get ref namespace w).2.
Proof.
  unfold get. pose proof (restMapping_reads ref w) as Hr1.
  destruct (restMapping ref w) as [[mapping|] w1]; cbn in Hr1; [|by eapply reads_le; [exact Hr1|lia]].
  pose proof (listed_reads (MkListKey (mp_Resource mapping)
    (if mp_Namespaced mapping then namespace else "")) (own_Name ref) w1) as Hr2.
  destruct (listed _ _ w1) as [[owner err] w2]. cbn in Hr2.
  pose proof (reads_trans _ _ _ _ _ Hr1 Hr2) as Hr12. cbv zeta.
  destruct (is_forbidden err); [|by eapply reads_le; [exact Hr12|lia]].
  pose proof (getNamed_reads (MkListKey (mp_Resource mapping)
    (if mp_Namespaced mapping then namespace else ""), own_Name ref) w2) as Hr3.
  destruct (getNamed _ w2) as [[owner' err'] w3]. cbn in *.
  by apply (reads_trans _ _ _ _ _ Hr12 Hr3).
Qed.

Lemma climb_loop_reads links refs namespace match_ w :
  reads (4 * links) w (climb_loop links refs namespace match_ w).2.
Proof.
  revert refs w. induction links as [|links IH]; intros refs w; cbn [climb_loop].
  - destruct (match_ refs); [apply reads_refl|]. destruct (controllerRef refs); apply reads_refl.
  - destruct (match_ refs); [by eapply reads_le; [apply reads_refl|lia]|].
    destruct (controllerRef refs) as [c|]; [|by eapply reads_le; [apply reads_refl|lia]].
    pose proof (get_reads c namespace w) as Hg.
    destruct (get c namespace w) as [[[owner|]|] w1]; cbn in Hg; [|by eapply reads_le; [exact Hg|lia]..].
    eapply reads_le; [by eapply reads_trans; [exact Hg|apply IH]|lia].
Qed.

Lemma filter_loop_reads {Unstructured Pod} Error (listedOf : Unstructured → ListedObject)
    (FromUnstructured : Unstructured → result Pod) pods rootUID matched failures w :
  reads (4 * maxOwnerDepth * length pods) w
    (filter_loop Error listedOf FromUnstructured pods rootUID matched failures w).2.
Proof.
  revert matched failures w. induction pods as [|pod pods IH]; intros matched failures w; cbn [filter_loop].
  { by eapply reads_le; [apply reads_refl|lia]. }
  pose proof (climb_loop_reads maxOwnerDepth (lo_OwnerReferences (listedOf pod))
    (lo_Namespace (listedOf pod)) (reaches rootUID) w) as Hc. unfold climb.
  destruct (climb_loop _ _ _ _ w) as [[[]|] w1]; cbn [snd] in Hc; cbn [length].
  - destruct (FromUnstructured pod) as [p|].
    + eapply reads_le; [eapply reads_trans; [exact Hc|apply IH]|lia].
    + by eapply reads_le; [exact Hc|cbn; lia].
  - eapply reads_le; [eapply reads_trans; [exact Hc|apply IH]|lia].
  - eapply reads_le; [eapply reads_trans; [exact Hc|apply IH]|lia].
Qed.
End reads.

(** ** Groups of failures *)

(** The objects recorded under each cause, causes and objects in the order they
    were met. *)
Record grouped (Error : error → string) (f : WalkFailures) (l : list (error * string)) : Prop := {
  grouped_causes : NoDup (wf_causes f);
  grouped_elem cause : cause ∈ wf_causes f ↔ ∃ err object, (err, object) ∈ l ∧ Error err = cause;
  grouped_objects cause :
    default [] (wf_objects f !! cause) = (filter (λ p, Error p.1 = cause) l).*2;
  grouped_dom cause : is_Some (wf_objects f !! cause) ↔ cause ∈ wf_causes f;
}.

Lemma no_failures_grouped Error : grouped Error no_failures [].
Proof.
  split; cbn; [constructor|set_solver|done|]. intros cause. rewrite lookup_empty. split; [by intros []|set_solver].
Qed.

Lemma Add_grouped Error f l err object :
  grouped Error f l → grouped Error (Add Error f err object) (l ++ [(err, object)]).
Proof.
  intros [Hnd Hin Hobj Hdom]. unfold Add. set (cause := Error err).
  assert (Hcauses : ∀ c, c ∈ (match wf_objects f !! cause with
    Some _ => wf_causes f | None => wf_causes f ++ [cause] end) ↔ c ∈ wf_causes f ∨ c = cause).
  { intros c. destruct (wf_objects f !! cause) eqn:E; [|set_solver].
    assert (cause ∈ wf_causes f) by (apply Hdom; by rewrite E). naive_solver. }
  split; cbn [wf_causes wf_objects].
  - destruct (wf_objects f !! cause) eqn:E; [done|]. apply NoDup_app.
    split; [done|]. split; [|apply NoDup_singleton].
    intros c Hc ->%list_elem_of_singleton. apply Hdom in Hc. rewrite E in Hc. by destruct Hc.
  - intros c. rewrite Hcauses, Hin. set_solver.
  - intros c. rewrite filter_app, fmap_app, <- Hobj. destruct (decide (c = cause)) as [->|Hne].
    + rewrite lookup_insert_eq, filter_cons_True by done. done.
    + rewrite lookup_insert_ne by done. rewrite filter_cons_False by (cbn; fold cause; congruence). by rewrite app_nil_r.
  - intros c. by rewrite is_Some_insert, Hcauses, Hdom.
Qed.

Lemma Add_counts Error f l :
  grouped Error f l → sum_list (length <$> Warnings f (λ _ objects, objects)) = length l.
Proof.
  intros [Hnd Hin Hobj _]. unfold Warnings. rewrite <- list_fmap_compose.
  rewrite (list_fmap_ext _ (λ c, length (filter (λ p, Error p.1 = c) l)))
    by (intros i c _; cbn; by rewrite Hobj, length_fmap).
  revert Hin. generalize (wf_causes f), Hnd. clear. intros causes Hnd.
  revert l. induction Hnd as [|c causes Hni Hnd IH]; intros l Hin.
  - destruct l as [|[err object] l]; [done|]. destruct (Hin (Error err)) as [_ He].
    exfalso. eapply not_elem_of_nil, He. exists err, object. split; [by left|done].
  - cbn. specialize (IH (filter (λ p, Error p.1 ≠ c) l)).
    assert (Hsplit : length l = length (filter (λ p, Error p.1 = c) l) + length (filter (λ p, Error p.1 ≠ c) l)).
    { clear. induction l as [|p l IH]; [done|]. rewrite !filter_cons.
      destruct (decide (Error p.1 = c)), (decide (Error p.1 ≠ c)); cbn; try lia; tauto. }
    rewrite Hsplit, <- IH.
    + f_equal. f_equal. apply list_fmap_ext. intros i c' Hc'. f_equal.
      apply list_elem_of_lookup_2 in Hc'. rewrite list_filter_filter. apply list_filter_iff.
      intros p. assert (c' ≠ c) by (by intros ->). split; [|tauto]. intros <-. tauto.
    + intros c'. destruct (decide (c' = c)) as [->|Hne].
      * split; [done|]. intros (err & object & [Hc _]%list_elem_of_filter & ?). done.
      * specialize (Hin c'). rewrite elem_of_cons in Hin. split.
        -- intros Hc'. destruct (proj1 Hin) as (err & object & Hl & He); [by right|].
           exists err, object. split; [|done]. apply list_elem_of_filter. split; [cbn; congruence|done].
        -- intros (err & object & [_ Hl]%list_elem_of_filter & He).
           destruct (proj2 Hin) as [?|?]; [by eauto|done|done].
Qed.

(** ** Properties *)

Section properties.
Context `{KubernetesErrors} `{OwnerLibrary} `{API}.

(** C17: over a cluster that does not change, and whatever the caches hold of
    it, an object is nested exactly when a controller at most six links up is of
    a covered kind, it is at the top exactly when its chain ends within six links
    with none, and otherwise the walk fails. *)
Theorem TopLevel_exact obj covered w (Hstatic : static) (Hw : coherent w) :
  let '(top, err, w') := TopLevel obj covered w in
  let up n := level n (lo_OwnerReferences obj) (lo_Namespace obj) in
  coherent w' ∧
  (top = false ↔ ∃ n refs, n ≤ maxOwnerDepth ∧ up n = Ok (Some refs) ∧ covers covered refs = true) ∧
  (top = true ∧ err = None ↔
   ∃ n, ends maxOwnerDepth n (lo_OwnerReferences obj) (lo_Namespace obj) ∧
     ∀ m refs, m ≤ n → up m = Ok (Some refs) → covers covered refs = false) ∧
  (top = false → err = None).
Proof.
  unfold TopLevel, climb.
  destruct (climb_static Hstatic maxOwnerDepth (lo_OwnerReferences obj) (lo_Namespace obj)
              (covers covered) w Hw) as (w' & -> & Hw').
  pose proof (climb_pure_true maxOwnerDepth (lo_OwnerReferences obj) (lo_Namespace obj) (covers covered)) as Ht.
  pose proof (climb_pure_false maxOwnerDepth (lo_OwnerReferences obj) (lo_Namespace obj) (covers covered)) as Hf.
  destruct (climb_pure _ _ _ _) as [[]|err]; cbn [negb]; (split; [done|]);
    rewrite <- Ht, <- Hf; naive_solver.
Qed.

(** A walker never lists a kind in a namespace twice and never reads an
    owner by name twice, however the cluster changes under it, and each walk
    makes at most twenty-four calls. *)
Theorem walker_reads_once (walks : list (list OwnerReference * string * (list OwnerReference → bool))) :
  let w := foldl (λ w '(refs, namespace, match_), (climb refs namespace match_ w).2) NewOwnerWalker walks in
  NoDup (list_calls w) ∧ NoDup (get_calls w) ∧ length (ow_calls w) ≤ 24 * length walks.
Proof.
  cbv zeta. set (w := foldl _ _ _).
  assert (Hr : reads (24 * length walks) NewOwnerWalker w).
  { subst w. generalize NewOwnerWalker. induction walks as [|[[refs ns] m] walks IH]; intros w; cbn [foldl length].
    - by eapply reads_le; [apply reads_refl|lia].
    - eapply reads_le; [eapply reads_trans; [apply (climb_loop_reads maxOwnerDepth refs ns m)|apply IH]|].
      unfold maxOwnerDepth. lia. }
  destruct Hr as [Honce Hlen]. destruct Honce as [H1' _ H2' _].
  { split; cbn; try constructor; try (by intros ?%not_elem_of_nil); by intros []. }
  split; [done|]. split; [done|]. exact Hlen.
Qed.

Context (Error : error → string) {Unstructured Pod : Type}.
Context (listedOf : Unstructured → ListedObject) (FromUnstructured : Unstructured → result Pod).

(** The verdict on a pod, without caches. *)
Definition verdict (rootUID : UID) (pod : Unstructured) : result bool :=
  climb_pure maxOwnerDepth (lo_OwnerReferences (listedOf pod)) (lo_Namespace (listedOf pod)) (reaches rootUID).

Definition owned_pods (rootUID : UID) (pods : list Unstructured) : list Unstructured :=
  filter (λ pod, is_ok (verdict rootUID pod) && match verdict rootUID pod with Ok b => b | Fail _ => false end) pods.

Definition lost_pods (rootUID : UID) (pods : list Unstructured) : list (error * string) :=
  omap (λ pod, match verdict rootUID pod with
               | Fail err => Some (err, lo_Name (listedOf pod))
               | Ok _ => None
               end) pods.

Definition decode_pod (pod : Unstructured) : result Pod :=
  map_error (λ err, Errorf "decode pod %s: %w" [AStr (lo_Name (listedOf pod))] [err]) (FromUnstructured pod).

Lemma filter_loop_static pods rootUID matched failures l w :
  static → coherent w → grouped Error failures l →
  ∃ failures', grouped Error failures' (l ++ lost_pods rootUID pods) ∧
    (filter_loop Error listedOf FromUnstructured pods rootUID matched failures w).1 =
    (decoded ← mapR decode_pod (owned_pods rootUID pods); Ok (matched ++ decoded, failures')).
Proof.
  intros Hstatic. revert matched failures l w. induction pods as [|pod pods IH]; intros matched failures l w Hw Hf.
  { exists failures. cbn. by rewrite !app_nil_r. }
  cbn [filter_loop]. unfold climb.
  destruct (climb_static Hstatic maxOwnerDepth (lo_OwnerReferences (listedOf pod)) (lo_Namespace (listedOf pod))
              (reaches rootUID) w Hw) as (w' & -> & Hw').
  unfold lost_pods, owned_pods. cbn [omap list_omap]. rewrite filter_cons. fold (verdict rootUID pod).
  destruct (verdict rootUID pod) as [[]|err]; cbn [is_ok andb].
  - rewrite decide_True by done. cbn [mapR]. unfold decode_pod at 1.
    destruct (FromUnstructured pod) as [p|err]; cbn [map_error].
    + destruct (IH (matched ++ [p]) failures l w' Hw' Hf) as (f' & Hf' & ->). exists f'. split; [done|].
      fold (owned_pods rootUID pods). destruct (mapR decode_pod (owned_pods rootUID pods)); [|done].
      cbn. by rewrite <- (assoc_L (++)).
    + destruct (IH matched failures l w' Hw' Hf) as (f' & Hf' & _). by exists f'.
  - rewrite decide_False by (by intros []). by apply (IH matched failures l).
  - rewrite decide_False by (by intros []).
    destruct (IH matched (Add Error failures err (lo_Name (listedOf pod))) (l ++ [(err, lo_Name (listedOf pod))]) w')
      as (f' & Hf' & E); [done|by apply Add_grouped|].
    exists f'. split; [|exact E]. by rewrite <- (assoc_L (++)) in Hf'.
Qed.

Lemma filter_owned pods rootUID w (Hstatic : static) (Hw : coherent w) :
  ∃ failures,
    grouped Error failures (lost_pods rootUID pods) ∧
    sum_list (length <$> Warnings failures (λ _ objects, objects)) = length (lost_pods rootUID pods) ∧
    (Filter Error listedOf FromUnstructured pods rootUID w).1 =
    (decoded ← mapR decode_pod (owned_pods rootUID pods); Ok (decoded, Warnings failures pod_warning)).
Proof.
  destruct (filter_loop_static pods rootUID [] no_failures [] w Hstatic Hw (no_failures_grouped Error))
    as (f & Hf & E). cbn [app] in Hf.
  exists f. split; [done|]. split; [by apply (Add_counts Error)|].
  unfold Filter. destruct (filter_loop _ _ _ _ _ _ _ w) as [r w']. cbn [fst] in E. subst r.
  destruct (mapR decode_pod _); done.
Qed.

(** Over a cluster that does not change, the pods attributed to a root are
    those whose chain reaches it, decoded in order (an undecodable one is the only
    failure), and there is one warning for each cause met, which counts the pods
    lost to it: together all pods whose chain could not be walked. *)
Theorem Filter_attributes pods rootUID w (Hstatic : static) (Hw : coherent w) :
  ∃ failures,
    grouped Error failures (lost_pods rootUID pods) ∧
    sum_list (length <$> Warnings failures (λ _ objects, objects)) = length (lost_pods rootUID pods) ∧
    (Filter Error listedOf FromUnstructured pods rootUID w).1 =
    (decoded ← mapR decode_pod (owned_pods rootUID pods); Ok (decoded, Warnings failures pod_warning)).
Proof. by apply filter_owned. Qed.
End properties.

(** ** A concrete cluster

    A pod of a replica set of a deployment; replica sets may be read by name but
    not listed, and a second pod's owner is of a kind nobody serves. *)

Definition is_external (tag : string) (e : error) : bool :=
  match e with External t => bool_decide (t = tag) | _ => false end.

#[local] Instance sample_errors : KubernetesErrors := {
  ParseGroupVersion s :=
    if bool_decide (s = "apps/v1") then Ok ("apps", "v1") else Fail (External "bad version");
  IsForbidden e := is_external "forbidden" e;
  IsUnauthorized e := false;
  IsNotFound e := is_external "not found" e;
}.

#[local] Instance sample_library : OwnerLibrary := {
  FromAPIVersionAndKind version kind := GVK (if bool_decide (version = "apps/v1") then "apps" else "") "v1" kind;
  IsNoMatchError e := is_external "no match" e;
}.

Definition ref_to (kind name uid : string) : OwnerReference :=
  MkOwnerReference (Some true) "apps/v1" kind name uid.

#[local] Instance sample_api : API := {
  API_RESTMapping _ gk _ :=
    if bool_decide (gk_Kind gk = "ReplicaSet") then Ok (MkMapping (GVR "apps" "v1" "replicasets") true)
    else if bool_decide (gk_Kind gk = "Deployment") then Ok (MkMapping (GVR "apps" "v1" "deployments") true)
    else Fail (External "no match");
  API_List _ key :=
    if bool_decide (gvr_Resource (lk_resource key) = "deployments")
    then PMore [] "next" (PLast [MkPartial "d" "uid-d" []])
    else PError (External "forbidden");
  API_Get _ key := Ok (MkPartial key.2 "uid-rs" [ref_to "Deployment" "d" "uid-d"]);
}.

Definition sample_object : ListedObject := MkListed "p" "ns" [ref_to "ReplicaSet" "rs" "uid-rs"].
Definition lost_object : ListedObject := MkListed "q" "ns" [ref_to "Mystery" "m" "uid-m"].
Definition is_deployment (gk : GroupKind) : bool := bool_decide (gk = GK "apps" "Deployment").

Lemma sample_static : static.
Proof. by split. Qed.

Lemma TopLevel_exact_witness :
  static ∧ coherent NewOwnerWalker ∧ (TopLevel sample_object is_deployment NewOwnerWalker).1 = (false, None) ∧
  ∃ n refs, n ≤ maxOwnerDepth ∧ level n (lo_OwnerReferences sample_object) "ns" = Ok (Some refs) ∧
            covers is_deployment refs = true.
Proof.
  split; [exact sample_static|]. split; [exact NewOwnerWalker_coherent|]. split; [vm_compute; reflexivity|].
  pose proof (TopLevel_exact sample_object is_deployment NewOwnerWalker sample_static NewOwnerWalker_coherent) as Ht.
  destruct (TopLevel sample_object is_deployment NewOwnerWalker) as [[top err] w'] eqn:E.
  assert (top = false) as -> by (vm_compute in E; by injection E).
  by apply (proj1 (proj1 (proj2 Ht))).
Defined.

Lemma Filter_attributes_witness :
  static ∧ coherent NewOwnerWalker ∧
  ∃ failures,
    (Filter (λ _, "no match") id (λ o, Ok (lo_Name o)) [sample_object; lost_object] "uid-d" NewOwnerWalker).1 =
      Ok (["p"], Warnings failures pod_warning) ∧
    sum_list (length <$> Warnings failures (λ _ objects, objects)) = 1.
Proof.
  split; [exact sample_static|]. split; [exact NewOwnerWalker_coherent|].
  destruct (Filter_attributes (λ _, "no match") id (λ o, Ok (lo_Name o)) [sample_object; lost_object] "uid-d"
              NewOwnerWalker sample_static NewOwnerWalker_coherent) as (f & _ & Hsum & E).
  exists f. split.
  - rewrite E. vm_compute. reflexivity.
  - rewrite Hsum. vm_compute. reflexivity.
Defined.

(** The denied list is not asked for again. *)
Example sample_reads :
  let w := (Filter (λ _, "no match") id (λ o, Ok (lo_Name o)) [sample_object; sample_object] "uid-d" NewOwnerWalker).2 in
  length (list_calls w) = 1 ∧ length (get_calls w) = 1.
Proof. by vm_compute. Qed.
