(* ===== verification/CliDescribe.v ===== *)
(** * CliDescribe: a workload as the command line tool describes it

    Models [cli/pkg/workload/view.go] and [describe.go]: the view of a workload,
    its components with their desired and live replicas, their pods and the
    resources they request.  What is read of the Kubernetes structs and the
    values of quantities are parameters, as is the querier made of a pod.  An
    [int32] and an [int64] sum wrap around; pods are sorted by name with no
    promise about equal names. *)

From S2P Require Import Prelude Api JqValidate Validator Value Runner Accessor Component PodQuerier Sort Summary Gang Tree CliDefinitions.

(** The value an [int64] expression takes. *)
Definition wrap_int64 (z : Z) : Z := ((z + 2 ^ 63) mod 2 ^ 64 - 2 ^ 63)%Z.

Definition gpuResourceName : string := "nvidia.com/gpu".
Definition ResourceCPU : string := "cpu".
Definition ResourceMemory : string := "memory".
Definition RestartPolicyAlways : string := "Always".

(** ** Resources *)

Record Resources := MkResources { rs_GPUs : Z; rs_CPUMillis : Z; rs_MemoryBytes : Z }.

Definition no_resources : Resources := MkResources 0 0 0.

#[export] Instance Resources_eq_dec : EqDecision Resources.
Proof. solve_decision. Defined.

Definition add (r other : Resources) : Resources :=
  MkResources (wrap_int64 (rs_GPUs r + rs_GPUs other))
    (wrap_int64 (rs_CPUMillis r + rs_CPUMillis other))
    (wrap_int64 (rs_MemoryBytes r + rs_MemoryBytes other)).

Definition resources_isEmpty (r : Resources) : bool := bool_decide (r = no_resources).

Definition scaled (r : Resources) (replicas : Z) : Resources :=
  MkResources (wrap_int64 (rs_GPUs r * replicas)) (wrap_int64 (rs_CPUMillis r * replicas))
    (wrap_int64 (rs_MemoryBytes r * replicas)).

Definition max_resources (a b : Resources) : Resources :=
  MkResources (Z.max (rs_GPUs a) (rs_GPUs b)) (Z.max (rs_CPUMillis a) (rs_CPUMillis b))
    (Z.max (rs_MemoryBytes a) (rs_MemoryBytes b)).

Record Replicas := MkReplicas { rp_Desired : Z; rp_Current : Z; rp_Ready : Z }.
Definition no_replicas : Replicas := MkReplicas 0 0 0.
#[export] Instance Replicas_eq_dec : EqDecision Replicas.
Proof. solve_decision. Defined.
Definition replicas_isEmpty (r : Replicas) : bool := bool_decide (r = no_replicas).

(** What the code reads of the structs of Kubernetes. *)
Class PodFields `{K8s} := {
  Quantity : Type;
  MilliValue : Quantity → Z;
  QuantityValue : Quantity → Z;
  rr_Requests : ResourceRequirements → gmap string Quantity;
  rr_Limits : ResourceRequirements → gmap string Quantity;
  ct_Resources : Container → ResourceRequirements;
  ct_RestartPolicy : Container → option string;
  pod_Containers : PodSpec → list Container;
  pod_InitContainers : PodSpec → list Container;
  pod_Resources : PodSpec → option ResourceRequirements;
  pod_Overhead : PodSpec → gmap string Quantity;
  pod_NodeName : PodSpec → string;
  template_Spec : PodTemplateSpec → PodSpec;
}.

Section requests.
Context `{PodFields}.

(** The requests and limits of a [ResourceRequirements]. *)
Definition requirements : Type := gmap string Quantity * gmap string Quantity.
Definition requirements_of (r : ResourceRequirements) : requirements := (rr_Requests r, rr_Limits r).

Definition quantityOf (r : requirements) (name : string) : option Z :=
  quantity ← (match r.1 !! name with Some q => Some q | None => r.2 !! name end);
  Some (if bool_decide (name = ResourceCPU) then MilliValue quantity else QuantityValue quantity).

Definition requirementsOf (r : requirements) : Resources :=
  MkResources (default 0%Z (quantityOf r gpuResourceName)) (default 0%Z (quantityOf r ResourceCPU))
    (default 0%Z (quantityOf r ResourceMemory)).

Definition container_request (c : Container) : Resources := requirementsOf (requirements_of (ct_Resources c)).

Definition sumContainers (containers : list Container) : Resources :=
  foldl (λ total c, add total (container_request c)) no_resources containers.

Definition isSidecar (c : Container) : bool := bool_decide (ct_RestartPolicy c = Some RestartPolicyAlways).

(** One turn of the loop over the init containers: what runs, and the largest
    that runs to its end. *)
Definition init_step (acc : Resources * Resources) (c : Container) : Resources * Resources :=
  let '(running, largestInit) := acc in
  let request := container_request c in
  if isSidecar c then (add running request, largestInit)
  else (running, max_resources largestInit request).

Definition podRequest (spec : PodSpec) : Resources :=
  let '(running, largestInit) :=
    foldl init_step (sumContainers (pod_Containers spec), no_resources) (pod_InitContainers spec) in
  let total := max_resources largestInit running in
  let total :=
    match pod_Resources spec with
    | None => total
    | Some r =>
        let r := requirements_of r in
        MkResources (rs_GPUs total) (default (rs_CPUMillis total) (quantityOf r ResourceCPU))
          (default (rs_MemoryBytes total) (quantityOf r ResourceMemory))
    end in
  add total (requirementsOf (pod_Overhead spec, ∅)).

Definition fragmentedRequest (spec : FragmentedPodSpec) : Resources :=
  let total := sumContainers (default [] (fps_Containers spec)) in
  let total := match fps_Container spec with
               | Some c => add total (sumContainers [c])
               | None => total
               end in
  match fps_Resources spec with
  | Some r => if resources_isEmpty total then requirementsOf (requirements_of r) else total
  | None => total
  end.

Definition requestOf (instance : ExtractedInstance) : Resources :=
  match ei_PodTemplateSpec instance, ei_PodSpec instance, ei_FragmentedPodSpec instance with
  | Some t, _, _ => podRequest (template_Spec t)
  | None, Some s, _ => podRequest s
  | None, None, Some f => fragmentedRequest f
  | None, None, None => no_resources
  end.

Definition replicasOf (scale : option Scale) : Z :=
  match scale with
  | None => 1
  | Some s =>
      match scale_Replicas s, scale_MinReplicas s with
      | Some n, _ => n
      | None, Some n => n
      | None, None => 1
      end
  end.
End requests.

(** ** Pods *)

Record PodCondition := MkPodCondition { pc_Type : string; pc_Status : string; pc_Reason : string }.
Record PodStatus := MkPodStatus { pst_Phase : string; pst_Reason : string; pst_Conditions : list PodCondition }.

Definition PodScheduled : string := "PodScheduled".
Definition PodReady : string := "Ready".
Definition StatusTrue : string := "True".
Definition StatusFalse : string := "False".

(** What is read of a pod, and the querier made of it. *)
Class PodView_ `{K8s} (P R : Type) := {
  p_Name : P → string;
  p_Spec : P → PodSpec;
  p_Status : P → PodStatus;
  NewPodQuerier : P → R;
}.

Record PodView := MkPodView {
  pv_Name : string;
  pv_Phase : string;
  pv_Ready : bool;
  pv_Node : option string;
  pv_Reason : string;
  pv_Resources : Resources;
}.

Inductive ComponentView :=
  MkComponentView (cv_Name cv_Kind : string) (cv_Replicas : Replicas) (cv_Resources : Resources)
    (cv_Nodes : list string) (cv_Pods : list PodView) (cv_Children : list ComponentView).

Definition cv_Name '(MkComponentView n _ _ _ _ _ _) := n.
Definition cv_Kind '(MkComponentView _ k _ _ _ _ _) := k.
Definition cv_Replicas '(MkComponentView _ _ r _ _ _ _) := r.
Definition cv_Resources '(MkComponentView _ _ _ r _ _ _) := r.
Definition cv_Nodes '(MkComponentView _ _ _ _ l _ _) := l.
Definition cv_Pods '(MkComponentView _ _ _ _ _ l _) := l.
Definition cv_Children '(MkComponentView _ _ _ _ _ _ l) := l.

Definition new_component (name kind : string) : ComponentView :=
  MkComponentView name kind no_replicas no_resources [] [] [].

Definition with_children (c : ComponentView) (l : list ComponentView) : ComponentView :=
  MkComponentView (cv_Name c) (cv_Kind c) (cv_Replicas c) (cv_Resources c) (cv_Nodes c) (cv_Pods c) l.
Definition with_desired (c : ComponentView) (n : Z) : ComponentView :=
  MkComponentView (cv_Name c) (cv_Kind c)
    (MkReplicas n (rp_Current (cv_Replicas c)) (rp_Ready (cv_Replicas c)))
    (cv_Resources c) (cv_Nodes c) (cv_Pods c) (cv_Children c).
Definition with_resources (c : ComponentView) (r : Resources) : ComponentView :=
  MkComponentView (cv_Name c) (cv_Kind c) (cv_Replicas c) r (cv_Nodes c) (cv_Pods c) (cv_Children c).
Definition with_nodes (c : ComponentView) (l : list string) : ComponentView :=
  MkComponentView (cv_Name c) (cv_Kind c) (cv_Replicas c) (cv_Resources c) l (cv_Pods c) (cv_Children c).

Definition component_isEmpty (c : ComponentView) : bool :=
  bool_decide (length (cv_Pods c) = 0) && bool_decide (length (cv_Children c) = 0) &&
  replicas_isEmpty (cv_Replicas c) && resources_isEmpty (cv_Resources c).

Definition appendComponent (components : list ComponentView) (component : ComponentView)
    (podBearing : bool) : list ComponentView :=
  if negb podBearing && component_isEmpty component then components else components ++ [component].

(** [slices.Compact]: of equal neighbours the first stays. *)
Fixpoint compact (l : list string) : list string :=
  match l with
  | x :: (y :: _) as l' => if bool_decide (x = y) then compact l' else x :: compact l'
  | _ => l
  end.

Definition mergeNodes (existing add : list string) : list string := compact (sort_Strings (existing ++ add)).

Definition aggregate (c child : ComponentView) : ComponentView :=
  MkComponentView (cv_Name c) (cv_Kind c)
    (MkReplicas (wrap32 (rp_Desired (cv_Replicas c) + rp_Desired (cv_Replicas child)))
       (wrap32 (rp_Current (cv_Replicas c) + rp_Current (cv_Replicas child)))
       (wrap32 (rp_Ready (cv_Replicas c) + rp_Ready (cv_Replicas child))))
    (add (cv_Resources c) (cv_Resources child)) (mergeNodes (cv_Nodes c) (cv_Nodes child))
    (cv_Pods c) (cv_Children c).

Definition condition_is (type status : string) (c : PodCondition) : bool :=
  bool_decide (pc_Type c = type) && bool_decide (pc_Status c = status).

Definition podReason (status : PodStatus) : string :=
  match list_find (λ c, condition_is PodScheduled StatusFalse c) (pst_Conditions status) with
  | Some (_, condition) => pc_Reason condition
  | None =>
      if bool_decide (pst_Reason status ≠ "") then pst_Reason status
      else match list_find (λ c, condition_is PodReady StatusFalse c) (pst_Conditions status) with
           | Some (_, condition) => pc_Reason condition
           | None => ""
           end
  end.

Definition isPodReady (status : PodStatus) : bool :=
  match list_find (λ c, pc_Type c = PodReady) (pst_Conditions status) with
  | Some (_, condition) => bool_decide (pc_Status condition = StatusTrue)
  | None => false
  end.

Definition pod_less (a b : PodView) : bool := string_lt (pv_Name a) (pv_Name b).

Definition isMultiInstance `{K8s} (instances : list InstanceNode) : bool :=
  existsb (λ '(MkInstanceNode key replica _ _ _), bool_decide (is_Some key) || bool_decide (is_Some replica))
    instances.

(** [fmt.Sprintf("%s[%s]", ...)] *)
Definition instanceLabel `{K8s} (componentName : string) (instance : InstanceNode) : string :=
  match instance with
  | MkInstanceNode (Some key) _ _ _ _ => key
  | MkInstanceNode None (Some replica) _ _ _ => componentName +:+ "[" +:+ replica +:+ "]"
  | MkInstanceNode None None _ _ _ => componentName
  end.

Definition kindOf (gvk : option GroupVersionKind) : string :=
  match gvk with None => "" | Some gvk => gvk_Kind gvk end.

Definition component_defs := gmap string ComponentDefinition.

Definition indexComponentDefs (k : Karta) : component_defs :=
  foldl (λ defs child, <[cd_Name child := child]> defs)
    {[cd_Name (RootComponent k) := RootComponent k]} (ChildComponents k).

Definition isSolePodOwner (defs : component_defs) : bool :=
  bool_decide (length (filter (λ kv, is_Some (cd_SpecDefinition kv.2)) (map_to_list defs)) = 1).

Section describe.
Context `{GoSort} `{PodFields} {P R : Type} `{!PodView_ P R} `{!Runner R}.
Context (other : value → string).

Definition pod_row (pod : P) : PodView :=
  let ready := isPodReady (p_Status pod) in
  let node := pod_NodeName (p_Spec pod) in
  MkPodView (p_Name pod) (pst_Phase (p_Status pod)) ready
    (if bool_decide (node ≠ "") then Some node else None)
    (if ready then "" else podReason (p_Status pod)) (podRequest (p_Spec pod)).

(** One turn of the loop of [attach]. *)
Definition attach_step (c : ComponentView) (pod : P) : ComponentView :=
  let row := pod_row pod in
  let rp := cv_Replicas c in
  MkComponentView (cv_Name c) (cv_Kind c)
    (MkReplicas (rp_Desired rp) (wrap32 (rp_Current rp + 1))
       (if pv_Ready row then wrap32 (rp_Ready rp + 1) else rp_Ready rp))
    (cv_Resources c)
    (match pv_Node row with Some node => mergeNodes (cv_Nodes c) [node] | None => cv_Nodes c end)
    (cv_Pods c ++ [row]) (cv_Children c).

Definition attach (c : ComponentView) (pods : list P) : ComponentView :=
  let c := foldl attach_step c pods in
  MkComponentView (cv_Name c) (cv_Kind c) (cv_Replicas c) (cv_Resources c) (cv_Nodes c)
    (sort_Slice pod_less (cv_Pods c)) (cv_Children c).

(** The loop that keeps the pods a query accepts; a new querier for each pod. *)
Fixpoint keep_pods (query : R → result bool) (pods : list P) : result (list P) :=
  match pods with
  | [] => Ok []
  | pod :: pods =>
      match query (NewPodQuerier pod) with
      | Fail err => Fail err
      | Ok ok => match keep_pods query pods with
                 | Fail err => Fail err
                 | Ok matched => Ok (if ok then pod :: matched else matched)
                 end
      end
  end.

Definition matchComponentType (selector : option PodSelector) (pods : list P) (claimsAll : bool)
    : result (list P) :=
  match selector ≫= ps_ComponentTypeSelector with
  | None => Ok (if claimsAll then pods else [])
  | Some s => keep_pods (run (MatchesComponentType (Some s))) pods
  end.

(** The checks of [filterByInstance] on one pod. *)
Definition of_instance (selector : PodSelector) (instanceKey replicaKey : option string) : M R bool :=
  mine ← match instanceKey with
         | None => mret true
         | Some key =>
             '(id, found) ← ExtractInstanceId other (ps_ComponentInstanceSelector selector);
             mret (found && bool_decide (id = key))
         end;
  if negb mine then mret false
  else
    match replicaKey with
    | None => mret true
    | Some key =>
        '(k, found) ← ExtractReplicaKey other (ps_ReplicaSelector selector);
        mret (found && bool_decide (k = key))
    end.

Definition filterByInstance (selector : option PodSelector) (instance : InstanceNode) (pods : list P)
    : result (list P) :=
  match selector with
  | None => Ok pods
  | Some selector =>
      match instance with
      | MkInstanceNode instanceKey replicaKey _ _ _ =>
          keep_pods (run (of_instance selector instanceKey replicaKey)) pods
      end
  end.

Definition in_Scale (i : InstanceNode) : option Scale :=
  match i with MkInstanceNode _ _ s _ _ => s end.
Definition in_ExtractedInstance (i : InstanceNode) : option ExtractedInstance :=
  match i with MkInstanceNode _ _ _ e _ => e end.
Definition cn_HasPodDefinition (n : ComponentNode) : bool :=
  match n with MkComponentNode _ _ has _ => has end.

Section subtree.
(** [buildComponent] on a node below, for the pods that reach it. *)
Variable build : ComponentNode → list P → result ComponentView.

Fixpoint group_children (nodes : list ComponentNode) (pods : list P) (component : ComponentView)
    : result ComponentView :=
  match nodes with
  | [] => Ok component
  | node :: nodes =>
      match build node pods with
      | Fail err => Fail err
      | Ok child =>
          let component := with_children component
            (appendComponent (cv_Children component) child (cn_HasPodDefinition node)) in
          group_children nodes pods (aggregate component child)
      end
  end.

Fixpoint group_instances (instances : list InstanceNode) (pods : list P) (component : ComponentView)
    : result ComponentView :=
  match instances with
  | [] => Ok component
  | instance :: instances =>
      match group_children (in_Children instance) pods component with
      | Fail err => Fail err
      | Ok component => group_instances instances pods component
      end
  end.

Definition declared_scale (desired : Z) (instance : InstanceNode) : Z :=
  match in_Scale instance with
  | Some s => wrap32 (desired + replicasOf (Some s))
  | None => desired
  end.

Definition buildGroupingComponent (name kind : string) (instances : list InstanceNode) (pods : list P)
    : result ComponentView :=
  match group_instances instances pods (new_component name kind) with
  | Fail err => Fail err
  | Ok component =>
      Ok (if bool_decide (length (cv_Children component) = 0)
          then with_desired component (foldl declared_scale (rp_Desired (cv_Replicas component)) instances)
          else component)
  end.

Fixpoint pod_children (nodes : list ComponentNode) (pods : list P) (component : ComponentView)
    : result ComponentView :=
  match nodes with
  | [] => Ok component
  | node :: nodes =>
      match build node pods with
      | Fail err => Fail err
      | Ok child =>
          let component := with_children component
            (appendComponent (cv_Children component) child (cn_HasPodDefinition node)) in
          let component := with_resources component (add (cv_Resources component) (cv_Resources child)) in
          pod_children nodes pods (with_nodes component (mergeNodes (cv_Nodes component) (cv_Nodes child)))
      end
  end.

(** What an instance adds on its own: its replicas and their requests. *)
Definition add_instance (component : ComponentView) (instance : InstanceNode) : ComponentView :=
  let replicas := replicasOf (in_Scale instance) in
  let component := with_desired component (wrap32 (rp_Desired (cv_Replicas component) + replicas)) in
  match in_ExtractedInstance instance with
  | Some extracted => with_resources component (add (cv_Resources component) (scaled (requestOf extracted) replicas))
  | None => component
  end.

Fixpoint pod_instances (instances : list InstanceNode) (pods : list P) (component : ComponentView)
    : result ComponentView :=
  match instances with
  | [] => Ok component
  | instance :: instances =>
      match pod_children (in_Children instance) pods (add_instance component instance) with
      | Fail err => Fail err
      | Ok component => pod_instances instances pods component
      end
  end.

Definition buildPodBearingComponent (name kind : string) (instances : list InstanceNode) (pods : list P)
    : result ComponentView :=
  pod_instances instances pods (attach (new_component name kind) pods).

(** The loop over the instances of a component that shows a row for each. *)
Fixpoint instance_rows (name kind : string) (has_pods : bool) (selector : option PodSelector)
    (instances : list InstanceNode) (claimed : list P) (parent : ComponentView) : result ComponentView :=
  match instances with
  | [] => Ok parent
  | instance :: instances =>
      match filterByInstance selector instance claimed with
      | Fail err => Fail (Errorf "match pods to instance of %q: %w" [AStr name] [err])
      | Ok scoped =>
          let label := instanceLabel name instance in
          match (if has_pods then buildPodBearingComponent label kind [instance] scoped
                 else buildGroupingComponent label kind [instance] scoped) with
          | Fail err => Fail err
          | Ok child =>
              let parent := with_children parent (appendComponent (cv_Children parent) child has_pods) in
              instance_rows name kind has_pods selector instances claimed (aggregate parent child)
          end
      end
  end.
End subtree.

Context (defs : component_defs).

(** [defs[name].PodSelector]; the zero definition has none. *)
Definition selector_of (name : string) : option PodSelector := defs !! name ≫= cd_PodSelector.

Fixpoint buildComponent (node : ComponentNode) (pods : list P) {struct node} : result ComponentView :=
  match node with
  | MkComponentNode name kind has_pods instances =>
      let kind := kindOf kind in
      match (if has_pods then matchComponentType (selector_of name) pods (isSolePodOwner defs) else Ok pods) with
      | Fail err => Fail (Errorf "match pods to component %q: %w" [AStr name] [err])
      | Ok claimed =>
          if negb (isMultiInstance instances) then
            if has_pods then buildPodBearingComponent buildComponent name kind instances claimed
            else buildGroupingComponent buildComponent name kind instances claimed
          else instance_rows buildComponent name kind has_pods (selector_of name) instances claimed
                 (new_component name kind)
      end
  end.
End describe.

(** ** The whole workload *)

(** What is read of the identity of an object. *)
Record Identity := MkIdentity {
  id_Name : string;
  id_Namespace : string;
  id_Kind : string;
  id_APIVersion : string;
  id_CreationTimestamp : Z;
}.

Record View := MkView {
  vw_Name : string;
  vw_Namespace : string;
  vw_Kind : string;
  vw_APIVersion : string;
  vw_CreatedAt : Z;
  vw_Definition : string;
  vw_Origin : string;
  vw_Phases : list string;
}.

Definition undefinedPhase : string := "Undefined".

Definition phases `{K8s} (t : WorkloadTree) : list string :=
  match wt_Status t with
  | None => [undefinedPhase]
  | Some st => if bool_decide (ws_Phases st = []) then [undefinedPhase] else ws_Phases st
  end.

Definition viewOf `{K8s} (obj : Identity) (def : Definition_) (workloadTree : WorkloadTree) : View :=
  MkView (id_Name obj) (id_Namespace obj) (id_Kind obj) (id_APIVersion obj) (id_CreationTimestamp obj)
    (df_Name def) (df_Origin def) (phases workloadTree).

Record DescribeView := MkDescribeView {
  dv_View : View;
  dv_FileMode : bool;
  dv_Resources : Resources;
  dv_Components : list ComponentView;
}.

Section resolve.
Context `{GoSort} `{PodFields} {P R : Type} `{!PodView_ P R} `{!Runner R}.
Context {S : Type} `{!ComponentAccessor S}.
Context (other : value → string) (Parse : string → result aval) (meta status : list rfield).

Definition Resolve (obj : Identity) (def : Definition_) : M S View :=
  let factory := NewComponentFactory (df_Karta def) in
  workloadTree ← wrap (λ err, Errorf "build tree: %w" [] [err]) (Build factory Parse meta status);
  mret (viewOf obj def workloadTree).

Definition root_instance (extracted : gmap string ExtractedInstance) (id : string) : InstanceNode :=
  MkInstanceNode (if bool_decide (id ≠ "") then Some id else None) None
    (extracted !! id ≫= ei_Scale) (extracted !! id) [].

Definition rootInstances (root : Component) : M S (list InstanceNode) :=
  extracted ← wrap (λ err, Errorf "extract root instances: %w" [] [err]) (GetExtractedInstances root);
  mret (root_instance extracted <$> sort_Strings (map_to_list extracted).*1).

(** The root's own row, when it bears pods. *)
Definition root_component (defs : component_defs) (root : Component) (pods : list P)
    : M S (list ComponentView) :=
  if negb (HasPodDefinition root) then mret []
  else
    instances ← rootInstances root;
    claimed ← lift (map_error (λ err, Errorf "match pods to root component: %w" [] [err])
                      (matchComponentType (selector_of defs (comp_name root)) pods (isSolePodOwner defs)));
    component ← lift (map_error (λ err, Errorf "build root component: %w" [] [err])
                        (buildPodBearingComponent (buildComponent other defs)
                           (comp_name root) (kindOf (Kind root)) instances claimed));
    mret (appendComponent [] component true).

(** The loop over the children of the tree. *)
Fixpoint component_rows (defs : component_defs) (nodes : list ComponentNode) (pods : list P)
    (components : list ComponentView) : result (list ComponentView) :=
  match nodes with
  | [] => Ok components
  | MkComponentNode name _ has_pods _ as node :: nodes =>
      match buildComponent other defs node pods with
      | Fail err => Fail (Errorf "build component %q: %w" [AStr name] [err])
      | Ok component => component_rows defs nodes pods (appendComponent components component has_pods)
      end
  end.

Definition ResolveDescribe (obj : Identity) (def : Definition_) (pods : list P) : M S DescribeView :=
  let factory := NewComponentFactory (df_Karta def) in
  workloadTree ← wrap (λ err, Errorf "build tree: %w" [] [err]) (Build factory Parse meta status);
  let defs := indexComponentDefs (df_Karta def) in
  root ← lift (map_error (λ err, Errorf "get root component: %w" [] [err]) (GetRootComponent factory));
  components ← root_component defs root pods;
  components ← lift (component_rows defs (wt_Children workloadTree) pods components);
  mret (MkDescribeView (viewOf obj def workloadTree) false
          (foldl (λ total c, add total (cv_Resources c)) no_resources components) components).
End resolve.

(** ** Nodes *)

Lemma compact_elem l x : x ∈ compact l ↔ x ∈ l.
Proof.
  induction l as [|y l IH]; [done|]. destruct l as [|z l]; [done|].
  change (compact (y :: z :: l)) with (if bool_decide (y = z) then compact (z :: l) else y :: compact (z :: l)).
  case_bool_decide as Hyz; [|by rewrite !(elem_of_cons _ _ y), IH].
  subst. rewrite IH. set_solver.
Qed.

Lemma compact_sorted l :
  StronglySorted String.le l → StronglySorted String.le (compact l) ∧ NoDup (compact l).
Proof.
  induction 1 as [|y l Hl [IHs IHn] Hy]; [split; constructor|].
  destruct l as [|z l]; [split; [by repeat constructor|apply NoDup_singleton]|].
  change (compact (y :: z :: l)) with (if bool_decide (y = z) then compact (z :: l) else y :: compact (z :: l)).
  case_bool_decide as Hyz; [done|]. split.
  - constructor; [done|]. apply Forall_forall. intros x Hx. apply (compact_elem (z :: l)) in Hx.
    rewrite Forall_forall in Hy. by apply Hy.
  - constructor; [|done]. intros Hx. apply (compact_elem (z :: l)) in Hx.
    rewrite Forall_forall in Hy. apply Hyz.
    apply StronglySorted_inv in Hl as [_ Hz]. rewrite Forall_forall in Hz.
    apply elem_of_cons in Hx as [->|Hx]; [done|].
    apply (anti_symm String.le); [apply Hy; by left|by apply Hz].
Qed.

Lemma mergeNodes_elem a b x : x ∈ mergeNodes a b ↔ x ∈ a ∨ x ∈ b.
Proof. unfold mergeNodes. rewrite compact_elem, sort_Strings_Permutation. apply elem_of_app. Qed.

Lemma mergeNodes_sorted a b : StronglySorted String.le (mergeNodes a b) ∧ NoDup (mergeNodes a b).
Proof. apply compact_sorted, sort_Strings_sorted. Qed.

(** ** What the rows account for *)

(** The pods listed in a component and below it. *)
Fixpoint all_pods (c : ComponentView) : list PodView :=
  match c with MkComponentView _ _ _ _ _ pods children => pods ++ (children ≫= all_pods) end.

Lemma all_pods_eq c : all_pods c = cv_Pods c ++ (cv_Children c ≫= all_pods).
Proof. by destruct c. Qed.

Lemma node_ind `{K8s} (Q : ComponentNode → Prop) :
  (∀ name kind has_pods instances,
     Forall (λ i, Forall Q (in_Children i)) instances → Q (MkComponentNode name kind has_pods instances)) →
  ∀ n, Q n.
Proof.
  intros Hstep. fix IH 1. intros [name kind has_pods instances]. apply Hstep.
  induction instances as [|[key replica scale extracted children] instances IHi]; constructor; [|exact IHi].
  cbn. induction children as [|child children IHc]; constructor; [apply IH|exact IHc].
Qed.

(** ** Counting pods *)

(** The live counts of a row that carries pods: those of the pods it lists. *)
Definition own_counts (c : ComponentView) : Prop :=
  rp_Current (cv_Replicas c) = wrap32 (Z.of_nat (length (cv_Pods c))) ∧
  rp_Ready (cv_Replicas c) = wrap32 (Z.of_nat (length (filter (λ row, pv_Ready row = true) (cv_Pods c)))).

Definition total (f : Replicas → Z) (l : list ComponentView) : Z :=
  foldr (λ c n, f (cv_Replicas c) + n)%Z 0%Z l.

(** The live counts of a row that only groups others: the sums of theirs. *)
Definition rolled_counts (c : ComponentView) : Prop :=
  cv_Pods c = [] ∧
  rp_Current (cv_Replicas c) = wrap32 (total rp_Current (cv_Children c)) ∧
  rp_Ready (cv_Replicas c) = wrap32 (total rp_Ready (cv_Children c)).

Lemma total_app f l1 l2 : total f (l1 ++ l2) = (total f l1 + total f l2)%Z.
Proof. unfold total. induction l1 as [|c l1 IH]; cbn; [done|]. rewrite IH. lia. Qed.

Section counts.
Context `{GoSort} `{PodFields} {P R : Type} `{!PodView_ P R}.

Lemma attach_fold_counts (c : ComponentView) (pods : list P) :
  own_counts c → own_counts (foldl attach_step c pods).
Proof.
  revert c. induction pods as [|pod pods IH]; intros c Hc; [done|]. apply IH.
  destruct Hc as [Hc Hr]. unfold own_counts. cbn [attach_step cv_Replicas cv_Pods rp_Current rp_Ready].
  rewrite Hc, Hr, length_app, filter_app, length_app. cbn [length].
  rewrite wrap32_add_l, filter_cons, filter_nil. split; [f_equal; lia|].
  destruct (pv_Ready (pod_row pod)); cbn [length].
  - rewrite decide_True by done. rewrite wrap32_add_l. f_equal. cbn [length]. lia.
  - rewrite decide_False by done. f_equal. cbn [length]. lia.
Qed.

Lemma attach_rows (c : ComponentView) (pods : list P) :
  cv_Pods (foldl attach_step c pods) = cv_Pods c ++ (pod_row <$> pods).
Proof.
  revert c. induction pods as [|pod pods IH]; intros c; cbn [foldl]; [by rewrite app_nil_r|].
  rewrite (IH (attach_step c pod)). cbn. by rewrite <- (assoc_L (++)).
Qed.

Lemma pod_less_strict_weak : strict_weak pod_less.
Proof. apply (strict_weak_on string_lt pv_Name), string_lt_strict_weak. Qed.

(** The rows of a component are its pods', in the order of their names, and its
    counts are those of its rows. *)
Lemma attach_spec name kind (pods : list P) :
  let c := attach (new_component name kind) pods in
  cv_Pods c ≡ₚ pod_row <$> pods ∧ sorted_by pod_less (cv_Pods c) ∧ own_counts c.
Proof.
  cbv zeta. unfold attach. split; [|split].
  - cbn [cv_Pods]. rewrite attach_rows. apply sort_Slice_Permutation.
  - apply sort_Slice_sorted, pod_less_strict_weak.
  - destruct (attach_fold_counts (new_component name kind) pods) as [Hc Hr]; [done|].
    unfold own_counts. cbn [cv_Replicas cv_Pods]. by rewrite sort_Slice_Permutation.
Qed.
End counts.

(** ** Every pod accounted for *)

Section accounted.
Context `{GoSort} `{PodFields} {P R : Type} `{!PodView_ P R} `{!Runner R}.
Context (other : value → string) (given : list P).

(** Every pod listed was given, the nodes are those of the pods listed, in order
    and once, and the live counts are of the row's own pods or sums over the rows
    below; so for every component below. *)
Inductive accounted : ComponentView → Prop :=
  | accounted_intro c :
      (∀ row, row ∈ all_pods c → row ∈ pod_row <$> given) →
      (∀ node, node ∈ cv_Nodes c ↔ ∃ row, row ∈ all_pods c ∧ pv_Node row = Some node) →
      StronglySorted String.le (cv_Nodes c) → NoDup (cv_Nodes c) →
      own_counts c ∨ rolled_counts c →
      Forall accounted (cv_Children c) → accounted c.

Lemma accounted_pods c row : accounted c → row ∈ all_pods c → row ∈ pod_row <$> given.
Proof. destruct 1; auto. Qed.
Lemma accounted_nodes c node :
  accounted c → node ∈ cv_Nodes c ↔ ∃ row, row ∈ all_pods c ∧ pv_Node row = Some node.
Proof. destruct 1; auto. Qed.
Lemma accounted_children c : accounted c → Forall accounted (cv_Children c).
Proof. by destruct 1. Qed.

(** The same rows and live counts; desired replicas, resources and names are free. *)
Definition same_rows (c c' : ComponentView) : Prop :=
  cv_Nodes c' = cv_Nodes c ∧ cv_Pods c' = cv_Pods c ∧ cv_Children c' = cv_Children c ∧
  rp_Current (cv_Replicas c') = rp_Current (cv_Replicas c) ∧
  rp_Ready (cv_Replicas c') = rp_Ready (cv_Replicas c).

Lemma accounted_ext c c' : accounted c → same_rows c c' → accounted c'.
Proof.
  intros [c0 Hp Hn Hs Hnd Hr Hc] (En & Ep & Ec & E1 & E2).
  assert (Ea : all_pods c' = all_pods c0) by (by rewrite !all_pods_eq, Ep, Ec).
  constructor; unfold own_counts, rolled_counts in *; rewrite ?Ea, ?En, ?Ec, ?E1, ?E2, ?Ep; done.
Qed.

Lemma own_counts_ext c c' : own_counts c → same_rows c c' → own_counts c'.
Proof. unfold own_counts. by intros ? (_ & -> & _ & -> & ->). Qed.

Lemma new_component_accounted name kind : accounted (new_component name kind).
Proof.
  constructor; cbn; [by intros ? ?%not_elem_of_nil| |constructor|constructor|by left|constructor].
  intros node. split; [by intros ?%not_elem_of_nil|]. by intros (? & ?%not_elem_of_nil & _).
Qed.

Lemma empty_pods c : accounted c → component_isEmpty c = true → ∀ row, row ∉ all_pods c.
Proof.
  intros _ He row. rewrite all_pods_eq. unfold component_isEmpty in He.
  apply andb_true_iff in He as [[[Hp%bool_decide_eq_true Hc%bool_decide_eq_true]%andb_true_iff _]%andb_true_iff _].
  apply nil_length_inv in Hp, Hc. rewrite Hp, Hc. apply not_elem_of_nil.
Qed.

(** Hanging a row below another, or dropping it as empty. *)
Lemma accounted_add_child c c' child has_pods :
  accounted c → accounted child →
  cv_Nodes c' = mergeNodes (cv_Nodes c) (cv_Nodes child) → cv_Pods c' = cv_Pods c →
  cv_Children c' = appendComponent (cv_Children c) child has_pods →
  own_counts c' ∨ rolled_counts c' →
  accounted c'.
Proof.
  intros Hc Hchild En Ep Ec Hcounts.
  assert (Ha : ∀ row, row ∈ all_pods c' ↔ row ∈ all_pods c ∨ row ∈ all_pods child).
  { intros row. rewrite (all_pods_eq c'), Ep, Ec, (all_pods_eq c). unfold appendComponent.
    destruct (negb has_pods && component_isEmpty child) eqn:E.
    - apply andb_true_iff in E as [_ E]. pose proof (empty_pods child Hchild E row). tauto.
    - rewrite bind_app, !elem_of_app. cbn. rewrite app_nil_r. tauto. }
  constructor.
  - intros row [Hr|Hr]%Ha; eauto using accounted_pods.
  - intros node. rewrite En, mergeNodes_elem, (accounted_nodes c), (accounted_nodes child) by done.
    setoid_rewrite Ha. naive_solver.
  - rewrite En. apply mergeNodes_sorted.
  - rewrite En. apply mergeNodes_sorted.
  - exact Hcounts.
  - rewrite Ec. unfold appendComponent. pose proof (accounted_children _ Hc).
    destruct (_ && _); [done|]. apply Forall_app. split; [done|by constructor].
Qed.

(** A child below a row that groups, and below one that carries pods. *)
Lemma rolled_add_child c child has_pods :
  accounted c → rolled_counts c → accounted child →
  let c' := aggregate (with_children c (appendComponent (cv_Children c) child has_pods)) child in
  accounted c' ∧ rolled_counts c'.
Proof.
  intros Hc (Hp & H1' & H2') Hchild. cbv zeta.
  assert (Hr : rolled_counts (aggregate (with_children c (appendComponent (cv_Children c) child has_pods)) child)).
  { split; [done|]. cbn [aggregate with_children cv_Replicas cv_Children rp_Current rp_Ready].
    rewrite H1', H2', !wrap32_add_l. unfold appendComponent.
    destruct (negb has_pods && component_isEmpty child) eqn:E.
    - apply andb_true_iff in E as [_ [[_ He%bool_decide_eq_true]%andb_true_iff _]%andb_true_iff].
      rewrite He. cbn. by rewrite !Z.add_0_r.
    - rewrite !total_app. cbn [total foldr]. by rewrite !Z.add_0_r. }
  split; [|done]. by eapply (accounted_add_child c _ child has_pods); [..|right].
Qed.

Lemma own_add_child c child has_pods resources :
  accounted c → own_counts c → accounted child →
  let c' := with_nodes (with_resources (with_children c (appendComponent (cv_Children c) child has_pods))
              resources) (mergeNodes (cv_Nodes c) (cv_Nodes child)) in
  accounted c' ∧ own_counts c'.
Proof.
  intros Hc Ho Hchild. cbv zeta. split; [|done].
  by eapply (accounted_add_child c _ child has_pods); [..|left].
Qed.

Lemma attach_accounted name kind pods :
  (∀ pod, pod ∈ pods → pod ∈ given) → accounted (attach (new_component name kind) pods).
Proof.
  intros Hpods.
  assert (Hfold : ∀ c, accounted c → own_counts c → cv_Children c = [] →
    accounted (foldl attach_step c pods) ∧ cv_Children (foldl attach_step c pods) = []).
  { induction pods as [|pod pods IH]; intros c Hc Ho Hch; [done|]. cbn [foldl].
    assert (Ho' : own_counts (attach_step c pod)) by exact (attach_fold_counts c [pod] Ho).
    apply IH; [intros ? ?; apply Hpods; by right| |done|by destruct c].
    assert (Ha : ∀ row, row ∈ all_pods (attach_step c pod) ↔ row ∈ all_pods c ∨ row = pod_row pod).
    { intros row. rewrite !all_pods_eq. cbn [attach_step cv_Pods cv_Children]. rewrite Hch. cbn.
      rewrite !app_nil_r. set_solver. }
    constructor.
    - intros row [Hr| ->]%Ha; [by eapply accounted_pods|]. apply list_elem_of_fmap. exists pod.
      split; [done|]. apply Hpods. by left.
    - intros node. setoid_rewrite Ha. cbn [attach_step cv_Nodes].
      destruct (pv_Node (pod_row pod)) as [n|] eqn:En.
      + rewrite mergeNodes_elem, (accounted_nodes c) by done. rewrite list_elem_of_singleton.
        split; [intros [(row & ? & ?)| ->]; eauto|]. intros (row & [?| ->] & ?); [eauto|right; congruence].
      + rewrite (accounted_nodes c) by done. split; [intros (row & ? & ?); eauto|].
        intros (row & [?| ->] & ?); [eauto|congruence].
    - destruct Hc. cbn [attach_step cv_Nodes]. destruct (pv_Node _); [apply mergeNodes_sorted|done].
    - destruct Hc. cbn [attach_step cv_Nodes]. destruct (pv_Node _); [apply mergeNodes_sorted|done].
    - by left.
    - cbn [attach_step cv_Children]. rewrite Hch. constructor. }
  destruct (Hfold (new_component name kind) (new_component_accounted name kind)
    (conj eq_refl eq_refl) eq_refl) as [Hc Hch].
  destruct (attach_spec name kind pods) as (_ & _ & Hcounts). unfold attach in *. set (c := foldl _ _ _) in *. cbv zeta.
  assert (Ha : ∀ row, row ∈ all_pods (MkComponentView (cv_Name c) (cv_Kind c) (cv_Replicas c) (cv_Resources c)
    (cv_Nodes c) (sort_Slice pod_less (cv_Pods c)) (cv_Children c)) ↔ row ∈ all_pods c).
  { intros row. rewrite !all_pods_eq. cbn [cv_Pods cv_Children]. by rewrite sort_Slice_Permutation. }
  destruct Hc as [c0 Hp Hn Hs Hnd _ Hcc]. constructor; cbn [cv_Nodes cv_Children]; [| |done|done|by left|done].
  - intros row Hr%Ha. auto.
  - intros node. rewrite Hn. setoid_rewrite Ha. done.
Qed.

Lemma keep_pods_elem query pods matched :
  keep_pods query pods = Ok matched → ∀ pod, pod ∈ matched → pod ∈ pods.
Proof.
  revert matched. induction pods as [|pod pods IH]; intros matched; cbn [keep_pods]; [by intros [= <-]|].
  destruct (query _) as [ok|]; [|done]. destruct (keep_pods query pods) as [l|] eqn:E; [|done].
  intros [= <-] p Hp. destruct ok; [apply elem_of_cons in Hp as [->|Hp]; [by left|]|];
    right; by apply (IH l).
Qed.

Lemma matchComponentType_elem selector pods claimsAll matched :
  matchComponentType selector pods claimsAll = Ok matched → ∀ pod, pod ∈ matched → pod ∈ pods.
Proof.
  unfold matchComponentType. destruct (selector ≫= _); [apply keep_pods_elem|].
  intros [= <-]. destruct claimsAll; [done|]. by intros ? ?%not_elem_of_nil.
Qed.

Lemma filterByInstance_elem selector instance pods matched :
  filterByInstance other selector instance pods = Ok matched → ∀ pod, pod ∈ matched → pod ∈ pods.
Proof.
  unfold filterByInstance. destruct selector as [s|]; [|by intros [= <-]].
  destruct instance. apply keep_pods_elem.
Qed.

Section subtree.
Variable build : ComponentNode → list P → result ComponentView.

(** A node below yields accounted rows for whatever pods reach it. *)
Definition builds (node : ComponentNode) : Prop :=
  ∀ pods c, (∀ pod, pod ∈ pods → pod ∈ given) → build node pods = Ok c → accounted c.

Lemma group_children_accounted nodes pods c c' :
  Forall builds nodes → (∀ pod, pod ∈ pods → pod ∈ given) → accounted c → rolled_counts c →
  group_children build nodes pods c = Ok c' → accounted c' ∧ rolled_counts c'.
Proof.
  intros Hb Hpods. revert c. induction Hb as [|node nodes Hn _ IH]; intros c Hc Hr; cbn [group_children].
  { by intros [= <-]. }
  destruct (build node pods) as [child|] eqn:E; [|done].
  destruct (rolled_add_child c child (cn_HasPodDefinition node) Hc Hr) as [? ?]; [by eapply Hn|]. by apply IH.
Qed.

Lemma group_instances_accounted instances pods c c' :
  Forall (λ i, Forall builds (in_Children i)) instances → (∀ pod, pod ∈ pods → pod ∈ given) → accounted c → rolled_counts c →
  group_instances build instances pods c = Ok c' → accounted c' ∧ rolled_counts c'.
Proof.
  intros Hb Hpods. revert c. induction Hb as [|i instances Hi _ IH]; intros c Hc Hr; cbn [group_instances].
  { by intros [= <-]. }
  destruct (group_children _ _ _ _) as [c1|] eqn:E; [|done].
  apply group_children_accounted in E as [? ?]; [|done..]. by apply IH.
Qed.

Lemma buildGroupingComponent_accounted name kind instances pods c :
  Forall (λ i, Forall builds (in_Children i)) instances → (∀ pod, pod ∈ pods → pod ∈ given) →
  buildGroupingComponent build name kind instances pods = Ok c → accounted c.
Proof.
  intros Hb Hpods. unfold buildGroupingComponent.
  destruct (group_instances _ _ _ _) as [c1|] eqn:E; [|done]. intros [= <-].
  apply group_instances_accounted in E as [Hc _]; [|done|done|apply new_component_accounted|done].
  case_bool_decide; [|done]. by eapply accounted_ext.
Qed.

Lemma pod_children_accounted nodes pods c c' :
  Forall builds nodes → (∀ pod, pod ∈ pods → pod ∈ given) → accounted c → own_counts c →
  pod_children build nodes pods c = Ok c' → accounted c' ∧ own_counts c'.
Proof.
  intros Hb Hpods. revert c. induction Hb as [|node nodes Hn _ IH]; intros c Hc Ho; cbn [pod_children].
  { by intros [= <-]. }
  destruct (build node pods) as [child|] eqn:E; [|done].
  destruct (own_add_child c child (cn_HasPodDefinition node) (add (cv_Resources c) (cv_Resources child)) Hc Ho)
    as [? ?]; [by eapply Hn|]. by apply IH.
Qed.

Lemma pod_instances_accounted instances pods c c' :
  Forall (λ i, Forall builds (in_Children i)) instances → (∀ pod, pod ∈ pods → pod ∈ given) → accounted c → own_counts c →
  pod_instances build instances pods c = Ok c' → accounted c' ∧ own_counts c'.
Proof.
  intros Hb Hpods. revert c. induction Hb as [|i instances Hi _ IH]; intros c Hc Ho; cbn [pod_instances].
  { by intros [= <-]. }
  destruct (pod_children _ _ _ _) as [c1|] eqn:E; [|done].
  assert (Hsame : same_rows c (add_instance c i)) by (unfold add_instance; by destruct (in_ExtractedInstance i)).
  apply pod_children_accounted in E as [? ?];
    [|done|done|by eapply accounted_ext|by eapply own_counts_ext]. by apply IH.
Qed.

Lemma buildPodBearingComponent_accounted name kind instances pods c :
  Forall (λ i, Forall builds (in_Children i)) instances → (∀ pod, pod ∈ pods → pod ∈ given) →
  buildPodBearingComponent build name kind instances pods = Ok c → accounted c.
Proof.
  intros Hb Hpods E. apply pod_instances_accounted in E as [? _]; auto using attach_accounted.
  by destruct (attach_spec name kind pods) as (_ & _ & ?).
Qed.

Lemma instance_rows_accounted name kind has_pods selector instances claimed parent c :
  Forall (λ i, Forall builds (in_Children i)) instances → (∀ pod, pod ∈ claimed → pod ∈ given) →
  accounted parent → rolled_counts parent →
  instance_rows other build name kind has_pods selector instances claimed parent = Ok c → accounted c.
Proof.
  intros Hb Hpods. revert parent. induction Hb as [|i instances Hi _ IH]; intros parent Hparent Hr;
    cbn [instance_rows]; [by intros [= <-]|].
  destruct (filterByInstance _ _ _ _) as [scoped|] eqn:Es; [|done].
  assert (Hscoped : ∀ pod, pod ∈ scoped → pod ∈ given) by eauto using filterByInstance_elem.
  destruct (if has_pods then _ else _) as [child|] eqn:Ec; [|done].
  assert (Hchild : accounted child).
  { assert (Hone : Forall (λ i, Forall builds (in_Children i)) [i]) by (by constructor).
    destruct has_pods; [by eapply buildPodBearingComponent_accounted|by eapply buildGroupingComponent_accounted]. }
  destruct (rolled_add_child parent child has_pods Hparent Hr Hchild) as [? ?]. by apply IH.
Qed.
End subtree.

Lemma buildComponent_accounted defs node : builds (buildComponent other defs) node.
Proof.
  induction node as [name kind has_pods instances IH] using node_ind. intros pods c Hpods.
  cbn [buildComponent]. destruct (if has_pods then _ else _) as [claimed|] eqn:Ec; [|done].
  assert (Hclaimed : ∀ pod, pod ∈ claimed → pod ∈ given).
  { destruct has_pods; [intros pod Hp; eapply Hpods, matchComponentType_elem; [|exact Hp]; destruct (matchComponentType _ _ _) eqn:E; [by injection Ec as <-|done]|]. by injection Ec as <-. }
  destruct (negb _); [destruct has_pods|]; intros E.
  - by eapply buildPodBearingComponent_accounted.
  - by eapply buildGroupingComponent_accounted.
  - eapply instance_rows_accounted; [exact IH|exact Hclaimed|apply new_component_accounted|done|exact E].
Qed.
End accounted.

(** ** Where every pod is listed *)

Section placed.
Context `{GoSort} `{PodFields} {P R : Type} `{!PodView_ P R} `{!Runner R}.
Context (other : value → string).

(** The rows of a component and below it, each under the name of the row that
    lists it. *)
Fixpoint pod_listing (c : ComponentView) : list (string * PodView) :=
  match c with
  | MkComponentView name _ _ _ _ pods children => (pair name <$> pods) ++ (children ≫= pod_listing)
  end.

Lemma listing_eq c : pod_listing c = (pair (cv_Name c) <$> cv_Pods c) ++ (cv_Children c ≫= pod_listing).
Proof. by destruct c. Qed.

(** The answer of a query that gave one. *)
Definition holds (answer : result bool) : bool := match answer with Ok b => b | Fail _ => false end.

(** A pod is of a component when its type matches; without a selector of types
    only the one component of a workload that bears pods has them. *)
Definition of_type (defs : component_defs) (name : string) (pod : P) : bool :=
  match selector_of defs name ≫= ps_ComponentTypeSelector with
  | Some s => holds (run (MatchesComponentType (Some s)) (NewPodQuerier pod))
  | None => isSolePodOwner defs
  end.

Definition in_instance (selector : option PodSelector) (key replica : option string) (pod : P) : bool :=
  match selector with
  | Some s => holds (run (of_instance other s key replica) (NewPodQuerier pod))
  | None => true
  end.

Variable defs : component_defs.

(** The pods each row of a node below the root lists: of those that reach it, the
    ones of its type, and of these, when it has a row for each instance, the ones
    of that instance. *)
Fixpoint placed (node : ComponentNode) (pods : list P) : list (string * P) :=
  match node with
  | MkComponentNode name _ has_pods instances =>
      let claimed := if has_pods then filter (of_type defs name) pods else pods in
      let row label scoped := if has_pods then pair label <$> scoped else [] in
      if isMultiInstance instances then
        instances ≫= λ instance,
          match instance with
          | MkInstanceNode key replica _ _ children =>
              let scoped := filter (in_instance (selector_of defs name) key replica) claimed in
              row (instanceLabel name instance) scoped ++ (children ≫= λ child, placed child scoped)
          end
      else
        row name claimed ++
        (instances ≫= λ instance,
          match instance with MkInstanceNode _ _ _ _ children => children ≫= λ child, placed child claimed end)
  end.

(** The pods each row of a workload lists. *)
Definition placed_all (root : Component) (tree : WorkloadTree) (pods : list P) : list (string * P) :=
  (if HasPodDefinition root then pair (comp_name root) <$> filter (of_type defs (comp_name root)) pods else []) ++
  (wt_Children tree ≫= λ node, placed node pods).

(** The rows are those of the pods placed. *)
Definition rows_show (rows : list (string * PodView)) (pods : list (string * P)) : Prop :=
  rows ≡ₚ prod_map id pod_row <$> pods.

Lemma rows_show_app rows rows' pods pods' :
  rows_show rows pods → rows_show rows' pods' → rows_show (rows ++ rows') (pods ++ pods').
Proof. unfold rows_show. intros -> ->. by rewrite fmap_app. Qed.

Lemma rows_show_nil : rows_show [] [].
Proof. constructor. Qed.

Lemma rows_show_rows name pods : rows_show (pair name <$> (pod_row <$> pods)) (pair name <$> pods).
Proof. unfold rows_show. by rewrite <- !list_fmap_compose. Qed.

Lemma empty_listing c : component_isEmpty c = true → pod_listing c = [].
Proof.
  unfold component_isEmpty. rewrite listing_eq.
  intros [[[Hp%bool_decide_eq_true Hc%bool_decide_eq_true]%andb_true_iff _]%andb_true_iff _]%andb_true_iff.
  apply nil_length_inv in Hp, Hc. by rewrite Hp, Hc.
Qed.

Lemma appendComponent_listing l c has_pods :
  appendComponent l c has_pods ≫= pod_listing = (l ≫= pod_listing) ++ pod_listing c.
Proof.
  unfold appendComponent. destruct (negb has_pods && component_isEmpty c) eqn:E.
  - apply andb_true_iff in E as [_ E]. by rewrite (empty_listing c E), app_nil_r.
  - rewrite bind_app. cbn. by rewrite app_nil_r.
Qed.

(** A row hung below another. *)
Lemma hung_listing c child has_pods c' :
  cv_Name c' = cv_Name c → cv_Pods c' = cv_Pods c →
  cv_Children c' = appendComponent (cv_Children c) child has_pods →
  pod_listing c' = pod_listing c ++ pod_listing child.
Proof.
  intros En Ep Ec. rewrite (listing_eq c'), En, Ep, Ec, appendComponent_listing, (listing_eq c).
  by rewrite <- (assoc_L (++)).
Qed.

Lemma keep_pods_filter query pods matched :
  keep_pods query pods = Ok matched → matched = filter (λ pod, holds (query (NewPodQuerier pod))) pods.
Proof.
  revert matched. induction pods as [|pod pods IH]; intros matched; cbn [keep_pods]; [by intros [= <-]|].
  destruct (query _) as [ok|] eqn:Eq; [|done]. destruct (keep_pods query pods) as [l|]; [|done].
  intros [= <-]. rewrite filter_cons, Eq, <- (IH l eq_refl). by destruct ok.
Qed.

Lemma filter_const (b : bool) (l : list P) : filter (λ _, b) l = if b then l else [].
Proof.
  induction l as [|x l IH]; [by destruct b|]. rewrite filter_cons, IH. by destruct b.
Qed.

Lemma matchComponentType_filter name pods claimed :
  matchComponentType (selector_of defs name) pods (isSolePodOwner defs) = Ok claimed →
  claimed = filter (of_type defs name) pods.
Proof.
  unfold matchComponentType, of_type. destruct (_ ≫= _); [apply keep_pods_filter|]. intros [= <-].
  by rewrite filter_const.
Qed.

Lemma filterByInstance_filter selector key replica scale extracted children pods scoped :
  filterByInstance other selector (MkInstanceNode key replica scale extracted children) pods = Ok scoped →
  scoped = filter (in_instance selector key replica) pods.
Proof.
  unfold filterByInstance, in_instance. destruct selector; [apply keep_pods_filter|]. intros [= <-].
  by rewrite filter_const.
Qed.

Lemma attach_listing name kind pods :
  rows_show (pod_listing (attach (new_component name kind) pods)) (pair name <$> pods).
Proof.
  destruct (attach_spec name kind pods) as (Hrows & _). rewrite listing_eq.
  assert (Hc : ∀ c, cv_Name (attach c pods) = cv_Name c ∧ cv_Children (attach c pods) = cv_Children c).
  { intros c. unfold attach. cbn [cv_Name cv_Children]. clear Hrows. revert c.
    induction pods as [|pod pods IH]; intros c; [done|]. cbn [foldl]. by destruct (IH (attach_step c pod)) as [-> ->]. }
  destruct (Hc (new_component name kind)) as [-> ->]. cbn. rewrite app_nil_r.
  unfold rows_show. rewrite Hrows. apply rows_show_rows.
Qed.

Section subtree.
Variable build : ComponentNode → list P → result ComponentView.

Definition places (node : ComponentNode) : Prop :=
  ∀ pods c, build node pods = Ok c → rows_show (pod_listing c) (placed node pods).

Definition children_placed (i : InstanceNode) (pods : list P) : list (string * P) :=
  in_Children i ≫= λ child, placed child pods.

Lemma group_children_listing nodes pods c c' shown :
  Forall places nodes → rows_show (pod_listing c) shown → group_children build nodes pods c = Ok c' →
  rows_show (pod_listing c') (shown ++ (nodes ≫= λ child, placed child pods)).
Proof.
  intros Hb. revert c shown. induction Hb as [|node nodes Hn _ IH]; intros c shown Hc; cbn [group_children].
  { intros [= <-]. by rewrite app_nil_r. }
  destruct (build node pods) as [child|] eqn:E; [|done]. cbn [mbind list_bind]. rewrite assoc_L by apply _.
  apply IH. erewrite (hung_listing c child); [|done..]. apply rows_show_app; [done|by apply Hn].
Qed.

Lemma pod_children_listing nodes pods c c' shown :
  Forall places nodes → rows_show (pod_listing c) shown → pod_children build nodes pods c = Ok c' →
  rows_show (pod_listing c') (shown ++ (nodes ≫= λ child, placed child pods)).
Proof.
  intros Hb. revert c shown. induction Hb as [|node nodes Hn _ IH]; intros c shown Hc; cbn [pod_children].
  { intros [= <-]. by rewrite app_nil_r. }
  destruct (build node pods) as [child|] eqn:E; [|done]. cbn [mbind list_bind]. rewrite assoc_L by apply _.
  apply IH. erewrite (hung_listing c child); [|done..]. apply rows_show_app; [done|by apply Hn].
Qed.

Lemma group_instances_listing instances pods c c' shown :
  Forall (λ i, Forall places (in_Children i)) instances → rows_show (pod_listing c) shown →
  group_instances build instances pods c = Ok c' →
  rows_show (pod_listing c') (shown ++ (instances ≫= λ i, children_placed i pods)).
Proof.
  intros Hb. revert c shown. induction Hb as [|i instances Hi _ IH]; intros c shown Hc; cbn [group_instances].
  { intros [= <-]. by rewrite app_nil_r. }
  destruct (group_children _ _ _ _) as [c1|] eqn:E; [|done]. cbn [mbind list_bind]. rewrite assoc_L by apply _.
  apply IH. by eapply group_children_listing.
Qed.

Lemma add_instance_listing c i : pod_listing (add_instance c i) = pod_listing c.
Proof. unfold add_instance. destruct (in_ExtractedInstance i); by rewrite !listing_eq. Qed.

Lemma pod_instances_listing instances pods c c' shown :
  Forall (λ i, Forall places (in_Children i)) instances → rows_show (pod_listing c) shown →
  pod_instances build instances pods c = Ok c' →
  rows_show (pod_listing c') (shown ++ (instances ≫= λ i, children_placed i pods)).
Proof.
  intros Hb. revert c shown. induction Hb as [|i instances Hi _ IH]; intros c shown Hc; cbn [pod_instances].
  { intros [= <-]. by rewrite app_nil_r. }
  destruct (pod_children _ _ _ _) as [c1|] eqn:E; [|done]. cbn [mbind list_bind]. rewrite assoc_L by apply _.
  apply IH. eapply pod_children_listing; [done|by rewrite add_instance_listing|exact E].
Qed.

(** The row of a component, or of an instance of one. *)
Lemma row_listing name kind (has_pods : bool) instances pods c :
  Forall (λ i, Forall places (in_Children i)) instances →
  (if has_pods then buildPodBearingComponent build name kind instances pods
   else buildGroupingComponent build name kind instances pods) = Ok c →
  rows_show (pod_listing c) ((if has_pods then pair name <$> pods else []) ++
                     (instances ≫= λ i, children_placed i pods)).
Proof.
  intros Hb. destruct has_pods.
  - by apply pod_instances_listing, attach_listing.
  - unfold buildGroupingComponent. destruct (group_instances _ _ _ _) as [c1|] eqn:E; [|done]. intros [= <-].
    eapply (group_instances_listing _ _ _ _ []) in E; [|done|apply rows_show_nil].
    case_bool_decide; [|done]. by rewrite listing_eq in *.
Qed.

Lemma instance_rows_listing name kind (has_pods : bool) selector instances claimed parent c shown :
  Forall (λ i, Forall places (in_Children i)) instances → rows_show (pod_listing parent) shown →
  instance_rows other build name kind has_pods selector instances claimed parent = Ok c →
  rows_show (pod_listing c) (shown ++ (instances ≫= λ instance,
    match instance with
    | MkInstanceNode key replica _ _ children =>
        let scoped := filter (in_instance selector key replica) claimed in
        (if has_pods then pair (instanceLabel name instance) <$> scoped else []) ++
        (children ≫= λ child, placed child scoped)
    end)).
Proof.
  intros Hb. revert parent shown. induction Hb as [|i instances Hi _ IH]; intros parent shown Hparent;
    cbn [instance_rows]; [intros [= <-]; by rewrite app_nil_r|].
  destruct (filterByInstance _ _ _ _) as [scoped|] eqn:Es; [|done].
  destruct (if has_pods then _ else _) as [child|] eqn:Ec; [|done]. cbn [mbind list_bind].
  rewrite assoc_L by apply _. apply IH. erewrite (hung_listing parent child); [|done..].
  apply rows_show_app; [done|]. apply row_listing in Ec; [|by constructor].
  destruct i as [key replica scale extracted children]. apply filterByInstance_filter in Es as ->.
  cbn [mbind list_bind] in Ec. by rewrite app_nil_r in Ec.
Qed.
End subtree.

Lemma buildComponent_places node : places (buildComponent other defs) node.
Proof.
  induction node as [name kind has_pods instances IH] using node_ind. intros pods c. cbn [buildComponent placed].
  destruct (if has_pods then _ else _) as [claimed|] eqn:Ec; [|done].
  assert (Hclaimed : claimed = if has_pods then filter (of_type defs name) pods else pods).
  { destruct has_pods; [|by injection Ec]. destruct (matchComponentType _ _ _) eqn:E; [|done].
    injection Ec as <-. by apply matchComponentType_filter. }
  rewrite <- Hclaimed. destruct (isMultiInstance instances); cbn [negb]; intros E.
  - by apply (instance_rows_listing _ _ _ _ _ _ _ _ _ [] IH) in E; [|apply rows_show_nil].
  - apply (row_listing _ _ _ _ _ _ _ IH) in E.
    replace (instances ≫= _) with (instances ≫= λ i, children_placed i claimed); [by destruct has_pods|].
    clear. induction instances as [|[] l IH]; [done|]. cbn [mbind list_bind]. by rewrite <- IH.
Qed.
End placed.

(** ** What the scheduler charges *)

Definition le_resources (a b : Resources) : Prop :=
  (rs_GPUs a ≤ rs_GPUs b ∧ rs_CPUMillis a ≤ rs_CPUMillis b ∧ rs_MemoryBytes a ≤ rs_MemoryBytes b)%Z.

(** Sums that do not wrap around. *)
Definition plus_resources (a b : Resources) : Resources :=
  MkResources (rs_GPUs a + rs_GPUs b) (rs_CPUMillis a + rs_CPUMillis b) (rs_MemoryBytes a + rs_MemoryBytes b).

Definition int64_limit : Z := (2 ^ 63)%Z.
Definition limit_resources : Resources := MkResources (int64_limit - 1) (int64_limit - 1) (int64_limit - 1).
Definition sum_resources (l : list Resources) : Resources := foldr plus_resources no_resources l.

Lemma wrap_int64_id z : (0 ≤ z < int64_limit)%Z → wrap_int64 z = z.
Proof. unfold wrap_int64, int64_limit. intros H. rewrite Z.mod_small by lia. lia. Qed.

Ltac resources :=
  repeat match goal with r : Resources |- _ => destruct r end;
  unfold le_resources, plus_resources, max_resources, no_resources, limit_resources in *; cbn in *.

Lemma add_exact a b :
  le_resources no_resources a → le_resources no_resources b → le_resources (plus_resources a b) limit_resources →
  add a b = plus_resources a b.
Proof. intros Ha Hb Hl. unfold add. resources. by rewrite !wrap_int64_id by lia. Qed.

Section scheduler.
Context `{PodFields}.

(** Kubernetes runs the init containers in turn next to the sidecars started
    before: what it charges for them is the largest such sum.  [sidecars] is what
    the sidecars so far request. *)
Fixpoint init_charge (sidecars : Resources) (l : list Container) : Resources * Resources :=
  match l with
  | [] => (sidecars, no_resources)
  | c :: l =>
      let request := container_request c in
      if isSidecar c then
        let '(total, largest) := init_charge (plus_resources sidecars request) l in
        (total, max_resources (plus_resources sidecars request) largest)
      else
        let '(total, largest) := init_charge sidecars l in
        (total, max_resources (plus_resources request sidecars) largest)
  end.

(** The request at the level of the pod, and the overhead on top. *)
Definition at_pod (spec : PodSpec) (total : Resources) : Resources :=
  let total :=
    match pod_Resources spec with
    | None => total
    | Some r =>
        let r := requirements_of r in
        MkResources (rs_GPUs total) (default (rs_CPUMillis total) (quantityOf r ResourceCPU))
          (default (rs_MemoryBytes total) (quantityOf r ResourceMemory))
    end in
  plus_resources total (requirementsOf (pod_Overhead spec, ∅)).

Definition charged (spec : PodSpec) : Resources :=
  let '(sidecars, largest) := init_charge no_resources (pod_InitContainers spec) in
  at_pod spec
    (max_resources largest (plus_resources (sum_resources (container_request <$> pod_Containers spec)) sidecars)).

(** No init container that ends comes after a sidecar. *)
Definition sidecars_last (l : list Container) : Prop :=
  ∃ l1 l2, l = l1 ++ l2 ∧ Forall (λ c, isSidecar c = false) l1 ∧ Forall (λ c, isSidecar c = true) l2.

(** What the pod declares for itself, and the overhead of its runtime. *)
Definition pod_level (spec : PodSpec) : Resources :=
  match pod_Resources spec with
  | None => no_resources
  | Some r => MkResources 0 (default 0%Z (quantityOf (requirements_of r) ResourceCPU))
                (default 0%Z (quantityOf (requirements_of r) ResourceMemory))
  end.
Definition overhead (spec : PodSpec) : Resources := requirementsOf (pod_Overhead spec, ∅).
Definition all_requests (spec : PodSpec) : Resources :=
  sum_resources (container_request <$> pod_Containers spec ++ pod_InitContainers spec).

Definition nonneg (c : Container) : Prop := le_resources no_resources (container_request c).

(** Requests are not negative, and all of them together fit in 63 bits. *)
Record fits (spec : PodSpec) : Prop := {
  fits_requests : Forall nonneg (pod_Containers spec ++ pod_InitContainers spec);
  fits_pod_level : le_resources no_resources (pod_level spec);
  fits_overhead : le_resources no_resources (overhead spec);
  fits_sum : le_resources (plus_resources (plus_resources (all_requests spec) (pod_level spec)) (overhead spec))
               limit_resources;
}.

Lemma sum_cons r l : sum_resources (r :: l) = plus_resources r (sum_resources l).
Proof. done. Qed.

Lemma sum_nonneg l :
  Forall (λ c, le_resources no_resources (container_request c)) l →
  le_resources no_resources (sum_resources (container_request <$> l)).
Proof.
  induction 1 as [|c l Hc _ IH]; [cbn; resources; lia|].
  rewrite fmap_cons, sum_cons. set (rest := sum_resources _) in *. set (r := container_request c) in *.
  clearbody rest r. resources. lia.
Qed.

Lemma sum_app l1 l2 :
  sum_resources (l1 ++ l2) = plus_resources (sum_resources l1) (sum_resources l2).
Proof.
  induction l1 as [|r l1 IH].
  - cbn [app]. change (sum_resources []) with no_resources. set (rest := sum_resources _). clearbody rest.
    resources. reflexivity.
  - cbn [app]. rewrite !sum_cons, IH. set (a := sum_resources l1). set (b := sum_resources l2). clearbody a b.
    resources. f_equal; lia.
Qed.

Lemma sumContainers_exact l :
  Forall (λ c, le_resources no_resources (container_request c)) l →
  le_resources (sum_resources (container_request <$> l)) limit_resources →
  sumContainers l = sum_resources (container_request <$> l).
Proof.
  intros Hl Hlim. unfold sumContainers.
  assert (Hgen : ∀ acc, le_resources no_resources acc →
    le_resources (plus_resources acc (sum_resources (container_request <$> l))) limit_resources →
    foldl (λ total c, add total (container_request c)) acc l =
    plus_resources acc (sum_resources (container_request <$> l))).
  { clear Hlim. induction Hl as [|c l Hc Hl IH]; intros acc Hacc Hlim.
    - cbn. resources. f_equal; lia.
    - pose proof (sum_nonneg l Hl) as Hs. rewrite fmap_cons, sum_cons in Hlim |- *. cbn [foldl].
      specialize (IH (plus_resources acc (container_request c))).
      set (rest := sum_resources _) in *. set (r := container_request c) in *. clearbody rest r.
      rewrite add_exact by (resources; lia). rewrite IH by (resources; lia).
      resources. f_equal; lia. }
  rewrite Hgen; set (rest := sum_resources _) in *; clearbody rest; resources; [reflexivity|lia|lia].
Qed.

(** *** The init containers *)

Definition side (l : list Container) : Resources :=
  sum_resources (container_request <$> filter (λ c, isSidecar c = true) l).
Definition peak (l : list Container) : Resources :=
  foldr max_resources no_resources (container_request <$> filter (λ c, isSidecar c = false) l).

Lemma side_cons c l :
  side (c :: l) = if isSidecar c then plus_resources (container_request c) (side l) else side l.
Proof. unfold side. rewrite filter_cons. by destruct (isSidecar c). Qed.

Lemma peak_cons c l :
  peak (c :: l) = if isSidecar c then peak l else max_resources (container_request c) (peak l).
Proof. unfold peak. rewrite filter_cons. by destruct (isSidecar c). Qed.

Lemma side_nonneg l : Forall nonneg l → le_resources no_resources (side l).
Proof.
  intros Hl. apply sum_nonneg, Forall_forall. intros c [_ Hc]%list_elem_of_filter.
  rewrite Forall_forall in Hl. by apply Hl.
Qed.

Lemma side_le_sum l : Forall nonneg l → le_resources (side l) (sum_resources (container_request <$> l)).
Proof.
  induction 1 as [|c l Hc Hl IH]; [cbn; resources; lia|].
  rewrite side_cons, fmap_cons, sum_cons. unfold nonneg in Hc.
  set (a := side l) in *. set (b := sum_resources _) in *. set (r := container_request c) in *.
  clearbody a b r. destruct (isSidecar c); resources; lia.
Qed.

Lemma init_fold l running largest :
  Forall nonneg l → le_resources no_resources running → le_resources no_resources largest →
  le_resources (plus_resources running (side l)) limit_resources →
  foldl init_step (running, largest) l = (plus_resources running (side l), max_resources largest (peak l)).
Proof.
  intros Hl. revert running largest. induction Hl as [|c l Hc Hl IH]; intros running largest Hr Hla Hlim.
  - cbn. resources. f_equal; f_equal; lia.
  - pose proof (side_nonneg l Hl) as Hs. unfold nonneg in Hc. rewrite side_cons in Hlim |- *. rewrite peak_cons.
    cbn [foldl init_step]. set (a := side l) in *. set (b := peak l) in *. set (r := container_request c) in *.
    clearbody a b r. destruct (isSidecar c).
    + rewrite add_exact by (resources; lia). rewrite IH by (resources; lia).
      f_equal. resources. f_equal; lia.
    + rewrite IH by (resources; lia). f_equal. resources. f_equal; lia.
Qed.

Lemma init_charge_spec l sidecars :
  Forall nonneg l → le_resources no_resources sidecars →
  (init_charge sidecars l).1 = plus_resources sidecars (side l) ∧
  le_resources (peak l) (init_charge sidecars l).2.
Proof.
  intros Hl. revert sidecars. induction Hl as [|c l Hc Hl IH]; intros s Hs.
  - cbn. resources. split; [f_equal|]; lia.
  - unfold nonneg in Hc. rewrite side_cons, peak_cons. cbn [init_charge].
    set (r := container_request c) in *. destruct (isSidecar c).
    + destruct (IH (plus_resources s r)) as [IH1 IH2]; [resources; lia|].
      destruct (init_charge _ l) as [t x]. cbn [fst snd] in *. subst t.
      set (a := side l) in *. set (b := peak l) in *. clearbody a b r. resources. split; [f_equal|]; lia.
    + destruct (IH s Hs) as [IH1 IH2]. destruct (init_charge _ l) as [t x]. cbn [fst snd] in *. subst t.
      set (a := side l) in *. set (b := peak l) in *. clearbody a b r. resources. split; [done|]. lia.
Qed.

Lemma init_charge_sidecars l sidecars :
  Forall nonneg l → Forall (λ c, isSidecar c = true) l → le_resources no_resources sidecars →
  le_resources (init_charge sidecars l).2 (plus_resources sidecars (side l)).
Proof.
  intros Hl Hall. revert sidecars. induction Hl as [|c l Hc Hl IH]; intros s Hs; [cbn; resources; lia|].
  apply Forall_cons in Hall as [Hsc Hall]. specialize (IH Hall (plus_resources s (container_request c))).
  pose proof (side_nonneg l Hl) as Hside. rewrite side_cons. cbn [init_charge]. rewrite Hsc.
  unfold nonneg in Hc. destruct (init_charge _ l) as [t x]. cbn [snd] in *.
  set (a := side l) in *. set (r := container_request c) in *. clearbody a r. clear Hl Hall.
  destruct (IH ltac:(resources; lia)) as (? & ? & ?). resources. lia.
Qed.

Lemma init_charge_last l1 l2 :
  Forall nonneg (l1 ++ l2) → Forall (λ c, isSidecar c = false) l1 → Forall (λ c, isSidecar c = true) l2 →
  le_resources (init_charge no_resources (l1 ++ l2)).2 (max_resources (peak (l1 ++ l2)) (side (l1 ++ l2))).
Proof.
  intros Hnn H1 H2. induction H1 as [|c l1 Hc H1 IH]; cbn [app] in *.
  - pose proof (init_charge_sidecars l2 no_resources Hnn H2) as Hle.
    set (x := (init_charge _ l2).2) in *. set (a := side l2) in *. set (b := peak l2) in *. clearbody x a b.
    destruct Hle as (? & ? & ?); [resources; lia|]. resources. lia.
  - apply Forall_cons in Hnn as [Hcn Hnn]. specialize (IH Hnn). rewrite side_cons, peak_cons. cbn [init_charge].
    rewrite Hc. destruct (init_charge no_resources (l1 ++ l2)) as [t x]. cbn [snd] in *.
    set (a := side _) in *. set (b := peak _) in *. set (r := container_request c) in *. clearbody a b r.
    resources. lia.
Qed.

Lemma at_pod_mono spec a b : le_resources a b → le_resources (at_pod spec a) (at_pod spec b).
Proof.
  intros Hab. unfold at_pod. set (o := requirementsOf _). clearbody o.
  destruct (pod_Resources spec) as [r|]; [|resources; lia].
  destruct (quantityOf (requirements_of r) ResourceCPU), (quantityOf (requirements_of r) ResourceMemory);
    resources; lia.
Qed.

Lemma le_resources_antisymm a b : le_resources a b → le_resources b a → a = b.
Proof. intros. resources. f_equal; lia. Qed.

Lemma peak_bounds l :
  Forall nonneg l →
  le_resources no_resources (peak l) ∧ le_resources (peak l) (sum_resources (container_request <$> l)).
Proof.
  induction 1 as [|c l Hc Hl [IH1 IH2]]; [cbn; resources; lia|].
  pose proof (sum_nonneg _ Hl) as Hs. unfold nonneg in Hc. rewrite peak_cons, fmap_cons, sum_cons.
  set (a := peak l) in *. set (b := sum_resources _) in *. set (r := container_request c) in *.
  clearbody a b r. destruct (isSidecar c); resources; lia.
Qed.

(** Adding the overhead last does not wrap around. *)
Lemma add_at_pod spec total :
  fits spec → le_resources no_resources total → le_resources total (all_requests spec) →
  add (match pod_Resources spec with
       | None => total
       | Some r =>
           MkResources (rs_GPUs total) (default (rs_CPUMillis total) (quantityOf (requirements_of r) ResourceCPU))
             (default (rs_MemoryBytes total) (quantityOf (requirements_of r) ResourceMemory))
       end) (overhead spec) = at_pod spec total.
Proof.
  intros [_ Hpl Hov Hsum] Hlo Hhi. unfold at_pod. fold (overhead spec). unfold pod_level in *.
  set (all := all_requests spec) in *. set (o := overhead spec) in *. clearbody all o.
  destruct (pod_Resources spec) as [r|]; [|apply add_exact; resources; lia].
  destruct (quantityOf (requirements_of r) ResourceCPU), (quantityOf (requirements_of r) ResourceMemory);
    apply add_exact; resources; lia.
Qed.

(** In exact arithmetic the code charges the peak of the init containers that
    end or the sum of all that run on, whichever is larger. *)
Lemma podRequest_exact spec :
  fits spec →
  podRequest spec = at_pod spec (max_resources (peak (pod_InitContainers spec))
    (plus_resources (sum_resources (container_request <$> pod_Containers spec)) (side (pod_InitContainers spec)))).
Proof.
  intros Hfits. destruct (Hfits) as [Hreq Hpl Hov Hsum]. apply Forall_app in Hreq as [Hc Hi].
  pose proof (sum_nonneg _ Hc) as Hcn. pose proof (side_nonneg _ Hi) as Hsn.
  pose proof (side_le_sum _ Hi) as Hss. pose proof (peak_bounds _ Hi) as [Hp0 Hp1].
  pose proof (sumContainers_exact _ Hc) as Ec.
  pose proof (init_fold _ (sum_resources (container_request <$> pod_Containers spec)) no_resources Hi Hcn) as Ei.
  pose proof (add_at_pod spec (max_resources (peak (pod_InitContainers spec))
    (plus_resources (sum_resources (container_request <$> pod_Containers spec)) (side (pod_InitContainers spec))))
    Hfits) as Ea.
  unfold all_requests in *. rewrite fmap_app, sum_app in *. unfold podRequest. fold (overhead spec).
  set (c := sum_resources (_ <$> pod_Containers spec)) in *.
  set (i := sum_resources (_ <$> pod_InitContainers spec)) in *.
  set (a := side _) in *. set (b := peak _) in *. set (o := overhead spec) in *. set (p := pod_level spec) in *.
  clearbody c i a b o p.
  rewrite Ec by (clear Ec Ei Ea; resources; lia). rewrite Ei by (clear Ec Ei Ea; resources; lia).
  rewrite <- Ea by (clear Ec Ei Ea; resources; lia).
  replace (max_resources no_resources b) with b; [done|]. clear Ec Ei Ea. resources. f_equal; lia.
Qed.

(** C23: with requests that are not negative and fit in 63 bits together, the
    request computed for a pod is, resource by resource, the largest request of an
    init container that ends, or the containers' and sidecars' requests together
    when that is more; a CPU or memory request of the pod itself stands in place
    of it, and the overhead comes on top.  It is never below the containers' and
    sidecars' requests together so adjusted, never above what the scheduler
    charges, and is what the scheduler charges when no init container that ends
    comes after a sidecar. *)
Theorem podRequest_charged spec (Hfits : fits spec) :
  let running := plus_resources (sum_resources (container_request <$> pod_Containers spec))
                   (side (pod_InitContainers spec)) in
  podRequest spec = at_pod spec (max_resources (peak (pod_InitContainers spec)) running) ∧
  le_resources (at_pod spec running) (podRequest spec) ∧
  le_resources (podRequest spec) (charged spec) ∧
  (sidecars_last (pod_InitContainers spec) → podRequest spec = charged spec).
Proof.
  intros running. split; [by apply podRequest_exact|]. rewrite podRequest_exact by done. fold running.
  split; [apply at_pod_mono; clearbody running; set (b := peak _); clearbody b; clear Hfits; resources; lia|].
  destruct Hfits as [Hreq _ _ _]. apply Forall_app in Hreq as [Hc Hi]. subst running.
  unfold charged. destruct (init_charge_spec _ no_resources Hi) as [E1 E2]; [resources; lia|].
  pose proof (sum_nonneg _ Hc) as Hcn.
  set (c := sum_resources (container_request <$> pod_Containers spec)) in *.
  assert (Hle : le_resources (max_resources (peak (pod_InitContainers spec)) (plus_resources c (side (pod_InitContainers spec))))
    (let '(sidecars, largest) := init_charge no_resources (pod_InitContainers spec) in
     max_resources largest (plus_resources c sidecars))).
  { destruct (init_charge _ _) as [t x]. cbn [fst snd] in *. subst t.
    set (a := side _) in *. set (b := peak _) in *. clearbody c a b. resources. lia. }
  split.
  - destruct (init_charge _ _) as [t x]. by apply at_pod_mono.
  - intros (l1 & l2 & El & Hl1 & Hl2). pose proof Hi as Hi'. rewrite El in Hi'.
    pose proof (init_charge_last l1 l2 Hi' Hl1 Hl2) as Hlast. rewrite <- El in Hlast.
    destruct (init_charge _ _) as [t x]. cbn [fst snd] in *. subst t.
    apply le_resources_antisymm; apply at_pod_mono; [done|].
    set (a := side _) in *. set (b := peak _) in *. clearbody c a b. clear -Hlast Hcn.
    resources. lia.
Qed.
End scheduler.

(** ** Properties *)

Lemma run_bind_inv {S A B} (m : M S A) (f : A → M S B) s b :
  run (m ≫= f) s = Ok b → ∃ a s', m s = (Ok a, s') ∧ run (f a) s' = Ok b.
Proof. unfold run, mbind, M_bind. destruct (m s) as [[a|] s']; [by exists a, s'|done]. Qed.

Section properties.
Context `{GoSort} `{PodFields} {P R : Type} `{!PodView_ P R} `{!Runner R}.
Context {S : Type} `{!ComponentAccessor S}.
Context (other : value → string) (Parse : string → result aval) (meta status : list rfield).

Lemma appendComponent_accounted (given : list P) l c has_pods :
  Forall (accounted given) l → accounted given c → Forall (accounted given) (appendComponent l c has_pods).
Proof.
  intros Hl Hc. unfold appendComponent. destruct (_ && _); [done|]. apply Forall_app. split; [done|by constructor].
Qed.

Lemma component_rows_accounted defs nodes pods l l' :
  Forall (accounted pods) l → component_rows other defs nodes pods l = Ok l' → Forall (accounted pods) l'.
Proof.
  revert l. induction nodes as [|[name kind has_pods instances] nodes IH]; intros l Hl; cbn [component_rows].
  { by intros [= <-]. }
  destruct (buildComponent _ _ _ _) as [c|] eqn:E; [|done]. apply IH, appendComponent_accounted; [done|].
  by eapply (buildComponent_accounted other pods).
Qed.

Lemma root_component_accounted defs root pods (s : S) l :
  run (root_component other defs root pods) s = Ok l → Forall (accounted pods) l.
Proof.
  unfold root_component. destruct (negb _); [intros [= <-]; constructor|].
  intros (instances & s1 & Hi & E)%run_bind_inv.
  assert (Hchildren : Forall (λ i, in_Children i = []) instances).
  { unfold rootInstances in Hi.
    assert (Hr : run (rootInstances root) s = Ok instances) by (unfold run, rootInstances; by rewrite Hi).
    apply run_bind_inv in Hr as (ext & s2 & _ & [= <-]). apply Forall_fmap, Forall_forall. done. }
  apply run_bind_inv in E as (claimed & s2 & Hc & E). unfold lift in Hc. injection Hc as Hc _.
  rewrite map_error_Ok in Hc.
  apply run_bind_inv in E as (component & s3 & Hb & [= <-]). unfold lift in Hb. injection Hb as Hb _.
  rewrite map_error_Ok in Hb. apply appendComponent_accounted; [constructor|].
  eapply (buildPodBearingComponent_accounted pods); [|by eapply matchComponentType_elem|exact Hb].
  eapply Forall_impl; [exact Hchildren|]. intros i ->. constructor.
Qed.

Lemma describe_accounted obj def pods (s : S) view :
  run (ResolveDescribe other Parse meta status obj def pods) s = Ok view →
  Forall (accounted pods) (dv_Components view).
Proof.
  unfold ResolveDescribe. intros (t & s1 & _ & E)%run_bind_inv.
  apply run_bind_inv in E as (root & s2 & _ & E). apply run_bind_inv in E as (l & s3 & Hl & E).
  apply run_bind_inv in E as (l' & s4 & Hl' & [= <-]). cbn [dv_Components].
  unfold lift in Hl'. injection Hl' as Hl' _.
  eapply component_rows_accounted; [|exact Hl'].
  apply (root_component_accounted (indexComponentDefs (df_Karta def)) root pods s2).
  unfold run. by rewrite Hl.
Qed.

Lemma component_rows_listing defs nodes pods l l' shown :
  rows_show (l ≫= pod_listing) shown → component_rows other defs nodes pods l = Ok l' →
  rows_show (l' ≫= pod_listing) (shown ++ (nodes ≫= λ node, placed other defs node pods)).
Proof.
  revert l shown. induction nodes as [|[name kind has_pods instances] nodes IH]; intros l shown Hl; cbn [component_rows].
  { intros [= <-]. by rewrite app_nil_r. }
  destruct (buildComponent _ _ _ _) as [c|] eqn:E; [|done]. cbn [mbind list_bind]. rewrite assoc_L by apply _.
  apply IH. rewrite appendComponent_listing. apply rows_show_app; [done|by eapply buildComponent_places].
Qed.

Lemma root_component_listing defs root pods (s : S) l :
  run (root_component other defs root pods) s = Ok l →
  rows_show (l ≫= pod_listing)
    (if HasPodDefinition root then pair (comp_name root) <$> filter (of_type defs (comp_name root)) pods else []).
Proof.
  unfold root_component. destruct (HasPodDefinition root); cbn [negb]; [|intros [= <-]; apply rows_show_nil].
  intros (instances & s1 & Hi & E)%run_bind_inv.
  assert (Hchildren : Forall (λ i, in_Children i = []) instances).
  { unfold rootInstances in Hi.
    assert (Hr : run (rootInstances root) s = Ok instances) by (unfold run, rootInstances; by rewrite Hi).
    apply run_bind_inv in Hr as (ext & s2 & _ & [= <-]). apply Forall_fmap, Forall_forall. done. }
  apply run_bind_inv in E as (claimed & s2 & Hc & E). unfold lift in Hc. injection Hc as Hc _.
  rewrite map_error_Ok in Hc. apply matchComponentType_filter in Hc as ->.
  apply run_bind_inv in E as (component & s3 & Hb & [= <-]). unfold lift in Hb. injection Hb as Hb _.
  rewrite map_error_Ok in Hb. cbn. rewrite app_nil_r.
  apply (row_listing other defs _ _ _ true) in Hb; [|eapply Forall_impl; [exact Hchildren|]; by intros i ->].
  replace (instances ≫= _) with (@nil (string * P)) in Hb; [by rewrite app_nil_r in Hb|].
  clear -Hchildren. induction Hchildren as [|i instances Hnil _ IH]; [done|]. cbn [mbind list_bind].
  unfold children_placed at 1. rewrite Hnil. exact IH.
Qed.

(** A description is of the object and the definition it is asked for, and every
    row lists the pods its component claims. *)
Lemma describe_of obj def pods (s : S) view :
  run (ResolveDescribe other Parse meta status obj def pods) s = Ok view →
  ∃ tree root,
    run (Build (NewComponentFactory (df_Karta def)) Parse meta status) s = Ok tree ∧
    GetRootComponent (NewComponentFactory (df_Karta def)) = Ok root ∧
    dv_View view = viewOf obj def tree ∧
    rows_show (dv_Components view ≫= pod_listing) (placed_all other (indexComponentDefs (df_Karta def)) root tree pods).
Proof.
  unfold ResolveDescribe. intros (tree & s1 & Ht & E)%run_bind_inv.
  apply run_bind_inv in E as (root & s2 & Hroot & E). apply run_bind_inv in E as (l & s3 & Hl & E).
  apply run_bind_inv in E as (l' & s4 & Hl' & [= <-]). exists tree, root. cbn [dv_View dv_Components].
  unfold lift in Hroot, Hl'. injection Hroot as Hroot _. rewrite map_error_Ok in Hroot. injection Hl' as Hl' _.
  split_and!; [|done|done|].
  - unfold wrap in Ht. unfold run. destruct (Build _ _ _ _ s) as [[t|] s']; naive_solver.
  - unfold placed_all. eapply component_rows_listing; [|exact Hl'].
    eapply (root_component_listing _ root pods s2). unfold run. by rewrite Hl.
Qed.

(** The resources of a description are those of its components. *)
Lemma describe_resources obj def pods (s : S) view :
  run (ResolveDescribe other Parse meta status obj def pods) s = Ok view →
  dv_FileMode view = false ∧ dv_Resources view = foldl add no_resources (cv_Resources <$> dv_Components view).
Proof.
  unfold ResolveDescribe. intros (t & s1 & _ & E)%run_bind_inv.
  apply run_bind_inv in E as (root & s2 & _ & E). apply run_bind_inv in E as (l & s3 & _ & E).
  apply run_bind_inv in E as (l' & s4 & _ & [= <-]). cbn [dv_Components dv_Resources dv_FileMode]. split; [done|].
  generalize no_resources as r. induction l' as [|c l' IH]; intros r; [done|]. apply IH.
Qed.

(** In a description every pod listed is one of the pods given, and the
    nodes of a component at any level are exactly the nodes of the pods listed in
    it and below, in order and each once; its current and ready counts are those of
    its own pods, or, in a row that only groups others, the sums of theirs. *)
Theorem ResolveDescribe_accounts obj def pods (s : S) view :
  run (ResolveDescribe other Parse meta status obj def pods) s = Ok view →
  Forall (accounted pods) (dv_Components view).
Proof. apply describe_accounted. Qed.
End properties.

(** ** Concrete inputs

    A container is a pair of its GPU request and whether it is a sidecar; a pod
    spec is its containers, its init containers and its node. *)

Definition sample_array (j : json) : list json := match j with JArray l => l | _ => [] end.
Definition sample_int (j : json) : Z := match j with JNumber (NInt z) => z | _ => 0 end.

#[local] Instance sample_fields : PodFields := {
  Quantity := Z;
  MilliValue q := (q * 1000)%Z;
  QuantityValue q := q;
  rr_Requests r := {[ gpuResourceName := sample_int r ]};
  rr_Limits r := ∅;
  ct_Resources c := match sample_array c with j :: _ => j | [] => JNull end;
  ct_RestartPolicy c := match sample_array c with [_; JBool true] => Some RestartPolicyAlways | _ => None end;
  pod_Containers s := match sample_array s with j :: _ => sample_array j | [] => [] end;
  pod_InitContainers s := match sample_array s with _ :: j :: _ => sample_array j | _ => [] end;
  pod_Resources s := None;
  pod_Overhead s := ∅;
  pod_NodeName s := match sample_array s with [_; _; JString n] => n | _ => "" end;
  template_Spec t := t;
}.

Definition sample_container (gpus : Z) (sidecar : bool) : json := JArray [JNumber (NInt gpus); JBool sidecar].
Definition sample_spec (containers inits : list json) (node : string) : json :=
  JArray [JArray containers; JArray inits; JString node].

(** Sidecars at the end of the init containers. *)
Definition plain_spec : json :=
  sample_spec [sample_container 2 false] [sample_container 3 false; sample_container 2 true] "n1".
(** A sidecar in front of a larger init container. *)
Definition sidecar_first : json :=
  sample_spec [sample_container 1 false] [sample_container 2 true; sample_container 3 false] "n1".

Lemma podRequest_charged_witness :
  fits plain_spec ∧ sidecars_last (pod_InitContainers plain_spec) ∧ podRequest plain_spec = charged plain_spec.
Proof.
  assert (Hf : fits plain_spec).
  { split; [|vm_compute; repeat split; discriminate..].
    repeat (constructor; [vm_compute; repeat split; discriminate|]). constructor. }
  assert (Hs : sidecars_last (pod_InitContainers plain_spec)).
  { exists [sample_container 3 false], [sample_container 2 true]. split; [done|].
    split; by repeat constructor. }
  split; [exact Hf|]. split; [exact Hs|]. exact (proj2 (proj2 (proj2 (podRequest_charged plain_spec Hf))) Hs).
Defined.

(** The scheduler charges five GPUs where the code counts three: the sidecar
    already runs next to the init container. *)
Lemma podRequest_below :
  rs_GPUs (podRequest sidecar_first) = 3%Z ∧ rs_GPUs (charged sidecar_first) = 5%Z.
Proof. by vm_compute. Qed.

Record sample_pod := SamplePod { sp_name : string; sp_spec : json; sp_answers : table }.

#[local] Instance sample_pod_view : PodView_ sample_pod table := {
  p_Name := sp_name;
  p_Spec := sp_spec;
  p_Status p := MkPodStatus "Running" "" [MkPodCondition PodReady StatusTrue ""];
  NewPodQuerier := sp_answers;
}.

(** One pod-bearing component below the root. *)
Definition solo_karta : Karta := {|
  k_ObjectMeta := k_ObjectMeta sample_karta;
  k_Spec := {|
    ks_StructureDefinition := {|
      st_RootComponent := RootComponent sample_karta;
      st_ChildComponents := [sample_component "worker" (Some "job") true];
      st_AdditionalChildKinds := [] |};
    ks_Instructions := {| oi_GangScheduling := None |} |} |}.

Definition solo_pods : list sample_pod :=
  [SamplePod "b" plain_spec (Table ∅); SamplePod "a" sidecar_first (Table ∅)].

Definition solo_describe : M table DescribeView :=
  ResolveDescribe (H:=insertion_GoSort) (P:=sample_pod) (R:=table) (λ _, "") (λ _, Ok AScalar) [] []
    (MkIdentity "w" "ns" "Job" "batch/v1" 0) (Def solo_karta OriginCatalog) solo_pods.

Definition solo_rows (v : DescribeView) : list (string * list string * list string) :=
  (λ c, (cv_Name c, pv_Name <$> cv_Pods c, cv_Nodes c)) <$> dv_Components v.

Example solo_describes :
  ∃ view, run solo_describe tree_table = Ok view ∧ solo_rows view = [("worker", ["a"; "b"], ["n1"])].
Proof. eexists. split; [vm_compute; reflexivity|]. done. Qed.

Lemma ResolveDescribe_accounts_witness :
  ∃ view, run solo_describe tree_table = Ok view ∧ Forall (accounted solo_pods) (dv_Components view).
Proof.
  destruct (run solo_describe tree_table) as [view|] eqn:E; [|exfalso; vm_compute in E; discriminate E].
  exists view. split; [done|].
  exact (ResolveDescribe_accounts (H:=insertion_GoSort) (λ _, "") (λ _, Ok AScalar) [] []
    (MkIdentity "w" "ns" "Job" "batch/v1" 0) (Def solo_karta OriginCatalog) solo_pods tree_table view E).
Defined.

(** A component whose spec definition names no pod shape counts as an owner of
    pods: with it, the only pod-bearing component claims none without a selector. *)
Example isSolePodOwner_counts :
  let bare := {| cd_Name := "bare"; cd_Kind := None; cd_OwnerRef := Some "job";
    cd_SpecDefinition := Some {| sd_PodTemplateSpecPath := None; sd_PodSpecPath := None;
      sd_MetadataPath := Some ".metadata"; sd_FragmentedPodSpecDefinition := None |};
    cd_ScaleDefinition := None; cd_StatusDefinition := None; cd_SuspendDefinition := None;
    cd_InstanceIdPath := None; cd_PodSelector := None |} in
  let defs : component_defs := {["worker" := sample_component "worker" (Some "job") true; "bare" := bare]} in
  isSolePodOwner defs = false ∧
  length (filter (λ kv, isComponentHasSpecDefinition kv.2 = true) (map_to_list defs)) = 1.
Proof. by vm_compute. Qed.
