(* ===== verification/CliGenerator.v ===== *)
(** * CliGenerator: what the command line tool prints

    Models [cli/pkg/generator]: the formats ([output.go], [render.go]), the
    table of workloads ([workload.go]) and the description of one workload
    ([describe.go]).  A writer takes a text or fails; what a tab writer makes of
    rows of cells it writes at once when flushed.  The encoders, the tab writer,
    the clock, the text of a duration and of a quantity are parameters. *)

From stdpp Require Import pretty.
From Stdlib Require Import Ascii.
From S2P Require Import Prelude Api JqValidate Validator Value Runner Accessor Component PodQuerier Sort Summary Gang Tree CliDefinitions CliDescribe.

(** ** Text *)

Definition newline : string := String "010" EmptyString.
Definition tab : string := String "009" EmptyString.

(** [strings.Join] *)
Fixpoint Join (l : list string) (sep : string) : string :=
  match l with
  | [] => ""
  | [s] => s
  | s :: l => s +:+ sep +:+ Join l sep
  end.

(** [strings.Lines]: each line with its end. *)
Fixpoint Lines (s : string) : list string :=
  match s with
  | EmptyString => []
  | String c s =>
      if Ascii.eqb c "010" then String c EmptyString :: Lines s
      else match Lines s with
           | [] => [String c EmptyString]
           | l :: ls => String c l :: ls
           end
  end.

(** [strings.TrimRight(s, " \n")] *)
Fixpoint trim_right (s : string) : string :=
  match s with
  | EmptyString => EmptyString
  | String c s =>
      let s := trim_right s in
      if bool_decide (s = "") && (Ascii.eqb c " " || Ascii.eqb c "010") then EmptyString else String c s
  end.

(** [strings.HasSuffix(s, "i")] *)
Fixpoint ends_in_i (s : string) : bool :=
  match s with
  | EmptyString => false
  | String c EmptyString => Ascii.eqb c "i"
  | String _ s => ends_in_i s
  end.

(** ** Formats *)

Definition OutputTable : string := "table".
Definition OutputWide : string := "wide".
Definition OutputJSON : string := "json".
Definition OutputYAML : string := "yaml".

Definition ErrUnsupportedOutput : string := "unsupported output format".

(** The envelope [list]; a slice that is nil is the empty list here. *)
Record envelope (T : Type) := MkEnvelope { Items : list T; Count : nat }.
Arguments MkEnvelope {T} _ _.
Arguments Items {T} _.
Arguments Count {T} _.

Definition newList {T} (items : list T) : envelope T := MkEnvelope items (length items).

Inductive stream := Stdout | Stderr.

Record Options := MkOptions {
  op_Output : string;
  op_Namespace : string;
  op_AllNamespaces : bool;
  op_ByName : bool;
  op_TypeOf : option (View → string);
}.

Definition ShowAllPods : Z := (-1)%Z.
Definition fileModeNote : string := "(file mode: no live status)".

Record DescribeOptions := MkDescribeOptions {
  do_Output : string;
  do_PodLimit : Z;
  do_ComponentLimit : Z;
}.

Record treeLimits := MkLimits { tl_pods : Z; tl_components : Z }.

Definition orNone (value : string) : string := if bool_decide (value = "") then "<none>" else value.
Definition deref (value : option string) : string := default "" value.

Definition branch (last : bool) : string := if last then "`-- " else "|-- ".
Definition indent (last : bool) : string := if last then "    " else "|   ".

Definition scale (replicas : Replicas) (fileMode : bool) : string :=
  if fileMode then "replicas: " +:+ pretty (rp_Desired replicas)
  else pretty (rp_Ready replicas) +:+ "/" +:+ pretty (rp_Desired replicas) +:+ " ready".

Definition podStatus (pod : PodView) : string :=
  if bool_decide (pv_Reason pod = "") then pv_Phase pod
  else pv_Phase pod +:+ " (" +:+ pv_Reason pod +:+ ")".

Definition resourceCell (request : Resources) : string :=
  if bool_decide (rs_GPUs request = 0%Z) then "" else "gpu: " +:+ pretty (rs_GPUs request).

(** ** Pods under a limit *)

Definition PodSucceeded : string := "Succeeded".

Definition podUnhealthy (pod : PodView) : bool :=
  negb (pv_Ready pod) && bool_decide (pv_Phase pod ≠ PodSucceeded).

Definition count {A} (p : A → bool) (l : list A) : nat := length (filter (λ x, p x = true) l).

(** The result: shown, hidden, how many shown are unhealthy and how many at all. *)
Definition limitPods (pods : list PodView) (limit : Z) : list PodView * Z * nat * nat :=
  let allUnhealthy := count podUnhealthy pods in
  if (limit <? 0)%Z || (Z.of_nat (length pods) <=? limit)%Z then (pods, 0%Z, allUnhealthy, allUnhealthy)
  else
    let ordered := SortStableFunc (first_less podUnhealthy) pods in
    let shown := take (Z.to_nat limit) ordered in
    (shown, (Z.of_nat (length ordered) - limit)%Z, count podUnhealthy shown, allUnhealthy).

(** ** Components under a limit *)

Inductive componentHealth := healthUnhealthy | healthMissingPods | healthOK.
#[export] Instance componentHealth_eq_dec : EqDecision componentHealth.
Proof. solve_decision. Defined.

(** Its number, most urgent first. *)
Definition rank (h : componentHealth) : nat :=
  match h with healthUnhealthy => 0 | healthMissingPods => 1 | healthOK => 2 end.
Definition health_min (a b : componentHealth) : componentHealth := if (rank b <? rank a)%nat then b else a.

Fixpoint healthOf (component : ComponentView) (fileMode : bool) : componentHealth :=
  match component with
  | MkComponentView _ _ replicas _ _ pods children =>
      if fileMode then healthOK
      else if existsb podUnhealthy pods then healthUnhealthy
      else
        let health := if (rp_Current replicas <? rp_Desired replicas)%Z then healthMissingPods else healthOK in
        foldl (λ health child, health_min health (healthOf child false)) health children
  end.

(** One pass of the loop that keeps the components of one health: the flags and
    how many are set. *)
Fixpoint keep_pass (limit : Z) (want : componentHealth) (health : list componentHealth)
    (keep : list bool) (kept : Z) : list bool * Z :=
  match health, keep with
  | h :: health, k :: keep =>
      let '(k, kept) := if (kept <? limit)%Z && bool_decide (h = want) then (true, (kept + 1)%Z) else (k, kept) in
      let '(keep, kept) := keep_pass limit want health keep kept in
      (k :: keep, kept)
  | _, _ => ([], kept)
  end.

Definition keep_components (limit : Z) (health : list componentHealth) : list bool :=
  let keep := (λ _, false) <$> health in
  (foldl (λ '(keep, kept) want, keep_pass limit want health keep kept) (keep, 0%Z)
     [healthUnhealthy; healthMissingPods; healthOK]).1.

(** The components are given with what was computed for each, read by [view]. *)
Definition limitComponents {A} (view : A → ComponentView) (components : list A) (limit : Z) (fileMode : bool)
    : list A * Z * nat * nat :=
  if (limit <=? 0)%Z || (Z.of_nat (length components) <=? limit)%Z then (components, 0%Z, 0, 0)
  else
    let health := (λ c, healthOf (view c) fileMode) <$> components in
    let keep := keep_components limit health in
    let rows := zip (zip components health) keep in
    ((filter (λ r, r.2 = true) rows).*1.*1, (Z.of_nat (length components) - limit)%Z,
     length (filter (λ r, r.2 = false ∧ r.1.2 = healthUnhealthy) rows),
     length (filter (λ r, r.2 = false ∧ r.1.2 = healthMissingPods) rows)).

(** ** Rows of the tree *)

Definition writePods (pods : list PodView) (prefix : string) (limit : Z) (childComponents : bool)
    : list (list string) :=
  let '(shown, hidden, shownUnhealthy, allUnhealthy) := limitPods pods limit in
  imap (λ i pod,
    let last := bool_decide (i = length shown - 1) && bool_decide (hidden = 0%Z) && negb childComponents in
    [prefix +:+ branch last +:+ pv_Name pod; podStatus pod; resourceCell (pv_Resources pod);
     orNone (deref (pv_Node pod))]) shown ++
  (if (0 <? hidden)%Z then
     let coverage :=
       if (shownUnhealthy <? allUnhealthy)%nat
       then pretty shownUnhealthy +:+ " of " +:+ pretty allUnhealthy +:+ " unhealthy shown"
       else pretty shownUnhealthy +:+ " unhealthy shown" in
     [[prefix +:+ branch (negb childComponents) +:+ "...";
       "and " +:+ pretty hidden +:+ " more (" +:+ coverage +:+ ")"; ""; ""]]
   else []).

(** The row that stands for the components a limit hides. *)
Definition hidden_row (prefix : string) (hidden : Z) (hiddenUnhealthy hiddenMissing : nat) : list string :=
  let noun := if bool_decide (hidden = 1%Z) then "component" else "components" in
  let note := "and " +:+ pretty hidden +:+ " more " +:+ noun in
  let counts :=
    (if (0 <? hiddenUnhealthy)%nat then [pretty hiddenUnhealthy +:+ " unhealthy"] else []) ++
    (if (0 <? hiddenMissing)%nat then [pretty hiddenMissing +:+ " with missing pods"] else []) in
  let note := match counts with [] => note | _ => note +:+ " (" +:+ Join counts ", " +:+ ")" end in
  [prefix +:+ branch true +:+ "..."; note; ""; ""].

Section tree.
Context (limits : treeLimits) (fileMode : bool).

(** How a component draws its rows, given the prefix and whether it is last. *)
Definition drawing : Type := string → bool → list (list string).

(** The body of [writeComponents]; each component comes with its drawing. *)
Definition write_drawn (components : list (ComponentView * drawing)) (prefix : string) : list (list string) :=
  let '(shown, hidden, hiddenUnhealthy, hiddenMissing) :=
    limitComponents fst components (tl_components limits) fileMode in
  concat (imap (λ i (c : ComponentView * drawing),
    c.2 prefix (bool_decide (i = length shown - 1) && bool_decide (hidden = 0%Z))) shown) ++
  (if (0 <? hidden)%Z then [hidden_row prefix hidden hiddenUnhealthy hiddenMissing] else []).

(** One turn of the loop of [writeComponents]. *)
Fixpoint draw (component : ComponentView) (prefix : string) (last : bool) : list (list string) :=
  match component with
  | MkComponentView name _ replicas resources nodes pods children =>
      let childPrefix := prefix +:+ indent last in
      [[prefix +:+ branch last +:+ name; scale replicas fileMode; resourceCell resources; Join nodes ","]] ++
      writePods pods childPrefix (tl_pods limits) (bool_decide (0 < length children)) ++
      write_drawn ((λ child, (child, draw child)) <$> children) childPrefix
  end.

Definition writeComponents (components : list ComponentView) (prefix : string) : list (list string) :=
  write_drawn ((λ c, (c, draw c)) <$> components) prefix.
End tree.

(** ** Resources *)

(** [request.X -= child.X] wraps around. *)
Definition sub (r other : Resources) : Resources :=
  MkResources (wrap_int64 (rs_GPUs r - rs_GPUs other)) (wrap_int64 (rs_CPUMillis r - rs_CPUMillis other))
    (wrap_int64 (rs_MemoryBytes r - rs_MemoryBytes other)).

Definition ownRequest (component : ComponentView) : Resources :=
  foldl (λ request child, sub request (cv_Resources child)) (cv_Resources component) (cv_Children component).

Definition children_desired (children : list ComponentView) : Z :=
  foldl (λ replicas child, wrap32 (replicas + rp_Desired (cv_Replicas child))) 0%Z children.

Definition isGrouping (component : ComponentView) : bool :=
  if bool_decide (length (cv_Children component) = 0) || bool_decide (0 < length (cv_Pods component)) then false
  else bool_decide (ownRequest component = no_resources) &&
       bool_decide (rp_Desired (cv_Replicas component) = children_desired (cv_Children component)).

Record resourceRow := MkRow { rr_name : string; rr_replicas : Z; rr_request : Resources }.

(** The rows of one component and of those below it. *)
Fixpoint component_resources (component : ComponentView) : list resourceRow :=
  (if negb (isGrouping component)
   then [MkRow (cv_Name component) (rp_Desired (cv_Replicas component)) (ownRequest component)] else []) ++
  match component with MkComponentView _ _ _ _ _ _ children => children ≫= component_resources end.

Definition resourceRows (components : list ComponentView) : list resourceRow :=
  components ≫= component_resources.

(** ** Writing *)

Section write.
Context {W : Type} (Write : stream → string → M W ()).
(** [printers.GetNewTabWriter] on lines of cells apart by tabs *)
Context (tabwrite : list string → string).
Context (now : Z) (IsZero : Z → bool) (HumanDuration : Z → string).
Context (MilliQuantity_String BinaryQuantity_String DecimalQuantity_String : Z → string).

Definition Fprintln (out : stream) (s : string) : M W () := Write out (s +:+ newline).
Definition row_line (cells : list string) : string := Join cells tab.

Definition age (createdAt : Z) : string :=
  if IsZero createdAt then "<unknown>" else HumanDuration (now - createdAt).

Definition render {T} (json yaml : T → result string) (out : stream) (format : string) (value : T)
    (human : stream → M W ()) : M W () :=
  if bool_decide (format = OutputTable) || bool_decide (format = OutputWide) then human out
  else if bool_decide (format = OutputJSON) then
    wrap (λ err, Errorf "encode as json: %w" [] [err]) (data ← lift (json value); Write out data)
  else if bool_decide (format = OutputYAML) then
    data ← wrap (λ err, Errorf "encode as yaml: %w" [] [err]) (lift (yaml value));
    wrap (λ err, Errorf "write yaml: %w" [] [err]) (Write out data)
  else fail (Errorf "%w %q" [AStr format] [Sentinel ErrUnsupportedOutput]).

Definition RenderOne {T} (json yaml : T → result string) := @render T json yaml.

Definition Render {T} (json yaml : T → result string) (jsons yamls : envelope T → result string)
    (out : stream) (format : string) (items : list T) (byName : bool) (table : stream → M W ()) : M W () :=
  match items with
  | [item] => if byName then RenderOne json yaml out format item table
              else render jsons yamls out format (newList items) table
  | _ => render jsons yamls out format (newList items) table
  end.

(** *** A table of workloads *)

Definition workload_headers (format : string) (typeOf : option (View → string)) : list string :=
  ["NAME"; "NAMESPACE"] ++ (match typeOf with Some _ => ["TYPE"] | None => [] end) ++ ["PHASE"; "AGE"] ++
  (if bool_decide (format = OutputWide) then ["ORIGIN"] else []).

Definition workload_cells (format : string) (typeOf : option (View → string)) (view : View) : list string :=
  [vw_Name view; vw_Namespace view] ++ (match typeOf with Some f => [f view] | None => [] end) ++
  [Join (vw_Phases view) ","; age (vw_CreatedAt view)] ++
  (if bool_decide (format = OutputWide) then [vw_Origin view] else []).

Definition renderWorkloadTable (out : stream) (views : list View) (format : string)
    (typeOf : option (View → string)) : M W () :=
  wrap (λ err, Errorf "write workloads table: %w" [] [err])
    (Write out (tabwrite (row_line <$> workload_headers format typeOf ::
                          (workload_cells format typeOf <$> views)))).

Definition empty_notice (opts : Options) : string :=
  if op_AllNamespaces opts then "No workloads found in any namespace."
  else "No workloads found in namespace " +:+ op_Namespace opts +:+ ".".

Definition RenderWorkloads (json yaml : View → result string) (jsons yamls : envelope View → result string)
    (out errOut : stream) (views : list View) (opts : Options) : M W () :=
  let format := if bool_decide (op_Output opts = "") then OutputTable else op_Output opts in
  let table (w : stream) : M W () :=
    match views with
    | [] => wrap (λ err, Errorf "write empty-result notice: %w" [] [err]) (Fprintln errOut (empty_notice opts))
    | _ => renderWorkloadTable w views format (op_TypeOf opts)
    end in
  Render json yaml jsons yamls out format views (op_ByName opts) table.

(** *** One workload *)

Definition cpu (millis : Z) : string := MilliQuantity_String millis.

Definition memory (bytes : Z) : string :=
  let binary := BinaryQuantity_String bytes in
  if ends_in_i binary then binary else DecimalQuantity_String bytes.

Definition writeHeader (out : stream) (view : DescribeView) : M W () :=
  let v := dv_View view in
  let fields :=
    [vw_Kind v +:+ "/" +:+ vw_Name v; "namespace: " +:+ orNone (vw_Namespace v);
     "definition: " +:+ vw_Definition v +:+ " (" +:+ vw_Origin v +:+ ")"] ++
    (if negb (dv_FileMode view) then ["age: " +:+ age (vw_CreatedAt v)] else []) in
  let w err := Errorf "write header: %w" [] [err] in
  wrap w (Fprintln out (Join fields "   "));;
  if dv_FileMode view then wrap w (Fprintln out fileModeNote) else mret ().

Definition writeTree (out : stream) (view : DescribeView) (limits : treeLimits) : M W () :=
  match dv_Components view with
  | [] => mret ()
  | components =>
      let w err := Errorf "write tree: %w" [] [err] in
      wrap w (Fprintln out "");;
      let tree := tabwrite (row_line <$> writeComponents limits (dv_FileMode view) components "") in
      mapM (λ line, wrap w (Fprintln out (trim_right line))) (Lines tree);;
      mret ()
  end.

Definition writeStatus (out : stream) (view : DescribeView) : M W () :=
  if dv_FileMode view then mret ()
  else wrap (λ err, Errorf "write status: %w" [] [err])
         (Write out (newline +:+ "Phase: " +:+ Join (vw_Phases (dv_View view)) "," +:+ newline)).

Definition resource_cells (row : resourceRow) : list string :=
  [rr_name row; pretty (rr_replicas row); pretty (rs_GPUs (rr_request row));
   cpu (rs_CPUMillis (rr_request row)); memory (rs_MemoryBytes (rr_request row))].

Definition total_replicas (rows : list resourceRow) : Z :=
  foldl (λ replicas row, wrap32 (replicas + rr_replicas row)) 0%Z rows.

Definition writeResources (out : stream) (view : DescribeView) : M W () :=
  let w err := Errorf "write resources: %w" [] [err] in
  wrap w (Fprintln out (newline +:+ "Resources:"));;
  let rows := resourceRows (dv_Components view) in
  wrap w (Write out (tabwrite (row_line <$>
    ["COMPONENT"; "REPLICAS"; "GPU"; "CPU"; "MEMORY"] ::
    (resource_cells <$> rows ++ [MkRow "TOTAL" (total_replicas rows) (dv_Resources view)])))).

Definition workloadText (out : stream) (view : DescribeView) (limits : treeLimits) : M W () :=
  writeHeader out view;; writeTree out view limits;; writeStatus out view;; writeResources out view.

Definition RenderWorkload (json yaml : DescribeView → result string) (out : stream) (view : DescribeView)
    (opts : DescribeOptions) : M W () :=
  let format := if bool_decide (do_Output opts = "") then OutputTable else do_Output opts in
  let pods := if bool_decide (do_PodLimit opts = 0%Z) then ShowAllPods else do_PodLimit opts in
  RenderOne json yaml out format view
    (λ w, workloadText w view (MkLimits pods (do_ComponentLimit opts))).
End write.

(** ** Limits *)

Section limits.

(** The elements at the places where a flag is set, and those where it is not. *)
Definition flagged {A} (b : bool) (l : list A) (keep : list bool) : list A :=
  (filter (λ r, r.2 = b) (zip l keep)).*1.

Lemma flagged_cons {A} b x (l : list A) k keep :
  flagged b (x :: l) (k :: keep) = (if bool_decide (k = b) then [x] else []) ++ flagged b l keep.
Proof.
  unfold flagged. cbn [zip zip_with]. rewrite filter_cons. cbn.
  by case_decide; case_bool_decide.
Qed.

Lemma flagged_sublist {A} b (l : list A) keep : sublist (flagged b l keep) l.
Proof.
  revert keep. induction l as [|x l IH]; intros [|k keep]; [done|done|apply sublist_nil_l|].
  rewrite flagged_cons. case_bool_decide; cbn; [by apply sublist_skip|by apply sublist_cons].
Qed.

Lemma flagged_split {A} (l : list A) keep :
  length keep = length l → l ≡ₚ flagged true l keep ++ flagged false l keep.
Proof.
  revert keep. induction l as [|x l IH]; intros [|k keep]; [done|done|done|].
  intros [= Hlen]. rewrite !flagged_cons. destruct k.
  - cbn. constructor. by apply IH.
  - change (x :: l ≡ₚ flagged true l keep ++ x :: flagged false l keep).
    rewrite <- Permutation_middle. constructor. by apply IH.
Qed.

Lemma flagged_elem {A} b x (l : list A) keep :
  x ∈ flagged b l keep → ∃ i, l !! i = Some x ∧ keep !! i = Some b.
Proof.
  revert keep. induction l as [|y l IH]; intros [|k keep]; [by intros ?%not_elem_of_nil..|].
  rewrite flagged_cons, elem_of_app. intros [Hx|Hx].
  - case_bool_decide; [|by apply not_elem_of_nil in Hx]. apply list_elem_of_singleton in Hx. subst. by exists 0.
  - destruct (IH _ Hx) as (i & ? & ?). by exists (S i).
Qed.

Lemma flagged_count (keep : list bool) {A} (l : list A) :
  length keep = length l → length (flagged true l keep) = count id keep.
Proof.
  revert keep. induction l as [|x l IH]; intros [|k keep]; [done|done|done|].
  intros [= Hlen]. rewrite flagged_cons, length_app, (IH keep Hlen). unfold count. rewrite filter_cons.
  by destruct k.
Qed.

(** How many of a health are among the first [i]. *)
Definition among (want : componentHealth) (health : list componentHealth) (i : nat) : Z :=
  Z.of_nat (length (filter (λ h, h = want) (take i health))).
Definition all_of (want : componentHealth) (health : list componentHealth) : Z :=
  Z.of_nat (length (filter (λ h, h = want) health)).

Lemma all_of_cons want h health :
  all_of want (h :: health) = ((if bool_decide (h = want) then 1 else 0) + all_of want health)%Z.
Proof.
  unfold all_of. rewrite filter_cons. case_decide; case_bool_decide; [|done|done|done]. cbn [length]. lia.
Qed.

Lemma among_S want h health i :
  among want (h :: health) (S i) = ((if bool_decide (h = want) then 1 else 0) + among want health i)%Z.
Proof. unfold among. cbn [take]. apply all_of_cons. Qed.

Lemma among_lt want health i : health !! i = Some want → (among want health i < all_of want health)%Z.
Proof.
  revert i. induction health as [|h health IH]; intros i Hi; [done|]. rewrite all_of_cons.
  destruct i as [|i]; cbn in Hi.
  - simplify_eq. rewrite bool_decide_eq_true_2 by done. unfold among, all_of. cbn. lia.
  - rewrite among_S. specialize (IH _ Hi). lia.
Qed.

(** A pass flags the first of the health wanted, up to the limit. *)
Lemma keep_pass_spec limit want health keep kept :
  length keep = length health →
  let '(keep', kept') := keep_pass limit want health keep kept in
  length keep' = length health ∧
  kept' = (kept + Z.min (all_of want health) (Z.max 0 (limit - kept)))%Z ∧
  (∀ i h k, health !! i = Some h → keep !! i = Some k →
     keep' !! i = Some (k || bool_decide (h = want) && (kept + among want health i <? limit)%Z)).
Proof.
  revert keep kept. induction health as [|h health IH]; intros [|k keep] kept; [|done..|].
  { intros _. cbn. split; [done|]. split; [unfold all_of; cbn; lia|done]. }
  intros [= Hlen]. cbn [keep_pass].
  set (kept1 := if (kept <? limit)%Z && bool_decide (h = want) then (kept + 1)%Z else kept).
  set (k1 := if (kept <? limit)%Z && bool_decide (h = want) then true else k).
  assert ((if (kept <? limit)%Z && bool_decide (h = want) then (true, (kept + 1)%Z) else (k, kept)) = (k1, kept1))
    as -> by (subst k1 kept1; by destruct (_ && _)).
  specialize (IH keep kept1 Hlen). destruct (keep_pass limit want health keep kept1) as [keep' kept'].
  destruct IH as (IH1 & IH2 & IH3). cbn [length]. split; [by f_equal|].
  assert (Hall : (0 <= all_of want health)%Z) by (unfold all_of; lia). split.
  - rewrite all_of_cons. subst kept'. unfold kept1. destruct (Z.ltb_spec kept limit); case_bool_decide; cbn; lia.
  - intros [|i] h' k' Hh Hk; cbn in Hh, Hk.
    + simplify_eq. cbn. f_equal. unfold k1. change (among want (h' :: health) 0) with 0%Z.
      rewrite Z.add_0_r. by destruct (kept <? limit)%Z, (bool_decide (h' = want)), k'.
    + change (keep' !! i = Some (k' || bool_decide (h' = want) && (kept + among want (h :: health) (S i) <? limit)%Z)).
      rewrite (IH3 i h' k' Hh Hk), among_S. f_equal. f_equal.
      destruct (bool_decide (h' = want)) eqn:E; [|done]. cbn.
      unfold kept1. destruct (Z.ltb_spec kept limit) as [?|Hge]; cbn.
      * apply (f_equal (λ z, (z <? limit)%Z)). destruct (bool_decide (h = want)); lia.
      * assert (0 <= among want health i)%Z by (unfold among; lia).
        destruct (Z.ltb_spec (kept + among want health i) limit); [lia|].
        symmetry. apply Z.ltb_ge. destruct (bool_decide (h = want)); lia.
Qed.

Lemma keep_pass_count limit want health keep kept :
  length keep = length health →
  (∀ i, keep !! i = Some true → health !! i ≠ Some want) →
  let '(keep', kept') := keep_pass limit want health keep kept in
  (Z.of_nat (count id keep') - kept' = Z.of_nat (count id keep) - kept)%Z.
Proof.
  assert (Hc : ∀ k keep, count id (k :: keep) = (if k then 1 else 0) + count id keep).
  { intros k l. unfold count. rewrite filter_cons. by destruct k. }
  revert keep kept. induction health as [|h health IH]; intros [|k keep] kept; [done|done|done|].
  intros [= Hlen] Hno. cbn [keep_pass].
  assert (Hno' : ∀ i, keep !! i = Some true → health !! i ≠ Some want) by (intros i; apply (Hno (S i))).
  destruct ((kept <? limit)%Z && bool_decide (h = want)) eqn:E.
  - apply andb_true_iff in E as [_ ->%bool_decide_eq_true].
    assert (k = false) as -> by (destruct k; [by destruct (Hno 0)|done]).
    specialize (IH keep (kept + 1)%Z Hlen Hno'). destruct (keep_pass _ _ _ _ _) as [keep' kept'].
    rewrite !Hc. lia.
  - specialize (IH keep kept Hlen Hno'). destruct (keep_pass _ _ _ _ _) as [keep' kept'].
    rewrite !Hc. lia.
Qed.

(** How many are more urgent. *)
Definition more_urgent (h : componentHealth) (health : list componentHealth) : Z :=
  match h with
  | healthUnhealthy => 0
  | healthMissingPods => all_of healthUnhealthy health
  | healthOK => all_of healthUnhealthy health + all_of healthMissingPods health
  end.

Lemma all_of_total health :
  (all_of healthUnhealthy health + all_of healthMissingPods health + all_of healthOK health =
   Z.of_nat (length health))%Z.
Proof. induction health as [|[] health IH]; [done|..]; rewrite !all_of_cons; repeat case_bool_decide; try done; cbn [length]; lia. Qed.

(** The first by health, the earlier first within a health, are kept. *)
Lemma keep_components_spec limit health :
  (0 <= limit)%Z →
  length (keep_components limit health) = length health ∧
  Z.of_nat (count id (keep_components limit health)) = Z.min limit (Z.of_nat (length health)) ∧
  ∀ i h, health !! i = Some h →
    keep_components limit health !! i = Some (more_urgent h health + among h health i <? limit)%Z.
Proof.
  intros Hlim. unfold keep_components. cbn [foldl].
  set (keep0 := (λ _, false) <$> health).
  assert (L0 : length keep0 = length health) by apply length_fmap.
  assert (H0 : ∀ i h, health !! i = Some h → keep0 !! i = Some false).
  { intros i h Hh. unfold keep0. by rewrite list_lookup_fmap, Hh. }
  assert (C0 : count id keep0 = 0).
  { unfold keep0. clear. induction health as [|h health IH]; [done|]. exact IH. }
  assert (N0 : ∀ i, keep0 !! i = Some true → health !! i ≠ Some healthUnhealthy).
  { intros i E Hh. by rewrite (H0 _ _ Hh) in E. }
  pose proof (keep_pass_spec limit healthUnhealthy health keep0 0 L0) as P1.
  pose proof (keep_pass_count limit healthUnhealthy health keep0 0 L0 N0) as Q1.
  destruct (keep_pass limit healthUnhealthy health keep0 0) as [keep1 kept1]. destruct P1 as (L1 & K1 & H1).
  assert (Hin : ∀ i (keep : list bool), length keep = length health → keep !! i = Some true → ∃ h, health !! i = Some h).
  { intros i keep HL Hk. apply lookup_lt_is_Some. rewrite <- HL. by eapply lookup_lt_Some. }
  assert (N1 : ∀ i, keep1 !! i = Some true → health !! i ≠ Some healthMissingPods).
  { intros i E Hh. by rewrite (H1 _ _ _ Hh (H0 _ _ Hh)) in E. }
  pose proof (keep_pass_spec limit healthMissingPods health keep1 kept1 L1) as P2.
  pose proof (keep_pass_count limit healthMissingPods health keep1 kept1 L1 N1) as Q2.
  destruct (keep_pass limit healthMissingPods health keep1 kept1) as [keep2 kept2]. destruct P2 as (L2 & K2 & H2).
  assert (N2 : ∀ i, keep2 !! i = Some true → health !! i ≠ Some healthOK).
  { intros i E Hh. by rewrite (H2 _ _ _ Hh (H1 _ _ _ Hh (H0 _ _ Hh))) in E. }
  pose proof (keep_pass_spec limit healthOK health keep2 kept2 L2) as P3.
  pose proof (keep_pass_count limit healthOK health keep2 kept2 L2 N2) as Q3.
  destruct (keep_pass limit healthOK health keep2 kept2) as [keep3 kept3]. destruct P3 as (L3 & K3 & H3).
  cbn [fst]. pose proof (all_of_total health) as Ht.
  assert (Hp : ∀ h, (0 <= all_of h health)%Z) by (intros; unfold all_of; lia).
  pose proof (Hp healthUnhealthy) as HpU. pose proof (Hp healthMissingPods) as HpM. pose proof (Hp healthOK) as HpO.
  split; [done|]. split; [clear -Q1 Q2 Q3 C0 K1 K2 K3 Ht HpU HpM HpO Hlim; lia|].
  intros i h Hh. rewrite (H3 _ _ _ Hh (H2 _ _ _ Hh (H1 _ _ _ Hh (H0 _ _ Hh)))). f_equal.
  assert (Ha : (0 <= among h health i)%Z) by (unfold among; lia).
  destruct h; cbn -[Z.add]; rewrite ?orb_false_r, ?orb_true_r; [done|..].
  - clear -Ha K1 HpU Hlim. destruct (Z.ltb_spec (kept1 + among healthMissingPods health i) limit),
      (Z.ltb_spec (all_of healthUnhealthy health + among healthMissingPods health i) limit); lia || done.
  - clear -Ha K1 K2 HpU HpM Hlim. destruct (Z.ltb_spec (kept2 + among healthOK health i) limit),
      (Z.ltb_spec (all_of healthUnhealthy health + all_of healthMissingPods health + among healthOK health i) limit);
      lia || done.
Qed.
End limits.

Section shown.
Context {A : Type} (f : A → componentHealth).

Lemma zip_with_health (l : list A) : zip l (f <$> l) = (λ x, (x, f x)) <$> l.
Proof. induction l as [|x l IH]; [done|]. cbn. by f_equal. Qed.

Lemma flagged_view b (l : list A) keep :
  (filter (λ r, r.2 = b) (zip (zip l (f <$> l)) keep)).*1.*1 = flagged b l keep.
Proof.
  rewrite zip_with_health. revert keep. induction l as [|x l IH]; intros [|k keep]; [done|done|done|].
  rewrite flagged_cons. cbn [fmap list_fmap zip zip_with]. rewrite filter_cons.
  destruct (decide (k = b)).
  - rewrite decide_True, bool_decide_eq_true_2 by done. cbn. f_equal. apply IH.
  - rewrite decide_False, bool_decide_eq_false_2 by done. apply IH.
Qed.

Lemma flagged_health b h (l : list A) keep :
  length (filter (λ r, r.2 = b ∧ r.1.2 = h) (zip (zip l (f <$> l)) keep)) =
  length (filter (λ x, f x = h) (flagged b l keep)).
Proof.
  rewrite zip_with_health. revert keep. induction l as [|x l IH]; intros [|k keep]; [done|done|done|].
  rewrite flagged_cons, filter_app, length_app. cbn [fmap list_fmap zip zip_with]. rewrite filter_cons.
  rewrite <- IH. cbn [snd fst]. destruct (decide (k = b)), (decide (f x = h)).
  - by rewrite bool_decide_eq_true_2, decide_True, filter_cons_True.
  - by rewrite bool_decide_eq_true_2, decide_False, filter_cons_False by tauto.
  - by rewrite bool_decide_eq_false_2, decide_False by tauto.
  - by rewrite bool_decide_eq_false_2, decide_False by tauto.
Qed.
End shown.

(** ** Properties *)

Lemma count_take_filter {A} (p : A → bool) (l : list A) n :
  count p (take n (filter (λ x, p x = true) l ++ filter (λ x, p x = false) l)) = min n (count p l).
Proof.
  unfold count. rewrite take_app, filter_app, length_app.
  rewrite (filter_all _ (take n (filter (λ x, p x = true) l))), (filter_none _ (take _ (filter (λ x, p x = false) l))).
  - rewrite length_take. cbn. lia.
  - apply Forall_take, Forall_forall. intros x [-> _]%list_elem_of_filter. done.
  - apply Forall_take, Forall_forall. by intros x [? _]%list_elem_of_filter.
Qed.

(** Under a limit of components the rows shown are as many as the limit, in
    the declared order, and none that is cut is in worse health than one shown;
    the note counts those cut, the unhealthy and those with missing pods among
    them. *)
Theorem limitComponents_urgent components limit fileMode
    (Hlimit : (0 < limit < Z.of_nat (length components))%Z) :
  ∃ shown cut,
    limitComponents id components limit fileMode =
      (shown, Z.of_nat (length cut),
       length (filter (λ c, healthOf c fileMode = healthUnhealthy) cut),
       length (filter (λ c, healthOf c fileMode = healthMissingPods) cut)) ∧
    sublist shown components ∧ components ≡ₚ shown ++ cut ∧ Z.of_nat (length shown) = limit ∧
    ∀ s c, s ∈ shown → c ∈ cut → rank (healthOf s fileMode) ≤ rank (healthOf c fileMode).
Proof.
  set (f := λ c, healthOf c fileMode).
  destruct (keep_components_spec limit (f <$> components)) as (HL & HC & HK); [lia|].
  rewrite length_fmap in HL, HC. set (keep := keep_components limit (f <$> components)) in *.
  exists (flagged true components keep), (flagged false components keep).
  assert (Hlen : Z.of_nat (length (flagged true components keep)) = limit) by (rewrite flagged_count by done; lia).
  pose proof (flagged_split components keep HL) as Hp. split_and!; [|apply flagged_sublist|done|done|].
  - unfold limitComponents. rewrite (proj2 (Z.leb_gt limit 0)), (proj2 (Z.leb_gt _ limit)) by lia. cbn [orb].
    change ((λ c, healthOf (id c) fileMode) <$> components) with (f <$> components). fold keep.
    rewrite flagged_view, !flagged_health. do 3 f_equal.
    apply Permutation_length in Hp. rewrite length_app in Hp. lia.
  - intros s c (i & Hs & Ki)%flagged_elem (j & Hc & Kj)%flagged_elem.
    assert (Hi : (f <$> components) !! i = Some (f s)) by (by rewrite list_lookup_fmap, Hs).
    assert (Hj : (f <$> components) !! j = Some (f c)) by (by rewrite list_lookup_fmap, Hc).
    rewrite (HK _ _ Hi) in Ki. rewrite (HK _ _ Hj) in Kj. injection Ki as Ki. injection Kj as Kj.
    apply Z.ltb_lt in Ki. apply Z.ltb_ge in Kj.
    pose proof (among_lt _ _ _ Hj) as Hlt. fold (f s) (f c).
    assert (Hnn : ∀ h l k, (0 <= among h l k)%Z) by (intros; unfold among; lia).
    assert (Hna : ∀ h l, (0 <= all_of h l)%Z) by (intros; unfold all_of; lia).
    pose proof (Hnn (f s) (f <$> components) i). pose proof (Hna healthMissingPods (f <$> components)).
    destruct (f s), (f c); cbn in *; lia.
Qed.

(** Under a limit of pods the unhealthy are shown first, both kinds in their
    order, and the numbers beside them are those of the rows cut, of the unhealthy
    shown and of all unhealthy. *)
Theorem limitPods_unhealthy_first pods limit (Hlimit : (0 <= limit < Z.of_nat (length pods))%Z) :
  limitPods pods limit =
  (take (Z.to_nat limit) (filter (λ p, podUnhealthy p = true) pods ++ filter (λ p, podUnhealthy p = false) pods),
   (Z.of_nat (length pods) - limit)%Z, min (Z.to_nat limit) (count podUnhealthy pods), count podUnhealthy pods).
Proof.
  unfold limitPods. rewrite (proj2 (Z.ltb_ge limit 0)), (proj2 (Z.leb_gt _ limit)) by lia. cbn [orb].
  rewrite SortStableFunc_first, count_take_filter. do 3 f_equal.
  rewrite <- (SortStableFunc_first podUnhealthy). unfold SortStableFunc. by rewrite insertion_sort_Permutation.
Qed.

(** *** Components and those below them *)

Lemma component_ind (Q : ComponentView → Prop) :
  (∀ name kind replicas resources nodes pods children,
     Forall Q children → Q (MkComponentView name kind replicas resources nodes pods children)) →
  ∀ c, Q c.
Proof.
  intros Hstep. fix IH 1. intros [name kind replicas resources nodes pods children]. apply Hstep.
  induction children as [|child children IHc]; constructor; [apply IH|exact IHc].
Qed.

Fixpoint all_components (c : ComponentView) : list ComponentView :=
  match c with MkComponentView _ _ _ _ _ _ children => c :: (children ≫= all_components) end.

Definition missing_pods (c : ComponentView) : Prop := (rp_Current (cv_Replicas c) < rp_Desired (cv_Replicas c))%Z.

Lemma rank_inj a b : rank a = rank b → a = b.
Proof. by destruct a, b. Qed.

Lemma health_fold {A} (f : A → componentHealth) h l n :
  rank (foldl (λ h x, health_min h (f x)) h l) ≤ n ↔ rank h ≤ n ∨ Exists (λ x, rank (f x) ≤ n) l.
Proof.
  revert h. induction l as [|x l IH]; intros h; cbn; [split; [by left|by intros [?|?%Exists_nil]]|].
  rewrite IH, Exists_cons. unfold health_min. destruct (Nat.ltb_spec (rank (f x)) (rank h)).
  - split; [naive_solver|]. intros [?|[?|?]]; [left; lia|by left|by right].
  - split; [naive_solver|]. intros [?|[?|?]]; [by left|left; lia|by right].
Qed.

Definition pods_unhealthy (c : ComponentView) : Prop := Exists (λ pod, podUnhealthy pod = true) (cv_Pods c).

Lemma healthOf_step c n :
  rank (healthOf c false) ≤ n ↔
  pods_unhealthy c ∨ (1 ≤ n ∧ missing_pods c) ∨ 2 ≤ n ∨ Exists (λ child, rank (healthOf child false) ≤ n) (cv_Children c).
Proof.
  destruct c as [name kind replicas resources nodes pods children].
  unfold pods_unhealthy, missing_pods. cbn [cv_Pods cv_Replicas cv_Children healthOf].
  destruct (existsb podUnhealthy pods) eqn:E.
  - apply existsb_exists in E as (pod & Hin%list_elem_of_In & Hp). cbn. split; [|lia].
    intros _. left. apply Exists_exists. by exists pod.
  - assert (¬ Exists (λ pod, podUnhealthy pod = true) pods) as Hno.
    { intros (pod & Hin%list_elem_of_In & Hp)%Exists_exists.
      rewrite (proj2 (existsb_exists _ _)) in E; [done|]. by exists pod. }
    rewrite health_fold. destruct (Z.ltb_spec (rp_Current replicas) (rp_Desired replicas)); cbn; split.
    + intros [?|?]; [right; left; split; [lia|done]|by right; right; right].
    + intros [?|[[? _]|[?|?]]]; [done|by left|left; lia|by right].
    + intros [?|?]; [by right; right; left|by right; right; right].
    + intros [?|[[_ ?]|[?|?]]]; [done|lia|by left|by right].
Qed.

(** The health of a component is that of everything below it: unhealthy as
    soon as one pod is, else missing pods as soon as one component is short of
    them; a manifest is healthy. *)
Theorem healthOf_exact component :
  healthOf component true = healthOK ∧
  (healthOf component false = healthUnhealthy ↔ Exists (λ pod, podUnhealthy pod = true) (all_pods component)) ∧
  (healthOf component false = healthMissingPods ↔
     Forall (λ pod, podUnhealthy pod = false) (all_pods component) ∧
     Exists missing_pods (all_components component)).
Proof.
  assert (H0 : ∀ c, rank (healthOf c false) ≤ 0 ↔ Exists (λ pod, podUnhealthy pod = true) (all_pods c)).
  { induction c as [name kind replicas resources nodes pods children IH] using component_ind.
    rewrite healthOf_step, all_pods_eq, Exists_app. unfold pods_unhealthy. cbn [cv_Pods cv_Children].
    assert (Exists (λ child, rank (healthOf child false) ≤ 0) children ↔
            Exists (λ pod, podUnhealthy pod = true) (children ≫= all_pods)) as ->; [|naive_solver lia].
    clear -IH. induction IH as [|child children Hc _ IH']; [by rewrite !Exists_nil|].
    rewrite bind_cons, Exists_app, Exists_cons, Hc. naive_solver. }
  assert (H1 : ∀ c, rank (healthOf c false) ≤ 1 ↔
                    rank (healthOf c false) ≤ 0 ∨ Exists missing_pods (all_components c)).
  { induction c as [name kind replicas resources nodes pods children IH] using component_ind.
    rewrite !healthOf_step. cbn [all_components cv_Children]. rewrite Exists_cons.
    assert (Exists (λ child, rank (healthOf child false) ≤ 1) children ↔
            Exists (λ child, rank (healthOf child false) ≤ 0) children ∨
            Exists missing_pods (children ≫= all_components)) as Hch; [|naive_solver lia].
    clear -IH. induction IH as [|child children Hc _ IH']; [rewrite !Exists_nil; tauto|].
    rewrite bind_cons, Exists_app, !Exists_cons, Hc. naive_solver. }
  split; [by destruct component|].
  assert (E0 : healthOf component false = healthUnhealthy ↔ rank (healthOf component false) ≤ 0).
  { destruct (healthOf component false); cbn; split; done || lia. }
  split; [by rewrite E0|].
  assert (healthOf component false = healthMissingPods ↔
          ¬ rank (healthOf component false) ≤ 0 ∧ rank (healthOf component false) ≤ 1) as ->.
  { destruct (healthOf component false); cbn; split; done || lia. }
  rewrite H1, H0.
  assert (¬ Exists (λ pod, podUnhealthy pod = true) (all_pods component) ↔
          Forall (λ pod, podUnhealthy pod = false) (all_pods component)) as Hneg; [|tauto].
  split; [intros Hn|intros Hf He].
  - apply Forall_forall. intros pod Hp. apply not_true_is_false. intros Ht. apply Hn, Exists_exists. by exists pod.
  - rewrite Forall_forall in Hf. apply Exists_exists in He as (pod & Hp & Ht). by rewrite Hf in Ht.
Qed.

(** *** Sums that wrap around

    Equality up to multiples of [2 ^ 64]. *)

Definition cong (x y : Z) : Prop := (x mod 2 ^ 64 = y mod 2 ^ 64)%Z.

#[export] Instance cong_equivalence : Equivalence cong.
Proof. unfold cong. split; [done|by intros x y ->|by intros x y z -> ->]. Qed.
#[export] Instance cong_add : Proper (cong ==> cong ==> cong) Z.add.
Proof. intros x x' Hx y y' Hy. unfold cong in *. by rewrite Zplus_mod, Hx, Hy, <- Zplus_mod. Qed.
#[export] Instance cong_sub : Proper (cong ==> cong ==> cong) Z.sub.
Proof. intros x x' Hx y y' Hy. unfold cong in *. by rewrite Zminus_mod, Hx, Hy, <- Zminus_mod. Qed.

Lemma wrap_cong z : cong (wrap_int64 z) z.
Proof.
  unfold cong, wrap_int64. rewrite Zminus_mod, Zmod_mod, <- Zminus_mod. f_equal. lia.
Qed.

Lemma wrap_proper x y : cong x y → wrap_int64 x = wrap_int64 y.
Proof.
  intros Hxy. unfold wrap_int64. f_equal. change (cong (x + 2 ^ 63) (y + 2 ^ 63)). by rewrite Hxy.
Qed.

(** A column of the table: a field of the resources. *)
Record column (g : Resources → Z) : Prop := {
  column_zero : g no_resources = 0%Z;
  column_add a b : g (add a b) = wrap_int64 (g a + g b);
  column_sub a b : g (sub a b) = wrap_int64 (g a - g b);
}.

Lemma column_GPUs : column rs_GPUs.
Proof. by split. Qed.
Lemma column_CPU : column rs_CPUMillis.
Proof. by split. Qed.
Lemma column_Memory : column rs_MemoryBytes.
Proof. by split. Qed.

Section column.
Context (g : Resources → Z) (Hg : column g).

Definition column_sum (l : list Resources) : Z := foldr (λ r z, (g r + z)%Z) 0%Z l.

Lemma column_sum_app l1 l2 : column_sum (l1 ++ l2) = (column_sum l1 + column_sum l2)%Z.
Proof. induction l1 as [|r l1 IH]; cbn; [done|]. fold (column_sum (l1 ++ l2)) (column_sum l1). lia. Qed.

Lemma foldl_add_column l r : cong (g (foldl add r l)) (g r + column_sum l).
Proof.
  revert r. induction l as [|x l IH]; intros r; cbn; [by rewrite Z.add_0_r|].
  rewrite IH, (column_add _ Hg), wrap_cong. fold (column_sum l). by rewrite Z.add_assoc.
Qed.

(** A sum that starts at zero is determined by the exact sum. *)
Lemma foldl_add_wrap l : g (foldl add no_resources l) = wrap_int64 (column_sum l).
Proof.
  destruct l as [|x l] using rev_ind; [cbn; by rewrite (column_zero _ Hg)|].
  rewrite foldl_app. cbn. rewrite (column_add _ Hg). apply wrap_proper.
  rewrite foldl_add_column, (column_zero _ Hg), column_sum_app. cbn. by rewrite Z.add_0_r.
Qed.

Lemma ownRequest_column c :
  cong (g (ownRequest c)) (g (cv_Resources c) - column_sum (cv_Resources <$> cv_Children c)).
Proof.
  unfold ownRequest. generalize (cv_Resources c) as r. induction (cv_Children c) as [|child l IH]; intros r; cbn.
  { by rewrite Z.sub_0_r. }
  rewrite IH, (column_sub _ Hg), wrap_cong. fold (column_sum (cv_Resources <$> l)). by rewrite Z.sub_add_distr.
Qed.

(** The rows of a component sum to what it rolled up. *)
Lemma component_resources_column c :
  cong (column_sum (rr_request <$> component_resources c)) (g (cv_Resources c)).
Proof.
  induction c as [name kind replicas resources nodes pods children IH] using component_ind.
  set (c := MkComponentView name kind replicas resources nodes pods children).
  assert (Hch : cong (column_sum (rr_request <$> (children ≫= component_resources)))
                     (column_sum (cv_Resources <$> children))).
  { clear c. induction IH as [|child children Hc _ IH']; [done|].
    rewrite bind_cons, fmap_app, column_sum_app, Hc, IH'. done. }
  change (component_resources c) with
    ((if negb (isGrouping c) then [MkRow (cv_Name c) (rp_Desired (cv_Replicas c)) (ownRequest c)] else []) ++
     (children ≫= component_resources)).
  rewrite fmap_app, column_sum_app, Hch. pose proof (ownRequest_column c) as Ho. cbn [cv_Children c] in Ho.
  assert (Hrow : cong (column_sum (rr_request <$> (if negb (isGrouping c)
             then [MkRow (cv_Name c) (rp_Desired (cv_Replicas c)) (ownRequest c)] else []))) (g (ownRequest c))).
  { destruct (isGrouping c) eqn:E; cbn [negb].
    - unfold isGrouping in E. destruct (_ || _); [done|].
      apply andb_true_iff in E as [E%bool_decide_eq_true _]. by rewrite E, (column_zero _ Hg).
    - change (cong (g (ownRequest c) + 0) (g (ownRequest c))). by rewrite Z.add_0_r. }
  by rewrite Hrow, Ho, Z.sub_add.
Qed.

Lemma resourceRows_column components :
  cong (column_sum (rr_request <$> resourceRows components)) (column_sum (cv_Resources <$> components)).
Proof.
  unfold resourceRows. induction components as [|c l IH]; [done|].
  rewrite bind_cons, fmap_app, column_sum_app, IH, component_resources_column. done.
Qed.
End column.

Lemma resourceRows_sum components :
  foldl add no_resources (rr_request <$> resourceRows components) =
  foldl add no_resources (cv_Resources <$> components).
Proof.
  assert (H : ∀ g, column g → g (foldl add no_resources (rr_request <$> resourceRows components)) =
                             g (foldl add no_resources (cv_Resources <$> components))).
  { intros g Hg. rewrite !foldl_add_wrap by done. by apply wrap_proper, resourceRows_column. }
  pose proof (H _ column_GPUs) as H1. pose proof (H _ column_CPU) as H2. pose proof (H _ column_Memory) as H3.
  destruct (foldl _ _ _), (foldl _ _ _). cbn in *. by subst.
Qed.

Section totals.
Context `{GoSort} `{PodFields} {P R : Type} `{!PodView_ P R} `{!Runner R}.
Context {S : Type} `{!ComponentAccessor S}.
Context (other : value → string) (Parse : string → result aval) (meta status : list rfield).

(** The rows of the resource table of a described workload sum to its total,
    whatever rolled up where and even where sums wrap around. *)
Theorem resourceRows_total obj def (pods : list P) (s : S) view :
  run (ResolveDescribe other Parse meta status obj def pods) s = Ok view →
  foldl add no_resources (rr_request <$> resourceRows (dv_Components view)) = dv_Resources view.
Proof. intros [_ ->]%describe_resources. apply resourceRows_sum. Qed.
End totals.

(** *** The tree *)

Lemma zip_fmap_l {A B C} (g : A → B) (l : list A) (k : list C) :
  zip (g <$> l) k = prod_map g id <$> zip l k.
Proof. revert k. induction l as [|x l IH]; intros [|y k]; [done|done|done|]. cbn. by f_equal. Qed.

Lemma filter_fmap_l {A B} (f : A → B) (P : B → Prop) `{!∀ x, Decision (P x)} (l : list A) :
  filter P (f <$> l) = f <$> filter (λ x, P (f x)) l.
Proof.
  induction l as [|x l IH]; [done|]. cbn [fmap list_fmap]. rewrite !filter_cons.
  case_decide; [cbn; by f_equal|done].
Qed.

(** What is computed for a component does not matter to the limit. *)
Lemma limitComponents_fmap {A B} (g : A → B) view l limit fileMode :
  limitComponents view (g <$> l) limit fileMode =
  let '(shown, hidden, u, m) := limitComponents (λ x, view (g x)) l limit fileMode in (g <$> shown, hidden, u, m).
Proof.
  unfold limitComponents. rewrite length_fmap. destruct (_ || _); [done|].
  rewrite <- list_fmap_compose.
  rewrite (zip_fmap_l g), (zip_fmap_l (prod_map g id)), !filter_fmap_l, !length_fmap.
  rewrite <- !list_fmap_compose. reflexivity.
Qed.

(** [writeComponents] as the code has it: the shown ones drawn in turn, each with
    its pods and then, below it, its components. *)
Lemma writeComponents_eq limits fileMode components prefix :
  writeComponents limits fileMode components prefix =
  let '(shown, hidden, hiddenUnhealthy, hiddenMissing) :=
    limitComponents id components (tl_components limits) fileMode in
  concat (imap (λ i component,
    let last := bool_decide (i = length shown - 1) && bool_decide (hidden = 0%Z) in
    let childPrefix := prefix +:+ indent last in
    [[prefix +:+ branch last +:+ cv_Name component; scale (cv_Replicas component) fileMode;
      resourceCell (cv_Resources component); Join (cv_Nodes component) ","]] ++
    writePods (cv_Pods component) childPrefix (tl_pods limits) (bool_decide (0 < length (cv_Children component))) ++
    writeComponents limits fileMode (cv_Children component) childPrefix) shown) ++
  (if (0 <? hidden)%Z then [hidden_row prefix hidden hiddenUnhealthy hiddenMissing] else []).
Proof.
  unfold writeComponents at 1, write_drawn.
  rewrite limitComponents_fmap. cbn [fst].
  change (λ x : ComponentView, x) with (@id ComponentView).
  destruct (limitComponents id components _ fileMode) as [[[shown hidden] u] m].
  f_equal. f_equal. rewrite length_fmap. rewrite imap_fmap. apply imap_ext. intros i c _. cbn.
  by destruct c.
Qed.

Definition component_entry (fileMode : bool) (c : ComponentView) : string * list string :=
  (cv_Name c, [scale (cv_Replicas c) fileMode; resourceCell (cv_Resources c); Join (cv_Nodes c) ","]).
Definition pod_entry (pod : PodView) : string * list string :=
  (pv_Name pod, [podStatus pod; resourceCell (pv_Resources pod); orNone (deref (pv_Node pod))]).

(** Everything there is to show: a component, its pods, then what is below. *)
Fixpoint entries (fileMode : bool) (c : ComponentView) : list (string * list string) :=
  match c with
  | MkComponentView _ _ _ _ _ pods children =>
      component_entry fileMode c :: (pod_entry <$> pods) ++ (children ≫= entries fileMode)
  end.

(** A row that shows an entry after the glyphs of the tree. *)
Definition shows (row : list string) (entry : string * list string) : Prop :=
  ∃ prefix last, row = (prefix +:+ branch last +:+ entry.1) :: entry.2.

Lemma Forall2_imap {A B C} (Q : B → C → Prop) (f : nat → A → B) (h : A → C) l :
  (∀ i x, Q (f i x) (h x)) → Forall2 Q (imap f l) (h <$> l).
Proof.
  intros Hf. revert f Hf. induction l as [|x l IH]; intros f Hf; [constructor|].
  change (Forall2 Q (f 0 x :: imap (λ i, f (S i)) l) (h x :: (h <$> l))). constructor; [apply Hf|].
  apply IH. intros i y. apply Hf.
Qed.

Lemma Forall2_concat_imap {A B C} (Q : B → C → Prop) (f : nat → A → list B) (h : A → list C) l :
  Forall (λ x, ∀ i, Forall2 Q (f i x) (h x)) l → Forall2 Q (concat (imap f l)) (l ≫= h).
Proof.
  intros Hl. revert f Hl. induction l as [|x l IH]; intros f Hl; [constructor|].
  apply Forall_cons in Hl as [Hx Hl]. rewrite bind_cons. cbn. apply Forall2_app; [apply Hx|].
  apply (IH (λ i, f (S i))). eapply Forall_impl; [exact Hl|]. cbn. intros y Hy i. apply Hy.
Qed.

(** Without limits the tree has one row for each component and each pod at
    every level and no other, in order, with the cells of that component or pod. *)
Theorem writeComponents_complete pods_limit fileMode components prefix (Hpods : (pods_limit < 0)%Z) :
  Forall2 shows (writeComponents (MkLimits pods_limit 0) fileMode components prefix)
    (components ≫= entries fileMode).
Proof.
  assert (Hdrawn : ∀ l prefix,
    Forall (λ c, ∀ prefix last,
      Forall2 shows (draw (MkLimits pods_limit 0) fileMode c prefix last) (entries fileMode c)) l →
    Forall2 shows (write_drawn (MkLimits pods_limit 0) fileMode
      ((λ c, (c, draw (MkLimits pods_limit 0) fileMode c)) <$> l) prefix) (l ≫= entries fileMode)).
  { intros l p Hl. unfold write_drawn, limitComponents. cbn [tl_components Z.leb orb].
    change (0 <=? 0)%Z with true. cbn [orb]. rewrite app_nil_r, imap_fmap.
    apply Forall2_concat_imap. eapply Forall_impl; [exact Hl|]. cbn. intros c Hc i. apply Hc. }
  apply Hdrawn, Forall_forall. intros c _.
  induction c as [name kind replicas resources nodes pods children IH] using component_ind; intros p last.
  cbn [draw entries]. constructor; [by exists p, last|]. apply Forall2_app; [|by apply Hdrawn].
  unfold writePods, limitPods. cbn [tl_pods]. rewrite (proj2 (Z.ltb_lt _ _) Hpods). cbn [orb].
  change (0 <? 0)%Z with false. rewrite app_nil_r. apply Forall2_imap. intros i pod. unfold shows. by eauto.
Qed.

(** ** Concrete inputs *)

Definition sample_row (name phase : string) (ready : bool) : PodView :=
  MkPodView name phase ready (Some "n1") "" no_resources.

Definition sample_view (name : string) (desired current : Z) (gpus : Z) (pods : list PodView)
    (children : list ComponentView) : ComponentView :=
  MkComponentView name "" (MkReplicas desired current current) (MkResources gpus 0 0) [] pods children.

(** A group whose two children are healthy and short of pods, one with a failing
    pod, and one with none. *)
Definition sample_views : list ComponentView :=
  [sample_view "group" 2 2 5 [] [sample_view "a" 1 1 2 [sample_row "a0" "Running" true] [];
                                 sample_view "b" 1 0 3 [] []];
   sample_view "fine" 1 1 0 [sample_row "f0" "Succeeded" false] [];
   sample_view "bad" 1 1 1 [sample_row "b0" "Pending" false] []].

Example sample_tree :
  writeComponents (MkLimits (-1) 2) false sample_views "" =
  [["|-- group"; "2/2 ready"; "gpu: 5"; ""]; ["|   |-- a"; "1/1 ready"; "gpu: 2"; ""];
   ["|   |   `-- a0"; "Running"; ""; "n1"]; ["|   `-- b"; "0/1 ready"; "gpu: 3"; ""];
   ["|-- bad"; "1/1 ready"; "gpu: 1"; ""]; ["|   `-- b0"; "Pending"; ""; "n1"];
   ["`-- ..."; "and 1 more component"; ""; ""]].
Proof. by vm_compute. Qed.

(** A group only repeats its children, so it has no row of its own. *)
Example sample_resources :
  (λ r, (rr_name r, rs_GPUs (rr_request r))) <$> resourceRows sample_views =
  [("a", 2%Z); ("b", 3%Z); ("fine", 0%Z); ("bad", 1%Z)].
Proof. by vm_compute. Qed.

Lemma limitComponents_urgent_witness :
  (0 < 2 < Z.of_nat (length sample_views))%Z ∧
  ∃ shown cut, shown ++ cut ≡ₚ sample_views ∧ Z.of_nat (length shown) = 2%Z ∧
    limitComponents id sample_views 2 false = (shown, 1%Z, 0, 0).
Proof.
  assert (Hl : (0 < 2 < Z.of_nat (length sample_views))%Z) by (vm_compute; split; reflexivity).
  split; [exact Hl|].
  destruct (limitComponents_urgent sample_views 2 false Hl) as (shown & cut & E & _ & Hp & Hn & _).
  exists shown, cut. split; [by symmetry|]. split; [exact Hn|].
  assert (Eu : limitComponents id sample_views 2 false =
    ((limitComponents id sample_views 2 false).1.1.1, 1%Z, 0, 0)) by (vm_compute; reflexivity).
  rewrite E in Eu. cbn [fst] in Eu. rewrite E. exact Eu.
Defined.

Lemma limitPods_unhealthy_first_witness :
  let pods := [sample_row "p0" "Running" true; sample_row "p1" "Failed" false; sample_row "p2" "Pending" false] in
  (0 <= 1 < Z.of_nat (length pods))%Z ∧ limitPods pods 1 = ([sample_row "p1" "Failed" false], 2%Z, 1, 2).
Proof.
  intros pods. assert (Hl : (0 <= 1 < Z.of_nat (length pods))%Z) by (vm_compute; split; [discriminate|reflexivity]).
  split; [exact Hl|]. rewrite (limitPods_unhealthy_first pods 1 Hl). vm_compute. reflexivity.
Defined.

Lemma writeComponents_complete_witness :
  (-1 < 0)%Z ∧
  Forall2 shows (writeComponents (MkLimits (-1) 0) false sample_views "") (sample_views ≫= entries false).
Proof. split; [reflexivity|]. exact (writeComponents_complete (-1) false sample_views "" eq_refl). Defined.

#[local] Instance solo_fields : PodFields := sample_fields.
#[local] Instance solo_pod_view : PodView_ sample_pod table := sample_pod_view.

Lemma resourceRows_total_witness :
  ∃ view, run solo_describe tree_table = Ok view ∧
    foldl add no_resources (rr_request <$> resourceRows (dv_Components view)) = dv_Resources view.
Proof.
  destruct (run solo_describe tree_table) as [view|] eqn:E; [|exfalso; vm_compute in E; discriminate E].
  exists view. split; [done|].
  exact (resourceRows_total (H:=insertion_GoSort) (λ _, "") (λ _, Ok AScalar) [] []
    (MkIdentity "w" "ns" "Job" "batch/v1" 0) (Def solo_karta OriginCatalog) solo_pods tree_table view E).
Defined.
