(* ===== verification/CliGet.v ===== *)
(** * CliGet: the command that lists workloads

    Models [cli/cmd/get.go], [get_all_types.go], [errors.go] and [warnings.go],
    and the exit code of [cli/cmd/kli/main.go]: the arguments, the definition a
    type token names, the listing of one type and of every covered type.  The
    parsers, the mapper and the predicates on errors of the Kubernetes libraries,
    cobra's count of arguments, the API server and the text of an error are
    parameters.  The mapper and the server are asked for one thing at most once;
    the owner walk, which may ask again, has its own answers by turn
    ([CliOwners.API]).  A warning is kept as its format and operands.  Case
    folding is that of ASCII; [slices.SortFunc] promises an ordered permutation. *)

From Stdlib Require Import Ascii.
From S2P Require Import Prelude Api JqValidate Validator Value Runner Accessor Component PodQuerier Sort Summary Gang Tree Store Discovery Inventory Catalog CliDefinitions CliOwners CliDescribe CliGenerator.

(** ** Errors with an exit code *)

Definition ExitError : nat := 1.
Definition ExitUsage : nat := 2.
Definition ExitWorkloadNotFound : nat := 3.
Definition ExitNotFound : nat := 4.

Definition exit_tag : string := "cmd.exitError".

Definition exitError (code : nat) (path : string) (err : error) : error :=
  Errorf exit_tag [ANat code; AStr path] [err].

Definition usageError (commandPath : string) (err : error) : error := exitError ExitUsage commandPath err.

Definition usageArgs (commandPath : string) {A} (validated : result A) : result A :=
  map_error (usageError commandPath) validated.

(** [errors.As] for an error with a code: its code and path. *)
Fixpoint coded (err : error) : option (nat * string) :=
  match err with
  | Errorf fmt args wrapped =>
      match args with
      | [ANat code; AStr path] =>
          if bool_decide (fmt = exit_tag) then Some (code, path)
          else foldr (λ e found, match coded e with Some c => Some c | None => found end) None wrapped
      | _ => foldr (λ e found, match coded e with Some c => Some c | None => found end) None wrapped
      end
  | JQParseError _ e | JQCompileError _ e | JQExecutionError _ e => coded e
  | _ => None
  end.

(** The exit code of the process and the command its usage hint names. *)
Definition main (executed : option error) : nat * option string :=
  match executed with
  | None => (0, None)
  | Some err =>
      match coded err with
      | None => (1, None)
      | Some (code, path) =>
          (code, if bool_decide (code = ExitUsage)
                 then Some (if bool_decide (path ≠ "") then path else "kli") else None)
      end
  end.

(** ** Text *)

(** [strings.Cut(s, "/")] *)
Fixpoint Cut (s : string) : string * string * bool :=
  match s with
  | EmptyString => ("", "", false)
  | String c s =>
      if Ascii.eqb c "/" then ("", s, true)
      else let '(before, after, found) := Cut s in (String c before, after, found)
  end.

Definition has_slash (s : string) : bool := (Cut s).2.

Definition EqualFold (a b : string) : bool := bool_decide (ToLower a = ToLower b).

(** ** Options *)

Record getOptions := MkGetOptions {
  typeToken : string;
  go_name : string;
  go_phases : list string;
  go_selector : string;
  chunkSize : Z;
  allTypes : bool;
}.

Definition defaultChunkSize : Z := 500.

(** What is read of the libraries beside [OwnerLibrary]. *)
Class CommandLibrary := {
  RangeArgs : nat → nat → list string → option error;
  labels_Parse : string → option error;
  ParseResourceArg : string → option GroupVersionResource * (string * string);
  ParseKindArg : string → option GroupVersionKind * GroupKind;
  IsAmbiguousError : error → bool;
}.

Definition no_argument : error := External "runtime error: index out of range".

(** The type token and the name. *)
Definition parseArgs (args : list string) : result (string * string) :=
  match args with
  | [] => Fail no_argument
  | arg0 :: rest =>
      let '(typeToken, name, qualified) := Cut arg0 in
      if qualified && bool_decide (name = "") then Fail (Errorf "NAME is empty in %q" [AStr arg0] [])
      else
        named ← match rest with
                | [arg1] =>
                    if bool_decide (name ≠ "")
                    then Fail (Errorf "NAME given twice: as %q and as %q" [AStr arg0; AStr arg1] [])
                    else if bool_decide (arg1 = "") then Fail (Errorf "NAME is empty" [] [])
                    else Ok arg1
                | _ => Ok name
                end;
        if has_slash named then Fail (Errorf "NAME must not contain %q: %q" [AStr "/"; AStr named] [])
        else if bool_decide (typeToken = "") then Fail (Errorf "TYPE is empty in %q" [AStr arg0] [])
        else Ok (typeToken, named)
  end.

Section arguments.
Context `{CommandLibrary}.

(** The arguments of [newGetCommand]. *)
Definition get_args (commandPath : string) (all_types : bool) (args : list string) : result (string * string) :=
  usageArgs commandPath
    (if all_types && bool_decide (0 < length args)
     then Fail (Errorf "--%s cannot be combined with a TYPE" [AStr "all-types"] [])
     else if all_types then Ok ("", "")
     else if bool_decide (length args = 0) then Fail (Errorf "a TYPE is required, or --%s" [AStr "all-types"] [])
     else match RangeArgs 1 2 args with
          | Some err => Fail err
          | None => parseArgs args
          end).

Definition validateOptions (commandPath : string) (opts : getOptions) : option error :=
  if (chunkSize opts <? 0)%Z
  then Some (usageError commandPath (Errorf "--%s must not be negative" [AStr "chunk-size"] []))
  else match labels_Parse (go_selector opts) with
       | Some err => Some (usageError commandPath (Errorf "--%s: %w" [AStr "selector"] [err]))
       | None =>
           if bool_decide (go_selector opts ≠ "") && bool_decide (go_name opts ≠ "")
           then Some (usageError commandPath (Errorf "--%s cannot be combined with a NAME" [AStr "selector"] []))
           else None
       end.
End arguments.

(** ** The definition of a type *)

Definition errNoDefinitions : error :=
  Sentinel "no Karta definitions available (catalog empty and no cluster definitions)".

Definition no_definition_tag : string := "cmd.noDefinitionNotFound".
Definition noDefinitionMessage : string := "no Karta definition covers this workload type".

(** The failure with the payload the machine formats print: the kind, or the
    type token when there is none. *)
Definition noDefinitionNotFound (gvk type : string) (err : error) : error :=
  Errorf no_definition_tag [AStr gvk; AStr type] [exitError ExitNotFound "" err].

Definition noDefinitionForType (token : string) : error :=
  noDefinitionNotFound "" token (Errorf "no Karta definition covers %q" [AStr token] []).

Definition noDefinitionFor (gv_String : string → string → string) (gvk : GroupVersionKind) : error :=
  noDefinitionNotFound (FormatGVK gv_String gvk) ""
    (Errorf "%s: %s" [AStr noDefinitionMessage; AStr (FormatGVK gv_String gvk)] []).

Definition qualifiedToken (gvk : GroupVersionKind) : string :=
  ToLower (gvk_Kind gvk) +:+ "." +:+ gvk_Version gvk +:+ "." +:+ gvk_Group gvk.

Definition ambiguous (token : string) (matches : list Definition_) : error :=
  let tokens := sort_Strings ((λ m, qualifiedToken (RootKey (df_Karta m))) <$> matches) in
  let distinct := compact tokens in
  if bool_decide (1 < length distinct) then
    Errorf "%q matches more than one Karta definition, retry with one of: %s" [AStr token; AStrs distinct] []
  else
    Errorf "%d Karta definitions claim %s: %s; remove one from the cluster"
      [ANat (length matches); AStr (default "" (head tokens)); AStrs (sort_Strings (df_Name <$> matches))] [].

Record KindMapping := MkKindMapping { km_GVK : GroupVersionKind; km_Mapping : RESTMapping }.

(** The mapper, and the answers of the API server for objects [U]. *)
Class Cluster (U : Type) := {
  KindFor : GroupVersionResource → result GroupVersionKind;
  MappingFor : GroupKind → list string → result KindMapping;
  ListObjects : GroupVersionResource → string → Z → string → pages U;
  GetObject : GroupVersionResource → string → string → result U;
}.

(** What is read of an object. *)
Class Objects (U S : Type) := {
  identity : U → Identity;
  listed_of : U → ListedObject;
  accessor_of : U → S;
}.

Section target.
Context `{CommandLibrary} `{OwnerLibrary} {U : Type} `{!Cluster U}.
Context (gv_String : string → string → string).

Definition narrowed (qualified : option GroupVersionKind) (groupKind : GroupKind) (match_ : Definition_) : bool :=
  let gvk := RootKey (df_Karta match_) in
  (match qualified with
   | Some q => EqualFold (gvk_Group gvk) (gvk_Group q) && EqualFold (gvk_Version gvk) (gvk_Version q)
   | None => false
   end) || EqualFold (gvk_Group gvk) (gk_Group groupKind).

Definition matchDefinitions (resolver : Resolver) (token : string) : list Definition_ :=
  let '(qualified, groupKind) := ParseKindArg token in
  let matches := ByRootKind resolver (gk_Kind groupKind) in
  if bool_decide (gk_Group groupKind = "") then matches
  else filter (λ m, narrowed qualified groupKind m) matches.

(** A definition, or none and the caller tries the next reading. *)
Definition resolveVia (resolver : Resolver) (gvr : GroupVersionResource) : result (option Definition_) :=
  match KindFor gvr with
  | Fail err =>
      if IsNoMatchError err || IsAmbiguousError err then Ok None
      else Fail (Errorf "discover %q: %w" [AStr (gvr_Resource gvr)] [err])
  | Ok gvk =>
      match CliDefinitions.Resolve gv_String resolver gvk with
      | Ok def => Ok (Some def)
      | Fail err => if errors_Is CliDefinitions.ErrAmbiguous err then Fail (exitError ExitUsage "" err) else Ok None
      end
  end.

Fixpoint first_reading (resolver : Resolver) (candidates : list GroupVersionResource)
    : result (option Definition_) :=
  match candidates with
  | [] => Ok None
  | candidate :: candidates =>
      match resolveVia resolver candidate with
      | Fail err => Fail err
      | Ok (Some def) => Ok (Some def)
      | Ok None => first_reading resolver candidates
      end
  end.

Definition readings (token : string) : list GroupVersionResource :=
  let '(qualified, (group, resource)) := ParseResourceArg (ToLower token) in
  option_list qualified ++ [GVR group "" resource].

Definition resolveTarget (token : string) (resolver : Resolver) : result Definition_ :=
  match first_reading resolver (readings token) with
  | Fail err => Fail err
  | Ok (Some def) => Ok def
  | Ok None =>
      match matchDefinitions resolver token with
      | [] => Fail (noDefinitionForType token)
      | [match_] => Ok match_
      | matches => Fail (exitError ExitUsage "" (ambiguous token matches))
      end
  end.
End target.

(** ** Listing one type *)

Definition inNamespace (namespace : string) : string :=
  if bool_decide (namespace = "") then "" else " in namespace " +:+ namespace.

Definition matchesPhase (view : View) (requested : list string) : bool :=
  if bool_decide (length requested = 0) then true
  else existsb (λ want, bool_decide (want ∈ vw_Phases view)) requested.

(** The pages of a list, in order. *)
Fixpoint list_pages {U} (p : pages U) (objects : list U) : result (list U) :=
  match p with
  | PError err => Fail err
  | PMore items _ rest => list_pages rest (objects ++ items)
  | PLast items => Ok (objects ++ items)
  end.

Section listing.
Context `{K8s} `{KubernetesErrors} `{OwnerLibrary} {U S : Type} `{!Cluster U} `{!Objects U S} `{!ComponentAccessor S}.
Context (Parse : string → result aval) (meta status : list rfield).

Definition list_objects (mapping : RESTMapping) (namespace : string) (opts : getOptions) : result (list U) :=
  if bool_decide (go_name opts ≠ "") then
    object ← GetObject (mp_Resource mapping) namespace (go_name opts); Ok [object]
  else list_pages (ListObjects (mp_Resource mapping) namespace (chunkSize opts) (go_selector opts)) [].

(** [workload.Resolve] of an object through a definition. *)
Definition resolve_object (object : U) (def : Definition_) : result View :=
  run (CliDescribe.Resolve Parse meta status (identity object) def) (accessor_of object).

Definition object_name (object : U) : string := id_Name (identity object).

Definition unresolved (kind : string) (object : U) (err : error) : error :=
  Errorf "could not resolve %s/%s: %v" [AStr kind; AStr (object_name object)] [err].

(** The loop of [collect]. *)
Fixpoint collect_views (kind : string) (def : Definition_) (opts : getOptions) (objects : list U)
    (views : list View) (warnings : list error) : list View * list error :=
  match objects with
  | [] => (views, warnings)
  | object :: objects =>
      match resolve_object object def with
      | Fail err => collect_views kind def opts objects views (warnings ++ [unresolved kind object err])
      | Ok view =>
          if negb (matchesPhase view (go_phases opts)) then collect_views kind def opts objects views warnings
          else collect_views kind def opts objects (views ++ [view]) warnings
      end
  end.

(** Views and warnings, or the failure; and the namespace searched. *)
Definition collect (def : Definition_) (namespace : string) (opts : getOptions)
    : result (list View * list error) * string :=
  let gvk := RootKey (df_Karta def) in
  let named := bool_decide (go_name opts ≠ "") in
  match MappingFor (GroupKind_of gvk) [gvk_Version gvk] with
  | Fail err =>
      (if IsNoMatchError err && named then
         Fail (exitError ExitWorkloadNotFound ""
                 (Errorf "%s is not installed in this cluster" [AStr (gvk_Kind gvk)] []))
       else if IsNoMatchError err then
         Ok ([], [Errorf "%s is not installed in this cluster" [AStr (gvk_Kind gvk)] []])
       else Fail (Errorf "discover %s: %w" [AStr (gvk_Kind gvk)] [err]), namespace)
  | Ok mapping =>
      let namespace := if mp_Namespaced (km_Mapping mapping) then namespace else "" in
      match list_objects (km_Mapping mapping) namespace opts with
      | Fail err =>
          (if IsNotFound err && named then
             Fail (exitError ExitWorkloadNotFound ""
                     (Errorf "%s %q not found%s"
                        [AStr (gvk_Kind gvk); AStr (go_name opts); AStr (inNamespace namespace)] []))
           else if named then
             Fail (exitError ExitError "" (Errorf "get %s %q: %w" [AStr (gvk_Kind gvk); AStr (go_name opts)] [err]))
           else if IsForbidden err then
             Fail (exitError ExitError "" (Errorf "not allowed to list %s: %w" [AStr (gvk_Kind gvk)] [err]))
           else Fail (Errorf "list %s: %w" [AStr (gvk_Kind gvk)] [err]), namespace)
      | Ok objects => (Ok (collect_views (gvk_Kind gvk) def opts objects [] []), namespace)
      end
  end.
End listing.

(** ** Listing every covered type *)

Abbreviation covered_versions := (gmap GroupKind (list string)).

Record Lookup_ := MkLookup {
  look_namespace : string;
  look_resolver : Resolver;
  look_definition : option Definition_;
  look_failedGroups : gmap string error;
}.

(** [client.ServerGroupsAndResources] through the live discovery client: no
    error, some groups that failed, or another error. *)
Definition failedGroups (gv_String : string → string → string) (ToDiscoveryClient ServerGroups : option error)
    (ErrGroupDiscoveryFailed : error → option (list (string * string * error))) : result (gmap string error) :=
  match ToDiscoveryClient with
  | Some err => Fail (Errorf "kubernetes discovery: %w" [] [err])
  | None =>
      match ServerGroups with
      | None => Ok ∅
      | Some err =>
          match ErrGroupDiscoveryFailed err with
          | Some groups =>
              Ok (foldl (λ m '(group, version, gvErr),
                    <[group := Errorf "%s: %w" [AStr (gv_String group version)] [gvErr]]> m) ∅ groups)
          | None => Fail (Errorf "kubernetes discovery: %w" [] [err])
          end
      end
  end.

(** One turn of the first loop of [coveredVersions]. *)
Definition cover_step (acc : covered_versions * list GroupKind) (def : Definition_)
    : covered_versions * list GroupKind :=
  let '(versions, kinds) := acc in
  let gvk := RootKey (df_Karta def) in
  if bool_decide (gvk_Version gvk = "") || bool_decide (gvk_Kind gvk = "") then acc
  else
    let gk := GroupKind_of gvk in
    let seen := versions !! gk in
    let kinds := match seen with None => kinds ++ [gk] | Some _ => kinds end in
    let old := default [] seen in
    (if bool_decide (gvk_Version gvk ∈ old) then versions else <[gk := old ++ [gvk_Version gvk]]> versions, kinds).

Definition newer_version `{VersionOrder} (a b : string) : bool := (CompareKubeAwareVersionStrings b a <? 0)%Z.

Definition coveredVersions `{GoSort} `{VersionOrder} (resolver : Resolver) : covered_versions * list GroupKind :=
  let '(versions, kinds) := foldl cover_step (∅, []) (List resolver) in
  (foldl (λ versions gk, <[gk := sort_Slice newer_version (default [] (versions !! gk))]> versions) versions kinds,
   kinds).

(** [fmt.Sprintf] of a name in quotes is kept as the name. *)
Definition coveringKartas (gv_String : string → string → string) (resolver : Resolver) (gk : GroupKind)
    : list (string * string) :=
  omap (λ def, let gvk := RootKey (df_Karta def) in
               if bool_decide (GroupKind_of gvk = gk)
               then Some (df_Name def, FormatGVK gv_String gvk) else None) (List resolver).

Section all_types.
Context `{GoSort} `{VersionOrder} `{K8s} `{KubernetesErrors} `{OwnerLibrary} `{!API}.
Context {U S : Type} `{!Cluster U} `{!Objects U S} `{!ComponentAccessor S}.
Context (gv_String : string → string → string) (Error : error → string).
Context (Parse : string → result aval) (meta status : list rfield).

Abbreviation kind_mappings := (gmap GroupKind KindMapping).

Definition uncovered_version (resolver : Resolver) (gk : GroupKind) (served : KindMapping) : error :=
  Errorf "not listing %s: %s, but the cluster serves %s"
    [AStr (gk_Kind gk);
     AStrs ((λ c, c.1 +:+ " covers " +:+ c.2) <$> coveringKartas gv_String resolver gk);
     AStr (FormatGVK gv_String (km_GVK served))] [].

Definition failed_discovery (gk : GroupKind) (groupErr : error) : error :=
  Errorf "not listing %s: API discovery failed for %v" [AStr (gk_Kind gk)] [groupErr].

(** The mappings, or the failure; the warnings; the versions that stay. *)
Fixpoint discoverKinds (look : Lookup_) (kinds : list GroupKind) (versions : covered_versions)
    (mappings : kind_mappings) (warnings : list error)
    : result kind_mappings * list error * covered_versions :=
  match kinds with
  | [] => (Ok mappings, warnings, versions)
  | gk :: kinds =>
      match MappingFor gk (default [] (versions !! gk)) with
      | Ok mapping => discoverKinds look kinds versions (<[gk := mapping]> mappings) warnings
      | Fail err =>
          if negb (IsNoMatchError err) then (Fail (Errorf "discover %s: %w" [AStr (gk_Kind gk)] [err]), warnings, versions)
          else
            match MappingFor gk [] with
            | Fail err =>
                if IsNoMatchError err then
                  discoverKinds look kinds (delete gk versions) mappings
                    (warnings ++ match look_failedGroups look !! gk_Group gk with
                                 | Some groupErr => [failed_discovery gk groupErr]
                                 | None => []
                                 end)
                else (Fail (Errorf "discover %s: %w" [AStr (gk_Kind gk)] [err]), warnings, versions)
            | Ok served =>
                discoverKinds look kinds (delete gk versions) mappings
                  (warnings ++ [uncovered_version (look_resolver look) gk served])
            end
      end
  end.

Record listedKind := MkListedKind { lk_gk : GroupKind; lk_def : Definition_; lk_objects : list U }.

Definition unlisted (gk : GroupKind) (err : error) : error := Errorf "not listing %s: %v" [AStr (gk_Kind gk)] [err].
Definition denied (gk : GroupKind) : error :=
  Errorf "not allowed to list %s, so the result leaves it out" [AStr (gk_Kind gk)] [].

(** The kind listed, or its warning if there is one, or the failure. *)
Definition listKind (look : Lookup_) (opts : getOptions) (mapping : KindMapping)
    : result (option listedKind * option error) :=
  let gk := GroupKind_of (km_GVK mapping) in
  match CliDefinitions.Resolve gv_String (look_resolver look) (km_GVK mapping) with
  | Fail err => Ok (None, Some (unlisted gk err))
  | Ok def =>
      let namespace := if mp_Namespaced (km_Mapping mapping) then look_namespace look else "" in
      match list_objects (km_Mapping mapping) namespace opts with
      | Ok objects => Ok (Some (MkListedKind gk def objects), None)
      | Fail err =>
          if IsForbidden err then Ok (None, Some (denied gk))
          else if IsNotFound err then Ok (None, None)
          else Fail (Errorf "list %s: %w" [AStr (gk_Kind gk)] [err])
      end
  end.

Fixpoint listKinds (look : Lookup_) (opts : getOptions) (mappings : kind_mappings) (kinds : list GroupKind)
    (versions : covered_versions) (listed : list listedKind) (warnings : list error)
    : result (list listedKind) * list error * covered_versions :=
  match kinds with
  | [] => (Ok listed, warnings, versions)
  | gk :: kinds =>
      match mappings !! gk with
      | None => listKinds look opts mappings kinds versions listed warnings
      | Some mapping =>
          match listKind look opts mapping with
          | Fail err => (Fail err, warnings, versions)
          | Ok (None, warning) =>
              listKinds look opts mappings kinds (delete gk versions) listed (warnings ++ option_list warning)
          | Ok (Some kind, _) => listKinds look opts mappings kinds versions (listed ++ [kind]) warnings
          end
      end
  end.

Record gathered := MkGathered {
  ga_views : list View;
  ga_warnings : list error;
  ga_failures : WalkFailures;
  ga_walker : OwnerWalker;
}.

(** One turn of the inner loop of [topLevelViews]. *)
Definition view_step (opts : getOptions) (covered : GroupKind → bool) (kind : listedKind) (g : gathered)
    (object : U) : gathered :=
  let '(top, walkErr, walker) := TopLevel (listed_of object) covered (ga_walker g) in
  if negb top then MkGathered (ga_views g) (ga_warnings g) (ga_failures g) walker
  else
    match resolve_object Parse meta status object (lk_def kind) with
    | Fail err =>
        MkGathered (ga_views g) (ga_warnings g ++ [unresolved (gk_Kind (lk_gk kind)) object err])
          (ga_failures g) walker
    | Ok view =>
        if negb (matchesPhase view (go_phases opts)) then
          MkGathered (ga_views g) (ga_warnings g) (ga_failures g) walker
        else
          MkGathered (ga_views g ++ [view]) (ga_warnings g)
            (match walkErr with
             | Some err => Add Error (ga_failures g) err (gk_Kind (lk_gk kind) +:+ "/" +:+ object_name object)
             | None => ga_failures g
             end) walker
    end.

Definition owner_warning (cause : string) (objects : list string) : error :=
  match objects with
  | [object] => Errorf "listing %s, though it may belong to another workload: %s" [AStr object; AStr cause] []
  | _ => Errorf "listing %s and %d more, though they may belong to another workload: %s"
           [AStr (default "" (head objects)); ANat (length objects - 1); AStr cause] []
  end.

Definition is_covered (versions : covered_versions) (gk : GroupKind) : bool := bool_decide (is_Some (versions !! gk)).

Definition topLevelViews (opts : getOptions) (versions : covered_versions) (listed : list listedKind)
    : list View * list error :=
  let g := foldl (λ g kind, foldl (view_step opts (is_covered versions) kind) g (lk_objects kind))
             (MkGathered [] [] no_failures NewOwnerWalker) listed in
  (ga_views g, ga_warnings g ++ Warnings (ga_failures g) owner_warning).

Definition collectAllTypes (look : Lookup_) (opts : getOptions) : result (list View) * list error :=
  let '(versions, kinds) := coveredVersions (look_resolver look) in
  match discoverKinds look kinds versions ∅ [] with
  | (Fail err, warnings, _) => (Fail err, warnings)
  | (Ok mappings, warnings, versions) =>
      match listKinds look opts mappings kinds versions [] [] with
      | (Fail err, listWarnings, _) => (Fail err, warnings ++ listWarnings)
      | (Ok listed, listWarnings, versions) =>
          let '(views, viewWarnings) := topLevelViews opts versions listed in
          (Ok views, (warnings ++ listWarnings) ++ viewWarnings)
      end
  end.

(** The groups of each covered Kind. *)
Definition kind_groups (resolver : Resolver) : gmap string (gset string) :=
  foldl (λ groups def,
    let gvk := RootKey (df_Karta def) in
    <[gvk_Kind gvk := default ∅ (groups !! gvk_Kind gvk) ∪ {[gvk_Group gvk]}]> groups) ∅ (List resolver).

Definition typeColumn (resolver : Resolver) (view : View) : string :=
  let group := gvk_Group (FromAPIVersionAndKind (vw_APIVersion view) (vw_Kind view)) in
  if bool_decide (size (default ∅ (kind_groups resolver !! vw_Kind view)) < 2) || bool_decide (group = "")
  then vw_Kind view else vw_Kind view +:+ "." +:+ group.
End all_types.

(** ** The command *)

(** [cmp(a, b) < 0] of the sort of the rows: the newest first, then by kind and
    by name. *)
Definition row_less (a b : View) : bool :=
  if bool_decide (vw_CreatedAt a ≠ vw_CreatedAt b) then (vw_CreatedAt b <? vw_CreatedAt a)%Z
  else if bool_decide (vw_Kind a ≠ vw_Kind b) then string_lt (vw_Kind a) (vw_Kind b)
  else string_lt (vw_Name a) (vw_Name b).

Definition warningMessages (warnings : list Warning) : list error := wn_Message <$> warnings.

Section printing.
Context {W : Type} (Write : stream → string → M W ()) (Error : error → string).

Definition printWarnings (out : stream) (messages : list error) : M W () :=
  mapM (λ message, wrap (λ err, Errorf "write warning: %w" [] [err])
          (Write out ("warning: " +:+ Error message +:+ newline))) messages;;
  mret ().

(** The deferred function of a command: the warnings go out whatever the result
    is, and their failure is reported if there is no other. *)
Definition with_warnings (result_ : M W ()) (errOut : stream) (warnings : list error) : M W () :=
  r ← attempt result_;
  w ← attempt (printWarnings errOut warnings);
  lift (match r with Ok _ => w | Fail err => Fail err end).
End printing.

(** What the access to the cluster answers. *)
Record Access := MkAccess {
  ac_Namespace : result string;
  ac_loaded : Resolver * list Warning;
  ac_ToRESTMapper : option error;
  ac_ToRESTConfig : option error;
  ac_NewDynamic : option error;
  ac_NewMetadata : option error;
  ac_ToDiscoveryClient : option error;
  ac_ServerGroups : option error;
}.

(** [newDynamicClient] and [newMetadataClient]. *)
Definition newClient (format : string) (ToRESTConfig NewForConfig : option error) : option error :=
  match ToRESTConfig with
  | Some err => Some (Errorf "kubernetes config: %w" [] [err])
  | None => (λ err, Errorf format [] [err]) <$> NewForConfig
  end.

Section get.
Context `{GoSort} `{VersionOrder} `{K8s} `{KubernetesErrors} `{OwnerLibrary} `{CommandLibrary} `{!API}.
Context {U S : Type} `{!Cluster U} `{!Objects U S} `{!ComponentAccessor S}.
Context (gv_String : string → string → string) (Error : error → string).
Context (ErrGroupDiscoveryFailed : error → option (list (string * string * error))).
Context (Parse : string → result aval) (meta status : list rfield).

(** The lookup, or the failure, and the warnings of loading. *)
Definition resolveLookup (access : Access) (opts : getOptions) : result Lookup_ * list error :=
  match ac_Namespace access with
  | Fail err => (Fail (Errorf "resolve namespace: %w" [] [err]), [])
  | Ok namespace =>
      let '(resolver, loadWarnings) := ac_loaded access in
      let warnings := warningMessages loadWarnings in
      let rest :=
        if bool_decide (length (List resolver) = 0) then Fail (exitError ExitNotFound "" errNoDefinitions)
        else
          match ac_ToRESTMapper access with
          | Some err => Fail (Errorf "kubernetes discovery: %w" [] [err])
          | None =>
          match newClient "kubernetes dynamic client: %w" (ac_ToRESTConfig access) (ac_NewDynamic access) with
          | Some err => Fail err
          | None =>
          match newClient "kubernetes metadata client: %w" (ac_ToRESTConfig access) (ac_NewMetadata access) with
          | Some err => Fail err
          | None =>
              if allTypes opts then
                failed ← failedGroups gv_String (ac_ToDiscoveryClient access) (ac_ServerGroups access)
                           ErrGroupDiscoveryFailed;
                Ok (MkLookup namespace resolver None failed)
              else
                def ← resolveTarget gv_String (typeToken opts) resolver;
                Ok (MkLookup namespace resolver (Some def) ∅)
          end end end in
      (rest, warnings)
  end.

(** The rows in the order they are printed, the namespace searched, and all
    warnings.  The lookup has a definition unless [--all-types] is given. *)
Definition get_rows (access : Access) (opts : getOptions)
    : result (list View * string * option (View → string)) * list error :=
  match resolveLookup access opts with
  | (Fail err, warnings) => (Fail err, warnings)
  | (Ok look, warnings) =>
      let '(found, searched, typeOf) :=
        match look_definition look with
        | Some def =>
            let '(found, searched) := collect Parse meta status def (look_namespace look) opts in
            (match found with Ok (views, ws) => (Ok views, ws) | Fail err => (Fail err, []) end, searched, None)
        | None => (collectAllTypes gv_String Error Parse meta status look opts, look_namespace look,
                   Some (typeColumn (look_resolver look)))
        end in
      let '(views, listWarnings) := found in
      (views ← views; Ok (SortStableFunc row_less views, searched, typeOf), warnings ++ listWarnings)
  end.

Context {W : Type} (Write : stream → string → M W ()) (tabwrite : list string → string).
Context (now : Z) (IsZero : Z → bool) (HumanDuration : Z → string).
Context (json yaml : View → result string) (jsons yamls : envelope View → result string).

Definition runGet (access : Access) (opts : getOptions) (format : string) : M W () :=
  let '(rows, warnings) := get_rows access opts in
  with_warnings Write Error
    ('(views, searched, typeOf) ← lift rows;
     RenderWorkloads Write tabwrite now IsZero HumanDuration json yaml jsons yamls Stdout Stderr views
       (MkOptions format searched (bool_decide (searched = "")) (bool_decide (go_name opts ≠ "")) typeOf))
    Stderr warnings.
End get.

(** ** Arguments *)

Lemma Cut_no_slash s : (Cut s).2 = false → Cut s = (s, "", false).
Proof.
  induction s as [|c s IH]; [done|]. cbn. destruct (Ascii.eqb c "/"); [done|].
  destruct (Cut s) as [[a b] f]. cbn. intros ->. by injection (IH eq_refl) as -> ->.
Qed.

Lemma Cut_slash s a b : Cut s = (a, b, true) → s = a +:+ "/" +:+ b ∧ has_slash a = false.
Proof.
  revert a. induction s as [|c s IH]; intros a; [done|]. cbn. destruct (Ascii.eqb c "/") eqn:E.
  - intros [= <- <-]. apply Ascii.eqb_eq in E as ->. done.
  - destruct (Cut s) as [[a' b'] f]. intros [= <- -> ->]. destruct (IH a' eq_refl) as [-> Ha].
    split; [done|]. unfold has_slash in *. cbn. rewrite E. by destruct (Cut a') as [[] ].
Qed.

Lemma Cut_app a b : has_slash a = false → Cut (a +:+ "/" +:+ b) = (a, b, true).
Proof.
  unfold has_slash. induction a as [|c a IH]; [done|]. intros Ha.
  change (Cut (String c (a +:+ "/" +:+ b)) = (String c a, b, true)).
  cbn in Ha |- *. destruct (Ascii.eqb c "/"); [done|].
  destruct (Cut a) as [[x y] f]. cbn in Ha. by rewrite (IH Ha).
Qed.

(** The forms an argument list may take. *)
Definition argument_form (args : list string) (t n : string) : Prop :=
  t ≠ "" ∧ has_slash t = false ∧ has_slash n = false ∧
  (args = [t] ∧ n = "" ∨ n ≠ "" ∧ (args = [t +:+ "/" +:+ n] ∨ args = [t; n])).

Lemma parseArgs_one arg t n : parseArgs [arg] = Ok (t, n) ↔ argument_form [arg] t n.
Proof.
  unfold argument_form. cbn [parseArgs].
  destruct (Cut arg) as [[a b] q] eqn:E. destruct q.
  - destruct (Cut_slash _ _ _ E) as [-> Ha]. cbn [andb]. destruct (decide (b = "")) as [->|Hb].
    { rewrite bool_decide_eq_true_2 by done. split; [done|].
      intros (Ht & Hs & Hn & [[[= <-] _]|[Hne [[= Eq]|?]]]); [|exfalso|done].
      - unfold has_slash in Hs. by rewrite E in Hs.
      - change (a +:+ "/" +:+ "" = t +:+ "/" +:+ n) in Eq. rewrite Eq, Cut_app in E by done. by injection E as -> ->. }
    rewrite bool_decide_eq_false_2 by done. cbn. destruct (has_slash b) eqn:Hsb; split; try done.
    + intros (Ht & Hs & Hn & [[[= <-] _]|[Hne [[= Eq]|?]]]); [|exfalso|done].
      * unfold has_slash in Hs. by rewrite E in Hs.
      * change (a +:+ "/" +:+ b = t +:+ "/" +:+ n) in Eq. rewrite Eq, Cut_app in E by done.
         injection E as -> ->. congruence.
    + case_bool_decide; [done|]. intros [= <- <-]. split_and!; [done..|]. right. split; [done|]. by left.
    + intros (Ht & Hs & Hn & [[[= <-] _]|[Hne [[= Eq]|?]]]); [|..|done].
      * unfold has_slash in Hs. by rewrite E in Hs.
      * change (a +:+ "/" +:+ b = t +:+ "/" +:+ n) in Eq. rewrite Eq, Cut_app in E by done.
         injection E as -> ->. by rewrite bool_decide_eq_false_2.
  - pose proof (Cut_no_slash arg) as Hc. rewrite E in Hc. cbn in Hc. injection (Hc eq_refl) as -> ->.
    cbn. assert (Ha : has_slash arg = false) by (unfold has_slash; by rewrite E). case_bool_decide as Hne; split; try done.
    + intros (Ht & _ & _ & [[[= <-] _]|[_ [[= Eq]|?]]]); [done| |done].
      change (arg = t +:+ "/" +:+ n) in Eq. subst. by destruct t.
    + intros [= <- <-]. split_and!; [done..|]. by left.
    + intros (Ht & Hs & Hn & [[[= <-] ->]|[_ [[= Eq]|?]]]); [done| |done].
      change (arg = t +:+ "/" +:+ n) in Eq. subst. by rewrite Cut_app in E.
Qed.

Lemma parseArgs_two arg arg1 t n : parseArgs [arg; arg1] = Ok (t, n) ↔ argument_form [arg; arg1] t n.
Proof.
  unfold argument_form. cbn [parseArgs].
  destruct (Cut arg) as [[a b] q] eqn:E.
  assert (Hq : q = true → arg = a +:+ "/" +:+ b) by (intros ->; by destruct (Cut_slash _ _ _ E)).
  assert (Hnq : q = false → a = arg ∧ b = "").
  { intros ->. pose proof (Cut_no_slash arg) as Hc. rewrite E in Hc. cbn in Hc. by injection (Hc eq_refl) as -> ->. }
  destruct (q && bool_decide (b = "")) eqn:Eq.
  { apply andb_true_iff in Eq as [-> _]. split; [done|].
    intros (_ & Hs & _ & [[? _]|[_ [?|[= -> ->]]]]); [done..|]. unfold has_slash in Hs. by rewrite E in Hs. }
  destruct (decide (b = "")) as [->|Hb].
  - assert (q = false) as -> by (destruct q; [by rewrite bool_decide_eq_true_2 in Eq|done]).
    destruct (Hnq eq_refl) as [-> _]. rewrite (bool_decide_eq_false_2 ("" ≠ "")) by tauto.
    assert (Ha : has_slash arg = false) by (unfold has_slash; by rewrite E).
    destruct (decide (arg1 = "")) as [->|H1].
    { rewrite (bool_decide_eq_true_2 ("" = "")) by done. cbn. split; [done|]. naive_solver. }
    rewrite (bool_decide_eq_false_2 (arg1 = "")) by done. cbn. destruct (has_slash arg1) eqn:Hs1.
    { split; [done|]. intros (_ & _ & Hn & [[? _]|[_ [?|[= -> ->]]]]); [done..|congruence]. }
    clear Eq Hq Hnq. case_bool_decide as Ht.
    + split; [done|]. clear -Ht. naive_solver.
    + split; [intros [= <- <-]; split_and!; [done..|]; right; split; [done|]; by right|].
      intros (_ & _ & _ & [[? _]|[_ [?|[= -> ->]]]]); done.
  - rewrite (bool_decide_eq_true_2 (b ≠ "")) by done. cbn. split; [done|].
    intros (_ & Hs & _ & [[? _]|[_ [?|[= -> ->]]]]); [done..|].
    destruct q; [unfold has_slash in Hs; by rewrite E in Hs|]. by destruct (Hnq eq_refl).
Qed.

Section command_line.
Context `{CommandLibrary}.

(** The command takes [--all-types] alone, or a type, [TYPE/NAME] or a type
    and a name, with neither part empty or holding a slash; anything else is a
    usage error that names the command. *)
Theorem get_args_iff commandPath all_types args
    (Hrange : ∀ lo hi args, RangeArgs lo hi args = None ↔ lo ≤ length args ≤ hi) :
  (∀ t n, get_args commandPath all_types args = Ok (t, n) ↔
     if all_types then args = [] ∧ t = "" ∧ n = "" else argument_form args t n) ∧
  ∀ err, get_args commandPath all_types args = Fail err → main (Some err) = (ExitUsage, Some
    (if bool_decide (commandPath = "") then "kli" else commandPath)).
Proof.
  unfold get_args, usageArgs. split.
  - intros t n. rewrite map_error_Ok. destruct all_types; cbn [andb].
    { destruct args; cbn; [naive_solver|]. split; [done|]. naive_solver. }
    destruct args as [|arg args]; [split; [done|]; unfold argument_form; naive_solver|].
    rewrite bool_decide_eq_false_2 by done. pose proof (Hrange 1 2 (arg :: args)) as Hr.
    destruct (RangeArgs 1 2 (arg :: args)) as [err|].
    + split; [done|]. intros (_ & _ & _ & Hforms). assert (1 ≤ length (arg :: args) ≤ 2) as Hl; [|by apply Hr in Hl].
      destruct Hforms as [[-> _]|[_ [->| ->]]]; cbn; lia.
    + destruct (proj1 Hr eq_refl) as [_ Hl]. destruct args as [|arg1 [|]]; cbn in Hl; [|..|lia].
      * apply parseArgs_one.
      * apply parseArgs_two.
  - intros err. destruct (if all_types && _ then _ else _) as [|e]; [done|]. cbn. intros [= <-].
    cbn. by repeat case_bool_decide.
Qed.
End command_line.


(** ** The covered kinds *)

Lemma cover_step_dom acc def :
  NoDup acc.2 → (∀ gk, gk ∈ acc.2 ↔ is_Some (acc.1 !! gk)) →
  NoDup (cover_step acc def).2 ∧ ∀ gk, gk ∈ (cover_step acc def).2 ↔ is_Some ((cover_step acc def).1 !! gk).
Proof.
  destruct acc as [versions kinds]. intros Hnd Hdom. unfold cover_step. destruct (_ || _); [done|].
  set (gk0 := GroupKind_of _). cbn [fst snd] in *. destruct (versions !! gk0) as [vs|] eqn:E.
  - split; [done|]. intros gk. rewrite Hdom. case_bool_decide; [done|].
    rewrite is_Some_insert. split; [by left|]. intros [?| ->]; [done|by rewrite E].
  - rewrite bool_decide_eq_false_2 by (cbn; apply not_elem_of_nil).
    assert (Hni : ¬ is_Some (versions !! gk0)) by (rewrite E; by intros []).
    destruct (snoc_fresh kinds gk0 _ Hnd Hdom Hni) as [H1 H2]. split; [done|].
    intros gk. by rewrite H2, is_Some_insert.
Qed.

(** Each covered kind is met once. *)
Lemma coveredVersions_dom `{GoSort} `{VersionOrder} resolver :
  NoDup (coveredVersions resolver).2 ∧
  ∀ gk, gk ∈ (coveredVersions resolver).2 ↔ is_Some ((coveredVersions resolver).1 !! gk).
Proof.
  unfold coveredVersions.
  assert (Hc : ∀ defs acc, NoDup acc.2 → (∀ gk, gk ∈ acc.2 ↔ is_Some (acc.1 !! gk)) →
    NoDup (foldl cover_step acc defs).2 ∧
    ∀ gk, gk ∈ (foldl cover_step acc defs).2 ↔ is_Some ((foldl cover_step acc defs).1 !! gk)).
  { induction defs as [|def defs IH]; intros acc Hnd Hdom; [done|].
    destruct (cover_step_dom acc def Hnd Hdom). by apply IH. }
  destruct (Hc (List resolver) (∅, [])) as [Hnd Hdom]; [constructor| |].
  { intros gk. cbn. rewrite lookup_empty. split; [by intros ?%not_elem_of_nil|by intros []]. }
  destruct (foldl cover_step (∅, []) (List resolver)) as [versions kinds]. cbn [fst snd] in *.
  split; [done|]. intros gk. rewrite Hdom. clear Hnd.
  assert (Hin : ∀ gk, gk ∈ kinds → is_Some (versions !! gk)) by (intros; by apply Hdom). clear Hdom Hc.
  revert versions Hin. induction kinds as [|gk' kinds IH]; intros versions Hin; [done|]. cbn [foldl].
  rewrite <- IH.
  - rewrite is_Some_insert. split; [by left|]. intros [?| ->]; [done|]. apply Hin. by left.
  - intros g Hg. rewrite is_Some_insert. left. apply Hin. by right.
Qed.

Section accounts.
Context `{GoSort} `{VersionOrder} `{K8s} `{KubernetesErrors} `{OwnerLibrary} `{!API}.
Context {U S : Type} `{!Cluster U} `{!Objects U S} `{!ComponentAccessor S}.
Context (gv_String : string → string → string) (Error : error → string).
Context (Parse : string → result aval) (meta status : list rfield).

(** Why a kind is not listed, as a warning says it. *)
Inductive kind_warning (look : Lookup_) (gk : GroupKind) : error → Prop :=
  | WarnVersion served : kind_warning look gk (uncovered_version gv_String (look_resolver look) gk served)
  | WarnDiscovery groupErr :
      look_failedGroups look !! gk_Group gk = Some groupErr → kind_warning look gk (failed_discovery gk groupErr)
  | WarnDefinition mapping vs err :
      MappingFor gk vs = Ok mapping → kind_warning look gk (unlisted (GroupKind_of (km_GVK mapping)) err)
  | WarnDenied mapping vs :
      MappingFor gk vs = Ok mapping → kind_warning look gk (denied (GroupKind_of (km_GVK mapping))).

(** What discovery made of a kind; [after] are the versions it stays covered at. *)
Definition discovered (look : Lookup_) (gk : GroupKind) (vs : list string) (mapping : option KindMapping)
    (after : option (list string)) (warnings : list error) : Prop :=
  match mapping with
  | Some m => MappingFor gk vs = Ok m ∧ after = Some vs
  | None =>
      after = None ∧
      ((∃ w, w ∈ warnings ∧ kind_warning look gk w) ∨
       ∃ e e', MappingFor gk vs = Fail e ∧ IsNoMatchError e = true ∧
               MappingFor gk [] = Fail e' ∧ IsNoMatchError e' = true ∧
               look_failedGroups look !! gk_Group gk = None)
  end.

Lemma discoverKinds_spec look kinds versions mappings warnings mappings' warnings' versions' :
  NoDup kinds → (∀ gk, gk ∈ kinds → is_Some (versions !! gk)) →
  discoverKinds gv_String look kinds versions mappings warnings = (Ok mappings', warnings', versions') →
  warnings ⊆ warnings' ∧
  (∀ gk, gk ∉ kinds → mappings' !! gk = mappings !! gk ∧ versions' !! gk = versions !! gk) ∧
  ∀ gk, gk ∈ kinds → mappings !! gk = None →
    discovered look gk (default [] (versions !! gk)) (mappings' !! gk) (versions' !! gk) warnings'.
Proof.
  intros Hnd. revert versions mappings warnings.
  induction Hnd as [|gk kinds Hni Hnd IH]; intros versions mappings warnings Hdom; cbn [discoverKinds].
  { intros [= <- <- <-]. split; [done|]. split; [done|]. by intros gk ?%not_elem_of_nil. }
  assert (Hdom' : ∀ vs g, vs = versions ∨ vs = delete gk versions → g ∈ kinds → is_Some (vs !! g)).
  { intros vs g Hvs Hg. assert (g ≠ gk) by congruence.
    assert (is_Some (versions !! g)) by (apply Hdom; by right). destruct Hvs as [->| ->]; [done|].
    by rewrite lookup_delete_ne. }
  assert (Hdrop : ∀ w, 
    discoverKinds gv_String look kinds (delete gk versions) mappings (warnings ++ w) = (Ok mappings', warnings', versions') →
    (∀ m', m' = mappings' !! gk → mappings !! gk = None → w ⊆ warnings' → m' = None →
       discovered look gk (default [] (versions !! gk)) None None warnings') →
    warnings ⊆ warnings' ∧
    (∀ g, g ∉ gk :: kinds → mappings' !! g = mappings !! g ∧ versions' !! g = versions !! g) ∧
    ∀ g, g ∈ gk :: kinds → mappings !! g = None →
      discovered look g (default [] (versions !! g)) (mappings' !! g) (versions' !! g) warnings').
  { intros w E Hgk. destruct (IH _ _ _ (λ g, Hdom' _ g (or_intror eq_refl)) E) as (I1 & I2 & I3).
    destruct (I2 _ Hni) as [Em Ev]. split; [set_solver|]. split.
    - intros g Hg. rewrite not_elem_of_cons in Hg. destruct Hg as [Hne Hg].
      destruct (I2 _ Hg) as [-> ->]. by rewrite lookup_delete_ne.
    - intros g Hg Hnone. destruct (decide (g = gk)) as [->|Hne].
      + rewrite Em, Hnone, Ev, lookup_delete_eq.
        apply (Hgk (mappings' !! gk)); [done|done|set_solver|by rewrite Em].
      + apply elem_of_cons in Hg as [?|Hg]; [done|]. specialize (I3 _ Hg Hnone).
        by rewrite lookup_delete_ne in I3. }
  destruct (MappingFor gk (default [] (versions !! gk))) as [m|e] eqn:Em.
  - intros E. destruct (IH _ _ _ (λ g, Hdom' _ g (or_introl eq_refl)) E) as (I1 & I2 & I3). split; [done|]. split.
    + intros g Hg. rewrite not_elem_of_cons in Hg. destruct Hg as [Hne Hg].
      destruct (I2 _ Hg) as [-> ->]. by rewrite lookup_insert_ne.
    + intros g Hg Hnone. destruct (decide (g = gk)) as [->|Hne].
      * destruct (I2 _ Hni) as [-> ->]. rewrite lookup_insert_eq. split; [done|].
        destruct (Hdom gk) as [vs ->]; [by left|done].
      * apply elem_of_cons in Hg as [?|Hg]; [done|]. apply I3; [done|]. by rewrite lookup_insert_ne.
  - destruct (IsNoMatchError e) eqn:En; cbn [negb]; [|done].
    destruct (MappingFor gk []) as [served|e'] eqn:Es.
    + intros E. apply (Hdrop _ E). intros m' _ _ Hw _. split; [done|]. left.
      eexists. split; [apply Hw; by left|constructor].
    + destruct (IsNoMatchError e') eqn:En'; [|done]. intros E. apply (Hdrop _ E). intros m' _ _ Hw _.
      split; [done|]. destruct (look_failedGroups look !! gk_Group gk) as [groupErr|] eqn:Ef.
      * left. eexists. split; [apply Hw; by left|by constructor].
      * right. by exists e, e'.
Qed.

(** What listing made of a kind that is mapped; [before] and [after] are its
    covered versions. *)
Definition listing (look : Lookup_) (opts : getOptions) (m : KindMapping) (before after : option (list string))
    (listed : list (@listedKind U)) (warnings : list error) : Prop :=
  match listKind gv_String look opts m with
  | Ok (Some kind, _) => kind ∈ listed ∧ after = before
  | Ok (None, w) => option_list w ⊆ warnings ∧ after = None
  | Fail _ => False
  end.

Lemma listKinds_spec look opts mappings kinds versions listed warnings listed' warnings' versions' :
  NoDup kinds →
  listKinds gv_String look opts mappings kinds versions listed warnings = (Ok listed', warnings', versions') →
  warnings ⊆ warnings' ∧ listed ⊆ listed' ∧
  (∀ gk, gk ∉ kinds → versions' !! gk = versions !! gk) ∧
  ∀ gk, gk ∈ kinds →
    match mappings !! gk with
    | None => versions' !! gk = versions !! gk
    | Some m => listing look opts m (versions !! gk) (versions' !! gk) listed' warnings'
    end.
Proof.
  intros Hnd. revert versions listed warnings.
  induction Hnd as [|gk kinds Hni Hnd IH]; intros versions listed warnings; cbn [listKinds].
  { intros [= <- <- <-]. split_and!; [done..|]. by intros gk ?%not_elem_of_nil. }
  destruct (mappings !! gk) as [m|] eqn:Em.
  - destruct (listKind gv_String look opts m) as [[[kind|] w]|err] eqn:El; [| |done].
    + intros E. destruct (IH _ _ _ E) as (I1 & I2 & I3 & I4). split; [done|]. split; [set_solver|]. split.
      { intros g Hg. apply I3. set_solver. }
      intros g Hg. destruct (decide (g = gk)) as [->|Hne].
      * rewrite Em. unfold listing. rewrite El. split; [set_solver|]. by apply I3.
      * apply elem_of_cons in Hg as [?|Hg]; [done|]. by apply I4.
    + intros E. destruct (IH _ _ _ E) as (I1 & I2 & I3 & I4). split; [set_solver|]. split; [done|]. split.
      { intros g Hg. rewrite not_elem_of_cons in Hg. destruct Hg. rewrite I3 by done. by rewrite lookup_delete_ne. }
      intros g Hg. destruct (decide (g = gk)) as [->|Hne].
      * rewrite Em. unfold listing. rewrite El. split; [set_solver|]. rewrite I3 by done. by rewrite lookup_delete_eq.
      * apply elem_of_cons in Hg as [?|Hg]; [done|]. specialize (I4 _ Hg).
        rewrite lookup_delete_ne in I4 by done. exact I4.
  - intros E. destruct (IH _ _ _ E) as (I1 & I2 & I3 & I4). split; [done|]. split; [done|]. split.
    { intros g Hg. apply I3. set_solver. }
    intros g Hg. destruct (decide (g = gk)) as [->|Hne].
    + rewrite Em. by apply I3.
    + apply elem_of_cons in Hg as [?|Hg]; [done|]. by apply I4.
Qed.

(** ** The objects listed *)

Section objects.
Context (opts : getOptions) (covered : GroupKind → bool).

(** The walker once the owners of some objects were looked for, one after the
    other: its caches hold what the API answered to these walks and nothing else. *)
Definition walker_after (objects : list U) : OwnerWalker :=
  foldl (λ w object, (TopLevel (listed_of object) covered w).2) NewOwnerWalker objects.

Lemma walker_after_snoc objects object :
  walker_after (objects ++ [object]) = (TopLevel (listed_of object) covered (walker_after objects)).2.
Proof. unfold walker_after. by rewrite foldl_snoc. Qed.

(** Over a cluster that does not change, whatever the caches hold: nested exactly
    below a covered owner that can be read, at most six links up. *)
Lemma TopLevel_nested_iff object w :
  static → coherent w →
  ((TopLevel (listed_of object) covered w).1.1 = false ↔
   ∃ n refs, n ≤ maxOwnerDepth ∧
     level n (lo_OwnerReferences (listed_of object)) (lo_Namespace (listed_of object)) = Ok (Some refs) ∧
     covers covered refs = true) ∧
  coherent (TopLevel (listed_of object) covered w).2.
Proof.
  intros Hstatic Hw. unfold TopLevel, climb.
  destruct (climb_static Hstatic maxOwnerDepth (lo_OwnerReferences (listed_of object))
    (lo_Namespace (listed_of object)) (covers covered) w Hw) as (w1 & -> & Hw1).
  rewrite <- climb_pure_true. by destruct (climb_pure _ _ _ _) as [[]|].
Qed.

Lemma walker_after_coherent objects : static → coherent (walker_after objects).
Proof.
  intros Hstatic. induction objects as [|object objects IH] using rev_ind; [apply NewOwnerWalker_coherent|].
  rewrite walker_after_snoc. by apply TopLevel_nested_iff.
Qed.

(** What came of an object, looked at after those [before] it: a row, with a
    warning if its owners could not be read; left out below a covered owner, which
    the walk from the object found, or by the phases asked for; or a warning.
    [walks] are the walks that failed, each with the object it was for. *)
Inductive object_outcome (before : list U) (kind : @listedKind U) (object : U) (views : list View)
    (warnings : list error) (walks : list (error * string)) : Prop :=
  | ObjectShown view walkErr :
      resolve_object Parse meta status object (lk_def kind) = Ok view → view ∈ views →
      (TopLevel (listed_of object) covered (walker_after before)).1 = (true, walkErr) →
      (∀ err, walkErr = Some err → (err, gk_Kind (lk_gk kind) +:+ "/" +:+ object_name object) ∈ walks) →
      object_outcome before kind object views warnings walks
  | ObjectNested :
      (TopLevel (listed_of object) covered (walker_after before)).1 = (false, None) →
      object_outcome before kind object views warnings walks
  | ObjectFiltered view walkErr :
      (TopLevel (listed_of object) covered (walker_after before)).1 = (true, walkErr) →
      resolve_object Parse meta status object (lk_def kind) = Ok view →
      matchesPhase view (go_phases opts) = false → object_outcome before kind object views warnings walks
  | ObjectUnresolved walkErr err :
      (TopLevel (listed_of object) covered (walker_after before)).1 = (true, walkErr) →
      resolve_object Parse meta status object (lk_def kind) = Fail err →
      unresolved (gk_Kind (lk_gk kind)) object err ∈ warnings → object_outcome before kind object views warnings walks.

Lemma object_outcome_mono before kind object views views' warnings warnings' walks walks' :
  views ⊆ views' → warnings ⊆ warnings' → walks ⊆ walks' →
  object_outcome before kind object views warnings walks → object_outcome before kind object views' warnings' walks'.
Proof.
  intros Hv Hw Hl [view walkErr ? ? ? He|?|view walkErr ? ? ?|walkErr err ? ? ?].
  - eapply ObjectShown; eauto.
  - by eapply ObjectNested.
  - by eapply ObjectFiltered.
  - eapply ObjectUnresolved; eauto.
Qed.

Lemma TopLevel_nested object w : (TopLevel (listed_of object) covered w).1.1 = false →
  (TopLevel (listed_of object) covered w).1 = (false, None).
Proof. unfold TopLevel. destruct (climb _ _ _ _) as [[nested|err] w']; cbn; [by destruct nested|done]. Qed.

(** From [g] to [g'] nothing is lost, and what is new came from [origin]. *)
Record gathers (origin : View → Prop) (g g' : gathered) (walks walks' : list (error * string)) : Prop := {
  gathers_views : ga_views g ⊆ ga_views g';
  gathers_warnings : ga_warnings g ⊆ ga_warnings g';
  gathers_walks : walks ⊆ walks';
  gathers_failures : grouped Error (ga_failures g) walks → grouped Error (ga_failures g') walks';
  gathers_origin view : view ∈ ga_views g' → view ∈ ga_views g ∨ origin view;
}.

Lemma gathers_refl origin g walks : gathers origin g g walks walks.
Proof. split; auto. Qed.

Lemma gathers_trans (origin1 origin2 origin : View → Prop) g1 g2 g3 w1 w2 w3 :
  (∀ v, origin1 v ∨ origin2 v → origin v) →
  gathers origin1 g1 g2 w1 w2 → gathers origin2 g2 g3 w2 w3 → gathers origin g1 g3 w1 w3.
Proof.
  intros Ho [V1 W1 L1 F1 O1] [V2 W2 L2 F2 O2]. split; [by etrans..|auto|].
  intros v [[?|?]%O1|?]%O2; auto.
Qed.

Lemma view_step_walker kind g object :
  ga_walker (view_step Error Parse meta status opts covered kind g object) =
  (TopLevel (listed_of object) covered (ga_walker g)).2.
Proof. unfold view_step. destruct (TopLevel _ _ _) as [[top walkErr] walker]. by repeat case_match. Qed.

Lemma view_step_gathers before kind g object walks :
  ga_walker g = walker_after before →
  ∃ walks', let g' := view_step Error Parse meta status opts covered kind g object in
    gathers (λ view, resolve_object Parse meta status object (lk_def kind) = Ok view) g g' walks walks' ∧
    ga_walker g' = walker_after (before ++ [object]) ∧
    object_outcome before kind object (ga_views g') (ga_warnings g') walks'.
Proof.
  intros Hg. rewrite walker_after_snoc, <- Hg. cbv zeta. rewrite view_step_walker. unfold view_step.
  pose proof (TopLevel_nested object (ga_walker g)) as Hnested.
  destruct (TopLevel (listed_of object) covered (ga_walker g)) as [[top walkErr] walker] eqn:Et. cbn in Hnested.
  destruct top; cbn [negb].
  - destruct (resolve_object Parse meta status object (lk_def kind)) as [view|err] eqn:Er.
    + destruct (matchesPhase view (go_phases opts)) eqn:Ep; cbn [negb].
      * exists (walks ++ match walkErr with
                         | Some err => [(err, gk_Kind (lk_gk kind) +:+ "/" +:+ object_name object)] | None => [] end).
        split_and!; [|done|].
        -- split; cbn [ga_views ga_warnings ga_failures ga_walker]; [set_solver..| |].
           ++ intros Hgr. destruct walkErr; [by apply Add_grouped|by rewrite app_nil_r].
           ++ intros v. rewrite elem_of_app, list_elem_of_singleton. intros [?| ->]; [by left|by right].
        -- eapply ObjectShown; [done|cbn; set_solver|by rewrite <- Hg, Et|]. intros err ->. set_solver.
      * exists walks. split_and!; [split; auto|done|]. eapply ObjectFiltered; [by rewrite <- Hg, Et|done|done].
    + exists walks. split_and!; [split; cbn; set_solver|done|].
      eapply ObjectUnresolved; [by rewrite <- Hg, Et|done|cbn; set_solver].
  - exists walks. split_and!; [split; auto|done|]. apply ObjectNested. rewrite <- Hg, Et. by apply Hnested.
Qed.

(** The outcome of each of some objects, after those [before] them all. *)
Definition outcomes (before : list U) (kind : listedKind) (objects : list U) (views : list View)
    (warnings : list error) (walks : list (error * string)) : Prop :=
  ∀ i object, objects !! i = Some object →
    object_outcome (before ++ take i objects) kind object views warnings walks.

Lemma kind_gathers before kind objects g walks :
  ga_walker g = walker_after before →
  ∃ walks', let g' := foldl (view_step Error Parse meta status opts covered kind) g objects in
    gathers (λ view, ∃ object, object ∈ objects ∧
               resolve_object Parse meta status object (lk_def kind) = Ok view) g g' walks walks' ∧
    ga_walker g' = walker_after (before ++ objects) ∧
    outcomes before kind objects (ga_views g') (ga_warnings g') walks'.
Proof.
  revert before g walks. induction objects as [|object objects IH]; intros before g walks Hg; cbn [foldl].
  { exists walks. rewrite app_nil_r. by split_and!; [apply gathers_refl| |]. }
  destruct (view_step_gathers before kind g object walks Hg) as (w1 & G1 & E1 & O1). cbv zeta in *.
  destruct (IH (before ++ [object]) (view_step Error Parse meta status opts covered kind g object) w1 E1)
    as (w2 & G2 & E2 & O2). rewrite <- app_assoc in E2.
  exists w2. split_and!; [|done|].
  - eapply gathers_trans; [|exact G1|exact G2]. intros v [?|(o & ? & ?)]; [exists object|exists o]; set_solver.
  - intros [|i] o Hi; cbn in Hi.
    + injection Hi as <-. rewrite app_nil_r. destruct G2. by eapply object_outcome_mono.
    + specialize (O2 i o Hi). by rewrite <- app_assoc in O2.
Qed.

Lemma kinds_gather before listed g walks :
  ga_walker g = walker_after before →
  ∃ walks', let g' := foldl (λ g kind, foldl (view_step Error Parse meta status opts covered kind) g
                               (lk_objects kind)) g listed in
    gathers (λ view, ∃ kind object, kind ∈ listed ∧ object ∈ lk_objects kind ∧
               resolve_object Parse meta status object (lk_def kind) = Ok view) g g' walks walks' ∧
    ∀ i kind, listed !! i = Some kind →
      outcomes (before ++ (take i listed ≫= lk_objects)) kind (lk_objects kind) (ga_views g') (ga_warnings g') walks'.
Proof.
  revert before g walks. induction listed as [|kind listed IH]; intros before g walks Hg; cbn [foldl].
  { exists walks. by split; [apply gathers_refl|]. }
  destruct (kind_gathers before kind (lk_objects kind) g walks Hg) as (w1 & G1 & E1 & O1). cbv zeta in *.
  set (g1 := foldl (view_step Error Parse meta status opts covered kind) g (lk_objects kind)) in *.
  destruct (IH _ g1 w1 E1) as (w2 & G2 & O2). exists w2. split.
  - eapply gathers_trans; [|exact G1|exact G2].
    intros v [(o & ? & ?)|(k & o & ? & ? & ?)]; [exists kind, o|exists k, o]; set_solver.
  - intros [|i] k Hi; cbn in Hi |- *.
    + injection Hi as <-. rewrite app_nil_r. intros j o Hj. destruct G2. by eapply object_outcome_mono, O1.
    + specialize (O2 i k Hi). by rewrite <- app_assoc in O2.
Qed.
End objects.

Lemma listKinds_origin look opts mappings kinds versions listed warnings listed' warnings' versions' kind :
  listKinds gv_String look opts mappings kinds versions listed warnings = (Ok listed', warnings', versions') →
  kind ∈ listed' →
  kind ∈ listed ∨ ∃ gk m w, gk ∈ kinds ∧ mappings !! gk = Some m ∧ listKind gv_String look opts m = Ok (Some kind, w).
Proof.
  revert versions listed warnings. induction kinds as [|gk kinds IH]; intros versions listed warnings; cbn [listKinds].
  { intros [= -> _ _]. by left. }
  destruct (mappings !! gk) as [m|] eqn:Em.
  - destruct (listKind gv_String look opts m) as [[[k|] w]|err] eqn:El; [| |done].
    + intros E Hk. destruct (IH _ _ _ E Hk) as [[Hin| ->%list_elem_of_singleton]%elem_of_app|(g & m' & w' & ? & ? & ?)].
      * by left.
      * right. exists gk, m, w. split; [by left|done].
      * right. exists g, m', w'. split; [by right|done].
    + intros E Hk. destruct (IH _ _ _ E Hk) as [?|(g & m' & w' & ? & ? & ?)]; [by left|].
      right. exists g, m', w'. split; [by right|done].
  - intros E Hk. destruct (IH _ _ _ E Hk) as [?|(g & m' & w' & ? & ? & ?)]; [by left|].
    right. exists g, m', w'. split; [by right|done].
Qed.

(** Why a covered kind has no rows: a warning says so, or the cluster does not
    have it: no mapping and no group that failed, or no longer served. *)
Definition left_out (look : Lookup_) (opts : getOptions) (gk : GroupKind) (vs : list string)
    (warnings : list error) : Prop :=
  (∃ w, w ∈ warnings ∧ kind_warning look gk w) ∨
  (∃ e e', MappingFor gk vs = Fail e ∧ IsNoMatchError e = true ∧ MappingFor gk [] = Fail e' ∧
           IsNoMatchError e' = true ∧ look_failedGroups look !! gk_Group gk = None) ∨
  (∃ m namespace e, MappingFor gk vs = Ok m ∧ list_objects (km_Mapping m) namespace opts = Fail e ∧
                    IsNotFound e = true).

Lemma left_out_mono look opts gk vs w w' : w ⊆ w' → left_out look opts gk vs w → left_out look opts gk vs w'.
Proof. intros Hw [(x & ? & ?)|?]; [left; eauto|by right]. Qed.

Lemma listKind_left_out look opts gk vs m w :
  MappingFor gk vs = Ok m → listKind gv_String look opts m = Ok (None, w) →
  left_out look opts gk vs (option_list w).
Proof.
  intros Hm. unfold listKind. destruct (CliDefinitions.Resolve _ _ _) as [def|err].
  - destruct (list_objects _ _ _) as [objects|err] eqn:El; [done|].
    destruct (IsForbidden err).
    + intros [= <-]. left. eexists. split; [by left|]. by eapply WarnDenied.
    + destruct (IsNotFound err) eqn:En; [|done]. intros [= <-]. right. right. by eexists _, _, _.
  - intros [= <-]. left. eexists. split; [by left|]. by eapply WarnDefinition.
Qed.

Lemma discovered_left_out look opts gk vs w after : discovered look gk vs None after w → left_out look opts gk vs w.
Proof. intros [_ [?|(e & e' & ? & ? & ? & ? & ?)]]; [by left|right; left]. by exists e, e'. Qed.

(** The kind listed for a covered kind, if it was. *)
Definition listed_for (look : Lookup_) (opts : getOptions) (mappings : gmap GroupKind KindMapping)
    (versions : gmap GroupKind (list string)) (gk : GroupKind) : option listedKind :=
  _ ← versions !! gk; m ← mappings !! gk;
  match listKind gv_String look opts m with Ok (Some kind, _) => Some kind | _ => None end.

Lemma walks_warned failures walks err name :
  grouped Error failures walks → (err, name) ∈ walks →
  ∃ objects, name ∈ objects ∧ owner_warning (Error err) objects ∈ Warnings failures owner_warning.
Proof.
  intros [_ Hin Hobj _] Hw. exists (default [] (wf_objects failures !! Error err)). split.
  - rewrite Hobj. apply list_elem_of_fmap. exists (err, name). split; [done|]. by apply list_elem_of_filter.
  - unfold Warnings. apply list_elem_of_fmap. exists (Error err). split; [done|]. apply Hin. by exists err, name.
Qed.

(** What both passes made of a covered kind. *)
Lemma kind_settled look opts gk vs (mappings : gmap GroupKind KindMapping)
    (versions1 versions2 : gmap GroupKind (list string)) w1 w2 listed :
  discovered look gk vs (mappings !! gk) (versions1 !! gk) w1 →
  match mappings !! gk with
  | None => versions2 !! gk = versions1 !! gk
  | Some m => listing look opts m (versions1 !! gk) (versions2 !! gk) listed w2
  end →
  (is_covered versions2 gk = bool_decide (is_Some (listed_for look opts mappings versions2 gk))) ∧
  match listed_for look opts mappings versions2 gk with
  | Some kind => kind ∈ listed ∧ ∃ m w, MappingFor gk vs = Ok m ∧ mappings !! gk = Some m ∧
                                        listKind gv_String look opts m = Ok (Some kind, w)
  | None => left_out look opts gk vs (w1 ++ w2)
  end.
Proof.
  intros Hd Hl. unfold listed_for, is_covered. destruct (mappings !! gk) as [m|] eqn:Em.
  - destruct Hd as [Hm Hvs]. unfold listing in Hl.
    destruct (listKind gv_String look opts m) as [[[kind|] w]|] eqn:El; [| |done].
    + destruct Hl as [Hin E2]. rewrite E2, Hvs. cbn. rewrite El. split; [done|].
      split; [done|]. exists m, w. done.
    + destruct Hl as [Hw E2]. rewrite E2. cbn. split; [done|].
      eapply left_out_mono; [|by eapply listKind_left_out]. set_solver.
  - pose proof (discovered_left_out look opts _ _ _ _ Hd) as Hout. destruct Hd as [Hc _].
    rewrite Hl, Hc. cbn. split; [done|]. eapply left_out_mono; [|exact Hout]. set_solver.
Qed.

(** C35: [--all-types] hides nothing in silence.  Every covered kind is listed
    unless a warning says why not or the cluster does not serve it; every object
    listed is a row, or below an owner of a kind that is listed itself, as the walk
    from it found with what was read for the objects before it, or not of the
    phases asked for, or named in a warning; an object whose walk fails is never
    taken for a nested one; a row whose owners could not be read has a warning that
    names it; and there are no other rows.  Over a cluster that does not change
    an object is left out as nested exactly when an owner at most six links up can
    be read and is of a kind that is listed. *)
Theorem collectAllTypes_accounts look opts views warnings :
  collectAllTypes gv_String Error Parse meta status look opts = (Ok views, warnings) →
  ∃ (listed : GroupKind → option (@listedKind U)) order covered walks,
    (∀ gk, covered gk = bool_decide (is_Some (listed gk))) ∧
    (∀ gk, match (coveredVersions (look_resolver look)).1 !! gk with
           | Some vs =>
               match listed gk with
               | Some kind =>
                   (∃ m w, MappingFor gk vs = Ok m ∧ listKind gv_String look opts m = Ok (Some kind, w)) ∧ kind ∈ order
               | None => left_out look opts gk vs warnings
               end
           | None => listed gk = None
           end) ∧
    (∀ i kind, order !! i = Some kind →
       outcomes opts covered (take i order ≫= lk_objects) kind (lk_objects kind) views warnings walks) ∧
    (static → ∀ before object,
       (TopLevel (listed_of object) covered (walker_after covered before)).1.1 = false ↔
       ∃ n refs, n ≤ maxOwnerDepth ∧
         level n (lo_OwnerReferences (listed_of object)) (lo_Namespace (listed_of object)) = Ok (Some refs) ∧
         covers covered refs = true) ∧
    (∀ err name, (err, name) ∈ walks → ∃ objects, name ∈ objects ∧ owner_warning (Error err) objects ∈ warnings) ∧
    (∀ view, view ∈ views → ∃ gk kind object, listed gk = Some kind ∧ object ∈ lk_objects kind ∧
       resolve_object Parse meta status object (lk_def kind) = Ok view).
Proof.
  unfold collectAllTypes. destruct (coveredVersions_dom (look_resolver look)) as [Hnd Hdom].
  destruct (coveredVersions (look_resolver look)) as [versions kinds]. cbn [fst snd] in *.
  destruct (discoverKinds gv_String look kinds versions ∅ []) as [[[mappings|] w1] versions1] eqn:Ed; [|done].
  destruct (listKinds gv_String look opts mappings kinds versions1 [] []) as [[[listed|] w2] versions2] eqn:El; [|done].
  destruct (discoverKinds_spec _ _ _ _ _ _ _ _ Hnd (λ gk, proj1 (Hdom gk)) Ed) as (_ & D2 & D3).
  destruct (listKinds_spec _ _ _ _ _ _ _ _ _ _ Hnd El) as (_ & _ & L3 & L4).
  unfold topLevelViews. destruct (kinds_gather opts (is_covered versions2) [] listed
    (MkGathered [] [] no_failures NewOwnerWalker) [] eq_refl) as (walks & G & O). cbv zeta in *.
  set (g := foldl _ _ listed) in *. intros [= <- <-]. destruct G as [_ _ _ GF GO].
  specialize (GF (no_failures_grouped Error)).
  assert (Hsettled : ∀ gk vs, versions !! gk = Some vs →
    is_covered versions2 gk = bool_decide (is_Some (listed_for look opts mappings versions2 gk)) ∧
    match listed_for look opts mappings versions2 gk with
    | Some kind => kind ∈ listed ∧ ∃ m w, MappingFor gk vs = Ok m ∧ mappings !! gk = Some m ∧
                                          listKind gv_String look opts m = Ok (Some kind, w)
    | None => left_out look opts gk vs (w1 ++ w2)
    end).
  { intros gk vs Hvs. assert (Hin : gk ∈ kinds) by (apply Hdom; by eexists).
    pose proof (D3 gk Hin (lookup_empty gk)) as Hd. rewrite Hvs in Hd.
    eapply kind_settled; [exact Hd|exact (L4 gk Hin)]. }
  assert (Hnone : ∀ gk, versions !! gk = None → versions2 !! gk = None).
  { intros gk Hgk. assert (Hni : gk ∉ kinds) by (intros Hin; apply Hdom in Hin; rewrite Hgk in Hin; by destruct Hin).
    by rewrite (L3 _ Hni), (proj2 (D2 _ Hni)). }
  exists (listed_for look opts mappings versions2), listed, (is_covered versions2), walks. split_and!.
  - intros gk. destruct (versions !! gk) as [vs|] eqn:Ev; [apply (Hsettled gk vs Ev)|].
    unfold is_covered, listed_for. by rewrite (Hnone _ Ev).
  - intros gk. destruct (versions !! gk) as [vs|] eqn:Ev.
    + destruct (Hsettled gk vs Ev) as [_ Hs]. destruct (listed_for _ _ _ _ gk) as [kind|].
      * destruct Hs as [Hin (m & w & Hm & _ & Hk)]. split; [by exists m, w|done].
      * eapply left_out_mono; [|exact Hs]. set_solver.
    + unfold listed_for. by rewrite (Hnone _ Ev).
  - intros i kind Hi j object Hj. eapply object_outcome_mono; [| |done|exact (O i kind Hi j object Hj)]; set_solver.
  - intros Hstatic before object. apply TopLevel_nested_iff; [done|by apply walker_after_coherent].
  - intros err name Hw. destruct (walks_warned _ _ _ _ GF Hw) as (objects & ? & ?). exists objects. set_solver.
  - intros view Hv. destruct (GO _ Hv) as [?%not_elem_of_nil|(kind & o & Hk & Ho & Hr)]; [done|].
    destruct (listKinds_origin _ _ _ _ _ _ _ _ _ _ _ El Hk) as [?%not_elem_of_nil|(gk & m & w & Hin & Hm & Hl)]; [done|].
    exists gk, kind, o. split; [|done]. unfold listed_for. rewrite Hm.
    specialize (L4 gk Hin). rewrite Hm in L4. unfold listing in L4. rewrite Hl in L4. destruct L4 as [_ ->].
    destruct (proj1 (Hdom gk) Hin) as [vs Hvs]. pose proof (D3 gk Hin (lookup_empty gk)) as Hd.
    rewrite Hm in Hd. destruct Hd as [_ ->]. cbn. by rewrite Hl.
Qed.
End accounts.

(** ** The definition a token names *)

Section target_properties.
Context `{CommandLibrary} `{OwnerLibrary} {U : Type} `{!Cluster U}.
Context (gv_String : string → string → string).





End target_properties.

(** ** The order of the rows *)

Lemma row_less_lex a b :
  row_less a b =
  (vw_CreatedAt b <? vw_CreatedAt a)%Z || (negb (vw_CreatedAt a <? vw_CreatedAt b)%Z &&
    (string_lt (vw_Kind a) (vw_Kind b) || (negb (string_lt (vw_Kind b) (vw_Kind a)) &&
       string_lt (vw_Name a) (vw_Name b)))).
Proof.
  pose proof (less_irrefl _ string_lt_strict_weak) as Hirr. unfold row_less.
  destruct (decide (vw_CreatedAt a = vw_CreatedAt b)) as [->|Hne].
  - rewrite bool_decide_eq_false_2, Z.ltb_irrefl by tauto. cbn.
    destruct (decide (vw_Kind a = vw_Kind b)) as [->|Hk].
    + rewrite bool_decide_eq_false_2, Hirr by tauto. done.
    + rewrite bool_decide_eq_true_2 by done. destruct (string_lt (vw_Kind a) (vw_Kind b)) eqn:E1; [done|].
      destruct (string_lt (vw_Kind b) (vw_Kind a)) eqn:E2; [done|]. destruct Hk. by apply string_lt_total.
  - rewrite bool_decide_eq_true_2 by done. destruct (Z.ltb_spec (vw_CreatedAt b) (vw_CreatedAt a)); [done|].
    by rewrite (proj2 (Z.ltb_lt (vw_CreatedAt a) (vw_CreatedAt b))) by lia.
Qed.

Lemma row_less_strict_weak : strict_weak row_less.
Proof.
  assert (Hts : strict_weak (λ a b : View, (vw_CreatedAt b <? vw_CreatedAt a)%Z)).
  { split; intros; [apply Z.ltb_irrefl|lia|].
    destruct (vw_CreatedAt y <? vw_CreatedAt x)%Z eqn:E; [by left|right; lia]. }
  pose proof (strict_weak_lex _ _ Hts (strict_weak_lex _ _
    (strict_weak_on _ vw_Kind string_lt_strict_weak) (strict_weak_on _ vw_Name string_lt_strict_weak))) as [H1 H2 H3].
  split.
  - intros x. rewrite row_less_lex. apply H1.
  - intros x y z. rewrite !row_less_lex. apply H2.
  - intros x y z. rewrite !row_less_lex. apply H3.
Qed.

Section rows.
Context `{GoSort} `{VersionOrder} `{K8s} `{KubernetesErrors} `{OwnerLibrary} `{CommandLibrary} `{!API}.
Context {U S : Type} `{!Cluster U} `{!Objects U S} `{!ComponentAccessor S}.
Context (gv_String : string → string → string) (Error : error → string).
Context (ErrGroupDiscoveryFailed : error → option (list (string * string * error))).
Context (Parse : string → result aval) (meta status : list rfield).

Lemma resolveLookup_warnings access opts :
  (resolveLookup gv_String ErrGroupDiscoveryFailed access opts).2 =
  match ac_Namespace access with Ok _ => warningMessages (ac_loaded access).2 | Fail _ => [] end.
Proof. unfold resolveLookup. destruct (ac_Namespace access); [|done]. by destruct (ac_loaded access). Qed.

(** The rows are printed newest first, those of one time by kind and then by
    name, and rows that tie keep the order they were listed in; every warning of
    loading the definitions is printed with them, also when the command fails
    after that. *)
Theorem get_rows_ordered access opts rows warnings :
  get_rows gv_String Error ErrGroupDiscoveryFailed Parse meta status access opts = (rows, warnings) →
  (is_ok (ac_Namespace access) = true → warningMessages (ac_loaded access).2 ⊆ warnings) ∧
  ∀ views searched typeOf, rows = Ok (views, searched, typeOf) →
    sorted_by row_less views ∧
    ∃ listed, views ≡ₚ listed ∧ ∀ view, filter (tied row_less view) views = filter (tied row_less view) listed.
Proof.
  unfold get_rows. intros E. pose proof (resolveLookup_warnings access opts) as Hws.
  destruct (resolveLookup _ _ access opts) as [[look|err] ws]; cbn in Hws; [|split].
  - destruct (match look_definition look with Some _ => _ | None => _ end) as [[[found listWarnings] s'] t'].
    injection E as <- <-. split.
    { destruct (ac_Namespace access); [|done]. set_solver. }
    intros views searched typeOf Hrows. destruct found as [listed|]; [|done]. injection Hrows as <- _ _. split.
    + apply insertion_sort_sorted, row_less_strict_weak.
    + exists listed. split; [apply insertion_sort_Permutation|]. intros view.
      apply SortStableFunc_stable, row_less_strict_weak.
  - injection E as _ <-. destruct (ac_Namespace access); [|done]. by rewrite Hws.
  - injection E as <- _. done.
Qed.
End rows.

(** ** A concrete cluster

    Jobs are covered and served, a kind of the group [down] is covered but its
    discovery failed.  The second job belongs to the first. *)

#[local] Instance get_fields : PodFields := sample_fields.
#[local] Instance get_errors : KubernetesErrors := sample_errors.

#[local] Instance get_versions : VersionOrder := {
  CompareKubeAwareVersionStrings a b := if string_lt a b then (-1)%Z else if string_lt b a then 1%Z else 0%Z;
}.

#[local] Instance get_library : OwnerLibrary := {
  FromAPIVersionAndKind version kind := GVK "batch" version kind;
  IsNoMatchError e := is_external "no match" e;
}.

#[local] Instance get_commands : CommandLibrary := {
  RangeArgs lo hi args :=
    if (lo <=? length args)%nat && (length args <=? hi)%nat then None else Some (External "wrong number of arguments");
  labels_Parse s := None;
  ParseResourceArg s := (None, ("", s));
  ParseKindArg s := (None, GK "" s);
  IsAmbiguousError e := false;
}.

#[local] Instance get_api : API := sample_api.

Record sample_job := SampleJob { sj_name : string; sj_created : Z; sj_owners : list OwnerReference }.

#[local] Instance get_objects : Objects sample_job table := {
  identity j := MkIdentity (sj_name j) "ns" "Job" "v1" (sj_created j);
  listed_of j := MkListed (sj_name j) "ns" (sj_owners j);
  accessor_of j := tree_table;
}.

Definition sample_jobs : list sample_job :=
  [SampleJob "old" 1 []; SampleJob "child" 2 [MkOwnerReference (Some true) "v1" "Job" "old" "u"]; SampleJob "new" 3 []].

#[local] Instance get_cluster : Cluster sample_job := {
  KindFor gvr := if bool_decide (gvr_Resource gvr = "jobs") then Ok (GVK "batch" "v1" "Job")
                 else Fail (External "no match");
  MappingFor gk versions :=
    if bool_decide (gk = GK "batch" "Job")
    then Ok (MkKindMapping (GVK "batch" "v1" "Job") (MkMapping (GVR "batch" "v1" "jobs") true))
    else Fail (External "no match");
  ListObjects _ _ _ _ := PMore (take 2 sample_jobs) "next" (PLast (drop 2 sample_jobs));
  GetObject _ _ name := Fail (External "not found");
}.

(** [solo_karta] for another kind. *)
Definition with_kind (k : Karta) (gvk : GroupVersionKind) : Karta := {|
  k_ObjectMeta := k_ObjectMeta k;
  k_Spec := {|
    ks_StructureDefinition := {|
      st_RootComponent := {|
        cd_Name := cd_Name (RootComponent k); cd_Kind := Some gvk; cd_OwnerRef := cd_OwnerRef (RootComponent k);
        cd_SpecDefinition := cd_SpecDefinition (RootComponent k);
        cd_ScaleDefinition := cd_ScaleDefinition (RootComponent k);
        cd_StatusDefinition := cd_StatusDefinition (RootComponent k);
        cd_SuspendDefinition := cd_SuspendDefinition (RootComponent k);
        cd_InstanceIdPath := cd_InstanceIdPath (RootComponent k);
        cd_PodSelector := cd_PodSelector (RootComponent k) |};
      st_ChildComponents := ChildComponents k;
      st_AdditionalChildKinds := [] |};
    ks_Instructions := ks_Instructions (k_Spec k) |} |}.

Definition get_resolver : Resolver :=
  New gvk_Kind (H:=insertion_GoSort) [with_kind solo_karta (GVK "batch" "v1" "Job");
                                      with_kind solo_karta (GVK "down" "v1" "Lost")] [].

Definition get_access : Access := MkAccess (Ok "ns") (get_resolver, []) None None None None None
  (Some (External "groups")).

Definition get_opts : getOptions := MkGetOptions "" "" [] "" defaultChunkSize true.

Definition get_look : Lookup_ := MkLookup "ns" get_resolver None {["down" := External "no answer"]}.

Definition sample_all_types : result (list View) * list error :=
  collectAllTypes (H:=insertion_GoSort) (U:=sample_job) (S:=table) (λ g v, g) (λ _, "error") (λ _, Ok AScalar) [] []
    get_look get_opts.

(** The child is left out and the kind whose discovery failed has a warning. *)
Example sample_all_types_rows :
  match sample_all_types with
  | (Ok views, warnings) => vw_Name <$> views = ["old"; "new"] ∧ length warnings = 1
  | _ => False
  end.
Proof. by vm_compute. Qed.

Lemma collectAllTypes_accounts_witness :
  ∃ views warnings, sample_all_types = (Ok views, warnings) ∧ vw_Name <$> views = ["old"; "new"] ∧
    left_out (λ g v, g) (U:=sample_job) get_look get_opts (GK "down" "Lost") ["v1"] warnings.
Proof.
  destruct sample_all_types as [[views|err] warnings] eqn:E; [|exfalso; vm_compute in E; discriminate E].
  exists views, warnings. split; [done|]. split.
  { transitivity (vw_Name <$> match sample_all_types.1 with Ok v => v | Fail _ => [] end);
      [by rewrite E|vm_compute; reflexivity]. }
  destruct (collectAllTypes_accounts (H:=insertion_GoSort) (U:=sample_job) (S:=table) (λ g v, g) (λ _, "error")
              (λ _, Ok AScalar) [] [] get_look get_opts views warnings E)
    as (listed & order & covered & walks & _ & Hkinds & _).
  specialize (Hkinds (GK "down" "Lost")).
  assert (Ev : (coveredVersions (H:=insertion_GoSort) (look_resolver get_look)).1 !! GK "down" "Lost" = Some ["v1"])
    by (vm_compute; reflexivity).
  rewrite Ev in Hkinds. destruct (listed (GK "down" "Lost")) as [kind|]; [|exact Hkinds].
  destruct Hkinds as [(m & w & Hm & _) _]. exfalso. vm_compute in Hm. discriminate Hm.
Defined.

Lemma get_args_iff_witness :
  (∀ lo hi args, RangeArgs lo hi args = None ↔ lo ≤ length args ≤ hi) ∧
  get_args "kli get" false ["job/w"] = Ok ("job", "w") ∧ argument_form ["job/w"] "job" "w".
Proof.
  assert (Hr : ∀ lo hi args, RangeArgs lo hi args = None ↔ lo ≤ length args ≤ hi).
  { intros lo hi args. cbn. destruct (Nat.leb_spec lo (length args)), (Nat.leb_spec (length args) hi); cbn;
      split; intros; first [done|lia]. }
  split; [exact Hr|]. assert (E : get_args "kli get" false ["job/w"] = Ok ("job", "w")) by (vm_compute; reflexivity).
  split; [exact E|]. exact (proj1 (proj1 (get_args_iff "kli get" false ["job/w"] Hr) "job" "w") E).
Defined.

Definition sample_get_rows : result (list View * string * option (View → string)) * list error :=
  get_rows (H:=insertion_GoSort) (U:=sample_job) (S:=table) (λ g v, g) (λ _, "error")
    (λ _, Some [("down", "v1", External "no answer")]) (λ _, Ok AScalar) [] [] get_access get_opts.

Definition rows_of (r : result (list View * string * option (View → string)) * list error) : list View :=
  match r with (Ok (views, _, _), _) => views | _ => [] end.

Lemma sample_get_rows_ok : is_ok sample_get_rows.1 = true ∧ vw_Name <$> rows_of sample_get_rows = ["new"; "old"].
Proof. by vm_compute. Qed.

Lemma get_rows_ordered_witness :
  is_ok sample_get_rows.1 = true ∧ vw_Name <$> rows_of sample_get_rows = ["new"; "old"] ∧
  sorted_by row_less (rows_of sample_get_rows).
Proof.
  destruct sample_get_rows_ok as [H1 H2]. split; [exact H1|]. split; [exact H2|].
  destruct sample_get_rows as [[[[views searched] typeOf]|err] warnings] eqn:E; [|discriminate H1].
  exact (proj1 (proj2 (get_rows_ordered (H:=insertion_GoSort) (U:=sample_job) (S:=table) (λ g v, g) (λ _, "error")
    (λ _, Some [("down", "v1", External "no answer")]) (λ _, Ok AScalar) [] [] get_access get_opts _ _ E)
    views searched typeOf eq_refl)).
Defined.
