(* ===== verification/CliFlags.v ===== *)
(** * CliFlags: flag values and the configuration of the command line tool

    Models [cli/cmd/enum.go], the flags of [flags.go] that are values, and
    [config.go].  Registering flags with cobra is left out.  The configuration
    library (viper) is a parameter: what a new reader is, what reading a file and
    binding a flag make of it, and the output format it then holds; so are the
    environment, the home directory and the joining of paths. *)

From Stdlib Require Import Ascii.
From S2P Require Import Prelude Api JqValidate Validator Value Runner Accessor Component PodQuerier Sort Summary Gang Tree Store Discovery Inventory Catalog CliDefinitions CliOwners CliDescribe CliGenerator CliGet.

Definition ErrInvalidValue : string := "invalid value".

(** ** Flags of a fixed set

    A value of any string type is kept as a string. *)

Record Enum := MkEnum { en_val : string; en_allowed : list string; en_typeName : string }.

Definition NewEnum (typeName def : string) (allowed : list string) : Enum := MkEnum def allowed typeName.

Definition Enum_Get (e : Enum) : string := en_val e.
Definition Enum_Allowed (e : Enum) : list string := en_allowed e.

Fixpoint oneOf_loop (allowed rest : list string) (v : string) : result string :=
  match rest with
  | [] => Fail (Errorf "%w: must be one of %s" [AStrs allowed] [Sentinel ErrInvalidValue])
  | a :: rest => if bool_decide (a = v) then Ok a else oneOf_loop allowed rest v
  end.

Definition oneOf (allowed : list string) (v : string) : result string := oneOf_loop allowed allowed v.

(** The error, and the flag after the call. *)
Definition Enum_Set (e : Enum) (v : string) : option error * Enum :=
  match oneOf (en_allowed e) v with
  | Fail err => (Some err, e)
  | Ok val => (None, MkEnum val (en_allowed e) (en_typeName e))
  end.

Record EnumSlice := MkEnumSlice { es_vals : list string; es_allowed : list string; es_typeName : string }.

Definition NewEnumSlice (typeName : string) (allowed : list string) : EnumSlice := MkEnumSlice [] allowed typeName.

Definition EnumSlice_Get (e : EnumSlice) : list string := es_vals e.
Definition EnumSlice_String (e : EnumSlice) : string :=
  if bool_decide (length (es_vals e) = 0) then "" else Join (es_vals e) ",".

(** [strings.Split(v, ",")] *)
Fixpoint Split (v : string) : list string :=
  match v with
  | EmptyString => [""]
  | String c v =>
      if Ascii.eqb c "," then "" :: Split v
      else match Split v with
           | [] => [String c EmptyString]
           | part :: parts => String c part :: parts
           end
  end.

Definition EnumSlice_Set (e : EnumSlice) (v : string) : option error * EnumSlice :=
  match mapR (oneOf (es_allowed e)) (Split v) with
  | Fail err => (Some err, e)
  | Ok vals => (None, MkEnumSlice (es_vals e ++ vals) (es_allowed e) (es_typeName e))
  end.

Definition NewOutputFlag (supportsWide : bool) : Enum :=
  NewEnum "output" OutputTable
    ([OutputTable] ++ (if supportsWide then [OutputWide] else []) ++ [OutputJSON; OutputYAML]).

(** [v1alpha1.StatusMappings{}] *)
Definition no_mappings : StatusMappings := {|
  smp_Initializing := []; smp_Running := []; smp_Completed := []; smp_Failed := []; smp_Degraded := [];
  smp_Suspended := []; smp_Suspending := []; smp_Resuming := [] |}.

Definition NewPhaseFlag : EnumSlice :=
  NewEnumSlice "phase" (UndefinedStatus :: (sme_Status <$> Entries no_mappings)).

(** ** Configuration *)

Definition envPrefix : string := "KARTA".
Definition configEnvVar : string := envPrefix +:+ "_CONFIG".
Definition configDirName : string := ".karta".
Definition configFileName : string := "config.yaml".

Section config.
Context (Getenv : string → string) (UserHomeDir : result string) (filepath_Join : list string → string).

(** The path of the file and whether it was named. *)
Definition configFilePath (flagPath : string) : string * bool :=
  if bool_decide (flagPath ≠ "") then (flagPath, true)
  else
    let env := Getenv configEnvVar in
    if bool_decide (env ≠ "") then (env, true)
    else match UserHomeDir with
         | Fail _ => ("", false)
         | Ok home => (filepath_Join [home; configDirName; configFileName], false)
         end.

(** A reader [V] of the library: a new one with the prefix, the replacer and the
    environment set, what naming and reading a file make of it (an error leaves
    it as it was), binding a flag, and the format it holds. *)
Context {V : Type} (viper_New : V) (SetConfigFile : string → V → V).
Context (ReadInConfig : V → option error * V) (IsNotExist : error → bool).
Context (BindPFlag : string → Enum → V → option error * V) (UnmarshalExact : V → result string).

Definition loadConfig (flagPath : string) : result V :=
  let '(path, explicit) := configFilePath flagPath in
  if bool_decide (path = "") then Ok viper_New
  else
    match ReadInConfig (SetConfigFile path viper_New) with
    | (None, v) => Ok v
    | (Some err, v) =>
        if IsNotExist err && negb explicit then Ok v
        else Fail (Errorf "config file %s: %w" [AStr path] [err])
    end.

(** The format of the configuration and the output flag of the command, if it
    has one, after the value was set. *)
Definition buildConfig (commandPath : string) (configFlag : result string) (output : option Enum)
    : result (string * option Enum) :=
  configPath ← configFlag;
  v ← loadConfig configPath;
  v ← match output with
      | Some out => match BindPFlag "output" out v with (None, v) => Ok v | (Some err, _) => Fail err end
      | None => Ok v
      end;
  cfg ← map_error (λ err, Errorf "config: %w" [] [err]) (UnmarshalExact v);
  match output with
  | None => Ok (cfg, None)
  | Some out =>
      match Enum_Set out cfg with
      | (None, out) => Ok (cfg, Some out)
      | (Some err, out) =>
          if negb (bool_decide (cfg ∈ Enum_Allowed (NewOutputFlag true)))
          then Fail (usageError commandPath (Errorf "output: %w" [] [err]))
          else Ok (cfg, Some out)
      end
  end.
End config.

(** ** Properties *)

Lemma oneOf_loop_spec allowed rest v :
  oneOf_loop allowed rest v =
  if bool_decide (v ∈ rest) then Ok v
  else Fail (Errorf "%w: must be one of %s" [AStrs allowed] [Sentinel ErrInvalidValue]).
Proof.
  induction rest as [|a rest IH]; [done|]. cbn [oneOf_loop]. rewrite IH. destruct (decide (a = v)) as [->|Hne].
  - by rewrite bool_decide_eq_true_2, bool_decide_eq_true_2 by (done || by left).
  - rewrite (bool_decide_eq_false_2 (a = v)) by done. erewrite bool_decide_ext; [done|].
    rewrite elem_of_cons. naive_solver.
Qed.

Lemma Join_cons x y l sep : Join (x :: y :: l) sep = x +:+ sep +:+ Join (y :: l) sep.
Proof. done. Qed.

Lemma Split_nonempty v : Split v ≠ [].
Proof. destruct v as [|c v]; [done|]. cbn. destruct (Ascii.eqb c ","); [done|]. by destruct (Split v). Qed.

Lemma Join_Split v : Join (Split v) "," = v.
Proof.
  induction v as [|c v IH]; [done|]. cbn [Split]. pose proof (Split_nonempty v).
  destruct (Split v) as [|p ps]; [done|]. destruct (Ascii.eqb c ",") eqn:E.
  - apply Ascii.eqb_eq in E as ->. rewrite Join_cons, IH. done.
  - destruct ps as [|q ps]; [cbn in *; by rewrite IH|]. rewrite Join_cons in *. rewrite <- IH. done.
Qed.

Definition has_comma (s : string) : bool := bool_decide (","%char ∈ String.list_ascii_of_string s).

Lemma Split_no_comma v : Forall (λ p, has_comma p = false) (Split v).
Proof.
  assert (Hs : ∀ c s, Ascii.eqb c "," = false → has_comma (String c s) = has_comma s).
  { intros c s Hc. unfold has_comma. apply bool_decide_ext. cbn. rewrite elem_of_cons. split; [|by right].
    intros [<-|?]; done. }
  induction v as [|c v IH]; [by repeat constructor|]. cbn [Split]. destruct (Ascii.eqb c ",") eqn:E.
  { by constructor. }
  destruct (Split v) as [|p ps]; [by repeat constructor; rewrite Hs|].
  apply Forall_cons in IH as [Hp Hps]. constructor; [by rewrite Hs|done].
Qed.

(** A repeatable flag takes a value exactly when every part of its comma list
    is allowed, and then adds the parts in order; else it is an invalid value and
    nothing is added.  The parts are what the commas leave apart. *)
Theorem EnumSlice_Set_atomic e v :
  Join (Split v) "," = v ∧ Forall (λ p, has_comma p = false) (Split v) ∧
  (Forall (λ p, p ∈ es_allowed e) (Split v) →
     EnumSlice_Set e v = (None, MkEnumSlice (es_vals e ++ Split v) (es_allowed e) (es_typeName e))) ∧
  (¬ Forall (λ p, p ∈ es_allowed e) (Split v) →
     ∃ err, EnumSlice_Set e v = (Some err, e) ∧ errors_Is ErrInvalidValue err = true).
Proof.
  split; [apply Join_Split|]. split; [apply Split_no_comma|].
  assert (Hone : ∀ p, oneOf (es_allowed e) p =
    if bool_decide (p ∈ es_allowed e) then Ok p
    else Fail (Errorf "%w: must be one of %s" [AStrs (es_allowed e)] [Sentinel ErrInvalidValue]))
    by (intros; apply oneOf_loop_spec).
  unfold EnumSlice_Set. split.
  - intros Hall. assert (mapR (oneOf (es_allowed e)) (Split v) = Ok (Split v)) as ->; [|done].
    apply mapR_Ok. induction Hall as [|p ps Hp _ IH]; constructor; [|done].
    by rewrite Hone, bool_decide_eq_true_2.
  - intros Hno. destruct (mapR (oneOf (es_allowed e)) (Split v)) as [vals|err] eqn:E.
    + destruct Hno. apply mapR_Ok in E. induction E as [|p q ps qs Hp _ IH]; constructor; [|done].
      rewrite Hone in Hp. by case_bool_decide.
    + exists err. split; [done|]. apply mapR_Fail in E as (p & _ & E). rewrite Hone in E.
      case_bool_decide; [done|]. by injection E as <-.
Qed.

(** The phases a filter may name are those a workload can have. *)
Lemma NewPhaseFlag_statuses m : es_allowed NewPhaseFlag = UndefinedStatus :: (sme_Status <$> Entries m).
Proof. by rewrite Entries_statuses. Qed.

Section config_properties.
Context (Getenv : string → string) (UserHomeDir : result string) (filepath_Join : list string → string).
Context {V : Type} (viper_New : V) (SetConfigFile : string → V → V).
Context (ReadInConfig : V → option error * V) (IsNotExist : error → bool).
Context (BindPFlag : string → Enum → V → option error * V) (UnmarshalExact : V → result string).

(** Only a file nobody named may be missing. *)
Lemma loadConfig_missing flagPath err v :
  (∀ v, ReadInConfig v = (Some err, v)) → IsNotExist err = true →
  loadConfig Getenv UserHomeDir filepath_Join viper_New SetConfigFile ReadInConfig IsNotExist flagPath = Ok v →
  flagPath = "" ∧ Getenv configEnvVar = "".
Proof.
  intros Hr He. unfold loadConfig, configFilePath. destruct (decide (flagPath = "")) as [->|Hf].
  - rewrite bool_decide_eq_false_2 by tauto. destruct (decide (Getenv configEnvVar = "")) as [->|Hg]; [done|].
    rewrite (bool_decide_eq_true_2 (_ ≠ "")), (bool_decide_eq_false_2 (_ = "")), Hr, He by done. done.
  - rewrite (bool_decide_eq_true_2 (_ ≠ "")), (bool_decide_eq_false_2 (_ = "")), Hr, He by done. done.
Qed.

(** Once the configuration is read, a format this command prints is set, one
    that only another command prints leaves the table, and an unknown one is a
    usage error of the command. *)
Theorem buildConfig_formats commandPath flagPath supportsWide v v' cfg
    (Hload : loadConfig Getenv UserHomeDir filepath_Join viper_New SetConfigFile ReadInConfig IsNotExist flagPath = Ok v)
    (Hbind : BindPFlag "output" (NewOutputFlag supportsWide) v = (None, v'))
    (Hcfg : UnmarshalExact v' = Ok cfg) :
  let out := NewOutputFlag supportsWide in
  let built := buildConfig Getenv UserHomeDir filepath_Join viper_New SetConfigFile ReadInConfig IsNotExist
    BindPFlag UnmarshalExact commandPath (Ok flagPath) (Some out) in
  (cfg ∈ en_allowed out → ∃ out', built = Ok (cfg, Some out') ∧ en_val out' = cfg) ∧
  (cfg ∉ en_allowed out → cfg ∈ [OutputTable; OutputWide; OutputJSON; OutputYAML] →
     cfg = OutputWide ∧ built = Ok (cfg, Some out) ∧ en_val out = OutputTable) ∧
  (cfg ∉ [OutputTable; OutputWide; OutputJSON; OutputYAML] →
     ∃ err, built = Fail (usageError commandPath err) ∧ errors_Is ErrInvalidValue err = true).
Proof.
  intros out built. subst built. unfold buildConfig. cbn [mbind result_bind].
  rewrite Hload. cbn [mbind result_bind]. change (BindPFlag "output" out v) with (BindPFlag "output" (NewOutputFlag supportsWide) v).
  rewrite Hbind. cbn [mbind result_bind].
  rewrite Hcfg. cbn [map_error mbind result_bind]. unfold Enum_Set, oneOf. rewrite oneOf_loop_spec.
  change (Enum_Allowed (NewOutputFlag true)) with [OutputTable; OutputWide; OutputJSON; OutputYAML].
  split; [|split].
  - intros Hin. rewrite bool_decide_eq_true_2 by done. by eexists.
  - intros Hni Hall. rewrite bool_decide_eq_false_2 by done. rewrite bool_decide_eq_true_2 by done.
    split; [|done]. subst out. destruct supportsWide; cbn in Hni; [done|]. set_solver.
  - intros Hni. assert (cfg ∉ en_allowed out) by (subst out; destruct supportsWide; cbn; set_solver).
    rewrite !bool_decide_eq_false_2 by done. by eexists.
Qed.
End config_properties.

(** ** Concrete inputs *)

Example phase_parts :
  EnumSlice_Set NewPhaseFlag "Failed,Running" =
    (None, MkEnumSlice ["Failed"; "Running"] (es_allowed NewPhaseFlag) "phase") ∧
  es_vals (EnumSlice_Set NewPhaseFlag "Failed,Nope").2 = [].
Proof. by vm_compute. Qed.

(** A configuration that holds one format. *)
Lemma buildConfig_formats_witness :
  let load := loadConfig (λ _, "") (Ok "/home") (λ _, "/home/.karta/config.yaml") "table" (λ _ v, v)
    (λ _, (None, "wide")) (λ _, true) "" in
  load = Ok "wide" ∧
  buildConfig (λ _, "") (Ok "/home") (λ _, "/home/.karta/config.yaml") "table" (λ _ v, v)
    (λ _, (None, "wide")) (λ _, true) (λ _ _ v, (None, v)) (λ v, Ok v) "kli describe" (Ok "")
    (Some (NewOutputFlag false)) = Ok ("wide", Some (NewOutputFlag false)).
Proof.
  intros load. assert (Hl : load = Ok "wide") by (vm_compute; reflexivity). split; [exact Hl|].
  refine (proj1 (proj2 (proj1 (proj2 (buildConfig_formats (λ _, "") (Ok "/home") (λ _, "/home/.karta/config.yaml")
    "table" (λ _ v, v) (λ _, (None, "wide")) (λ _, true) (λ _ _ v, (None, v)) (λ v, Ok v) "kli describe" ""
    false "wide" "wide" "wide" Hl eq_refl eq_refl)) _ _))).
  - apply (bool_decide_unpack _). vm_compute. exact I.
  - apply (bool_decide_unpack _). vm_compute. exact I.
Defined.
