(* ===== verification/CliCommands.v ===== *)
(** * CliCommands: describe, definitions, validate and shell completion

    Models [cli/cmd/describe.go], [definitions.go], [validate.go],
    [completion.go], [kube.go] and the arguments of [root.go], over the listing
    of [CliGet] and the output of [CliGenerator].  What cobra says of arguments
    and flags, the reading of files, the splitting and decoding of YAML, the
    answers of the cluster and the text of an error are parameters.  A document
    without fields decodes to nothing.  Double quotes in texts are written as
    single ones. *)

From Stdlib Require Import Ascii.
From stdpp Require Import pretty.
From S2P Require Import Prelude Api JqValidate Validator Value Runner Accessor Component PodQuerier Sort Summary Gang Tree Store Discovery Inventory Catalog CliDefinitions CliOwners CliDescribe CliGenerator CliGet CliFlags.

(** ** definitions *)

Definition definitionsComponentLimit : Z := 3.

Record definitionRow := MkDefinitionRow {
  dr_Name : string; dr_Kind : string; dr_Origin : string; dr_Components : list string;
}.

Record definitionFilter := MkFilter { fl_group : string; fl_kind : string; fl_version : string; fl_set : bool }.

(** Which of the flags were given. *)
Record changed := MkChanged { groupSet : bool; kindSet : bool; versionSet : bool }.

Definition filter_error (args : list string) (c : changed) (kind version : string) : option error :=
  if bool_decide (length args = 1) && groupSet c then
    Some (Errorf "a NAME and --%s address the same definition; give one or the other" [AStr "group"] [])
  else if kindSet c && negb (groupSet c) then
    Some (Errorf "--%s needs --%s, for example --%s kubeflow.org --%s PyTorchJob"
            [AStr "kind"; AStr "group"; AStr "group"; AStr "kind"] [])
  else if versionSet c && negb (kindSet c) then
    Some (Errorf "--%s needs --%s, for example --%s kubeflow.org --%s PyTorchJob --%s v1"
            [AStr "version"; AStr "kind"; AStr "group"; AStr "kind"; AStr "version"] [])
  else if kindSet c && bool_decide (kind = "") then
    Some (Errorf "--%s needs a value, for example --%s PyTorchJob" [AStr "kind"; AStr "kind"] [])
  else if versionSet c && bool_decide (version = "") then
    Some (Errorf "--%s needs a value, for example --%s v1" [AStr "version"; AStr "version"] [])
  else None.

Definition definitionFilterFrom (commandPath : string) (args : list string) (c : changed)
    (group kind version : string) : result definitionFilter :=
  match filter_error args c kind version with
  | Some err => Fail (usageError commandPath err)
  | None => Ok (MkFilter group kind version (groupSet c))
  end.

(** The checks before the command runs. *)
Definition definitions_flags (commandPath : string) (args : list string) (c : changed)
    (group kind version : string) (componentLimit : Z) : result definitionFilter :=
  if (componentLimit <? 0)%Z
  then Fail (usageError commandPath (Errorf "--%s must not be negative" [AStr "component-limit"] []))
  else definitionFilterFrom commandPath args c group kind version.

(** One turn of the loop of [narrow]. *)
Definition admits (f : definitionFilter) (def : Definition_) : bool :=
  let gvk := RootKey (df_Karta def) in
  if bool_decide (gvk_Version gvk = "") || bool_decide (gvk_Kind gvk = "") then false
  else if bool_decide (gvk_Group gvk ≠ fl_group f) then false
  else if bool_decide (fl_kind f ≠ "") && negb (EqualFold (gvk_Kind gvk) (fl_kind f)) then false
  else if bool_decide (fl_version f ≠ "") && bool_decide (gvk_Version gvk ≠ fl_version f) then false
  else true.

Definition narrow (f : definitionFilter) (defs : list Definition_) : list Definition_ :=
  filter (λ def, admits f def) defs.

Definition filter_String (gv_String : string → string → string) (f : definitionFilter) : string :=
  if bool_decide (fl_version f ≠ "") then FormatGVK gv_String (GVK (fl_group f) (fl_version f) (fl_kind f))
  else if bool_decide (fl_kind f ≠ "") && bool_decide (fl_group f = "") then fl_kind f
  else if bool_decide (fl_kind f ≠ "") then fl_group f +:+ "/" +:+ fl_kind f
  else fl_group f.

Definition definition_row (def : Definition_) : definitionRow :=
  let k := df_Karta def in
  MkDefinitionRow (df_Name def) (gvk_Kind (RootKey k)) (df_Origin def)
    (cd_Name (RootComponent k) :: (cd_Name <$> ChildComponents k)).

Definition definitionRows `{GoSort} (defs : list Definition_) : list definitionRow :=
  sort_Slice (λ a b, string_lt (dr_Name a) (dr_Name b)) (definition_row <$> defs).

Definition componentsCell (components : list string) (limit : Z) : string :=
  if bool_decide (limit = 0%Z) || (Z.of_nat (length components) <=? limit + 1)%Z then Join components ", "
  else
    let hidden := (Z.of_nat (length components) - 1 - limit)%Z in
    Join (take (Z.to_nat (limit + 1)) components) ", " +:+ ", +" +:+ pretty hidden +:+ " more".

(** The definitions asked for. *)
Definition definition_matches (gv_String : string → string → string) (resolver : Resolver) (args : list string)
    (f : definitionFilter) : result (list Definition_) :=
  match args with
  | [name] =>
      match ByName resolver name with
      | Ok def => Ok [def]
      | Fail _ => Fail (Errorf "no Karta definition named %q. Run 'kli definitions' to see what is available" [AStr name] [])
      end
  | _ =>
      if fl_set f then
        match narrow f (List resolver) with
        | [] => Fail (Errorf "no Karta definition covers %q. Run 'kli definitions' to see what is available"
                        [AStr (filter_String gv_String f)] [])
        | matches => Ok matches
        end
      else Ok (List resolver)
  end.

Section definitions_command.
Context `{GoSort} {W : Type} (Write : stream → string → M W ()) (Error : error → string).
Context (tabwrite : list string → string) (gv_String : string → string → string).
Context (json yaml : Karta → result string) (jsons yamls : envelope Karta → result string).

Definition definition_line (componentLimit : Z) (row : definitionRow) : list string :=
  [dr_Name row; if bool_decide (dr_Kind row = "") then "<none>" else dr_Kind row; dr_Origin row;
   componentsCell (dr_Components row) componentLimit].

(** An error of printing the empty note is dropped. *)
Definition renderDefinitions (out errOut : stream) (rows : list definitionRow) (componentLimit : Z) : M W () :=
  match rows with
  | [] => attempt (Fprintln Write errOut "No Karta definitions found.");; mret ()
  | _ => wrap (λ err, Errorf "write definitions table: %w" [] [err])
           (Write out (tabwrite (row_line <$> ["NAME"; "KIND"; "ORIGIN"; "COMPONENTS"] ::
                                 (definition_line componentLimit <$> rows))))
  end.

Definition runDefinitions (loaded : Resolver * list Warning) (args : list string) (f : definitionFilter)
    (componentLimit : Z) (format : string) : M W () :=
  let '(resolver, warnings) := loaded in
  with_warnings Write Error
    (matches ← lift (definition_matches gv_String resolver args f);
     Render Write json yaml jsons yamls Stdout format (df_Karta <$> matches) (bool_decide (length args = 1))
       (λ out, renderDefinitions out Stderr (definitionRows matches) componentLimit))
    Stderr (warningMessages warnings).
End definitions_command.

(** ** describe *)

Record describeOptions := MkDescribe {
  ds_get : getOptions;
  ds_podLimit : Z;
  ds_componentLimit : Z;
  ds_file : string;
}.

Record machineError := MkMachineError {
  me_Error : string; me_GVK : string; me_Type : string; me_Message : string; me_Hint : string;
}.

Definition noDefinitionReason : string := "no_definition_for_type".
Definition noDefinitionHint : string :=
  "'kli definitions' lists the types Karta covers; apply a Karta definition to the cluster to cover this one".

Definition errNameRequired : error :=
  Sentinel "a NAME is required: give it as TYPE/NAME or as TYPE NAME".

(** The type token and the name. *)
Definition describe_args `{CommandLibrary} (commandPath file : string) (args : list string)
    : result (string * string) :=
  usageArgs commandPath
    (if bool_decide (file ≠ "") then
       if bool_decide (0 < length args) then
         Fail (Errorf "--%s reads the kind from the manifest, so it cannot be combined with %q"
                 [AStr "file"; AStr (Join args " ")] [])
       else Ok ("", "")
     else
       match RangeArgs 1 2 args with
       | Some err => Fail err
       | None =>
           '(typeToken, name) ← parseArgs args;
           if bool_decide (name = "") then Fail errNameRequired else Ok (typeToken, name)
       end).

Definition describe_limits (commandPath : string) (podLimit componentLimit : Z) : option error :=
  if (podLimit <? 0)%Z then Some (usageError commandPath (Errorf "--%s must not be negative" [AStr "pod-limit"] []))
  else if (componentLimit <? 0)%Z then
    Some (usageError commandPath (Errorf "--%s must not be negative" [AStr "component-limit"] []))
  else None.

(** [errors.As] for [noDefinitionNotFound]: the kind and the type of its payload. *)
Fixpoint no_definition (err : error) : option (string * string) :=
  match err with
  | Errorf fmt args wrapped =>
      match args with
      | [AStr gvk; AStr type] =>
          if bool_decide (fmt = no_definition_tag) then Some (gvk, type)
          else foldr (λ e found, match no_definition e with Some c => Some c | None => found end) None wrapped
      | _ => foldr (λ e found, match no_definition e with Some c => Some c | None => found end) None wrapped
      end
  | JQParseError _ e | JQCompileError _ e | JQExecutionError _ e => no_definition e
  | _ => None
  end.

Section manifest.
Context {F : Type} (documents : string → list (result string)) (Unmarshal : string → result (option F)).

(** The loop of [readManifest] over the documents up to the end of the file. *)
Fixpoint read_documents (commandPath path : string) (docs : list (result string)) (fields : option F)
    : result (option F) :=
  match docs with
  | [] => Ok fields
  | Fail err :: _ => Fail (usageError commandPath (Errorf "parse %s: %w" [AStr path] [err]))
  | Ok doc :: docs =>
      match Unmarshal doc with
      | Fail err => Fail (usageError commandPath (Errorf "parse %s: %w" [AStr path] [err]))
      | Ok None => read_documents commandPath path docs fields
      | Ok (Some next) =>
          match fields with
          | Some _ => Fail (usageError commandPath
              (Errorf "%s holds more than one document; describe reads one workload" [AStr path] []))
          | None => read_documents commandPath path docs (Some next)
          end
      end
  end.

(** The fields of the object, none for an empty manifest. *)
Definition readManifest (commandPath path : string) (stdin : result string) (ReadFile : string → result string)
    : result (option F) :=
  match (if bool_decide (path = "-") then stdin else ReadFile path) with
  | Fail err => Fail (Errorf "read %s: %w" [AStr path] [err])
  | Ok raw => read_documents commandPath path (documents raw) None
  end.
End manifest.

Section describe_command.
Context `{GoSort} `{KubernetesErrors} `{OwnerLibrary} `{CommandLibrary} `{!API}.
Context `{PodFields} {P R : Type} `{!PodView_ P R} `{!Runner R}.
Context {U S : Type} `{!Cluster U} `{!Objects U S} `{!ComponentAccessor S}.
Context (gv_String : string → string → string) (Error : error → string).
Context (ErrGroupDiscoveryFailed : error → option (list (string * string * error))).
Context (other : value → string) (Parse : string → result aval) (meta status : list rfield).
Context (GetUID : U → UID) (GroupVersionKind_ : U → GroupVersionKind).
(** The pods of a namespace, undecoded, and their decoding. *)
Context {PU : Type} (ListPods : string → result (list PU)) (pod_listed : PU → ListedObject).
Context (pod_FromUnstructured : PU → result P).

Definition getOne (target : Definition_) (namespace name : string) : result U :=
  let gvk := RootKey (df_Karta target) in
  match MappingFor (GroupKind_of gvk) [gvk_Version gvk] with
  | Fail err =>
      if IsNoMatchError err then
        Fail (exitError ExitWorkloadNotFound "" (Errorf "%s is not installed in this cluster" [AStr (gvk_Kind gvk)] []))
      else Fail (Errorf "discover %s: %w" [AStr (gvk_Kind gvk)] [err])
  | Ok mapping =>
      let namespace := if mp_Namespaced (km_Mapping mapping) then namespace else "" in
      match GetObject (mp_Resource (km_Mapping mapping)) namespace name with
      | Ok obj => Ok obj
      | Fail err =>
          if IsNotFound err then
            Fail (exitError ExitWorkloadNotFound ""
                    (Errorf "%s %q not found%s" [AStr (gvk_Kind gvk); AStr name; AStr (inNamespace namespace)] []))
          else if IsForbidden err then Fail (Errorf "not allowed to read %s: %w" [AStr (gvk_Kind gvk)] [err])
          else Fail (Errorf "get %s %q: %w" [AStr (gvk_Kind gvk); AStr name] [err])
      end
  end.

(** [workload.ResolveDescribe] of an object. *)
Definition describe_object (obj : U) (def : Definition_) (pods : list P) : result DescribeView :=
  run (ResolveDescribe other Parse meta status (identity obj) def pods) (accessor_of obj).

(** The view, or the failure, and the warnings. *)
Definition describeLive (access : Access) (opts : describeOptions) : result DescribeView * list error :=
  match resolveLookup gv_String ErrGroupDiscoveryFailed access (ds_get opts) with
  | (Fail err, warnings) => (Fail err, warnings)
  | (Ok look, warnings) =>
      match look_definition look with
      | None => (Fail no_argument, warnings)
      | Some def =>
          match getOne def (look_namespace look) (go_name (ds_get opts)) with
          | Fail err => (Fail err, warnings)
          | Ok obj =>
              match ListPods (id_Namespace (identity obj)) with
              | Fail err => (Fail (Errorf "list pods: %w" [] [err]), warnings)
              | Ok pods =>
                  match (CliOwners.Filter Error pod_listed pod_FromUnstructured pods (GetUID obj) NewOwnerWalker).1 with
                  | Fail err => (Fail (Errorf "attribute pods: %w" [] [err]), warnings)
                  | Ok (owned, attributeWarnings) =>
                      (map_error (λ err, Errorf "describe %s %q: %w"
                                   [AStr (id_Kind (identity obj)); AStr (id_Name (identity obj))] [err])
                         (describe_object obj def owned), warnings ++ attributeWarnings)
                  end
              end
          end
      end
  end.

(** The definition of a manifest's kind: its own, or the one of the kind at
    another version. *)
Definition manifest_target (commandPath : string) (resolver : Resolver) (gvk : GroupVersionKind)
    : result Definition_ :=
  match CliDefinitions.Resolve gv_String resolver gvk with
  | Ok def => Ok def
  | Fail err =>
      if errors_Is CliDefinitions.ErrAmbiguous err then Fail (usageError commandPath err)
      else
        match filter (λ m, EqualFold (gvk_Group (RootKey (df_Karta m))) (gvk_Group gvk))
                (ByRootKind resolver (gvk_Kind gvk)) with
        | [] => Fail (noDefinitionFor gv_String gvk)
        | [match_] => Ok match_
        | matches => Fail (usageError commandPath
            (ambiguous (if bool_decide (gvk_Group gvk = "") then gvk_Kind gvk
                        else gvk_Kind gvk +:+ "." +:+ gvk_Group gvk) matches))
        end
  end.

Definition with_file_mode (view : DescribeView) : DescribeView :=
  MkDescribeView (dv_View view) true (dv_Resources view) (dv_Components view).

Definition describeManifest (commandPath : string) (manifest : result U) (loaded : Resolver * list Warning)
    (file : string) : result DescribeView * list error :=
  match manifest with
  | Fail err => (Fail err, [])
  | Ok obj =>
      let '(resolver, loadWarnings) := loaded in
      let warnings := warningMessages loadWarnings in
      let gvk := GroupVersionKind_ obj in
      (if bool_decide (gvk_Kind gvk = "") || bool_decide (gvk_Version gvk = "") then
         Fail (usageError commandPath
                 (Errorf "%s declares no apiVersion and kind, so there is nothing to resolve it by" [AStr file] []))
       else
         target ← manifest_target commandPath resolver gvk;
         with_file_mode <$> map_error (λ err, Errorf "describe %s: %w" [AStr file] [err])
                              (describe_object obj target []), warnings)
  end.

Definition resolveView (commandPath : string) (access : Access) (manifest : result U) (opts : describeOptions)
    : result DescribeView * list error :=
  if bool_decide (ds_file opts ≠ "") then describeManifest commandPath manifest (ac_loaded access) (ds_file opts)
  else describeLive access opts.

Context {W : Type} (Write : stream → string → M W ()) (tabwrite : list string → string).
Context (now : Z) (IsZero : Z → bool) (HumanDuration : Z → string).
Context (MilliQuantity_String BinaryQuantity_String DecimalQuantity_String : Z → string).
Context (json yaml : DescribeView → result string) (error_json error_yaml : machineError → result string).

Definition subject (gvk type : string) : machineError :=
  MkMachineError noDefinitionReason gvk type noDefinitionMessage noDefinitionHint.

(** Always fails, with the error given or that of writing its payload. *)
Definition reportNoDefinition {A} (format : string) (err : error) : M W A :=
  if bool_decide (format ≠ OutputJSON) && bool_decide (format ≠ OutputYAML) then fail err
  else
    match no_definition err with
    | None => fail err
    | Some (gvk, type) =>
        RenderOne Write error_json error_yaml Stdout format (subject gvk type) (λ _, mret ());; fail err
    end.

Definition runDescribe (commandPath : string) (access : Access) (manifest : result U) (opts : describeOptions)
    (format : string) : M W () :=
  let '(view, warnings) := resolveView commandPath access manifest opts in
  with_warnings Write Error
    (match view with
     | Fail err => reportNoDefinition format err
     | Ok view =>
         RenderWorkload Write tabwrite now IsZero HumanDuration MilliQuantity_String BinaryQuantity_String
           DecimalQuantity_String json yaml Stdout view
           (MkDescribeOptions format (ds_podLimit opts) (ds_componentLimit opts))
     end) Stderr warnings.
End describe_command.

(** ** validate *)

(** [strings.ReplaceAll(s, newline, newline and two spaces)] *)
Fixpoint indent_lines (s : string) : string :=
  match s with
  | EmptyString => EmptyString
  | String c s => if Ascii.eqb c "010" then newline +:+ "  " +:+ indent_lines s else String c (indent_lines s)
  end.

Fixpoint count_newlines (s : string) : nat :=
  match s with
  | EmptyString => 0
  | String c s => (if Ascii.eqb c "010" then 1 else 0) + count_newlines s
  end.

Section validate_command.
Context (Parse : string → result aval) (meta status : list rfield).
Context (gv_String : string → string → string) (Error : error → string).
Context (Unmarshal : string → result Karta).
Context {W : Type} (Write : stream → string → M W ()).

(** The name to report and the text. *)
Definition readDefinition (path : string) (stdin : result string) (ReadFile : string → result string)
    : result (string * string) :=
  if bool_decide (path = "-") then
    match stdin with
    | Fail err => Fail (Errorf "read definition from stdin: %w" [] [err])
    | Ok data => Ok ("stdin", data)
    end
  else
    match ReadFile path with
    | Fail err => Fail (Errorf "read definition: %w" [] [err])
    | Ok data => Ok (path, data)
    end.

Definition validate_flags (commandPath : string) (outputChanged : bool) : option error :=
  if outputChanged
  then Some (usageError commandPath (Errorf "--%s is not supported by %s" [AStr "output"; AStr commandPath] []))
  else None.

Definition runValidate (commandPath path : string) (stdin : result string) (ReadFile : string → result string)
    : M W () :=
  '(name, data) ← lift (map_error (usageError commandPath) (readDefinition path stdin ReadFile));
  karta ← lift (map_error (λ err, usageError commandPath (Errorf "parse %s: %w" [AStr name] [err])) (Unmarshal data));
  match Validate Parse meta status (Some karta) with
  | Some verr =>
      let report := Error verr in
      attempt (Write Stdout ("INVALID: " +:+ name +:+ newline +:+ "  " +:+ indent_lines report +:+ newline));;
      fail (Errorf "%d finding(s) in %s" [ANat (count_newlines report + 1); AStr name] [])
  | None =>
      Write Stdout ("OK: " +:+ name +:+ " is a valid Karta definition (GVK: " +:+
                    FormatGVK gv_String (RootKey karta) +:+ ")" +:+ newline)
  end.
End validate_command.

(** ** root *)

(** The arguments of the root command; cobra's suggestions are a parameter. *)
Definition root_args (commandPath : string) (SuggestionsFor : string → list string) (args : list string)
    : option error :=
  match args with
  | [] => None
  | arg :: _ =>
      let names := SuggestionsFor arg in
      let suggestions :=
        match names with
        | [] => ""
        | _ => newline +:+ newline +:+ "Did you mean this?" +:+ newline +:+
               Join ((λ name, tab +:+ name +:+ newline) <$> names) ""
        end in
      Some (usageError commandPath
              (Errorf "unknown command %q for %q%s" [AStr arg; AStr commandPath; AStr suggestions] []))
  end.

(** ** Completion *)

Definition HasPrefix (s prefix : string) : bool := String.prefix prefix s.

(** The kinds of one name in lower case, each once. *)
Definition by_kind (resolver : Resolver) : gmap string (list GroupVersionKind) :=
  foldl (λ byKind def,
    let gvk := RootKey (df_Karta def) in
    let kind := ToLower (gvk_Kind gvk) in
    let gvks := default [] (byKind !! kind) in
    if bool_decide (kind ≠ "") && negb (bool_decide (gvk ∈ gvks)) then <[kind := gvks ++ [gvk]]> byKind
    else byKind) ∅ (List resolver).

Definition kind_tokens (kind : string) (gvks : list GroupVersionKind) : list string :=
  match gvks with
  | [_] => [kind]
  | _ => qualifiedToken <$> gvks
  end.

Definition completeTypes (resolver : Resolver) (prefix : string) : list string :=
  sort_Strings (filter (λ token, HasPrefix token (ToLower prefix))
    (map_to_list (by_kind resolver) ≫= λ kv, kind_tokens kv.1 kv.2)).

Section completion.
Context `{GoSort} `{KubernetesErrors} `{OwnerLibrary} `{CommandLibrary}.
Context {U S : Type} `{!Cluster U} `{!Objects U S}.
Context (gv_String : string → string → string).
Context (ErrGroupDiscoveryFailed : error → option (list (string * string * error))).

Definition named_options (typeToken : string) : getOptions := MkGetOptions typeToken "" [] "" 0 false.
Definition completion_list : getOptions := MkGetOptions "" "" [] "" defaultChunkSize false.

Definition completeNames (access : Access) (typeToken prefix : string) : list string :=
  match (resolveLookup gv_String ErrGroupDiscoveryFailed access (named_options typeToken)).1 with
  | Fail _ => []
  | Ok look =>
      match look_definition look with
      | None => []
      | Some def =>
          let gvk := RootKey (df_Karta def) in
          match MappingFor (GroupKind_of gvk) [gvk_Version gvk] with
          | Fail _ => []
          | Ok mapping =>
              let namespace := if mp_Namespaced (km_Mapping mapping) then look_namespace look else "" in
              match list_objects (km_Mapping mapping) namespace completion_list with
              | Fail _ => []
              | Ok objects => sort_Strings (filter (λ name, HasPrefix name prefix) (object_name <$> objects))
              end
          end
      end
  end.

Definition completeWorkloads (access : Access) (args : list string) (toComplete : string) : list string :=
  let '(typeToken, namePrefix, qualified) := Cut toComplete in
  match args with
  | [] =>
      if negb qualified then completeTypes (ac_loaded access).1 toComplete
      else (λ name, typeToken +:+ "/" +:+ name) <$> completeNames access typeToken namePrefix
  | [arg] => if negb (has_slash arg) then completeNames access arg toComplete else []
  | _ => []
  end.

(** [ValidArgsFunction] of get and describe. *)
Definition get_completion (access : Access) (all_types : bool) (args : list string) (toComplete : string)
    : list string :=
  if all_types then [] else completeWorkloads access args toComplete.
Definition describe_completion (access : Access) (file : string) (args : list string) (toComplete : string)
    : list string :=
  if bool_decide (file ≠ "") then [] else completeWorkloads access args toComplete.

Definition completeNamespaces (client : option error) (ListNamespaces : result (list string)) (prefix : string)
    : list string :=
  match client, ListNamespaces with
  | None, Ok names => sort_Strings (filter (λ name, HasPrefix name prefix) names)
  | _, _ => []
  end.
End completion.

(** ** Properties *)

(** *** Manifests *)

Section manifest_properties.
Context {F : Type} (documents : string → list (result string)) (Unmarshal : string → result (option F)).

Lemma read_documents_spec commandPath path docs fields :
  match read_documents Unmarshal commandPath path docs fields with
  | Ok found => ∃ parsed, mapR (λ d, d ≫= Unmarshal) docs = Ok parsed ∧ option_list fields ++ omap id parsed = option_list found
  | Fail err => coded err = Some (ExitUsage, commandPath) ∧
      ∀ parsed, mapR (λ d, d ≫= Unmarshal) docs = Ok parsed → 1 < length (option_list fields ++ omap id parsed)
  end.
Proof.
  revert fields. induction docs as [|doc docs IH]; intros fields; cbn [read_documents mapR].
  { exists []. split; [done|]. by rewrite app_nil_r. }
  destruct doc as [doc|err]; cbn [mbind result_bind]; [|by split].
  destruct (Unmarshal doc) as [[next|]|err]; [| |by split].
  - destruct fields as [f|].
    + split; [done|]. intros parsed. destruct (mapR _ docs); [|done]. intros [= <-]. cbn. lia.
    + specialize (IH (Some next)). destruct (read_documents Unmarshal commandPath path docs (Some next)) as [found|err].
      * destruct IH as (parsed & -> & E). exists (Some next :: parsed). by split.
      * destruct IH as [Hc Hall]. split; [done|]. intros parsed. destruct (mapR _ docs) as [p|]; [|done].
        intros [= <-]. exact (Hall p eq_refl).
  - specialize (IH fields). destruct (read_documents Unmarshal commandPath path docs fields) as [found|err].
    + destruct IH as (parsed & -> & E). exists (None :: parsed). by split.
    + destruct IH as [Hc Hall]. split; [done|]. intros parsed. destruct (mapR _ docs) as [p|]; [|done].
      intros [= <-]. exact (Hall p eq_refl).
Qed.

(** A manifest that can be read is taken exactly when every document of it
    parses and at most one has fields, which are then those of the workload; all
    else about its text is a usage error of the command. *)
Theorem readManifest_one commandPath path stdin ReadFile raw
    (Hraw : (if bool_decide (path = "-") then stdin else ReadFile path) = Ok raw) :
  (∀ fields, readManifest documents Unmarshal commandPath path stdin ReadFile = Ok fields ↔
     ∃ parsed, mapR (λ d, d ≫= Unmarshal) (documents raw) = Ok parsed ∧ omap id parsed = option_list fields) ∧
  ∀ err, readManifest documents Unmarshal commandPath path stdin ReadFile = Fail err →
    coded err = Some (ExitUsage, commandPath).
Proof.
  unfold readManifest. rewrite Hraw. pose proof (read_documents_spec commandPath path (documents raw) None) as Hs.
  cbn [option_list app] in Hs. destruct (read_documents _ _ _ _ _) as [found|err].
  - split; [|done]. destruct Hs as (parsed & Hp & E). change (omap id parsed = option_list found) in E.
    intros fields. split.
    + intros [= <-]. by exists parsed.
    + intros (parsed' & Hp' & E'). rewrite Hp in Hp'. injection Hp' as <-. rewrite E in E'.
      by destruct found, fields; simplify_eq/=.
  - destruct Hs as [Hc Hall]. split; [|by intros err' [= <-]]. intros fields. split; [done|].
    intros (parsed & Hp & E). specialize (Hall _ Hp).
    change (1 < length (omap id parsed)) in Hall. rewrite E in Hall. destruct fields; cbn in Hall; lia.
Qed.
End manifest_properties.

(** *** Live descriptions *)

Section live.
Context `{GoSort} `{KubernetesErrors} `{OwnerLibrary} `{CommandLibrary} `{!API}.
Context `{PodFields} {P R : Type} `{!PodView_ P R} `{!Runner R}.
Context {U S : Type} `{!Cluster U} `{!Objects U S} `{!ComponentAccessor S}.
Context (gv_String : string → string → string) (Error : error → string).
Context (ErrGroupDiscoveryFailed : error → option (list (string * string * error))).
Context (other : value → string) (Parse : string → result aval) (meta status : list rfield).
Context (GetUID : U → UID).
Context {PU : Type} (ListPods : string → result (list PU)) (pod_listed : PU → ListedObject).
Context (pod_FromUnstructured : PU → result P).

End live.

(** *** Completion of types *)

Definition kind_of (def : Definition_) : GroupVersionKind := RootKey (df_Karta def).

Lemma by_kind_spec resolver kind :
  NoDup (default [] (by_kind resolver !! kind)) ∧
  (is_Some (by_kind resolver !! kind) → default [] (by_kind resolver !! kind) ≠ []) ∧
  ∀ gvk, gvk ∈ default [] (by_kind resolver !! kind) ↔
    kind ≠ "" ∧ ToLower (gvk_Kind gvk) = kind ∧ ∃ def, def ∈ List resolver ∧ kind_of def = gvk.
Proof.
  unfold by_kind. induction (List resolver) as [|def defs IH] using rev_ind.
  { cbn. rewrite lookup_empty. split; [constructor|]. split; [by intros []|]. intros gvk. cbn. split; [by intros ?%not_elem_of_nil|].
    by intros (_ & _ & def & ?%not_elem_of_nil & _). }
  rewrite foldl_app. cbn [foldl]. set (m := foldl _ ∅ defs) in *. destruct IH as (Hnd & Hne & Hin).
  fold (kind_of def). set (k0 := ToLower (gvk_Kind (kind_of def))).
  assert (Hext : (∀ gvk, gvk ∈ default [] (m !! kind) ↔
      kind ≠ "" ∧ ToLower (gvk_Kind gvk) = kind ∧ ∃ d, d ∈ defs ∧ kind_of d = gvk)) by exact Hin.
  destruct (bool_decide (k0 ≠ "") && negb (bool_decide (kind_of def ∈ default [] (m !! k0)))) eqn:E.
  - apply andb_true_iff in E as [Hk0%bool_decide_eq_true Hni%negb_true_iff%bool_decide_eq_false].
    destruct (decide (k0 = kind)) as [<-|Hk].
    + rewrite lookup_insert_eq. cbn. split.
      { apply NoDup_app. split; [done|]. split; [|apply NoDup_singleton]. by intros x Hx ->%list_elem_of_singleton. }
      split; [intros _; by destruct (default [] (m !! k0))|].
      intros gvk. rewrite elem_of_app, list_elem_of_singleton, Hext. split.
      * intros [(? & ? & d & ? & ?)| ->]; [|set_solver]. split_and!; [done..|]. exists d. set_solver.
      * intros (? & ? & d & [Hd| ->%list_elem_of_singleton]%elem_of_app & Hg); [left|by right].
        split_and!; [done..|]. by exists d.
    + rewrite lookup_insert_ne by done. split; [done|]. split; [done|]. intros gvk. rewrite Hext.
      split; intros (? & Hkind & d & Hd & Hg); (split_and!; [done..|]); exists d; (split; [|done]); [set_solver|].
      apply elem_of_app in Hd as [?|Hd%list_elem_of_singleton]; [done|]. subst. done.
  - split; [done|]. split; [done|]. intros gvk. rewrite Hext. split.
    + intros (? & ? & d & ? & ?). split_and!; [done..|]. exists d. set_solver.
    + intros (Hne' & Hkind & d & [Hd| ->%list_elem_of_singleton]%elem_of_app & Hg).
      { split_and!; [done..|]. by exists d. }
      subst gvk. fold k0 in Hkind. subst kind. apply Hext.
      rewrite bool_decide_eq_true_2 in E by done. cbn in E. apply negb_false_iff, bool_decide_eq_true in E. done.
Qed.

(** The only kind of its name. *)
Definition sole (resolver : Resolver) (gvk : GroupVersionKind) : Prop :=
  ∀ def, def ∈ List resolver → ToLower (gvk_Kind (kind_of def)) = ToLower (gvk_Kind gvk) → kind_of def = gvk.

Lemma by_kind_sole resolver kind gvks gvk :
  by_kind resolver !! kind = Some gvks → gvk ∈ gvks → sole resolver gvk ↔ gvks = [gvk].
Proof.
  intros Hkv Hg. destruct (by_kind_spec resolver kind) as (Hnd & _ & Hin). rewrite Hkv in Hnd, Hin. cbn in Hnd, Hin.
  destruct (proj1 (Hin gvk) Hg) as (Hk & Hlow & _). split.
  - intros Hs. assert (Hall : ∀ g, g ∈ gvks → g = gvk).
    { intros g (_ & Hg' & d & Hd & <-)%Hin. apply Hs; [done|]. by rewrite Hg', Hlow. }
    destruct gvks as [|g1 [|g2 gs]]; [by apply not_elem_of_nil in Hg| |].
    + by rewrite (Hall g1) by (by left).
    + exfalso. apply NoDup_cons in Hnd as [Hn _]. apply Hn. rewrite (Hall g1), <- (Hall g2) by set_solver. by left.
  - intros -> d Hd Hl. apply list_elem_of_singleton, Hin. rewrite Hl. split_and!; [done..|]. by exists d.
Qed.

(** The tokens of a group of kinds: its name for a single one, else the qualified forms. *)
Lemma kind_tokens_elem kind gvks token :
  gvks ≠ [] →
  token ∈ kind_tokens kind gvks ↔
  ∃ gvk, gvk ∈ gvks ∧ (gvks = [gvk] ∧ token = kind ∨ (gvks ≠ [gvk]) ∧ token = qualifiedToken gvk).
Proof.
  intros Hne. destruct gvks as [|g [|g' gs]]; [done| |].
  - cbn. rewrite list_elem_of_singleton. split.
    + intros ->. exists g. split; [by left|by left].
    + by intros (x & ->%list_elem_of_singleton & [[_ ?]|[? _]]).
  - change (token ∈ qualifiedToken <$> g :: g' :: gs ↔ ∃ gvk, gvk ∈ g :: g' :: gs ∧
      (g :: g' :: gs = [gvk] ∧ token = kind ∨ (g :: g' :: gs ≠ [gvk]) ∧ token = qualifiedToken gvk)).
    rewrite list_elem_of_fmap. split.
    + intros (x & -> & Hx). exists x. split; [done|]. by right.
    + intros (x & Hx & [[? _]|[_ ->]]); [done|]. by exists x.
Qed.

(** The types offered are, for each definition with a kind, the kind in lower
    case if no other group or version has one of that name, else its qualified
    form, which names it alone; those with the prefix, and nothing else. *)
Theorem completeTypes_iff resolver prefix token :
  token ∈ completeTypes resolver prefix ↔
  HasPrefix token (ToLower prefix) = true ∧
  ∃ def, def ∈ List resolver ∧ ToLower (gvk_Kind (kind_of def)) ≠ "" ∧
    (sole resolver (kind_of def) ∧ token = ToLower (gvk_Kind (kind_of def)) ∨
     ¬ sole resolver (kind_of def) ∧ token = qualifiedToken (kind_of def)).
Proof.
  unfold completeTypes. rewrite sort_Strings_Permutation, list_elem_of_filter, list_elem_of_bind.
  rewrite Is_true_true. apply and_iff_compat_l. split.
  - intros ([kind gvks] & Ht & Hkv%elem_of_map_to_list). cbn [fst snd] in Ht.
    destruct (by_kind_spec resolver kind) as (_ & Hne & Hin). rewrite Hkv in Hne, Hin. cbn in Hne, Hin.
    apply kind_tokens_elem in Ht as (gvk & Hg & Ht); [|by apply Hne; eexists].
    destruct (proj1 (Hin gvk) Hg) as (Hk & Hlow & d & Hd & <-). exists d. rewrite Hlow.
    by rewrite (by_kind_sole _ _ _ _ Hkv Hg).
  - intros (def & Hd & Hk & Ht). set (kind := ToLower (gvk_Kind (kind_of def))) in *.
    destruct (by_kind_spec resolver kind) as (_ & Hne & Hin).
    assert (Hg : kind_of def ∈ default [] (by_kind resolver !! kind)) by (apply Hin; split_and!; [done..|]; by exists def).
    destruct (by_kind resolver !! kind) as [gvks|] eqn:Hkv; [|by apply not_elem_of_nil in Hg]. cbn in Hg, Hne.
    exists (kind, gvks). split; [|by apply elem_of_map_to_list]. cbn [fst snd].
    apply kind_tokens_elem; [by apply Hne; eexists|]. exists (kind_of def). split; [done|].
    by rewrite <- (by_kind_sole _ _ _ _ Hkv Hg).
Qed.

(** ** Concrete inputs *)

(** A document is its fields; a blank one has none. *)
Definition sample_document (s : string) : result (option string) := Ok (if bool_decide (s = "") then None else Some s).

Lemma readManifest_one_witness :
  readManifest (λ raw, [Ok ""; Ok raw; Ok ""]) sample_document "kli describe" "w.yaml" (Ok "") (λ _, Ok "job") =
    Ok (Some "job") ∧
  ∃ parsed, mapR (λ d, d ≫= sample_document) [Ok ""; Ok "job"; Ok ""] = Ok parsed ∧ omap id parsed = ["job"].
Proof.
  assert (E : readManifest (λ raw, [Ok ""; Ok raw; Ok ""]) sample_document "kli describe" "w.yaml" (Ok "")
    (λ _, Ok "job") = Ok (Some "job")) by (vm_compute; reflexivity).
  split; [exact E|].
  exact (proj1 (proj1 (readManifest_one (λ raw, [Ok ""; Ok raw; Ok ""]) sample_document "kli describe" "w.yaml"
    (Ok "") (λ _, Ok "job") "job" eq_refl) (Some "job")) E).
Defined.

#[local] Instance live_fields : PodFields := sample_fields.
#[local] Instance live_pods : PodView_ sample_pod table := sample_pod_view.
#[local] Instance live_errors : KubernetesErrors := sample_errors.
#[local] Instance live_library : OwnerLibrary := get_library.
#[local] Instance live_commands : CommandLibrary := get_commands.
#[local] Instance live_api : API := sample_api.
#[local] Instance live_objects : Objects sample_job table := get_objects.
#[local] Instance live_cluster : Cluster sample_job := {
  KindFor := @KindFor _ get_cluster;
  MappingFor := @MappingFor _ get_cluster;
  ListObjects := @ListObjects _ get_cluster;
  GetObject _ _ name := Ok (SampleJob name 1 []);
}.





