(* ===== verification/Flag.v ===== *)
(** * Flag: the command line flags of the Go library

    [flag.FlagSet.Parse] as the release tools use it: flags with one or two
    minus signs, values after an equals sign or in the next argument, boolean
    flags, and the first argument that is no flag.  What a flag does with its
    value is a function on the state of the caller. *)

From S2P Require Import Prelude Text.
From Stdlib Require Import Ascii.

Inductive flag (S : Type) :=
  | BoolFlag (set : bool → S → S)
  | ValueFlag (set : string → S → result S).
Arguments BoolFlag {S} set.
Arguments ValueFlag {S} set.

Definition StringFlag {S} (set : string → S → S) : flag S := ValueFlag (λ v s, Ok (set v s)).

(** [strconv.ParseBool] *)
Definition ParseBool (s : string) : option bool :=
  if bool_decide (s ∈ ["1"; "t"; "T"; "TRUE"; "true"; "True"]) then Some true
  else if bool_decide (s ∈ ["0"; "f"; "F"; "FALSE"; "false"; "False"]) then Some false
  else None.

(** An argument: the name of a flag with its value if there is an equals sign,
    the end of the flags, or bad syntax. *)
Inductive argument :=
  | Named (name : string) (value : option string)
  | Positional
  | Terminator
  | BadSyntax.

Definition read_name (name : chars) : argument :=
  match name with
  | [] => BadSyntax
  | c :: rest =>
      if Ascii.eqb c "-" || Ascii.eqb c "=" then BadSyntax
      else match cut ["="%char] rest with
           | Some (front, value) => Named (string_of (c :: front)) (Some (string_of value))
           | None => Named (string_of name) None
           end
  end.

Definition read_argument (s : string) : argument :=
  match chars_of s with
  | "-"%char :: c :: rest =>
      if Ascii.eqb c "-" then match rest with [] => Terminator | _ => read_name rest end
      else read_name (c :: rest)
  | _ => Positional
  end.

Section parse.
Context {S : Type} (formal : list (string * flag S)).

Definition lookup_flag (name : string) : option (flag S) :=
  snd <$> (snd <$> list_find (λ kf, kf.1 = name) formal).

Definition ErrHelp : error := Sentinel "flag: help requested".

Fixpoint Parse (args : list string) (s : S) : result S :=
  match args with
  | [] => Ok s
  | arg :: args =>
      match read_argument arg with
      | Positional | Terminator => Ok s
      | BadSyntax => Fail (Errorf "bad flag syntax: %s" [AStr arg] [])
      | Named name value =>
          match lookup_flag name with
          | None =>
              if bool_decide (name = "help") || bool_decide (name = "h") then Fail ErrHelp
              else Fail (Errorf "flag provided but not defined: -%s" [AStr name] [])
          | Some (BoolFlag set) =>
              match value with
              | None => Parse args (set true s)
              | Some value =>
                  match ParseBool value with
                  | Some b => Parse args (set b s)
                  | None => Fail (Errorf "invalid boolean value %q for -%s: %v" [AStr value; AStr name] [])
                  end
              end
          | Some (ValueFlag set) =>
              let invalid value err := Errorf "invalid value %q for flag -%s: %v" [AStr value; AStr name] [err] in
              match value, args with
              | Some value, _ =>
                  match set value s with Ok s => Parse args s | Fail err => Fail (invalid value err) end
              | None, value :: args =>
                  match set value s with Ok s => Parse args s | Fail err => Fail (invalid value err) end
              | None, [] => Fail (Errorf "flag needs an argument: -%s" [AStr name] [])
              end
          end
      end
  end.
End parse.
