(* ===== verification/Updates.v ===== *)
(** * Updates: the report on upstream operator tags

    Models [hack/operator-updates/main.go] and [version.go]: versions with their
    order, the tag selected among those of a repository, the arguments and the
    exit code.  What git lists of a repository is a parameter and may differ at
    every call.  A line that is printed is kept as its format and arguments; a
    write does not fail. *)

From S2P Require Import Prelude Text Sort.
From Stdlib Require Import Ascii.

(** ** Versions *)

Record version := MkVersion { v_core : string * string * string; v_prerelease : list string }.

Local Open Scope re_scope.

Definition digit : re := One is_digit.

(** [0|[1-9][0-9]*] *)
Definition numeral : re := literal "0" ∥ One (in_range "1" "9") ⋅ Star digit.

(** [[0-9A-Za-z-]+(?:\.[0-9A-Za-z-]+)*] *)
Definition identifier : re := plus (One (λ c, is_alnum c || Ascii.eqb c "-")).
Definition identifiers : re := identifier ⋅ Star (literal "." ⋅ identifier).

Definition semverPattern : re :=
  begin_text ⋅ Group 1 numeral ⋅ literal "." ⋅ Group 2 numeral ⋅ literal "." ⋅ Group 3 numeral ⋅
  optional (literal "-" ⋅ Group 4 identifiers) ⋅ optional (literal "+" ⋅ Group 5 identifiers) ⋅ end_text.

(** [[0-9]+\.[0-9]+\.[0-9]+-alpha\.[0-9]+] *)
Definition alpha_text : re :=
  plus digit ⋅ literal "." ⋅ plus digit ⋅ literal "." ⋅ plus digit ⋅ literal "-alpha." ⋅ plus digit.

Definition alphaPattern : re := begin_text ⋅ alpha_text ⋅ end_text.

Definition grovePattern : re :=
  begin_text ⋅ Group 1 alpha_text ⋅ optional (literal "-rc" ⋅ Group 2 (plus digit)) ⋅ end_text.

Definition counterPattern : re :=
  literal "-" ⋅ Group 1 (literal "alpha" ∥ literal "beta" ∥ literal "rc") ⋅ Group 2 (plus digit) ⋅ end_text.

Local Close Scope re_scope.

Definition isNumeric (value : string) : bool :=
  forallb is_digit (chars_of value) && negb (bool_decide (value = "")).

(** A numeral of a prerelease with a leading zero *)
Definition padded (part : string) : bool :=
  isNumeric part && bool_decide (1 < String.length part)%nat && bool_decide (String.get 0 part = Some "0"%char).

(** The undotted counter of a prerelease becomes an identifier of its own;
    Grove's [alpha.N-rcM] sorts below its [alpha.N]. *)
Definition release_text (raw channel : string) : string :=
  let raw :=
    if bool_decide (channel = "alpha") then
      match FindStringSubmatch grovePattern raw with
      | Some m => if bool_decide (submatch m 2 = "") then submatch m 1 +:+ ".1"
                  else submatch m 1 +:+ ".0.rc." +:+ submatch m 2
      | None => raw
      end
    else raw in
  ReplaceAllString counterPattern raw
    (λ m, chars_of "-" ++ default [] (m !! 1) ++ chars_of "." ++ default [] (m !! 2)).

Definition parseRelease (raw channel : string) : result version :=
  let raw := release_text raw channel in
  match FindStringSubmatch semverPattern raw with
  | None => Fail (Errorf "invalid semantic version: %s" [AStr raw] [])
  | Some m =>
      let core := (submatch m 1, submatch m 2, submatch m 3) in
      if bool_decide (submatch m 4 = "") then Ok (MkVersion core [])
      else
        let prerelease := string_of <$> split_char "." (chars_of (submatch m 4)) in
        if existsb padded prerelease then Fail (Errorf "invalid numeric prerelease: %s" [AStr raw] [])
        else Ok (MkVersion core prerelease)
  end.

Definition strings_Compare (l r : string) : comparison := compare_chars (chars_of l) (chars_of r).

Definition compareNumeric (l r : string) : comparison :=
  or_else (Nat.compare (String.length l) (String.length r)) (strings_Compare l r).

Definition compareIdentifier (l r : string) : comparison :=
  if isNumeric l && isNumeric r then compareNumeric l r
  else if isNumeric l then Lt
  else if isNumeric r then Gt
  else strings_Compare l r.

Definition comparePrerelease (l r : list string) : comparison :=
  if bool_decide (length l = 0) || bool_decide (length r = 0) then Nat.compare (length r) (length l)
  else foldr or_else (Nat.compare (length l) (length r)) (zip_with compareIdentifier l r).

Definition compare (v other : version) : comparison :=
  let '(v1, v2, v3) := v_core v in
  let '(o1, o2, o3) := v_core other in
  or_else (compareNumeric v1 o1) (or_else (compareNumeric v2 o2) (or_else (compareNumeric v3 o3)
    (comparePrerelease (v_prerelease v) (v_prerelease other)))).

(** ** The command *)

Record operator := MkOperator {
  op_name : string; op_pinned : string; op_repository : string;
  op_prefix : string; op_channel : string; op_note : string;
}.

Record options := MkOptions {
  o_operators : list operator;
  o_excludedTags : list string;
  o_includePrereleases : bool;
  o_failOnUpdate : bool;
  o_noHeader : bool;
  o_help : bool;
}.

Definition no_options : options := MkOptions [] [] false false false false.

Record releaseSelection := MkSelection { s_latestTag : string; s_newer : nat; s_status : string }.

Inductive line :=
  | Line (format : string) (args : list arg)
  | ErrLine (format : string) (args : list arg) (err : error).

(** [[A-Za-z0-9_.-]+/[A-Za-z0-9_.-]+] *)
Definition repositoryPattern : re :=
  let part := plus (One (λ c, is_alnum c || existsb (Ascii.eqb c) ["_"; "."; "-"]%char)) in
  (begin_text ⋅ part ⋅ literal "/" ⋅ part ⋅ end_text)%re.

Definition six_values : string := "--operator requires NAME PIN REPO PREFIX CHANNEL NOTE".

Definition parseOperatorArgs (args : list string) : result operator :=
  match args with
  | name :: pin :: repo :: prefix :: channel :: note :: _ =>
      if existsb (String.prefix "--") (take 6 args) then Fail (Errorf six_values [] [])
      else Ok (MkOperator name pin repo prefix channel note)
  | _ => Fail (Errorf six_values [] [])
  end.

(** [for len(args) > 0]; [None] when the fuel is spent. *)
Fixpoint parse_args (fuel : nat) (args : list string) (opts : options) : option (result options) :=
  let 'MkOptions operators excluded prereleases fail noHeader help := opts in
  match fuel, args with
  | O, _ => None
  | S _, [] => Some (if bool_decide (length operators = 0) then Fail (Errorf "--operator is required" [] [])
                     else Ok opts)
  | S fuel, arg :: args =>
      if bool_decide (arg = "--operator") then
        match parseOperatorArgs args with
        | Fail err => Some (Fail err)
        | Ok op => parse_args fuel (drop 6 args) (MkOptions (operators ++ [op]) excluded prereleases fail noHeader help)
        end
      else if bool_decide (arg = "--exclude-tag") then
        match args with
        | tag :: args => if String.prefix "--" tag then Some (Fail (Errorf "--exclude-tag requires TAG" [] []))
                         else parse_args fuel args (MkOptions operators (excluded ++ [tag]) prereleases fail noHeader help)
        | [] => Some (Fail (Errorf "--exclude-tag requires TAG" [] []))
        end
      else if String.prefix "--exclude-tag=" arg then
        parse_args fuel args
          (MkOptions operators (excluded ++ [TrimPrefix arg "--exclude-tag="]) prereleases fail noHeader help)
      else if bool_decide (arg = "--include-prereleases") then
        parse_args fuel args (MkOptions operators excluded true fail noHeader help)
      else if bool_decide (arg = "--fail-on-update") then
        parse_args fuel args (MkOptions operators excluded prereleases true noHeader help)
      else if bool_decide (arg = "--no-header") then
        parse_args fuel args (MkOptions operators excluded prereleases fail true help)
      else if bool_decide (arg = "--help") || bool_decide (arg = "-h") then
        Some (Ok (MkOptions operators excluded prereleases fail noHeader true))
      else Some (Fail (Errorf "unknown argument: %s" [AStr arg] []))
  end.

Definition parseArgs (args : list string) : result options :=
  default (Fail (Errorf "out of fuel" [] [])) (parse_args (S (length args)) args no_options).

(** *** The latest tag *)

(** What a tag stands for, if the report takes it into account. *)
Definition candidate (op : operator) (opts : options) (tag : string) : option version :=
  let '(raw, matches) := CutPrefix tag (op_prefix op) in
  if negb matches || bool_decide (tag ∈ o_excludedTags opts) then None
  else
    match parseRelease raw (op_channel op) with
    | Fail _ => None
    | Ok candidate =>
        let isAlpha := bool_decide (op_channel op = "alpha") && MatchString alphaPattern raw in
        if bool_decide (0 < length (v_prerelease candidate))%nat && negb isAlpha && negb (o_includePrereleases opts)
        then None else Some candidate
    end.

(** One turn of the loop; [latest] is the zero version until a tag is selected. *)
Definition select_step (op : operator) (current : version) (opts : options)
    (state : version * releaseSelection) (tag : string) : version * releaseSelection :=
  let '(latest, selected) := state in
  match candidate op opts tag with
  | None => state
  | Some candidate =>
      let '(latest, latestTag) :=
        if bool_decide (s_latestTag selected = "") || bool_decide (compare candidate latest = Gt) ||
           (bool_decide (compare candidate latest = Eq) &&
            bool_decide (strings_Compare tag (s_latestTag selected) = Gt))
        then (candidate, tag) else (latest, s_latestTag selected) in
      (latest, MkSelection latestTag
                 (if bool_decide (compare candidate current = Gt) then S (s_newer selected) else s_newer selected)
                 (s_status selected))
  end.

Definition zero_version : version := MkVersion ("", "", "") [].

Definition selectLatestRelease (op : operator) (current : version) (tags : list string) (opts : options)
    : result releaseSelection :=
  let '(latest, selected) :=
    foldl (select_step op current opts) (zero_version, MkSelection "" 0 "CURRENT") tags in
  if bool_decide (s_latestTag selected = "") then
    Fail (Errorf "no matching %s tags in %s (prefix '%s')"
            [AStr (op_channel op); AStr (op_repository op); AStr (op_prefix op)] [])
  else Ok (MkSelection (s_latestTag selected) (s_newer selected)
             (if bool_decide (0 < s_newer selected)%nat then "NEW"
              else if bool_decide (compare current latest = Gt) then "AHEAD"
              else s_status selected)).

(** *** The report *)

(** [url.QueryEscape] *)
Definition hex_digit (n : nat) : ascii := default "0"%char (chars_of "0123456789ABCDEF" !! n).

Definition escape_char (c : ascii) : chars :=
  if is_alnum c || existsb (Ascii.eqb c) ["-"; "_"; "."; "~"]%char then [c]
  else if Ascii.eqb c " " then ["+"%char]
  else let n := nat_of_ascii c in ["%"%char; hex_digit (n / 16); hex_digit (n mod 16)].

Definition QueryEscape (s : string) : string := string_of (chars_of s ≫= escape_char).

Definition escapeTag (tag : string) : string := ReplaceAll (QueryEscape tag) "+" "%20".

Definition writeOperatorReport (op : operator) (pinned : string) (tags : list string) (selected : releaseSelection)
    : list line :=
  let base := "https://github.com/" +:+ op_repository op in
  [Line "%-8s %-20s %-28s %s" [AStr (s_status selected); AStr (op_name op); AStr (op_pinned op); AStr (s_latestTag selected)];
   Line "  Tags: %s/tags" [AStr base]] ++
  (if bool_decide (0 < s_newer selected)%nat then
     let currentTag := op_prefix op +:+ pinned in
     [Line "  %d newer tag(s)" [ANat (s_newer selected)];
      if bool_decide (currentTag ∈ tags)
      then Line "  Changes: %s/compare/%s...%s" [AStr base; AStr (escapeTag currentTag); AStr (escapeTag (s_latestTag selected))]
      else Line "  Pinned tag %s was not found; no comparison is available." [AStr currentTag]]
   else []) ++
  (if bool_decide (op_note op ≠ "") then [Line "  Note: %s" [AStr (op_note op)]] else []).

(** The pin without what its tags have in front of the version. *)
Definition pinned_version (op : operator) : string :=
  let pinned := TrimPrefix (op_pinned op) (op_prefix op) in
  if bool_decide (op_prefix op = "") || bool_decide (pinned = op_pinned op)
  then TrimPrefix (op_pinned op) "v" else pinned.

Section command.
(** Tags of a repository, by the number of the call. *)
Context (lookup : nat → string → result (list string)).

Definition checkOperator (turn : nat) (op : operator) (opts : options) : result (bool * list line) :=
  if negb (bool_decide (op_channel op = "stable")) && negb (bool_decide (op_channel op = "alpha")) then
    Fail (Errorf "invalid release channel: %s" [AStr (op_channel op)] [])
  else if negb (MatchString repositoryPattern (op_repository op)) then
    Fail (Errorf "invalid GitHub repository: %s" [AStr (op_repository op)] [])
  else
    let pinned := pinned_version op in
    current ← parseRelease pinned (op_channel op);
    tags ← lookup turn (op_repository op);
    selected ← selectLatestRelease op current tags opts;
    Ok (bool_decide (0 < s_newer selected)%nat, writeOperatorReport op pinned tags selected).

Record outcome := MkOutcome { out_updated : bool; out_failed : bool; out_stdout : list line; out_stderr : list line }.

Definition check_step (opts : options) (out : outcome) (turn : nat) (op : operator) : outcome :=
  match checkOperator turn op opts with
  | Fail err =>
      MkOutcome (out_updated out) true
        (out_stdout out ++ [Line "%-8s %-20s %-28s -" [AStr "ERROR"; AStr (op_name op); AStr (op_pinned op)]])
        (out_stderr out ++ [ErrLine "  %s: %v" [AStr (op_name op)] err])
  | Ok (newer, report) =>
      MkOutcome (out_updated out || newer) (out_failed out) (out_stdout out ++ report) (out_stderr out)
  end.

Fixpoint check_all (opts : options) (out : outcome) (turn : nat) (operators : list operator) : outcome :=
  match operators with
  | [] => out
  | op :: operators => check_all opts (check_step opts out turn op) (S turn) operators
  end.

Definition header : line := Line "STATUS   OPERATOR             PINNED                       LATEST TAG" [].
Definition usage : string := "Usage: operator-updates --operator NAME PIN REPO PREFIX CHANNEL NOTE [options]

Report upstream operator tags without changing pins or contacting Kubernetes.

Options:
  --operator NAME PIN REPO PREFIX CHANNEL NOTE
                          operator to check (required, repeatable)
  --include-prereleases   also report prerelease tags (Grove includes alpha releases by default)
  --fail-on-update        exit 2 when updates are found; lookup errors always exit 1
  --exclude-tag TAG       exclude a known retracted upstream tag (repeatable)
  -h, --help              show this help
".

(** The exit code and what is printed. *)
Definition run (args : list string) : Z * list line * list line :=
  match parseArgs args with
  | Fail err => (1%Z, [], [ErrLine "%s error: %v" [AStr usage] err])
  | Ok opts =>
      if o_help opts then (0%Z, [Line usage []], [])
      else
        let out := check_all opts (MkOutcome false false (if o_noHeader opts then [] else [header]) []) 0 (o_operators opts) in
        (if out_failed out then 1%Z else if out_updated out && o_failOnUpdate opts then 2%Z else 0%Z,
         out_stdout out, out_stderr out)
  end.
End command.

(** What git prints, one reference a line. *)
Definition tags_of (output : string) : list string :=
  omap (λ line, match cut (chars_of "refs/tags/") (chars_of (TrimRight line ["013"; "010"]%char)) with
                | Some (_, tag) => Some (string_of tag)
                | None => None
                end) (Lines output).

Definition remoteTags (git : string → result string) (ctx_Err : option error) (repository : string)
    : result (list string) :=
  match git ("https://github.com/" +:+ repository +:+ ".git") with
  | Fail _ =>
      match ctx_Err with
      | Some err => Fail (Errorf "cannot read tags from %s: %w" [AStr repository] [err])
      | None => Fail (Errorf "cannot read tags from %s; check network/repository access" [AStr repository] [])
      end
  | Ok output => Ok (tags_of output)
  end.

(** ** The order of versions *)

Lemma compare_chars_list l r :
  compare_chars l r = compare_list (λ a b, Nat.compare (nat_of_ascii a) (nat_of_ascii b)) l r.
Proof.
  revert r. induction l as [|a l IH]; intros [|b r]; [done..|]. cbn. rewrite IH.
  by destruct (Nat.compare _ _).
Qed.

Lemma strings_Compare_order : total_order strings_Compare.
Proof.
  unfold strings_Compare. apply (total_order_on (A:=chars)).
  assert (total_order (compare_list (λ a b, Nat.compare (nat_of_ascii a) (nat_of_ascii b)))) as H
    by (apply total_order_list, (total_order_on _ total_order_nat)).
  split; intros *; rewrite !compare_chars_list; apply H.
Qed.

Lemma total_order_ext {A} (cmp cmp' : A → A → comparison) :
  (∀ x y, cmp' x y = cmp x y) → total_order cmp → total_order cmp'.
Proof. intros E H. split; intros *; rewrite !E; apply H. Qed.

Lemma compareNumeric_order : total_order compareNumeric.
Proof.
  unfold compareNumeric. apply total_order_else; [|apply strings_Compare_order].
  apply (total_order_on _ total_order_nat).
Qed.

(** Numerals come first, shorter ones before longer ones. *)
Lemma compareIdentifier_order : total_order compareIdentifier.
Proof.
  apply (total_order_ext (λ l r,
    or_else (Nat.compare (if isNumeric l then 0 else 1) (if isNumeric r then 0 else 1))
    (or_else (Nat.compare (if isNumeric l then String.length l else 0) (if isNumeric r then String.length r else 0))
       (strings_Compare l r)))).
  - intros l r. unfold compareIdentifier, compareNumeric. by destruct (isNumeric l), (isNumeric r).
  - apply total_order_else; [apply (total_order_on _ total_order_nat)|].
    apply total_order_else; [apply (total_order_on _ total_order_nat)|apply strings_Compare_order].
Qed.

Lemma comparePrerelease_order : total_order comparePrerelease.
Proof.
  apply (total_order_ext (λ l r,
    or_else (Nat.compare (if bool_decide (length l = 0) then 1 else 0) (if bool_decide (length r = 0) then 1 else 0))
      (compare_list compareIdentifier l r))).
  - intros [|a l] [|b r]; try done. exact (compare_list_zip compareIdentifier (a :: l) (b :: r)).
  - apply total_order_else; [apply (total_order_on _ total_order_nat)|].
    apply total_order_list, compareIdentifier_order.
Qed.

Lemma compare_order : total_order compare.
Proof.
  apply (total_order_ext (λ v w,
    or_else (compareNumeric (v_core v).1.1 (v_core w).1.1) (or_else (compareNumeric (v_core v).1.2 (v_core w).1.2)
      (or_else (compareNumeric (v_core v).2 (v_core w).2) (comparePrerelease (v_prerelease v) (v_prerelease w)))))).
  - intros [[[v1 v2] v3] pre] [[[w1 w2] w3] pre']. done.
  - pose proof (λ f, total_order_on (A:=string) _ compareNumeric_order (B:=version) f) as Hnum.
    apply total_order_else; [apply (Hnum (λ v, (v_core v).1.1))|].
    apply total_order_else; [apply (Hnum (λ v, (v_core v).1.2))|].
    apply total_order_else; [apply (Hnum (λ v, (v_core v).2))|].
    apply (total_order_on _ comparePrerelease_order).
Qed.

(** ** The tag selected *)

Section selection.
Context (op : operator) (current : version) (opts : options).

Implicit Types (tags : list string) (selected : releaseSelection) (latest : version).

(** A tag has a text of its own: no version is written without one. *)
Lemma candidate_nonempty v : candidate op opts "" ≠ Some v.
Proof.
  unfold candidate, CutPrefix. destruct (op_prefix op) as [|]; [|done]. cbn.
  destruct (bool_decide ("" ∈ _)); [done|].
  unfold parseRelease, release_text. destruct (bool_decide (op_channel op = "alpha")); done.
Qed.

(** [tag] with version [v] is not in front of [tag'] with version [v']. *)
Definition behind (v : version) (tag : string) (v' : version) (tag' : string) : Prop :=
  compare v v' = Lt ∨ compare v v' = Eq ∧ strings_Compare tag tag' ≠ Gt.

Definition newer_tag (tag : string) : bool :=
  match candidate op opts tag with Some v => bool_decide (compare v current = Gt) | None => false end.

Definition select_inv tags latest selected : Prop :=
  s_newer selected = length (filter newer_tag tags) ∧ s_status selected = "CURRENT" ∧
  if bool_decide (s_latestTag selected = "") then ∀ tag, tag ∈ tags → candidate op opts tag = None
  else s_latestTag selected ∈ tags ∧ candidate op opts (s_latestTag selected) = Some latest ∧
       ∀ tag v, tag ∈ tags → candidate op opts tag = Some v → behind v tag latest (s_latestTag selected).

Lemma behind_refl v tag : behind v tag v tag.
Proof.
  right. rewrite (cmp_refl _ compare_order), (cmp_refl _ strings_Compare_order). done.
Qed.

Lemma behind_trans v1 t1 v2 t2 v3 t3 : behind v1 t1 v2 t2 → behind v2 t2 v3 t3 → behind v1 t1 v3 t3.
Proof.
  pose proof compare_order as Ho. intros [H1|[H1 H1']] [H2|[H2 H2']].
  - left. by apply (cmp_lt _ Ho v1 v2 v3).
  - left. by rewrite <- (cmp_cong_r _ Ho v2 v3 v1).
  - left. by rewrite (cmp_cong _ Ho v1 v2 v3).
  - right. rewrite (cmp_cong _ Ho v1 v2 v3) by done. split; [done|].
    by apply (cmp_le_trans _ strings_Compare_order t1 t2 t3).
Qed.

(** The test of the loop says that the tag selected so far stays behind. *)
Lemma takes_over v tag latest latestTag :
  (bool_decide (compare v latest = Gt) ||
   (bool_decide (compare v latest = Eq) && bool_decide (strings_Compare tag latestTag = Gt))) = true →
  behind latest latestTag v tag.
Proof.
  intros [H%bool_decide_eq_true|[H%bool_decide_eq_true H'%bool_decide_eq_true]%andb_true_iff]%orb_true_iff.
  - left. by apply (cmp_gt _ compare_order).
  - right. rewrite (cmp_sym _ compare_order v latest), H. split; [done|].
    by rewrite (cmp_sym _ strings_Compare_order tag latestTag), H'.
Qed.

Lemma stays v tag latest latestTag :
  (bool_decide (compare v latest = Gt) ||
   (bool_decide (compare v latest = Eq) && bool_decide (strings_Compare tag latestTag = Gt))) = false →
  behind v tag latest latestTag.
Proof.
  intros [H%bool_decide_eq_false H']%orb_false_iff. unfold behind.
  destruct (compare v latest); [|by left|done]. right. split; [done|].
  apply andb_false_iff in H' as [H'|H']; by apply bool_decide_eq_false in H'.
Qed.

Lemma newer_snoc tags tag :
  length (filter newer_tag (tags ++ [tag])) = (if newer_tag tag then 1 else 0) + length (filter newer_tag tags).
Proof. rewrite filter_app, length_app, filter_cons, filter_nil. case_decide; destruct (newer_tag tag); try done; cbn; lia. Qed.

Lemma select_step_inv tags tag latest selected latest' selected' :
  select_inv tags latest selected → select_step op current opts (latest, selected) tag = (latest', selected') →
  select_inv (tags ++ [tag]) latest' selected'.
Proof.
  intros (Hn & Hs & Hl). unfold select_step. destruct (candidate op opts tag) as [v|] eqn:Ec.
  - destruct (_ || _) eqn:Et; intros [= <- <-]; unfold select_inv; cbn [s_newer s_status s_latestTag];
      rewrite newer_snoc; unfold newer_tag at 1; rewrite Ec.
    + split_and!; [rewrite <- Hn; by destruct (bool_decide (compare v current = Gt))|done|].
      rewrite bool_decide_false by (intros ->; by destruct (candidate_nonempty v)).
      split_and!; [set_solver|done|]. intros tag' v' Hin Hv'. apply elem_of_app in Hin as [Hin|Hin].
      * destruct (bool_decide (s_latestTag selected = "")); [by rewrite Hl in Hv'|].
        destruct Hl as (_ & _ & Hl). eapply behind_trans; [by apply Hl|by apply takes_over].
      * apply list_elem_of_singleton in Hin as ->. rewrite Ec in Hv'. injection Hv' as <-. apply behind_refl.
    + split_and!; [rewrite <- Hn; by destruct (bool_decide (compare v current = Gt))|done|].
      destruct (bool_decide (s_latestTag selected = "")); [done|]. destruct Hl as (Hin & Hc & Hl).
      split_and!; [set_solver|done|]. intros tag' v' Hin' Hv'. apply elem_of_app in Hin' as [Hin'|Hin'].
      * by apply Hl.
      * apply list_elem_of_singleton in Hin' as ->. rewrite Ec in Hv'. injection Hv' as <-. by apply stays.
  - intros [= <- <-]. unfold select_inv. rewrite newer_snoc. unfold newer_tag at 1. rewrite Ec.
    split_and!; [done|done|].
    destruct (bool_decide (s_latestTag selected = "")).
    + intros tag' [?| ->%list_elem_of_singleton]%elem_of_app; auto.
    + destruct Hl as (Hin & Hc & Hl). split_and!; [set_solver|done|].
      intros tag' v' [?| ->%list_elem_of_singleton]%elem_of_app Hv'; [by apply Hl|congruence].
Qed.

Lemma select_loop_inv tags done_ latest selected latest' selected' :
  select_inv done_ latest selected →
  foldl (select_step op current opts) (latest, selected) tags = (latest', selected') →
  select_inv (done_ ++ tags) latest' selected'.
Proof.
  revert done_ latest selected. induction tags as [|tag tags IH]; intros done_ latest selected Hi; cbn [foldl].
  - intros [= <- <-]. by rewrite app_nil_r.
  - destruct (select_step op current opts (latest, selected) tag) as [l s] eqn:E.
    intros H. eapply IH in H; [|by eapply select_step_inv]. by rewrite <- app_assoc in H.
Qed.

(** There are newer tags exactly when the greatest is one. *)
Lemma some_newer tags latest latestTag :
  latestTag ∈ tags → candidate op opts latestTag = Some latest →
  (∀ tag v, tag ∈ tags → candidate op opts tag = Some v → behind v tag latest latestTag) →
  0 < length (filter newer_tag tags) ↔ compare current latest = Lt.
Proof.
  intros Hin Hc Hbest. pose proof compare_order as Ho. split.
  - intros Hpos. destruct (filter newer_tag tags) as [|tag l] eqn:Ef; [cbn in Hpos; lia|].
    assert (Hf : tag ∈ filter newer_tag tags) by (rewrite Ef; by left).
    apply list_elem_of_filter in Hf as [Hnew Ht]. unfold newer_tag in Hnew.
    destruct (candidate op opts tag) as [v|] eqn:Ev; [|done].
    apply bool_decide_unpack, (cmp_gt _ Ho) in Hnew.
    destruct (Hbest tag v Ht Ev) as [H|[H _]]; [by apply (cmp_lt _ Ho current v)|].
    by rewrite <- (cmp_cong_r _ Ho v latest current).
  - intros H%(cmp_gt _ Ho). assert (Hf : latestTag ∈ filter newer_tag tags).
    { apply list_elem_of_filter. split; [|done]. unfold newer_tag. rewrite Hc. by apply bool_decide_pack. }
    destruct (filter newer_tag tags); [by apply not_elem_of_nil in Hf|cbn; lia].
Qed.

(** The tag reported is the greatest of those the report takes into account,
    by version and then by name; the newer ones are counted exactly; the status
    says how the pin compares with the tag reported; and there is an error only
    when no tag is taken into account. *)
Theorem selectLatestRelease_spec tags :
  match selectLatestRelease op current tags opts with
  | Ok selected =>
      ∃ latest, s_latestTag selected ∈ tags ∧ candidate op opts (s_latestTag selected) = Some latest ∧
        (∀ tag v, tag ∈ tags → candidate op opts tag = Some v → behind v tag latest (s_latestTag selected)) ∧
        s_newer selected = length (filter newer_tag tags) ∧
        s_status selected = match compare current latest with Lt => "NEW" | Eq => "CURRENT" | Gt => "AHEAD" end
  | Fail _ => ∀ tag, tag ∈ tags → candidate op opts tag = None
  end.
Proof.
  unfold selectLatestRelease.
  destruct (foldl _ _ tags) as [latest selected] eqn:E.
  apply (select_loop_inv tags []) in E as (Hn & Hs & Hl); [|by split_and!; [..|intros tag ?%not_elem_of_nil]].
  cbn [app] in *. destruct (bool_decide (s_latestTag selected = "")); [done|].
  destruct Hl as (Hin & Hc & Hbest). exists latest. cbn [s_latestTag s_newer s_status]. split_and!; [done..|].
  rewrite Hs. pose proof (some_newer tags _ _ Hin Hc Hbest) as Hnew. rewrite <- Hn in Hnew.
  destruct (compare current latest); case_bool_decide as Hpos; naive_solver.
Qed.
End selection.

(** ** Versions as numbers *)

Definition digit_value (c : ascii) : N := (N.of_nat (nat_of_ascii c) - 48)%N.

Fixpoint numeral_value (s : chars) : N :=
  match s with
  | [] => 0
  | c :: s => digit_value c * 10 ^ N.of_nat (length s) + numeral_value s
  end%N.

(** Digits without a superfluous zero in front *)
Definition canonical (s : chars) : Prop :=
  s ≠ [] ∧ Forall (λ c, is_digit c = true) s ∧ (1 < length s → head s ≠ Some "0"%char).

Lemma digit_value_bounds c : is_digit c = true → (48 ≤ nat_of_ascii c ≤ 57) ∧ (digit_value c < 10)%N.
Proof.
  unfold is_digit, in_range, digit_value. rewrite andb_true_iff, !Nat.leb_le.
  change (nat_of_ascii "0") with 48. change (nat_of_ascii "9") with 57. lia.
Qed.

Lemma numeral_value_lt s : Forall (λ c, is_digit c = true) s → (numeral_value s < 10 ^ N.of_nat (length s))%N.
Proof.
  induction 1 as [|c s Hc Hs IH]; cbn [numeral_value length]; [done|].
  apply digit_value_bounds in Hc as [_ Hc]. rewrite Nat2N.inj_succ, N.pow_succ_r'. nia.
Qed.

Lemma numeral_value_ge c s :
  canonical (c :: s) → s ≠ [] → (10 ^ N.of_nat (length s) ≤ numeral_value (c :: s))%N.
Proof.
  intros (_ & [Hc _]%Forall_cons & Hz) Hs. cbn [numeral_value].
  assert (1 ≤ digit_value c)%N; [|nia].
  apply digit_value_bounds in Hc as [Hb _].
  destruct (decide (nat_of_ascii c = 48)) as [E|]; [|unfold digit_value; lia].
  exfalso. apply Hz; [cbn; destruct s; [done|cbn; lia]|]. cbn. f_equal.
  by rewrite <- (ascii_nat_embedding c), E.
Qed.

(** Of one length, numerals compare as texts. *)
Lemma compare_chars_value l r :
  Forall (λ c, is_digit c = true) l → Forall (λ c, is_digit c = true) r → length l = length r →
  compare_chars l r = N.compare (numeral_value l) (numeral_value r).
Proof.
  intros Hl. revert r. induction Hl as [|a l Ha Hl IH]; intros [|b r] Hr Hlen; try done.
  apply Forall_cons in Hr as [Hb Hr]. injection Hlen as Hlen. cbn [compare_chars numeral_value].
  rewrite IH by done. pose proof (numeral_value_lt l Hl). pose proof (numeral_value_lt r Hr).
  apply digit_value_bounds in Ha as [Ha _], Hb as [Hb _]. rewrite <- Hlen in *. unfold digit_value.
  destruct (Nat.compare_spec (nat_of_ascii a) (nat_of_ascii b)) as [E|E|E].
  - rewrite E. destruct (N.compare_spec (numeral_value l) (numeral_value r)); symmetry;
      [apply N.compare_eq_iff|apply N.compare_lt_iff|apply N.compare_gt_iff]; nia.
  - symmetry. apply N.compare_lt_iff. nia.
  - symmetry. apply N.compare_gt_iff. nia.
Qed.

Lemma shorter_less l r : canonical l → canonical r → length l < length r → (numeral_value l < numeral_value r)%N.
Proof.
  intros (Hl & Hdl & _) Hr Hlen. destruct r as [|c r]; [cbn in Hlen; lia|].
  pose proof (numeral_value_lt l Hdl). assert (r ≠ []) as Hne.
  { intros ->. destruct l; [done|]. cbn in Hlen. lia. }
  pose proof (numeral_value_ge c r Hr Hne). cbn [length] in Hlen.
  assert (10 ^ N.of_nat (length l) ≤ 10 ^ N.of_nat (length r))%N; [|lia].
  apply N.pow_le_mono_r; lia.
Qed.

Lemma length_chars_of s : length (chars_of s) = String.length s.
Proof. induction s as [|c s IH]; [done|]. cbn. by rewrite IH. Qed.

Lemma compareNumeric_value l r :
  canonical (chars_of l) → canonical (chars_of r) →
  compareNumeric l r = N.compare (numeral_value (chars_of l)) (numeral_value (chars_of r)).
Proof.
  intros Hl Hr. unfold compareNumeric, strings_Compare. rewrite <- !length_chars_of.
  destruct (Nat.compare_spec (length (chars_of l)) (length (chars_of r))) as [E|E|E]; cbn.
  - apply compare_chars_value; [apply Hl|apply Hr|done].
  - symmetry. apply N.compare_lt_iff. by apply shorter_less.
  - symmetry. apply N.compare_gt_iff. by apply shorter_less.
Qed.

(** *** What the patterns capture *)

Lemma derives_numeral b s c b' s' c' :
  derives numeral b s c b' s' c' → ∃ w, s = w ++ s' ∧ canonical w ∧ c' = c.
Proof.
  unfold numeral, digit. intros H. apply derives_Alt_iff in H as [H|H].
  - derive_step. exists ["0"%char]. split; [done|]. split; [|done].
    split; [done|]. split; [by repeat constructor|cbn; lia].
  - repeat derive_step. eexists (_ :: _). split; [done|]. split; [|done].
    match goal with Ha : in_range "1" "9" ?a = true |- _ => rename Ha into Ha1; rename a into a1 end.
    unfold in_range in Ha1. rewrite andb_true_iff, !Nat.leb_le in Ha1.
    change (nat_of_ascii "1") with 49 in Ha1. change (nat_of_ascii "9") with 57 in Ha1.
    split; [done|]. split.
    + constructor; [|done]. unfold is_digit, in_range. rewrite andb_true_iff, !Nat.leb_le.
      change (nat_of_ascii "0") with 48. change (nat_of_ascii "9") with 57. lia.
    + intros _ [= E]. rewrite E in Ha1. change (nat_of_ascii "0") with 48 in Ha1. lia.
Qed.

Lemma derives_Group_numeral n b s c b' s' c' :
  derives (Group n numeral) b s c b' s' c' → ∃ w, canonical w ∧ c' = <[n := w]> c.
Proof.
  intros (w & ci & Hs & Hd & ->)%derives_Group_iff. apply derives_numeral in Hd as (w' & E & Hw & ->).
  exists w. split; [|done]. rewrite Hs in E. by apply app_inv_tail in E as ->.
Qed.

Lemma semver_groups raw m :
  FindStringSubmatch semverPattern raw = Some m →
  ∀ n, n ∈ [1; 2; 3] → canonical (chars_of (submatch m n)).
Proof.
  unfold FindStringSubmatch. destruct (find _ _ _) as [[[[front c] b'] s']|] eqn:E; [|done]. intros [= <-] n Hn.
  apply find_Some in E as (w0 & ci & _ & -> & Hd). unfold submatch, semverPattern in *.
  rewrite String.list_ascii_of_string_of_list_ascii.
  rewrite lookup_insert_ne by (intros <-; set_solver).
  repeat match goal with H : derives (Cat _ _) _ _ _ _ _ _ |- _ => apply derives_Cat_iff in H as (? & ? & ? & H & ?) end.
  repeat match goal with
  | H : derives (Group _ numeral) _ _ _ _ _ _ |- _ => apply derives_Group_numeral in H as (? & ? & ->)
  | H : derives (literal ".") _ _ _ _ _ _ |- _ => apply derives_literal_iff in H as (-> & -> & ->)
  | H : derives begin_text _ _ _ _ _ _ |- _ => apply derives_Look_iff in H as (_ & -> & -> & ->)
  end.
  repeat match goal with
  | H : derives ?r _ _ ?c1 _ _ ?c2 |- context [?c2 !! n] =>
      rewrite (derives_keeps n _ _ _ _ _ _ _ H) by (cbn; set_solver); clear H
  end.
  rewrite !elem_of_cons in Hn. destruct Hn as [->|[->|[->|Hn]]]; [..|by apply not_elem_of_nil in Hn];
    by simplify_map_eq.
Qed.

Record well_formed (v : version) : Prop := {
  wf_core : canonical (chars_of (v_core v).1.1) ∧ canonical (chars_of (v_core v).1.2) ∧ canonical (chars_of (v_core v).2);
  wf_prerelease part : part ∈ v_prerelease v → isNumeric part = true → canonical (chars_of part);
}.

Lemma isNumeric_canonical part : isNumeric part = true → padded part = false → canonical (chars_of part).
Proof.
  unfold padded. intros Hn. rewrite Hn. cbn. unfold isNumeric in Hn.
  apply andb_true_iff in Hn as [Hd Hne]. apply negb_true_iff, bool_decide_eq_false in Hne.
  intros Hp. split; [by destruct part|]. split.
  - apply Forall_forall. intros a Ha. by apply (proj1 (forallb_forall _ _) Hd), list_elem_of_In.
  - intros Hlen Hhead. rewrite length_chars_of in Hlen. rewrite bool_decide_true in Hp by done.
    rewrite bool_decide_true in Hp; [done|]. destruct part; [done|]. cbn in *. congruence.
Qed.

Lemma parseRelease_wf raw channel v : parseRelease raw channel = Ok v → well_formed v.
Proof.
  unfold parseRelease. destruct (FindStringSubmatch semverPattern _) as [m|] eqn:E; [|done].
  pose proof (semver_groups _ _ E) as Hg.
  destruct (bool_decide _); [|destruct (existsb padded _) eqn:Ep; [done|]]; intros [= <-]; split; cbn [v_core v_prerelease].
  - split_and!; apply Hg; set_solver.
  - by intros part ?%not_elem_of_nil.
  - split_and!; apply Hg; set_solver.
  - intros part Hin Hn. apply isNumeric_canonical; [done|].
    destruct (padded part) eqn:Epart; [|done]. rewrite <- Ep. symmetry. apply existsb_exists.
    exists part. by rewrite <- list_elem_of_In.
Qed.

(** *** The order, on numbers *)

Inductive ident := Num (n : N) | Alnum (s : string).

Definition ident_of (part : string) : ident :=
  if isNumeric part then Num (numeral_value (chars_of part)) else Alnum part.

Definition ident_order (l r : ident) : comparison :=
  match l, r with
  | Num n, Num m => N.compare n m
  | Num _, Alnum _ => Lt
  | Alnum _, Num _ => Gt
  | Alnum s, Alnum t => strings_Compare s t
  end.

Definition numbers (v : version) : list N * list ident :=
  ((λ part, numeral_value (chars_of part)) <$> [(v_core v).1.1; (v_core v).1.2; (v_core v).2],
   ident_of <$> v_prerelease v).

(** Precedence of semantic versions: by the numbers of the core; a version without
    a prerelease comes last; else by its identifiers, the shorter list first. *)
Definition precedence (v w : list N * list ident) : comparison :=
  match compare_list N.compare v.1 w.1, v.2, w.2 with
  | Eq, [], [] => Eq
  | Eq, [], _ => Gt
  | Eq, _, [] => Lt
  | Eq, l, r => compare_list ident_order l r
  | o, _, _ => o
  end.

Lemma compareIdentifier_ident l r :
  (isNumeric l = true → canonical (chars_of l)) → (isNumeric r = true → canonical (chars_of r)) →
  compareIdentifier l r = ident_order (ident_of l) (ident_of r).
Proof.
  intros Hl Hr. unfold compareIdentifier, ident_of.
  destruct (isNumeric l), (isNumeric r); cbn; [|done..]. by apply compareNumeric_value; auto.
Qed.

Lemma compare_list_fmap {A B} (f : A → B) (cmp : A → A → comparison) (cmp' : B → B → comparison) l r :
  (∀ x y, x ∈ l → y ∈ r → cmp x y = cmp' (f x) (f y)) → compare_list cmp l r = compare_list cmp' (f <$> l) (f <$> r).
Proof.
  revert r. induction l as [|a l IH]; intros [|b r] H; [done..|]. cbn.
  rewrite H, IH; [done|..]; set_solver.
Qed.

Lemma comparePrerelease_ident l r :
  (∀ part, part ∈ l ++ r → isNumeric part = true → canonical (chars_of part)) →
  comparePrerelease l r =
  match ident_of <$> l, ident_of <$> r with
  | [], [] => Eq
  | [], _ => Gt
  | _, [] => Lt
  | l, r => compare_list ident_order l r
  end.
Proof.
  intros H. destruct l as [|a l], r as [|b r]; [done..|].
  etransitivity; [exact (compare_list_zip compareIdentifier (a :: l) (b :: r))|].
  apply (compare_list_fmap ident_of). intros x y Hx Hy. apply compareIdentifier_ident; intros; apply H; set_solver.
Qed.

(** C38: versions that were parsed compare as semantic versioning prescribes on
    the numbers their texts stand for, however long these are. *)
Theorem compare_precedence raw channel v raw' channel' w :
  parseRelease raw channel = Ok v → parseRelease raw' channel' = Ok w →
  compare v w = precedence (numbers v) (numbers w).
Proof.
  intros [[H1 [H2 H3]] Hv]%parseRelease_wf [[G1 [G2 G3]] Hw]%parseRelease_wf.
  unfold compare, precedence, numbers. destruct v as [[[v1 v2] v3] l], w as [[[w1 w2] w3] r].
  cbn [v_core v_prerelease fst snd] in *. rewrite !compareNumeric_value by done.
  rewrite comparePrerelease_ident by (intros part [?|?]%elem_of_app; auto).
  cbn [fmap list_fmap compare_list or_else].
  destruct (N.compare _ _); [|done..]. destruct (N.compare _ _); [|done..]. by destruct (N.compare _ _).
Qed.

(** ** The command *)

Lemma parseOperatorArgs_length args op : parseOperatorArgs args = Ok op → 6 ≤ length args.
Proof. destruct args as [|? [|? [|? [|? [|? [|? ?]]]]]]; try done. cbn. lia. Qed.

(** Every turn takes an argument at least. *)
Lemma parseArgs_total args opts fuel : length args < fuel → is_Some (parse_args fuel args opts).
Proof.
  revert args opts. induction fuel as [|fuel IH]; intros args [ops ex pre fail nh help] Hf; [lia|].
  destruct args as [|arg args]; [done|]. cbn [length] in Hf. cbn [parse_args].
  destruct (bool_decide (arg = "--operator")).
  { destruct (parseOperatorArgs args) as [op|] eqn:E; [|done].
    apply IH. rewrite length_drop. lia. }
  destruct (bool_decide (arg = "--exclude-tag")).
  { destruct args as [|tag args]; [done|]. destruct (String.prefix "--" tag); [done|]. apply IH. cbn [length] in Hf. lia. }
  repeat (case_match; [by first [apply IH; lia|eexists]|]). done.
Qed.

Section exit.
Context (lookup : nat → string → result (list string)) (opts : options).

(** What the command prints of the operator checked at [turn], and where. *)
Definition reported (turn : nat) (op : operator) : list line * list line :=
  match checkOperator lookup turn op opts with
  | Ok (_, report) => (report, [])
  | Fail err => ([Line "%-8s %-20s %-28s -" [AStr "ERROR"; AStr (op_name op); AStr (op_pinned op)]],
                 [ErrLine "  %s: %v" [AStr (op_name op)] err])
  end.

Definition has_failed (turn : nat) (op : operator) : bool := negb (is_ok (checkOperator lookup turn op opts)).

Definition has_updates (turn : nat) (op : operator) : bool :=
  match checkOperator lookup turn op opts with Ok (newer, _) => newer | Fail _ => false end.

Definition any (f : nat → operator → bool) (turn : nat) (operators : list operator) : bool :=
  existsb id (imap (λ i op, f (turn + i) op) operators).

Lemma check_all_spec operators turn out :
  check_all lookup opts out turn operators =
  MkOutcome (out_updated out || any has_updates turn operators) (out_failed out || any has_failed turn operators)
    (out_stdout out ++ concat (imap (λ i op, (reported (turn + i) op).1) operators))
    (out_stderr out ++ concat (imap (λ i op, (reported (turn + i) op).2) operators)).
Proof.
  revert turn out. induction operators as [|op operators IH]; intros turn out; cbn [check_all].
  { unfold any. cbn. rewrite !orb_false_r, !app_nil_r. by destruct out. }
  rewrite IH. unfold any. rewrite !imap_cons. cbn [existsb concat]. rewrite !Nat.add_0_r.
  assert (E : ∀ B (f : nat → operator → B), imap ((λ i op, f (turn + i) op) ∘ S) operators = imap (λ i op, f (S turn + i) op) operators).
  { intros B f. apply imap_ext. intros i x _. cbn. by rewrite Nat.add_succ_r. }
  rewrite (E _ has_updates), (E _ has_failed), (E _ (λ i op, (reported i op).1)), (E _ (λ i op, (reported i op).2)).
  assert (Er : reported turn op = match checkOperator lookup turn op opts with
    | Ok (_, report) => (report, [])
    | Fail err => ([Line "%-8s %-20s %-28s -" [AStr "ERROR"; AStr (op_name op); AStr (op_pinned op)]],
                   [ErrLine "  %s: %v" [AStr (op_name op)] err]) end) by done.
  assert (Eu : has_updates turn op = match checkOperator lookup turn op opts with Ok (newer, _) => newer | Fail _ => false end) by done.
  assert (Ef : has_failed turn op = negb (is_ok (checkOperator lookup turn op opts))) by done.
  rewrite Er, Eu, Ef. unfold check_step, id.
  destruct (checkOperator lookup turn op opts) as [[newer report]|err]; cbn;
    rewrite <- ?app_assoc, <- ?orb_assoc, ?orb_true_r; done.
Qed.
End exit.

(** Every operator given is checked and reported, in order, whatever happens
    to the others; the exit code is 1 when an argument or a check failed, else 2
    when there are updates and they were asked to fail on, else 0. *)
Theorem run_reports lookup args :
  run lookup args =
  match parseArgs args with
  | Fail err => (1%Z, [], [ErrLine "%s error: %v" [AStr usage] err])
  | Ok opts =>
      if o_help opts then (0%Z, [Line usage []], [])
      else
        (if any (has_failed lookup opts) 0 (o_operators opts) then 1%Z
         else if any (has_updates lookup opts) 0 (o_operators opts) && o_failOnUpdate opts then 2%Z else 0%Z,
         (if o_noHeader opts then [] else [header]) ++
           concat (imap (λ i op, (reported lookup opts i op).1) (o_operators opts)),
         concat (imap (λ i op, (reported lookup opts i op).2) (o_operators opts)))
  end ∧ is_Some (parse_args (S (length args)) args no_options).
Proof.
  split; [|apply parseArgs_total; lia]. unfold run. destruct (parseArgs args) as [opts|]; [|done].
  destruct (o_help opts); [done|]. by rewrite check_all_spec.
Qed.

(** ** Examples *)

(** Grove's release candidates come before what they become. *)
Example grove_order :
  (v ← parseRelease "0.1.0-alpha.6-rc12" "alpha"; w ← parseRelease "0.1.0-alpha.6" "alpha"; Ok (compare v w)) = Ok Lt.
Proof. vm_compute. reflexivity. Qed.

Definition jobset : operator := MkOperator "jobset" "v0.9.0" "kubernetes-sigs/jobset" "v" "stable" "".

Lemma compare_precedence_witness :
  ∃ v w, parseRelease "1.10.0-rc2" "stable" = Ok v ∧
    parseRelease "1.9.0" "stable" = Ok w ∧ compare v w = Gt ∧ precedence (numbers v) (numbers w) = Gt.
Proof.
  destruct (parseRelease "1.10.0-rc2" "stable") as [v|] eqn:Ev; [|exfalso; vm_compute in Ev; discriminate Ev].
  destruct (parseRelease "1.9.0" "stable") as [w|] eqn:Ew; [|exfalso; vm_compute in Ew; discriminate Ew].
  exists v, w. split; [done|]. split; [done|].
  rewrite <- (compare_precedence _ _ _ _ _ _ Ev Ew).
  assert (compare v w = Gt); [|done].
  transitivity (match parseRelease "1.10.0-rc2" "stable", parseRelease "1.9.0" "stable" with
                | Ok v, Ok w => compare v w | _, _ => Eq end); [by rewrite Ev, Ew|vm_compute; reflexivity].
Defined.
