(* ===== verification/ImageLock.v ===== *)
(** * ImageLock: the images an install runs, locked to their digests

    Models [hack/imagelock/main.go]: the flags, the images of the rendered chart
    and their classification, the digests read from a registry, and the locks
    written.  helm, YAML, the parsing of references, the registry and the file
    system are parameters; the registry and the file system answer by turn.  An
    index or image is what its descriptor leads to.  Logging is left out. *)

From S2P Require Import Prelude Text Sort Value Flag.
From Stdlib Require Import Ascii.

Definition lockAPIVersion := "artifacts.run.ai/v1alpha1".
Definition lockKind := "ImageLock".
Definition lockName := "karta".
Definition lockProfile := "standard".

Definition registryAttempts : nat := 3.
Definition defaultStabilityReads : Z := 10.

Definition knownImages : list (string * string) :=
  [("ghcr.io/dsx-ai-factory/workload-map/karta-operator", "operator");
   ("ghcr.io/dsx-ai-factory/workload-map/dsx-workload-exporter", "metrics-exporter");
   ("registry.k8s.io/kubectl", "crd-upgrader")].

Definition selfImages : list (string * string) :=
  [("karta-operator", "operator"); ("dsx-workload-exporter", "metrics-exporter")].

(** [m[key]] of a map literal *)
Definition entry (key : string) (m : list (string * string)) : option string :=
  snd <$> (snd <$> list_find (λ kv, kv.1 = key) m).

(** [sha256:[0-9a-f]{64}] *)
Definition sha256Digest : re :=
  (begin_text ⋅ literal "sha256:" ⋅ repeated 64 (One is_lower_hex) ⋅ end_text)%re.

(** [[0-9]+\.[0-9]+\.[0-9]+], at the start *)
Definition releaseVersion : re :=
  (begin_text ⋅ plus (One is_digit) ⋅ literal "." ⋅ plus (One is_digit) ⋅ literal "." ⋅ plus (One is_digit))%re.

Record platform := Platform { p_OS : string; p_Architecture : string }.
#[export] Instance platform_eq_dec : EqDecision platform.
Proof. solve_decision. Defined.
#[export] Instance platform_countable : Countable platform.
Proof. refine (inj_countable' (λ p, (p_OS p, p_Architecture p)) (λ p, Platform p.1 p.2) _). by intros []. Defined.

Definition platform_String (p : platform) : string := p_OS p +:+ "/" +:+ p_Architecture p.

Record chartImage := ChartImage { ci_name : string; ci_repo : string; ci_tag : string }.

Definition reference (c : chartImage) : string := ci_repo c +:+ ":" +:+ ci_tag c.

Record resolvedImage := ResolvedImage {
  ri_chartImage : chartImage;
  ri_indexDigest : string;
  ri_digestPerPlatform : gmap platform string;
}.

(** ** Flags *)

Record options := MkOptions {
  o_chart : string;
  o_version : string;
  o_platforms : list platform;
  o_outDir : string;
  o_helmBin : string;
  o_setArgs : list string;
  o_verifyOnly : bool;
  o_stabilityReads : Z;
}.

(** What the flags hold while they are read. *)
Record flag_values := MkFlags {
  f_chart : string; f_version : string; f_platformArgs : list string; f_setArgs : list string;
  f_outDir : string; f_helmBin : string; f_verifyOnly : bool; f_stabilityReads : Z;
}.

Definition default_flags : flag_values :=
  MkFlags "../../charts/karta" "" [] [] "../../dist" "helm" false defaultStabilityReads.

(** [os/arch] *)
Definition parsePlatform (entry : string) : result platform :=
  let bad := Errorf "bad platform %q, want os/arch" [AStr entry] [] in
  match cut ["/"%char] (chars_of entry) with
  | None => Fail bad
  | Some (os, arch) =>
      if bool_decide (os = []) || bool_decide (arch = []) || bool_decide ("/"%char ∈ arch) then Fail bad
      else Ok (Platform (string_of os) (string_of arch))
  end.

Definition parsePlatforms (entries : list string) : result (list platform) :=
  platforms ← mapR parsePlatform entries;
  match platforms with
  | [] => Fail (Errorf "no platforms" [] [])
  | _ => Ok platforms
  end.

Section flags.
(** [strconv.ParseInt] in the base the text tells *)
Context (ParseInt : string → result Z).

Definition formal_flags : list (string * flag flag_values) :=
  [("chart", StringFlag (λ v f, MkFlags v (f_version f) (f_platformArgs f) (f_setArgs f) (f_outDir f) (f_helmBin f) (f_verifyOnly f) (f_stabilityReads f)));
   ("version", StringFlag (λ v f, MkFlags (f_chart f) v (f_platformArgs f) (f_setArgs f) (f_outDir f) (f_helmBin f) (f_verifyOnly f) (f_stabilityReads f)));
   ("platform", StringFlag (λ v f, MkFlags (f_chart f) (f_version f) (f_platformArgs f ++ [v]) (f_setArgs f) (f_outDir f) (f_helmBin f) (f_verifyOnly f) (f_stabilityReads f)));
   ("set", StringFlag (λ v f, MkFlags (f_chart f) (f_version f) (f_platformArgs f) (f_setArgs f ++ [v]) (f_outDir f) (f_helmBin f) (f_verifyOnly f) (f_stabilityReads f)));
   ("out-dir", StringFlag (λ v f, MkFlags (f_chart f) (f_version f) (f_platformArgs f) (f_setArgs f) v (f_helmBin f) (f_verifyOnly f) (f_stabilityReads f)));
   ("helm", StringFlag (λ v f, MkFlags (f_chart f) (f_version f) (f_platformArgs f) (f_setArgs f) (f_outDir f) v (f_verifyOnly f) (f_stabilityReads f)));
   ("verify-only", BoolFlag (λ b f, MkFlags (f_chart f) (f_version f) (f_platformArgs f) (f_setArgs f) (f_outDir f) (f_helmBin f) b (f_stabilityReads f)));
   ("stability-reads", ValueFlag (λ v f, (λ n, MkFlags (f_chart f) (f_version f) (f_platformArgs f) (f_setArgs f) (f_outDir f) (f_helmBin f) (f_verifyOnly f) n) <$> ParseInt v))].

Definition parseFlags (args : list string) : result options :=
  f ← Parse formal_flags args default_flags;
  let platformArgs := match f_platformArgs f with [] => ["linux/amd64"; "linux/arm64"] | args => args end in
  platforms ← parsePlatforms platformArgs;
  let opts := MkOptions (f_chart f) (TrimPrefix (f_version f) "v") platforms (f_outDir f) (f_helmBin f)
                (f_setArgs f) (f_verifyOnly f) (f_stabilityReads f) in
  if (o_stabilityReads opts <? 1)%Z then Fail (Errorf "--stability-reads must be at least 1" [] [])
  else if o_verifyOnly opts then Ok opts
  else if bool_decide (o_version opts = "") then Fail (Errorf "--version is required" [] [])
  else if bool_decide (o_version opts = "latest") then
    Fail (Errorf "--version must be a released version, not 'latest'" [] [])
  else if negb (MatchString releaseVersion (o_version opts)) then
    Fail (Errorf "--version %q is not a release version like X.Y.Z" [AStr (o_version opts)] [])
  else Ok opts.
End flags.

(** ** Rendering and classification *)

Definition set_flag (assignment : string) : list string := ["--set"; assignment].

Definition helm_args (opts : options) : list string :=
  ["template"; "karta"; o_chart opts; "--set"; "operator.enabled=true"; "--set"; "crdUpgrader.enabled=true";
   "--set"; "webhook.enabled=true"] ++
  (if bool_decide (o_version opts ≠ "") then set_flag ("image.tag=" +:+ o_version opts) else []) ++
  (o_setArgs opts ≫= set_flag) ++
  set_flag "exporter.enabled=true" ++
  (if bool_decide (o_version opts ≠ "") then set_flag ("exporter.image.tag=" +:+ o_version opts) else []).

(** The repository of a reference: without digest, and without what follows a
    colon behind the last slash. *)
Definition repoOf (ref : string) : string :=
  let ref := match cut ["@"%char] (chars_of ref) with Some (front, _) => front | None => chars_of ref end in
  match cut_last ":"%char ref with
  | Some (front, rest) => if bool_decide ("/"%char ∈ rest) then string_of ref else string_of front
  | None => string_of ref
  end.

(** The part of a repository after the last slash *)
Definition base_of (repo : string) : string :=
  match cut_last "/"%char (chars_of repo) with
  | Some (_, base) => string_of base
  | None => repo
  end.

Definition classify (repo : string) : option string :=
  match entry repo knownImages with
  | Some imageName => Some imageName
  | None => entry (base_of repo) selfImages
  end.

(** The images a document names, at any depth. *)
Fixpoint collectImageRefs (node : value) : gset string :=
  match node with
  | VMap mapping =>
      match mapping !! "image" with
      | Some (VString ref) => if bool_decide (ref ≠ "") then {[ref]} else ∅
      | _ => ∅
      end ∪ map_fold (λ _ refs all, refs ∪ all) ∅ (collectImageRefs <$> mapping)
  | VArray sequence => ⋃ (collectImageRefs <$> sequence)
  | _ => ∅
  end.

(** [---\s*] alone on a line *)
Definition yamlDocument : re :=
  (begin_line ⋅ literal "---" ⋅ Star (One (λ c, existsb (Ascii.eqb c) ["009"; "010"; "012"; "013"; " "]%char)) ⋅ end_line)%re.

Section locks.
Context `{GoSort}.
(** [yaml.Unmarshal] into an [any] *)
Context (Unmarshal : string → result value).

Definition document_refs (document : string) : result (gset string) :=
  if bool_decide (TrimSpace document = "") then Ok ∅
  else collectImageRefs <$> map_error (λ err, Errorf "parse rendered document: %w" [] [err]) (Unmarshal document).

Definition imageRefs (manifest : string) : result (list string) :=
  refs ← mapR document_refs (regexp_Split yamlDocument manifest);
  Ok (sort_Strings (elements (⋃ refs))).

(** One turn of the loop over the references. *)
Definition classify_ref (imageByName : gmap string chartImage) (ref : string) : result (gmap string chartImage) :=
  let repo := repoOf ref in
  match classify repo with
  | None => Fail (Errorf "unknown image %q (repo %q): add it to knownImages before releasing" [AStr ref; AStr repo] [])
  | Some imageName =>
      let tag := TrimPrefix ref (repo +:+ ":") in
      match imageByName !! imageName with
      | Some existing =>
          if bool_decide (ci_tag existing ≠ tag) then
            Fail (Errorf "image %q maps to two references: %s and %s" [AStr imageName; AStr (reference existing); AStr ref] [])
          else Ok (<[imageName := ChartImage imageName repo tag]> imageByName)
      | None => Ok (<[imageName := ChartImage imageName repo tag]> imageByName)
      end
  end.

Fixpoint classify_refs (imageByName : gmap string chartImage) (refs : list string) : result (gmap string chartImage) :=
  match refs with
  | [] => Ok imageByName
  | ref :: refs => imageByName ← classify_ref imageByName ref; classify_refs imageByName refs
  end.

Definition string_less (l r : string) : bool := bool_decide (compare_chars (chars_of l) (chars_of r) = Lt).

Definition images_of (imageByName : gmap string chartImage) : list chartImage :=
  sort_Slice (λ i j, string_less (ci_name i) (ci_name j)) (map_to_list imageByName).*2.

Definition imagesFromManifest (manifest : string) : result (list chartImage) :=
  refs ← imageRefs manifest;
  images_of <$> classify_refs ∅ refs.

(** ** Resolution *)

(** Digests by platform from [resolve(ref, platforms)], with the digest of the
    index, empty for an image of one platform; [W] is what changes from call to
    call. *)
Class digestResolver (W : Type) :=
  resolve : string → list platform → W → result (string * gmap platform string) * W.

Definition validateDigests (indexDigest : string) (digestPerPlatform : gmap platform string) : option error :=
  if bool_decide (indexDigest ≠ "") && negb (MatchString sha256Digest indexDigest) then
    Some (Errorf "bad index digest %q" [AStr indexDigest] [])
  else
    head (omap (λ '(p, digest),
            if MatchString sha256Digest digest then None
            else Some (Errorf "bad %s digest %q" [AStr (platform_String p); AStr digest] []))
          (map_to_list digestPerPlatform)).

Fixpoint resolveImages `{digestResolver W} (images : list chartImage) (platforms : list platform)
    (resolved : list resolvedImage) (w : W) : result (list resolvedImage) * W :=
  match images with
  | [] => (Ok resolved, w)
  | image :: images =>
      let wrap err := Errorf "resolve %s: %w" [AStr (reference image)] [err] in
      match resolve (reference image) platforms w with
      | (Fail err, w) => (Fail (wrap err), w)
      | (Ok (indexDigest, digestPerPlatform), w) =>
          match validateDigests indexDigest digestPerPlatform with
          | Some err => (Fail (wrap err), w)
          | None => resolveImages images platforms
                      (resolved ++ [ResolvedImage image indexDigest digestPerPlatform]) w
          end
      end
  end.

(** *** The registry *)

Record manifestEntry := ManifestEntry { me_Platform : option platform; me_Digest : string }.

Record Descriptor := MkDescriptor {
  d_Digest : string;
  d_IsIndex : bool;
  (** The manifests of the index, the platform of the image *)
  d_Manifests : result (list manifestEntry);
  d_Config : result platform;
}.

Section registry.
Context {Reference : Type} (ParseReference : string → result Reference).
(** [remote.Get] at its [n]th call *)
Context (Get : nat → Reference → result Descriptor).

(** [for attempt := ..]: attempts left, and calls made. *)
Fixpoint fetch_loop (attempts : nat) (lastErr : error) (ref : Reference) (calls : nat) : result Descriptor * nat :=
  match attempts with
  | O => (Fail (Errorf "after %d attempts: %w" [ANat registryAttempts] [lastErr]), calls)
  | S attempts =>
      match Get calls ref with
      | Ok descriptor => (Ok descriptor, S calls)
      | Fail err => fetch_loop attempts err ref (S calls)
      end
  end.

(** The error of the loop's start is never seen. *)
Definition fetchDescriptor : Reference → nat → result Descriptor * nat :=
  fetch_loop registryAttempts (Errorf "" [] []).

(** [for i := 1; i < reads; i++] *)
Fixpoint read_again (reads : nat) (first : Descriptor) (ref : Reference) (calls : nat) : result Descriptor * nat :=
  match reads with
  | O => (Ok first, calls)
  | S reads =>
      match fetchDescriptor ref calls with
      | (Fail err, calls) => (Fail err, calls)
      | (Ok again, calls) =>
          if bool_decide (d_Digest again ≠ d_Digest first) then
            (Fail (Errorf "digest changed between reads: %s vs %s" [AStr (d_Digest first); AStr (d_Digest again)] []), calls)
          else read_again reads first ref calls
      end
  end.

Definition resolveStableDescriptor (ref : Reference) (reads : Z) (calls : nat) : result Descriptor * nat :=
  let reads := if (reads <? 1)%Z then defaultStabilityReads else reads in
  match fetchDescriptor ref calls with
  | (Fail err, calls) => (Fail err, calls)
  | (Ok first, calls) => read_again (Z.to_nat (reads - 1)) first ref calls
  end.

Definition platform_matches (p : platform) (manifests : list manifestEntry) : list string :=
  me_Digest <$> filter (λ e, me_Platform e = Some p) manifests.

Fixpoint pick_manifests (manifests : list manifestEntry) (platforms : list platform) (digests : gmap platform string)
    : result (gmap platform string) :=
  match platforms with
  | [] => Ok digests
  | p :: platforms =>
      match platform_matches p manifests with
      | [] => Fail (Errorf "no %s manifest in index" [AStr (platform_String p)] [])
      | [digest] => pick_manifests manifests platforms (<[p := digest]> digests)
      | matches => Fail (Errorf "ambiguous %s: %d manifests match" [AStr (platform_String p); ANat (length matches)] [])
      end
  end.

Definition manifestDigestsPerPlatform (descriptor : Descriptor) (platforms : list platform)
    : result (gmap platform string) :=
  manifests ← d_Manifests descriptor; pick_manifests manifests platforms ∅.

Fixpoint same_platform (imagePlatform : platform) (digest : string) (platforms : list platform)
    (digests : gmap platform string) : result (gmap platform string) :=
  match platforms with
  | [] => Ok digests
  | p :: platforms =>
      if bool_decide (p ≠ imagePlatform) then
        Fail (Errorf "image is %s only, cannot satisfy %s" [AStr (platform_String imagePlatform); AStr (platform_String p)] [])
      else same_platform imagePlatform digest platforms (<[p := digest]> digests)
  end.

Definition singleArchDigests (descriptor : Descriptor) (platforms : list platform) : result (gmap platform string) :=
  imagePlatform ← d_Config descriptor;
  same_platform imagePlatform (d_Digest descriptor) platforms ∅.

(** What a descriptor says of the platforms *)
Definition digests_of (descriptor : Descriptor) (platforms : list platform) : result (string * gmap platform string) :=
  if negb (d_IsIndex descriptor) then (λ digests, ("", digests)) <$> singleArchDigests descriptor platforms
  else (λ digests, (d_Digest descriptor, digests)) <$> manifestDigestsPerPlatform descriptor platforms.

Definition remote_resolve (stabilityReads : Z) : digestResolver nat := λ ref platforms calls,
  match ParseReference ref with
  | Fail err => (Fail err, calls)
  | Ok reference =>
      match resolveStableDescriptor reference stabilityReads calls with
      | (Fail err, calls) => (Fail err, calls)
      | (Ok descriptor, calls) => (digests_of descriptor platforms, calls)
      end
  end.
End registry.

(** ** Locks *)

Record lockedImage := LockedImage { li_Name : string; li_Image : string; li_Source : string; li_IndexDigest : string }.

Record imageLock := MkLock {
  l_APIVersion : string;
  l_Kind : string;
  l_Name : string;
  l_Version : string;
  l_Profile : string;
  l_Platform : platform;
  l_Images : list lockedImage;
}.

Definition ensureVPrefix (version : string) : string :=
  if String.prefix "v" version then version else "v" +:+ version.

Definition lock_image (p : platform) (image : resolvedImage) : lockedImage :=
  LockedImage (ci_name (ri_chartImage image))
    (ci_repo (ri_chartImage image) +:+ "@" +:+ default "" (ri_digestPerPlatform image !! p))
    (reference (ri_chartImage image)) (ri_indexDigest image).

Definition buildLock (version : string) (p : platform) (resolved : list resolvedImage) : imageLock :=
  MkLock lockAPIVersion lockKind lockName (ensureVPrefix version) lockProfile p
    (sort_Slice (λ i j, string_less (li_Name i) (li_Name j)) (lock_image p <$> resolved)).

(** [yaml.Marshal], [filepath.Join], [os.MkdirAll]; [os.WriteFile] by the number
    of files written before. *)
Context (Marshal : imageLock → result string) (Join : string → string → string).
Context (MkdirAll : string → option error) (WriteFile : nat → string → option error).

Definition lock_path (outDir : string) (lock : imageLock) : string :=
  Join outDir ("imagelock-karta-" +:+ l_Version lock +:+ "-" +:+ p_OS (l_Platform lock) +:+ "-" +:+
               p_Architecture (l_Platform lock) +:+ ".yaml").

(** The files written, as path and text, latest last. *)
Definition files := list (string * string).

Definition writeLock (outDir : string) (lock : imageLock) (written : files) : option error * files :=
  match Marshal lock with
  | Fail err => (Some (Errorf "marshal lock: %w" [] [err]), written)
  | Ok yamlBytes =>
      let path := lock_path outDir lock in
      match WriteFile (length written) path with
      | Some err => (Some (Errorf "write %s: %w" [AStr path] [err]), written)
      | None => (None, written ++ [(path, yamlBytes)])
      end
  end.

Fixpoint write_each (opts : options) (resolved : list resolvedImage) (platforms : list platform) (written : files)
    : option error * files :=
  match platforms with
  | [] => (None, written)
  | p :: platforms =>
      match writeLock (o_outDir opts) (buildLock (o_version opts) p resolved) written with
      | (Some err, written) => (Some err, written)
      | (None, written) => write_each opts resolved platforms written
      end
  end.

Definition writeLocks (opts : options) (resolved : list resolvedImage) : option error * files :=
  match MkdirAll (o_outDir opts) with
  | Some err => (Some (Errorf "create %s: %w" [AStr (o_outDir opts)] [err]), [])
  | None => write_each opts resolved (o_platforms opts) []
  end.

(** ** The command *)

Section command.
Context (ParseInt : string → result Z).
(** What helm prints, or its error with what it printed of it *)
Context (helm : string → list string → result string).
Context {Reference : Type} (ParseReference : string → result Reference) (Get : nat → Reference → result Descriptor).

Definition renderChart (opts : options) : result string := helm (o_helmBin opts) (helm_args opts).

Definition run (args : list string) : option error * files :=
  match parseFlags ParseInt args with
  | Fail err => (Some err, [])
  | Ok opts =>
      match map_error (λ err, Errorf "render chart: %w" [] [err]) (renderChart opts) with
      | Fail err => (Some err, [])
      | Ok manifest =>
          match imagesFromManifest manifest with
          | Fail err => (Some err, [])
          | Ok images =>
              if o_verifyOnly opts then (None, [])
              else
                match (resolveImages (H0 := remote_resolve ParseReference Get (o_stabilityReads opts))
                         images (o_platforms opts) [] 0).1 with
                | Fail err => (Some err, [])
                | Ok resolved => writeLocks opts resolved
                end
          end
      end
  end.
End command.
End locks.

(** ** Every image is seen *)

Inductive image_in : value → string → Prop :=
  | image_here m ref : m !! "image" = Some (VString ref) → ref ≠ "" → image_in (VMap m) ref
  | image_below m k child ref : m !! k = Some child → image_in child ref → image_in (VMap m) ref
  | image_inside l child ref : child ∈ l → image_in child ref → image_in (VArray l) ref.

Lemma elem_of_fold_union (m : gmap string (gset string)) ref :
  ref ∈ map_fold (λ _ refs all, refs ∪ all) ∅ m ↔ ∃ k refs, m !! k = Some refs ∧ ref ∈ refs.
Proof.
  apply (map_fold_weak_ind (λ all m, ref ∈ all ↔ ∃ k refs, m !! k = Some refs ∧ ref ∈ refs)).
  - split; [by intros ?%not_elem_of_empty|intros (k & refs & ? & _)]. by simplify_map_eq.
  - intros k refs m' all Hk IH. rewrite elem_of_union, IH. split.
    + intros [?|(k' & refs' & Hk' & ?)]; [exists k, refs; by simplify_map_eq|].
      exists k', refs'. rewrite lookup_insert_ne by congruence. done.
    + intros (k' & refs' & [[<- <-]|[? ?]]%lookup_insert_Some & ?); [by left|]. right. by exists k', refs'.
Qed.

Lemma collectImageRefs_iff node ref : ref ∈ collectImageRefs node ↔ image_in node ref.
Proof.
  induction node as [l IH|m IH|v Hl Hm] using value_nested_ind.
  - cbn [collectImageRefs]. rewrite elem_of_union_list. split.
    + intros (refs & (child & -> & Hin)%list_elem_of_fmap & Hr).
      apply (image_inside _ child); [done|]. by apply (proj1 (Forall_forall _ _) IH).
    + inversion 1 as [| |? child ? Hin Hr]; subst. exists (collectImageRefs child).
      split; [by apply list_elem_of_fmap_2|]. by apply (proj1 (Forall_forall _ _) IH).
  - cbn [collectImageRefs]. rewrite elem_of_union, elem_of_fold_union. split.
    + intros [Hr|(k & refs & Hk & Hr)].
      * destruct (m !! "image") as [[| | | |s| | |]|] eqn:E; try (by apply not_elem_of_empty in Hr).
        case_bool_decide; [|by apply not_elem_of_empty in Hr]. apply elem_of_singleton in Hr as ->. by apply image_here.
      * rewrite lookup_fmap in Hk. destruct (m !! k) as [child|] eqn:E; [|done]. injection Hk as <-.
        apply (image_below _ k child); [done|]. by apply (IH k child).
    + inversion 1 as [? ? E Hne|? k child ? E Hr|]; subst.
      * left. rewrite E. rewrite bool_decide_true by done. by apply elem_of_singleton.
      * right. exists k, (collectImageRefs child). rewrite lookup_fmap, E. split; [done|]. by apply (IH k child).
  - destruct v; try (by destruct (Hl _ eq_refl)); try (by destruct (Hm _ eq_refl));
      (split; [by intros ?%not_elem_of_empty|by inversion 1]).
Qed.

(** ** Digests *)

Definition sha256 (digest : string) : Prop := ∃ hex,
  chars_of digest = chars_of "sha256:" ++ hex ∧ length hex = 64 ∧ Forall (λ c, is_lower_hex c = true) hex.

Lemma derives_repeated_One n p b s c b' s' c' :
  derives (repeated n (One p)) b s c b' s' c' →
  ∃ w, s = w ++ s' ∧ length w = n ∧ Forall (λ a, p a = true) w.
Proof.
  revert b s c. induction n as [|n IH]; intros b s c H.
  - apply derives_Empty_iff in H as (-> & -> & ->). by exists [].
  - change (repeated (S n) (One p)) with (Cat (One p) (repeated n (One p))) in H.
    apply derives_Cat_iff in H as (b1 & s1 & c1 & (a & -> & Ha & -> & ->)%derives_One_iff & H).
    apply IH in H as (w & -> & Hw & Hp). exists (a :: w). split_and!; [done|cbn; lia|by constructor].
Qed.

Lemma sha256Digest_sound digest : MatchString sha256Digest digest = true → sha256 digest.
Proof.
  intros (front & m & s' & b' & c' & Es & Hd)%MatchString_iff. unfold sha256Digest in Hd.
  apply derives_Cat_iff in Hd as (? & ? & ? & Hd & (He & -> & -> & ->)%derives_Look_iff).
  apply derives_Cat_iff in Hd as (? & ? & ? & Hd & (hex & -> & Hl & Hh)%derives_repeated_One).
  apply derives_Cat_iff in Hd as (b1 & s1 & c1 & (Hb & -> & -> & ->)%derives_Look_iff & (Hm & _ & _)%derives_literal_iff).
  assert (front = []) as ->.
  { destruct front as [|a front _] using rev_ind; [done|]. unfold after in Hb. by rewrite last_snoc in Hb. }
  cbn [app] in Es. exists hex. split_and!; [|done|done]. rewrite Es, Hm.
  apply bool_decide_eq_true in He. revert He. match goal with |- head ?s = None → _ => destruct s; [|done] end.
  by rewrite app_nil_r.
Qed.

Lemma validateDigests_sound indexDigest digests p digest :
  validateDigests indexDigest digests = None → digests !! p = Some digest → sha256 digest.
Proof.
  unfold validateDigests. case_match; [done|]. intros Hv Hp. apply sha256Digest_sound.
  destruct (MatchString sha256Digest digest) eqn:E; [done|]. exfalso.
  assert (Hin : Errorf "bad %s digest %q" [AStr (platform_String p); AStr digest] [] ∈
    omap (λ '(p, digest), if MatchString sha256Digest digest then None
            else Some (Errorf "bad %s digest %q" [AStr (platform_String p); AStr digest] [])) (map_to_list digests)).
  { apply list_elem_of_omap. exists (p, digest). rewrite E. split; [by apply elem_of_map_to_list|done]. }
  destruct (omap _ _); [by apply not_elem_of_nil in Hin|done].
Qed.

(** ** Classification *)

Definition tag_of (ref : string) : string := TrimPrefix ref (repoOf ref +:+ ":").

Definition named_image (ref name : string) : chartImage := ChartImage name (repoOf ref) (tag_of ref).

(** The latest of the references seen that go by a name. *)
Definition latest (refs : list string) (name : string) : option string :=
  last (filter (λ ref, classify (repoOf ref) = Some name) refs).

(** What the table holds of the references seen: under each name the image of the
    latest reference that goes by it, and all of them have its tag. *)
Record classified (refs : list string) (imageByName : gmap string chartImage) : Prop := {
  cl_seen ref : ref ∈ refs → ∃ name image, classify (repoOf ref) = Some name ∧
    imageByName !! name = Some image ∧ ci_tag image = tag_of ref;
  cl_latest name : imageByName !! name = (λ ref, named_image ref name) <$> latest refs name;
}.

Lemma latest_snoc refs ref name :
  latest (refs ++ [ref]) name = if decide (classify (repoOf ref) = Some name) then Some ref else latest refs name.
Proof.
  unfold latest. rewrite filter_app, filter_cons, filter_nil. case_decide; [by rewrite last_snoc|by rewrite app_nil_r].
Qed.

Lemma latest_elem refs name ref :
  latest refs name = Some ref → ref ∈ refs ∧ classify (repoOf ref) = Some name.
Proof.
  unfold latest. intros E%last_Some. destruct E as [l E].
  assert (Hin : ref ∈ filter (λ ref, classify (repoOf ref) = Some name) refs) by (rewrite E; set_solver).
  by apply list_elem_of_filter in Hin as [??].
Qed.

Lemma classify_ref_inv refs ref m m' :
  classified refs m → classify_ref m ref = Ok m' → classified (refs ++ [ref]) m'.
Proof.
  intros [Hs Hf]. unfold classify_ref. destruct (classify (repoOf ref)) as [name|] eqn:Ec; [|done].
  fold (tag_of ref). intros Hm'.
  assert (m' = <[name := named_image ref name]> m ∧ ∀ old, m !! name = Some old → ci_tag old = tag_of ref) as [-> Hold].
  { destruct (m !! name) as [old|] eqn:E; [case_bool_decide as Ht; [done|]|]; injection Hm' as <-; (split; [done|]).
    - intros ? [= <-]. by destruct (decide (ci_tag old = tag_of ref)).
    - done. }
  split.
  - intros r [Hr| ->%list_elem_of_singleton]%elem_of_app.
    + destruct (Hs r Hr) as (n & image & Hn & Hi & Ht). destruct (decide (n = name)) as [->|].
      * exists name, (named_image ref name). rewrite lookup_insert_eq. split_and!; [done..|].
        rewrite <- Ht. symmetry. by apply Hold.
      * exists n, image. by rewrite lookup_insert_ne.
    + exists name, (named_image ref name). by rewrite lookup_insert_eq.
  - intros n. rewrite latest_snoc. destruct (decide (n = name)) as [->|Hne].
    + by rewrite lookup_insert_eq, decide_True.
    + rewrite lookup_insert_ne, decide_False by congruence. apply Hf.
Qed.

Lemma classify_refs_inv refs done_ m m' :
  classified done_ m → classify_refs m refs = Ok m' → classified (done_ ++ refs) m'.
Proof.
  revert done_ m. induction refs as [|ref refs IH]; intros done_ m Hi; cbn [classify_refs].
  - intros [= <-]. by rewrite app_nil_r.
  - destruct (classify_ref m ref) as [m1|] eqn:E; [|done]. cbn. intros H.
    apply (IH (done_ ++ [ref]) m1) in H; [by rewrite <- app_assoc in H|by eapply classify_ref_inv].
Qed.

Section theorems.
Context `{GoSort} (Unmarshal : string → result value).

(** The references of a rendered chart: the images its documents name. *)
Definition manifest_ref (manifest ref : string) : Prop :=
  ∃ document node, document ∈ regexp_Split yamlDocument manifest ∧ TrimSpace document ≠ "" ∧
    Unmarshal document = Ok node ∧ image_in node ref.

Lemma imageRefs_exact manifest refs :
  imageRefs Unmarshal manifest = Ok refs → ∀ ref, ref ∈ refs ↔ manifest_ref manifest ref.
Proof.
  unfold imageRefs. destruct (mapR _ _) as [sets|] eqn:E; [|done]. intros [= <-] ref.
  rewrite sort_Strings_Permutation, elem_of_elements, elem_of_union_list. apply mapR_Ok in E.
  unfold manifest_ref. split.
  - intros (s & Hs & Hr). apply list_elem_of_lookup in Hs as [i Hi].
    destruct (Forall2_lookup_r _ _ _ _ _ E Hi) as (d & Hd & Hds). unfold document_refs in Hds.
    case_bool_decide; [injection Hds as <-; by apply not_elem_of_empty in Hr|].
    destruct (Unmarshal d) as [node|] eqn:En; [|done]. injection Hds as <-.
    exists d, node. split_and!; [by eapply list_elem_of_lookup_2|done|done|by apply collectImageRefs_iff].
  - intros (d & node & Hd & Hne & En & Hr). apply list_elem_of_lookup in Hd as [i Hi].
    destruct (Forall2_lookup_l _ _ _ _ _ E Hi) as (s & Hs & Hds). unfold document_refs in Hds.
    rewrite bool_decide_false, En in Hds by done. injection Hds as <-.
    exists (collectImageRefs node). split; [by eapply list_elem_of_lookup_2|by apply collectImageRefs_iff].
Qed.

Lemma elem_of_images_of m image : image ∈ images_of m ↔ ∃ name, m !! name = Some image.
Proof.
  unfold images_of. rewrite sort_Slice_Permutation, list_elem_of_fmap. split.
  - intros ([name i] & -> & Hin%elem_of_map_to_list). by exists name.
  - intros (name & Hn). exists (name, image). split; [done|by apply elem_of_map_to_list].
Qed.

(** The image locked for a name: that of the greatest reference of the chart that
    goes by it, all of which have one tag. *)
Definition locked_as (manifest : string) (image : chartImage) : Prop :=
  ∃ ref, manifest_ref manifest ref ∧ classify (repoOf ref) = Some (ci_name image) ∧
    image = named_image ref (ci_name image) ∧
    ∀ ref', manifest_ref manifest ref' → classify (repoOf ref') = Some (ci_name image) →
      String.le ref' ref ∧ tag_of ref' = tag_of ref.

(** No other repository of the chart goes by the name of this one. *)
Definition sole_repository (manifest ref : string) : Prop :=
  ∀ ref', manifest_ref manifest ref' → classify (repoOf ref') = classify (repoOf ref) → repoOf ref' = repoOf ref.

Lemma StronglySorted_filter {A} (R : relation A) (P : A → Prop) `{!∀ x, Decision (P x)} l :
  StronglySorted R l → StronglySorted R (filter P l).
Proof.
  induction 1 as [|x l Hl IH Hx]; [constructor|]. rewrite filter_cons. case_decide; [|done].
  constructor; [done|]. rewrite Forall_forall in Hx |- *. intros y [_ Hy]%list_elem_of_filter. by apply Hx.
Qed.

Lemma latest_greatest refs name ref ref' :
  StronglySorted String.le refs → latest refs name = Some ref →
  ref' ∈ refs → classify (repoOf ref') = Some name → String.le ref' ref.
Proof.
  intros Hs (l & E)%last_Some Hin Hc.
  assert (Hf : StronglySorted String.le (filter (λ ref, classify (repoOf ref) = Some name) refs))
    by by apply StronglySorted_filter.
  assert (Hi : ref' ∈ filter (λ ref, classify (repoOf ref) = Some name) refs) by by apply list_elem_of_filter.
  rewrite E in Hf, Hi. apply elem_of_app in Hi as [Hi| ->%list_elem_of_singleton]; [|done].
  apply StronglySorted_app in Hf as (Hf & _). apply Hf; [done|by left].
Qed.

Lemma imageRefs_sorted manifest refs : imageRefs Unmarshal manifest = Ok refs → StronglySorted String.le refs.
Proof. unfold imageRefs. destruct (mapR _ _); [|done]. intros [= <-]. apply sort_Strings_sorted. Qed.

(** Every image of the chart is accepted under a known name, and nothing else. *)
Lemma imagesFromManifest_exact manifest images :
  imagesFromManifest Unmarshal manifest = Ok images →
  (∀ ref, manifest_ref manifest ref → ∃ image, image ∈ images ∧ classify (repoOf ref) = Some (ci_name image)) ∧
  (∀ image, image ∈ images → locked_as manifest image) ∧
  (∀ ref, manifest_ref manifest ref → sole_repository manifest ref →
     ∃ name, classify (repoOf ref) = Some name ∧ named_image ref name ∈ images) ∧
  NoDup (ci_name <$> images).
Proof.
  unfold imagesFromManifest. destruct (imageRefs Unmarshal manifest) as [refs|] eqn:Er; [|done]. cbn.
  destruct (classify_refs ∅ refs) as [m|] eqn:Em; [|done]. intros [= <-].
  apply (classify_refs_inv refs []) in Em as [Hs Hf].
  2: { split; [by intros ref ?%not_elem_of_nil|]. intros name. by rewrite lookup_empty. }
  cbn [app] in *. pose proof (imageRefs_exact _ _ Er) as Hrefs. pose proof (imageRefs_sorted _ _ Er) as Hsorted.
  assert (Hlocked : ∀ name image, m !! name = Some image → ci_name image = name ∧ locked_as manifest image).
  { intros name image Hn. rewrite Hf in Hn. apply fmap_Some in Hn as (ref & Hl & ->). split; [done|].
    destruct (latest_elem _ _ _ Hl) as [Hin Hc]. exists ref. split_and!; [by apply Hrefs|done|done|].
    intros ref' Href'%Hrefs Hc'. split; [by eapply latest_greatest|].
    destruct (Hs ref' Href') as (n & image & Hn & Hi & Ht). assert (n = name) as -> by (cbn in Hc'; congruence).
    rewrite Hf, Hl in Hi. cbn in Hi. injection Hi as <-. by rewrite <- Ht. }
  split_and!.
  - intros ref Href%Hrefs. destruct (Hs ref Href) as (name & image & Hc & Hi & _). exists image.
    split; [apply elem_of_images_of; by exists name|]. by destruct (Hlocked _ _ Hi) as [-> _].
  - intros image (name & Hn)%elem_of_images_of. by destruct (Hlocked _ _ Hn).
  - intros ref Href Hsole. destruct (Hs ref (proj2 (Hrefs _) Href)) as (name & image & Hc & Hi & Ht).
    exists name. split; [done|]. destruct (Hlocked _ _ Hi) as [En (ref' & Href' & Hc' & Ei & _)].
    rewrite En in Hc', Ei. replace (named_image ref name) with image; [apply elem_of_images_of; by exists name|].
    rewrite Ei in Ht |- *. cbn in Ht. unfold named_image. by rewrite Ht, (Hsole ref' Href') by congruence.
  - unfold images_of. rewrite sort_Slice_Permutation.
    assert (Hk : ci_name <$> (map_to_list m).*2 = (map_to_list m).*1); [|rewrite Hk; apply NoDup_fst_map_to_list].
    rewrite <- list_fmap_compose. apply list_fmap_ext. intros i [name image] Hin.
    apply list_elem_of_lookup_2, elem_of_map_to_list in Hin. cbn. by destruct (Hlocked _ _ Hin).
Qed.

(** ** Resolution *)

(** What the answers of a resolver promise of a reference. *)
Class digestResolverLaws W `{digestResolver W}
    (answers : string → list platform → string → gmap platform string → Prop) : Prop :=
  resolve_answers ref platforms w index digests w' :
    resolve ref platforms w = (Ok (index, digests), w') → answers ref platforms index digests.

Definition resolved_for (answers : string → list platform → string → gmap platform string → Prop)
    (platforms : list platform) (image : chartImage) (r : resolvedImage) : Prop :=
  ri_chartImage r = image ∧
  answers (reference image) platforms (ri_indexDigest r) (ri_digestPerPlatform r) ∧
  ∀ p digest, ri_digestPerPlatform r !! p = Some digest → sha256 digest.

Lemma resolveImages_Ok `{digestResolverLaws W answers} images platforms done_ w resolved w' :
  resolveImages images platforms done_ w = (Ok resolved, w') →
  ∃ news, resolved = done_ ++ news ∧ Forall2 (resolved_for answers platforms) images news.
Proof.
  revert done_ w. induction images as [|image images IH]; intros done_ w; cbn [resolveImages].
  - intros [= <- <-]. exists []. by rewrite app_nil_r.
  - destruct (resolve _ _ w) as [[[index digests]|err] w1] eqn:E; [|done].
    destruct (validateDigests index digests) eqn:Ev; [done|].
    intros (news & -> & Hn)%IH. eexists (_ :: news). rewrite <- app_assoc. split; [done|].
    constructor; [|done]. split_and!; [done|by eapply resolve_answers|].
    intros p digest. by apply (validateDigests_sound index).
Qed.

Lemma pick_manifests_covers manifests platforms digests digests' :
  pick_manifests manifests platforms digests = Ok digests' →
  (∀ p, p ∈ platforms → ∃ digest, digests' !! p = Some digest ∧ platform_matches p manifests = [digest]) ∧
  (∀ p, p ∉ platforms → digests' !! p = digests !! p).
Proof.
  revert digests. induction platforms as [|p platforms IH]; intros digests; cbn [pick_manifests].
  - intros [= <-]. split; [by intros p ?%not_elem_of_nil|done].
  - destruct (platform_matches p manifests) as [|digest [|]] eqn:E; [done| |done].
    intros [H1 H2]%IH. split.
    + intros q [->|Hq]%elem_of_cons; [|by apply H1].
      destruct (decide (p ∈ platforms)); [by apply H1|]. exists digest. by rewrite H2, lookup_insert_eq.
    + intros q [? ?]%not_elem_of_cons. rewrite H2, lookup_insert_ne by done. done.
Qed.

Lemma same_platform_covers q digest platforms digests digests' :
  same_platform q digest platforms digests = Ok digests' →
  (∀ p, p ∈ platforms → p = q ∧ digests' !! p = Some digest) ∧
  (∀ p, p ∉ platforms → digests' !! p = digests !! p).
Proof.
  revert digests. induction platforms as [|p platforms IH]; intros digests; cbn [same_platform].
  - intros [= <-]. split; [by intros p ?%not_elem_of_nil|done].
  - case_bool_decide as Hp; [done|]. assert (p = q) as -> by (by destruct (decide (p = q))).
    intros [H1 H2]%IH. split.
    + intros p [->|Hq]%elem_of_cons; [|by apply H1].
      destruct (decide (q ∈ platforms)); [by apply H1|]. split; [done|]. by rewrite H2, lookup_insert_eq.
    + intros p [? ?]%not_elem_of_cons. rewrite H2, lookup_insert_ne by done. done.
Qed.

Section registry_laws.
Context {Reference : Type} (ParseReference : string → result Reference) (Get : nat → Reference → result Descriptor).

(** *** The reads of one tag *)

Lemma fetch_loop_spec attempts err ref calls r calls' :
  fetch_loop Get attempts err ref calls = (r, calls') →
  calls ≤ calls' ≤ calls + attempts ∧ match r with Ok d => ∃ n, calls' = S n ∧ calls ≤ n ∧ Get n ref = Ok d | Fail _ => True end.
Proof.
  revert err calls. induction attempts as [|attempts IH]; intros err calls; cbn [fetch_loop].
  - intros [= <- <-]. split; [lia|done].
  - destruct (Get calls ref) as [d|e] eqn:E.
    + intros [= <- <-]. split; [lia|]. exists calls. split_and!; [done|lia|done].
    + intros [? H']%IH. split; [lia|]. destruct r as [d|]; [|done]. destruct H' as (n & ? & ? & ?).
      exists n. split_and!; [done|lia|done].
Qed.

(** Calls of increasing number that answered with one digest. *)
Inductive agreed (digest : string) (ref : Reference) : nat → list nat → nat → Prop :=
  | agreed_nil calls : agreed digest ref calls [] calls
  | agreed_cons calls n d reads calls' :
      calls ≤ n → S n ≤ calls + registryAttempts → Get n ref = Ok d → d_Digest d = digest →
      agreed digest ref (S n) reads calls' → agreed digest ref calls (n :: reads) calls'.

Lemma fetch_agreed ref calls d calls' digest reads calls'' :
  fetchDescriptor Get ref calls = (Ok d, calls') → d_Digest d = digest →
  agreed digest ref calls' reads calls'' → ∃ n, agreed digest ref calls (n :: reads) calls'' ∧ Get n ref = Ok d.
Proof.
  intros [Hb (n & -> & ? & ?)]%fetch_loop_spec Hd Ha. exists n. split; [|done].
  eapply agreed_cons; [done|lia|done|done|done].
Qed.

Lemma read_again_spec n first ref calls r calls' :
  read_again Get n first ref calls = (r, calls') →
  calls' ≤ calls + n * registryAttempts ∧
  match r with
  | Ok d => d = first ∧ ∃ reads, length reads = n ∧ agreed (d_Digest first) ref calls reads calls'
  | Fail _ => True
  end.
Proof.
  revert calls. induction n as [|n IH]; intros calls; cbn [read_again].
  - intros [= <- <-]. split; [lia|]. split; [done|]. exists []. split; [done|constructor].
  - destruct (fetchDescriptor Get ref calls) as [[again|e] calls1] eqn:E.
    + pose proof E as [Hb _]%fetch_loop_spec. case_bool_decide as Hd.
      * intros [= <- <-]. split; [lia|done].
      * intros [? Hr]%IH. split; [lia|]. destruct r as [d|]; [|done]. destruct Hr as [-> (reads & Hl & Ha)].
        split; [done|]. apply (fetch_agreed _ _ _ _ (d_Digest first)) with (1 := E) in Ha as (k & Hk & _).
        -- exists (k :: reads). split; [cbn; lia|done].
        -- by destruct (decide (d_Digest again = d_Digest first)).
    + intros [= <- <-]. apply fetch_loop_spec in E as [Hb _]. split; [lia|done].
Qed.

(** A tag is taken for what it points to only when every one of the reads
    asked for, each at a call of its own, answered with that digest; the registry
    is called at most three times a read. *)
Theorem resolveStableDescriptor_spec ref reads calls r calls' :
  resolveStableDescriptor Get ref reads calls = (r, calls') →
  let n := Z.to_nat (if (reads <? 1)%Z then defaultStabilityReads else reads) in
  calls' ≤ calls + n * registryAttempts ∧
  match r with
  | Ok d => ∃ turns, length turns = n ∧ agreed (d_Digest d) ref calls turns calls' ∧ ∃ turn, turn ∈ turns ∧ Get turn ref = Ok d
  | Fail _ => True
  end.
Proof.
  unfold resolveStableDescriptor. set (z := if (reads <? 1)%Z then defaultStabilityReads else reads).
  assert (Hz : (1 ≤ z)%Z) by (unfold z, defaultStabilityReads; destruct (Z.ltb_spec reads 1); lia).
  assert (En : Z.to_nat z = S (Z.to_nat (z - 1))) by lia. cbv zeta. rewrite En. clear En.
  destruct (fetchDescriptor Get ref calls) as [[first|e] calls1] eqn:E.
  - pose proof E as [Hb _]%fetch_loop_spec.
    intros [? Hr]%read_again_spec. split; [lia|].
    destruct r as [d|]; [|done]. destruct Hr as [-> (turns & Hl & Ha)].
    destruct (fetch_agreed _ _ _ _ _ _ _ E eq_refl Ha) as (k & Hk & Hg). exists (k :: turns).
    split_and!; [cbn [length]; by rewrite Hl|done|]. exists k. split; [by left|done].
  - intros [= <- <-]. apply fetch_loop_spec in E as [Hb _]. unfold registryAttempts in *. split; [lia|done].
Qed.
(** The descriptor a reference was taken for: read as often as asked, always with
    one digest. *)
Definition read_as (reads : Z) (ref : string) (d : Descriptor) : Prop :=
  ∃ reference turns calls calls', ParseReference ref = Ok reference ∧
    length turns = Z.to_nat (if (reads <? 1)%Z then defaultStabilityReads else reads) ∧
    agreed (d_Digest d) reference calls turns calls' ∧ ∃ turn, turn ∈ turns ∧ Get turn reference = Ok d.

(** The digest a descriptor gives for a platform, with that of the index: the
    digest of the only manifest of the index for the platform, or that of an image
    of this platform. *)
Definition platform_digest (d : Descriptor) (p : platform) (index digest : string) : Prop :=
  if d_IsIndex d then
    index = d_Digest d ∧ ∃ manifests, d_Manifests d = Ok manifests ∧ platform_matches p manifests = [digest]
  else index = "" ∧ d_Config d = Ok p ∧ digest = d_Digest d.

Lemma digests_of_spec d platforms index digests :
  digests_of d platforms = Ok (index, digests) →
  ∀ p, p ∈ platforms → ∃ digest, digests !! p = Some digest ∧ platform_digest d p index digest.
Proof.
  unfold digests_of, platform_digest. intros E p Hp. destruct (d_IsIndex d); cbn in E.
  - unfold manifestDigestsPerPlatform in E. destruct (d_Manifests d) as [ms|]; [|done]. cbn in E.
    destruct (pick_manifests ms platforms ∅) as [ds|] eqn:Ep; [|done]. injection E as <- <-.
    destruct (proj1 (pick_manifests_covers _ _ _ _ Ep) p Hp) as (digest & ? & ?). exists digest. naive_solver.
  - unfold singleArchDigests in E. destruct (d_Config d) as [q|]; [|done]. cbn in E.
    destruct (same_platform q _ platforms ∅) as [ds|] eqn:Ep; [|done]. injection E as <- <-.
    destruct (proj1 (same_platform_covers _ _ _ _ _ Ep) p Hp) as [-> ?]. by eexists.
Qed.

Definition registry_answers (reads : Z) (ref : string) (platforms : list platform) (index : string)
    (digests : gmap platform string) : Prop :=
  ∃ d, read_as reads ref d ∧
    ∀ p, p ∈ platforms → ∃ digest, digests !! p = Some digest ∧ platform_digest d p index digest.

#[export] Instance remote_laws reads :
  @digestResolverLaws nat (remote_resolve ParseReference Get reads) (registry_answers reads).
Proof.
  intros ref platforms w index digests w'. unfold resolve, remote_resolve.
  destruct (ParseReference ref) as [reference|] eqn:Ep; [|done].
  destruct (resolveStableDescriptor Get reference reads w) as [[d|] calls] eqn:Es; [|done].
  intros [= E _]. exists d. split; [|by apply digests_of_spec].
  destruct (resolveStableDescriptor_spec reference reads w (Ok d) calls Es) as (_ & turns & Hl & Ha & Ht).
  by exists reference, turns, w, calls.
Qed.

(** ** Locks *)

(** What the lock of a platform says of an image, given what its reference was
    taken for. *)
Definition locks_image (p : platform) (image : chartImage) (d : Descriptor) (locked : lockedImage) : Prop :=
  li_Name locked = ci_name image ∧ li_Source locked = reference image ∧
  ∃ digest, platform_digest d p (li_IndexDigest locked) digest ∧ sha256 digest ∧
    li_Image locked = ci_repo image +:+ "@" +:+ digest.

Record lock_for (images : list (chartImage * Descriptor)) (version : string) (p : platform) (lock : imageLock) : Prop := {
  lf_platform : l_Platform lock = p;
  lf_version : l_Version lock = ensureVPrefix version;
  lf_images : ∃ locked, l_Images lock ≡ₚ locked ∧ Forall2 (λ i, locks_image p i.1 i.2) images locked;
}.

(** One descriptor for each image, whatever the platform. *)
Lemma resolved_descriptors reads platforms images resolved :
  Forall2 (resolved_for (registry_answers reads) platforms) images resolved →
  ∃ descriptors, Forall2 (λ image d, read_as reads (reference image) d) images descriptors ∧
    ∀ p, p ∈ platforms → Forall2 (λ i, locks_image p i.1 i.2) (zip images descriptors) (lock_image p <$> resolved).
Proof.
  induction 1 as [|image r images resolved (<- & (d & Hd & Hp) & Hs) _ (ds & Hds & IH)].
  { exists []. split; [constructor|]. intros p _. constructor. }
  exists (d :: ds). split; [by constructor|]. intros p Hin. constructor; [|by apply IH].
  destruct (Hp p Hin) as (digest & E & Hdigest). split_and!; [done|done|]. exists digest.
  split_and!; [done|by eapply Hs|]. unfold lock_image. cbn. by rewrite E.
Qed.
End registry_laws.

Section writing.
Context (Marshal : imageLock → result string) (Join : string → string → string).
Context (MkdirAll : string → option error) (WriteFile : nat → string → option error).

Definition lock_file (opts : options) (resolved : list resolvedImage) (p : platform) (file : string * string) : Prop :=
  let lock := buildLock (o_version opts) p resolved in
  Marshal lock = Ok file.2 ∧ file.1 = lock_path Join (o_outDir opts) lock.

Lemma write_each_Ok opts resolved platforms written written' :
  write_each Marshal Join WriteFile opts resolved platforms written = (None, written') →
  ∃ news, written' = written ++ news ∧ Forall2 (lock_file opts resolved) platforms news.
Proof.
  revert written. induction platforms as [|p platforms IH]; intros written; cbn [write_each].
  - intros [= <-]. exists []. by rewrite app_nil_r.
  - unfold writeLock. destruct (Marshal _) as [bytes|] eqn:Em; [|done].
    destruct (WriteFile _ _); [done|]. intros (news & -> & Hn)%IH. eexists (_ :: news).
    rewrite <- app_assoc. split; [done|]. by constructor.
Qed.

Context (ParseInt : string → result Z) (helm : string → list string → result string).
Context {Reference : Type} (ParseReference : string → result Reference) (Get : nat → Reference → result Descriptor).

(** C37: when the command succeeds, every image that any document of the rendered
    chart names has a known name, and the images locked are, one for each name and
    for no other, that of the greatest reference that goes by it, repository and
    tag; so an image is locked as the chart names it unless another repository goes
    by the same name, and all references of a name have one tag.  There is one file
    per platform, in their order, with the version; in it each image is pinned, in
    its repository, to the sha256 digest that the registry gave for this platform:
    the only manifest for it in the index, or an image of this platform, that the
    tag led to at each of the reads asked for; the same index for all platforms. *)
Theorem run_locks args opts written :
  parseFlags ParseInt args = Ok opts → o_verifyOnly opts = false →
  run Unmarshal Marshal Join MkdirAll WriteFile ParseInt helm ParseReference Get args = (None, written) →
  ∃ manifest images descriptors,
    renderChart helm opts = Ok manifest ∧
    (∀ ref, manifest_ref manifest ref → ∃ image, image ∈ images ∧ classify (repoOf ref) = Some (ci_name image)) ∧
    (∀ image, image ∈ images → locked_as manifest image) ∧
    (∀ ref, manifest_ref manifest ref → sole_repository manifest ref →
       ∃ name, classify (repoOf ref) = Some name ∧ named_image ref name ∈ images) ∧
    NoDup (ci_name <$> images) ∧
    Forall2 (λ image d, read_as ParseReference Get (o_stabilityReads opts) (reference image) d) images descriptors ∧
    Forall2 (λ p file, ∃ lock, Marshal lock = Ok file.2 ∧ file.1 = lock_path Join (o_outDir opts) lock ∧
       lock_for (zip images descriptors) (o_version opts) p lock) (o_platforms opts) written.
Proof.
  intros Hflags Hverify. unfold run. rewrite Hflags.
  destruct (renderChart helm opts) as [manifest|]; [|done]. cbn [map_error].
  destruct (imagesFromManifest Unmarshal manifest) as [images|] eqn:Ei; [|done]. rewrite Hverify.
  destruct (resolveImages _ _ _ _) as [[resolved|] w] eqn:Er; cbn [fst]; [|done].
  unfold writeLocks. destruct (MkdirAll _); [done|]. intros (news & -> & Hn)%write_each_Ok. cbn [app].
  apply (resolveImages_Ok (H1 := remote_laws ParseReference Get _)) in Er as (rs & -> & Hr). cbn [app] in Hn.
  apply resolved_descriptors in Hr as (descriptors & Hd & Hl).
  exists manifest, images, descriptors. destruct (imagesFromManifest_exact _ _ Ei) as (H1 & H2 & H3 & H4).
  split_and!; [done..|]. apply Forall2_same_length_lookup in Hn as [Hlen Hn].
  apply Forall2_same_length_lookup. split; [done|]. intros i p file Hp Hfile.
  destruct (Hn i p file Hp Hfile) as [Hm Hf]. eexists. split_and!; [exact Hm|exact Hf|].
  split; [done|done|]. exists (lock_image p <$> rs). split; [apply sort_Slice_Permutation|].
  apply Hl. by eapply list_elem_of_lookup_2.
Qed.
End writing.
End theorems.

(** ** A small chart *)

Definition sample_digest (c : ascii) : string := "sha256:" +:+ string_of (replicate 64 c).

Definition pod_of (image : string) : value := VMap {["spec" := VArray [VMap {["image" := VString image]}]]}.

Definition sample_manifest : string :=
  "operator" +:+ String newline_char ("---" +:+ String newline_char "kubectl").

Definition sample_Unmarshal (document : string) : result value :=
  if bool_decide (String.prefix "operator" document)
  then Ok (pod_of "ghcr.io/dsx-ai-factory/workload-map/karta-operator:1.2.3")
  else Ok (pod_of "registry.k8s.io/kubectl:1.30").

Definition sample_Get (calls : nat) (ref : string) : result Descriptor :=
  if bool_decide (calls = 0) then Fail (External "timeout")
  else Ok (MkDescriptor (sample_digest "a") true
             (Ok [ManifestEntry (Some (Platform "linux" "amd64")) (sample_digest "b");
                  ManifestEntry (Some (Platform "linux" "arm64")) (sample_digest "c")])
             (Fail (External "no config"))).

(** A text of a lock that tells its images *)
Definition strings_of (lock : imageLock) : string :=
  foldr (λ image text, li_Image image +:+ " " +:+ text) "" (l_Images lock).

Definition sample_run (WriteFile : nat → string → option error) (Unmarshal : string → result value) (args : list string)
    : option error * files :=
  run (H := insertion_GoSort) Unmarshal (λ lock, Ok (strings_of lock)) (λ dir file, dir +:+ "/" +:+ file) (λ _, None) WriteFile
    (λ _, Ok 2%Z) (λ _ _, Ok sample_manifest) Ok sample_Get args.

Definition sample_args : list string := ["--version"; "v1.2.3"; "-stability-reads=2"].

Definition sample_options : options :=
  MkOptions "../../charts/karta" "1.2.3" [Platform "linux" "amd64"; Platform "linux" "arm64"] "../../dist" "helm" [] false 2.

Definition sample_written : files := (sample_run (λ _ _, None) sample_Unmarshal sample_args).2.

(** Each file has the digests of its platform. *)
Example sample_digests :
  (snd <$> sample_written) =
  (λ c, "registry.k8s.io/kubectl@" +:+ sample_digest c +:+ " ghcr.io/dsx-ai-factory/workload-map/karta-operator@" +:+
        sample_digest c +:+ " ") <$> ["b"; "c"]%char.
Proof. vm_compute. reflexivity. Qed.

Lemma run_locks_witness :
  (fst <$> sample_written) = ["../../dist/imagelock-karta-v1.2.3-linux-amd64.yaml"; "../../dist/imagelock-karta-v1.2.3-linux-arm64.yaml"] ∧
  Forall2 (λ p file, ∃ images lock, l_Platform lock = p ∧ lock_for images "1.2.3" p lock ∧ strings_of lock = file.2)
    (o_platforms sample_options) sample_written.
Proof.
  split; [vm_compute; reflexivity|].
  destruct (run_locks (H := insertion_GoSort) sample_Unmarshal (λ lock, Ok (strings_of lock))
    (λ dir file, dir +:+ "/" +:+ file) (λ _, None) (λ _ _, None) (λ _, Ok 2%Z) (λ _ _, Ok sample_manifest) Ok sample_Get
    sample_args sample_options sample_written) as (manifest & images & descriptors & _ & _ & _ & _ & _ & _ & Hf).
  - vm_compute. reflexivity.
  - reflexivity.
  - vm_compute. reflexivity.
  - eapply Forall2_impl; [exact Hf|]. intros p file (lock & [= Hm] & _ & Hl). exists (zip images descriptors), lock.
    split_and!; [apply Hl|exact Hl|done].
Defined.

Lemma resolveStableDescriptor_spec_witness :
  ∃ d calls, resolveStableDescriptor sample_Get "r" 2 0 = (Ok d, calls) ∧ calls ≤ 6 ∧
    ∃ turns, length turns = 2 ∧ agreed sample_Get (d_Digest d) "r" 0 turns calls ∧
      ∃ turn, turn ∈ turns ∧ sample_Get turn "r" = Ok d.
Proof.
  destruct (resolveStableDescriptor sample_Get "r" 2 0) as [[d|] calls] eqn:E; [|exfalso; vm_compute in E; discriminate E].
  exists d, calls. split; [done|].
  exact (resolveStableDescriptor_spec sample_Get "r" 2 0 (Ok d) calls E).
Defined.

(** A write that fails leaves the locks written before it. *)
Example partial_locks :
  length (sample_run (λ n _, if bool_decide (n = 1) then Some (External "disk full") else None)
            sample_Unmarshal sample_args).2 = 1.
Proof. vm_compute. reflexivity. Qed.

(** Two repositories of one name and tag: only one of them is locked. *)
Example shadowed_repository :
  match imagesFromManifest (H := insertion_GoSort)
          (λ document, Ok (pod_of (if bool_decide (String.prefix "operator" document)
                                   then "ghcr.io/a/karta-operator:1" else "ghcr.io/b/karta-operator:1"))) sample_manifest with
  | Ok images => images
  | Fail _ => []
  end = [ChartImage "operator" "ghcr.io/b/karta-operator" "1"].
Proof. vm_compute. reflexivity. Qed.
