(* ===== verification/Release.v ===== *)
(** * Release: the checks before a release is published

    Models [hack/release/main.go]: the tags and the module file of a release, the
    artifacts GoReleaser left, and the Homebrew cask it generated, which must
    install exactly what was built.  Files, paths, the decoding of JSON, the
    digest of a text, the parsing of module files and the commands that are run
    are parameters.  What is printed is kept as format and arguments. *)

From S2P Require Import Prelude Text Value Flag.
From Stdlib Require Import Ascii.

(** [run "/usr/bin/xattr", args: ["-dr", "com.apple.quarantine", "{{staged_path}}/kli"]],
    with its quotes *)
Definition quarantineStep : string :=
  "run " +:+ quote "/usr/bin/xattr" +:+ ", args: [" +:+ quote "-dr" +:+ ", " +:+ quote "com.apple.quarantine" +:+ ", " +:+
  quote "{{staged_path}}/kli" +:+ "]".

Local Open Scope re_scope.

Definition numbers3 : re :=
  plus (One is_digit) ⋅ literal "." ⋅ plus (One is_digit) ⋅ literal "." ⋅ plus (One is_digit).

(** [[0-9]+\.[0-9]+\.[0-9]+] *)
Definition semanticVersion : re := begin_text ⋅ numbers3 ⋅ end_text.

(** One of five words, a space, and a text in quotes *)
Definition stanza_word : re :=
  literal "version" ∥ literal "sha256" ∥ literal "url" ∥ literal "homepage" ∥ literal "binary".
Definition unquoted : re := Star (One (λ c, negb (Ascii.eqb c double_quote_char))).
Definition caskStanza : re :=
  begin_text ⋅ Group 1 stanza_word ⋅ literal (String " " (String double_quote_char "")) ⋅ Group 2 unquoted ⋅
  literal (String double_quote_char "") ⋅ end_text.

Local Close Scope re_scope.

Definition cliPlatforms := ["linux_amd64"; "linux_arm64"; "darwin_amd64"; "darwin_arm64"].
Definition binaryScope := ["cask"].
Definition quarantineScope := ["cask"; "postflight_steps"; "on_macos"].

(** ** The cask *)

Record caskPackage := Package { pk_sha256 : string; pk_url : string }.

(** What has been read of the cask: [blocks] are those open, the innermost last. *)
Record cask := MkCask {
  ck_packages : gmap string caskPackage;
  ck_blocks : list string;
  ck_version : string;
  ck_homepage : string;
  ck_installsKli : bool;
  ck_removesQuarantine : bool;
}.

Definition no_cask : cask := MkCask ∅ [] "" "" false false.

Definition arrows (blocks : list string) : arg := AStrs blocks.

(** [for _, block := range blocks]: the last block of each kind counts. *)
Definition select_block (selected : string * string) (block : string) : string * string :=
  let '(goos, goarch) := selected in
  if bool_decide (block = "on_macos") then ("darwin", goarch)
  else if bool_decide (block = "on_linux") then ("linux", goarch)
  else if bool_decide (block = "on_arm") then (goos, "arm64")
  else if bool_decide (block = "on_intel") then (goos, "amd64")
  else selected.

Definition platform_of (blocks : list string) : option string :=
  let '(goos, goarch) := foldl select_block ("", "") blocks in
  if bool_decide (goos = "") || bool_decide (goarch = "") then None else Some (goos +:+ "_" +:+ goarch).

Definition stanza_of (line : string) : option (string * string) :=
  (λ match_, (submatch match_ 1, submatch match_ 2)) <$> FindStringSubmatch caskStanza line.

(** [if *field != "" {..}; *field = value] *)
Definition set_field (stanza platform value : string) (pkg : caskPackage) : result caskPackage :=
  let twice := Errorf "cask sets %s twice for %s" [AStr stanza; AStr platform] [] in
  if bool_decide (stanza = "sha256") then
    if bool_decide (pk_sha256 pkg ≠ "") then Fail twice else Ok (Package value (pk_url pkg))
  else
    if bool_decide (pk_url pkg ≠ "") then Fail twice else Ok (Package (pk_sha256 pkg) value).

Definition read_stanza (stanza value : string) (st : cask) : result cask :=
  let '(MkCask packages blocks version homepage installs removes) := st in
  if bool_decide (stanza = "version") then Ok (MkCask packages blocks value homepage installs removes)
  else if bool_decide (stanza = "homepage") then Ok (MkCask packages blocks version value installs removes)
  else if bool_decide (stanza = "binary") then
    if bool_decide (value ≠ "kli") || negb (bool_decide (blocks = binaryScope)) then
      Fail (Errorf "cask installs binary %q in %s, want only kli in %s" [AStr value; arrows blocks; arrows binaryScope] [])
    else if installs then Fail (Errorf "cask installs the kli binary twice" [] [])
    else Ok (MkCask packages blocks version homepage true removes)
  else
    match platform_of blocks with
    | None => Fail (Errorf "cask sets %s outside an operating system and architecture block" [AStr stanza] [])
    | Some platform =>
        pkg ← set_field stanza platform value (default (Package "" "") (packages !! platform));
        Ok (MkCask (<[platform := pkg]> packages) blocks version homepage installs removes)
    end.

(** One turn of the loop over the lines *)
Definition read_line (line : string) (st : cask) : result cask :=
  let line := TrimSpace line in
  let '(MkCask packages blocks version homepage installs removes) := st in
  if bool_decide (line = "end") then
    match blocks with
    | [] => Fail (Errorf "cask closes a block it never opened" [] [])
    | _ => Ok (MkCask packages (removelast blocks) version homepage installs removes)
    end
  else if HasSuffix line " do" then
    Ok (MkCask packages (blocks ++ [first_field line]) version homepage installs removes)
  else if bool_decide (line = quarantineStep) then
    if negb (bool_decide (blocks = quarantineScope)) then
      Fail (Errorf "cask runs the quarantine step in %s, want %s" [arrows blocks; arrows quarantineScope] [])
    else Ok (MkCask packages blocks version homepage installs true)
  else
    match stanza_of line with
    | None => Ok st
    | Some (stanza, value) => read_stanza stanza value st
    end.

Fixpoint read_lines (lines : list string) (st : cask) : result cask :=
  match lines with
  | [] => Ok st
  | line :: lines => st ← read_line line st; read_lines lines st
  end.

Definition archive_name (version platform : string) : string := "karta_" +:+ version +:+ "_" +:+ platform +:+ ".tar.gz".

(** The last loop: the repository all packages are downloaded from. *)
Fixpoint check_packages (version : string) (sums : gmap string string) (packages : gmap string caskPackage)
    (platforms : list string) (repository : string) : result string :=
  match platforms with
  | [] => Ok repository
  | platform :: platforms =>
      match packages !! platform with
      | None => Fail (Errorf "cask has no package for %s" [AStr platform] [])
      | Some pkg =>
          let name := archive_name version platform in
          let sum := default "" (sums !! name) in
          if bool_decide (pk_sha256 pkg ≠ sum) then
            Fail (Errorf "cask sha256 for %s is %q, want %q" [AStr platform; AStr (pk_sha256 pkg); AStr sum] [])
          else
            let url := ReplaceAll (pk_url pkg) "#{version}" version in
            let '(prefix, ok) := CutSuffix url ("/releases/download/v" +:+ version +:+ "/" +:+ name) in
            if negb ok || negb (String.prefix "https://github.com/" prefix) then
              Fail (Errorf "cask url for %s is %q, want the GitHub release download of %s" [AStr platform; AStr url; AStr name] [])
            else if bool_decide (repository ≠ "") && bool_decide (prefix ≠ repository) then
              Fail (Errorf "cask downloads from both %s and %s" [AStr repository; AStr prefix] [])
            else check_packages version sums packages platforms prefix
      end
  end.

Definition verifyCask (contents version : string) (sums : gmap string string) : result () :=
  st ← read_lines (Lines contents) no_cask;
  if bool_decide (length (ck_blocks st) ≠ 0) then Fail (Errorf "cask has unclosed blocks: %s" [arrows (ck_blocks st)] [])
  else if bool_decide (ck_version st ≠ version) then
    Fail (Errorf "cask version is %q, want %q" [AStr (ck_version st); AStr version] [])
  else if bool_decide (size (ck_packages st) ≠ length cliPlatforms) then
    Fail (Errorf "cask has %d packages, want %d" [ANat (size (ck_packages st)); ANat (length cliPlatforms)] [])
  else
    repository ← check_packages version sums (ck_packages st) cliPlatforms "";
    if bool_decide (ck_homepage st ≠ repository) then
      Fail (Errorf "cask homepage is %q, want the download repository %s" [AStr (ck_homepage st); AStr repository] [])
    else if negb (ck_installsKli st) then Fail (Errorf "cask does not install the kli binary" [] [])
    else if negb (ck_removesQuarantine st) then Fail (Errorf "cask does not remove the macOS quarantine from kli" [] [])
    else Ok ().

(** ** The artifacts *)

Record artifact := MkArtifact {
  a_Name : string; a_Path : string; a_Goos : string; a_Goarch : string; a_Type : string; a_Extra : gmap string value;
}.

Definition extraID (item : artifact) : string :=
  match a_Extra item !! "ID" with Some (VString value) => value | _ => "" end.

Definition with_path (path : string) (item : artifact) : artifact :=
  MkArtifact (a_Name item) path (a_Goos item) (a_Goarch item) (a_Type item) (a_Extra item).

Definition printed := list (string * list arg).

Section commands.
(** [filepath.Abs], [Dir] and [Join]; [os.ReadFile]; [json.Unmarshal] *)
Context (Abs : string → result string) (Dir : string → string) (Join : list string → string).
Context (ReadFile : string → result string) (Unmarshal : string → result (list artifact)).
(** The digest of a text, in hexadecimal *)
Context (sha256_hex : string → string).
Context (GOOS GOARCH : string).
(** What a command prints, trimmed *)
Context (commandOutput : string → list string → result string).
(** [modfile.Parse]: how many replace and exclude directives there are. *)
Context (modfile_Parse : string → string → result (nat * nat)).

(** Paths are relative to the parent of the directory. *)
Definition resolve_path (projectRoot : string) (item : artifact) : artifact :=
  if bool_decide (a_Path item ≠ "") && negb (String.prefix "/" (a_Path item))
  then with_path (Join [projectRoot; a_Path item]) item else item.

Definition readArtifacts (dist : string) : result (list artifact) :=
  absoluteDist ← Abs dist;
  contents ← ReadFile (Join [absoluteDist; "artifacts.json"]);
  artifacts ← map_error (λ err, Errorf "decode artifacts.json: %w" [] [err]) (Unmarshal contents);
  Ok (fmap (M:=list) (resolve_path (Dir absoluteDist)) artifacts).

(** The loop over the artifacts: archives by name, casks in order. *)
Fixpoint sort_artifacts (artifacts : list artifact) (archives : gmap string artifact) (casks : list artifact)
    : result (gmap string artifact * list artifact) :=
  match artifacts with
  | [] => Ok (archives, casks)
  | item :: artifacts =>
      if bool_decide (a_Type item = "Archive") then
        if bool_decide (extraID item ≠ "karta") then
          Fail (Errorf "unexpected public archive %s from %s" [AStr (a_Name item); AStr (extraID item)] [])
        else sort_artifacts artifacts (<[a_Name item := item]> archives) casks
      else if bool_decide (a_Type item = "Homebrew Cask") then sort_artifacts artifacts archives (casks ++ [item])
      else sort_artifacts artifacts archives casks
  end.

Fixpoint archive_sums (version : string) (archives : gmap string artifact) (platforms : list string)
    (sums : gmap string string) : result (gmap string string) :=
  match platforms with
  | [] => Ok sums
  | platform :: platforms =>
      let name := archive_name version platform in
      match archives !! name with
      | None => Fail (Errorf "missing archive %s" [AStr name] [])
      | Some archive =>
          contents ← ReadFile (a_Path archive);
          archive_sums version archives platforms (<[name := sha256_hex contents]> sums)
      end
  end.

(** The executable built for this host, if there is one. *)
Definition host_path (artifacts : list artifact) (id : string) : string :=
  match list_find (λ item, a_Type item = "Binary" ∧ extraID item = id ∧ a_Goos item = GOOS ∧ a_Goarch item = GOARCH) artifacts with
  | Some (_, item) => a_Path item
  | None => ""
  end.

Fixpoint verify_hosts (artifacts : list artifact) (version : string) (ids verified skipped : list string)
    : result (list string * list string) :=
  match ids with
  | [] => Ok (verified, skipped)
  | id :: ids =>
      let path := host_path artifacts id in
      if bool_decide (path = "") then verify_hosts artifacts version ids verified (skipped ++ [id])
      else
        output ← map_error (λ err, Errorf "run %s --version: %w" [AStr id] [err]) (commandOutput path ["--version"]);
        if bool_decide (output ≠ version) then
          Fail (Errorf "%s --version = %q, want %q" [AStr id; AStr output; AStr version] [])
        else verify_hosts artifacts version ids (verified ++ [id]) skipped
  end.

Definition verifyHostVersions (artifacts : list artifact) (version : string) : result (list string * list string) :=
  verify_hosts artifacts version ["karta"] [] [].

Definition verify_artifacts (dist version : string) : result printed :=
  artifacts ← readArtifacts dist;
  '(archives, casks) ← sort_artifacts artifacts ∅ [];
  if bool_decide (size archives ≠ length cliPlatforms) then
    Fail (Errorf "found %d CLI archives, want %d" [ANat (size archives); ANat (length cliPlatforms)] [])
  else
    sums ← archive_sums version archives cliPlatforms ∅;
    match casks with
    | [item] =>
        contents ← ReadFile (a_Path item);
        _ ← map_error (λ err, Errorf "%s: %w" [AStr (a_Path item)] [err]) (verifyCask contents version sums);
        '(verified, skipped) ← verifyHostVersions artifacts version;
        Ok ([("verified %d CLI archives and the kli cask for %s", [ANat (size archives); AStr version])] ++
            (if bool_decide (length verified ≠ 0) then [("verified host executable versions: %s", [AStrs verified])] else []) ++
            ((λ id, ("skipped %s --version: no %s/%s artifact", [AStr id; AStr GOOS; AStr GOARCH])) <$> skipped))
    | _ => Fail (Errorf "found %d Homebrew casks, want 1" [ANat (length casks)] [])
    end.

Definition runVerifyArtifacts (args : list string) : result printed :=
  '(dist, version) ← Parse [("dist", StringFlag (λ v f, (v, f.2))); ("version", StringFlag (λ v f, (f.1, v)))]
                       args ("dist", "");
  verify_artifacts dist version.

(** ** The module and the tags *)

Definition checkPublishable (path : string) : result () :=
  contents ← ReadFile path;
  '(replaces, excludes) ← map_error (λ err, Errorf "parse %s: %w" [AStr path] [err]) (modfile_Parse path contents);
  if bool_decide (replaces ≠ 0) then Fail (Errorf "%s contains a publication-unsafe replace directive" [AStr path] [])
  else if bool_decide (excludes ≠ 0) then Fail (Errorf "%s contains a publication-unsafe exclude directive" [AStr path] [])
  else Ok ().

Definition check_tag (root head tag : string) : result () :=
  commit ← map_error (λ err, Errorf "resolve tag %s: %w" [AStr tag] [err])
             (commandOutput "git" ["-C"; root; "rev-list"; "-n"; "1"; tag]);
  if bool_decide (commit ≠ head) then
    Fail (Errorf "tag %s points to %s, want HEAD %s" [AStr tag; AStr commit; AStr head] [])
  else Ok ().

Definition validateTags (root version : string) : result () :=
  head ← commandOutput "git" ["-C"; root; "rev-parse"; "HEAD"];
  _ ← mapR (check_tag root head) ["v" +:+ version; "karta/sdk/v" +:+ version];
  Ok ().

Definition runValidateRelease (args : list string) : result printed :=
  '(root, version, requireTags) ←
    Parse [("root", StringFlag (λ v f, (v, f.1.2, f.2))); ("version", StringFlag (λ v f, (f.1.1, v, f.2)));
           ("require-tags", BoolFlag (λ b f, (f.1, b)))] args (".", "", false);
  if negb (MatchString semanticVersion version) then
    Fail (Errorf "version %q must match X.Y.Z without a leading v" [AStr version] [])
  else
    _ ← checkPublishable (Join [root; "karta"; "sdk"; "go.mod"]);
    _ ← (if (requireTags : bool) then validateTags root version else Ok ());
    Ok [("release v%s is valid", [AStr version])].

Definition runCheckPublishable (args : list string) : result printed :=
  path ← Parse [("modfile", StringFlag (λ v _, v))] args "";
  if bool_decide (path = "") then Fail (Errorf "--modfile is required" [] [])
  else
    _ ← checkPublishable path;
    Ok [("%s is publishable", [AStr path])].

Definition run (args : list string) : result printed :=
  match args with
  | [] => Fail (Errorf "a subcommand is required" [] [])
  | subcommand :: args =>
      if bool_decide (subcommand = "validate-release") then runValidateRelease args
      else if bool_decide (subcommand = "check-publishable") then runCheckPublishable args
      else if bool_decide (subcommand = "verify-artifacts") then runVerifyArtifacts args
      else Fail (Errorf "unknown subcommand %q" [AStr subcommand] [])
  end.

(** [os.Exit] *)
Definition main (args : list string) : Z := if is_ok (run args) then 0%Z else 1%Z.
End commands.

(** ** Stanzas *)

Definition stanza_words := ["version"; "sha256"; "url"; "homepage"; "binary"].

Definition stanza_text (stanza value : string) : chars :=
  chars_of stanza ++ [" "; double_quote_char]%char ++ chars_of value ++ [double_quote_char].

Lemma after_None front : after None front = None → front = [].
Proof. destruct front as [|a front _] using rev_ind; [done|]. unfold after. by rewrite last_snoc. Qed.

Lemma derives_word b s c b' s' c' :
  derives stanza_word b s c b' s' c' → ∃ word, word ∈ stanza_words ∧ s = chars_of word ++ s' ∧ c' = c.
Proof.
  unfold stanza_word. rewrite !derives_Alt_iff, !derives_literal_iff.
  intros [[[[(-> & _ & ->)|(-> & _ & ->)]|(-> & _ & ->)]|(-> & _ & ->)]|(-> & _ & ->)];
    eexists; (split; [|by split]); set_solver.
Qed.

Lemma word_derives word b s c :
  word ∈ stanza_words → derives stanza_word b (chars_of word ++ s) c (after b (chars_of word)) s c.
Proof.
  unfold stanza_word, stanza_words. rewrite !elem_of_cons, elem_of_nil, !derives_Alt_iff, !derives_literal_iff. naive_solver.
Qed.

Definition no_quote (value : string) : Prop := double_quote_char ∉ chars_of value.

Lemma no_quotes w : Forall (λ c, negb (Ascii.eqb c double_quote_char) = true) w ↔ double_quote_char ∉ w.
Proof.
  rewrite Forall_forall. split.
  - intros H Hin. specialize (H _ Hin). by rewrite Ascii.eqb_refl in H.
  - intros H c Hc. destruct (Ascii.eqb_spec c double_quote_char) as [->|]; done.
Qed.

Lemma stanza_of_sound line stanza value :
  stanza_of line = Some (stanza, value) →
  stanza ∈ stanza_words ∧ no_quote value ∧ chars_of line = stanza_text stanza value.
Proof.
  unfold stanza_of, FindStringSubmatch. destruct (find _ _ _) as [[[[front c] b'] s']|] eqn:E; [|done].
  cbn. intros [= <- <-]. apply find_Some in E as (m & ci & Es & -> & Hd). unfold caskStanza in Hd.
  apply derives_Cat_iff in Hd as (? & ? & ? & Hd & (He & -> & -> & ->)%derives_Look_iff).
  apply derives_Cat_iff in Hd as (? & ? & ? & Hd & (-> & -> & ->)%derives_literal_iff).
  apply derives_Cat_iff in Hd as (? & ? & ? & Hd & (v & cv & Hv & Hd2 & ->)%derives_Group_iff).
  apply derives_Star_One_iff in Hd2 as (v' & Hv' & Hq & _ & ->).
  apply derives_Cat_iff in Hd as (? & ? & ? & Hd & (-> & -> & ->)%derives_literal_iff).
  apply derives_Cat_iff in Hd as (? & ? & ? & (Hb & -> & -> & ->)%derives_Look_iff & (w & cw & Hw & Hd2 & ->)%derives_Group_iff).
  apply derives_word in Hd2 as (word & Hword & Hw' & ->).
  apply bool_decide_eq_true, after_None in Hb as ->. cbn [app] in Es.
  rewrite Hv in Hv'. apply app_inv_tail in Hv' as ->. rewrite Hv in *. rewrite Hw in Hw'. apply app_inv_tail in Hw' as ->.
  apply bool_decide_eq_true in He. revert He. match goal with |- head ?s = None → _ => destruct s; [|done] end. intros _.
  unfold submatch. simplify_map_eq. rewrite String.string_of_list_ascii_of_string. split_and!; [done| |].
  - unfold no_quote. rewrite String.list_ascii_of_string_of_list_ascii. by apply no_quotes.
  - unfold stanza_text. rewrite String.list_ascii_of_string_of_list_ascii, Es, Hw. done.
Qed.

Lemma cut_word word word' rest rest' :
  word ∈ stanza_words → word' ∈ stanza_words →
  chars_of word ++ " "%char :: rest = chars_of word' ++ " "%char :: rest' → word = word' ∧ rest = rest'.
Proof.
  unfold stanza_words. rewrite !elem_of_cons, !elem_of_nil.
  intros [->|[->|[->|[->|[->|[]]]]]] [->|[->|[->|[->|[->|[]]]]]]; cbn; intros [=]; done.
Qed.

Lemma stanza_of_complete line stanza value :
  stanza ∈ stanza_words → no_quote value → chars_of line = stanza_text stanza value →
  stanza_of line = Some (stanza, value).
Proof.
  intros Hs Hv El. destruct (stanza_of line) as [[stanza' value']|] eqn:E.
  - apply stanza_of_sound in E as (Hs' & _ & El'). rewrite El in El'. unfold stanza_text in El'. cbn [app] in El'.
    apply cut_word in El' as [<- El']; [|done..]. injection El' as El'. apply app_inj_tail in El' as [El' _].
    do 2 f_equal. rewrite <- (String.string_of_list_ascii_of_string value), El'.
    symmetry. apply String.string_of_list_ascii_of_string.
  - exfalso. unfold stanza_of, FindStringSubmatch in E. destruct (find _ _ _) eqn:Ef; [done|].
    eapply (find_None _ _ _ Ef [] (chars_of line) []); [by rewrite app_nil_r|].
    rewrite app_nil_r, El. clear E Ef El. unfold caskStanza, stanza_text.
    rewrite !derives_Cat_iff. eexists _, [], _. split; [|by apply derives_Look_iff].
    rewrite derives_Cat_iff. eexists _, [double_quote_char], _. split; [|by apply derives_literal_iff].
    rewrite derives_Cat_iff. eexists _, (chars_of value ++ [double_quote_char]), _. split.
    2: { apply derives_Group_iff. exists (chars_of value). eexists. split; [done|]. split; [|done].
         apply derives_Star_One_iff. exists (chars_of value). split_and!; [done|by apply no_quotes|done|done]. }
    rewrite derives_Cat_iff. eexists _, ([" "; double_quote_char]%char ++ chars_of value ++ [double_quote_char]), _.
    split; [|by apply derives_literal_iff].
    rewrite derives_Cat_iff. eexists _, _, _. split; [by apply derives_Look_iff|].
    apply derives_Group_iff. exists (chars_of stanza). eexists. split; [done|]. split; [|done]. by apply word_derives.
Qed.

(** ** What an accepted cask holds *)

(** The lines that are no ends of blocks, with the blocks around them; and the
    blocks open at the end. *)
Fixpoint scopes (blocks : list string) (lines : list string) : list (list string * string) :=
  match lines with
  | [] => []
  | line :: lines =>
      let line := TrimSpace line in
      if bool_decide (line = "end") then scopes (removelast blocks) lines
      else if HasSuffix line " do" then scopes (blocks ++ [first_field line]) lines
      else (blocks, line) :: scopes blocks lines
  end.

Definition entry_of (stanza : string) (x : list string * string) : option (list string * string) :=
  match stanza_of x.2 with
  | Some (s, value) => if bool_decide (s = stanza) then Some (x.1, value) else None
  | None => None
  end.

(** The values a stanza is given, with their scopes, in order *)
Definition entries (stanza : string) (seen : list (list string * string)) : list (list string * string) :=
  omap (entry_of stanza) seen.

Definition values (stanza platform : string) (seen : list (list string * string)) : list string :=
  (filter (λ x, platform_of x.1 = Some platform) (entries stanza seen)).*2.

(** A field set at most once to a text that is not empty *)
Definition settled (value : string) (values : list string) : Prop :=
  ∃ n, values = replicate n "" ++ (if bool_decide (value = "") then [] else [value]).

Definition package_values (packages : gmap string caskPackage) (seen : list (list string * string)) (p : string) : Prop :=
  let pkg := default (Package "" "") (packages !! p) in
  settled (pk_sha256 pkg) (values "sha256" p seen) ∧ settled (pk_url pkg) (values "url" p seen).

Record cask_inv (seen : list (list string * string)) (st : cask) : Prop := {
  ci_version : ck_version st = default "" (last (entries "version" seen).*2);
  ci_homepage : ck_homepage st = default "" (last (entries "homepage" seen).*2);
  ci_binary : entries "binary" seen = if ck_installsKli st then [(binaryScope, "kli")] else [];
  ci_quarantine : Forall (λ x, x.2 = quarantineStep → x.1 = quarantineScope) seen ∧
    (ck_removesQuarantine st = true → (quarantineScope, quarantineStep) ∈ seen);
  ci_packages p : package_values (ck_packages st) seen p;
  ci_scoped stanza blocks value : stanza ∈ ["sha256"; "url"] → (blocks, value) ∈ entries stanza seen →
    ∃ p, platform_of blocks = Some p ∧ is_Some (ck_packages st !! p);
}.

Lemma entries_snoc stanza seen x :
  entries stanza (seen ++ [x]) = entries stanza seen ++ option_list (entry_of stanza x).
Proof. unfold entries. rewrite omap_app. cbn. by destruct (entry_of stanza x). Qed.

Lemma values_snoc stanza p seen x :
  values stanza p (seen ++ [x]) = values stanza p seen ++
    (filter (λ x, platform_of x.1 = Some p) (option_list (entry_of stanza x))).*2.
Proof. unfold values. by rewrite entries_snoc, filter_app, fmap_app. Qed.

Lemma settled_nil : settled "" [].
Proof. by exists 0. Qed.

Lemma settled_set old value vs : settled old vs → old = "" → settled value (vs ++ [value]).
Proof.
  intros [n ->] ->. rewrite bool_decide_true, app_nil_r by done. unfold settled. destruct (decide (value = "")) as [->|Hv].
  - exists (S n). by rewrite bool_decide_true, app_nil_r, replicate_S_end.
  - exists n. by rewrite bool_decide_false.
Qed.

(** A plain line adds to what its stanza sets. *)
Lemma cask_inv_plain seen st x :
  cask_inv seen st → (x.2 = quarantineStep → x.1 = quarantineScope) →
  (∀ stanza value, stanza_of x.2 = Some (stanza, value) → False) →
  cask_inv (seen ++ [x]) (if bool_decide (x.2 = quarantineStep) then
    MkCask (ck_packages st) (ck_blocks st) (ck_version st) (ck_homepage st) (ck_installsKli st) true else st).
Proof.
  intros [Hv Hh Hb Hq Hp Hs] Hx Hno.
  assert (Hent : ∀ stanza, entries stanza (seen ++ [x]) = entries stanza seen).
  { intros stanza. rewrite entries_snoc. unfold entry_of. destruct (stanza_of x.2) as [[s v]|] eqn:E.
    - by destruct (Hno s v).
    - apply app_nil_r. }
  assert (Hval : ∀ stanza p, values stanza p (seen ++ [x]) = values stanza p seen) by (intros; unfold values; by rewrite Hent).
  destruct Hq as [Hq1 Hq2].
  assert (Hall : Forall (λ x, x.2 = quarantineStep → x.1 = quarantineScope) (seen ++ [x]))
    by (apply Forall_app; split; [done|by constructor]).
  case_bool_decide as E; split; cbn; rewrite ?Hent; try done.
  - split; [done|]. intros _. apply elem_of_app. right. apply list_elem_of_singleton. destruct x; cbn in *. by rewrite E, Hx.
  - intros p. unfold package_values in *. rewrite !Hval. apply Hp.
  - intros stanza. rewrite Hent. apply Hs.
  - split; [done|]. intros H%Hq2. apply elem_of_app. by left.
  - intros p. unfold package_values in *. rewrite !Hval. apply Hp.
  - intros stanza. rewrite Hent. apply Hs.
Qed.

Lemma quarantineStep_no_stanza : stanza_of quarantineStep = None.
Proof. vm_compute. reflexivity. Qed.

(** One of the two fields of a package *)
Definition field_of (stanza : string) (pkg : caskPackage) : string :=
  if bool_decide (stanza = "sha256") then pk_sha256 pkg else pk_url pkg.

Lemma set_field_Ok s v p pkg pkg' :
  s ∈ ["sha256"; "url"] → set_field s p v pkg = Ok pkg' →
  field_of s pkg = "" ∧ field_of s pkg' = v ∧ ∀ s', s' ∈ ["sha256"; "url"] → s' ≠ s → field_of s' pkg' = field_of s' pkg.
Proof.
  intros Hin. assert (s = "sha256" ∨ s = "url") as [-> | ->] by set_solver; unfold set_field, field_of.
  - rewrite !bool_decide_true by done. case_bool_decide as E; [done|]. intros [= <-]. cbn.
    split_and!; [by destruct (decide (pk_sha256 pkg = ""))|done|].
    intros s' _ Hne. by rewrite !bool_decide_false.
  - rewrite !(bool_decide_false ("url" = "sha256")) by done. case_bool_decide as E; [done|]. intros [= <-]. cbn.
    split_and!; [by destruct (decide (pk_url pkg = ""))|done|].
    intros s' Hs' Hne. assert (s' = "sha256") as -> by set_solver. done.
Qed.

Lemma package_values_fields packages seen' p :
  package_values packages seen' p ↔
  ∀ stanza, stanza ∈ ["sha256"; "url"] → settled (field_of stanza (default (Package "" "") (packages !! p))) (values stanza p seen').
Proof.
  unfold package_values, field_of. split.
  - intros [H1 H2] stanza. rewrite !elem_of_cons, elem_of_nil. intros [->|[->|[]]]; done.
  - intros H. split; [apply (H "sha256")|apply (H "url")]; set_solver.
Qed.

Section stanza_step.
Context (seen : list (list string * string)) (st : cask) (line s v : string).
Hypothesis (Hs : stanza_of line = Some (s, v)) (Hinv : cask_inv seen st).

Abbreviation now := (seen ++ [(ck_blocks st, line)]).

Lemma entries_now stanza :
  entries stanza now = entries stanza seen ++ (if bool_decide (s = stanza) then [(ck_blocks st, v)] else []).
Proof. rewrite entries_snoc. unfold entry_of. cbn [fst snd]. rewrite Hs. by case_bool_decide. Qed.

Lemma values_now stanza p :
  values stanza p now = values stanza p seen ++
    (if bool_decide (s = stanza ∧ platform_of (ck_blocks st) = Some p) then [v] else []).
Proof.
  unfold values. rewrite entries_now, filter_app, fmap_app. f_equal.
  destruct (decide (s = stanza)) as [E|E].
  - rewrite (bool_decide_true (s = stanza)) by done. rewrite filter_cons, filter_nil. cbn. case_decide as Hp.
    + by rewrite bool_decide_true.
    + by rewrite bool_decide_false by tauto.
  - rewrite (bool_decide_false (s = stanza)) by done. by rewrite bool_decide_false by tauto.
Qed.

Lemma quarantine_now st' :
  ck_removesQuarantine st' = ck_removesQuarantine st →
  Forall (λ x, x.2 = quarantineStep → x.1 = quarantineScope) now ∧
  (ck_removesQuarantine st' = true → (quarantineScope, quarantineStep) ∈ now).
Proof.
  intros ->. destruct (ci_quarantine _ _ Hinv) as [H1 H2]. split.
  - apply Forall_app. split; [done|]. constructor; [|done]. cbn. intros E.
    rewrite E, quarantineStep_no_stanza in Hs. done.
  - intros H%H2. apply elem_of_app. by left.
Qed.

(** A stanza that names no package leaves the packages as they are. *)
Lemma packages_now : s ∉ ["sha256"; "url"] →
  (∀ p, package_values (ck_packages st) now p) ∧
  (∀ stanza blocks value, stanza ∈ ["sha256"; "url"] → (blocks, value) ∈ entries stanza now →
    ∃ p, platform_of blocks = Some p ∧ is_Some (ck_packages st !! p)).
Proof.
  intros Hn. split.
  - intros p. destruct (ci_packages _ _ Hinv p) as [H1 H2]. unfold package_values.
    rewrite !values_now, !bool_decide_false, !app_nil_r by set_solver. done.
  - intros stanza blocks value Hin. rewrite entries_now, bool_decide_false, app_nil_r by set_solver.
    by apply (ci_scoped _ _ Hinv).
Qed.

Lemma read_stanza_inv st' :
  read_stanza s v st = Ok st' → cask_inv now st' ∧ ck_blocks st' = ck_blocks st.
Proof.
  destruct (stanza_of_sound _ _ _ Hs) as (Hw & _ & _). pose proof Hinv as [Hv Hh Hb _ Hp Hsc].
  pose proof packages_now as Hpk. pose proof (quarantine_now st eq_refl) as Hq. pose proof entries_now as He. pose proof values_now as Hval.
  unfold stanza_words in Hw. rewrite !elem_of_cons, elem_of_nil in Hw.
  destruct st as [packages blocks version homepage installs removes].
  cbn [ck_packages ck_blocks ck_version ck_homepage ck_installsKli ck_removesQuarantine] in *.
  destruct (decide (s ∈ ["sha256"; "url"])) as [Hin|Hn].
  - assert (read_stanza s v (MkCask packages blocks version homepage installs removes) =
      match platform_of blocks with
      | None => Fail (Errorf "cask sets %s outside an operating system and architecture block" [AStr s] [])
      | Some platform =>
          pkg ← set_field s platform v (default (Package "" "") (packages !! platform));
          Ok (MkCask (<[platform := pkg]> packages) blocks version homepage installs removes)
      end) as -> by (revert Hin; rewrite !elem_of_cons, elem_of_nil; by intros [->|[->|[]]]).
    destruct (platform_of blocks) as [platform|] eqn:Epl; [|done].
    destruct (set_field _ _ _ _) as [pkg|] eqn:Ef; [|done]. intros [= <-]. split; [|done].
    apply set_field_Ok in Ef as (Hold & Hnew & Hother); [|done].
    split; cbn; rewrite ?He, ?(bool_decide_false (s = _)), ?app_nil_r by (intros ->; set_solver); try done.
    + intros p. apply package_values_fields. intros stanza Hst. rewrite Hval.
      pose proof (proj1 (package_values_fields _ _ _) (Hp p) stanza Hst) as Hset.
      destruct (decide (p = platform)) as [->|Hne].
      * rewrite lookup_insert_eq. change (default (Package "" "") (Some pkg)) with pkg. destruct (decide (stanza = s)) as [->|Hs'].
        -- rewrite bool_decide_true, Hnew by done. by eapply settled_set.
        -- rewrite bool_decide_false, app_nil_r, Hother by naive_solver. done.
      * rewrite lookup_insert_ne by done. rewrite bool_decide_false, app_nil_r by naive_solver. done.
    + intros stanza bl value Hst. rewrite He, elem_of_app. intros [Ho|Ho].
      * destruct (Hsc _ _ _ Hst Ho) as (p & ? & ?). exists p. split; [done|].
        destruct (decide (p = platform)) as [->|]; [by rewrite lookup_insert_eq|by rewrite lookup_insert_ne].
      * case_bool_decide; [|by apply not_elem_of_nil in Ho]. apply list_elem_of_singleton in Ho as [= -> ->].
        exists platform. by rewrite lookup_insert_eq.
  - destruct (Hpk Hn) as [Hp' Hsc'].
    assert (s = "version" ∨ s = "homepage" ∨ s = "binary") as Hw'.
    { destruct Hw as [?|[E|[E|[?|[?|[]]]]]]; [by left|exfalso..|right; by left|right; by right].
      - apply Hn. rewrite E. by left.
      - apply Hn. rewrite E. right. by left. }
    clear Hw Hn Hpk. unfold read_stanza. destruct Hw' as [Es|[Es|Es]]; rewrite Es in He.
    + rewrite Es, bool_decide_true by done. intros [= <-]. split; [|done].
      split; cbn [ck_packages ck_blocks ck_version ck_homepage ck_installsKli ck_removesQuarantine];
        rewrite ?He; try done; rewrite ?bool_decide_false, ?app_nil_r by done; try done.
      rewrite bool_decide_true, fmap_app by done. change ([(blocks, v)].*2) with [v]. by rewrite last_snoc.
    + rewrite Es, bool_decide_false, bool_decide_true by done. intros [= <-]. split; [|done].
      split; cbn [ck_packages ck_blocks ck_version ck_homepage ck_installsKli ck_removesQuarantine];
        rewrite ?He; try done; rewrite ?bool_decide_false, ?app_nil_r by done; try done.
      rewrite bool_decide_true, fmap_app by done. change ([(blocks, v)].*2) with [v]. by rewrite last_snoc.
    + rewrite Es, !bool_decide_false, bool_decide_true by done.
      destruct (bool_decide (v ≠ "kli") || _) eqn:Ec; [done|]. apply orb_false_iff in Ec as [Ek Ebl].
      apply bool_decide_eq_false in Ek. apply negb_false_iff, bool_decide_eq_true in Ebl as ->.
      destruct installs; [done|]. intros [= <-]. split; [|done].
      split; cbn [ck_packages ck_blocks ck_version ck_homepage ck_installsKli ck_removesQuarantine];
        rewrite ?He; try done; rewrite ?bool_decide_false, ?app_nil_r by done; try done.
      rewrite Hb, bool_decide_true by done. by destruct (decide (v = "kli")) as [->|].
Qed.
End stanza_step.

Lemma read_lines_inv lines seen st st' :
  cask_inv seen st → read_lines lines st = Ok st' → cask_inv (seen ++ scopes (ck_blocks st) lines) st'.
Proof.
  revert seen st. induction lines as [|line lines IH]; intros seen st Hi.
  { cbn. intros [= <-]. by rewrite app_nil_r. }
  cbn [read_lines scopes]. destruct (read_line line st) as [st1|] eqn:E; [|done]. cbn. revert E. unfold read_line.
  set (l := TrimSpace line). clearbody l.
  assert (Hblocks : ∀ blocks, cask_inv seen (MkCask (ck_packages st) blocks (ck_version st) (ck_homepage st)
    (ck_installsKli st) (ck_removesQuarantine st))) by (intros; destruct Hi; by split).
  destruct st as [packages blocks version homepage installs removes].
  cbn [ck_packages ck_blocks ck_version ck_homepage ck_installsKli ck_removesQuarantine] in *.
  destruct (bool_decide (l = "end")).
  { destruct blocks as [|b bs]; [done|]. intros [= <-] Hr. apply (IH _ _ (Hblocks _) Hr). }
  destruct (HasSuffix l " do").
  { intros [= <-] Hr. apply (IH _ _ (Hblocks _) Hr). }
  set (st0 := MkCask packages blocks version homepage installs removes) in *.
  assert (Hsnoc : ∀ st2, cask_inv (seen ++ [(blocks, l)]) st2 → ck_blocks st2 = blocks → read_lines lines st2 = Ok st' →
    cask_inv (seen ++ (blocks, l) :: scopes blocks lines) st').
  { intros st2 H2 <- Hr. apply (IH _ _ H2) in Hr. by rewrite <- app_assoc in Hr. }
  destruct (decide (l = quarantineStep)) as [->|Hq].
  - rewrite bool_decide_true by done. case_match eqn:Eb; [done|]. apply negb_false_iff, bool_decide_eq_true in Eb.
    intros [= <-]. apply Hsnoc; [|done]. apply (cask_inv_plain seen st0 (blocks, quarantineStep)) in Hi; [|done|].
    + cbn [snd] in Hi. by rewrite bool_decide_true in Hi.
    + intros s v. cbn [snd]. by rewrite quarantineStep_no_stanza.
  - rewrite bool_decide_false by done. destruct (stanza_of l) as [[s v]|] eqn:Es.
    + intros H. apply (read_stanza_inv seen st0 l s v Es Hi) in H as [H2 Hb]. by apply Hsnoc.
    + intros [= <-]. apply Hsnoc; [|done]. apply (cask_inv_plain seen st0 (blocks, l)) in Hi; [|done|].
      * cbn [snd] in Hi. by rewrite bool_decide_false in Hi.
      * intros s v. cbn [snd]. by rewrite Es.
Qed.

Lemma no_cask_inv : cask_inv [] no_cask.
Proof.
  split; try done; cbn.
  - intros p. unfold package_values. rewrite lookup_empty. split; apply settled_nil.
  - by intros stanza blocks value _ ?%not_elem_of_nil.
Qed.

Lemma CutSuffix_true s suffix rest : CutSuffix s suffix = (rest, true) → s = rest +:+ suffix.
Proof. unfold CutSuffix. case_bool_decide as E; [|done]. by intros [= <-]. Qed.

(** The package of a platform is what was built, from a repository. *)
Definition downloads (version : string) (sums : gmap string string) (repository platform : string) (pkg : caskPackage) : Prop :=
  let name := archive_name version platform in
  pk_sha256 pkg = default "" (sums !! name) ∧
  ReplaceAll (pk_url pkg) "#{version}" version = repository +:+ "/releases/download/v" +:+ version +:+ "/" +:+ name.

Lemma check_packages_Ok version sums packages platforms repository found :
  check_packages version sums packages platforms repository = Ok found →
  (repository ≠ "" → found = repository) ∧
  ∀ platform, platform ∈ platforms → String.prefix "https://github.com/" found = true ∧
    ∃ pkg, packages !! platform = Some pkg ∧ downloads version sums found platform pkg.
Proof.
  revert repository. induction platforms as [|platform platforms IH]; intros repository; cbn [check_packages].
  { intros [= <-]. split; [done|]. by intros platform ?%not_elem_of_nil. }
  destruct (packages !! platform) as [pkg|] eqn:Ep; [|done]. case_bool_decide as Es; [done|].
  destruct (CutSuffix _ _) as [prefix ok] eqn:Ec.
  destruct ok; [|done]. destruct (String.prefix _ prefix) eqn:Eh; [|done]. cbn [negb orb].
  destruct (bool_decide (repository ≠ "") && _) eqn:Er; [done|].
  intros [Hsame Hrest]%IH. assert (found = prefix) as -> by (apply Hsame; by intros ->). split.
  - intros Hne. rewrite bool_decide_true in Er by done. cbn in Er. apply bool_decide_eq_false in Er.
    by destruct (decide (prefix = repository)).
  - intros p [->|Hp]%elem_of_cons; [|by apply Hrest]. split; [done|]. exists pkg. split; [done|]. split.
    + by destruct (decide (pk_sha256 pkg = default "" (sums !! archive_name version platform))).
    + by apply CutSuffix_true in Ec.
Qed.

(** What is known of a cask that is accepted, by its lines and the blocks around
    them. *)
Record installs (version : string) (sums : gmap string string) (repository : string)
    (seen : list (list string * string)) : Prop := {
  in_github : String.prefix "https://github.com/" repository = true;
  in_packages platform : platform ∈ cliPlatforms → ∃ url,
    settled (default "" (sums !! archive_name version platform)) (values "sha256" platform seen) ∧
    settled url (values "url" platform seen) ∧
    ReplaceAll url "#{version}" version =
      repository +:+ "/releases/download/v" +:+ version +:+ "/" +:+ archive_name version platform;
  in_nothing_else stanza blocks value : stanza ∈ ["sha256"; "url"] → (blocks, value) ∈ entries stanza seen →
    ∃ platform, platform ∈ cliPlatforms ∧ platform_of blocks = Some platform;
  in_version : default "" (last (entries "version" seen).*2) = version;
  in_homepage : default "" (last (entries "homepage" seen).*2) = repository;
  in_binary : entries "binary" seen = [(binaryScope, "kli")];
  in_quarantine : (quarantineScope, quarantineStep) ∈ seen ∧
    ∀ blocks, (blocks, quarantineStep) ∈ seen → blocks = quarantineScope;
}.

Lemma verifyCask_installs contents version sums :
  verifyCask contents version sums = Ok () →
  ∃ repository, installs version sums repository (scopes [] (Lines contents)).
Proof.
  unfold verifyCask. destruct (read_lines _ no_cask) as [st|] eqn:Er; [|done]. cbn [mbind result_bind].
  apply (read_lines_inv _ [] _ _ no_cask_inv) in Er as [Hv Hh Hb [Hq1 Hq2] Hp Hs]. cbn [app] in *.
  change (ck_blocks no_cask) with (@nil string) in *. set (seen := scopes [] (Lines contents)) in *. clearbody seen.
  destruct (bool_decide (length _ ≠ 0)); [done|]. case_bool_decide as Ev; [done|].
  destruct (bool_decide (size _ ≠ _)) eqn:Esz; [done|]. apply bool_decide_eq_false in Esz.
  destruct (check_packages _ _ _ _ _) as [repository|] eqn:Ec; [|done]. cbn [mbind result_bind].
  destruct (bool_decide (ck_homepage st ≠ repository)) eqn:Eh; [done|]. apply bool_decide_eq_false in Eh.
  destruct (ck_installsKli st); [|done]. destruct (ck_removesQuarantine st); [|done]. intros _.
  apply check_packages_Ok in Ec as [_ Hpk]. exists repository. split.
  - apply (Hpk "linux_amd64"). by left.
  - intros platform Hin. destruct (Hpk platform Hin) as (_ & pkg & Hpkg & Hsum & Hurl).
    destruct (Hp platform) as [H1 H2]. rewrite Hpkg in H1, H2. change (default _ (Some pkg)) with pkg in *.
    exists (pk_url pkg). rewrite <- Hsum. done.
  - intros stanza blocks value Hst Hin. destruct (Hs stanza blocks value Hst Hin) as (p & Hpl & Hdom).
    exists p. split; [|done]. apply elem_of_dom in Hdom.
    assert (Hall : list_to_set cliPlatforms ⊆ dom (ck_packages st)).
    { intros q Hq%elem_of_list_to_set. apply elem_of_dom.
      destruct (Hpk q Hq) as (_ & pkg & -> & _). done. }
    assert (dom (ck_packages st) ≡ list_to_set cliPlatforms) as Hd.
    { symmetry. apply set_subseteq_size_equiv; [done|]. rewrite size_dom.
      destruct (decide (size (ck_packages st) = length cliPlatforms)) as [->|]; [done|]. by destruct Esz. }
    rewrite Hd in Hdom. by apply elem_of_list_to_set in Hdom.
  - destruct (decide (ck_version st = version)) as [<-|]; [|done]. by rewrite Hv.
  - destruct (decide (ck_homepage st = repository)) as [<-|]; [|done]. by rewrite Hh.
  - done.
  - split; [by apply Hq2|]. intros blocks Hin. by apply (proj1 (Forall_forall _ _) Hq1 _ Hin).
Qed.

(** ** The artifacts *)

Section artifacts.
Context (Abs : string → result string) (Dir : string → string) (Join : list string → string).
Context (ReadFile : string → result string) (Unmarshal : string → result (list artifact)).
Context (sha256_hex : string → string) (GOOS GOARCH : string).
Context (commandOutput : string → list string → result string).

Lemma sort_artifacts_Ok artifacts archives casks archives' casks' :
  sort_artifacts artifacts archives casks = Ok (archives', casks') →
  (∀ name item, archives' !! name = Some item →
     archives !! name = Some item ∨ item ∈ artifacts ∧ a_Type item = "Archive" ∧ a_Name item = name ∧ extraID item = "karta") ∧
  casks' = casks ++ filter (λ item, a_Type item = "Homebrew Cask") artifacts.
Proof.
  revert archives casks. induction artifacts as [|item artifacts IH]; intros archives casks; cbn [sort_artifacts].
  { intros [= <- <-]. rewrite app_nil_r. naive_solver. }
  destruct (decide (a_Type item = "Archive")) as [Ha|Ha].
  - rewrite bool_decide_true by done. case_bool_decide as Hid; [done|]. intros [H1 ->]%IH. split.
    + intros name item' [[[<- <-]|[_ ?]]%lookup_insert_Some|(? & ? & ? & ?)]%H1.
      * right. split_and!; [by left|done|done|]. by destruct (decide (extraID item = "karta")).
      * by left.
      * right. split_and!; [by right|done..].
    + rewrite filter_cons_False; [done|]. by rewrite Ha.
  - rewrite bool_decide_false by done. destruct (decide (a_Type item = "Homebrew Cask")) as [Hc|Hc].
    + rewrite bool_decide_true by done. intros [H1 ->]%IH. split.
      * intros name item' [?|(? & ? & ? & ?)]%H1; [by left|]. right. split_and!; [by right|done..].
      * by rewrite filter_cons_True, <- app_assoc.
    + rewrite bool_decide_false by done. intros [H1 ->]%IH. split.
      * intros name item' [?|(? & ? & ? & ?)]%H1; [by left|]. right. split_and!; [by right|done..].
      * by rewrite filter_cons_False.
Qed.

Lemma archive_sums_Ok version archives platforms sums sums' :
  archive_sums ReadFile sha256_hex version archives platforms sums = Ok sums' →
  (∀ platform, platform ∈ platforms → ∃ item text, archives !! archive_name version platform = Some item ∧
     ReadFile (a_Path item) = Ok text ∧ sums' !! archive_name version platform = Some (sha256_hex text)) ∧
  (∀ name, name ∉ archive_name version <$> platforms → sums' !! name = sums !! name).
Proof.
  revert sums. induction platforms as [|platform platforms IH]; intros sums; cbn [archive_sums].
  { intros [= <-]. split; [by intros platform ?%not_elem_of_nil|done]. }
  destruct (archives !! archive_name version platform) as [item|] eqn:Ea; [|done].
  destruct (ReadFile (a_Path item)) as [text|] eqn:Et; [|done]. cbn [mbind result_bind].
  intros [H1 H2]%IH. split.
  - intros p [->|Hp]%elem_of_cons; [|by apply H1].
    destruct (decide (archive_name version platform ∈ archive_name version <$> platforms)) as [Hin|Hn].
    + apply list_elem_of_fmap in Hin as (q & Eq & Hq). destruct (H1 q Hq) as (item' & text' & Ha & Ht & Hs).
      exists item', text'. by rewrite Eq.
    + exists item, text. by rewrite H2, lookup_insert_eq.
  - intros name. cbn [fmap list_fmap]. intros [? ?]%not_elem_of_cons. by rewrite H2, lookup_insert_ne.
Qed.

(** C39: when the artifacts are verified there is one cask, its lines install just
    the [kli] binary, once and at its top, with the quarantine step on macOS only,
    and its package of every platform the tool is built for is the archive of that
    platform: its digest, under its name, from one repository on GitHub; it has no
    other packages. *)
Theorem verify_artifacts_installs dist version out :
  verify_artifacts Abs Dir Join ReadFile Unmarshal sha256_hex GOOS GOARCH commandOutput dist version = Ok out →
  ∃ artifacts item contents sums repository,
    readArtifacts Abs Dir Join ReadFile Unmarshal dist = Ok artifacts ∧
    filter (λ item, a_Type item = "Homebrew Cask") artifacts = [item] ∧ ReadFile (a_Path item) = Ok contents ∧
    (∀ platform, platform ∈ cliPlatforms → ∃ archive text, archive ∈ artifacts ∧ a_Type archive = "Archive" ∧
       extraID archive = "karta" ∧ a_Name archive = archive_name version platform ∧ ReadFile (a_Path archive) = Ok text ∧
       sums !! archive_name version platform = Some (sha256_hex text)) ∧
    installs version sums repository (scopes [] (Lines contents)).
Proof.
  unfold verify_artifacts. destruct (readArtifacts _ _ _ _ _ dist) as [artifacts|]; [|done]. cbn [mbind result_bind].
  destruct (sort_artifacts artifacts ∅ []) as [[archives casks]|] eqn:Es; [|done]. cbn [mbind result_bind].
  apply sort_artifacts_Ok in Es as [Ha ->]. cbn [app].
  destruct (bool_decide _); [done|].
  destruct (archive_sums _ _ _ _ _ _) as [sums|] eqn:Esum; [|done]. cbn [mbind result_bind].
  destruct (filter _ artifacts) as [|item [|]] eqn:Ef; [done| |done].
  destruct (ReadFile (a_Path item)) as [contents|] eqn:Et; [|done]. cbn [mbind result_bind].
  destruct (verifyCask contents version sums) as [[]|] eqn:Ev; [|done]. intros _.
  apply verifyCask_installs in Ev as [repository Hi]. exists artifacts, item, contents, sums, repository.
  split_and!; [done..| |done]. intros platform Hp.
  destruct (proj1 (archive_sums_Ok _ _ _ _ _ Esum) platform Hp) as (archive & text & Har & Htext & Hs).
  destruct (Ha _ _ Har) as [E|(? & ? & ? & ?)]; [by rewrite lookup_empty in E|]. exists archive, text. done.
Qed.
End artifacts.

(** ** A release *)

Definition sample_sum (platform : string) : string := "digest of " +:+ platform.

Definition sample_package (block platform : string) : list string :=
  ["    " +:+ block +:+ " do";
   "      sha256 " +:+ quote (sample_sum platform);
   "      url " +:+ quote ("https://github.com/o/r/releases/download/v#{version}/karta_#{version}_" +:+ platform +:+ ".tar.gz");
   "    end"].

Definition sample_lines : list string :=
  ["cask " +:+ quote "kli" +:+ " do"; "  postflight_steps do"; "    on_macos do"; "      " +:+ quarantineStep; "    end"; "  end";
   "  version " +:+ quote "1.2.3"; "  on_macos do"] ++
  sample_package "on_arm" "darwin_arm64" ++ sample_package "on_intel" "darwin_amd64" ++ ["  end"; "  on_linux do"] ++
  sample_package "on_arm" "linux_arm64" ++ sample_package "on_intel" "linux_amd64" ++
  ["  end"; "  homepage " +:+ quote "https://github.com/o/r"; "  binary " +:+ quote "kli"; "end"].

Definition sample_cask : string := foldr (λ line text, line +:+ String newline_char text) "" sample_lines.

Definition sample_artifacts : list artifact :=
  ((λ platform, MkArtifact (archive_name "1.2.3" platform) ("/dist/" +:+ platform) "" "" "Archive" {["ID" := VString "karta"]})
     <$> cliPlatforms) ++ [MkArtifact "kli.rb" "/dist/kli.rb" "" "" "Homebrew Cask" ∅].

Definition sample_ReadFile (path : string) : result string :=
  if bool_decide (path = "/dist/kli.rb") then Ok sample_cask else Ok (TrimPrefix path "/dist/").

Definition sample_verify : result printed :=
  verify_artifacts Ok (λ path, path) (foldr String.append "") sample_ReadFile (λ _, Ok sample_artifacts) sample_sum
    "linux" "amd64" (λ _ _, Ok "1.2.3") "dist" "1.2.3".

Lemma verify_artifacts_installs_witness :
  sample_verify = Ok [("verified %d CLI archives and the kli cask for %s", [ANat 4; AStr "1.2.3"]);
                      ("skipped %s --version: no %s/%s artifact", [AStr "karta"; AStr "linux"; AStr "amd64"])] ∧
  ∃ sums repository, installs "1.2.3" sums repository (scopes [] (Lines sample_cask)).
Proof.
  assert (E : sample_verify = Ok [("verified %d CLI archives and the kli cask for %s", [ANat 4; AStr "1.2.3"]);
                      ("skipped %s --version: no %s/%s artifact", [AStr "karta"; AStr "linux"; AStr "amd64"])])
    by (vm_compute; reflexivity).
  split; [exact E|].
  destruct (verify_artifacts_installs Ok (λ path, path) (foldr String.append "") sample_ReadFile (λ _, Ok sample_artifacts)
    sample_sum "linux" "amd64" (λ _ _, Ok "1.2.3") "dist" "1.2.3" _ E)
    as (artifacts & item & contents & sums & repository & Ha & Hf & Hc & _ & Hi).
  assert (item = MkArtifact "kli.rb" "/dist/kli.rb" "" "" "Homebrew Cask" ∅) as ->.
  { assert (Ea : readArtifacts Ok (λ path, path) (foldr String.append "") sample_ReadFile (λ _, Ok sample_artifacts) "dist"
                 = Ok sample_artifacts) by (vm_compute; reflexivity).
    rewrite Ea in Ha. injection Ha as <-. vm_compute in Hf. by injection Hf as <-. }
  injection Hc as <-. by exists sums, repository.
Defined.

(** A binary in a block of its own is refused. *)
Example scoped_binary :
  is_ok (verifyCask (foldr (λ line text, line +:+ String newline_char text) ""
    ["cask " +:+ quote "kli" +:+ " do"; "on_linux do"; "binary " +:+ quote "kli"; "end"; "end"]) "1.2.3" ∅) = false.
Proof. vm_compute. reflexivity. Qed.
