(* ===== verification/Operator.v ===== *)
(** * Operator: admission and status of Kartas

    Models [operator/pkg]: the conditions of a Karta ([status.go]), the
    reconciler ([controller.go]), the mapping of CRD events ([eventfilter.go]),
    the trimming of the CRD cache ([cache.go]) and the webhooks ([webhook.go]).
    The API server answers through the functions passed to an operation, one
    per call the code makes; [reach] composes the webhooks, the reconciler and
    the stored Kartas.  The condition helpers of apimachinery are an interface
    with its documented laws; texts of errors, the printing of kinds, the parser
    of jq and the fields of CRDs the code does not read are parameters.  Logging
    is left out, the events recorded are kept. *)

From S2P Require Import Prelude Api JqValidate Validator.
From Stdlib Require Import Ascii.

(** ** Conditions *)

Definition ConditionTrue : string := "True".
Definition ConditionFalse : string := "False".

Record Condition := MkCondition {
  cn_Type : string;
  cn_Status : string;
  cn_Reason : string;
  cn_Message : string;
  cn_ObservedGeneration : Z;
}.

(** [apimeta.SetStatusCondition] and [FindStatusCondition]; the transition time
    they keep is not read by the program. *)
Class StatusConditions := {
  SetStatusCondition : list Condition → Condition → list Condition;
  FindStatusCondition : list Condition → string → option Condition;
}.

Class StatusConditionsLaws `{StatusConditions} : Prop := {
  find_set_same cs c t : cn_Type c = t → FindStatusCondition (SetStatusCondition cs c) t = Some c;
  find_set_other cs c t :
    cn_Type c ≠ t → FindStatusCondition (SetStatusCondition cs c) t = FindStatusCondition cs t;
}.

Definition ConditionValidated : string := "Validated".
Definition ConditionCRDExists : string := "CRDExists".
Definition ConditionReady : string := "Ready".

Definition ReasonValidationSucceeded : string := "ValidationSucceeded".
Definition ReasonValidationFailed : string := "ValidationFailed".
Definition ReasonCRDFound : string := "CRDFound".
Definition ReasonCRDNotFound : string := "CRDNotFound".
Definition ReasonReady : string := "Ready".
Definition ReasonNotReady : string := "NotReady".
Definition ReasonPending : string := "Pending".

Definition msgValidationFailed : string := "Karta validation failed".
Definition msgCRDNotFound : string :=
  "CustomResourceDefinition for the root component GVK does not exist in the cluster or does not serve the referenced version".
Definition msgNotReady : string := "Validated and CRDExists must both be True".
Definition msgPending : string := "Condition has not been evaluated yet".

Definition reasonForBool (status trueReason falseReason : string) : string :=
  if bool_decide (status = ConditionTrue) then trueReason else falseReason.

Definition msgWhenFalse (status fallback : string) : string :=
  if bool_decide (status = ConditionTrue) then "" else fallback.

Section status.
Context `{StatusConditions}.

Definition setValidated (status : list Condition) (generation : Z) (s msg : string) : list Condition :=
  let msg := if bool_decide (s = ConditionFalse ∧ msg = "") then msgValidationFailed else msg in
  SetStatusCondition status
    (MkCondition ConditionValidated s
       (reasonForBool s ReasonValidationSucceeded ReasonValidationFailed) (msgWhenFalse s msg) generation).

Definition setCRDExists (status : list Condition) (generation : Z) (s msg : string) : list Condition :=
  let msg := if bool_decide (s = ConditionFalse ∧ msg = "") then msgCRDNotFound else msg in
  SetStatusCondition status
    (MkCondition ConditionCRDExists s
       (reasonForBool s ReasonCRDFound ReasonCRDNotFound) (msgWhenFalse s msg) generation).

(** The closure [statusOf] of [setReady]. *)
Definition statusOf (status : list Condition) (t : string) : string :=
  match FindStatusCondition status t with Some c => cn_Status c | None => ConditionFalse end.

Definition setReady (status : list Condition) (generation : Z) : list Condition * string :=
  let '(readyStatus, readyReason, readyMsg) :=
    if bool_decide (statusOf status ConditionValidated = ConditionTrue ∧
                    statusOf status ConditionCRDExists = ConditionTrue)
    then (ConditionTrue, ReasonReady, "")
    else (ConditionFalse, ReasonNotReady, msgNotReady) in
  (SetStatusCondition status (MkCondition ConditionReady readyStatus readyReason readyMsg generation),
   readyStatus).

Definition setDefault (generation : Z) (status : list Condition) (t : string) : list Condition :=
  match FindStatusCondition status t with
  | Some _ => status
  | None => SetStatusCondition status (MkCondition t ConditionFalse ReasonPending msgPending generation)
  end.

Definition setDefaultConditions (status : list Condition) (generation : Z) : list Condition :=
  foldl (setDefault generation) status [ConditionValidated; ConditionCRDExists; ConditionReady].
End status.

(** ** Objects *)

(** A Karta as the operator holds it. *)
Record KartaResource := MkResource {
  kr_Karta : Karta;
  kr_Generation : Z;
  kr_Deleting : bool;
  kr_Conditions : list Condition;
}.

Definition kr_Name (k : KartaResource) : string := k_Name (kr_Karta k).
Definition kr_Labels (k : KartaResource) : gmap string string := om_Labels (k_ObjectMeta (kr_Karta k)).

Definition with_conditions (k : KartaResource) (cs : list Condition) : KartaResource :=
  MkResource (kr_Karta k) (kr_Generation k) (kr_Deleting k) cs.

Definition with_labels (k : KartaResource) (labels : gmap string string) : KartaResource :=
  let om := k_ObjectMeta (kr_Karta k) in
  MkResource
    (Build_Karta
       (Build_ObjectMeta (om_Name om) (om_UID om) (om_ResourceVersion om) (om_CreationTimestamp om) labels)
       (k_Spec (kr_Karta k)))
    (kr_Generation k) (kr_Deleting k) (kr_Conditions k).

(** A CRD: what the program reads of it and the rest of its parts. *)
Class CRDFields := {
  version_fields : Type;
  crd_fields : Type;
  no_version_fields : version_fields;
  no_crd_fields : crd_fields;
}.

Record CRDVersion `{CRDFields} := MkCRDVersion {
  crv_Name : string;
  crv_Served : bool;
  crv_rest : version_fields;
}.

Record CRD `{CRDFields} := MkCRD {
  crd_Name : string;
  crd_ResourceVersion : string;
  crd_Generation : Z;
  crd_Group : string;
  crd_Kind : string;
  crd_Versions : list CRDVersion;
  crd_rest : crd_fields;
}.

(** An object handed over as [any] or [client.Object]. *)
Inductive any `{CRDFields} :=
  | ACRD (crd : CRD)
  | ANotCRD (type : string).

Definition TrimCRDFields `{CRDFields} (i : any) : any :=
  match i with
  | ANotCRD _ => i
  | ACRD crd =>
      let versions :=
        (λ v, MkCRDVersion _ (crv_Name v) (crv_Served v) no_version_fields) <$> crd_Versions crd in
      ACRD (MkCRD _ (crd_Name crd) (crd_ResourceVersion crd) (crd_Generation crd)
              (crd_Group crd) (crd_Kind crd) versions no_crd_fields)
  end.

Definition crdServesVersion `{CRDFields} (crd : CRD) (version : string) : bool :=
  existsb (λ v, bool_decide (crv_Name v = version) && crv_Served v) (crd_Versions crd).

(** ** Root kinds and labels *)

Definition LabelRootGroup : string := "karta.run.ai/group".
Definition LabelRootVersion : string := "karta.run.ai/version".
Definition LabelRootKind : string := "karta.run.ai/kind".

Definition rootGVK (k : KartaResource) : option GroupVersionKind := cd_Kind (RootComponent (kr_Karta k)).

Definition desiredRootLabels (k : KartaResource) : option (gmap string string) :=
  match rootGVK k with
  | None => None
  | Some gvk => Some (<[LabelRootGroup := gvk_Group gvk]>
                     (<[LabelRootVersion := gvk_Version gvk]>
                     {[LabelRootKind := gvk_Kind gvk]}))
  end.

Definition labelsMatch (current desired : gmap string string) : bool :=
  forallb (λ '(k, v), bool_decide (default "" (current !! k) = v)) (map_to_list desired).

(** [for k, v := range desired { karta.Labels[k] = v }] *)
Definition stamp (current desired : gmap string string) : gmap string string := desired ∪ current.

(** ** The reconciler *)

Inductive effect :=
  | Eventf (reason action note : string)
  | PatchLabels (karta base : KartaResource)
  | PatchStatus (karta base : KartaResource).

Section reconciler.
Context `{StatusConditions} `{CRDFields}.
Context (Error : error → string) (gvk_String : GroupVersionKind → string) (gk_String : GroupKind → string).
Context (Parse : string → result aval) (meta status : list rfield).

(** The index functions of [SetupWithManager]. *)
Definition indexCRDByGroupKind (crd : CRD) : list string := [gk_String (GK (crd_Group crd) (crd_Kind crd))].
Definition indexKartaByRootGVK (k : KartaResource) : list string :=
  match rootGVK k with None => [] | Some gvk => [gvk_String gvk] end.

Record APIResource := MkAPIResource { ar_Name : string; ar_Kind : string; ar_Verbs : list string }.
Record APIResourceList := MkAPIResourceList { arl_GroupVersion : string; arl_APIResources : list APIResource }.

Definition string_contains (c : ascii) (s : string) : bool := existsb (Ascii.eqb c) (String.list_ascii_of_string s).

Definition native_of (crdGKs : gset GroupKind) (gv : string * string) (res : APIResource)
    : option GroupVersionKind :=
  if string_contains "/"%char (ar_Name res) then None
  else if bool_decide (GK gv.1 (ar_Kind res) ∈ crdGKs) then None
  else if negb (bool_decide ("list" ∈ ar_Verbs res)) || negb (bool_decide ("watch" ∈ ar_Verbs res)) then None
  else Some (GVK gv.1 gv.2 (ar_Kind res)).

(** [listed] is the answer to the list of CRDs, [served] what
    [ServerGroupsAndResources] returns. *)
Definition discoverNativeGVKs (ParseGroupVersion : string → result (string * string))
    (IsGroupDiscoveryFailedError : error → bool)
    (listed : result (list CRD)) (served : list APIResourceList * option error)
    : result (gset GroupVersionKind) :=
  match listed with
  | Fail err => Fail (Errorf "list CRDs: %w" [] [err])
  | Ok crds =>
      let crdGKs : gset GroupKind := list_to_set ((λ crd, GK (crd_Group crd) (crd_Kind crd)) <$> crds) in
      let '(resourceLists, err) := served in
      let natives : gset GroupVersionKind := list_to_set (
        resourceLists ≫= λ list,
          match ParseGroupVersion (arl_GroupVersion list) with
          | Fail _ => []
          | Ok gv => omap (native_of crdGKs gv) (arl_APIResources list)
          end) in
      match err with
      | Some err =>
          if IsGroupDiscoveryFailedError err then Ok natives
          else Fail (Errorf "list server resources: %w" [] [err])
      | None => Ok natives
      end
  end.

(** [List] by the index of CRDs. *)
Context (nativeGVKs : gset GroupVersionKind) (ListCRDs : string → result (list CRD)).

Definition checkGVKServed (gvk : GroupVersionKind) : result bool :=
  if bool_decide (gvk ∈ nativeGVKs) then Ok true
  else match ListCRDs (gk_String (GK (gvk_Group gvk) (gvk_Kind gvk))) with
       | Fail err => Fail (Errorf "list CRDs: %w" [] [err])
       | Ok crds => Ok (existsb (λ crd, crdServesVersion crd (gvk_Version gvk)) crds)
       end.

Definition validateKarta (k : KartaResource) : list effect * KartaResource :=
  match Validate Parse meta status (Some (kr_Karta k)) with
  | Some err =>
      ([Eventf ReasonValidationFailed "Validating" (Error err)],
       with_conditions k (setValidated (kr_Conditions k) (kr_Generation k) ConditionFalse (Error err)))
  | None => ([], with_conditions k (setValidated (kr_Conditions k) (kr_Generation k) ConditionTrue ""))
  end.

Definition msg_not_served (gvk : GroupVersionKind) : string :=
  "CRD for " +:+ gvk_Group gvk +:+ "/" +:+ gvk_Kind gvk +:+
  " not found or does not serve version " +:+ gvk_Version gvk.

Definition checkCRDExists (k : KartaResource) : list effect * KartaResource * option error :=
  match rootGVK k with
  | None => ([], with_conditions k (setCRDExists (kr_Conditions k) (kr_Generation k) ConditionFalse ""), None)
  | Some gvk =>
      match checkGVKServed gvk with
      | Fail err => ([], k, Some (Errorf "check CRD existence for karta %q: %w" [AStr (kr_Name k)] [err]))
      | Ok true =>
          ([], with_conditions k (setCRDExists (kr_Conditions k) (kr_Generation k) ConditionTrue ""), None)
      | Ok false =>
          let msg := msg_not_served gvk in
          ([Eventf ReasonCRDNotFound "CheckingCRD" msg],
           with_conditions k (setCRDExists (kr_Conditions k) (kr_Generation k) ConditionFalse msg), None)
      end
  end.

(** [Patch] writes the labels and fills the object with the server's answer. *)
Context (Patch : KartaResource → KartaResource → result KartaResource).

Definition ensureLabels (k : KartaResource) : list effect * KartaResource * option error :=
  match desiredRootLabels k with
  | None => ([], k, None)
  | Some desired =>
      if labelsMatch (kr_Labels k) desired then ([], k, None)
      else
        let base := k in
        let k := with_labels k (stamp (kr_Labels k) desired) in
        match Patch k base with
        | Fail err =>
            ([PatchLabels k base], k, Some (Errorf "patch labels for karta %q: %w" [AStr (kr_Name k)] [err]))
        | Ok k' => ([PatchLabels k base], k', None)
        end
  end.

Definition reconcile (k : KartaResource) : list effect * KartaResource * option error :=
  let k := with_conditions k (setDefaultConditions (kr_Conditions k) (kr_Generation k)) in
  let '(validated, k) := validateKarta k in
  match checkCRDExists k with
  | (checked, k, Some err) => (validated ++ checked, k, Some err)
  | (checked, k, None) =>
      match ensureLabels k with
      | (ensured, k, Some err) => (validated ++ checked ++ ensured, k, Some err)
      | (ensured, k, None) =>
          (validated ++ checked ++ ensured,
           with_conditions k (setReady (kr_Conditions k) (kr_Generation k)).1, None)
      end
  end.

Context (IsNotFound : error → bool) (Get : string → result KartaResource).
Context (StatusPatch : KartaResource → KartaResource → option error).

Definition Reconcile (name : string) : list effect * option error :=
  match Get name with
  | Fail err =>
      if IsNotFound err then ([], None) else ([], Some (Errorf "get karta %q: %w" [AStr name] [err]))
  | Ok karta =>
      if kr_Deleting karta then ([], None)
      else
        let base := karta in
        let '(effects, karta, err) := reconcile karta in
        (effects ++ [PatchStatus karta base],
         match StatusPatch karta base with
         | None => err
         | Some patchErr =>
             errors_Join (option_list err ++
               [Errorf "failed to update status for karta %q: %w" [AStr (kr_Name karta)] [patchErr]])
         end)
  end.

(** [ListKartas] answers a list with label requirements. *)
Context (ListKartas : gmap string string → result (list KartaResource)).

Definition MapCRDToKartaEvent (obj : any) : list string :=
  match obj with
  | ANotCRD _ => []
  | ACRD crd =>
      match ListKartas (<[LabelRootGroup := crd_Group crd]> {[LabelRootKind := crd_Kind crd]}) with
      | Fail _ => []
      | Ok kartas => kr_Name <$> kartas
      end
  end.

(** ** The webhooks *)

Definition KartaLabeler_Default (k : KartaResource) : KartaResource :=
  match desiredRootLabels k with
  | None => k
  | Some desired => with_labels k (stamp (kr_Labels k) desired)
  end.

(** [ListByRoot] answers a list by the index of root kinds. *)
Context (ListByRoot : string → result (list KartaResource)).

Definition checkUniqueRootGVK (k : KartaResource) : option error :=
  match rootGVK k with
  | None => None
  | Some gvk =>
      match ListByRoot (gvk_String gvk) with
      | Fail err => Some (Errorf "check karta uniqueness: %w" [] [err])
      | Ok items =>
          match list_find (λ item, kr_Name item ≠ kr_Name k) items with
          | Some (_, item) =>
              Some (Errorf "a Karta for group %q version %q kind %q already exists (%q); only one Karta per group/version/kind is allowed"
                      [AStr (gvk_Group gvk); AStr (gvk_Version gvk); AStr (gvk_Kind gvk); AStr (kr_Name item)] [])
          | None => None
          end
      end
  end.

Definition checkRootLabels (k : KartaResource) : option error :=
  match list_find (λ kv, kr_Labels k !! kv.1 ≠ Some kv.2)
          (map_to_list (default ∅ (desiredRootLabels k))) with
  | Some (_, (key, want)) =>
      Some (Errorf "label %q is managed by the operator and must equal %q; it cannot be edited or removed"
              [AStr key; AStr want] [])
  | None => None
  end.

Definition ValidateCreate (k : KartaResource) : option error :=
  match Validate Parse meta status (Some (kr_Karta k)) with
  | Some err => Some err
  | None => checkUniqueRootGVK k
  end.

Definition ValidateUpdate (oldObj k : KartaResource) : option error :=
  match Validate Parse meta status (Some (kr_Karta k)) with
  | Some err => Some err
  | None =>
      match rootGVK oldObj, rootGVK k with
      | Some oldGVK, Some newGVK =>
          if bool_decide (oldGVK ≠ newGVK)
          then Some (Errorf "the root component GVK is immutable and cannot be changed after creation" [] [])
          else match checkRootLabels k with
               | Some err => Some err
               | None => checkUniqueRootGVK k
               end
      | _, _ => Some (Errorf "the root component GVK is immutable and cannot be changed after creation" [] [])
      end
  end.

Definition ValidateDelete (k : KartaResource) : option error := None.
End reconciler.

(** ** What is reported *)

(** Condition [t] says [b] and was observed at [generation]. *)
Definition says `{StatusConditions} (cs : list Condition) (t : string) (b : bool) (generation : Z) : Prop :=
  ∃ c, FindStatusCondition cs t = Some c ∧
       cn_Status c = (if b then ConditionTrue else ConditionFalse) ∧ cn_ObservedGeneration c = generation.

(** From [cs] to [cs'] only condition [t] changed; it now says [b]. *)
Definition writes `{StatusConditions} (cs cs' : list Condition) (t : string) (b : bool) (g : Z) : Prop :=
  says cs' t b g ∧ ∀ t', t' ≠ t → FindStatusCondition cs' t' = FindStatusCondition cs t'.

Section reports.
Context `{!StatusConditions} `{!StatusConditionsLaws}.

Lemma set_writes cs t s reason message g (b : bool) :
  s = (if b then ConditionTrue else ConditionFalse) →
  writes cs (SetStatusCondition cs (MkCondition t s reason message g)) t b g.
Proof.
  intros ->. split.
  - eexists. split; [by rewrite find_set_same|done].
  - intros t' Ht. by rewrite find_set_other by (cbn; congruence).
Qed.

Lemma writes_says cs cs' t b g t' b' g' :
  writes cs cs' t b g → t' ≠ t → says cs t' b' g' → says cs' t' b' g'.
Proof. intros [_ Hw] Ht (c & Hc & ?). exists c. by rewrite Hw. Qed.

Lemma says_statusOf cs t b g :
  says cs t b g → statusOf cs t = (if b then ConditionTrue else ConditionFalse).
Proof. intros (c & Hc & Hs & _). unfold statusOf. by rewrite Hc. Qed.

Lemma setValidated_writes cs g msg (b : bool) :
  writes cs (setValidated cs g (if b then ConditionTrue else ConditionFalse) msg) ConditionValidated b g.
Proof. by apply set_writes. Qed.

Lemma setCRDExists_writes cs g msg (b : bool) :
  writes cs (setCRDExists cs g (if b then ConditionTrue else ConditionFalse) msg) ConditionCRDExists b g.
Proof. by apply set_writes. Qed.

Lemma setReady_writes cs g v e :
  says cs ConditionValidated v g → says cs ConditionCRDExists e g →
  writes cs (setReady cs g).1 ConditionReady (v && e) g.
Proof.
  intros Hv He. unfold setReady.
  rewrite (says_statusOf _ _ _ _ Hv), (says_statusOf _ _ _ _ He).
  replace (bool_decide _) with (v && e) by (by destruct v, e).
  destruct (v && e); by apply set_writes.
Qed.

Lemma setDefault_find g cs t t' :
  FindStatusCondition (setDefault g cs t) t' =
  match FindStatusCondition cs t' with
  | Some c => Some c
  | None => if bool_decide (t' = t) then Some (MkCondition t ConditionFalse ReasonPending msgPending g) else None
  end.
Proof.
  unfold setDefault. destruct (FindStatusCondition cs t) eqn:E; case_bool_decide as Ht; subst.
  - by rewrite E.
  - by destruct (FindStatusCondition cs t').
  - by rewrite E, find_set_same.
  - rewrite find_set_other by (by intros [= ->]). by destruct (FindStatusCondition cs t').
Qed.
End reports.

(** A label that is desired empty is matched by its absence: nothing is stamped
    then (compare [checkRootLabels], which asks for presence). *)
Lemma labelsMatch_true current desired :
  labelsMatch current desired = true ↔
  ∀ k v, desired !! k = Some v → current !! k = Some v ∨ (v = "" ∧ current !! k = None).
Proof.
  unfold labelsMatch. rewrite forallb_forall. split.
  - intros H k v Hkv. specialize (H (k, v)). rewrite <- list_elem_of_In, elem_of_map_to_list in H.
    specialize (H Hkv). apply bool_decide_eq_true in H.
    destruct (current !! k); cbn in H; subst; auto.
  - intros H [k v]. rewrite <- list_elem_of_In, elem_of_map_to_list. intros Hkv.
    apply bool_decide_eq_true. by destruct (H k v Hkv) as [->|[-> ->]].
Qed.

Lemma labelsMatch_subseteq current desired : desired ⊆ current → labelsMatch current desired = true.
Proof. intros H. apply labelsMatch_true. intros k v Hk. left. by eapply lookup_weaken. Qed.

Lemma stamp_subseteq current desired : desired ⊆ stamp current desired.
Proof. apply map_union_subseteq_l. Qed.

Lemma stamp_idemp current desired : stamp (stamp current desired) desired = stamp current desired.
Proof. unfold stamp. by rewrite (assoc_L _), (idemp_L _). Qed.

Lemma desired_with_labels k labels : desiredRootLabels (with_labels k labels) = desiredRootLabels k.
Proof. done. Qed.
Lemma labels_with_labels k labels : kr_Labels (with_labels k labels) = labels.
Proof. done. Qed.

(** What the reconciler reads of a CRD survives the trimming of the cache. *)
Lemma TrimCRDFields_versions `{CRDFields} crd crd' version :
  TrimCRDFields (ACRD crd) = ACRD crd' →
  crd_Name crd' = crd_Name crd ∧ crd_Generation crd' = crd_Generation crd ∧
  crd_Group crd' = crd_Group crd ∧ crd_Kind crd' = crd_Kind crd ∧
  crdServesVersion crd' version = crdServesVersion crd version ∧
  TrimCRDFields (ACRD crd') = ACRD crd'.
Proof.
  cbn. intros [= <-]. cbn. split_and!; try done.
  - unfold crdServesVersion. cbn. induction (crd_Versions crd); csimpl; [done|]. by f_equal.
  - do 2 f_equal. rewrite <- list_fmap_compose. by apply list_fmap_ext.
Qed.

Section native.
Context `{CRDFields} (ParseGroupVersion : string → result (string * string)) (IsFailed : error → bool).

(** The natively served kinds: listable, watchable, not a subresource and not
    defined by a CRD; groups that fail to answer are left out. *)
Lemma discoverNativeGVKs_spec crds lists err natives gvk :
  discoverNativeGVKs ParseGroupVersion IsFailed (Ok crds) (lists, err) = Ok natives →
  gvk ∈ natives ↔
  ∃ l res, l ∈ lists ∧ res ∈ arl_APIResources l ∧
    ParseGroupVersion (arl_GroupVersion l) = Ok (gvk_Group gvk, gvk_Version gvk) ∧
    ar_Kind res = gvk_Kind gvk ∧ string_contains "/" (ar_Name res) = false ∧
    "list" ∈ ar_Verbs res ∧ "watch" ∈ ar_Verbs res ∧
    ∀ crd, crd ∈ crds → ¬ (crd_Group crd = gvk_Group gvk ∧ crd_Kind crd = gvk_Kind gvk).
Proof.
  unfold discoverNativeGVKs. intros Hn.
  match type of Hn with context [list_to_set ?l] => set (found := l) in Hn end.
  assert (natives = list_to_set found) as ->.
  { destruct err; [destruct (IsFailed _)|]; by simplify_eq. }
  clear Hn. rewrite elem_of_list_to_set. subst found.
  rewrite list_elem_of_bind. split.
  - intros (l & Hin & Hl). destruct (ParseGroupVersion _) as [[g v]|] eqn:E; [|by apply not_elem_of_nil in Hin].
    apply list_elem_of_omap in Hin as (res & Hres & Hnat). exists l, res.
    unfold native_of in Hnat. destruct (string_contains _ _); [done|].
    case_bool_decide as Hcrd; [done|]. case_bool_decide; [|done]. case_bool_decide; [|done].
    injection Hnat as <-. split_and!; try done. cbn in *.
    intros crd Hc [Hg Hk]. apply Hcrd. rewrite elem_of_list_to_set, list_elem_of_fmap.
    exists crd. by rewrite Hg, Hk.
  - intros (l & res & Hl & Hres & Hgv & Hk & Hs & Hli & Hw & Hcrd). exists l. split; [|done].
    rewrite Hgv. apply list_elem_of_omap. exists res. split; [done|].
    unfold native_of. rewrite Hs. rewrite bool_decide_eq_false_2.
    + rewrite (bool_decide_eq_true_2 _ Hli), (bool_decide_eq_true_2 _ Hw), Hk. by destruct gvk.
    + cbn. rewrite Hk, elem_of_list_to_set, list_elem_of_fmap. intros (crd & [= Hg Hkk] & Hc).
      by apply (Hcrd crd).
Qed.
End native.

(** ** One reconciliation *)

Definition is_event (e : effect) : bool := match e with Eventf _ _ _ => true | _ => false end.

(** The labels leave nothing to stamp. *)
Definition settled_labels (k : KartaResource) : Prop :=
  ∀ desired, desiredRootLabels k = Some desired → labelsMatch (kr_Labels k) desired = true.

(** A condition the reconciliation did not come to: what it was, or pending. *)
Definition kept_condition `{StatusConditions} (k k' : KartaResource) (t : string) : Prop :=
  FindStatusCondition (kr_Conditions k') t =
  Some (default (MkCondition t ConditionFalse ReasonPending msgPending (kr_Generation k))
          (FindStatusCondition (kr_Conditions k) t)).

Lemma setDefaultConditions_find `{StatusConditionsLaws} cs g t :
  t = ConditionValidated ∨ t = ConditionCRDExists ∨ t = ConditionReady →
  FindStatusCondition (setDefaultConditions cs g) t =
  Some (default (MkCondition t ConditionFalse ReasonPending msgPending g) (FindStatusCondition cs t)).
Proof.
  intros Ht. unfold setDefaultConditions. cbn [foldl].
  rewrite !setDefault_find. by destruct Ht as [->|[->| ->]]; destruct (FindStatusCondition cs _).
Qed.

Section reconciles.
Context `{!StatusConditions} `{!StatusConditionsLaws} `{!CRDFields}.
Context (Error : error → string) (gk_String : GroupKind → string).
Context (Parse : string → result aval) (meta status : list rfield).
Context (nativeGVKs : gset GroupVersionKind) (ListCRDs : string → result (list CRD)).
Context (Patch : KartaResource → KartaResource → result KartaResource).

Abbreviation served gvk := (checkGVKServed gk_String nativeGVKs ListCRDs gvk).

(** Whether the root kind is served; no kind is not. *)
Definition root_served (k : KartaResource) : result bool :=
  match rootGVK k with None => Ok false | Some gvk => served gvk end.

Definition accepted (k : KartaResource) : bool :=
  match Validate Parse meta status (Some (kr_Karta k)) with None => true | Some _ => false end.

Lemma validateKarta_spec k :
  ∃ events k', validateKarta Error Parse meta status k = (events, k') ∧
    Forall is_event events ∧ kr_Karta k' = kr_Karta k ∧ kr_Generation k' = kr_Generation k ∧
    writes (kr_Conditions k) (kr_Conditions k') ConditionValidated (accepted k) (kr_Generation k).
Proof.
  unfold validateKarta, accepted. destruct (Validate _ _ _ _) as [err|];
    do 2 eexists; (split; [reflexivity|]); (split_and!; [by repeat constructor|done|done|]).
  - apply (setValidated_writes _ _ _ false).
  - apply (setValidated_writes _ _ _ true).
Qed.

Lemma checkCRDExists_spec k :
  ∃ events k' err, checkCRDExists gk_String nativeGVKs ListCRDs k = (events, k', err) ∧
    Forall is_event events ∧ kr_Karta k' = kr_Karta k ∧ kr_Generation k' = kr_Generation k ∧
    match root_served k with
    | Ok b => err = None ∧
              writes (kr_Conditions k) (kr_Conditions k') ConditionCRDExists b (kr_Generation k)
    | Fail _ => is_Some err ∧ k' = k
    end.
Proof.
  unfold checkCRDExists, root_served.
  destruct (rootGVK k) as [gvk|]; [destruct (served gvk) as [[]|err]|];
    do 3 eexists; (split; [reflexivity|]);
    (split; [by repeat constructor|]); split_and!; eauto.
  - apply (setCRDExists_writes _ _ _ true).
  - apply (setCRDExists_writes _ _ _ false).
  - apply (setCRDExists_writes _ _ _ false).
Qed.

Lemma checkCRDExists_says k events k' err :
  checkCRDExists gk_String nativeGVKs ListCRDs k = (events, k', err) →
  says (kr_Conditions k) ConditionValidated (accepted k) (kr_Generation k) →
  says (kr_Conditions k') ConditionValidated (accepted k) (kr_Generation k).
Proof.
  intros Hc Hv. destruct (checkCRDExists_spec k) as (? & ? & ? & Hc' & _ & _ & _ & Hr).
  rewrite Hc in Hc'. injection Hc' as <- <- <-.
  destruct (root_served k); [|by destruct Hr as [_ ->]].
  destruct Hr as [_ Hw]. by eapply writes_says.
Qed.

Lemma ensureLabels_settled k : settled_labels k → ensureLabels Patch k = ([], k, None).
Proof.
  intros Hs. unfold ensureLabels, settled_labels in *. destruct (desiredRootLabels k); [|done].
  by rewrite Hs.
Qed.

Lemma settled_labels_Karta k k' : kr_Karta k' = kr_Karta k → settled_labels k → settled_labels k'.
Proof. unfold settled_labels, desiredRootLabels, rootGVK, kr_Labels. by intros ->. Qed.
Lemma accepted_Karta k k' : kr_Karta k' = kr_Karta k → accepted k' = accepted k.
Proof. unfold accepted. by intros ->. Qed.
Lemma root_served_Karta k k' : kr_Karta k' = kr_Karta k → root_served k' = root_served k.
Proof. unfold root_served, rootGVK. by intros ->. Qed.

(** What a reconciliation that stamps no label does to the Karta it holds. *)
Lemma reconcile_spec k :
  settled_labels k →
  ∃ events k' err,
    reconcile Error gk_String Parse meta status nativeGVKs ListCRDs Patch k = (events, k', err) ∧
    Forall is_event events ∧ kr_Karta k' = kr_Karta k ∧
    says (kr_Conditions k') ConditionValidated (accepted k) (kr_Generation k) ∧
    match root_served k with
    | Ok b => err = None ∧ says (kr_Conditions k') ConditionCRDExists b (kr_Generation k) ∧
              says (kr_Conditions k') ConditionReady (accepted k && b) (kr_Generation k)
    | Fail _ => is_Some err ∧ kept_condition k k' ConditionCRDExists ∧ kept_condition k k' ConditionReady
    end.
Proof.
  intros Hs. unfold reconcile.
  set (k0 := with_conditions k _). change (kr_Generation k) with (kr_Generation k0).
  destruct (validateKarta_spec k0) as (e1 & k1 & -> & He1 & Hk1 & Hg1 & Hw1).
  destruct (checkCRDExists_spec k1) as (e2 & k2 & err & Hc & He2 & Hk2 & Hg2 & H2). rewrite Hc.
  change (kr_Karta k0) with (kr_Karta k) in Hk1.
  rewrite (accepted_Karta k k0 eq_refl) in Hw1. rewrite (root_served_Karta _ _ Hk1) in H2.
  assert (Hv2 : says (kr_Conditions k2) ConditionValidated (accepted k) (kr_Generation k0)).
  { rewrite <- Hg1, <- (accepted_Karta _ _ Hk1). eapply checkCRDExists_says; [done|].
    rewrite Hg1, (accepted_Karta _ _ Hk1). apply Hw1. }
  destruct (root_served k) as [b|e]; destruct H2 as [Herr H2].
  - subst err. rewrite ensureLabels_settled by (by eapply settled_labels_Karta; [|exact Hs]; congruence).
    rewrite Hg1 in H2. destruct H2 as [He _].
    pose proof (setReady_writes _ _ _ _ Hv2 He) as Hr. rewrite <- Hg1, <- Hg2 in Hr.
    do 3 eexists. split; [reflexivity|]. rewrite app_nil_r.
    split_and!; [by apply Forall_app|cbn; congruence| |done| |].
    + rewrite <- Hg1, <- Hg2 in Hv2 |- *. by eapply writes_says.
    + rewrite <- Hg1, <- Hg2 in He |- *. by eapply writes_says.
    + rewrite <- Hg1, <- Hg2. apply Hr.
  - destruct err as [err|]; [|by destruct Herr]. subst k2.
    do 3 eexists. split; [reflexivity|].
    assert (Hkept : ∀ t, t = ConditionCRDExists ∨ t = ConditionReady → kept_condition k k1 t).
    { intros t Ht. unfold kept_condition. destruct Hw1 as [_ ->]; [|by destruct Ht as [->| ->]].
      apply setDefaultConditions_find. tauto. }
    split_and!; eauto. by apply Forall_app.
Qed.

(** A label patch fills the Karta with what the server holds: the conditions
    just written are replaced, and Ready is derived from the stored ones. *)
Lemma reconcile_patched k desired k' events k2 :
  desiredRootLabels k = Some desired → labelsMatch (kr_Labels k) desired = false →
  reconcile Error gk_String Parse meta status nativeGVKs ListCRDs (λ _ _, Ok k') k = (events, k2, None) →
  k2 = with_conditions k' (setReady (kr_Conditions k') (kr_Generation k')).1.
Proof.
  intros Hd Hl. unfold reconcile.
  set (k0 := with_conditions k _).
  destruct (validateKarta_spec k0) as (e1 & k1 & -> & _ & Hk1 & _).
  destruct (checkCRDExists_spec k1) as (e2 & k3 & err & -> & _ & Hk3 & _).
  destruct err; [done|]. unfold ensureLabels.
  replace (desiredRootLabels k3) with (desiredRootLabels k)
    by (unfold desiredRootLabels, rootGVK; by rewrite Hk3, Hk1).
  replace (kr_Labels k3) with (kr_Labels k) by (unfold kr_Labels; by rewrite Hk3, Hk1).
  rewrite Hd, Hl. by intros [= _ <-].
Qed.
End reconciles.

(** ** The stored Kartas *)

Abbreviation cluster := (gmap string KartaResource).

(** The labels of its root kind are on the Karta. *)
Definition labelled (k : KartaResource) : Prop :=
  ∃ desired, desiredRootLabels k = Some desired ∧ desired ⊆ kr_Labels k.

Lemma labelled_settled k : labelled k → settled_labels k.
Proof. intros (d & Hd & Hsub) d' Hd'. simplify_eq. by apply labelsMatch_subseteq. Qed.

Lemma Default_labelled k : is_Some (rootGVK k) → labelled (KartaLabeler_Default k).
Proof.
  intros [gvk Hg]. unfold KartaLabeler_Default.
  destruct (desiredRootLabels k) as [d|] eqn:E; [|unfold desiredRootLabels in E; by rewrite Hg in E].
  exists d. split; [done|]. rewrite labels_with_labels. apply stamp_subseteq.
Qed.

Lemma checkRootLabels_None k : is_Some (rootGVK k) → checkRootLabels k = None → labelled k.
Proof.
  intros [gvk Hg]. unfold labelled, checkRootLabels, desiredRootLabels. rewrite Hg. cbn [default].
  destruct (list_find _ _) as [[? [? ?]]|] eqn:E; [done|]. intros _.
  eexists. split; [reflexivity|]. apply map_subseteq_spec. intros key v Hkv.
  rewrite list_find_None, Forall_forall in E. apply dec_stable.
  apply (E (key, v)). by apply elem_of_map_to_list.
Qed.

Lemma labelled_lookup k gvk :
  labelled k → rootGVK k = Some gvk →
  kr_Labels k !! LabelRootGroup = Some (gvk_Group gvk) ∧
  kr_Labels k !! LabelRootKind = Some (gvk_Kind gvk).
Proof.
  intros (d & Hd & Hsub) Hg. unfold desiredRootLabels in Hd. rewrite Hg in Hd. injection Hd as <-.
  split; eapply lookup_weaken; [|exact Hsub| |exact Hsub]; reflexivity.
Qed.

Section cluster.
Context (gvk_String : GroupVersionKind → string).
Context (Parse : string → result aval) (meta status : list rfield).

(** What the webhooks see of the Kartas when they check a root kind. *)
Context (views : cluster → (string → result (list KartaResource)) → Prop).

(** The requests the API server accepts, and the status written by the
    reconciler or anyone else; a new object has no status, and an update leaves
    it as it is. *)
Inductive step (st : cluster) : cluster → Prop :=
  | step_create k view :
      let k' := with_conditions (KartaLabeler_Default k) [] in
      st !! kr_Name k = None → views st view →
      ValidateCreate gvk_String Parse meta status view k' = None →
      step st (<[kr_Name k := k']> st)
  | step_update old k view :
      st !! kr_Name k = Some old → views st view →
      ValidateUpdate gvk_String Parse meta status view old k = None →
      step st (<[kr_Name k := with_conditions k (kr_Conditions old)]> st)
  | step_delete name k :
      st !! name = Some k → ValidateDelete k = None → step st (delete name st)
  | step_status name k cs :
      st !! name = Some k → step st (<[name := with_conditions k cs]> st).

Definition reach : cluster → Prop := rtc step ∅.

Record admitted (name : string) (k : KartaResource) : Prop := {
  adm_name : kr_Name k = name;
  adm_valid : Validate Parse meta status (Some (kr_Karta k)) = None;
  adm_labels : labelled k;
}.

Definition unique_roots (st : cluster) : Prop :=
  ∀ n1 n2 k1 k2, st !! n1 = Some k1 → st !! n2 = Some k2 → rootGVK k1 = rootGVK k2 → n1 = n2.

(** The view misses no stored Karta of the root kind asked for. *)
Definition complete (st : cluster) (view : string → result (list KartaResource)) : Prop :=
  ∀ key items, view key = Ok items → ∀ name k,
    st !! name = Some k → key ∈ indexKartaByRootGVK gvk_String k → k ∈ items.

Lemma checkUniqueRootGVK_None view k st name k' :
  checkUniqueRootGVK gvk_String view k = None → complete st view →
  st !! name = Some k' → kr_Name k' = name → is_Some (rootGVK k) → rootGVK k' = rootGVK k →
  name = kr_Name k.
Proof.
  unfold checkUniqueRootGVK. intros Hu Hc Hl <- [gvk Hg] Hk. rewrite Hg in Hu, Hk.
  destruct (view _) as [items|] eqn:Ev; [|done].
  destruct (list_find _ _) as [[? ?]|] eqn:E; [done|].
  rewrite list_find_None, Forall_forall in E. apply dec_stable. apply E.
  eapply (Hc _ _ Ev); [done|]. unfold indexKartaByRootGVK. rewrite Hk. set_solver.
Qed.

Context (Hmeta : untagged meta) (Hstatus : untagged status).

Lemma valid_root k : Validate Parse meta status (Some (kr_Karta k)) = None → is_Some (rootGVK k).
Proof.
  intros Hv. apply Validate_None in Hv as [Hwf _]; [|done..].
  destruct (wf_kind _ (wf_of_root _ Hwf)) as (g & Hg & _). by exists g.
Qed.

Lemma ValidateUpdate_None view old k :
  ValidateUpdate gvk_String Parse meta status view old k = None →
  Validate Parse meta status (Some (kr_Karta k)) = None ∧ rootGVK k = rootGVK old ∧
  is_Some (rootGVK k) ∧ labelled k ∧ checkUniqueRootGVK gvk_String view k = None.
Proof.
  unfold ValidateUpdate. destruct (Validate _ _ _ _); [done|].
  destruct (rootGVK old) as [g|] eqn:Eo; [|done]. destruct (rootGVK k) as [g'|] eqn:Ek; [|done].
  case_bool_decide as Hne; [done|]. destruct (checkRootLabels k) eqn:El; [done|]. intros Hu.
  apply checkRootLabels_None in El; [|by rewrite Ek]. subst. eauto.
Qed.

Lemma step_admitted st st' :
  step st st' → map_Forall admitted st → map_Forall admitted st'.
Proof.
  intros Hstep Hadm. destruct Hstep as [k view k' Hn _ Hv|old k view Ho _ Hv|name k Hk _|name k cs Hk].
  - apply map_Forall_insert_2; [|done]. unfold ValidateCreate in Hv.
    destruct (Validate _ _ _ _) eqn:E; [done|]. split; [|done|].
    + subst k'. unfold KartaLabeler_Default. by destruct (desiredRootLabels k).
    + apply Default_labelled. apply valid_root in E. subst k'.
      unfold KartaLabeler_Default in E. by destruct (desiredRootLabels k).
  - apply map_Forall_insert_2; [|done]. by apply ValidateUpdate_None in Hv as (? & _ & _ & ? & _).
  - by apply map_Forall_delete.
  - apply map_Forall_insert_2; [|done]. destruct (Hadm _ _ Hk). by split.
Qed.

Lemma insert_unique st k :
  map_Forall admitted st → unique_roots st →
  (∀ name k', st !! name = Some k' → rootGVK k' = rootGVK k → name = kr_Name k) →
  unique_roots (<[kr_Name k := k]> st).
Proof.
  intros Hadm Hun Hk n1 n2 k1 k2 H1 H2 He.
  apply lookup_insert_Some in H1 as [[<- <-]|[Hn1 H1]], H2 as [[<- <-]|[Hn2 H2]]; try done.
  - by rewrite (Hk _ _ H2).
  - by apply (Hk _ _ H1).
  - by apply (Hun _ _ _ _ H1 H2).
Qed.

Lemma step_unique st st' :
  (∀ st view, views st view → complete st view) →
  step st st' → map_Forall admitted st → unique_roots st → unique_roots st'.
Proof.
  intros Hcomplete Hstep Hadm Hun.
  destruct Hstep as [k view k' Hn Hview Hv|old k view Ho Hview Hv|name k Hk _|name k cs Hk].
  - assert (kr_Name k = kr_Name k') as -> by
      (subst k'; unfold KartaLabeler_Default; by destruct (desiredRootLabels k)).
    apply insert_unique; [done..|]. intros name k2 Hk2 He. unfold ValidateCreate in Hv.
    destruct (Validate _ _ _ _) eqn:E; [done|].
    eapply checkUniqueRootGVK_None; eauto using valid_root. apply (adm_name _ _ (Hadm _ _ Hk2)).
  - apply ValidateUpdate_None in Hv as (_ & _ & Hr & _ & Hu).
    apply (insert_unique st (with_conditions k (kr_Conditions old))); [done..|]. intros name k2 Hk2 He.
    eapply checkUniqueRootGVK_None; eauto. apply (adm_name _ _ (Hadm _ _ Hk2)).
  - intros n1 n2 k1 k2 [_ H1]%lookup_delete_Some [_ H2]%lookup_delete_Some. by apply Hun.
  - pose proof (adm_name _ _ (Hadm _ _ Hk)) as <-.
    apply (insert_unique st (with_conditions k cs)); [done..|]. intros name k2 Hk2 He.
    by apply (Hun _ _ _ _ Hk2 Hk).
Qed.

Lemma step_reach_ind (P : cluster → Prop) :
  P ∅ → (∀ st1 st2, reach st1 → step st1 st2 → P st1 → P st2) → ∀ st, reach st → P st.
Proof. intros H0 Hs st Hr. by apply (rtc_ind_r P ∅ H0 Hs). Qed.

Lemma reach_admitted st : reach st → map_Forall admitted st.
Proof.
  revert st. apply step_reach_ind; [apply map_Forall_empty|]. intros st1 st2 _ Hs Hadm.
  by eapply step_admitted.
Qed.

Lemma reach_unique st :
  (∀ st view, views st view → complete st view) → reach st → unique_roots st.
Proof.
  intros Hc. revert st. apply step_reach_ind; [intros n1 n2 k1 k2 []%lookup_empty_Some|].
  intros st1 st2 Hr Hs Hun. eapply step_unique; eauto using reach_admitted.
Qed.
End cluster.

(** ** Properties *)

Section properties.
Context (gvk_String : GroupVersionKind → string) (gk_String : GroupKind → string) (Error : error → string).
Context (Parse : string → result aval) (meta status : list rfield).
Context (views : cluster → (string → result (list KartaResource)) → Prop).

(** C10: in every state the webhooks let the cluster reach, every stored Karta
    is valid, and carries the labels of its root kind; when no view of the
    Kartas is stale, no two of them have the same root kind. *)
Theorem reach_inv st
    (Hmeta : untagged meta) (Hstatus : untagged status)
    (Hreach : reach gvk_String Parse meta status views st) :
  map_Forall (admitted Parse meta status) st ∧
  ((∀ st view, views st view → complete gvk_String st view) → unique_roots st).
Proof.
  split.
  - exact (reach_admitted gvk_String Parse meta status views Hmeta Hstatus st Hreach).
  - intros Hc. exact (reach_unique gvk_String Parse meta status views Hmeta Hstatus st Hc Hreach).
Qed.

(** C13: a reconciliation of a Karta whose labels are in place only records
    events and then writes the status, in which Validated is the validator's
    verdict, CRDExists says whether the root kind is served and Ready is the
    conjunction; when that cannot be told the other two conditions stay as they
    were and the error is returned, and so is a failure to write. *)
Theorem Reconcile_reports `{StatusConditionsLaws} `{CRDFields}
    nativeGVKs ListCRDs Patch IsNotFound Get StatusPatch name k
    (Hget : Get name = Ok k) (Hdel : kr_Deleting k = false) (Hlabels : settled_labels k) :
  ∃ events k' err,
    Reconcile Error gk_String Parse meta status nativeGVKs ListCRDs Patch IsNotFound Get StatusPatch name =
      (events ++ [PatchStatus k' k], err) ∧
    Forall is_event events ∧ kr_Karta k' = kr_Karta k ∧
    says (kr_Conditions k') ConditionValidated (accepted Parse meta status k) (kr_Generation k) ∧
    match root_served gk_String nativeGVKs ListCRDs k with
    | Ok b =>
        says (kr_Conditions k') ConditionCRDExists b (kr_Generation k) ∧
        says (kr_Conditions k') ConditionReady (accepted Parse meta status k && b) (kr_Generation k)
    | Fail _ => kept_condition k k' ConditionCRDExists ∧ kept_condition k k' ConditionReady
    end ∧
    (err = None ↔ is_ok (root_served gk_String nativeGVKs ListCRDs k) ∧ StatusPatch k' k = None).
Proof.
  destruct (reconcile_spec Error gk_String Parse meta status nativeGVKs ListCRDs Patch k Hlabels)
    as (events & k' & err & Hr & Hev & Hk & Hv & Hrest).
  unfold Reconcile. rewrite Hget, Hdel, Hr. do 3 eexists. split; [reflexivity|].
  split; [done|]. split; [done|]. split; [done|].
  destruct (root_served _ _ _ k) as [b|e].
  - destruct Hrest as [-> ?]. split; [done|]. destruct (StatusPatch k' k); cbn; naive_solver.
  - destruct Hrest as [[e' ->] ?]. split; [done|]. destruct (StatusPatch k' k); cbn; naive_solver.
Qed.

(** C20: in a reachable state a CRD event asks for the reconciliation of
    exactly the Kartas whose root is of the CRD's group and kind. *)
Theorem MapCRDToKartaEvent_exact `{CRDFields} ListKartas st (crd : CRD) items name
    (Hmeta : untagged meta) (Hstatus : untagged status)
    (Hreach : reach gvk_String Parse meta status views st)
    (Hlist : ∀ labels items, ListKartas labels = Ok items →
      ∀ k, k ∈ items ↔ ∃ name, st !! name = Some k ∧ labels ⊆ kr_Labels k)
    (Hok : ListKartas (<[LabelRootGroup := crd_Group crd]> {[LabelRootKind := crd_Kind crd]}) = Ok items) :
  name ∈ MapCRDToKartaEvent ListKartas (ACRD crd) ↔
  ∃ k gvk, st !! name = Some k ∧ rootGVK k = Some gvk ∧
           gvk_Group gvk = crd_Group crd ∧ gvk_Kind gvk = crd_Kind crd.
Proof.
  pose proof (reach_admitted gvk_String Parse meta status views Hmeta Hstatus st Hreach) as Hadm.
  cbn [MapCRDToKartaEvent]. rewrite Hok, list_elem_of_fmap. split.
  - intros (k & -> & Hk). apply (Hlist _ _ Hok) in Hk as (n & Hn & Hsub).
    destruct (Hadm _ _ Hn) as [Hname Hv Hl]. destruct (valid_root _ _ _ Hmeta Hstatus k Hv) as [gvk Hg].
    exists k, gvk. rewrite Hname. split; [done|]. split; [done|].
    destruct (labelled_lookup _ _ Hl Hg) as [H1 H2].
    apply map_subseteq_spec with (i := LabelRootGroup) (x := crd_Group crd) in Hsub as H3; [|done].
    apply map_subseteq_spec with (i := LabelRootKind) (x := crd_Kind crd) in Hsub as H4; [|done].
    split; congruence.
  - intros (k & gvk & Hn & Hg & Hgrp & Hkind). destruct (Hadm _ _ Hn) as [Hname Hv Hl].
    exists k. split; [done|]. apply (Hlist _ _ Hok). exists name. split; [done|].
    destruct (labelled_lookup _ _ Hl Hg) as [H1 H2].
    apply insert_subseteq_l; [by rewrite H1, Hgrp|]. apply map_singleton_subseteq_l. by rewrite H2, Hkind.
Qed.

(** In a reachable state the reconciler has no label to stamp. *)
Lemma reach_settled st name k
    (Hmeta : untagged meta) (Hstatus : untagged status) :
  reach gvk_String Parse meta status views st → st !! name = Some k → settled_labels k.
Proof.
  intros Hr Hk. pose proof (reach_admitted gvk_String Parse meta status views Hmeta Hstatus st Hr) as Hadm.
  apply labelled_settled, (adm_labels _ _ _ _ _ (Hadm _ _ Hk)).
Qed.
End properties.

(** ** A concrete cluster *)

(** Conditions as a list with one entry for a type. *)
Fixpoint set_condition (cs : list Condition) (c : Condition) : list Condition :=
  match cs with
  | [] => [c]
  | c' :: cs => if decide (cn_Type c' = cn_Type c) then c :: cs else c' :: set_condition cs c
  end.

Fixpoint find_condition (cs : list Condition) (t : string) : option Condition :=
  match cs with
  | [] => None
  | c :: cs => if decide (cn_Type c = t) then Some c else find_condition cs t
  end.

#[export] Instance list_conditions : StatusConditions := {
  SetStatusCondition := set_condition; FindStatusCondition := find_condition;
}.

#[export] Instance list_conditions_laws : StatusConditionsLaws.
Proof.
  split; intros cs c t Ht; cbn; induction cs as [|c' cs IH]; cbn; repeat (case_decide; cbn); congruence.
Qed.

#[export] Instance sample_crd_fields : CRDFields := {
  version_fields := (); crd_fields := (); no_version_fields := (); no_crd_fields := ();
}.

Definition sample_gvk_String (g : GroupVersionKind) : string :=
  gvk_Group g +:+ "/" +:+ gvk_Version g +:+ ", Kind=" +:+ gvk_Kind g.
Definition sample_gk_String (g : GroupKind) : string := gk_Kind g +:+ "." +:+ gk_Group g.
Definition sample_Parse (s : string) : result aval := Ok AScalar.

(** The index read from the stored Kartas themselves. *)
Definition stored_view (st : cluster) (key : string) : result (list KartaResource) :=
  Ok (filter (λ k, key ∈ indexKartaByRootGVK sample_gvk_String k) (snd <$> map_to_list st)).
Definition stored_views (st : cluster) (view : string → result (list KartaResource)) : Prop :=
  view = stored_view st.

Lemma stored_complete st view : stored_views st view → complete sample_gvk_String st view.
Proof.
  intros -> key items [= <-] name k Hk Hkey. apply list_elem_of_filter. split; [done|].
  apply list_elem_of_fmap. exists (name, k). split; [done|]. by apply elem_of_map_to_list.
Qed.

Definition sample_request : KartaResource := MkResource sample_karta 1 false [].
Definition sample_stored : KartaResource := with_conditions (KartaLabeler_Default sample_request) [].
Definition sample_cluster : cluster := {["sample" := sample_stored]}.

Lemma sample_reach : reach sample_gvk_String sample_Parse [] [] stored_views sample_cluster.
Proof.
  apply rtc_once. apply (step_create _ _ _ _ _ ∅ sample_request (stored_view ∅)); [done|done|].
  vm_compute. reflexivity.
Qed.

Lemma reach_inv_witness :
  untagged [] ∧ reach sample_gvk_String sample_Parse [] [] stored_views sample_cluster ∧
  map_Forall (admitted sample_Parse [] []) sample_cluster ∧ unique_roots sample_cluster.
Proof.
  split; [by split|]. split; [exact sample_reach|].
  destruct (reach_inv sample_gvk_String sample_Parse [] [] stored_views sample_cluster
              (conj eq_refl eq_refl) (conj eq_refl eq_refl) sample_reach) as [H1 H2].
  split; [exact H1|]. apply H2. exact stored_complete.
Defined.

Definition sample_crd : CRD :=
  MkCRD _ "jobs.batch" "7" 1 "batch" "Job" [MkCRDVersion _ "v1beta1" false (); MkCRDVersion _ "v1" true ()] ().

Definition sample_reconcile : list effect * option error :=
  Reconcile (λ _, "invalid") sample_gk_String sample_Parse [] [] ∅ (λ _, Ok [sample_crd])
    (λ _ _, Fail (External "forbidden")) (λ _, false) (λ _, Ok sample_stored) (λ _ _, None) "sample".

Lemma Reconcile_reports_witness :
  settled_labels sample_stored ∧
  ∃ events k' err,
    sample_reconcile = (events ++ [PatchStatus k' sample_stored], err) ∧
    says (kr_Conditions k') ConditionReady true 1 ∧ err = None.
Proof.
  assert (Hs : settled_labels sample_stored).
  { apply (reach_settled sample_gvk_String sample_Parse [] [] stored_views sample_cluster "sample");
      [by split|by split|exact sample_reach|done]. }
  split; [exact Hs|].
  destruct (Reconcile_reports sample_gk_String (λ _, "invalid") sample_Parse [] [] ∅ (λ _, Ok [sample_crd])
     (λ _ _, Fail (External "forbidden")) (λ _, false) (λ _, Ok sample_stored) (λ _ _, None)
     "sample" sample_stored eq_refl eq_refl Hs) as (events & k' & err & Hr & _ & _ & _ & Hrest & Herr).
  exists events, k', err. split; [exact Hr|]. split.
  - exact (proj2 Hrest).
  - apply Herr. by split.
Defined.

Definition sample_list (labels : gmap string string) : result (list KartaResource) :=
  Ok (filter (λ k, labels ⊆ kr_Labels k) [sample_stored]).

Lemma sample_list_exact labels items :
  sample_list labels = Ok items →
  ∀ k, k ∈ items ↔ ∃ name, sample_cluster !! name = Some k ∧ labels ⊆ kr_Labels k.
Proof.
  intros [= <-] k. rewrite list_elem_of_filter, list_elem_of_singleton. split.
  - intros [Hl ->]. by exists "sample".
  - intros (name & Hn & Hl). unfold sample_cluster in Hn. by apply lookup_singleton_Some in Hn as [_ <-].
Qed.

Lemma MapCRDToKartaEvent_exact_witness :
  untagged [] ∧ reach sample_gvk_String sample_Parse [] [] stored_views sample_cluster ∧
  "sample" ∈ MapCRDToKartaEvent sample_list (ACRD sample_crd).
Proof.
  split; [by split|]. split; [exact sample_reach|].
  apply (MapCRDToKartaEvent_exact sample_gvk_String sample_Parse [] [] stored_views
           sample_list sample_cluster sample_crd _ "sample"
           (conj eq_refl eq_refl) (conj eq_refl eq_refl) sample_reach sample_list_exact eq_refl).
  by exists sample_stored, (GVK "batch" "v1" "Job").
Defined.

(** Admission is not serialised with the index: a view that lags lets a second
    Karta of the same root kind in, as the comment on [checkUniqueRootGVK] says. *)
Example stale_view_admits :
  let other := with_labels sample_request ∅ in
  ValidateCreate sample_gvk_String sample_Parse [] [] (λ _, Ok []) other = None ∧
  is_Some (ValidateCreate sample_gvk_String sample_Parse [] [] (stored_view
    {["first" := MkResource (Build_Karta (Build_ObjectMeta "first" "u" "1" 0 ∅) (k_Spec sample_karta)) 1 false []]})
    other).
Proof. split; [by vm_compute|]. vm_compute. by eexists. Qed.

(** A core kind: the group label is not there and nothing is to be stamped. *)
Example labelsMatch_core :
  let desired := <[LabelRootGroup := ""]> (<[LabelRootVersion := "v1"]> {[LabelRootKind := "Pod"]}) in
  labelsMatch (<[LabelRootVersion := "v1"]> {[LabelRootKind := "Pod"]}) desired = true ∧
  ¬ desired ⊆ <[LabelRootVersion := "v1"]> {[LabelRootKind := "Pod"]}.
Proof.
  split; [by vm_compute|]. intros H.
  apply map_subseteq_spec with (i := LabelRootGroup) (x := "") in H; done.
Qed.
