(* ===== verification/ControllerState.v ===== *)
(** * ControllerState: what the exporter's controller knows, and its operations

    Models [controller/state.go] with the parts of [reader.go] and [runtime.go]
    it works on.  Every method takes the state's lock for the whole of its body
    and is one operation on [State]; the helpers run inside one.  Work queues
    are the sets of keys that wait in them; publication goes to a [Store].
    Watches are shared by pointer and live in a heap of their own, the other
    objects are values.  Selectors, the body of an object and the errors of the
    API belong to the Kubernetes libraries and are parameters. *)

From S2P Require Import Prelude Api Literal Sort Summary Store Discovery Inventory.

Definition podGVK : GroupVersionKind := GVK "" "v1" "Pod".
Definition kartaGVK : GroupVersionKind := GVK "run.ai" "v1alpha1" "Karta".
Definition namespaceGVK : GroupVersionKind := GVK "" "v1" "Namespace".

Record objectKey := MkObjectKey { ok_GVK : GroupVersionKind; ok_Namespace : string; ok_Name : string }.

Record objectJobKey := MkObjectJobKey { oj_Object : objectKey; oj_UID : UID; oj_Rescan : bool }.

Record workloadJobKey := MkWorkloadJobKey { wj_RootUID : UID; wj_SelectedObject : objectJobKey }.

Record WatchRequest := MkWatchRequest { wq_GVK : GroupVersionKind; wq_Namespace : string }.

Definition zero_object_job : objectJobKey := MkObjectJobKey (MkObjectKey (GVK "" "" "") "" "") "" false.

(** [workloadJobKey{RootUID: uid}] and [workloadJobKey{SelectedObject: key}]. *)
Definition root_job (uid : UID) : workloadJobKey := MkWorkloadJobKey uid zero_object_job.
Definition object_job (key : objectJobKey) : workloadJobKey := MkWorkloadJobKey "" key.

#[export] Instance objectKey_eq_dec : EqDecision objectKey.
Proof. solve_decision. Defined.
#[export] Instance objectKey_countable : Countable objectKey.
Proof.
  refine (inj_countable' (λ k, (ok_GVK k, ok_Namespace k, ok_Name k)) (λ '(g, n, m), MkObjectKey g n m) _).
  by intros [].
Defined.
#[export] Instance objectJobKey_eq_dec : EqDecision objectJobKey.
Proof. solve_decision. Defined.
#[export] Instance objectJobKey_countable : Countable objectJobKey.
Proof.
  refine (inj_countable' (λ k, (oj_Object k, oj_UID k, oj_Rescan k)) (λ '(o, u, r), MkObjectJobKey o u r) _).
  by intros [].
Defined.
#[export] Instance workloadJobKey_eq_dec : EqDecision workloadJobKey.
Proof. solve_decision. Defined.
#[export] Instance workloadJobKey_countable : Countable workloadJobKey.
Proof.
  refine (inj_countable' (λ k, (wj_RootUID k, wj_SelectedObject k)) (λ '(u, o), MkWorkloadJobKey u o) _).
  by intros [].
Defined.
#[export] Instance WatchRequest_eq_dec : EqDecision WatchRequest.
Proof. solve_decision. Defined.
#[export] Instance WatchRequest_countable : Countable WatchRequest.
Proof.
  refine (inj_countable' (λ k, (wq_GVK k, wq_Namespace k)) (λ '(g, n), MkWatchRequest g n) _).
  by intros [].
Defined.
#[export] Instance ObjectRef_eq_dec : EqDecision ObjectRef.
Proof. solve_decision. Defined.
#[export] Instance Origin_eq_dec : EqDecision Origin.
Proof. solve_decision. Defined.

(** What the libraries provide: the body of an object, label selectors, and the
    error of a missing object. *)
Class Kubernetes := {
  Content : Type;
  no_content : Content;
  LabelSelector : Type;
  no_terms : LabelSelector → bool;
  Selector : Type;
  Everything : Selector;
  LabelSelectorAsSelector : LabelSelector → result Selector;
  Matches : Selector → gmap string string → bool;
  NewNotFound : string → string → string → error;
}.

(** An [unstructured.Unstructured]: its kind, its metadata, everything else. *)
Record object `{Kubernetes} := MkUnstructured {
  un_GVK : GroupVersionKind;
  un_Meta : Discovery.Object;
  un_Labels : gmap string string;
  un_CreationTimestamp : Z;
  un_ManagedFields : list string;
  un_Content : Content;
}.

Definition watchKey := SourceKey.

Record cachedObject `{Kubernetes} := MkCachedObject { co_object : object; co_source : watchKey }.

Record cacheSource := MkCacheSource {
  src_gvk : GroupVersionKind;
  src_hasFullObject : bool;
  src_synced : bool;
  src_err : option error;
}.

Record selectedDefinition := MkSelectedDefinition {
  sd_Selection : Inventory.Selection;
  sd_summary : option StructureSummary;
  sd_err : option error;
  sd_version : Z;
}.

Definition sd_Definition (s : selectedDefinition) : option Karta := sel_Definition (sd_Selection s).
Definition sd_GVK (s : selectedDefinition) : GroupVersionKind := sel_GVK (sd_Selection s).
Definition sd_Origin (s : selectedDefinition) : Origin := sel_Origin (sd_Selection s).

Definition zero_selection : selectedDefinition :=
  MkSelectedDefinition (MkSelection None (GVK "" "" "") (MkOrigin "" "" "" "")) None None 0.

Record selectedObjectExclusion := MkExclusion {
  ex_path : list ObjectRef;
  ex_root : ObjectRef;
  ex_selection : selectedDefinition;
  ex_rootSelection : selectedDefinition;
}.

Record selectedObjectOutcome := MkOutcome {
  so_rootUID : UID;
  so_exclusion : option selectedObjectExclusion;
}.
Definition zero_outcome : selectedObjectOutcome := MkOutcome "" None.

Record rootState := MkRootState {
  rs_ref : ObjectRef;
  rs_pods : gmap UID objectJobKey;
  rs_selectedObjects : gset objectJobKey;
}.

Record resourceWatch := MkResourceWatch {
  rw_key : watchKey;
  rw_gvk : GroupVersionKind;
  rw_full : bool;
  rw_ready : bool;
  rw_err : option error;
  rw_objects : gset objectKey;
  rw_cancelled : bool;
}.

Record ResourceRule := MkResourceRule {
  rule_APIGroups : list string;
  rule_APIVersions : list string;
  rule_Resources : list string;
}.

Record Config `{Kubernetes} := MkConfig {
  cfg_IgnoredOwnerKinds : list GroupVersionKind;
  cfg_ResourceRules : list ResourceRule;
  cfg_ExcludeResourceRules : list ResourceRule;
  cfg_NamespaceSelector : option LabelSelector;
  cfg_ObjectSelector : option LabelSelector;
  cfg_PodSelector : option LabelSelector;
  cfg_ClusterDefinitions : bool;
  cfg_RequiredKinds : list GroupVersionKind;
  cfg_Workers : Z;
  cfg_LeafWorkers : Z;
  cfg_RootWorkers : Z;
}.

(** The fields [New] sets once and for all. *)
Record Settings `{Kubernetes} := MkSettings {
  set_config : Config;
  set_namespaceSelector : Selector;
  set_objectSelector : Selector;
  set_podSelector : Selector;
}.

Existing Class Settings.

(** The context given to [start]: none yet, running, or over. *)
Inductive lifetime := NotStarted | Running | Over (err : error).

(** [cs_watches] and [cs_replacements] hold pointers into [cs_heap]. *)
Record State `{Kubernetes} := MkState {
  cs_objects : gmap objectKey cachedObject;
  cs_sources : gmap watchKey cacheSource;
  cs_heap : gmap nat resourceWatch;
  cs_watches : gmap watchKey nat;
  cs_replacements : gmap watchKey nat;
  cs_watchFailures : gmap WatchRequest error;
  cs_scopes : gset string;
  cs_roots : gmap UID rootState;
  cs_podRoots : gmap UID UID;
  cs_ancestorPods : gset UID;
  cs_selectedObjectRoots : gmap objectJobKey selectedObjectOutcome;
  cs_selectedDefinitions : gmap GroupKind selectedDefinition;
  cs_definitionInventoryErr : option error;
  cs_definitionVersion : Z;
  cs_podQueue : gset objectJobKey;
  cs_workloadQueue : gset workloadJobKey;
  cs_watchSyncQueue : gset string;
  cs_publications : Store;
  cs_ctx : lifetime;
}.

(** ** Assignments to the fields of the state *)

Section assignments.
Context `{Kubernetes}.

#[export] Instance set_objects : Settable cs_objects :=
  λ v '(MkState _ _ b c d e f g h i j k l m n o p q r s), MkState _ v b c d e f g h i j k l m n o p q r s.
#[export] Instance set_sources : Settable cs_sources :=
  λ v '(MkState _ a _ c d e f g h i j k l m n o p q r s), MkState _ a v c d e f g h i j k l m n o p q r s.
#[export] Instance set_heap : Settable cs_heap :=
  λ v '(MkState _ a b _ d e f g h i j k l m n o p q r s), MkState _ a b v d e f g h i j k l m n o p q r s.
#[export] Instance set_watches : Settable cs_watches :=
  λ v '(MkState _ a b c _ e f g h i j k l m n o p q r s), MkState _ a b c v e f g h i j k l m n o p q r s.
#[export] Instance set_replacements : Settable cs_replacements :=
  λ v '(MkState _ a b c d _ f g h i j k l m n o p q r s), MkState _ a b c d v f g h i j k l m n o p q r s.
#[export] Instance set_watchFailures : Settable cs_watchFailures :=
  λ v '(MkState _ a b c d e _ g h i j k l m n o p q r s), MkState _ a b c d e v g h i j k l m n o p q r s.
#[export] Instance set_scopes : Settable cs_scopes :=
  λ v '(MkState _ a b c d e f _ h i j k l m n o p q r s), MkState _ a b c d e f v h i j k l m n o p q r s.
#[export] Instance set_roots : Settable cs_roots :=
  λ v '(MkState _ a b c d e f g _ i j k l m n o p q r s), MkState _ a b c d e f g v i j k l m n o p q r s.
#[export] Instance set_podRoots : Settable cs_podRoots :=
  λ v '(MkState _ a b c d e f g h _ j k l m n o p q r s), MkState _ a b c d e f g h v j k l m n o p q r s.
#[export] Instance set_ancestorPods : Settable cs_ancestorPods :=
  λ v '(MkState _ a b c d e f g h i _ k l m n o p q r s), MkState _ a b c d e f g h i v k l m n o p q r s.
#[export] Instance set_selectedObjectRoots : Settable cs_selectedObjectRoots :=
  λ v '(MkState _ a b c d e f g h i j _ l m n o p q r s), MkState _ a b c d e f g h i j v l m n o p q r s.
#[export] Instance set_selectedDefinitions : Settable cs_selectedDefinitions :=
  λ v '(MkState _ a b c d e f g h i j k _ m n o p q r s), MkState _ a b c d e f g h i j k v m n o p q r s.
#[export] Instance set_definitionInventoryErr : Settable cs_definitionInventoryErr :=
  λ v '(MkState _ a b c d e f g h i j k l _ n o p q r s), MkState _ a b c d e f g h i j k l v n o p q r s.
#[export] Instance set_definitionVersion : Settable cs_definitionVersion :=
  λ v '(MkState _ a b c d e f g h i j k l m _ o p q r s), MkState _ a b c d e f g h i j k l m v o p q r s.
#[export] Instance set_podQueue : Settable cs_podQueue :=
  λ v '(MkState _ a b c d e f g h i j k l m n _ p q r s), MkState _ a b c d e f g h i j k l m n v p q r s.
#[export] Instance set_workloadQueue : Settable cs_workloadQueue :=
  λ v '(MkState _ a b c d e f g h i j k l m n o _ q r s), MkState _ a b c d e f g h i j k l m n o v q r s.
#[export] Instance set_watchSyncQueue : Settable cs_watchSyncQueue :=
  λ v '(MkState _ a b c d e f g h i j k l m n o p _ r s), MkState _ a b c d e f g h i j k l m n o p v r s.
#[export] Instance set_publications : Settable cs_publications :=
  λ v '(MkState _ a b c d e f g h i j k l m n o p q _ s), MkState _ a b c d e f g h i j k l m n o p q v s.
#[export] Instance set_ctx : Settable cs_ctx :=
  λ v '(MkState _ a b c d e f g h i j k l m n o p q r _), MkState _ a b c d e f g h i j k l m n o p q r v.
End assignments.
Definition over {S T} (field : S → T) `{!Settable field} (f : T → T) (s : S) : S :=
  assign field (f (field s)) s.

(** ** References and failures *)

Section operations.
Context `{!KubernetesErrors, !Kubernetes} {r : Settings}.

Definition keyOf (ref : ObjectRef) : objectKey :=
  MkObjectKey (or_GVK ref) (or_Namespace ref) (or_Name ref).

Definition refOf (o : object) : ObjectRef :=
  MkObjectRef (un_GVK o) (obj_Namespace (un_Meta o)) (obj_Name (un_Meta o)) (obj_UID (un_Meta o))
    (obj_ResourceVersion (un_Meta o)).

Definition storedRef (ref : ObjectRef) : Store.ObjectRef :=
  MkObjectRef (or_GVK ref) (or_Namespace ref) (or_Name ref) (or_UID ref) (or_ResourceVersion ref).

Definition objectJobFor (ref : ObjectRef) : objectJobKey := MkObjectJobKey (keyOf ref) (or_UID ref) false.

Definition job_ref (key : objectJobKey) : ObjectRef :=
  MkObjectRef (ok_GVK (oj_Object key)) (ok_Namespace (oj_Object key)) (ok_Name (oj_Object key))
    (oj_UID key) "".

Definition labelsFor (o : object) : gmap string string := un_Labels o.

(** [context.Canceled]. *)
Definition Canceled : string := "context canceled".

Definition failureReason (err : option error) : string :=
  match err with
  | None => ""
  | Some err =>
      if IsForbidden err || IsUnauthorized err || errors_Is Discovery.ErrPermissionDenied err ||
         errors_Is Inventory.ErrPermissionDenied err
      then ReasonPermissionDenied
      else if errors_Is ErrUnresolvedOwner err || IsNotFound err then ReasonUnresolvedOwner
      else if errors_Is Discovery.ErrInvalidDefinition err || errors_Is Inventory.ErrInvalidDefinition err
      then ReasonInvalidDefinition
      else if errors_Is ErrEvaluation err then ReasonEvaluationFailed
      else ReasonAPIUnavailable
  end.

Definition appendSources (sources additional : list SourceKey) : list SourceKey :=
  foldl (λ result key, if bool_decide (key ∈ result) then result else result ++ [key]) sources additional.

Definition definitionSource : SourceKey :=
  MkSourceKey (GVR (gvk_Group kartaGVK) (gvk_Version kartaGVK) "kartas") "".

(** ** Queues and publications *)

Definition add_pod (key : objectJobKey) : State → State := over cs_podQueue (λ q, {[key]} ∪ q).
Definition add_workload (key : workloadJobKey) : State → State := over cs_workloadQueue (λ q, {[key]} ∪ q).
Definition add_sync (name : string) : State → State := over cs_watchSyncQueue (λ q, {[name]} ∪ q).
Definition publish (f : Store → Store) : State → State := over cs_publications f.

(** ** Queries *)

Definition is_nil {A} (o : option A) : bool := match o with None => true | Some _ => false end.

Definition isNamespaceInScope (namespace : string) (s : State) : bool :=
  is_nil (cfg_NamespaceSelector (set_config r)) || bool_decide (namespace = "") ||
  bool_decide (namespace ∈ cs_scopes s).

Definition selectedFor (gk : GroupKind) (s : State) : selectedDefinition :=
  default zero_selection (cs_selectedDefinitions s !! gk).

Definition with_version (version : Z) (selected : selectedDefinition) : selectedDefinition :=
  MkSelectedDefinition (sd_Selection selected) (sd_summary selected) (sd_err selected) version.

Definition or_else {A} (a b : option A) : option A := match a with Some _ => a | None => b end.

(** The selection, and the error beside it. *)
Definition lookupDefinition (gvk : GroupVersionKind) (s : State) : selectedDefinition * option error :=
  let selected := with_version (cs_definitionVersion s) (selectedFor (GroupKind_of gvk) s) in
  (selected, or_else (cs_definitionInventoryErr s) (sd_err selected)).

Definition isDefinitionCurrent (ref : ObjectRef) (selection : selectedDefinition) (s : State) : bool :=
  if negb (cs_definitionVersion s =? sd_version selection)%Z then false
  else
    let current := selectedFor (GroupKind_of (or_GVK ref)) s in
    bool_decide (sd_GVK current = sd_GVK selection) && bool_decide (sd_Origin current = sd_Origin selection).

Definition hasSelectedDefinition (gvk : GroupVersionKind) (s : State) : bool :=
  let selection := selectedFor (GroupKind_of gvk) s in
  negb (is_nil (sd_Definition selection)) && bool_decide (sd_GVK selection = gvk).

Definition shouldDiscoverObject (gvk : GroupVersionKind) (s : State) : bool :=
  negb (bool_decide (gvk = namespaceGVK)) && negb (bool_decide (gvk = kartaGVK)) &&
  (negb (bool_decide (gvk = podGVK)) || hasSelectedDefinition gvk s).

Definition set_key_namespace (key : objectKey) (namespace : string) : objectKey :=
  MkObjectKey (ok_GVK key) namespace (ok_Name key).

(** The entry of an object, under its namespace or none. *)
Definition find_entry (ref : ObjectRef) (s : State) : option cachedObject :=
  let key := keyOf ref in
  match cs_objects s !! key with
  | Some entry => Some entry
  | None =>
      if bool_decide (ok_Namespace key ≠ "") then cs_objects s !! set_key_namespace key "" else None
  end.

(** The first source that covers the reference. *)
Definition covering_source (ref : ObjectRef) (s : State) : option watchKey :=
  head (omap (λ p : watchKey * cacheSource,
          if bool_decide (src_gvk p.2 = or_GVK ref) &&
             (bool_decide (sk_Namespace p.1 = "") || bool_decide (sk_Namespace p.1 = or_Namespace ref))
          then Some p.1 else None) (map_to_list (cs_sources s))).

(** The object if the reference is up to date: its source healthy and listed,
    its UID and resource version those asked for. *)
Definition lookupObject (ref : ObjectRef) (requireFullObject : bool) (s : State)
  : result (object * watchKey) :=
  let entry := find_entry ref s in
  match or_else (co_source <$> entry) (covering_source ref s) with
  | None => Fail (Sentinel ErrPending)
  | Some sourceKey =>
      match cs_sources s !! sourceKey with
      | None => Fail (Sentinel ErrPending)
      | Some source =>
          match src_err source with
          | Some err => Fail err
          | None =>
              if negb (src_synced source) || (requireFullObject && negb (src_hasFullObject source))
              then Fail (Sentinel ErrPending)
              else
                match entry with
                | None => Fail (NewNotFound (gvr_Group (sk_Resource sourceKey))
                                  (gvr_Resource (sk_Resource sourceKey)) (or_Name ref))
                | Some entry =>
                    let o := co_object entry in
                    if bool_decide (or_UID ref ≠ "") && bool_decide (obj_UID (un_Meta o) ≠ or_UID ref)
                    then Fail (NewNotFound (gvr_Group (sk_Resource sourceKey))
                                 (gvr_Resource (sk_Resource sourceKey)) (or_Name ref))
                    else if bool_decide (or_ResourceVersion ref ≠ "") &&
                            bool_decide (obj_ResourceVersion (un_Meta o) ≠ or_ResourceVersion ref)
                    then Fail (Sentinel ErrStale)
                    else Ok (o, sourceKey)
                end
          end
      end
  end.

Definition isPathCurrent (path : list ObjectRef) (s : State) : bool :=
  forallb (λ ref, is_ok (lookupObject ref false s)) path.

(** The object has no controller, or one of an ignored kind. *)
Definition owned_by_none (o : object) : bool :=
  match ControllerOwner (un_Meta o) with
  | None => false
  | Some owner =>
      bool_decide (or_UID owner = "") ||
      bool_decide (or_GVK owner ∈ cfg_IgnoredOwnerKinds (set_config r))
  end.

Definition healthy (source : cacheSource) : bool := src_synced source && is_nil (src_err source).

(** What one source says against the reference. *)
Definition contradicts (ref : ObjectRef) (s : State) (p : watchKey * cacheSource) : bool :=
  let '(sourceKey, source) := p in
  healthy source && bool_decide (GroupKind_of (src_gvk source) = GroupKind_of (or_GVK ref)) &&
  match cs_objects s !! MkObjectKey (src_gvk source) (or_Namespace ref) (or_Name ref) with
  | None => false
  | Some entry =>
      bool_decide (co_source entry = sourceKey) &&
      bool_decide (obj_UID (un_Meta (co_object entry)) = or_UID ref) &&
      negb (owned_by_none (co_object entry))
  end.

Definition hasRootOwnership (ref : ObjectRef) (s : State) : bool :=
  let selected := selectedFor (GroupKind_of (or_GVK ref)) s in
  let entry :=
    if negb (is_nil (sd_Definition selected)) && is_nil (sd_err selected) then
      cs_objects s !! MkObjectKey (sd_GVK selected) (or_Namespace ref) (or_Name ref)
    else None in
  let others := negb (existsb (contradicts ref s) (map_to_list (cs_sources s))) in
  match entry with
  | Some entry =>
      match cs_sources s !! co_source entry with
      | Some source =>
          if bool_decide (obj_UID (un_Meta (co_object entry)) = or_UID ref) &&
             src_hasFullObject source && healthy source
          then owned_by_none (co_object entry)
          else others
      | None => others
      end
  | None => others
  end.

Definition sourcesFor (path : list ObjectRef) (s : State) : list SourceKey :=
  let sources := foldl (λ sources ref,
                   match cs_objects s !! keyOf ref with
                   | Some entry => if bool_decide (co_source entry ∈ sources) then sources
                                   else sources ++ [co_source entry]
                   | None => sources
                   end) [] path in
  let sources := foldl (λ sources (p : watchKey * cacheSource),
                   if bool_decide (src_gvk p.2 = namespaceGVK) &&
                      negb (is_nil (cfg_NamespaceSelector (set_config r))) &&
                      negb (bool_decide (p.1 ∈ sources))
                   then sources ++ [p.1] else sources) sources (map_to_list (cs_sources s)) in
  if cfg_ClusterDefinitions (set_config r) then sources ++ [definitionSource] else sources.

Definition watchFailed (ref : ObjectRef) (s : State) : bool :=
  negb (is_nil (cs_watchFailures s !! MkWatchRequest (or_GVK ref) (or_Namespace ref))).

Definition snapshotRoot (uid : UID) (s : State) : option ObjectRef := rs_ref <$> cs_roots s !! uid.

(** ** Queuing *)

Definition enqueuePod (o : option object) (s : State) : State :=
  match o with
  | None => s
  | Some o =>
      if negb (bool_decide (un_GVK o = podGVK)) then s
      else
        let uid := obj_UID (un_Meta o) in
        if Matches (set_podSelector r) (labelsFor o) || negb (is_nil (cs_podRoots s !! uid)) ||
           negb (is_nil (Store.Pod uid (cs_publications s)))
        then add_pod (objectJobFor (refOf o)) s
        else s
  end.

Definition enqueueObject (o : object) (s : State) : State :=
  let s := enqueuePod (Some o) s in
  if shouldDiscoverObject (un_GVK o) s then add_workload (object_job (objectJobFor (refOf o))) s else s.

Definition enqueueScopeRefresh (namespace : string) : State → State :=
  add_pod (MkObjectJobKey (MkObjectKey (GVK "" "" "") namespace "") "" true).

Definition enqueueMembers (root : rootState) (s : State) : State :=
  over cs_workloadQueue (λ q, set_map object_job (rs_selectedObjects root) ∪ q)
    (over cs_podQueue (λ q, list_to_set (map_to_list (rs_pods root)).*2 ∪ q) s).

Definition enqueueRootAndMembers (uid : UID) (s : State) : State :=
  match cs_roots s !! uid with
  | None => s
  | Some root => enqueueMembers root (add_workload (root_job uid) s)
  end.

Definition requeueScope (namespace : string) (s : State) : State :=
  let s := foldl (λ s entry,
             if bool_decide (namespace = "") || bool_decide (obj_Namespace (un_Meta (co_object entry)) = namespace)
             then enqueueObject (co_object entry) s else s) s (map_to_list (cs_objects s)).*2 in
  foldl (λ s (selectedObject : objectJobKey),
    if bool_decide (namespace = "") || bool_decide (ok_Namespace (oj_Object selectedObject) = namespace)
    then add_workload (object_job selectedObject) s else s) s (map_to_list (cs_selectedObjectRoots s)).*1.

(** ** Membership *)

Definition with_pods (f : gmap UID objectJobKey → gmap UID objectJobKey) (root : rootState) : rootState :=
  MkRootState (rs_ref root) (f (rs_pods root)) (rs_selectedObjects root).
Definition with_selectedObjects (f : gset objectJobKey → gset objectJobKey) (root : rootState) : rootState :=
  MkRootState (rs_ref root) (rs_pods root) (f (rs_selectedObjects root)).
Definition with_ref (ref : ObjectRef) (root : rootState) : rootState :=
  MkRootState ref (rs_pods root) (rs_selectedObjects root).
Definition set_gvk (gvk : GroupVersionKind) (ref : ObjectRef) : ObjectRef :=
  MkObjectRef gvk (or_Namespace ref) (or_Name ref) (or_UID ref) (or_ResourceVersion ref).
Definition any_version (ref : ObjectRef) : ObjectRef :=
  MkObjectRef (or_GVK ref) (or_Namespace ref) (or_Name ref) (or_UID ref) "".

(** The change to the root of that UID, if there is one. *)
Definition alter_root (uid : UID) (f : rootState → rootState) : State → State :=
  over cs_roots (alter f uid).

Definition outcome_of (key : objectJobKey) (s : State) : selectedObjectOutcome :=
  default zero_outcome (cs_selectedObjectRoots s !! key).

Definition ensureRoot (workload : GenericWorkload) (s : State) : rootState * State :=
  let uid := or_UID (gw_Root workload) in
  let s := over cs_ancestorPods (λ a,
             list_to_set (or_UID <$> filter (λ ref, or_GVK ref = podGVK) (tail (gw_Path workload))) ∪ a) s in
  let root := default (MkRootState (gw_Root workload) ∅ ∅) (cs_roots s !! uid) in
  let selection := selectedFor (GroupKind_of (or_GVK (gw_Root workload))) s in
  if negb (is_nil (sd_Definition selection)) then
    let root := with_ref (set_gvk (sd_GVK selection) (rs_ref root)) root in
    (root, over cs_roots (insert uid root) s)
  else if negb (bool_decide (or_GVK (rs_ref root) = or_GVK (gw_Root workload))) &&
          negb (is_ok (lookupObject (any_version (rs_ref root)) false s)) then
    let root := with_ref (gw_Root workload) root in
    (root, add_workload (root_job (or_UID (rs_ref root))) (over cs_roots (insert uid root) s))
  else (root, over cs_roots (insert uid root) s).

Definition unregisterPod (key : objectJobKey) (s : State) : State :=
  let uid := default ("" : UID) (cs_podRoots s !! oj_UID key) in
  let s := match cs_roots s !! uid with
           | None => s
           | Some root =>
               add_workload (root_job (or_UID (rs_ref root)))
                 (alter_root uid (with_pods (delete (oj_UID key))) s)
           end in
  publish (RemovePod (oj_UID key)) (over cs_podRoots (delete (oj_UID key)) s).

Definition registerPodRoot (key : objectJobKey) (workload : GenericWorkload) : M State () := λ s,
  if negb (isNamespaceInScope (ok_Namespace (oj_Object key)) s) ||
     negb (isNamespaceInScope (or_Namespace (gw_Root workload)) s) ||
     negb (isPathCurrent (gw_Path workload) s)
  then (Fail (Sentinel ErrStale), s)
  else if negb (hasRootOwnership (gw_Root workload) s) then (Fail (Sentinel ErrUnresolvedOwner), s)
  else
    let previous := default ("" : UID) (cs_podRoots s !! oj_UID key) in
    let '(root, s) := ensureRoot workload s in
    let uid := or_UID (rs_ref root) in
    if bool_decide (previous ≠ uid) then
      let s := if is_nil (cs_roots s !! previous) then s
               else add_workload (root_job previous)
                      (alter_root previous (with_pods (delete (oj_UID key))) s) in
      let s := over cs_podRoots (insert (oj_UID key) uid) s in
      let s := alter_root (or_UID (gw_Root workload)) (with_pods (insert (oj_UID key) key)) s in
      (Ok (), add_workload (root_job uid) s)
    else (Ok (), s).

Definition removeRoot (uid : UID) (s : State) : State :=
  let s := match cs_roots s !! uid with
           | None => s
           | Some root =>
               let s := enqueueMembers root s in
               let s := over cs_podRoots (filter (λ p : UID * UID, p.1 ∉ dom (rs_pods root))) s in
               over cs_selectedObjectRoots
                 (λ outcomes, set_to_map (λ key, (key, zero_outcome)) (rs_selectedObjects root) ∪ outcomes) s
           end in
  publish (RemoveWorkload uid) (over cs_roots (delete uid) s).

Definition withdrawWorkload : UID → State → State := removeRoot.

Definition removeSelectedObjectMembership (key : objectJobKey) (s : State) : State :=
  let uid := so_rootUID (outcome_of key s) in
  let s := match cs_roots s !! uid with
           | None => s
           | Some root =>
               add_workload (root_job (or_UID (rs_ref root)))
                 (alter_root uid (with_selectedObjects (.∖ {[key]})) s)
           end in
  publish (RemoveDiscoveryFailure (oj_UID key)) (over cs_selectedObjectRoots (delete key) s).

Definition unregisterSelectedObject : objectJobKey → State → State := removeSelectedObjectMembership.

Definition trackSelectedObject (key : objectJobKey) (s : State) : State :=
  over cs_selectedObjectRoots (insert key (MkOutcome (so_rootUID (outcome_of key s)) None)) s.

Definition replaceSelectedObjectTracking (key : objectJobKey) (o : option object)
    (selection : selectedDefinition) : M State () := λ s,
  if negb (isDefinitionCurrent (job_ref key) selection s) then (Fail (Sentinel ErrStale), s)
  else
    match o with
    | None => (Ok (), removeSelectedObjectMembership key s)
    | Some o =>
        let replacement := objectJobFor (refOf o) in
        let s := add_workload (object_job replacement) s in
        let outcome := outcome_of replacement s in
        if negb (bool_decide (so_rootUID outcome = "")) then (Ok (), removeSelectedObjectMembership key s)
        else
          match so_exclusion outcome with
          | None => (Fail (Sentinel ErrPending), s)
          | Some exclusion =>
              if negb (isPathCurrent (ex_path exclusion) s) ||
                 negb (isDefinitionCurrent (job_ref replacement) (ex_selection exclusion) s) ||
                 negb (isDefinitionCurrent (ex_root exclusion) (ex_rootSelection exclusion) s)
              then (Fail (Sentinel ErrStale), s)
              else (Ok (), removeSelectedObjectMembership key s)
          end
    end.

Definition registerSelectedObjectRoot (key : objectJobKey) (workload : GenericWorkload)
    (selection rootSelection : selectedDefinition) : M State () := λ s,
  if negb (isNamespaceInScope (ok_Namespace (oj_Object key)) s) ||
     negb (isNamespaceInScope (or_Namespace (gw_Root workload)) s)
  then (Fail (Sentinel ErrStale), s)
  else if negb (isPathCurrent (gw_Path workload) s) ||
          negb (isDefinitionCurrent (job_ref key) selection s) ||
          negb (isDefinitionCurrent (gw_Root workload) rootSelection s)
  then (Fail (Sentinel ErrStale), s)
  else
    let previous := so_rootUID (outcome_of key s) in
    let '(root, s) := ensureRoot workload s in
    let uid := or_UID (rs_ref root) in
    let s := if bool_decide (previous ≠ uid) && negb (is_nil (cs_roots s !! previous))
             then add_workload (root_job previous)
                    (alter_root previous (with_selectedObjects (.∖ {[key]})) s)
             else s in
    let s := over cs_selectedObjectRoots (insert key (MkOutcome uid None)) s in
    let s := alter_root (or_UID (gw_Root workload)) (with_selectedObjects ({[key]} ∪.)) s in
    (Ok (), publish (RemoveDiscoveryFailure (oj_UID key)) (add_workload (root_job uid) s)).

Definition excludeSelectedObject (key : objectJobKey) (workload : GenericWorkload)
    (selection rootSelection : selectedDefinition) : M State () := λ s,
  if negb (isPathCurrent (gw_Path workload) s) ||
     negb (isDefinitionCurrent (job_ref key) selection s) ||
     negb (isDefinitionCurrent (gw_Root workload) rootSelection s)
  then (Fail (Sentinel ErrStale), s)
  else
    let s := removeSelectedObjectMembership key s in
    let exclusion := MkExclusion (gw_Path workload) (gw_Root workload) selection rootSelection in
    (Ok (), over cs_selectedObjectRoots (insert key (MkOutcome "" (Some exclusion))) s).

(** ** Publication *)

Definition with_pod_error (error : string) (sources : list SourceKey) (result : PodResult) : PodResult :=
  MkPodResult (pres_Record result) (pres_Input result) (pres_HasValue result) error sources.

Definition zero_pod_record (uid : UID) (workload : ObjectRef) : PodRecord :=
  MkPodRecord workload "" "" "" uid "" "" "" "" "" ∅.

(** The errors of evaluation and of a definition are published but not retried. *)
Definition not_retried (cause : error) : bool :=
  errors_Is ErrEvaluation cause || errors_Is Inventory.ErrInvalidDefinition cause ||
  errors_Is Discovery.ErrInvalidDefinition cause.

Definition publishPodFailure (key : objectJobKey) (sources : list SourceKey) (cause : error)
    (root : option ObjectRef) : M State () := λ s,
  if errors_Is Canceled cause then (Fail cause, s)
  else
    let workload := match root with Some root => storedRef root | None => empty_ref end in
    let next := MkPodResult (zero_pod_record (oj_UID key) workload) (storedRef (job_ref key)) false "" [] in
    let '(next, sources) :=
      match Store.Pod (oj_UID key) (cs_publications s) with
      | None => (next, sources)
      | Some previous =>
          (if pres_HasValue previous || is_nil root then previous else next,
           appendSources (pres_Sources previous) sources)
      end in
    let next := with_pod_error (failureReason (Some cause)) sources next in
    (if not_retried cause then Ok () else Fail cause, publish (UpsertPod next) s).

(** The locked part of [failPodEvaluation]; [failPod]'s is [publishPodFailure]. *)
Definition failPodEvaluation (key : objectJobKey) (sources : list SourceKey) (path : list ObjectRef)
    (cause : error) (root : ObjectRef) (selection : selectedDefinition) : M State () := λ s,
  if negb (isDefinitionCurrent root selection s) || negb (isPathCurrent path s)
  then (Fail (Sentinel ErrStale), s)
  else if negb (is_ok (lookupObject root false s)) || negb (hasRootOwnership root s)
  then (Fail (Sentinel ErrStale), s)
  else publishPodFailure key sources cause (Some root) s.

Definition failSelectedObjectDiscovery (key : objectJobKey) (err : error) : State → State :=
  publish (SetDiscoveryFailure (storedRef (job_ref key)) (failureReason (Some err))).

(** The locked part of [failWorkload]. *)
Definition failWorkload (uid : UID) (ref : ObjectRef) (sources : list SourceKey) (cause : error)
  : M State () := λ s,
  if is_nil (cs_roots s !! uid) then (Ok (), s)
  else
    let '(record, hasValue, statusError, allSources, creationSources) :=
      match Store.Workload uid (cs_publications s) with
      | None => (MkWorkloadRecord uid (storedRef ref) "" "" "" false [] 0 ∅, false, "", sources, sources)
      | Some previous =>
          (wres_Record previous, wres_HasValue previous, wres_StatusError previous,
           appendSources (wres_Sources previous) sources,
           appendSources (wres_CreationSources previous) sources)
      end in
    let next := MkWorkloadResult record hasValue (failureReason (Some cause)) statusError
                  allSources creationSources in
    (Fail cause, publish (UpsertWorkload next) s).

(** A pod whose labels failed keeps the record published before, unless that one
    came from a definition now gone. *)
Definition keep_pod_record (selection : selectedDefinition) (previous : option PodResult)
    (next : PodResult) : PodResult :=
  let next := with_pod_error ReasonEvaluationFailed (pres_Sources next) next in
  match previous with
  | Some previous =>
      let isDefinitionRemoved :=
        is_nil (sd_Definition selection) && negb (bool_decide (pr_Karta (pres_Record previous) = "")) in
      if pres_HasValue previous && negb isDefinitionRemoved then
        MkPodResult (pres_Record previous) (pres_Input next) (pres_HasValue next) (pres_Error next)
          (appendSources (pres_Sources previous) (pres_Sources next))
      else next
  | None => next
  end.

Definition publishPod (path : list ObjectRef) (rootRef : ObjectRef) (selection : selectedDefinition)
    (next : PodResult) (labelFailed : bool) : M State () := λ s,
  if negb (isPathCurrent path s) || negb (hasRootOwnership rootRef s) ||
     negb (isDefinitionCurrent rootRef selection s)
  then (Fail (Sentinel ErrStale), s)
  else
    match lookupObject rootRef false s with
    | Fail _ => (Fail (Sentinel ErrStale), s)
    | Ok (current, _) =>
        if negb (bool_decide (obj_ResourceVersion (un_Meta current) = or_ResourceVersion rootRef))
        then (Fail (Sentinel ErrStale), s)
        else
          let next :=
            if labelFailed then
              keep_pod_record selection (Store.Pod (pr_UID (pres_Record next)) (cs_publications s)) next
            else next in
          (Ok (), publish (UpsertPod next) s)
    end.

Definition keep_workload_record (selection : selectedDefinition) (previous : option WorkloadResult)
    (next : WorkloadResult) : WorkloadResult :=
  match previous with
  | Some previous =>
      let isDefinitionRemoved :=
        is_nil (sd_Definition selection) && wr_HasStatus (wres_Record next) &&
        negb (bool_decide (wr_Karta (wres_Record previous) = "")) in
      if wres_HasValue previous && negb isDefinitionRemoved then
        MkWorkloadResult (wres_Record previous) (wres_HasValue next) (wres_Error next)
          (wres_StatusError next) (appendSources (wres_Sources previous) (wres_Sources next))
          (wres_CreationSources next)
      else next
  | None => next
  end.

Definition publishWorkload (uid : UID) (ref : ObjectRef) (selection : selectedDefinition)
    (next : WorkloadResult) : M State () := λ s,
  if is_nil (cs_roots s !! uid) || negb (isNamespaceInScope (or_Namespace ref) s)
  then (Fail (Sentinel ErrStale), s)
  else if negb (isPathCurrent [ref] s) || negb (hasRootOwnership ref s)
  then (Fail (Sentinel ErrStale), s)
  else if negb (isDefinitionCurrent ref selection s) then (Fail (Sentinel ErrStale), s)
  else
    let next :=
      if negb (bool_decide (wres_StatusError next = "")) then
        keep_workload_record selection (Store.Workload uid (cs_publications s)) next
      else next in
    (Ok (), publish (UpsertWorkload next) (alter_root uid (with_ref ref) s)).

Definition start (ctx : lifetime) : State → State := assign cs_ctx ctx.

(** ** Definitions *)

(** One listed definition, with its structure summary. *)
Definition prepare_definition `{GoSort} (result : SelectionResult) : selectedDefinition :=
  let selection := sr_Selection result in
  match sr_Err result, sel_Definition selection with
  | None, Some definition =>
      match NewStructureSummary (Some definition) with
      | Some (Ok summary) => MkSelectedDefinition selection (Some summary) None 0
      | Some (Fail err) =>
          MkSelectedDefinition selection None
            (Some (Errorf "%w: %w" [] [Sentinel Discovery.ErrInvalidDefinition; err])) 0
      | None => MkSelectedDefinition selection None (Some (External "diverges: the owner references form a cycle")) 0
      end
  | err, _ => MkSelectedDefinition selection None err 0
  end.

Definition prepareDefinitions `{GoSort} (listed : result (list SelectionResult))
  : result (gmap GroupKind selectedDefinition) :=
  match listed with
  | Fail err => Fail err
  | Ok results =>
      Ok (foldl (λ next result, <[GroupKind_of (sel_GVK (sr_Selection result)) := prepare_definition result]> next)
            ∅ results)
  end.

Definition isSameDefinition (previous next : selectedDefinition) : bool :=
  let hasSameWinner :=
    bool_decide (o_Source (sd_Origin previous) = o_Source (sd_Origin next)) &&
    bool_decide (o_Name (sd_Origin previous) = o_Name (sd_Origin next)) &&
    bool_decide (o_UID (sd_Origin previous) = o_UID (sd_Origin next)) in
  if negb (bool_decide (sd_GVK previous = sd_GVK next)) || negb hasSameWinner then false
  else if negb (bool_decide (failureReason (sd_err previous) = failureReason (sd_err next))) then false
  else
    match sd_Definition previous, sd_Definition next with
    | Some previous, Some next => bool_decide (k_Spec previous = k_Spec next)
    | None, None => true
    | _, _ => false
    end.

Definition is_changed (previous next : gmap GroupKind selectedDefinition) (kind : GroupKind) : bool :=
  match previous !! kind, next !! kind with
  | Some p, Some n => negb (isSameDefinition p n)
  | None, None => false
  | _, _ => true
  end.

(** The kinds whose definition differs between two snapshots. *)
Definition changed_kinds (previous next : gmap GroupKind selectedDefinition) : gset GroupKind :=
  filter (λ kind, is_changed previous next kind = true) (dom previous ∪ dom next).

(** An unchanged definition keeps the snapshot it was evaluated with. *)
Definition keep_unchanged (previous next : gmap GroupKind selectedDefinition)
  : gmap GroupKind selectedDefinition :=
  map_imap (λ kind selected,
    match previous !! kind with
    | Some p => Some (if isSameDefinition p selected then p else selected)
    | None => Some selected
    end) next.

(** The work the change touches. *)
Definition requeue_object (changedKinds : gset GroupKind) (s : State) (o : object) : State :=
  let ref := refOf o in
  let s := if bool_decide (GroupKind_of (or_GVK ref) ∈ changedKinds) then enqueueObject o s else s in
  if negb (bool_decide (or_GVK ref = podGVK)) then s
  else
    match cs_roots s !! default ("" : UID) (cs_podRoots s !! or_UID ref) with
    | None => enqueuePod (Some o) s
    | Some root =>
        if bool_decide (GroupKind_of (or_GVK (rs_ref root)) ∈ changedKinds)
        then enqueuePod (Some o) s else s
    end.

Definition requeue_root (healthChanged : bool) (changedKinds : gset GroupKind) (s : State)
    (p : UID * rootState) : State :=
  let '(uid, root) := p in
  if healthChanged || bool_decide (GroupKind_of (or_GVK (rs_ref root)) ∈ changedKinds)
  then enqueueMembers root (add_workload (root_job uid) s) else s.

Definition requeue_selected (changedKinds : gset GroupKind) (s : State) (key : objectJobKey) : State :=
  if bool_decide (GroupKind_of (ok_GVK (oj_Object key)) ∈ changedKinds)
  then add_workload (object_job key) s else s.

Definition refreshDefinitions (next : gmap GroupKind selectedDefinition) (sourceErr : option error)
    (s : State) : State :=
  let previous := cs_selectedDefinitions s in
  let next := if is_nil sourceErr then next else previous in
  let healthChanged :=
    negb (bool_decide (failureReason (cs_definitionInventoryErr s) = failureReason sourceErr)) in
  let changedKinds := changed_kinds previous next in
  let s := assign cs_selectedDefinitions (keep_unchanged previous next)
             (assign cs_definitionInventoryErr sourceErr s) in
  let s := if cfg_ClusterDefinitions (set_config r) then
             publish (SetSourceHealth definitionSource
               (MkSourceHealth kartaGVK (is_nil sourceErr) (failureReason sourceErr))) s
           else s in
  if negb healthChanged && bool_decide (changedKinds = ∅) then s
  else
    let s := over cs_definitionVersion (λ v, wrap64 (v + 1)) s in
    let s := if healthChanged then enqueueScopeRefresh "" s
             else foldl (requeue_object changedKinds) s (co_object <$> (map_to_list (cs_objects s)).*2) in
    let s := foldl (requeue_root healthChanged changedKinds) s (map_to_list (cs_roots s)) in
    foldl (requeue_selected changedKinds) s (map_to_list (cs_selectedObjectRoots s)).*1.

End operations.
