(* ===== verification/ControllerSources.v ===== *)
(** * ControllerSources: the watches that feed the controller

    Models [controller/sources.go] and the health and definition parts of
    [runtime.go].  A watch is an identity in the heap of the state; the reflector
    of client-go calls [Replace], [Add], [Update] and [Delete] on it from a
    goroutine of its own, each call one operation.  What the API server, the REST
    mapper and the contexts answer comes in as arguments; the goroutine that runs
    the reflector, list metadata and timeouts belong to the libraries. *)

From S2P Require Import Prelude Api Literal Sort Store Discovery Inventory ControllerState.

Record RESTMapping := MkRESTMapping { rm_Resource : GroupVersionResource; rm_RootScope : bool }.

Class WatchLibrary `{Kubernetes} := {
  PartialObjectMetadata : Type;
  ToUnstructured : PartialObjectMetadata → result object;
  IsBadRequest : error → bool;
  IsNotAcceptable : error → bool;
  IsUnsupportedMediaType : error → bool;
  gvk_String : GroupVersionKind → string;
}.

(** What a reflector may hand over. *)
Inductive watch_value `{WatchLibrary} :=
  | WUnstructured (o : object)
  | WPartial (p : PartialObjectMetadata)
  | WTombstone (obj : watch_value)
  | WOther (type : string).

(** An event of the stream, or its end. *)
Inductive stream_event `{WatchLibrary} :=
  | Closed
  | ErrorEvent (err : error)
  | ObjectEvent (value : watch_value).

Definition nil_panic : error := External "panic: invalid memory address or nil pointer dereference".

Section sources.
Context `{!KubernetesErrors, !Kubernetes, !WatchLibrary} {r : Settings}.

Definition prepareWatchObject (value : watch_value) (gvk : GroupVersionKind) (full : bool) : result object :=
  let value := match value with WTombstone obj => obj | _ => value end in
  o ← match value with
      | WUnstructured o => Ok o
      | WPartial p => ToUnstructured p
      | WTombstone _ => Fail (Errorf "unexpected source object %T" [AStr "cache.DeletedFinalStateUnknown"] [])
      | WOther type => Fail (Errorf "unexpected source object %T" [AStr type] [])
      end;
  let content := if full then un_Content o else no_content in
  Ok (MkUnstructured _ gvk (un_Meta o) (un_Labels o) (un_CreationTimestamp o) [] content).

Definition no_identity (o : object) : bool :=
  bool_decide (obj_UID (un_Meta o) = "") || bool_decide (obj_Name (un_Meta o) = "").

Fixpoint prepareWatchSnapshot (values : list watch_value) (gvk : GroupVersionKind) (full : bool)
    (objects : gmap objectKey object) : result (gmap objectKey object) :=
  match values with
  | [] => Ok objects
  | value :: values =>
      match prepareWatchObject value gvk full with
      | Fail err => Fail err
      | Ok o =>
          if no_identity o then Fail (External "LIST object has no identity")
          else
            let key := keyOf (refOf o) in
            if negb (is_nil (objects !! key)) then Fail (External "LIST contains duplicate object names")
            else prepareWatchSnapshot values gvk full (<[key := o]> objects)
      end
  end.

Definition sourceFailureUID (gvk : GroupVersionKind) (namespace : string) : UID :=
  "source:" +:+ gvk_String gvk +:+ "/" +:+ namespace.

(** ** The watches *)

Definition with_health (err : option error) (w : resourceWatch) : resourceWatch :=
  MkResourceWatch (rw_key w) (rw_gvk w) (rw_full w) (rw_ready w) err (rw_objects w) (rw_cancelled w).
Definition with_objects (objects : gset objectKey) (w : resourceWatch) : resourceWatch :=
  MkResourceWatch (rw_key w) (rw_gvk w) (rw_full w) (rw_ready w) (rw_err w) objects (rw_cancelled w).
Definition set_ready (w : resourceWatch) : resourceWatch :=
  MkResourceWatch (rw_key w) (rw_gvk w) (rw_full w) true (rw_err w) (rw_objects w) (rw_cancelled w).
Definition cancelled (w : resourceWatch) : resourceWatch :=
  MkResourceWatch (rw_key w) (rw_gvk w) (rw_full w) (rw_ready w) (rw_err w) (rw_objects w) true.

Definition alter_watch (id : nat) (f : resourceWatch → resourceWatch) : State → State :=
  over cs_heap (alter f id).

Definition zero_watch : resourceWatch :=
  MkResourceWatch (MkSourceKey (GVR "" "" "") "") (GVK "" "" "") false false None ∅ false.

(** The watch a pointer leads to. *)
Definition watch_at (id : nat) (s : State) : resourceWatch := default zero_watch (cs_heap s !! id).

Definition isTrackedWatch (id : nat) (s : State) : bool :=
  let key := rw_key (watch_at id s) in
  bool_decide (cs_watches s !! key = Some id) || bool_decide (cs_replacements s !! key = Some id).

Definition updateWatchHealth (id : nat) (err : option error) (s : State) : State :=
  if negb (isTrackedWatch id s) then s
  else
    let w := watch_at id s in
    let recovered := negb (is_nil (rw_err w)) && is_nil err in
    let s := alter_watch id (with_health err) s in
    let s := if bool_decide (cs_watches s !! rw_key w = Some id) then
               over cs_sources (insert (rw_key w) (MkCacheSource (rw_gvk w) (rw_full w) (rw_ready w) err)) s
             else s in
    let s := if is_nil (cs_replacements s !! rw_key w) || bool_decide (cs_replacements s !! rw_key w = Some id)
             then publish (SetSourceHealth (rw_key w)
                    (MkSourceHealth (rw_gvk w) (rw_ready w) (failureReason err))) s
             else s in
    let s := if recovered then
               over cs_workloadQueue (λ q, set_map root_job (dom (cs_roots s)) ∪ q)
                 (enqueueScopeRefresh (sk_Namespace (rw_key w)) s)
             else s in
    if bool_decide (rw_gvk w = namespaceGVK) then add_sync "sources" s else s.

Definition setWatchHealth : nat → option error → State → State := updateWatchHealth.

Definition rejectWatchObject (id : nat) (err : error) : M State () := λ s,
  (Fail err, setWatchHealth id (Some err) s).

Definition recordWatchStart (id : nat) (ctx_err : option error) (sendInitialEvents : bool)
    (err : option error) (s : State) : State :=
  match err with
  | None => updateWatchHealth id None s
  | Some e =>
      let isWatchListFallback := sendInitialEvents && IsBadRequest e in
      if is_nil ctx_err && negb isWatchListFallback then updateWatchHealth id err s else s
  end.

Definition recordWatchFailure (request : WatchRequest) (ref : ObjectRef) (err : error) : M State () := λ s,
  if negb (is_nil (cfg_NamespaceSelector (set_config r))) && negb (bool_decide (wq_Namespace request = "")) &&
     negb (bool_decide (wq_Namespace request ∈ cs_scopes s))
  then (Fail (Sentinel ErrPending), s)
  else (Fail err, publish (SetDiscoveryFailure ref (failureReason (Some err)))
                    (over cs_watchFailures (insert request err) s)).

(** ** Changes of objects *)

Definition ownership_of (o : option object) : option (option ObjectRef) :=
  (λ o, ControllerOwner (un_Meta o)) <$> o.

Definition uid_of (o : object) : UID := obj_UID (un_Meta o).

Definition queueObjectChange (old current : option object) (s : State) : State :=
  let s := enqueuePod current (enqueuePod old s) in
  match or_else current old with
  | None => s
  | Some o =>
      let gvk := un_GVK o in
      let s := if bool_decide (gvk = namespaceGVK) && negb (is_nil (cfg_NamespaceSelector (set_config r)))
               then add_sync "sources" s else s in
      let ancestor :=
        negb (bool_decide (gvk = podGVK)) || bool_decide (uid_of o ∈ cs_ancestorPods s) ||
        match old with
        | Some old => bool_decide (gvk = podGVK) && bool_decide (uid_of old ∈ cs_ancestorPods s)
        | None => false
        end in
      let replaced := bool_decide (uid_of <$> old ≠ uid_of <$> current) in
      let s := match old with
               | Some old =>
                   if replaced then
                     let s := over cs_ancestorPods (.∖ {[uid_of old]}) s in
                     let oldKey := objectJobFor (refOf old) in
                     let s := if is_nil (cs_selectedObjectRoots s !! oldKey) then s
                              else add_workload (object_job oldKey) s in
                     enqueueRootAndMembers (uid_of old) s
                   else s
               | None => s
               end in
      let ownershipChanged := replaced || bool_decide (ownership_of old ≠ ownership_of current) in
      let s := match current with
               | Some current =>
                   let key := objectJobFor (refOf current) in
                   let tracked := negb (is_nil (cs_selectedObjectRoots s !! key)) in
                   let s := if (negb tracked || ownershipChanged) && shouldDiscoverObject gvk s
                            then add_workload (object_job key) s else s in
                   match cs_roots s !! uid_of current with
                   | None => s
                   | Some root =>
                       over cs_podQueue (λ q, list_to_set (map_to_list (rs_pods root)).*2 ∪ q)
                         (add_workload (root_job (uid_of current)) s)
                   end
               | None => s
               end in
      let objectMembershipChanged :=
        match old, current with
        | Some old, Some current =>
            negb (Bool.eqb (Matches (set_objectSelector r) (labelsFor old))
                           (Matches (set_objectSelector r) (labelsFor current)))
        | _, _ => false
        end in
      if (ownershipChanged && ancestor) || objectMembershipChanged
      then enqueueScopeRefresh (obj_Namespace (un_Meta o)) s else s
  end.

(** An accepted object enters the cache or leaves it. *)
Definition cache_object (key : objectKey) (o : object) (source : watchKey) : State → State :=
  over cs_objects (insert key (MkCachedObject _ o source)).
Definition uncache_object (key : objectKey) : State → State := over cs_objects (delete key).
Definition cached (key : objectKey) (s : State) : option object := co_object <$> cs_objects s !! key.

Definition retire_object (key : watchKey) (s : State) (k : objectKey) : State :=
  match cs_objects s !! k with
  | Some entry =>
      if bool_decide (co_source entry = key)
      then queueObjectChange (Some (co_object entry)) None (uncache_object k s)
      else s
  | None => s
  end.

Definition retireWatch (id : nat) (s : State) : State :=
  let w := watch_at id s in
  let s := over cs_watches (delete (rw_key w)) (alter_watch id cancelled s) in
  let s := foldl (retire_object (rw_key w)) s (elements (rw_objects w)) in
  publish (RemoveSourceHealth (rw_key w)) (over cs_sources (delete (rw_key w)) s).

Definition applyWatchEvent (id : nat) (value : watch_value) (deleted : bool) : M State () := λ s,
  let w := watch_at id s in
  match prepareWatchObject value (rw_gvk w) (rw_full w) with
  | Fail err => rejectWatchObject id err s
  | Ok o =>
      if no_identity o then rejectWatchObject id (External "watch object has no identity") s
      else if negb (bool_decide (cs_watches s !! rw_key w = Some id)) then (Ok (), s)
      else
        let key := keyOf (refOf o) in
        let old := cached key s in
        if deleted then
          if bool_decide (uid_of <$> old ≠ Some (uid_of o)) then (Ok (), s)
          else
            let s := alter_watch id (λ w, with_objects (rw_objects w ∖ {[key]}) w) (uncache_object key s) in
            (Ok (), queueObjectChange old None s)
        else
          let s := alter_watch id (λ w, with_objects ({[key]} ∪ rw_objects w) w)
                     (cache_object key o (rw_key w) s) in
          (Ok (), queueObjectChange old (Some o) s)
  end.

Definition Add (id : nat) (value : watch_value) : M State () := applyWatchEvent id value false.
Definition Update (id : nat) (value : watch_value) : M State () := applyWatchEvent id value false.
Definition Delete (id : nat) (value : watch_value) : M State () := applyWatchEvent id value true.
Definition Resync : M State () := mret ().

(** The two loops of [Replace]. *)
Definition drop_missing (objects : gmap objectKey object) (s : State) (key : objectKey) : State :=
  if negb (is_nil (objects !! key)) then s
  else
    let old := cached key s in
    let s := uncache_object key s in
    match old with None => s | Some _ => queueObjectChange old None s end.

Definition accept_object (source : watchKey) (s : State) (p : objectKey * object) : State :=
  let '(key, o) := p in
  let old := cached key s in
  queueObjectChange old (Some o) (cache_object key o source s).

Definition Replace (id : nat) (values : list watch_value) : M State () := λ s,
  let w := watch_at id s in
  match prepareWatchSnapshot values (rw_gvk w) (rw_full w) ∅ with
  | Fail err => rejectWatchObject id err s
  | Ok objects =>
      if negb (isTrackedWatch id s) then (Ok (), s)
      else
        match (if bool_decide (cs_watches s !! rw_key w = Some id) then Ok s
               else match cs_watches s !! rw_key w with
                    | None => Fail nil_panic
                    | Some previous =>
                        let s := alter_watch previous cancelled s in
                        let s := alter_watch id (with_objects (rw_objects (watch_at previous s))) s in
                        Ok (over cs_replacements (delete (rw_key w))
                              (over cs_watches (insert (rw_key w) id) s))
                    end) with
        | Fail err => (Fail err, s)
        | Ok s =>
            let s := foldl (drop_missing objects) s (elements (rw_objects (watch_at id s))) in
            let s := alter_watch id (with_objects ∅) s in
            let s := foldl (accept_object (rw_key w)) s (map_to_list objects) in
            let s := alter_watch id (λ w, set_ready (with_objects (dom objects) w)) s in
            (Ok (), enqueueScopeRefresh (sk_Namespace (rw_key w)) (updateWatchHealth id None s))
        end
  end.

(** ** Starting and retiring watches *)

Definition ctx_error (caller : option error) (s : State) : option error :=
  match cs_ctx s with NotStarted => caller | Running => None | Over err => Some err end.

(** The failures recorded for a kind, in the namespace the watch covers. *)
Definition clear_failures (covered : WatchRequest → bool) (s : State) : State :=
  let failed := filter (λ q, covered q = true) (dom (cs_watchFailures s)) in
  let s := over cs_watchFailures (filter (λ p : WatchRequest * error, p.1 ∉ failed)) s in
  foldl (λ s q, publish (RemoveDiscoveryFailure (sourceFailureUID (wq_GVK q) (wq_Namespace q))) s)
    s (elements failed).

Definition ensureWatch (mapping : result RESTMapping) (caller : option error) (gvk : GroupVersionKind)
    (namespace : string) (metadataOnly : bool) : M State watchKey := λ s,
  match mapping with
  | Fail err =>
      let failureRef := MkObjectRef gvk namespace "" (sourceFailureUID gvk namespace) "" in
      match recordWatchFailure (MkWatchRequest gvk namespace) failureRef err s with
      | (Ok _, s) => (Ok (MkSourceKey (GVR "" "" "") ""), s)
      | (Fail err, s) => (Fail err, s)
      end
  | Ok mapping =>
      let namespace :=
        if rm_RootScope mapping || is_nil (cfg_NamespaceSelector (set_config r)) then "" else namespace in
      let key := MkSourceKey (rm_Resource mapping) namespace in
      let s := clear_failures (λ q, bool_decide (wq_GVK q = gvk) &&
                 (bool_decide (namespace = "") || bool_decide (wq_Namespace q = namespace))) s in
      if negb (bool_decide (namespace = "")) && negb (bool_decide (namespace ∈ cs_scopes s))
      then (Fail (Sentinel ErrPending), s)
      else
        let existing := cs_watches s !! key in
        let kept := match existing with
                    | Some id => metadataOnly || rw_full (watch_at id s) ||
                                 negb (is_nil (cs_replacements s !! key))
                    | None => false
                    end in
        if kept then (Ok key, s)
        else
          match ctx_error caller s with
          | Some err => (Fail err, s)
          | None =>
              let id := fresh (dom (cs_heap s)) in
              let w := MkResourceWatch key gvk (negb metadataOnly) false None ∅ false in
              let s := over cs_heap (insert id w) s in
              let s := match existing with
                       | Some _ => over cs_replacements (insert key id) s
                       | None =>
                           over cs_sources (insert key (MkCacheSource gvk (negb metadataOnly) false None))
                             (over cs_watches (insert key id) s)
                       end in
              (Ok key, publish (SetSourceHealth key (MkSourceHealth gvk false "")) s)
          end
  end.

(** The namespaces the watches of namespaces admit; no answer without one that
    is listed and healthy. *)
Definition admitted_of (w : resourceWatch) (s : State) : result (gset string) :=
  foldl (λ acc key,
    admitted ← acc;
    match cached key s with
    | None => Fail nil_panic
    | Some o => Ok (if Matches (set_namespaceSelector r) (labelsFor o)
                    then {[obj_Name (un_Meta o)]} ∪ admitted else admitted)
    end) (Ok ∅) (elements (rw_objects w)).

Definition namespace_watches (s : State) : list resourceWatch :=
  filter (λ w, rw_gvk w = namespaceGVK ∧ rw_ready w = true ∧ rw_err w = None)
    ((λ p : watchKey * nat, watch_at p.2 s) <$> map_to_list (cs_watches s)).

Definition admittedNamespaces (s : State) : result (gset string) :=
  foldl (λ acc w, admitted ← acc; more ← admitted_of w s; Ok (admitted ∪ more)) (Ok ∅) (namespace_watches s).

Definition remove_root_out_of_scope (s : State) (p : UID * rootState) : State :=
  if isNamespaceInScope (or_Namespace (rs_ref p.2)) s then s else removeRoot p.1 s.

Definition refreshScopes : M State () := λ s,
  if is_nil (cfg_NamespaceSelector (set_config r)) then (Ok (), s)
  else if bool_decide (namespace_watches s = []) then (Fail (Sentinel ErrPending), s)
  else
    match admittedNamespaces s with
    | Fail err => (Fail err, s)
    | Ok admitted =>
        let s := assign cs_scopes admitted s in
        (Ok (), foldl remove_root_out_of_scope s (map_to_list (cs_roots s)))
    end.

(** Watches and failures of namespaces no longer admitted go. *)
Definition retire_out_of_scope (s : State) (p : watchKey * nat) : State :=
  let '(key, id) := p in
  if bool_decide (sk_Namespace key = "") || bool_decide (sk_Namespace key ∈ cs_scopes s) then s
  else
    let s := retireWatch id s in
    match cs_replacements s !! key with
    | None => s
    | Some replacement => over cs_replacements (delete key) (alter_watch replacement cancelled s)
    end.

Definition selected_kinds (s : State) : gset GroupVersionKind :=
  list_to_set (filter (λ gvk, gvk_Version gvk ≠ "" ∧ gvk_Kind gvk ≠ "")
    ((sd_GVK ∘ snd) <$> map_to_list (cs_selectedDefinitions s))).

Definition wanted_kinds (s : State) : gset GroupVersionKind :=
  {[podGVK]} ∪ selected_kinds s ∪ list_to_set (cfg_RequiredKinds (set_config r)).

Definition wanted_requests (s : State) : gset WatchRequest :=
  set_bind (λ gvk, set_map (MkWatchRequest gvk) (cs_scopes s)) (wanted_kinds s).

(** The locked part of [prepareWatchRequests]; the definitions were prepared
    before.  The requests, and the error of the definitions beside them. *)
Definition prepareWatchRequests (definitions : gmap GroupKind selectedDefinition)
    (sourceErr : option error) : M State (gset WatchRequest * option error) := λ s,
  let s := refreshDefinitions definitions sourceErr s in
  match refreshScopes s with
  | (Fail err, s) => (Fail err, s)
  | (Ok _, s) =>
      let requests := wanted_requests s in
      let s := foldl retire_out_of_scope s (map_to_list (cs_watches s)) in
      let scopes := cs_scopes s in
      let s := clear_failures (λ q, negb (bool_decide (wq_Namespace q = "")) &&
                                    negb (bool_decide (wq_Namespace q ∈ scopes))) s in
      (Ok (requests, sourceErr), s)
  end.

(** ** Lists and streams *)

Definition lists_dynamically (err : error) : bool := IsNotAcceptable err || IsUnsupportedMediaType err.

(** The answers of the two clients, each asked only where the code asks it. *)
Definition listResource (id : nat) (dynamic : result (list object))
    (metadata : result (list PartialObjectMetadata)) (ctx_err : option error) : M State (list object) := λ s,
  let w := watch_at id s in
  let prepared (l : result (list object)) :=
    items ← l; mapR (λ o, prepareWatchObject (WUnstructured o) (rw_gvk w) (rw_full w)) items in
  let answer :=
    if rw_full w then prepared dynamic
    else match metadata with
         | Ok items => mapR (λ p, prepareWatchObject (WPartial p) (rw_gvk w) false) items
         | Fail err => if lists_dynamically err then prepared dynamic else Fail err
         end in
  match answer with
  | Ok items => (Ok items, s)
  | Fail err => (Fail err, if is_nil ctx_err then setWatchHealth id (Some err) s else s)
  end.

(** Opening the stream. *)
Definition watchResource (id : nat) (dynamic metadata : option error) (ctx_err : option error)
    (sendInitialEvents : bool) : M State () := λ s,
  let w := watch_at id s in
  let err :=
    if rw_full w then dynamic
    else match metadata with
         | None => None
         | Some err => if lists_dynamically err then dynamic else Some err
         end in
  let s := recordWatchStart id ctx_err sendInitialEvents err s in
  match err with None => (Ok (), s) | Some err => (Fail err, s) end.

(** One turn of the stream's goroutine: what it passes on, or that it ends. *)
Definition watch_turn (id : nat) (event : stream_event) (ctx_err : option error) (stopping : bool)
    (s : State) : option (stream_event) * State :=
  match event with
  | Closed =>
      (None, if is_nil ctx_err && negb stopping then setWatchHealth id (Some (External "watch closed")) s else s)
  | ErrorEvent err => (Some (ErrorEvent err), setWatchHealth id (Some err) s)
  | ObjectEvent value =>
      let w := watch_at id s in
      match prepareWatchObject value (rw_gvk w) (rw_full w) with
      | Fail err => (None, setWatchHealth id (Some err) s)
      | Ok o => (Some (ObjectEvent (WUnstructured o)), s)
      end
  end.

Definition stopWatches (s : State) : State :=
  let ids : gset nat := list_to_set ((map_to_list (cs_watches s)).*2 ++ (map_to_list (cs_replacements s)).*2) in
  over cs_heap (map_imap (λ id w, Some (if bool_decide (id ∈ ids) then cancelled w else w))) s.

(** ** Health *)

Definition requiredWatch (gvk : GroupVersionKind) : bool :=
  bool_decide (gvk = podGVK) ||
  (bool_decide (gvk = namespaceGVK) && negb (is_nil (cfg_NamespaceSelector (set_config r)))) ||
  bool_decide (gvk ∈ cfg_RequiredKinds (set_config r)).

Definition watch_list (s : State) : list (watchKey * resourceWatch) :=
  (λ p : watchKey * nat, (p.1, watch_at p.2 s)) <$> map_to_list (cs_watches s).

Definition hasRequiredWatches (namespace : string) (s : State) : bool :=
  forallb (λ gvk,
    existsb (λ p : watchKey * resourceWatch,
      bool_decide (rw_gvk p.2 = gvk) &&
      (bool_decide (sk_Namespace p.1 = "") || bool_decide (sk_Namespace p.1 = namespace))) (watch_list s))
    (podGVK :: cfg_RequiredKinds (set_config r)).

(** The namespaces a watch holds and the selector takes are all watched; a
    missing entry is the nil object that would panic. *)
Definition namespaces_watched (w : resourceWatch) (s : State) : bool :=
  forallb (λ key, match cached key s with
                  | None => false
                  | Some o => negb (Matches (set_namespaceSelector r) (labelsFor o)) ||
                              hasRequiredWatches (obj_Name (un_Meta o)) s
                  end) (elements (rw_objects w)).

Definition is_namespace_watch (w : resourceWatch) : bool :=
  bool_decide (rw_gvk w = namespaceGVK) && negb (is_nil (cfg_NamespaceSelector (set_config r))).

Definition ready (s : State) : bool :=
  match cs_ctx s with Running => true | _ => false end &&
  is_nil (cs_definitionInventoryErr s) && negb (bool_decide (cs_watches s = ∅)) &&
  forallb (λ q, negb (requiredWatch (wq_GVK q))) (elements (dom (cs_watchFailures s))) &&
  forallb (λ p : watchKey * resourceWatch,
    let w := p.2 in
    let isUnavailable := negb (rw_ready w) || negb (is_nil (rw_err w)) ||
                         negb (is_nil (cs_replacements s !! rw_key w)) in
    negb (requiredWatch (rw_gvk w) && isUnavailable) &&
    (negb (is_namespace_watch w) || namespaces_watched w s)) (watch_list s) &&
  (if is_nil (cfg_NamespaceSelector (set_config r)) then hasRequiredWatches "" s
   else existsb (λ p : watchKey * resourceWatch, is_namespace_watch p.2) (watch_list s)).

End sources.
