(* ===== verification/ControllerReconcile.v ===== *)
(** * ControllerReconcile: the handlers of the controller

    Models [controller/leaf.go], [controller/root.go], the rest of
    [controller/reader.go] and the handlers, workers and constructor of
    [controller/runtime.go].  A handler holds the state's lock only during each
    of its operations; before each of them the other goroutines may have changed
    the state in any way, which [interfere] says.  What the API server, the
    inventory, the label resolver and discovery answer may differ from turn to
    turn. *)

From S2P Require Import Prelude Api Validator Value Runner Accessor Component PodQuerier Literal Sort Summary Gang Store Discovery LabelResolver Inventory ControllerState ControllerSources.
From Stdlib Require Import Ascii.

Definition ErrMissingComponentInstance : string := "required component instance is missing".
Definition ErrMissingDependencies : string := "runtime dependencies are required".
Definition errNoClients : string := "dynamic client, metadata client and REST mapper are required".

(** The state behind the lock, the reader's own state, and the turn. *)
Record world `{Kubernetes} := MkWorld { w_turn : nat; w_state : State; w_lastMapperReset : Z }.

Definition inventory_results := result (list SelectionResult).
Definition label_results := result (list ResolvedMetricLabels).

(** Everything outside the controller, turn by turn. *)
Class Cluster `{WatchLibrary} := {
  interfere : nat → State → State;
  ctx_Err : nat → option error;
  Now : nat → Z;
  IsNoMatchError : error → bool;
  IsResettable : bool;
  RESTMappingWithContext : nat → GroupVersionKind → result RESTMapping;
  FromUnstructured : object → result Discovery.Object;
  Inventory_List : nat → inventory_results;
  Labels_Resolve : nat → LabelResolver.Input object → label_results;
  Discovery_Get : ObjectRef → M world (option GenericWorkload);
}.

(** A pod and an object as the SDK reads them. *)
Class Evaluation `{Kubernetes} `{K8s} (S R : Type) `{!ComponentAccessor S} `{!Runner R} := {
  ToPod : object → result R;
  NewInterfaceFromObject : object → S;
  PodName : object → string;
  Sprint_other : value → string;
}.

Definition mapperResetInterval : Z := 45 * 1000000000.

(** ** Resource rules *)

Section rules.

Definition has_any (chars : string) (s : string) : bool :=
  existsb (λ c, existsb (Ascii.eqb c) (String.list_ascii_of_string chars)) (String.list_ascii_of_string s).

(** A slash or white space. *)
Definition forbidden_chars : string := "/ " +:+ String "009"%char (String "010"%char "").

Definition bad_name (name : string) : bool := bool_decide (name = "") || has_any forbidden_chars name.

Fixpoint validate_resource_rules (index : nat) (rules : list ResourceRule) : result () :=
  match rules with
  | [] => Ok ()
  | rule :: rules =>
      if bool_decide (rule_APIGroups rule = []) || bool_decide (rule_APIVersions rule = []) ||
         bool_decide (rule_Resources rule = [])
      then Fail (Errorf "resource rule %d requires apiGroups, apiVersions and resources" [ANat index] [])
      else if existsb bad_name (rule_APIVersions rule)
      then Fail (External "resource rule API versions must name a version or *")
      else if existsb bad_name (rule_Resources rule)
      then Fail (External "resource rules must name whole resources or *")
      else validate_resource_rules (S index) rules
  end.

Definition ValidateResourceRules (rules : list ResourceRule) : result () := validate_resource_rules 0 rules.

Definition names (l : list string) (name : string) : bool :=
  bool_decide ("*" ∈ l) || bool_decide (name ∈ l).

Definition matchesResourceRule (rule : ResourceRule) (gvr : GroupVersionResource) : bool :=
  if negb (names (rule_APIGroups rule) (gvr_Group gvr)) then false
  else if negb (names (rule_APIVersions rule) (gvr_Version gvr)) then false
  else names (rule_Resources rule) (gvr_Resource gvr).

(** The answer for a mapped resource. *)
Definition resource_selected (include exclude : list ResourceRule) (gvr : GroupVersionResource) : bool :=
  if existsb (λ rule, matchesResourceRule rule gvr) exclude then false
  else if bool_decide (include = []) then true
  else existsb (λ rule, matchesResourceRule rule gvr) include.

End rules.

(** ** Construction *)

Section construction.
Context `{!KubernetesErrors, !Kubernetes}.

Definition defaultAmountOfWorkers : Z := 4.

Definition or_default (default n : Z) : Z := if (n =? 0)%Z then default else n.

Definition selector (value : option LabelSelector) : result Selector :=
  match value with None => Ok Everything | Some value => LabelSelectorAsSelector value end.

Definition with_defaults (config : Config) : Config :=
  let workers := or_default defaultAmountOfWorkers (cfg_Workers config) in
  let namespaces := match cfg_NamespaceSelector config with
                    | Some value => if no_terms value then None else Some value
                    | None => None
                    end in
  MkConfig _ (cfg_IgnoredOwnerKinds config) (cfg_ResourceRules config) (cfg_ExcludeResourceRules config)
    namespaces (cfg_ObjectSelector config) (cfg_PodSelector config) (cfg_ClusterDefinitions config)
    (cfg_RequiredKinds config) workers (or_default workers (cfg_LeafWorkers config))
    (or_default workers (cfg_RootWorkers config)).

Definition newControllerState (publications : Store) : State :=
  MkState _ ∅ ∅ ∅ ∅ ∅ ∅ ∅ ∅ ∅ ∅ ∅ ∅ None 0 ∅ ∅ ∅ publications NotStarted.

(** [missing]: a dependency or the reader is nil. *)
Definition New (config : Config) (missing : bool) (publications : Store) : result (Settings * State) :=
  if missing then Fail (Sentinel ErrMissingDependencies)
  else
    _ ← ValidateResourceRules (cfg_ResourceRules config ++ cfg_ExcludeResourceRules config);
    let config := with_defaults config in
    if (cfg_Workers config <? 1)%Z || (cfg_LeafWorkers config <? 1)%Z || (cfg_RootWorkers config <? 1)%Z
    then Fail (External "worker limits must be positive")
    else
      let s := newControllerState publications in
      let s := if is_nil (cfg_NamespaceSelector config) then over cs_scopes (λ scopes, {[""]} ∪ scopes) s else s in
      let s := if cfg_ClusterDefinitions config then
                 publish (SetSourceHealth definitionSource (MkSourceHealth kartaGVK false ""))
                   (assign cs_definitionInventoryErr (Some (Sentinel Inventory.ErrNotReady)) s)
               else s in
      namespaceSelector ← selector (cfg_NamespaceSelector config);
      objectSelector ← selector (cfg_ObjectSelector config);
      podSelector ← selector (cfg_PodSelector config);
      Ok (MkSettings _ config namespaceSelector objectSelector podSelector, s).

(** The timeout of the reader, in nanoseconds. *)
Definition NewReader (missing : bool) (RequestTimeout : Z) : result Z :=
  if missing then Fail (External errNoClients)
  else
    let RequestTimeout := or_default (30 * 1000000000) RequestTimeout in
    if (RequestTimeout <? 0)%Z then Fail (External "request timeout must be positive") else Ok RequestTimeout.

End construction.

(** ** Operations under the lock, one by one *)

Section handlers.
Context `{!KubernetesErrors, !Kubernetes, !WatchLibrary} `{!Cluster} {r : Settings} `{!GoSort}.

Definition C : Type → Type := M world.

Definition locked {A} (op : M State A) : C A := λ w,
  let '(a, s) := op (interfere (w_turn w) (w_state w)) in
  (a, MkWorld _ (S (w_turn w)) s (w_lastMapperReset w)).

Definition update (f : State → State) : C () := locked (λ s, (Ok (), f s)).
Definition query {A} (f : State → A) : C A := locked (λ s, (Ok (f s), s)).
Definition turn : C nat := λ w, (Ok (w_turn w), w).

(** ** The reader *)

Definition read (ref : ObjectRef) (requireFullObject : bool) : C (object * watchKey) :=
  locked (λ s, (lookupObject ref requireFullObject s, s)).

Definition Cached (ref : ObjectRef) : C (option object) :=
  outcome ← attempt (read ref false);
  mret (match outcome with Ok (o, _) => Some o | Fail _ => None end).

Definition resetMapperIfNeeded : C () := λ w,
  let now := Now (w_turn w) in
  if (now - w_lastMapperReset w <? mapperResetInterval)%Z then (Ok (), w)
  else if IsResettable then (Ok (), MkWorld _ (w_turn w) (w_state w) now)
  else (Ok (), w).

Definition restMapping (gvk : GroupVersionKind) : C RESTMapping :=
  n ← turn;
  match ctx_Err n with
  | Some err => fail err
  | None =>
      match RESTMappingWithContext n gvk with
      | Ok mapping => mret mapping
      | Fail err =>
          _ ← (if IsNoMatchError err then resetMapperIfNeeded else mret ());
          fail (Errorf "map %s: %w" [AStr (gvk_String gvk)] [err])
      end
  end.

Definition ensure (gvk : GroupVersionKind) (namespace : string) (metadataOnly : bool) : C watchKey :=
  mapping ← attempt (restMapping gvk);
  n ← turn;
  locked (ensureWatch mapping (ctx_Err n) gvk namespace metadataOnly).

(** [attached]: a controller has set the reader's [ensure]. *)
Definition GetMetadata (attached : bool) (ref : ObjectRef) : C Discovery.Object :=
  n ← turn;
  match ctx_Err n with
  | Some err => fail err
  | None =>
      if negb attached then fail (Sentinel ErrPending)
      else
        _ ← ensure (or_GVK ref) (or_Namespace ref) true;
        '(o, _) ← read ref false;
        lift (FromUnstructured o)
  end.

(** ** What a handler asks and does *)

Definition namespaceAdmitted (namespace : string) : C bool := query (isNamespaceInScope namespace).

(** [DiscoveryResult.Workload]. *)
Definition discover (ref : ObjectRef) : C GenericWorkload :=
  workload ← Discovery_Get ref;
  match workload with None => fail (Sentinel ErrUnresolvedOwner) | Some workload => mret workload end.

Definition isResourceSelected (gvk : GroupVersionKind) : C bool :=
  if bool_decide (cfg_ResourceRules (set_config r) = []) &&
     bool_decide (cfg_ExcludeResourceRules (set_config r) = [])
  then mret true
  else
    mapping ← restMapping gvk;
    mret (resource_selected (cfg_ResourceRules (set_config r)) (cfg_ExcludeResourceRules (set_config r))
            (rm_Resource mapping)).

Definition isRootSelected (o : object) : C bool :=
  if negb (Matches (set_objectSelector r) (labelsFor o)) then mret false else isResourceSelected (un_GVK o).

Definition failPod (key : objectJobKey) (path : list ObjectRef) (cause : error) (root : option ObjectRef) : C () :=
  sources ← query (sourcesFor path);
  locked (publishPodFailure key sources cause root).

Definition failPodEval (key : objectJobKey) (path : list ObjectRef) (cause : error) (root : ObjectRef)
    (selection : selectedDefinition) : C () :=
  sources ← query (sourcesFor path);
  locked (failPodEvaluation key sources path cause root selection).

Definition failRoot (uid : UID) (ref : ObjectRef) (cause : error) : C () :=
  sources ← query (sourcesFor [ref]);
  locked (failWorkload uid ref sources cause).

Definition with_GVK (gvk : GroupVersionKind) (ref : ObjectRef) : ObjectRef :=
  MkObjectRef gvk (or_Namespace ref) (or_Name ref) (or_UID ref) (or_ResourceVersion ref).

Definition unversioned (ref : ObjectRef) : ObjectRef :=
  MkObjectRef (or_GVK ref) (or_Namespace ref) (or_Name ref) (or_UID ref) "".

Definition selected_ref (selection : selectedDefinition) (ref : ObjectRef) : ObjectRef :=
  match sd_Definition selection with Some _ => with_GVK (sd_GVK selection) ref | None => ref end.

(** Only a controller that is no kind to ignore owns the object. *)
Definition ignored_owner (owner : ObjectRef) : bool :=
  bool_decide (or_UID owner = "") || bool_decide (or_GVK owner ∈ cfg_IgnoredOwnerKinds (set_config r)).

(** ** Evaluation of a pod *)

Section evaluation.
Context `{!K8s} {A R : Type} `{!ComponentAccessor A} `{!Runner R} `{!Evaluation A R}.

Definition has_key_path (selector : ReplicaSelector) : bool := negb (bool_decide (rs_KeyPath selector = "")).

(** The replica selector of a component, or of the nearest owner with one.
    [None] is out of fuel. *)
Fixpoint replica_selector (factory : ComponentFactory) (fuel : nat) (component : Component)
  : option (result (option ReplicaSelector)) :=
  match fuel with
  | O => None
  | S fuel =>
      let selector := GetPodSelector component ≫= ps_ReplicaSelector in
      if (match selector with Some selector => has_key_path selector | None => false end)
      then Some (Ok selector)
      else
        match cd_OwnerRef (comp_definition component) with
        | None => Some (Ok None)
        | Some owner =>
            match GetComponent factory owner with
            | Fail err => Some (Fail err)
            | Ok component => replica_selector factory fuel component
            end
        end
  end.

Definition endless : error := External "the owners of the component never end".

(** The turns of the loop: one per component of the factory, and one more. *)
Definition selectorFuel (factory : ComponentFactory) : nat := S (size (fac_componentDefinitionsByName factory)).

Definition evaluatePodComponent (factory : ComponentFactory) (summary : option StructureSummary)
    (podName : string) : M (A * R) (string * string * string) :=
  match summary with
  | None => fail nil_panic
  | Some summary =>
      componentName ← on_snd (InferPodComponent podName summary);
      component ← lift (GetComponent factory componentName);
      instanceID ← InferPodComponentInstance Sprint_other componentName factory;
      let instance := default "" instanceID in
      if negb (is_nil (cd_InstanceIdPath (comp_definition component))) && bool_decide (instance = "")
      then fail (Sentinel ErrMissingComponentInstance)
      else
        selector ← lift (default (Fail endless) (replica_selector factory (selectorFuel factory) component));
        '(group, _) ← (match selector with
                       | None => mret ("", false)
                       | Some _ => on_snd (ExtractReplicaKey Sprint_other selector)
                       end);
        mret (componentName, instance, group)
  end.

Definition with_component (karta source component instance group : string) (record : PodRecord) : PodRecord :=
  MkPodRecord (pr_Workload record) karta source (pr_Namespace record) (pr_UID record) (pr_Name record)
    component instance group (pr_OwnerResolution record) (pr_Labels record).

Definition with_labels (labels : gmap string string) (record : PodRecord) : PodRecord :=
  MkPodRecord (pr_Workload record) (pr_Karta record) (pr_KartaSource record) (pr_Namespace record)
    (pr_UID record) (pr_Name record) (pr_Component record) (pr_Instance record) (pr_Group record)
    (pr_OwnerResolution record) labels.

Definition index_panic : error := External "panic: index out of range [0] with length 0".

(** [results[0]] *)
Definition first_result (results : list ResolvedMetricLabels) : result ResolvedMetricLabels :=
  match results with [] => Fail index_panic | result :: _ => Ok result end.

(** What a definition says of a pod. *)
Definition evaluate_definition (selection : selectedDefinition) (podObject rootObject : object)
    (record : PodRecord) : result PodRecord :=
  match sd_Definition selection with
  | None => Ok record
  | Some definition =>
      pod ← ToPod podObject;
      '(component, instance, group) ←
        (evaluatePodComponent (NewComponentFactory definition) (sd_summary selection) (PodName podObject)
          (NewInterfaceFromObject rootObject, pod)).1;
      Ok (with_component (o_Name (sd_Origin selection)) (o_Source (sd_Origin selection))
            component instance group record)
  end.

(** The record, and whether a label failed. *)
Definition evaluatePodRecord (selection : selectedDefinition) (podObject rootObject : object)
    (record : PodRecord) : C (PodRecord * bool) :=
  record ← lift (evaluate_definition selection podObject rootObject record);
  n ← turn;
  results ← lift (Labels_Resolve n
    (LabelResolver.MkInput [MetricPodWorkloadInfo] (Some rootObject) (Some podObject)));
  result ← lift (first_result results);
  mret (with_labels (rl_Labels result) record, negb (bool_decide (rl_Errors result = ∅))).

(** ** Pods *)

Definition pod_record (key : objectJobKey) (ref rootRef : ObjectRef) (resolution : OwnerResolution) : PodRecord :=
  MkPodRecord (storedRef rootRef) "" "" (or_Namespace ref) (oj_UID key) (or_Name ref)
    "<unknown>" "<unknown>" "" resolution ∅.

(** The root's object, its watch refreshed where that failed. *)
Definition read_root (rootRef : ObjectRef) : C (object * watchKey) :=
  outcome ← attempt (read rootRef true);
  hasWatchFailure ← query (watchFailed rootRef);
  if negb (is_ok outcome) || hasWatchFailure then
    _ ← ensure (or_GVK rootRef) (or_Namespace rootRef) false;
    read rootRef true
  else lift outcome.

Definition evaluate_and_publish (key : objectJobKey) (ref : ObjectRef) (podObject : object)
    (workload : GenericWorkload) (selection : selectedDefinition) (rootObject : object) (rootSource : watchKey) : C () :=
  let rootRef := refOf rootObject in
  outcome ← attempt (evaluatePodRecord selection podObject rootObject
                       (pod_record key ref rootRef (gw_Resolution workload)));
  match outcome with
  | Fail err =>
      failPodEval key (gw_Path workload) (Errorf "%w: %w" [] [Sentinel ErrEvaluation; err]) rootRef selection
  | Ok (record, hasLabelErrors) =>
      sources ← query (sourcesFor (gw_Path workload));
      let sources := appendSources sources [rootSource] in
      locked (publishPod (gw_Path workload) rootRef selection
                (MkPodResult record (storedRef ref) true "" sources) hasLabelErrors)
  end.

(** A pod with its root. *)
Definition reconcile_member (key : objectJobKey) (ref : ObjectRef) (podObject : object)
    (workload : GenericWorkload) (selection : selectedDefinition) (selectionErr : option error) : C () :=
  let rootRef := selected_ref selection (gw_Root workload) in
  isResourceSelected ← attempt (isResourceSelected (or_GVK rootRef));
  match isResourceSelected with
  | Fail err => failPod key (gw_Path workload) err (Some rootRef)
  | Ok false => update (unregisterPod key)
  | Ok true =>
      registered ← attempt (locked (registerPodRoot key workload));
      match registered with
      | Fail err => if errors_Is ErrStale err then fail err
                    else failPod key (gw_Path workload) err (Some (gw_Root workload))
      | Ok _ =>
          root ← attempt (read_root (unversioned rootRef));
          match root with
          | Fail err => failPod key (gw_Path workload) err (Some (gw_Root workload))
          | Ok (rootObject, rootSource) =>
              isRootSelected ← attempt (isRootSelected rootObject);
              match isRootSelected with
              | Fail err => failPod key (gw_Path workload) err (Some (gw_Root workload))
              | Ok false => update (unregisterPod key)
              | Ok true =>
                  match selectionErr with
                  | Some err => failPodEval key (gw_Path workload) err (refOf rootObject) selection
                  | None => evaluate_and_publish key ref podObject workload selection rootObject rootSource
                  end
              end
          end
      end
  end.

Definition reconcilePod (key : objectJobKey) : C () :=
  let ref := job_ref key in
  admitted ← namespaceAdmitted (or_Namespace ref);
  if negb (admitted : bool) then update (unregisterPod key)
  else
    outcome ← attempt (read ref true);
    match outcome with
    | Fail err => if IsNotFound err then update (unregisterPod key) else failPod key [] err None
    | Ok (podObject, _) =>
        if negb (Matches (set_podSelector r) (labelsFor podObject)) then update (unregisterPod key)
        else
          let ref := refOf podObject in
          discovered ← attempt (discover ref);
          match discovered with
          | Fail err => failPod key [ref] err None
          | Ok workload =>
              '(selection, selectionErr) ← query (lookupDefinition (or_GVK (gw_Root workload)));
              reconcile_member key ref podObject workload selection selectionErr
          end
    end.

Definition handlePodInput (key : objectJobKey) : C () :=
  if oj_Rescan key then update (requeueScope (ok_Namespace (oj_Object key))) else reconcilePod key.

(** ** Workloads *)

Definition with_status (statuses : list ResourceStatus) (record : WorkloadRecord) : WorkloadRecord :=
  MkWorkloadRecord (wr_UID record) (wr_Ref record) (wr_Karta record) (wr_KartaSource record)
    (wr_OwnerResolution record) true (wr_Phases record ++ statuses) (wr_CreatedTimestamp record)
    (wr_StatusLabels record).

Definition with_status_labels (labels : gmap string string) (record : WorkloadRecord) : WorkloadRecord :=
  MkWorkloadRecord (wr_UID record) (wr_Ref record) (wr_Karta record) (wr_KartaSource record)
    (wr_OwnerResolution record) (wr_HasStatus record) (wr_Phases record) (wr_CreatedTimestamp record) labels.

Definition with_karta (karta source : string) (record : WorkloadRecord) : WorkloadRecord :=
  MkWorkloadRecord (wr_UID record) (wr_Ref record) karta source
    (wr_OwnerResolution record) (wr_HasStatus record) (wr_Phases record) (wr_CreatedTimestamp record)
    (wr_StatusLabels record).

Definition evaluateWorkloadStatus (factory : ComponentFactory) (o : object) (record : WorkloadRecord)
  : WorkloadRecord * option error :=
  let '(record, statusErr) :=
    match GetRootComponent factory with
    | Fail err => (record, Some err)
    | Ok component =>
        match (GetStatus component (NewInterfaceFromObject o)).1 with
        | Fail err => (record, Some err)
        | Ok None => (record, None)
        | Ok (Some status) => (with_status (status_MatchedStatuses status) record, None)
        end
    end in
  (record,
   match statusErr with
   | Some err => if errors_Is Discovery.ErrInvalidDefinition err then Some err
                 else Some (Errorf "%w: %w" [] [Sentinel ErrEvaluation; err])
   | None => None
   end).

Definition evaluateWorkloadStatusLabels (o : object) (record : WorkloadRecord)
  : C (WorkloadRecord * option error) :=
  n ← turn;
  match Labels_Resolve n (LabelResolver.MkInput [MetricWorkloadStatus] (Some o) None) with
  | Fail err => mret (record, Some (Errorf "%w: %w" [] [Sentinel ErrEvaluation; err]))
  | Ok results =>
      result ← lift (first_result results);
      if negb (bool_decide (rl_Errors result = ∅)) then mret (record, Some (Sentinel ErrEvaluation))
      else mret (with_status_labels (rl_Labels result) record, None)
  end.

(** The record of a workload, and the error of its status. *)
Definition evaluate_status (selection : selectedDefinition) (selectionErr : option error) (o : object)
    (record : WorkloadRecord) : C (WorkloadRecord * option error) :=
  match selectionErr with
  | Some err => mret (record, Some err)
  | None =>
      let '(record, statusErr) :=
        match sd_Definition selection with
        | None => (with_status [] record, None)
        | Some definition =>
            evaluateWorkloadStatus (NewComponentFactory definition) o
              (with_karta (o_Name (sd_Origin selection)) (o_Source (sd_Origin selection)) record)
        end in
      '(record, labelsErr) ← evaluateWorkloadStatusLabels o record;
      mret (record, errors_Join (option_list statusErr ++ option_list labelsErr))
  end.

Definition is_karta_source (key : SourceKey) : bool :=
  bool_decide (gvr_Group (sk_Resource key) = gvk_Group kartaGVK) &&
  bool_decide (gvr_Resource (sk_Resource key) = "kartas").

Definition workload_record (uid : UID) (o : object) (owner : ObjectRef) : WorkloadRecord :=
  MkWorkloadRecord uid (storedRef (refOf o)) "" ""
    (if bool_decide (or_UID owner = "") then Resolved else IgnoredOwner) false []
    (un_CreationTimestamp o) ∅.

(** A root whose object is accepted. *)
Definition reconcile_root (uid : UID) (o : object) (owner : ObjectRef) (selection : selectedDefinition)
    (selectionErr : option error) : C () :=
  let ref := refOf o in
  isRoot ← query (hasRootOwnership ref);
  if negb (isRoot : bool) then failRoot uid ref (Sentinel ErrUnresolvedOwner)
  else
    isRootSelected ← attempt (isRootSelected o);
    match isRootSelected with
    | Fail err => failRoot uid ref err
    | Ok false => update (publish (RemoveWorkload uid))
    | Ok true =>
        '(record, statusErr) ← evaluate_status selection selectionErr o (workload_record uid o owner);
        sources ← query (sourcesFor [ref]);
        let creationSources := filter (λ key, is_karta_source key = false) sources in
        locked (publishWorkload uid ref selection
                  (MkWorkloadResult record true "" (failureReason statusErr) sources creationSources))
    end.

Definition reconcileWorkload (uid : UID) : C () :=
  root ← query (snapshotRoot uid);
  match root with
  | None => mret ()
  | Some ref =>
      '(selection, selectionErr) ← query (lookupDefinition (or_GVK ref));
      let ref := unversioned (selected_ref selection ref) in
      ensured ← attempt (ensure (or_GVK ref) (or_Namespace ref) false);
      match ensured with
      | Fail err => failRoot uid ref err
      | Ok _ =>
          outcome ← attempt (read ref true);
          match outcome with
          | Fail err => if IsNotFound err then update (withdrawWorkload uid) else failRoot uid ref err
          | Ok (o, _) =>
              match ControllerOwner (un_Meta o) with
              | None => failRoot uid (refOf o) (Sentinel ErrUnresolvedOwner)
              | Some owner =>
                  if negb (ignored_owner owner) then update (withdrawWorkload uid)
                  else reconcile_root uid o owner selection selectionErr
              end
          end
      end
  end.

(** ** Selected objects *)

Definition failDiscovery (key : objectJobKey) (err : error) : C () :=
  _ ← update (failSelectedObjectDiscovery key err);
  fail err.

(** The object is served under another version of its kind. *)
Definition follow_selected_version (key : objectJobKey) (selection : selectedDefinition) : C () :=
  let ref := with_GVK (sd_GVK selection) (job_ref key) in
  _ ← ensure (or_GVK ref) (or_Namespace ref) false;
  outcome ← attempt (read ref true);
  match outcome with
  | Ok (o, _) => locked (replaceSelectedObjectTracking key (Some o) selection)
  | Fail err => if IsNotFound err then locked (replaceSelectedObjectTracking key None selection) else fail err
  end.

Definition resolve_root (key : objectJobKey) (workload : GenericWorkload) (selection : selectedDefinition)
    (selectionErr : option error) : C () :=
  '(rootSelection, rootSelectionErr) ← query (lookupDefinition (or_GVK (gw_Root workload)));
  isResourceSelected ← attempt (isResourceSelected (or_GVK (selected_ref rootSelection (gw_Root workload))));
  match isResourceSelected with
  | Fail err => failDiscovery key err
  | Ok false =>
      match errors_Join (option_list selectionErr ++ option_list rootSelectionErr) with
      | Some err => failDiscovery key err
      | None => locked (excludeSelectedObject key workload selection rootSelection)
      end
  | Ok true => locked (registerSelectedObjectRoot key workload selection rootSelection)
  end.

(** No definition for the kind, and an error instead. *)
Definition no_definition (selection : selectedDefinition) (selectionErr : option error) : option error :=
  if is_nil (sd_Definition selection) then selectionErr else None.

Definition resolveSelectedObjectRoot (key : objectJobKey) : C () :=
  admitted ← namespaceAdmitted (ok_Namespace (oj_Object key));
  if negb (admitted : bool) then update (unregisterSelectedObject key)
  else
    _ ← update (trackSelectedObject key);
    '(selection, selectionErr) ← query (lookupDefinition (ok_GVK (oj_Object key)));
    match no_definition selection selectionErr with
    | Some err => failDiscovery key err
    | None =>
        if negb (is_nil (sd_Definition selection)) &&
           negb (bool_decide (sd_GVK selection = ok_GVK (oj_Object key)))
        then follow_selected_version key selection
        else
          outcome ← attempt (read (job_ref key) false);
          match outcome with
          | Fail err => if IsNotFound err then update (unregisterSelectedObject key) else failDiscovery key err
          | Ok (o, _) =>
              discovered ← attempt (discover (refOf o));
              match discovered with
              | Fail err => failDiscovery key err
              | Ok workload => resolve_root key workload selection selectionErr
              end
          end
    end.

Definition handleWorkloadInput (key : workloadJobKey) : C () :=
  if negb (bool_decide (oj_UID (wj_SelectedObject key) = "")) then resolveSelectedObjectRoot (wj_SelectedObject key)
  else reconcileWorkload (wj_RootUID key).

(** ** Watches *)

Fixpoint ensure_each (requests : list WatchRequest) (errs : list error) : C (list error) :=
  match requests with
  | [] => mret errs
  | request :: requests =>
      outcome ← attempt (ensure (wq_GVK request) (wq_Namespace request) false);
      ensure_each requests (match outcome with Ok _ => errs | Fail err => errs ++ [err] end)
  end.

Definition sync_requests : C () :=
  n ← turn;
  let listed := prepareDefinitions (Inventory_List n) in
  let '(definitions, sourceErr) :=
    match listed with Ok definitions => (definitions, None) | Fail err => (∅, Some err) end in
  '(requests, preparationErr) ← locked (prepareWatchRequests definitions sourceErr);
  errs ← ensure_each (elements requests) (option_list preparationErr);
  lift (err_result (errors_Join errs)).

Definition syncWatches : C () :=
  if is_nil (cfg_NamespaceSelector (set_config r)) then sync_requests
  else _ ← ensure namespaceGVK "" false; sync_requests.

(** ** Workers *)

(** One turn of a worker on a key it took: a failure is tried again, unless the
    context is over. *)
Definition runWorker {K} (reconcile : K → C ()) (AddRateLimited : K → State → State) (key : K) : C () :=
  outcome ← attempt (reconcile key);
  n ← turn;
  match outcome, ctx_Err n with
  | Fail _, None => update (AddRateLimited key)
  | _, _ => mret ()
  end.

Definition take_pod (key : objectJobKey) : State → State := over cs_podQueue (.∖ {[key]}).
Definition take_workload (key : workloadJobKey) : State → State := over cs_workloadQueue (.∖ {[key]}).
Definition take_sync (name : string) : State → State := over cs_watchSyncQueue (.∖ {[name]}).

(** ** The main loop *)

Definition errInventoryChangesClosed : string := "definition inventory change channel closed before cancellation".

Inductive run_event := ContextDone | InventoryChange (open_ : bool).

Definition run_begin (s : State) : State := add_sync "sources" (start Running s).

(** One turn of the loop that [Run] waits in: whether it ends, with the error of
    the run, or goes on. *)
Definition run_turn (event : run_event) (ctx_err : option error) (s : State) : option (option error) * State :=
  match event with
  | ContextDone => (Some None, s)
  | InventoryChange true => (None, add_sync "sources" s)
  | InventoryChange false =>
      (Some (if is_nil ctx_err then Some (Sentinel errInventoryChangesClosed) else None), s)
  end.

Definition run_end (s : State) : State := stopWatches s.

Definition pod_worker (key : objectJobKey) : C () :=
  _ ← update (take_pod key); runWorker handlePodInput add_pod key.
Definition workload_worker (key : workloadJobKey) : C () :=
  _ ← update (take_workload key); runWorker handleWorkloadInput add_workload key.
Definition sync_worker (name : string) : C () :=
  _ ← update (take_sync name); runWorker (λ _, syncWatches) add_sync name.

End evaluation.
End handlers.

(** ** The loop over the owners *)

Section owners.
Context (k : Karta) (Hwf : wf_structure k).

(** The replica selector a component declares itself. *)
Definition own_selector (d : ComponentDefinition) : option ReplicaSelector :=
  match cd_PodSelector d ≫= ps_ReplicaSelector with
  | Some selector => if has_key_path selector then Some selector else None
  | None => None
  end.

(** The first selector declared along a path of names. *)
Definition nearest_selector (path : list string) (selector : option ReplicaSelector) : Prop :=
  match selector with
  | Some selector => ∃ l1 d l2, path = l1 ++ cd_Name d :: l2 ∧ d ∈ components k ∧ own_selector d = Some selector ∧
      ∀ d', d' ∈ components k → cd_Name d' ∈ l1 → own_selector d' = None
  | None => ∀ d, d ∈ components k → cd_Name d ∈ path → own_selector d = None
  end.

Lemma replica_selector_path n path :
  owner_path k n path → ∀ d fuel, d ∈ components k → cd_Name d = n → length path ≤ fuel →
  ∃ selector, replica_selector (NewComponentFactory k) fuel (component_of d) = Some (Ok selector) ∧
    nearest_selector path selector.
Proof using Hwf.
  pose proof (wf_unique _ Hwf) as Hnd.
  assert (Hown : ∀ d selector, own_selector d = Some selector → ∀ fuel,
    replica_selector (NewComponentFactory k) (S fuel) (component_of d) = Some (Ok (Some selector))).
  { unfold own_selector, replica_selector, GetPodSelector. intros d selector E fuel. cbn.
    destruct (cd_PodSelector d ≫= ps_ReplicaSelector) as [rs|]; [|done]. destruct (has_key_path rs); congruence. }
  assert (Hnone : ∀ d fuel, own_selector d = None →
    replica_selector (NewComponentFactory k) (S fuel) (component_of d) =
    match cd_OwnerRef d with
    | None => Some (Ok None)
    | Some owner => match GetComponent (NewComponentFactory k) owner with
                    | Fail err => Some (Fail err)
                    | Ok c => replica_selector (NewComponentFactory k) fuel c
                    end
    end).
  { unfold own_selector. intros d fuel E. cbn [replica_selector]. unfold GetPodSelector, component_of at 1. cbn [comp_definition].
    destruct (cd_PodSelector d ≫= ps_ReplicaSelector) as [rs|]; [|done]. by destruct (has_key_path rs). }
  assert (Hroot : RootComponent k ∈ components k) by (unfold components; set_solver).
  induction 1 as [|c p l Hc Hp Hl IH]; intros d fuel Hd Hn Hfuel; (destruct fuel as [|fuel]; [cbn in Hfuel; lia|]).
  - assert (d = RootComponent k) as -> by by apply (component_by_name k Hwf).
    destruct (own_selector (RootComponent k)) as [selector|] eqn:Eo.
    + exists (Some selector). split; [by apply Hown|]. exists [], (RootComponent k), []. split_and!; [done..|].
      intros d' _ ?%elem_of_nil. done.
    + exists None. rewrite Hnone, (wf_no_owner _ (wf_of_root _ Hwf)) by done. split; [done|].
      intros d' Hd' Hin%list_elem_of_singleton. by rewrite (component_by_name k Hwf d' (RootComponent k)).
  - assert (Hcc : c ∈ components k) by (unfold components; set_solver).
    assert (d = c) as -> by by apply (component_by_name k Hwf).
    destruct (own_selector c) as [selector|] eqn:Eo.
    + exists (Some selector). split; [by apply Hown|]. exists [], c, l. split_and!; [done..|].
      intros d' _ ?%elem_of_nil. done.
    + rewrite Hnone, Hp by done.
      assert (Hin : p ∈ component_names k).
      { apply owner_path_head in Hl as Hh. destruct Hh as [l' ->]. eapply owner_path_names; [exact Hl|by left]. }
      apply list_elem_of_fmap in Hin as (dp & -> & Hdp). rewrite (GetComponent_of k Hnd dp Hdp).
      destruct (IH dp fuel Hdp eq_refl) as (selector & E & Hnear); [cbn in Hfuel; lia|].
      exists selector. split; [done|]. destruct selector as [selector|]; cbn in Hnear |- *.
      * destruct Hnear as (l1 & d' & l2 & -> & Hd' & Hs & Hbefore).
        exists (cd_Name c :: l1), d', l2. split_and!; [done..|].
        intros d0 Hd0 [Heq|Hin]%elem_of_cons; [by rewrite (component_by_name k Hwf d0 c)|by apply Hbefore].
      * intros d0 Hd0 [Heq|Hin]%elem_of_cons; [by rewrite (component_by_name k Hwf d0 c)|by apply Hnear].
Qed.
End owners.

Lemma factory_size k : NoDup (component_names k) →
  length (components k) ≤ size (fac_componentDefinitionsByName (NewComponentFactory k)).
Proof.
  intros Hnd. assert (Hsub : list_to_set (component_names k) ⊆ dom (fac_componentDefinitionsByName (NewComponentFactory k))).
  { intros n (d & -> & Hd)%elem_of_list_to_set%list_elem_of_fmap. apply elem_of_dom.
    destruct (factory_tables k) as (_ & -> & _). eexists. by apply add_definitions_lookup. }
  apply subseteq_size in Hsub. rewrite size_list_to_set, size_dom in Hsub by done.
  unfold component_names in Hsub. by rewrite length_fmap in Hsub.
Qed.

(** For a Karta that validation accepts the loop that looks for a replica
    selector ends, from whichever component a pod was inferred to be: it climbs
    from owner to owner and stops at the nearest component, the pod's own
    included, that declares a selector with a key path, or at the root without
    one; it never meets an owner the factory does not know. *)
Theorem replica_selector_ends k d :
  wf_structure k → d ∈ components k →
  ∃ path selector, owner_path k (cd_Name d) path ∧
    replica_selector (NewComponentFactory k) (selectorFuel (NewComponentFactory k)) (component_of d) =
      Some (Ok selector) ∧
    nearest_selector k path selector.
Proof.
  intros Hwf Hd.
  assert (Hr : rooted k (cd_Name d)).
  { unfold components in Hd. apply elem_of_app in Hd as [Hd|Hd%list_elem_of_singleton].
    - by apply (wf_rooted _ Hwf).
    - subst d. constructor. }
  apply rooted_path in Hr as [path Hpath]. exists path.
  destruct (replica_selector_path k Hwf _ _ Hpath d (selectorFuel (NewComponentFactory k)) Hd eq_refl)
    as (selector & ? & ?); [|by exists selector].
  pose proof (owner_path_length k Hwf _ _ Hpath). pose proof (factory_size k (wf_unique _ Hwf)) as Hs.
  unfold components in Hs. rewrite length_app in Hs. cbn in Hs. unfold selectorFuel. lia.
Qed.

Lemma replica_selector_ends_witness :
  RootComponent sample_karta ∈ components sample_karta ∧
  ∃ path selector, owner_path sample_karta (cd_Name (RootComponent sample_karta)) path ∧
    nearest_selector sample_karta path selector.
Proof.
  assert (Hin : RootComponent sample_karta ∈ components sample_karta) by (unfold components; set_solver).
  split; [exact Hin|].
  destruct (replica_selector_ends sample_karta (RootComponent sample_karta) sample_wf Hin)
    as (path & selector & Hp & _ & Hn).
  exists path, selector. split; [exact Hp|exact Hn].
Defined.
