(* ===== verification/ExporterConfig.v ===== *)
(** * ExporterConfig: the configuration of the exporter

    Models [dsx-workload-exporter/pkg/config/config.go] and [gvk_json.go]: the
    file read over the defaults, the environment over the file, the flags over
    both, and the check of the result.  A file goes through YAML, a library, into
    dynamic values, from there through JSON into the record; that last step is
    the strict decoder of [encoding/json], written out for the fields declared.
    Rounding to [float32] and the reading of durations are parameters. *)

From S2P Require Import Prelude Text Api Value Sort Literal Discovery LabelResolver Inventory ControllerState ControllerReconcile.
From Stdlib Require Import Ascii.

(** ** Numbers from text *)

(** A [float32]: not a number, infinite, or [m * 2^e]. *)
Inductive float32 := F32NaN | F32Inf (negative : bool) | F32 (m e : Z).

Definition float32_le_zero (f : float32) : bool :=
  match f with F32NaN => false | F32Inf negative => negative | F32 m _ => (m <=? 0)%Z end.

Definition IsNaN (f : float32) : bool := match f with F32NaN => true | _ => false end.
Definition IsInf (f : float32) : bool := match f with F32Inf _ => true | _ => false end.

Class Numbers := {
  (** [strconv.ParseFloat(v, 32)] and the same rounding of a JSON number. *)
  ParseFloat32 : string → result float32;
  float32_of_number : number → result float32;
  (** [time.ParseDuration], in nanoseconds. *)
  ParseDuration : string → result Z;
}.

Definition num_error (fn : string) (s reason : string) : error :=
  Errorf "strconv.%s: parsing %q: %w" [AStr fn; AStr s] [Sentinel reason].
Definition ErrSyntax : string := "invalid syntax".
Definition ErrRange : string := "value out of range".

Definition in_int64 (z : Z) : bool := (- 2 ^ 63 <=? z)%Z && (z <? 2 ^ 63)%Z.
Definition in_uint64 (z : Z) : bool := (0 <=? z)%Z && (z <? 2 ^ 64)%Z.

(** [strconv.Atoi] where an [int] has 64 bits. *)
Definition Atoi (s : string) : result Z :=
  match (match s with
         | String "+" s' => parse_unsigned s'
         | String "-" s' => Z.opp <$> parse_unsigned s'
         | _ => parse_unsigned s
         end) with
  | None => Fail (num_error "Atoi" s ErrSyntax)
  | Some z => if in_int64 z then Ok z else Fail (num_error "Atoi" s ErrRange)
  end.

(** [strconv.ParseUint(s, 10, 64)] *)
Definition ParseUint64 (s : string) : result Z :=
  match parse_unsigned s with
  | None => Fail (num_error "ParseUint" s ErrSyntax)
  | Some z => if in_uint64 z then Ok z else Fail (num_error "ParseUint" s ErrRange)
  end.

(** ** The strict JSON decoder *)

(** Decoding into a variable that already holds a value. *)
Definition decoder (A : Type) : Type := json → A → result A.

Definition decode_string : decoder string := λ j s,
  match j with JString s' => Ok s' | JNull => Ok s | _ => Fail (json_type_error "string") end.

Definition decode_bool : decoder bool := λ j b,
  match j with JBool b' => Ok b' | JNull => Ok b | _ => Fail (json_type_error "bool") end.

Definition decode_integer (fits : Z → bool) (type : string) : decoder Z := λ j z,
  match j with
  | JNumber n => match Z_of_number n with
                 | Some z' => if fits z' then Ok z' else Fail (json_type_error type)
                 | None => Fail (json_type_error type)
                 end
  | JNull => Ok z
  | _ => Fail (json_type_error type)
  end.

Definition decode_int : decoder Z := decode_integer in_int64 "int".
Definition decode_uint64 : decoder Z := decode_integer in_uint64 "uint64".

Definition decode_float32 `{Numbers} : decoder float32 := λ j f,
  match j with JNumber n => float32_of_number n | JNull => Ok f | _ => Fail (json_type_error "float32") end.

(** A slice is emptied first, then every element decoded into a zero value. *)
Definition decode_list {A} (zero : A) (decode : decoder A) : decoder (list A) := λ j _,
  match j with
  | JArray l => mapR (λ j, decode j zero) l
  | JNull => Ok []
  | _ => Fail (json_type_error "slice")
  end.

(** The field of a struct under its name in the document. *)
Record field (S : Type) := Field { f_name : string; f_decode : decoder S }.
Arguments Field {S}.
Arguments f_name {S}.
Arguments f_decode {S}.

Definition fld {S A} (name : string) (get : S → A) `{!Settable get} (decode : decoder A) : field S :=
  Field name (λ j s, (λ a, assign get a s) <$> decode j (get s)).

(** The letters of a key without their case; the Kelvin sign folds to [k] and
    the long s to [s]. *)
Fixpoint fold_name (s : string) : string :=
  match s with
  | EmptyString => EmptyString
  | String "226" (String "132" (String "170" s')) => String "k" (fold_name s')
  | String "197" (String "191" s') => String "s" (fold_name s')
  | String c s' =>
      let n := nat_of_ascii c in
      String (if (65 <=? n) && (n <=? 90) then ascii_of_nat (n + 32) else c) (fold_name s')
  end.

(** The field a key goes to: of the same name, else of the same letters. *)
Definition find_field {S} (fields : list (field S)) (key : string) : option (field S) :=
  match list_find (λ f, f_name f = key) fields with
  | Some (_, f) => Some f
  | None => snd <$> list_find (λ f, fold_name (f_name f) = fold_name key) fields
  end.

Fixpoint decode_members {S} (fields : list (field S)) (members : list (string * json)) (s : S) : result S :=
  match members with
  | [] => Ok s
  | (key, j) :: members =>
      match find_field fields key with
      | None => Fail (Errorf "json: unknown field %q" [AStr key] [])
      | Some f => s ← f_decode f j s; decode_members fields members s
      end
  end.

(** The members of an object in the order [json.Marshal] writes a map. *)
Definition members_of (m : gmap string json) : list (string * json) :=
  omap (λ key, (λ j, (key, j)) <$> m !! key) (sort_Strings (map_to_list m).*1).

Definition decode_struct {S} (fields : list (field S)) : decoder S := λ j s,
  match j with
  | JObject m => decode_members fields (members_of m) s
  | JNull => Ok s
  | _ => Fail (json_type_error "struct")
  end.

(** ** Kinds in the text of a configuration *)

Section kinds.
Context `{KubernetesErrors}.
(** [GroupVersion.String] *)
Context (gv_String : string → string → string).

(** [" \t\r\n*"] *)
Definition inexact : chars := [" "; "009"; "013"; "010"; "*"]%char.

Definition Kinds := list GroupVersionKind.

Definition invalid_kind (fmt : string) (value : chars) : error := Errorf fmt [AStr (string_of value)] [].

(** One turn of the loop: the value trimmed, split and read. *)
Definition parse_kind (value : string) : result GroupVersionKind :=
  let value := trim_space (chars_of value) in
  match cut_last "/" value with
  | None => Fail (invalid_kind "invalid kind %q: expected group/version/Kind or version/Kind" value)
  | Some (front, kind) =>
      match ParseGroupVersion (string_of front) with
      | Fail _ => Fail (invalid_kind "invalid kind %q: expected group/version/Kind or version/Kind" value)
      | Ok (group, version) =>
          if bool_decide (version = "") || bool_decide (kind = []) ||
             bool_decide (head value = Some "/"%char) || existsb (λ c, bool_decide (c ∈ inexact)) value
          then Fail (invalid_kind "invalid kind %q: every segment must be nonempty and exact" value)
          else Ok (GVK group version (string_of kind))
      end
  end.

Fixpoint parse_kinds (values : list string) (parsed : Kinds) (seen : gset GroupVersionKind) : result Kinds :=
  match values with
  | [] => Ok parsed
  | value :: values =>
      gvk ← parse_kind value;
      if bool_decide (gvk ∈ seen) then parse_kinds values parsed seen
      else parse_kinds values (parsed ++ [gvk]) ({[gvk]} ∪ seen)
  end.

Definition UnmarshalJSON (data : json) : result Kinds :=
  values ← map_error (λ err, Errorf "kinds must be group/version/Kind or version/Kind strings: %w" [] [err])
             (decode_list "" decode_string data []);
  parse_kinds values [] ∅.

Definition kind_text (gvk : GroupVersionKind) : string :=
  gv_String (gvk_Group gvk) (gvk_Version gvk) +:+ "/" +:+ gvk_Kind gvk.

Definition MarshalJSON (k : Kinds) : json := JArray (JString ∘ kind_text <$> k).
End kinds.

(** ** The configuration *)

Record DefinitionSourceConfig := MkDefinitionSource {
  ds_Enabled : bool;
  ds_Include : list string;
  ds_Exclude : list string;
}.

Record KartaDefinitionSourceConfig := MkKartaDefinitionSource {
  kd_Catalog : DefinitionSourceConfig;
  kd_Cluster : DefinitionSourceConfig;
}.

(** The embedded configuration of the label resolver is kept by its two fields. *)
Record Config `{Kubernetes} := MkConfig {
  ec_Rules : list LabelRule;
  ec_Limits : Limits;
  ec_ResourceRules : list ResourceRule;
  ec_ExcludeResourceRules : list ResourceRule;
  ec_NamespaceSelector : option LabelSelector;
  ec_ObjectSelector : option LabelSelector;
  ec_PodSelector : option LabelSelector;
  ec_KartaDefinitionSource : KartaDefinitionSourceConfig;
  ec_IgnoredOwnerKinds : Kinds;
  ec_RequiredKinds : Kinds;
  ec_RequestTimeout : string;
  ec_APIQPS : float32;
  ec_APIBurst : Z;
  ec_Workers : Z;
  ec_LeafWorkers : Z;
  ec_RootWorkers : Z;
}.

Section setters.
Context `{Kubernetes}.
#[export] Instance set_Rules : Settable ec_Rules :=
  λ v '(MkConfig _ _ b c d e f g h i j k l m n o p), MkConfig _ v b c d e f g h i j k l m n o p.
#[export] Instance set_Limits : Settable ec_Limits :=
  λ v '(MkConfig _ a _ c d e f g h i j k l m n o p), MkConfig _ a v c d e f g h i j k l m n o p.
#[export] Instance set_ResourceRules : Settable ec_ResourceRules :=
  λ v '(MkConfig _ a b _ d e f g h i j k l m n o p), MkConfig _ a b v d e f g h i j k l m n o p.
#[export] Instance set_ExcludeResourceRules : Settable ec_ExcludeResourceRules :=
  λ v '(MkConfig _ a b c _ e f g h i j k l m n o p), MkConfig _ a b c v e f g h i j k l m n o p.
#[export] Instance set_NamespaceSelector : Settable ec_NamespaceSelector :=
  λ v '(MkConfig _ a b c d _ f g h i j k l m n o p), MkConfig _ a b c d v f g h i j k l m n o p.
#[export] Instance set_ObjectSelector : Settable ec_ObjectSelector :=
  λ v '(MkConfig _ a b c d e _ g h i j k l m n o p), MkConfig _ a b c d e v g h i j k l m n o p.
#[export] Instance set_PodSelector : Settable ec_PodSelector :=
  λ v '(MkConfig _ a b c d e f _ h i j k l m n o p), MkConfig _ a b c d e f v h i j k l m n o p.
#[export] Instance set_KartaDefinitionSource : Settable ec_KartaDefinitionSource :=
  λ v '(MkConfig _ a b c d e f g _ i j k l m n o p), MkConfig _ a b c d e f g v i j k l m n o p.
#[export] Instance set_IgnoredOwnerKinds : Settable ec_IgnoredOwnerKinds :=
  λ v '(MkConfig _ a b c d e f g h _ j k l m n o p), MkConfig _ a b c d e f g h v j k l m n o p.
#[export] Instance set_RequiredKinds : Settable ec_RequiredKinds :=
  λ v '(MkConfig _ a b c d e f g h i _ k l m n o p), MkConfig _ a b c d e f g h i v k l m n o p.
#[export] Instance set_RequestTimeout : Settable ec_RequestTimeout :=
  λ v '(MkConfig _ a b c d e f g h i j _ l m n o p), MkConfig _ a b c d e f g h i j v l m n o p.
#[export] Instance set_APIQPS : Settable ec_APIQPS :=
  λ v '(MkConfig _ a b c d e f g h i j k _ m n o p), MkConfig _ a b c d e f g h i j k v m n o p.
#[export] Instance set_APIBurst : Settable ec_APIBurst :=
  λ v '(MkConfig _ a b c d e f g h i j k l _ n o p), MkConfig _ a b c d e f g h i j k l v n o p.
#[export] Instance set_Workers : Settable ec_Workers :=
  λ v '(MkConfig _ a b c d e f g h i j k l m _ o p), MkConfig _ a b c d e f g h i j k l m v o p.
#[export] Instance set_LeafWorkers : Settable ec_LeafWorkers :=
  λ v '(MkConfig _ a b c d e f g h i j k l m n _ p), MkConfig _ a b c d e f g h i j k l m n v p.
#[export] Instance set_RootWorkers : Settable ec_RootWorkers :=
  λ v '(MkConfig _ a b c d e f g h i j k l m n o _), MkConfig _ a b c d e f g h i j k l m n o v.
End setters.

#[export] Instance set_CostLimit : Settable CostLimit :=
  λ v '(MkLimits _ b c), MkLimits v b c.
#[export] Instance set_MaxExpressionBytes : Settable MaxExpressionBytes :=
  λ v '(MkLimits a _ c), MkLimits a v c.
#[export] Instance set_MaxResultBytes : Settable MaxResultBytes :=
  λ v '(MkLimits a b _), MkLimits a b v.
#[export] Instance set_lr_Name : Settable lr_Name := λ v '(MkLabelRule _ b c d), MkLabelRule v b c d.
#[export] Instance set_lr_Metrics : Settable lr_Metrics := λ v '(MkLabelRule a _ c d), MkLabelRule a v c d.
#[export] Instance set_lr_Sources : Settable lr_Sources := λ v '(MkLabelRule a b _ d), MkLabelRule a b v d.
#[export] Instance set_lr_Expression : Settable lr_Expression := λ v '(MkLabelRule a b c _), MkLabelRule a b c v.
#[export] Instance set_rule_APIGroups : Settable rule_APIGroups := λ v '(MkResourceRule _ b c), MkResourceRule v b c.
#[export] Instance set_rule_APIVersions : Settable rule_APIVersions := λ v '(MkResourceRule a _ c), MkResourceRule a v c.
#[export] Instance set_rule_Resources : Settable rule_Resources := λ v '(MkResourceRule a b _), MkResourceRule a b v.
#[export] Instance set_ds_Enabled : Settable ds_Enabled := λ v '(MkDefinitionSource _ b c), MkDefinitionSource v b c.
#[export] Instance set_ds_Include : Settable ds_Include := λ v '(MkDefinitionSource a _ c), MkDefinitionSource a v c.
#[export] Instance set_ds_Exclude : Settable ds_Exclude := λ v '(MkDefinitionSource a b _), MkDefinitionSource a b v.
#[export] Instance set_kd_Catalog : Settable kd_Catalog := λ v '(MkKartaDefinitionSource _ b), MkKartaDefinitionSource v b.
#[export] Instance set_kd_Cluster : Settable kd_Cluster := λ v '(MkKartaDefinitionSource a _), MkKartaDefinitionSource a v.

(** ** The fields of a document *)

Section document.
Context `{KubernetesErrors} `{Kubernetes} `{Numbers}.
(** Decoding a [metav1.LabelSelector], with its own field names. *)
Context (decode_LabelSelector : decoder (option LabelSelector)).

Definition strings : decoder (list string) := decode_list "" decode_string.

Definition Limits_fields : list (field Limits) :=
  [fld "costLimit" CostLimit decode_uint64;
   fld "maxExpressionBytes" MaxExpressionBytes decode_int;
   fld "maxResultBytes" MaxResultBytes decode_int].

Definition LabelRule_fields : list (field LabelRule) :=
  [fld "name" lr_Name decode_string; fld "metrics" lr_Metrics strings;
   fld "sources" lr_Sources strings; fld "expression" lr_Expression decode_string].

Definition ResourceRule_fields : list (field ResourceRule) :=
  [fld "apiGroups" rule_APIGroups strings; fld "apiVersions" rule_APIVersions strings;
   fld "resources" rule_Resources strings].

Definition DefinitionSource_fields : list (field DefinitionSourceConfig) :=
  [fld "enabled" ds_Enabled decode_bool; fld "include" ds_Include strings; fld "exclude" ds_Exclude strings].

Definition KartaDefinitionSource_fields : list (field KartaDefinitionSourceConfig) :=
  [fld "catalog" kd_Catalog (decode_struct DefinitionSource_fields);
   fld "cluster" kd_Cluster (decode_struct DefinitionSource_fields)].

Definition resource_rules : decoder (list ResourceRule) :=
  decode_list (MkResourceRule [] [] []) (decode_struct ResourceRule_fields).

Definition decode_kinds : decoder Kinds := λ j _, UnmarshalJSON j.

Definition Config_fields : list (field Config) :=
  [fld "labelRules" ec_Rules (decode_list (MkLabelRule "" [] [] "") (decode_struct LabelRule_fields));
   fld "genericLabelEvaluationLimits" ec_Limits (decode_struct Limits_fields);
   fld "resourceRules" ec_ResourceRules resource_rules;
   fld "excludeResourceRules" ec_ExcludeResourceRules resource_rules;
   fld "namespaceSelector" ec_NamespaceSelector decode_LabelSelector;
   fld "objectSelector" ec_ObjectSelector decode_LabelSelector;
   fld "podSelector" ec_PodSelector decode_LabelSelector;
   fld "kartaDefinitionSource" ec_KartaDefinitionSource (decode_struct KartaDefinitionSource_fields);
   fld "ignoredOwnerKinds" ec_IgnoredOwnerKinds decode_kinds;
   fld "requiredKinds" ec_RequiredKinds decode_kinds;
   fld "requestTimeout" ec_RequestTimeout decode_string;
   fld "apiQPS" ec_APIQPS decode_float32;
   fld "apiBurst" ec_APIBurst decode_int;
   fld "workers" ec_Workers decode_int;
   fld "leafWorkers" ec_LeafWorkers decode_int;
   fld "rootWorkers" ec_RootWorkers decode_int].

(** ** Settings with a flag and an environment variable *)

Record setting := MkSetting {
  st_flag : string;
  st_env : string;
  st_apply : Config → string → result Config;
}.

Definition flagConfig : string := "config".
Definition flagCostLimit : string := "generic-label-eval-cost-limit".
Definition flagMaxExpressionBytes : string := "generic-label-eval-max-expression-bytes".
Definition flagMaxResultBytes : string := "generic-label-eval-max-result-bytes".

Definition errMultipleDocuments : string := "must contain a single YAML document".

Definition defaultLabelEvaluationLimits : Limits :=
  MkLimits DefaultCostLimit DefaultMaxExpressionBytes DefaultMaxResultBytes.

(** Its [apply] is nil and never called. *)
Definition configSetting : setting :=
  MkSetting flagConfig "DSX_WORKLOAD_EXPORTER_CONFIG" (λ c _, Ok c).

Definition apply_limit (get : Limits → Z) `{!Settable get} (parse : string → result Z) (c : Config) (v : string)
    : result Config :=
  (λ z, assign ec_Limits (assign get z (ec_Limits c)) c) <$> parse v.

Definition settings : list setting :=
  [MkSetting flagCostLimit "DSX_WORKLOAD_EXPORTER_GENERIC_LABEL_EVAL_COST_LIMIT"
     (apply_limit CostLimit ParseUint64);
   MkSetting flagMaxExpressionBytes "DSX_WORKLOAD_EXPORTER_GENERIC_LABEL_EVAL_MAX_EXPRESSION_BYTES"
     (apply_limit MaxExpressionBytes Atoi);
   MkSetting flagMaxResultBytes "DSX_WORKLOAD_EXPORTER_GENERIC_LABEL_EVAL_MAX_RESULT_BYTES"
     (apply_limit MaxResultBytes Atoi);
   MkSetting "api-qps" "DSX_WORKLOAD_EXPORTER_API_QPS" (λ c v, (λ n, assign ec_APIQPS n c) <$> ParseFloat32 v);
   MkSetting "api-burst" "DSX_WORKLOAD_EXPORTER_API_BURST" (λ c v, (λ n, assign ec_APIBurst n c) <$> Atoi v);
   MkSetting "workers" "DSX_WORKLOAD_EXPORTER_WORKERS" (λ c v, (λ n, assign ec_Workers n c) <$> Atoi v);
   MkSetting "leaf-workers" "DSX_WORKLOAD_EXPORTER_LEAF_WORKERS"
     (λ c v, (λ n, assign ec_LeafWorkers n c) <$> Atoi v);
   MkSetting "root-workers" "DSX_WORKLOAD_EXPORTER_ROOT_WORKERS"
     (λ c v, (λ n, assign ec_RootWorkers n c) <$> Atoi v);
   MkSetting "request-timeout" "DSX_WORKLOAD_EXPORTER_REQUEST_TIMEOUT"
     (λ c v, Ok (assign ec_RequestTimeout v c))].

(** [actual] holds the flags given on the command line. *)
Record Loader := MkLoader { ld_actual : gmap string string; ld_lookupEnv : string → option string }.

(** [fs.String] for each setting; a name registered twice panics. *)
Fixpoint register (names : list string) (formal : gset string) : result (gset string) :=
  match names with
  | [] => Ok formal
  | name :: names =>
      if bool_decide (name ∈ formal) then Fail (Errorf "panic: flag redefined: %s" [AStr name] [])
      else register names ({[name]} ∪ formal)
  end.

(** The flags of [fs] afterwards. *)
Definition NewLoader (formal : gset string) : result (gset string) :=
  register (st_flag <$> configSetting :: settings) formal.

Definition value (l : Loader) (s : setting) : option string :=
  match ld_actual l !! st_flag s with
  | Some v => Some v
  | None => ld_lookupEnv l (st_env s)
  end.

Definition DefaultConfig : Config :=
  MkConfig _ [] defaultLabelEvaluationLimits [] [] None None None
    (MkKartaDefinitionSource (MkDefinitionSource true [] []) (MkDefinitionSource true [] []))
    [] [] "30s" (F32 20 0) 40 4 0 0.

(** ** Validation *)

Context (gvk_String : GroupVersionKind → string).

Fixpoint check_kinds (kinds : Kinds) (seen : gset GroupVersionKind) : result () :=
  match kinds with
  | [] => Ok ()
  | kind :: kinds =>
      if bool_decide (gvk_Kind kind = "") || bool_decide (gvk_Version kind = "") || bool_decide (kind ∈ seen)
      then Fail (Errorf "invalid or repeated kind %s" [AStr (gvk_String kind)] [])
      else check_kinds kinds ({[kind]} ∪ seen)
  end.

Definition check_selector (s : option LabelSelector) : result () :=
  match s with None => Ok () | Some s => _ ← LabelSelectorAsSelector s; Ok () end.

Definition positive_duration (s : string) : bool :=
  match ParseDuration s with Ok timeout => (0 <? timeout)%Z | Fail _ => false end.

Definition Validate (cfg : Config) : result () :=
  if (MaxExpressionBytes (ec_Limits cfg) <? 0)%Z || (MaxResultBytes (ec_Limits cfg) <? 0)%Z
  then Fail (Sentinel ErrNegativeLimit)
  else
    _ ← ValidateConfig (LabelResolver.MkConfig (ec_Rules cfg) (ec_Limits cfg));
    _ ← mapR check_selector [ec_NamespaceSelector cfg; ec_ObjectSelector cfg; ec_PodSelector cfg];
    _ ← ValidateResourceRules (ec_ResourceRules cfg ++ ec_ExcludeResourceRules cfg);
    _ ← mapR (λ kinds, check_kinds kinds ∅) [ec_IgnoredOwnerKinds cfg; ec_RequiredKinds cfg];
    if negb (positive_duration (ec_RequestTimeout cfg)) then Fail (External "requestTimeout must be a positive duration")
    else if float32_le_zero (ec_APIQPS cfg) || IsNaN (ec_APIQPS cfg) || IsInf (ec_APIQPS cfg)
    then Fail (External "apiQPS must be finite and positive")
    else if (ec_APIBurst cfg <=? 0)%Z then Fail (External "apiBurst must be positive")
    else if (ec_Workers cfg <=? 0)%Z then Fail (External "workers must be positive")
    else if (ec_LeafWorkers cfg <? 0)%Z || (ec_RootWorkers cfg <? 0)%Z
    then Fail (External "leafWorkers and rootWorkers must not be negative")
    else Ok ().

Definition convert (s : DefinitionSourceConfig) : SourceConfig :=
  MkSourceConfig (ds_Enabled s) (ds_Include s) (ds_Exclude s).

Definition InventoryConfig (c : KartaDefinitionSourceConfig) : Inventory.Config :=
  Inventory.MkConfig (convert (kd_Catalog c)) (convert (kd_Cluster c)) 0.

(** ** Loading *)

(** Files, and YAML documents: a decoder yields them one by one, then the end. *)
Context {Data Node : Type} (ReadFile : string → result Data).
Context (documents : Data → list (result Node)) (Decode : Node → result Value.value).

(** Every further document must be empty. *)
Fixpoint no_more_documents (docs : list (result Node)) : bool :=
  match docs with
  | [] => true
  | Fail _ :: _ => false
  | Ok node :: docs => match Decode node with Ok VNil => no_more_documents docs | _ => false end
  end.

Definition file_error (path : string) (err : error) : error := Errorf "config file %s: %w" [AStr path] [err].

Definition decode_file (path : string) (cfg : Config) : result Config :=
  data ← map_error (file_error path) (ReadFile path);
  match documents data with
  | [] => Ok cfg
  | document :: extra =>
      node ← map_error (file_error path) document;
      value ← map_error (file_error path) (Decode node);
      jsonData ← map_error (file_error path) (json_Marshal value);
      cfg ← map_error (file_error path) (decode_struct Config_fields jsonData cfg);
      if no_more_documents extra then Ok cfg
      else Fail (file_error path (Sentinel errMultipleDocuments))
  end.

Definition load_file (l : Loader) : result Config :=
  let path := default "" (value l configSetting) in
  if bool_decide (path ≠ "") then decode_file path DefaultConfig else Ok DefaultConfig.

Definition apply_setting (l : Loader) (s : setting) (cfg : Config) : result Config :=
  match value l s with
  | Some v => map_error (λ err, Errorf "--%s (%s): %w" [AStr (st_flag s); AStr (st_env s)] [err]) (st_apply s cfg v)
  | None => Ok cfg
  end.

Fixpoint apply_settings (l : Loader) (settings : list setting) (cfg : Config) : result Config :=
  match settings with
  | [] => Ok cfg
  | s :: settings => cfg ← apply_setting l s cfg; apply_settings l settings cfg
  end.

Definition Load (l : Loader) : result Config :=
  cfg ← load_file l;
  cfg ← apply_settings l settings cfg;
  _ ← Validate cfg;
  Ok cfg.
End document.

(** ** Reading back the kinds written *)

Section kinds_roundtrip.
Context `{KubernetesErrors} (gv_String : string → string → string).

(** [ParseGroupVersion] reads what [GroupVersion.String] writes. *)
Definition writes_what_is_read : Prop := ∀ p g v,
  ParseGroupVersion p = Ok (g, v) → v ≠ "" → String.get 0 p ≠ Some "/"%char → gv_String g v = p.

(** What the loop accepts as the text of a kind. *)
Lemma parse_kind_Ok value gvk :
  parse_kind value = Ok gvk ↔
  ∃ front kind, trim_space (String.list_ascii_of_string value) = front ++ "/"%char :: kind ∧
    ("/"%char ∉ kind) ∧ kind ≠ [] ∧ head front ≠ Some "/"%char ∧ front ≠ [] ∧
    Forall (λ c, c ∉ inexact) (front ++ "/"%char :: kind) ∧
    ParseGroupVersion (String.string_of_list_ascii front) = Ok (gvk_Group gvk, gvk_Version gvk) ∧
    gvk_Version gvk ≠ "" ∧ gvk_Kind gvk = String.string_of_list_ascii kind.
Proof.
  unfold parse_kind. set (s := trim_space _).
  destruct (cut_last "/" s) as [[front kind]|] eqn:Es.
  - apply cut_last_Some in Es as [Es Hk]. rewrite Es.
    assert (Hex : existsb (λ c, bool_decide (c ∈ inexact)) (front ++ "/"%char :: kind) = false ↔
                  Forall (λ c, c ∉ inexact) (front ++ "/"%char :: kind)).
    { generalize (front ++ "/"%char :: kind) as l. induction l as [|c l IH]; cbn; [done|].
      rewrite orb_false_iff, Forall_cons, IH, bool_decide_eq_false. done. }
    assert (Hhead : head (front ++ "/"%char :: kind) ≠ Some "/"%char ↔
                    head front ≠ Some "/"%char ∧ front ≠ []) by (destruct front; naive_solver).
    transitivity (∃ g v, ParseGroupVersion (String.string_of_list_ascii front) = Ok (g, v) ∧ v ≠ "" ∧
      kind ≠ [] ∧ head (front ++ "/"%char :: kind) ≠ Some "/"%char ∧
      Forall (λ c, c ∉ inexact) (front ++ "/"%char :: kind) ∧ gvk = GVK g v (String.string_of_list_ascii kind)).
    + destruct (ParseGroupVersion _) as [[g v]|]; [|split; [done|by intros (? & ? & ? & _)]].
      split.
      * destruct (_ || _) eqn:E; [done|]. intros [= <-]. exists g, v.
        apply orb_false_iff in E as [[[?%bool_decide_eq_false ?%bool_decide_eq_false]%orb_false_iff
          ?%bool_decide_eq_false]%orb_false_iff ?%Hex]. done.
      * intros (g' & v' & [= <- <-] & ? & ? & ? & Hc%Hex & ->). by rewrite Hc, !bool_decide_eq_false_2.
    + split.
      * intros (g & v & Hp & Hv & Hkn & [Hh Hf]%Hhead & Hc & ->). by exists front, kind.
      * intros (front' & kind' & E & Hk' & Hkn & Hh & Hf & Hc & Hp & Hv & Ekind).
        assert (Some (front, kind) = Some (front', kind')) as [= <- <-].
        { rewrite <- (proj2 (cut_last_Some _ _ front kind) (conj eq_refl Hk)).
          rewrite E. by apply cut_last_Some. }
        exists (gvk_Group gvk), (gvk_Version gvk). rewrite Hhead. rewrite <- Ekind. by destruct gvk.
  - apply cut_last_None in Es. split; [done|]. intros (front & kind & E & _). exfalso. apply Es.
    rewrite E. apply elem_of_app. right. by left.
Qed.

Lemma chars_app s1 s2 :
  String.list_ascii_of_string (s1 +:+ s2) = String.list_ascii_of_string s1 ++ String.list_ascii_of_string s2.
Proof. induction s1 as [|c s1 IH]; [done|]. 
  change (c :: String.list_ascii_of_string (s1 +:+ s2) =
          c :: (String.list_ascii_of_string s1 ++ String.list_ascii_of_string s2)). by rewrite IH.
Qed.

Lemma get_head l : String.get 0 (String.string_of_list_ascii l) = head l.
Proof. by destruct l. Qed.

(** A kind read is read again from its text. *)
Lemma parse_kind_text value gvk :
  writes_what_is_read → parse_kind value = Ok gvk → parse_kind (kind_text gv_String gvk) = Ok gvk.
Proof.
  intros Hlaw (front & kind & E & Hk & Hkn & Hh & Hf & Hc & Hp & Hv & Ekind)%parse_kind_Ok.
  apply parse_kind_Ok. exists front, kind. split_and!; try done.
  unfold kind_text. rewrite (Hlaw _ _ _ Hp Hv) by (by rewrite get_head).
  rewrite !chars_app, Ekind, !String.list_ascii_of_string_of_list_ascii. cbn. rewrite <- E. apply trim_space_idemp.
Qed.

Lemma parse_kinds_spec values parsed (seen : gset GroupVersionKind) ks :
  NoDup parsed → (∀ gvk, gvk ∈ seen ↔ gvk ∈ parsed) → parse_kinds values parsed seen = Ok ks →
  NoDup ks ∧ ∃ gvks, mapR parse_kind values = Ok gvks ∧ ∀ gvk, gvk ∈ ks ↔ gvk ∈ parsed ∨ gvk ∈ gvks.
Proof.
  revert parsed seen. induction values as [|value values IH]; intros parsed seen Hnd Hseen; cbn [parse_kinds mapR].
  { intros [= <-]. split; [done|]. exists []. split; [done|]. set_solver. }
  destruct (parse_kind value) as [gvk|]; cbn; [|done]. case_bool_decide as Hin; intros E.
  - apply IH in E as (Hks & gvks & -> & Hin'); [|done..]. split; [done|]. exists (gvk :: gvks). split; [done|].
    set_solver.
  - apply IH in E as (Hks & gvks & -> & Hin').
    + split; [done|]. exists (gvk :: gvks). split; [done|]. set_solver.
    + apply NoDup_app. split; [done|]. split; [set_solver|]. apply NoDup_singleton.
    + set_solver.
Qed.

Lemma parse_kinds_text ks parsed (seen : gset GroupVersionKind) :
  (∀ gvk, gvk ∈ ks → parse_kind (kind_text gv_String gvk) = Ok gvk) →
  NoDup ks → (∀ gvk, gvk ∈ ks → gvk ∉ seen) →
  parse_kinds (kind_text gv_String <$> ks) parsed seen = Ok (parsed ++ ks).
Proof.
  revert parsed seen. induction ks as [|gvk ks IH]; intros parsed seen Htext Hnd Hseen; cbn [parse_kinds fmap list_fmap].
  { by rewrite app_nil_r. }
  apply NoDup_cons in Hnd as [Hin Hnd]. rewrite Htext by (by left). cbn.
  rewrite bool_decide_eq_false_2 by (apply Hseen; by left).
  rewrite IH; [by rewrite <- (assoc_L (++))| |done|].
  - intros g Hg. apply Htext. by right.
  - intros g Hg. rewrite elem_of_union, elem_of_singleton. intros [->|Hs]; [done|].
    eapply Hseen; [by right|done].
Qed.

Lemma decode_strings values :
  decode_list "" decode_string (JArray (JString <$> values)) [] = Ok values.
Proof. cbn. induction values as [|v values IH]; cbn; [done|]. by rewrite IH. Qed.

Lemma mapR_elem {A B} (f : A → result B) l l' b :
  mapR f l = Ok l' → b ∈ l' → ∃ a, a ∈ l ∧ f a = Ok b.
Proof.
  revert l'. induction l as [|a l IH]; intros l'; cbn; [intros [= <-]; set_solver|].
  destruct (f a) as [b'|] eqn:E; cbn; [|done]. destruct (mapR f l) as [l1|]; cbn; [|done].
  intros [= <-] [->|Hb]%elem_of_cons; [set_solver|]. destruct (IH _ eq_refl Hb) as (a' & ? & ?). set_solver.
Qed.

(** C15: the kinds of a configuration are those its texts name, each once, all with
    a version and a kind; written back, they are read as the same list. *)
Theorem Kinds_roundtrip data ks (Hlaw : writes_what_is_read) :
  UnmarshalJSON data = Ok ks →
  UnmarshalJSON (MarshalJSON gv_String ks) = Ok ks ∧ NoDup ks ∧
  (∀ gvk, gvk ∈ ks → gvk_Version gvk ≠ "" ∧ gvk_Kind gvk ≠ "") ∧
  ∃ values gvks, decode_list "" decode_string data [] = Ok values ∧ mapR parse_kind values = Ok gvks ∧
    ∀ gvk, gvk ∈ ks ↔ gvk ∈ gvks.
Proof.
  unfold UnmarshalJSON at 1. destruct (decode_list _ _ data []) as [values|] eqn:Ev; cbn [map_error mbind result_bind]; [|done].
  intros E. apply parse_kinds_spec in E as (Hnd & gvks & Eg & Hin); [|constructor|set_solver].
  assert (Hread : ∀ gvk, gvk ∈ ks → ∃ value, parse_kind value = Ok gvk).
  { intros gvk Hk. apply Hin in Hk as [?%not_elem_of_nil|Hk]; [done|].
    destruct (mapR_elem _ _ _ _ Eg Hk) as (value & _ & ?). by exists value. }
  split_and!.
  - unfold UnmarshalJSON, MarshalJSON. rewrite list_fmap_compose, decode_strings. cbn [map_error mbind result_bind].
    apply (parse_kinds_text ks []); [|done|set_solver]. intros gvk (value & Hv)%Hread. by eapply parse_kind_text.
  - done.
  - intros gvk (value & Hv)%Hread. apply parse_kind_Ok in Hv as (front & kind & _ & _ & Hkn & _ & _ & _ & _ & ? & ->).
    split; [done|]. by destruct kind.
  - exists values, gvks. split; [done|]. split; [done|]. intros gvk. rewrite Hin. set_solver.
Qed.
End kinds_roundtrip.

(** ** What validation accepts *)

Definition resource_rule_wf (rule : ResourceRule) : Prop :=
  rule_APIGroups rule ≠ [] ∧ rule_APIVersions rule ≠ [] ∧ rule_Resources rule ≠ [] ∧
  Forall (λ name, bad_name name = false) (rule_APIVersions rule) ∧
  Forall (λ name, bad_name name = false) (rule_Resources rule).

Lemma existsb_false {A} (p : A → bool) l : existsb p l = false ↔ Forall (λ a, p a = false) l.
Proof.
  induction l as [|a l IH]; cbn; [by split; [constructor|]|]. by rewrite orb_false_iff, Forall_cons, IH.
Qed.

Lemma validate_resource_rules_Ok i rules :
  validate_resource_rules i rules = Ok () ↔ Forall resource_rule_wf rules.
Proof.
  revert i. induction rules as [|rule rules IH]; intros i; cbn [validate_resource_rules]; [by split; [constructor|]|].
  rewrite Forall_cons, <- (IH (S i)). unfold resource_rule_wf. rewrite <- !existsb_false.
  destruct (_ || _ || _) eqn:E.
  { split; [done|]. intros [(? & ? & ? & _) _]. by rewrite !bool_decide_eq_false_2 in E. }
  apply orb_false_iff in E as [[?%bool_decide_eq_false ?%bool_decide_eq_false]%orb_false_iff ?%bool_decide_eq_false].
  destruct (existsb bad_name (rule_APIVersions rule)); [naive_solver|].
  destruct (existsb bad_name (rule_Resources rule)); naive_solver.
Qed.

Definition kinds_wf (kinds : Kinds) : Prop :=
  NoDup kinds ∧ Forall (λ gvk, gvk_Kind gvk ≠ "" ∧ gvk_Version gvk ≠ "") kinds.

Lemma check_kinds_Ok gvk_String kinds (seen : gset GroupVersionKind) :
  check_kinds gvk_String kinds seen = Ok () ↔ kinds_wf kinds ∧ ∀ gvk, gvk ∈ kinds → gvk ∉ seen.
Proof.
  revert seen. induction kinds as [|kind kinds IH]; intros seen; cbn [check_kinds].
  { split; [|done]. intros _. split; [by split; constructor|]. by intros ? ?%not_elem_of_nil. }
  unfold kinds_wf in *. rewrite NoDup_cons, Forall_cons.
  destruct (_ || _ || _) eqn:E.
  - split; [done|]. intros [[[? ?] [[? ?] ?]] Hs]. rewrite !bool_decide_eq_false_2 in E; try done.
    apply Hs. by left.
  - apply orb_false_iff in E as [[?%bool_decide_eq_false ?%bool_decide_eq_false]%orb_false_iff ?%bool_decide_eq_false].
    rewrite IH. split.
    + intros [[? ?] Hs]. split_and!; try done; [intros Hk; specialize (Hs _ Hk); set_solver|].
      intros gvk [->|Hk]%elem_of_cons; [done|]. specialize (Hs _ Hk). set_solver.
    + intros [[[? ?] [? ?]] Hs]. split_and!; try done. intros gvk Hk. rewrite elem_of_union, elem_of_singleton.
      intros [->|Hg]; [done|]. eapply Hs; [by right|done].
Qed.

Section config_properties.
Context `{!KubernetesErrors} `{!Kubernetes} `{!Numbers}.
Context (decode_LabelSelector : decoder (option LabelSelector)) (gvk_String : GroupVersionKind → string).

Definition selector_wf (s : option LabelSelector) : Prop :=
  match s with None => True | Some s => is_ok (LabelSelectorAsSelector s) = true end.

(** The runtime settings the exporter starts with. *)
Record valid (cfg : Config) : Prop := {
  valid_limits : (0 ≤ MaxExpressionBytes (ec_Limits cfg) ∧ 0 ≤ MaxResultBytes (ec_Limits cfg))%Z;
  valid_labels : Forall rule_wf (ec_Rules cfg);
  valid_selectors : selector_wf (ec_NamespaceSelector cfg) ∧ selector_wf (ec_ObjectSelector cfg) ∧
                    selector_wf (ec_PodSelector cfg);
  valid_resources : Forall resource_rule_wf (ec_ResourceRules cfg ++ ec_ExcludeResourceRules cfg);
  valid_kinds : kinds_wf (ec_IgnoredOwnerKinds cfg) ∧ kinds_wf (ec_RequiredKinds cfg);
  valid_timeout : ∃ timeout, ParseDuration (ec_RequestTimeout cfg) = Ok timeout ∧ (0 < timeout)%Z;
  valid_qps : ∃ m e, ec_APIQPS cfg = F32 m e ∧ (0 < m)%Z;
  valid_burst : (0 < ec_APIBurst cfg)%Z;
  valid_workers : (0 < ec_Workers cfg)%Z;
  valid_pools : (0 ≤ ec_LeafWorkers cfg ∧ 0 ≤ ec_RootWorkers cfg)%Z;
}.

Lemma check_selector_Ok s : check_selector s = Ok () ↔ selector_wf s.
Proof. destruct s as [s|]; cbn; [|done]. by destruct (LabelSelectorAsSelector s). Qed.

Lemma mapR_unit {A} (f : A → result ()) l :
  (∃ us, mapR f l = Ok us) ↔ Forall (λ a, f a = Ok ()) l.
Proof.
  induction l as [|a l IH]; cbn; [split; [constructor|by exists []]|]. rewrite Forall_cons, <- IH.
  destruct (f a) as [[]|]; cbn; [|split; [by intros [? [=]]|by intros [? _]]].
  destruct (mapR f l); cbn; [split; [intros _; eauto|eauto]|]. split; [by intros [? [=]]|by intros [_ [? [=]]]].
Qed.

(** A check followed by others. *)
Lemma then_Ok {A} (m : result A) (k : result ()) : (_ ← m; k) = Ok () ↔ (∃ a, m = Ok a) ∧ k = Ok ().
Proof. destruct m as [a|]; cbn; [|by split; [|intros [[? [=]] _]]]. split; [|by intros [_ ?]]. eauto. Qed.

Lemma check_false (b : bool) err (k : result ()) : (if b then Fail err else k) = Ok () ↔ b = false ∧ k = Ok ().
Proof. destruct b; naive_solver. Qed.

Lemma unit_Ok (m : result ()) : (∃ u, m = Ok u) ↔ m = Ok ().
Proof. split; [by intros [[] ?]|eauto]. Qed.

Lemma Validate_valid cfg : Validate gvk_String cfg = Ok () ↔ valid cfg.
Proof.
  unfold Validate. rewrite check_false, !then_Ok, !check_false, unit_Ok, unit_Ok, !mapR_unit, !Forall_cons.
  unfold ValidateConfig, ValidateResourceRules. cbn [cfg_Rules]. rewrite (validate_rules_Ok 0), validate_resource_rules_Ok.
  rewrite !check_selector_Ok, !check_kinds_Ok, !orb_false_iff, !Z.ltb_ge, !Z.leb_gt, negb_false_iff.
  assert (Ht : positive_duration (ec_RequestTimeout cfg) = true ↔
    ∃ timeout, ParseDuration (ec_RequestTimeout cfg) = Ok timeout ∧ (0 < timeout)%Z).
  { unfold positive_duration. destruct (ParseDuration _) as [t|]; [rewrite Z.ltb_lt|]; naive_solver. }
  assert (Hq : (float32_le_zero (ec_APIQPS cfg) = false ∧ IsNaN (ec_APIQPS cfg) = false) ∧
               IsInf (ec_APIQPS cfg) = false ↔ ∃ m e, ec_APIQPS cfg = F32 m e ∧ (0 < m)%Z).
  { destruct (ec_APIQPS cfg) as [| |m e]; cbn; [naive_solver|naive_solver|]. rewrite Z.leb_gt. naive_solver. }
  rewrite Ht, Hq. split.
  - intros (? & ? & (? & ? & ? & _) & ? & ([? _] & [? _] & _) & ? & ? & ? & ? & ? & _). by constructor.
  - intros [? ? (? & ? & ?) ? (? & ?) ? ? ? ? ?]. split_and!; try done; set_solver.
Qed.

(** ** What a loaded configuration is made of *)

(** A value given by the flag, else by the environment, else by the file. *)
Definition chosen {A} (l : Loader) (flag env : string) (parse : string → result A) (file : A) : result A :=
  match ld_actual l !! flag with
  | Some v => parse v
  | None => match ld_lookupEnv l env with Some v => parse v | None => Ok file end
  end.

Record overrides (l : Loader) (file cfg : Config) : Prop := {
  ov_cost : chosen l "generic-label-eval-cost-limit" "DSX_WORKLOAD_EXPORTER_GENERIC_LABEL_EVAL_COST_LIMIT"
    ParseUint64 (CostLimit (ec_Limits file)) = Ok (CostLimit (ec_Limits cfg));
  ov_expression : chosen l "generic-label-eval-max-expression-bytes"
    "DSX_WORKLOAD_EXPORTER_GENERIC_LABEL_EVAL_MAX_EXPRESSION_BYTES" Atoi
    (MaxExpressionBytes (ec_Limits file)) = Ok (MaxExpressionBytes (ec_Limits cfg));
  ov_result : chosen l "generic-label-eval-max-result-bytes"
    "DSX_WORKLOAD_EXPORTER_GENERIC_LABEL_EVAL_MAX_RESULT_BYTES" Atoi
    (MaxResultBytes (ec_Limits file)) = Ok (MaxResultBytes (ec_Limits cfg));
  ov_qps : chosen l "api-qps" "DSX_WORKLOAD_EXPORTER_API_QPS" ParseFloat32 (ec_APIQPS file) = Ok (ec_APIQPS cfg);
  ov_burst : chosen l "api-burst" "DSX_WORKLOAD_EXPORTER_API_BURST" Atoi (ec_APIBurst file) = Ok (ec_APIBurst cfg);
  ov_workers : chosen l "workers" "DSX_WORKLOAD_EXPORTER_WORKERS" Atoi (ec_Workers file) = Ok (ec_Workers cfg);
  ov_leaf : chosen l "leaf-workers" "DSX_WORKLOAD_EXPORTER_LEAF_WORKERS" Atoi (ec_LeafWorkers file)
    = Ok (ec_LeafWorkers cfg);
  ov_root : chosen l "root-workers" "DSX_WORKLOAD_EXPORTER_ROOT_WORKERS" Atoi (ec_RootWorkers file)
    = Ok (ec_RootWorkers cfg);
  ov_timeout : chosen l "request-timeout" "DSX_WORKLOAD_EXPORTER_REQUEST_TIMEOUT" Ok (ec_RequestTimeout file)
    = Ok (ec_RequestTimeout cfg);
  ov_rules : ec_Rules cfg = ec_Rules file;
  ov_resources : ec_ResourceRules cfg = ec_ResourceRules file ∧ ec_ExcludeResourceRules cfg = ec_ExcludeResourceRules file;
  ov_selectors : ec_NamespaceSelector cfg = ec_NamespaceSelector file ∧
    ec_ObjectSelector cfg = ec_ObjectSelector file ∧ ec_PodSelector cfg = ec_PodSelector file;
  ov_source : ec_KartaDefinitionSource cfg = ec_KartaDefinitionSource file;
  ov_kinds : ec_IgnoredOwnerKinds cfg = ec_IgnoredOwnerKinds file ∧ ec_RequiredKinds cfg = ec_RequiredKinds file;
}.

Lemma bind_Ok {A B} (m : result A) (k : A → result B) b : (m ≫= k) = Ok b ↔ ∃ a, m = Ok a ∧ k a = Ok b.
Proof. destruct m; cbn; naive_solver. Qed.

(** A setting replaces one value of the configuration. *)
Lemma apply_setting_Ok {A} (l : Loader) (flag env : string) (parse : string → result A) (get : Config → A)
    (set : A → Config → Config) (cfg cfg' : Config) :
  set (get cfg) cfg = cfg →
  apply_setting l (MkSetting flag env (λ c v, (λ x, set x c) <$> parse v)) cfg = Ok cfg' ↔
  ∃ x, chosen l flag env parse (get cfg) = Ok x ∧ cfg' = set x cfg.
Proof.
  intros Hset. unfold apply_setting, value, chosen. cbn [st_flag st_env st_apply].
  destruct (ld_actual l !! flag) as [v|]; [destruct (parse v); cbn; naive_solver|].
  destruct (ld_lookupEnv l env) as [v|]; [destruct (parse v); cbn; naive_solver|].
  split; [intros [= <-]; by exists (get cfg)|]. intros (x & [= <-] & ->). by rewrite Hset.
Qed.

Definition with_limit (get : Limits → Z) `{!Settable get} (z : Z) (c : Config) : Config :=
  assign ec_Limits (assign get z (ec_Limits c)) c.

(** One setting of [apply_settings], as a hypothesis and as a goal. *)
Ltac override E parse get set :=
  let x := fresh "x" in let P := fresh "P" in
  apply (apply_setting_Ok _ _ _ parse get set) in E as (x & P & ->); [|done].
Ltac overridden parse get set :=
  eexists; split; [apply (apply_setting_Ok _ _ _ parse get set); [done|by eexists]|].

Lemma apply_settings_Ok l file cfg : apply_settings l settings file = Ok cfg ↔ overrides l file cfg.
Proof.
  unfold settings, apply_limit. cbn [apply_settings]. repeat setoid_rewrite bind_Ok.
  destruct file as [rules [cost expr res] rr xr ns os ps kd ig rq rt qps burst w lw rw].
  split.
  - intros (c1 & E1 & c2 & E2 & c3 & E3 & c4 & E4 & c5 & E5 & c6 & E6 & c7 & E7 & c8 & E8 & c9 & E9 & [= <-]).
    override E1 ParseUint64 (λ c, CostLimit (ec_Limits c)) (with_limit CostLimit).
    override E2 Atoi (λ c, MaxExpressionBytes (ec_Limits c)) (with_limit MaxExpressionBytes).
    override E3 Atoi (λ c, MaxResultBytes (ec_Limits c)) (with_limit MaxResultBytes).
    override E4 ParseFloat32 ec_APIQPS (assign ec_APIQPS).
    override E5 Atoi ec_APIBurst (assign ec_APIBurst).
    override E6 Atoi ec_Workers (assign ec_Workers).
    override E7 Atoi ec_LeafWorkers (assign ec_LeafWorkers).
    override E8 Atoi ec_RootWorkers (assign ec_RootWorkers).
    override E9 (Ok (A:=string)) ec_RequestTimeout (assign ec_RequestTimeout).
    by constructor.
  - destruct cfg as [rules' [cost' expr' res'] rr' xr' ns' os' ps' kd' ig' rq' rt' qps' burst' w' lw' rw'].
    intros [P1 P2 P3 P4 P5 P6 P7 P8 P9 Er [Err Exr] [En [Eo Ep]] Ek [Ei Eq]]. cbn in *. subst.
    overridden ParseUint64 (λ c, CostLimit (ec_Limits c)) (with_limit CostLimit).
    overridden Atoi (λ c, MaxExpressionBytes (ec_Limits c)) (with_limit MaxExpressionBytes).
    overridden Atoi (λ c, MaxResultBytes (ec_Limits c)) (with_limit MaxResultBytes).
    overridden ParseFloat32 ec_APIQPS (assign ec_APIQPS).
    overridden Atoi ec_APIBurst (assign ec_APIBurst).
    overridden Atoi ec_Workers (assign ec_Workers).
    overridden Atoi ec_LeafWorkers (assign ec_LeafWorkers).
    overridden Atoi ec_RootWorkers (assign ec_RootWorkers).
    overridden (Ok (A:=string)) ec_RequestTimeout (assign ec_RequestTimeout).
    done.
Qed.

Context {Data Node : Type} (ReadFile : string → result Data).
Context (documents : Data → list (result Node)) (Decode : Node → result Value.value).

Abbreviation load_file := (load_file decode_LabelSelector ReadFile documents Decode).
Abbreviation Load := (Load decode_LabelSelector gvk_String ReadFile documents Decode).
Abbreviation decode_config := (decode_struct (Config_fields decode_LabelSelector)).

(** ** What a document leaves alone *)

(** No key of the document goes to the field. *)
Definition absent (name : string) (m : gmap string json) : Prop :=
  ∀ key j, m !! key = Some j → fold_name key ≠ fold_name name.

Lemma members_of_elem m key j : (key, j) ∈ members_of m ↔ m !! key = Some j.
Proof.
  unfold members_of. rewrite list_elem_of_omap. split.
  - intros (k & _ & E). destruct (m !! k) eqn:Ek; cbn in E; naive_solver.
  - intros E. exists key. rewrite E. split; [|done]. rewrite sort_Strings_Permutation.
    apply list_elem_of_fmap. exists (key, j). split; [done|]. by apply elem_of_map_to_list.
Qed.

Lemma find_field_Some {S} (fields : list (field S)) key f :
  find_field fields key = Some f → f ∈ fields ∧ fold_name (f_name f) = fold_name key.
Proof.
  unfold find_field. destruct (list_find _ _) as [[i f']|] eqn:E.
  - intros [= <-]. apply list_find_Some in E as (E & <- & _). split; [by eapply list_elem_of_lookup_2|done].
  - destruct (list_find (λ f, fold_name (f_name f) = _) _) as [[i f']|] eqn:E2; cbn; [|done]. intros [= <-].
    apply list_find_Some in E2 as (E2 & ? & _). split; [by eapply list_elem_of_lookup_2|done].
Qed.

(** What no field met changes stays. *)
Lemma decode_members_keeps {S A} (get : S → A) (fields : list (field S)) members s s' :
  (∀ key j f t t', (key, j) ∈ members → find_field fields key = Some f → f_decode f j t = Ok t' → get t' = get t) →
  decode_members fields members s = Ok s' → get s' = get s.
Proof.
  revert s. induction members as [|[key j] members IH]; intros s Hkeep; cbn [decode_members]; [by intros [= <-]|].
  destruct (find_field fields key) as [f|] eqn:Ef; [|done]. intros (t & Et & E)%bind_Ok.
  rewrite (IH t); [eapply Hkeep; [by left|done|done]| |done]. intros k j' f' t1 t2 Hin. apply (Hkeep k). by right.
Qed.

Definition keeps {A} (get : Config → A) (f : field Config) : Prop :=
  ∀ j t t', f_decode f j t = Ok t' → get t' = get t.

(** A field absent from the document keeps the value it had. *)
Lemma decode_config_keeps {A} (get : Config → A) name m cfg cfg' :
  Forall (λ f, f_name f = name ∨ keeps get f) (Config_fields decode_LabelSelector) →
  absent name m → decode_config (JObject m) cfg = Ok cfg' → get cfg' = get cfg.
Proof.
  intros Hfields Habs. apply decode_members_keeps. intros key j f t t' Hin%members_of_elem [Hf Hname]%find_field_Some.
  apply (proj1 (Forall_forall _ _) Hfields) in Hf as [Hf|Hf]; [|apply Hf].
  exfalso. eapply Habs; [exact Hin|]. by rewrite <- Hname, Hf.
Qed.

Lemma fld_keeps {A B} name (get : Config → B) `{!Settable get} (decode : decoder B) (get' : Config → A) :
  (∀ v c, get' (assign get v c) = get' c) → keeps get' (fld name get decode).
Proof.
  intros Hget j t t'. cbn. destruct (decode j (get t)); cbn; [|done]. intros [= <-]. apply Hget.
Qed.

(** The fields of the configuration do not overlap. *)
Ltac field_apart := repeat (constructor; [first [by left | right; apply fld_keeps; by intros ? []]|]); constructor.

Record file_over_defaults (m : gmap string json) (cfg : Config) : Prop := {
  fd_known : ∀ key j, m !! key = Some j →
    fold_name key ∈ fold_name ∘ f_name <$> Config_fields decode_LabelSelector;
  fd_rules : absent "labelRules" m → ec_Rules cfg = [];
  fd_limits : absent "genericLabelEvaluationLimits" m → ec_Limits cfg = defaultLabelEvaluationLimits;
  fd_resources : absent "resourceRules" m → ec_ResourceRules cfg = [];
  fd_excluded : absent "excludeResourceRules" m → ec_ExcludeResourceRules cfg = [];
  fd_selectors : (absent "namespaceSelector" m → ec_NamespaceSelector cfg = None) ∧
    (absent "objectSelector" m → ec_ObjectSelector cfg = None) ∧
    (absent "podSelector" m → ec_PodSelector cfg = None);
  fd_source : absent "kartaDefinitionSource" m →
    ds_Enabled (kd_Catalog (ec_KartaDefinitionSource cfg)) = true ∧
    ds_Enabled (kd_Cluster (ec_KartaDefinitionSource cfg)) = true;
  fd_kinds : (absent "ignoredOwnerKinds" m → ec_IgnoredOwnerKinds cfg = []) ∧
    (absent "requiredKinds" m → ec_RequiredKinds cfg = []);
  fd_timeout : absent "requestTimeout" m → ec_RequestTimeout cfg = "30s";
  fd_api : (absent "apiQPS" m → ec_APIQPS cfg = F32 20 0) ∧ (absent "apiBurst" m → ec_APIBurst cfg = 40%Z);
  fd_workers : (absent "workers" m → ec_Workers cfg = 4%Z) ∧ (absent "leafWorkers" m → ec_LeafWorkers cfg = 0%Z) ∧
    (absent "rootWorkers" m → ec_RootWorkers cfg = 0%Z);
}.

Lemma decode_members_known {S} (fields : list (field S)) members s s' :
  decode_members fields members s = Ok s' →
  ∀ key j, (key, j) ∈ members → fold_name key ∈ fold_name ∘ f_name <$> fields.
Proof.
  revert s. induction members as [|[key j] members IH]; intros s; cbn [decode_members].
  { intros _ ? ? ?%not_elem_of_nil. done. }
  destruct (find_field fields key) as [f|] eqn:Ef; [|done]. intros (t & _ & E)%bind_Ok k j' [[= -> ->]|Hin]%elem_of_cons.
  - apply find_field_Some in Ef as [Hf Hn]. apply list_elem_of_fmap. by exists f.
  - by eapply IH.
Qed.

Ltac kept get name :=
  intros Habs;
  match goal with E : _ = Ok ?cfg |- _ =>
    rewrite (decode_config_keeps get name _ DefaultConfig cfg ltac:(field_apart) Habs E)
  end; done.

Lemma decode_config_defaults m cfg :
  decode_config (JObject m) DefaultConfig = Ok cfg → file_over_defaults m cfg.
Proof.
  intros E. constructor.
  - intros key j Hin. eapply decode_members_known; [exact E|]. by apply members_of_elem.
  - kept ec_Rules "labelRules".
  - kept ec_Limits "genericLabelEvaluationLimits".
  - kept ec_ResourceRules "resourceRules".
  - kept ec_ExcludeResourceRules "excludeResourceRules".
  - split_and!; [kept ec_NamespaceSelector "namespaceSelector"|kept ec_ObjectSelector "objectSelector"|
      kept ec_PodSelector "podSelector"].
  - kept ec_KartaDefinitionSource "kartaDefinitionSource".
  - split; [kept ec_IgnoredOwnerKinds "ignoredOwnerKinds"|kept ec_RequiredKinds "requiredKinds"].
  - kept ec_RequestTimeout "requestTimeout".
  - split; [kept ec_APIQPS "apiQPS"|kept ec_APIBurst "apiBurst"].
  - split_and!; [kept ec_Workers "workers"|kept ec_LeafWorkers "leafWorkers"|kept ec_RootWorkers "rootWorkers"].
Qed.

(** Where the configuration starts from, before the overrides: the defaults when
    no file is named or it is empty, else its one document over the defaults. *)
Definition starts_from (l : Loader) (file : Config) : Prop :=
  let path := default "" (value l configSetting) in
  (path = "" ∧ file = DefaultConfig) ∨
  (path ≠ "" ∧ ∃ data, ReadFile path = Ok data ∧
    ((documents data = [] ∧ file = DefaultConfig) ∨
     ∃ node v j extra, documents data = Ok node :: extra ∧ Forall (λ d, ∃ n, d = Ok n ∧ Decode n = Ok VNil) extra ∧
       Decode node = Ok v ∧ json_Marshal v = Ok j ∧
       ((j = JNull ∧ file = DefaultConfig) ∨ ∃ m, j = JObject m ∧ file_over_defaults m file))).

Lemma no_more_documents_true docs :
  no_more_documents Decode docs = true → Forall (λ d, ∃ n, d = Ok n ∧ Decode n = Ok VNil) docs.
Proof.
  induction docs as [|[node|] docs IH]; cbn; [constructor| |done].
  destruct (Decode node) as [[]|] eqn:E; try done. intros ?%IH. constructor; eauto.
Qed.

Lemma map_error_inv {A} w (m : result A) a : map_error w m = Ok a → m = Ok a.
Proof. by destruct m. Qed.

Lemma load_file_starts l file : load_file l = Ok file → starts_from l file.
Proof.
  unfold ExporterConfig.load_file, starts_from. cbv zeta. set (path := default "" _). case_bool_decide as Hp.
  2:{ intros [= <-]. left. split; [by destruct (decide (path = ""))|done]. }
  unfold decode_file. intros (data & Hd%map_error_inv & E)%bind_Ok. right. split; [done|]. exists data. split; [done|].
  destruct (documents data) as [|doc extra]; [injection E as <-; by left|right].
  apply bind_Ok in E as (node & ->%map_error_inv & E). apply bind_Ok in E as (v & Hv%map_error_inv & E).
  apply bind_Ok in E as (j & Hj%map_error_inv & E). apply bind_Ok in E as (cfg & Hc%map_error_inv & E).
  destruct (no_more_documents _ extra) eqn:Hx; [|done]. injection E as <-.
  exists node, v, j, extra. split_and!; [done|by apply no_more_documents_true|done|done|].
  destruct j as [| | | | |m]; try done; [injection Hc as <-; by left|right].
  exists m. split; [done|]. by apply decode_config_defaults.
Qed.

(** A configuration is loaded exactly when its file can be read, every flag
    or variable given can be parsed and the result is valid; it then holds, value by
    value, what the flag says, else the environment, else the file, else the
    default. A key of the file that names no field is an error. *)
Theorem Load_precedence l :
  (∀ cfg, Load l = Ok cfg ↔ ∃ file, load_file l = Ok file ∧ overrides l file cfg ∧ valid cfg) ∧
  ∀ file, load_file l = Ok file → starts_from l file.
Proof.
  split; [|apply load_file_starts]. intros cfg. unfold ExporterConfig.Load. rewrite bind_Ok.
  apply exist_proper. intros file. rewrite bind_Ok. apply and_iff_compat_l. split.
  - intros (cfg' & Ho%apply_settings_Ok & (u & Hv & [= <-])%bind_Ok). destruct u. split; [done|]. by apply Validate_valid in Hv.
  - intros [Ho%apply_settings_Ok Hv%Validate_valid]. exists cfg. split; [done|]. by rewrite Hv.
Qed.
End config_properties.

(** The flags do not collide with one another or with the two of the command. *)
Lemma NewLoader_registers `{!Kubernetes} `{!Numbers} :
  is_ok (NewLoader {["metrics-bind-address"; "version"]}) = true.
Proof. reflexivity. Qed.

(** Without files, flags and environment the defaults are loaded. *)
Lemma DefaultConfig_valid `{!Kubernetes} `{!Numbers} (t : Z) :
  ParseDuration "30s" = Ok t → (0 < t)%Z → valid DefaultConfig.
Proof.
  intros Ht Hpos. constructor; cbn; [by split|constructor|done|constructor|by repeat split; constructor|by exists t| |lia..].
  by exists 20%Z, 0%Z.
Qed.

(** ** Concrete inputs *)

Definition sample_ParseGroupVersion (p : string) : result (string * string) :=
  let s := String.list_ascii_of_string p in
  if bool_decide (s = []) || bool_decide (s = ["/"%char]) then Ok ("", "")
  else match cut_last "/" s with
       | None => Ok ("", p)
       | Some (a, b) =>
           if bool_decide ("/"%char ∈ a) then Fail (External "unexpected GroupVersion string")
           else Ok (String.string_of_list_ascii a, String.string_of_list_ascii b)
       end.

Definition sample_gv_String (g v : string) : string := if bool_decide (g = "") then v else g +:+ "/" +:+ v.

#[local] Instance sample_kubernetes_errors : KubernetesErrors := {
  ParseGroupVersion := sample_ParseGroupVersion;
  IsForbidden _ := false; IsUnauthorized _ := false; IsNotFound _ := false;
}.

Lemma string_of_app a b :
  String.string_of_list_ascii (a ++ b) = String.string_of_list_ascii a +:+ String.string_of_list_ascii b.
Proof.
  induction a as [|c a IH]; [done|].
  change (String c (String.string_of_list_ascii (a ++ b)) =
          String c (String.string_of_list_ascii a +:+ String.string_of_list_ascii b)). by rewrite IH.
Qed.

Lemma sample_writes : writes_what_is_read sample_gv_String.
Proof.
  intros p g v. cbn. unfold sample_ParseGroupVersion, sample_gv_String.
  destruct (_ || _); [by intros [= <- <-]|].
  destruct (cut_last "/" _) as [[a b]|] eqn:E; [|by intros [= <- <-]].
  case_bool_decide; [done|]. intros [= <- <-] _ Hh. apply cut_last_Some in E as [E _].
  assert (Ep : p = String.string_of_list_ascii a +:+ "/" +:+ String.string_of_list_ascii b).
  { rewrite <- (String.string_of_list_ascii_of_string p), E. apply (string_of_app a ("/"%char :: b)). }
  destruct a as [|c a]; [exfalso; apply Hh; by rewrite Ep|]. by rewrite bool_decide_eq_false_2.
Qed.

Definition sample_kinds : json :=
  JArray [JString " apps/v1/Deployment "; JString "v1/Pod"; JNull; JString "apps/v1/Deployment"].
Definition sample_kinds_ok : json :=
  JArray [JString " apps/v1/Deployment "; JString "v1/Pod"; JString "apps/v1/Deployment"].

Lemma Kinds_roundtrip_witness :
  UnmarshalJSON sample_kinds_ok = Ok [GVK "apps" "v1" "Deployment"; GVK "" "v1" "Pod"] ∧
  UnmarshalJSON (MarshalJSON sample_gv_String [GVK "apps" "v1" "Deployment"; GVK "" "v1" "Pod"]) =
    Ok [GVK "apps" "v1" "Deployment"; GVK "" "v1" "Pod"].
Proof.
  assert (E : UnmarshalJSON sample_kinds_ok = Ok [GVK "apps" "v1" "Deployment"; GVK "" "v1" "Pod"])
    by (vm_compute; reflexivity).
  split; [exact E|]. exact (proj1 (Kinds_roundtrip sample_gv_String _ _ sample_writes E)).
Defined.

Example Kinds_null : is_ok (UnmarshalJSON sample_kinds) = false ∧ UnmarshalJSON JNull = Ok [].
Proof. by vm_compute. Qed.

#[local] Instance sample_numbers : Numbers := {
  ParseFloat32 s := (λ z, F32 z 0) <$> Atoi s;
  float32_of_number n := match n with NInt z => Ok (F32 z 0) | NFloat m e => Ok (F32 m e) end;
  ParseDuration s := if bool_decide (s = "30s") then Ok 30000000000%Z else Fail (External "time: invalid duration");
}.

#[local] Instance sample_kubernetes : Kubernetes := {
  Content := unit; no_content := tt; LabelSelector := string; no_terms s := bool_decide (s = "");
  Selector := string; Everything := ""; LabelSelectorAsSelector := Ok;
  Matches s labels := bool_decide (s = "") || bool_decide (is_Some (labels !! s));
  NewNotFound _ _ _ := External "not found";
}.

Definition sample_file (documents : list (result Value.value)) (flags env : gmap string string) : result Config :=
  Load (λ _ s, Ok s) gvk_Kind Ok (λ _ : string, documents) Ok
    (MkLoader (<["config" := "exporter.yaml"]> flags) (λ name, env !! name)).

Definition sample_document : Value.value :=
  VMap {["Workers" := VInt 8; "rootWorkers" := VInt 2; "ignoredOwnerKinds" := VArray [VString "v1/Node"]]}.

(** The flag wins over the environment, which wins over the file. *)
Example sample_load :
  (λ c, (ec_Workers c, ec_LeafWorkers c, ec_RootWorkers c, ec_IgnoredOwnerKinds c)) <$>
    sample_file [Ok sample_document; Ok VNil] {["leaf-workers" := "3"]}
      {["DSX_WORKLOAD_EXPORTER_LEAF_WORKERS" := "9"; "DSX_WORKLOAD_EXPORTER_ROOT_WORKERS" := "5"]} =
  Ok (8, 3, 5, [GVK "" "v1" "Node"])%Z.
Proof. by vm_compute. Qed.

(** A second document, an unknown key and an empty flag are errors. *)
Example sample_rejected :
  is_ok (sample_file [Ok sample_document; Ok (VMap ∅)] ∅ ∅) = false ∧
  is_ok (sample_file [Ok (VMap {["worker" := VInt 1]})] ∅ ∅) = false ∧
  is_ok (sample_file [Ok sample_document] {["workers" := ""]} ∅) = false ∧
  is_ok (sample_file [] ∅ ∅) = true.
Proof. by vm_compute. Qed.
