(* ===== verification/ExporterProcess.v ===== *)
(** * ExporterProcess: the life of the exporter

    Models [dsx-workload-exporter/pkg/app/application.go] and [run.go].  Serving is
    four goroutines - the caller, the runtime, the definition inventory and the
    HTTP server - with a program counter each and the contexts between them; a
    step moves one of them, in any order.  What a component does while it runs is
    its contract: when it may return, and that it can once its context is done. *)

From S2P Require Import Prelude Literal.

(** ** Errors and contexts *)

Definition Canceled : error := Sentinel "context canceled".

Definition errAlreadyStarted : string := "exporter application can only be served once".
Definition ErrMetricsListenerRequired : string := "metrics listener is required".
Definition ErrIncompleteExporterComponents : string := "incomplete exporter components".
Definition ErrIncompleteControllerComponents : string := "incomplete controller components".
Definition ErrDefinitionInventoryStopped : string := "definition inventory stopped before cancellation".

(** [err == ctx.Err()]: the errors of a context are package variables. *)
Definition same_error (a b : option error) : bool :=
  match a, b with
  | None, None => true
  | Some (Sentinel m), Some (Sentinel n) => bool_decide (m = n)
  | _, _ => false
  end.

(** [errors.Join(a, b)] *)
Definition join (a b : option error) : option error := errors_Join (option_list a ++ option_list b).

(** ** The goroutines *)

(** [Serve] or [ServeListener]; then [serveListener] up to its deferred calls. *)
Inductive main_pc :=
  | M_Listen
  | M_Serve
  | M_Register
  | M_Select
  | M_Stop (err : option error) (serverStopped : bool)
  | M_Shutdown (err : option error) (serverStopped : bool)
  | M_JoinRuntime (err : option error) (serverStopped : bool)
  | M_JoinServer (err : option error)
  | M_Unregister (err : option error)
  | M_Provider (err : option error)
  | M_Done (err : option error).

(** The goroutine around [RunController], and [RunController] itself. *)
Inductive runtime_pc :=
  | R_None | R_Start | R_WaitLoaded | R_Run
  | R_Cancel (err : option error)
  | R_Join (err : option error)
  | R_Return (err : option error)
  | R_Done (runtimeErr : option error).

(** The goroutine that runs the definition inventory. *)
Inductive inventory_pc := I_None | I_Run | I_Sent (err : option error) | I_Done (err : option error).

(** The goroutine of the HTTP server. *)
Inductive server_pc := S_None | S_Serve | S_Sent (serveErr : option error).

Inductive listener_state := Unbound | Open | Closed.

(** [p_ctx], [p_run] and [p_inner] are the answers of [Err] of the caller's
    context, of the one [serveListener] derives and of [RunController]'s own. *)
Record proc := MkProc {
  p_main : main_pc;
  p_runtime : runtime_pc;
  p_inventory : inventory_pc;
  p_server : server_pc;
  p_ctx : option error;
  p_run : option error;
  p_inner : option error;
  p_listener : listener_state;
  p_running : bool;
  p_registered : bool;
  p_provider : bool;
}.

#[export] Instance set_p_main : Settable p_main := λ v '(MkProc _ b c d e f g h i j k), MkProc v b c d e f g h i j k.
#[export] Instance set_p_runtime : Settable p_runtime := λ v '(MkProc a _ c d e f g h i j k), MkProc a v c d e f g h i j k.
#[export] Instance set_p_inventory : Settable p_inventory := λ v '(MkProc a b _ d e f g h i j k), MkProc a b v d e f g h i j k.
#[export] Instance set_p_server : Settable p_server := λ v '(MkProc a b c _ e f g h i j k), MkProc a b c v e f g h i j k.
#[export] Instance set_p_ctx : Settable p_ctx := λ v '(MkProc a b c d _ f g h i j k), MkProc a b c d v f g h i j k.
#[export] Instance set_p_run : Settable p_run := λ v '(MkProc a b c d e _ g h i j k), MkProc a b c d e v g h i j k.
#[export] Instance set_p_inner : Settable p_inner := λ v '(MkProc a b c d e f _ h i j k), MkProc a b c d e f v h i j k.
#[export] Instance set_p_listener : Settable p_listener := λ v '(MkProc a b c d e f g _ i j k), MkProc a b c d e f g v i j k.
#[export] Instance set_p_running : Settable p_running := λ v '(MkProc a b c d e f g h _ j k), MkProc a b c d e f g h v j k.
#[export] Instance set_p_registered : Settable p_registered := λ v '(MkProc a b c d e f g h i _ k), MkProc a b c d e f g h i v k.
#[export] Instance set_p_provider : Settable p_provider := λ v '(MkProc a b c d e f g h i j _), MkProc a b c d e f g h i j v.

(** Cancelling a context: the first cause stays, and what is derived is done too. *)
Definition or_err (a b : option error) : option error := match a with Some _ => a | None => b end.

Definition cancel_ctx (e : error) (p : proc) : proc :=
  assign p_ctx (Some e) (assign p_run (or_err (p_run p) (Some e)) (assign p_inner (or_err (p_inner p) (Some e)) p)).
Definition cancel_run (p : proc) : proc :=
  assign p_run (or_err (p_run p) (Some Canceled)) (assign p_inner (or_err (p_inner p) (Some Canceled)) p).
Definition cancel_inner (p : proc) : proc := assign p_inner (or_err (p_inner p) (Some Canceled)) p.

(** ** Steps of the goroutines *)

(** The error of [Definitions.Run] as it is sent. *)
Definition inventory_error (ctx_err err : option error) : option error :=
  match err, ctx_err with None, None => Some (Sentinel ErrDefinitionInventoryStopped) | _, _ => err end.

(** What the goroutine makes of [RunController]'s answer. *)
Definition runtime_error (ctx_err err : option error) : option error :=
  match err, ctx_err with
  | None, None => Some (External "exporter runtime stopped unexpectedly")
  | _, _ => if same_error err ctx_err then None else err
  end.

(** The deferred function of [RunController]. *)
Definition join_inventory (err inventoryErr : option error) : option error :=
  match inventoryErr with
  | None => err
  | Some e => join err (Some (Errorf "karta definition inventory: %w" [] [e]))
  end.

(** [server.Shutdown], and [server.Close] when it fails. *)
Definition shutdown_error (err : option error) (shutdown : option error) (close : option error) : option error :=
  match shutdown with
  | None => err
  | Some e => errors_Join (option_list err ++ [Errorf "shutdown metrics server: %w" [] [e]] ++ option_list close)
  end.

(** When the components may return, given the answer of their context. *)
Class Components := {
  run_definitions : option error → option error → Prop;
  wait_loaded : option error → option error → Prop;
  run_runtime : option error → option error → Prop;
}.

(** A component whose context is done can return. *)
Class ComponentsLaws `{Components} : Prop := {
  run_definitions_done e : ∃ err, run_definitions (Some e) err;
  wait_loaded_done e : ∃ err, wait_loaded (Some e) err;
  run_runtime_done e : ∃ err, run_runtime (Some e) err;
}.

Section steps.
Context `{Components}.

Inductive main_step (p : proc) : proc → Prop :=
  | main_cancelled :
      p_main p = M_Listen → is_Some (p_ctx p) → main_step p (assign p_main (M_Provider None) p)
  | main_listen_failed err :
      p_main p = M_Listen → p_ctx p = None →
      main_step p (assign p_main (M_Provider (Some (Errorf "listen for metrics: %w" [] [err]))) p)
  | main_listen :
      p_main p = M_Listen → p_ctx p = None →
      main_step p (assign p_main M_Serve (assign p_listener Open p))
  | main_serve_cancelled close :
      p_main p = M_Serve → is_Some (p_ctx p) →
      main_step p (assign p_main (M_Provider close) (assign p_listener Closed p))
  | main_serve :
      p_main p = M_Serve → p_ctx p = None → main_step p (assign p_main M_Register p)
  | main_register_failed err close :
      p_main p = M_Register →
      main_step p (assign p_main (M_Provider (join (Some (Errorf "register collector: %w" [] [err])) close))
                     (assign p_listener Closed p))
  | main_register :
      p_main p = M_Register →
      main_step p (assign p_main M_Select (assign p_runtime R_Start (assign p_server S_Serve
        (assign p_run (p_ctx p) (assign p_running true (assign p_registered true p))))))
  | main_select_ctx :
      p_main p = M_Select → is_Some (p_ctx p) → main_step p (assign p_main (M_Stop None false) p)
  | main_select_runtime err :
      p_main p = M_Select → p_runtime p = R_Done err → main_step p (assign p_main (M_Stop None false) p)
  | main_select_server err :
      p_main p = M_Select → p_server p = S_Sent err → main_step p (assign p_main (M_Stop err true) p)
  | main_stop err stopped :
      p_main p = M_Stop err stopped →
      main_step p (cancel_run (assign p_main (M_Shutdown err stopped) (assign p_running false p)))
  | main_shutdown err stopped shutdown close :
      p_main p = M_Shutdown err stopped →
      main_step p (assign p_main (M_JoinRuntime (shutdown_error err shutdown close) stopped) p)
  | main_join_runtime err stopped runtimeErr :
      p_main p = M_JoinRuntime err stopped → p_runtime p = R_Done runtimeErr →
      main_step p (assign p_main (if stopped then M_Unregister (join err runtimeErr) else M_JoinServer err) p)
  | main_join_server err serveErr runtimeErr :
      p_main p = M_JoinServer err → p_server p = S_Sent serveErr → p_runtime p = R_Done runtimeErr →
      main_step p (assign p_main (M_Unregister (join (join err serveErr) runtimeErr)) p)
  | main_unregister err unregister :
      p_main p = M_Unregister err →
      main_step p (assign p_main (M_Provider (join err unregister)) (assign p_registered false p))
  | main_provider err shutdown :
      p_main p = M_Provider err →
      main_step p (assign p_main (M_Done (join err ((λ e, Errorf "shutdown meter provider: %w" [] [e]) <$> shutdown)))
                     (assign p_provider true p)).

Inductive runtime_step (p : proc) : proc → Prop :=
  | runtime_start :
      p_runtime p = R_Start →
      runtime_step p (assign p_runtime R_WaitLoaded (assign p_inventory I_Run (assign p_inner (p_run p) p)))
  | runtime_loaded :
      p_runtime p = R_WaitLoaded → wait_loaded (p_inner p) None → runtime_step p (assign p_runtime R_Run p)
  | runtime_not_loaded err :
      p_runtime p = R_WaitLoaded → wait_loaded (p_inner p) (Some err) →
      runtime_step p (assign p_runtime (R_Cancel (if same_error (Some err) (p_run p) then None else Some err)) p)
  | runtime_run err :
      p_runtime p = R_Run → run_runtime (p_inner p) err →
      runtime_step p (assign p_runtime (R_Cancel (if same_error err (p_inner p) then None else err)) p)
  | runtime_cancel err :
      p_runtime p = R_Cancel err → runtime_step p (cancel_inner (assign p_runtime (R_Join err) p))
  | runtime_join err inventoryErr :
      p_runtime p = R_Join err → p_inventory p = I_Sent inventoryErr ∨ p_inventory p = I_Done inventoryErr →
      runtime_step p (assign p_runtime (R_Return (join_inventory err inventoryErr)) p)
  | runtime_return err :
      p_runtime p = R_Return err → runtime_step p (assign p_runtime (R_Done (runtime_error (p_run p) err)) p).

Inductive inventory_step (p : proc) : proc → Prop :=
  | inventory_return err :
      p_inventory p = I_Run → run_definitions (p_inner p) err →
      inventory_step p (assign p_inventory (I_Sent (inventory_error (p_inner p) err)) p)
  | inventory_cancel err :
      p_inventory p = I_Sent err → inventory_step p (cancel_inner (assign p_inventory (I_Done err) p)).

(** [server.Serve] fails at any time, and returns [ErrServerClosed], dropped
    here, once [Shutdown] was called; it closes the listener. *)
Inductive server_step (p : proc) : proc → Prop :=
  | server_failed err :
      p_server p = S_Serve → server_step p (assign p_server (S_Sent (Some err)) (assign p_listener Closed p))
  | server_closed err stopped :
      p_server p = S_Serve → p_main p = M_JoinRuntime err stopped ∨ p_main p = M_JoinServer err →
      server_step p (assign p_server (S_Sent None) (assign p_listener Closed p)).

Inductive step (p : proc) : proc → Prop :=
  | step_ctx e : p_ctx p = None → step p (cancel_ctx (Sentinel e) p)
  | step_main p' : main_step p p' → step p p'
  | step_runtime p' : runtime_step p p' → step p p'
  | step_inventory p' : inventory_step p p' → step p p'
  | step_server p' : server_step p p' → step p p'.

(** ** The first call *)

(** [started.CompareAndSwap(false, true)], with what a call turned away does. *)
Definition idle (main : main_pc) (listener : listener_state) (ctx : option error) : proc :=
  MkProc main R_None I_None S_None ctx None None listener false false false.

Definition Serve (started : bool) (ctx : option error) : option error + proc :=
  if started then inl (Some (Sentinel errAlreadyStarted)) else inr (idle M_Listen Unbound ctx).

(** [listener] is nil, or answers [close] when it is closed. *)
Definition ServeListener (started : bool) (listener : option (option error)) (ctx : option error) : option error + proc :=
  if started then
    inl (match listener with
         | Some close => join (Some (Sentinel errAlreadyStarted)) close
         | None => Some (Sentinel errAlreadyStarted)
         end)
  else match listener with
       | None => inr (idle (M_Provider (Some (Sentinel ErrMetricsListenerRequired))) Unbound ctx)
       | Some _ => inr (idle M_Serve Open ctx)
       end.

Inductive served : proc → Prop :=
  | served_Serve ctx p : Serve false ctx = inr p → served p
  | served_ServeListener listener ctx p : ServeListener false listener ctx = inr p → served p
  | served_step p p' : served p → step p p' → served p'.
End steps.

(** [New]: a part that is nil, and the Prometheus reader, which may fail. *)
Definition New (missing : bool) (reader : option error) : result () :=
  if missing then Fail (Sentinel ErrIncompleteExporterComponents)
  else match reader with
       | Some err => Fail (Errorf "create Prometheus reader: %w" [] [err])
       | None => Ok ()
       end.

(** The guard of [RunController]; the parts given to [New] pass it. *)
Definition RunController_guard (missing : bool) : option error :=
  if missing then Some (Sentinel ErrIncompleteControllerComponents) else None.

(** The probes: the answer of [/readyz] and of [/healthz]. *)
Definition readyz (p : proc) (request : option error) (runtime_ready : bool) : nat :=
  if negb (p_running p) || bool_decide (is_Some request) || negb runtime_ready then 503 else 200.
Definition healthz (p : proc) : nat := 200.

(** ** Errors kept *)

(** [e] is the error [r] or wrapped in it. *)
Inductive wrapped_in (e : error) : error → Prop :=
  | wrapped_here : wrapped_in e e
  | wrapped_below format args errs r : r ∈ errs → wrapped_in e r → wrapped_in e (Errorf format args errs).

(** An error, when there is one, can be found in the one reported. *)
Definition reports (err reported : option error) : Prop :=
  ∀ e, err = Some e → ∃ r, reported = Some r ∧ wrapped_in e r.

Lemma reports_None reported : reports None reported.
Proof. done. Qed.

Lemma reports_refl err : reports err err.
Proof. intros e ->. exists e. split; [done|constructor]. Qed.

Lemma reports_join_l err a b : reports err a → reports err (join a b).
Proof.
  intros Hr e He. destruct (Hr e He) as (r & -> & Hw). unfold join. cbn. eexists. split; [done|].
  eapply wrapped_below; [by left|done].
Qed.

Lemma reports_join_r err a b : reports err b → reports err (join a b).
Proof.
  intros Hr e He. destruct (Hr e He) as (r & -> & Hw). unfold join. destruct a; cbn; (eexists; split; [done|]);
    (eapply wrapped_below; [|done]); set_solver.
Qed.

Lemma reports_shutdown err shutdown close : reports err (shutdown_error err shutdown close).
Proof.
  destruct shutdown as [s|]; [|apply reports_refl]. intros e ->. cbn. eexists. split; [done|].
  eapply wrapped_below; [by left|constructor].
Qed.

Lemma reports_shutdown_trans se err shutdown close : reports se err → reports se (shutdown_error err shutdown close).
Proof.
  destruct shutdown as [s|]; [|done]. intros Hr e He. destruct (Hr e He) as (r & -> & Hw). cbn.
  eexists. split; [done|]. eapply wrapped_below; [by left|done].
Qed.

Lemma reports_inventory err inventoryErr : reports inventoryErr (join_inventory err inventoryErr).
Proof.
  intros e ->. cbn. apply reports_join_r with (err := Some e); [|done]. intros e' [= <-].
  eexists. split; [done|]. eapply wrapped_below; [by left|constructor].
Qed.

(** An error of the inventory is never taken for the end of the context. *)
Lemma reports_runtime err ctx_err inventoryErr :
  reports inventoryErr (runtime_error ctx_err (join_inventory err inventoryErr)).
Proof.
  destruct inventoryErr as [e|]; [|done]. pose proof (reports_inventory err (Some e)) as Hr.
  unfold join_inventory, join in *. cbn in *. destruct err; cbn in *; destruct ctx_err as [[]|]; cbn; done.
Qed.

Create HintDb reports.
#[local] Hint Resolve reports_None reports_refl reports_join_l reports_join_r reports_shutdown
  reports_shutdown_trans reports_inventory : reports.

(** ** The invariant of serving *)

Definition quiet (p : proc) : Prop := p_runtime p = R_None ∧ p_inventory p = I_None ∧ p_server p = S_None.

Definition flags (p : proc) : bool * bool * bool := (p_running p, p_registered p, p_provider p).

Definition started (p : proc) : Prop := p_runtime p ≠ R_None ∧ p_server p ≠ S_None.

Definition joined (p : proc) (err : option error) : Prop :=
  ∃ re se, p_runtime p = R_Done re ∧ p_server p = S_Sent se ∧ reports re err ∧ reports se err.

Definition main_wf (p : proc) : Prop :=
  match p_main p with
  | M_Listen => quiet p ∧ p_listener p = Unbound ∧ flags p = (false, false, false)
  | M_Serve | M_Register => quiet p ∧ p_listener p = Open ∧ flags p = (false, false, false)
  | M_Select => started p ∧ flags p = (true, true, false)
  | M_Stop err stopped => started p ∧ flags p = (true, true, false) ∧ (stopped = true → p_server p = S_Sent err)
  | M_Shutdown err stopped =>
      started p ∧ flags p = (false, true, false) ∧ is_Some (p_run p) ∧ (stopped = true → p_server p = S_Sent err)
  | M_JoinRuntime err stopped =>
      started p ∧ flags p = (false, true, false) ∧ is_Some (p_run p) ∧
      (stopped = true → ∃ se, p_server p = S_Sent se ∧ reports se err)
  | M_JoinServer err =>
      started p ∧ flags p = (false, true, false) ∧ is_Some (p_run p) ∧ ∃ re, p_runtime p = R_Done re
  | M_Unregister err => joined p err ∧ flags p = (false, true, false)
  | M_Provider err => (quiet p ∧ p_listener p ≠ Open ∨ joined p err) ∧ flags p = (false, false, false)
  | M_Done err => (quiet p ∧ p_listener p ≠ Open ∨ joined p err) ∧ flags p = (false, false, true)
  end.

Lemma main_wf_order p : main_wf p → p_provider p = true → p_registered p = false.
Proof. unfold main_wf, flags. intros Hw Hp. destruct (p_main p); destruct_and?; simplify_eq; congruence. Qed.

Lemma main_wf_registered p :
  main_wf p → p_registered p = false →
  (p_runtime p = R_None ∧ p_server p = S_None) ∨ ∃ re se, p_runtime p = R_Done re ∧ p_server p = S_Sent se.
Proof.
  unfold main_wf, flags, quiet, joined. intros Hw Hp.
  destruct (p_main p); destruct_and?; simplify_eq; try congruence; try (left; split; congruence).
  all: match goal with H : _ ∨ _ |- _ => destruct H as [?|?] end; destruct_and?; try (by left); right; naive_solver.
Qed.

(** The inventory's answer and how much of it the runtime's answer keeps. *)
Definition inventory_sent (p : proc) (reported : option error) : Prop :=
  ∃ ie, (p_inventory p = I_Sent ie ∨ p_inventory p = I_Done ie) ∧ reports ie reported ∧ is_Some (p_inner p).

Definition runtime_wf (p : proc) : Prop :=
  match p_runtime p with
  | R_None | R_Start => p_inventory p = I_None
  | R_WaitLoaded | R_Run | R_Cancel _ => p_inventory p ≠ I_None ∧ (is_Some (p_run p) → is_Some (p_inner p))
  | R_Join _ => p_inventory p ≠ I_None ∧ is_Some (p_inner p)
  | R_Return err => ∃ err', err = join_inventory err' (match p_inventory p with I_Sent ie | I_Done ie => ie | _ => None end) ∧
                    inventory_sent p err
  | R_Done err => inventory_sent p err
  end ∧ match p_inventory p with I_Done _ => is_Some (p_inner p) | _ => True end.

Definition server_wf (p : proc) : Prop :=
  match p_server p with S_Sent _ => p_listener p = Closed | _ => True end.

Record inv (p : proc) : Prop := {
  inv_main : main_wf p;
  inv_runtime : runtime_wf p;
  inv_server : server_wf p;
}.

Lemma or_err_Some a e : is_Some (or_err a (Some e)).
Proof. destruct a; cbn; eauto. Qed.
Lemma or_err_mono a b : is_Some a → is_Some (or_err a b).
Proof. intros [x ->]. cbn. eauto. Qed.

#[local] Hint Resolve or_err_Some or_err_mono : reports.

Section invariant.
Context `{Components}.

Ltac open_proc p := destruct p as [main rt iv sv ctx run inner lst running registered provider].
Ltac unfold_wf := unfold main_wf, runtime_wf, server_wf, joined, started, quiet, flags, inventory_sent in *; cbn in *.

Lemma idle_inv main listener ctx :
  match main with
  | M_Listen => listener = Unbound | M_Serve => listener = Open
  | M_Provider _ => listener ≠ Open | _ => False
  end → inv (idle main listener ctx).
Proof. intros Hm. constructor; [|done|done]. destruct main; try done; unfold_wf; naive_solver. Qed.

Lemma cancel_ctx_inv e p : inv p → inv (cancel_ctx e p).
Proof.
  open_proc p. intros [Hm Hr Hs]. constructor; [| |exact Hs]; unfold_wf.
  - destruct main; naive_solver eauto with reports.
  - destruct rt, iv; naive_solver eauto with reports.
Qed.

(** A step of one goroutine: the fields it leaves alone keep their part. *)
Ltac goroutine p :=
  open_proc p; intros [Hm Hr Hs]; inversion 1; cbn in *; subst; constructor; unfold_wf; try done.

Lemma main_step_inv p p' : inv p → main_step p p' → inv p'.
Proof.
  goroutine p.
  all: try match goal with |- context [if ?b then _ else _] => destruct b end.
  all: try solve [naive_solver eauto with reports].
  destruct rt, iv; naive_solver eauto with reports.
Qed.

Lemma runtime_step_inv p p' : inv p → runtime_step p p' → inv p'.
Proof.
  goroutine p.
  all: try solve [destruct main; naive_solver eauto with reports].
  - destruct iv; naive_solver eauto with reports.
  - destruct Hr as [(err' & -> & ie & [-> | ->] & _ & Hi) Hv]; (split; [|done]); exists ie;
      eauto using reports_runtime.
Qed.

Lemma inventory_step_inv p p' : inv p → inventory_step p p' → inv p'.
Proof.
  goroutine p.
  all: solve [destruct main; naive_solver eauto with reports | destruct rt; naive_solver eauto with reports].
Qed.

Lemma server_step_inv p p' : inv p → server_step p p' → inv p'.
Proof. goroutine p. all: destruct main; naive_solver eauto with reports. Qed.

Lemma step_inv p p' : inv p → step p p' → inv p'.
Proof.
  intros Hp []; [by apply cancel_ctx_inv|by eapply main_step_inv|by eapply runtime_step_inv|
    by eapply inventory_step_inv|by eapply server_step_inv].
Qed.

Lemma served_inv p : served p → inv p.
Proof.
  induction 1 as [ctx p E|listener ctx p E|p p' _ IH Hstep].
  - injection E as <-. by apply (idle_inv M_Listen).
  - destruct listener; injection E as <-; [by apply (idle_inv M_Serve)|by apply (idle_inv (M_Provider _))].
  - by eapply step_inv.
Qed.
End invariant.

(** ** Every run ends *)

Definition main_rank (m : main_pc) : nat :=
  match m with
  | M_Listen => 10 | M_Serve => 9 | M_Register => 8 | M_Select => 7 | M_Stop _ _ => 6 | M_Shutdown _ _ => 5
  | M_JoinRuntime _ _ => 4 | M_JoinServer _ => 3 | M_Unregister _ => 2 | M_Provider _ => 1 | M_Done _ => 0
  end.

Definition runtime_rank (r : runtime_pc) : nat :=
  match r with
  | R_None => 7 | R_Start => 6 | R_WaitLoaded => 5 | R_Run => 4 | R_Cancel _ => 3 | R_Join _ => 2 | R_Return _ => 1
  | R_Done _ => 0
  end.

Definition inventory_rank (i : inventory_pc) : nat :=
  match i with I_None => 3 | I_Run => 2 | I_Sent _ => 1 | I_Done _ => 0 end.

Definition server_rank (s : server_pc) : nat := match s with S_None => 2 | S_Serve => 1 | S_Sent _ => 0 end.

(** How many steps are left at most. *)
Definition measure (p : proc) : nat :=
  main_rank (p_main p) + runtime_rank (p_runtime p) + inventory_rank (p_inventory p) + server_rank (p_server p) +
  match p_ctx p with None => 1 | Some _ => 0 end.

Section ends.
Context `{Components}.

Lemma step_measure p p' : inv p → step p p' → measure p' < measure p.
Proof.
  destruct p as [main rt iv sv ctx run inner lst running registered provider]. intros [Hm Hr _].
  unfold measure, main_wf, runtime_wf, quiet in *.
  inversion 1 as [? Hc|? Hs|? Hs|? Hs|? Hs]; [subst; cbn in *; subst; cbn; lia| | | |]; inversion Hs; cbn in *; subst;
    cbn; try lia.
  - destruct Hm as [(-> & _ & ->) _]. cbn. lia.
  - destruct stopped; cbn; lia.
  - destruct Hr as [-> _]. cbn. lia.
Qed.

Lemma served_Acc p : served p → Acc (λ p' p, step p p') p.
Proof.
  remember (measure p) as n eqn:En. revert p En. induction n as [n IH] using lt_wf_ind.
  intros p -> Hp. constructor. intros p' Hstep. eapply IH; [|done|by eapply served_step].
  apply step_measure; [by apply served_inv|done].
Qed.

(** A step the exporter takes by itself: not a cancellation by the caller, not a
    failure of the server. *)
Inductive own_step (p : proc) : proc → Prop :=
  | own_main p' : main_step p p' → own_step p p'
  | own_runtime p' : runtime_step p p' → own_step p p'
  | own_inventory p' : inventory_step p p' → own_step p p'
  | own_server err stopped :
      p_server p = S_Serve → p_main p = M_JoinRuntime err stopped ∨ p_main p = M_JoinServer err →
      own_step p (assign p_server (S_Sent None) (assign p_listener Closed p)).

Lemma own_step_step p p' : own_step p p' → step p p'.
Proof.
  destruct 1; [by apply step_main|by apply step_runtime|by apply step_inventory|].
  by eapply step_server, server_closed.
Qed.

(** Serving: every goroutine is in its component, and no context is done. *)
Definition serving (p : proc) : Prop :=
  p_main p = M_Select ∧ p_ctx p = None ∧ p_server p = S_Serve ∧
  (p_runtime p = R_WaitLoaded ∨ p_runtime p = R_Run) ∧ p_inventory p = I_Run ∧ p_inner p = None.

Context `{!ComponentsLaws}.

(** The runtime always moves on once it has to. *)
Lemma runtime_moves p :
  inv p → p_runtime p ≠ R_None → (∀ e, p_runtime p ≠ R_Done e) →
  (∃ p', own_step p p') ∨ (p_inner p = None ∧ (p_runtime p = R_WaitLoaded ∨ p_runtime p = R_Run)).
Proof.
  intros [_ [Hr Hv] _] Hn Hd.
  destruct (p_runtime p) eqn:Er; try done.
  - left. eexists. by apply own_runtime, runtime_start.
  - destruct (p_inner p) as [e|] eqn:Ei; [left|by right; auto].
    destruct (wait_loaded_done e) as [[err|] Hw]; rewrite <- Ei in Hw;
      eexists; apply own_runtime; [by eapply runtime_not_loaded|by apply runtime_loaded].
  - destruct (p_inner p) as [e|] eqn:Ei; [left|by right; auto].
    destruct (run_runtime_done e) as [err Hw]. rewrite <- Ei in Hw. eexists. by eapply own_runtime, runtime_run.
  - left. eexists. by eapply own_runtime, runtime_cancel.
  - left. destruct Hr as [Hni [e Hi']]. destruct (p_inventory p) as [| |ie|ie] eqn:Ev; [done| | |].
    + destruct (run_definitions_done e) as [derr Hdef]. rewrite <- Hi' in Hdef. eexists. by eapply own_inventory, inventory_return.
    + eexists. eapply own_runtime, runtime_join; [done|by left].
    + eexists. eapply own_runtime, runtime_join; [done|by right].
  - left. eexists. by eapply own_runtime, runtime_return.
  - by edestruct Hd.
Qed.

Lemma is_done (r : runtime_pc) : (∃ e, r = R_Done e) ∨ ∀ e, r ≠ R_Done e.
Proof. destruct r; try (right; intros ?; discriminate). left. by eexists. Qed.

Lemma select_moves p : inv p → p_main p = M_Select → (∃ p', own_step p p') ∨ serving p.
Proof.
  intros Hp Em. pose proof (inv_main p Hp) as Hm. unfold main_wf in Hm. rewrite Em in Hm.
  destruct Hm as [[Hrn Hsn] _].
  destruct (p_ctx p) as [e|] eqn:Ec; [left; eexists; apply own_main, main_select_ctx; by eauto|].
  destruct (is_done (p_runtime p)) as [[e He]|Hd]; [left; eexists; by eapply own_main, main_select_runtime|].
  destruct (p_server p) as [| |e] eqn:Es; [done| |left; eexists; by eapply own_main, main_select_server].
  destruct (runtime_moves p Hp Hrn Hd) as [?|[Hi Hr]]; [by left|].
  destruct (inv_runtime p Hp) as [Hw Hv].
  destruct (p_inventory p) as [| |ie|ie] eqn:Ev.
  - destruct Hr as [Hr|Hr]; rewrite Hr in Hw; naive_solver.
  - by right.
  - left. eexists. by eapply own_inventory, inventory_cancel.
  - rewrite Hi in Hv. by destruct Hv.
Qed.

Lemma serve_moves p : inv p → (∃ err, p_main p = M_Done err) ∨ (∃ p', own_step p p') ∨ serving p.
Proof.
  intros Hp. pose proof (inv_main p Hp) as Hm. unfold main_wf in Hm.
  destruct (p_main p) as [| | | |err st|err st|err st|err|err|err|err] eqn:Em; [right..|by left; eexists].
  - left. destruct (p_ctx p) eqn:Ec; eexists; apply own_main; [apply main_cancelled; by eauto|by apply main_listen].
  - left. destruct (p_ctx p) eqn:Ec; eexists; apply own_main;
      [apply (main_serve_cancelled _ None); by eauto|by apply main_serve].
  - left. eexists. by apply own_main, main_register.
  - by apply select_moves.
  - left. eexists. by eapply own_main, main_stop.
  - left. eexists. by apply own_main, (main_shutdown _ err st None None).
  - left. destruct Hm as ([Hrn _] & _ & Hrun & _).
    destruct (is_done (p_runtime p)) as [[e He]|Hd]; [eexists; by eapply own_main, main_join_runtime|].
    destruct (runtime_moves p Hp Hrn Hd) as [?|[Hi Hr]]; [done|exfalso].
    destruct (inv_runtime p Hp) as [Hw _].
    destruct Hr as [Hr|Hr]; rewrite Hr in Hw; destruct Hw as [_ Hw]; apply Hw in Hrun; rewrite Hi in Hrun;
      by destruct Hrun.
  - left. destruct Hm as ([_ Hsn] & _ & _ & re & Hre). destruct (p_server p) as [| |se] eqn:Es; [done| |].
    + eexists. apply (own_server _ err false); [done|by right].
    + eexists. by eapply own_main, main_join_server.
  - left. eexists. by apply own_main, (main_unregister _ err None).
  - left. eexists. by apply own_main, (main_provider _ err None).
Qed.
End ends.

(** ** Properties *)

Section properties.
Context `{Components}.

(** C27: at every moment of a run of [Serve] or [ServeListener], the meter
    provider is shut down only after the collector was unregistered, and the
    collector is not registered only before the parts are started or after the
    runtime and the server have ended.  When it returns, nothing it started goes
    on: the runtime, the inventory and the server have ended, the collector is
    unregistered, the provider shut down, the listener closed and the exporter not
    ready; and an error of the server, of the runtime or of the inventory can be
    found in the error returned. *)
Theorem Serve_joins p :
  served p →
  (p_provider p = true → p_registered p = false) ∧
  (p_registered p = false →
   (p_runtime p = R_None ∧ p_server p = S_None) ∨ ∃ re se, p_runtime p = R_Done re ∧ p_server p = S_Sent se) ∧
  ∀ err, p_main p = M_Done err →
  p_running p = false ∧ p_registered p = false ∧ p_provider p = true ∧ p_listener p ≠ Open ∧
  (∀ request ready, readyz p request ready = 503) ∧
  ((p_runtime p = R_None ∧ p_inventory p = I_None ∧ p_server p = S_None) ∨
   ∃ re ie se, p_runtime p = R_Done re ∧ (p_inventory p = I_Sent ie ∨ p_inventory p = I_Done ie) ∧
     p_server p = S_Sent se ∧ reports re err ∧ reports se err ∧ reports ie re).
Proof.
  intros Hp%served_inv. destruct Hp as [Hm [Hr Hv] Hs]. split; [by apply main_wf_order|].
  split; [by apply main_wf_registered|]. intros err Em. unfold main_wf in Hm. rewrite Em in Hm.
  destruct Hm as [Hm [= Hrun Hreg Hprov]]. unfold readyz. rewrite Hrun. split_and!; try done.
  - destruct Hm as [[_ ?]|(re & se & _ & Ese & _)]; [done|]. unfold server_wf in Hs. rewrite Ese in Hs. congruence.
  - destruct Hm as [[Hq _]|(re & se & Ere & Ese & ? & ?)]; [by left|right]. rewrite Ere in Hr.
    destruct Hr as (ie & ? & ? & _). by exists re, ie, se.
Qed.

(** C11: a run of the exporter never goes on for ever, and it only comes to rest
    when it has returned or while every part is at work under contexts that are not
    done; so once the caller's context is done, or any part has ended, it returns,
    given components that can return when their context is done. *)
Theorem Serve_ends p (Hlaws : ComponentsLaws) :
  served p →
  Acc (λ p' p, step p p') p ∧
  ((∃ err, p_main p = M_Done err) ∨ (∃ p', own_step p p' ∧ served p') ∨ serving p).
Proof.
  intros Hp. split; [by apply served_Acc|].
  destruct (serve_moves p (served_inv p Hp)) as [?|[[p' Hstep]|?]]; [by left| |by right; right].
  right. left. exists p'. split; [done|]. eapply served_step; [exact Hp|]. by apply own_step_step.
Qed.
End properties.

(** ** Concrete runs *)

(** Components that work until their context is done and then return nothing. *)
#[local] Instance sample_components : Components := {
  run_definitions ctx err := is_Some ctx ∧ err = None;
  wait_loaded ctx err := err = ctx;
  run_runtime ctx err := is_Some ctx ∧ err = None;
}.

#[local] Instance sample_components_laws : ComponentsLaws.
Proof. split; intros e; [exists None|exists (Some e)|exists None]; cbn; eauto. Qed.

(** Served, cancelled and shut down without an error. *)
Definition sample_final : proc :=
  MkProc (M_Done None) (R_Done None) (I_Done None) (S_Sent None) (Some Canceled) (Some Canceled) (Some Canceled)
    Closed false false true.

(** The next state by one step; its side conditions hold by computation. *)
Tactic Notation "take_step" hyp(Hs) uconstr(kind) uconstr(rule) :=
  let H' := fresh in
  eassert (H' : served _);
    [eapply (served_step _ _ Hs), kind, rule; first [reflexivity | by left | by eexists | by split; [eexists|]]|];
  cbn in H'; clear Hs; rename H' into Hs.

Lemma sample_served : served sample_final.
Proof.
  pose proof (served_Serve None _ eq_refl) as Hs; cbn in Hs.
  take_step Hs step_main main_listen.
  take_step Hs step_main main_serve.
  take_step Hs step_main main_register.
  take_step Hs step_runtime runtime_start.
  take_step Hs step_runtime runtime_loaded.
  eassert (Hs' : served _); [by eapply (served_step _ _ Hs), (step_ctx _ "context canceled")|]; cbn in Hs'; clear Hs.
  take_step Hs' step_main main_select_ctx.
  take_step Hs' step_main main_stop.
  take_step Hs' step_main (main_shutdown _ _ _ None None).
  take_step Hs' step_server server_closed.
  take_step Hs' step_runtime (runtime_run _ None).
  take_step Hs' step_runtime runtime_cancel.
  take_step Hs' step_inventory (inventory_return _ None).
  take_step Hs' step_runtime runtime_join.
  take_step Hs' step_inventory inventory_cancel.
  take_step Hs' step_runtime runtime_return.
  take_step Hs' step_main main_join_runtime.
  take_step Hs' step_main main_join_server.
  take_step Hs' step_main (main_unregister _ _ None).
  take_step Hs' step_main (main_provider _ _ None).
  exact Hs'.
Qed.

Lemma Serve_joins_witness : p_provider sample_final = true ∧ p_listener sample_final ≠ Open.
Proof.
  destruct (Serve_joins sample_final sample_served) as (_ & _ & Hd).
  destruct (Hd None eq_refl) as (_ & _ & Hp & Hl & _). exact (conj Hp Hl).
Defined.

(** With the caller's context done from the start, it has yet to return. *)
Lemma Serve_ends_witness :
  Acc (λ p' p, step p p') (idle M_Listen Unbound (Some Canceled)).
Proof.
  exact (proj1 (Serve_ends (idle M_Listen Unbound (Some Canceled)) sample_components_laws
                  (served_Serve (Some Canceled) _ eq_refl))).
Defined.
