(* ===== verification/InventoryRun.v ===== *)
(** * InventoryRun: the goroutines around the definition inventory

    Models [Run] and [WaitLoaded] of
    [dsx-workload-exporter/pkg/kartadefinitioninventory/inventory.go] as the
    exporter runs them, one goroutine each under the same context, and answers
    with them for the components [ExporterProcess] leaves open.  A state keeps
    the log of the steps of [Inventory] taken so far, so the inventory at any
    time is [execute] of the log.  The reflector of client-go is not under
    [src/]: while [Run] lasts it may take any step of [Inventory] that belongs
    to it, in any order, and it returns once its context is done, as its
    documentation says; what [forward] relays may still come after that. *)

From S2P Require Import Prelude Text Api JqValidate Validator Sort Catalog Discovery Inventory ExporterProcess.

(** [Run]: before its first line, in its body, and returned. *)
Inductive run_pc := Rn_Start | Rn_Body | Rn_Returned (err : option error).

(** [WaitLoaded]: before its first line, at the outer [select], in the branch of
    [i.done] before and after it asks the context, and returned. *)
Inductive wait_pc := Wt_Start | Wt_Select | Wt_Done | Wt_Recheck | Wt_Returned (err : option error).

Section goroutines.
Context (Parse : string → result aval) (meta status : list rfield).
Context {objects : Unstructureds}.
Context (i0 : Inventory).

#[local] Abbreviation execute := (execute Parse meta status).

(** [g_ctx] is the answer of [Err] of the context both were called with. *)
Record goroutines := MkGoroutines {
  g_ctx : option error;
  g_log : list operation;
  g_run : run_pc;
  g_wait : wait_pc;
}.

Definition inventory_of (g : goroutines) : Inventory := execute i0 (g_log g).

(** The steps of the reflector and of what it calls; [forward] runs in a
    goroutine of its own. *)
Definition reflector_operation (op : operation) : bool :=
  match op with OpStart | OpReceive | OpStop => false | _ => true end.
Definition forward_operation (op : operation) : bool :=
  match op with OpForward _ _ _ _ _ _ => true | _ => false end.

Inductive run_step (g : goroutines) : goroutines → Prop :=
  | run_refused err :
      g_run g = Rn_Start → (start (inventory_of g)).1 = Fail err →
      run_step g (MkGoroutines (g_ctx g) (g_log g ++ [OpStart]) (Rn_Returned (Some err)) (g_wait g))
  | run_started :
      g_run g = Rn_Start → (start (inventory_of g)).1 = Ok () →
      run_step g (MkGoroutines (g_ctx g) (g_log g ++ [OpStart]) Rn_Body (g_wait g))
  | run_reflector op :
      g_run g = Rn_Body → f_enabled (inv_clusterFilter (inventory_of g)) = true → reflector_operation op = true →
      run_step g (MkGoroutines (g_ctx g) (g_log g ++ [op]) Rn_Body (g_wait g))
  | run_forward op err :
      g_run g = Rn_Returned err → f_enabled (inv_clusterFilter (inventory_of g)) = true → forward_operation op = true →
      run_step g (MkGoroutines (g_ctx g) (g_log g ++ [op]) (Rn_Returned err) (g_wait g))
  | run_returns :
      g_run g = Rn_Body → is_Some (g_ctx g) →
      run_step g (MkGoroutines (g_ctx g) (g_log g ++ [OpStop]) (Rn_Returned None) (g_wait g)).

(** [WaitLoaded] from one of its waits to the next; a [select] with several
    channels ready takes any of them. *)
Inductive wait_step (ctx : option error) (i : Inventory) : wait_pc → wait_pc → Prop :=
  | wait_refused e : ctx = Some e → wait_step ctx i Wt_Start (Wt_Returned (Some e))
  | wait_begins : ctx = None → wait_step ctx i Wt_Start Wt_Select
  | wait_loaded_ : inv_loaded i = true → wait_step ctx i Wt_Select (Wt_Returned None)
  | wait_done : inv_done i = true → wait_step ctx i Wt_Select Wt_Done
  | wait_cancelled e : ctx = Some e → wait_step ctx i Wt_Select (Wt_Returned (Some e))
  | wait_done_cancelled e : ctx = Some e → wait_step ctx i Wt_Done (Wt_Returned (Some e))
  | wait_done_alive : ctx = None → wait_step ctx i Wt_Done Wt_Recheck
  | wait_recheck_loaded : inv_loaded i = true → wait_step ctx i Wt_Recheck (Wt_Returned None)
  | wait_recheck_not : inv_loaded i = false →
      wait_step ctx i Wt_Recheck
        (Wt_Returned (Some (Errorf "%w: %w" [] [Sentinel ErrUnavailable; Sentinel errStopped]))).

Inductive go_step (g : goroutines) : goroutines → Prop :=
  | go_cancel e : g_ctx g = None → go_step g (MkGoroutines (Some e) (g_log g) (g_run g) (g_wait g))
  | go_receive : go_step g (MkGoroutines (g_ctx g) (g_log g ++ [OpReceive]) (g_run g) (g_wait g))
  | go_run g' : run_step g g' → go_step g g'
  | go_wait pc :
      wait_step (g_ctx g) (inventory_of g) (g_wait g) pc →
      go_step g (MkGoroutines (g_ctx g) (g_log g) (g_run g) pc).

Inductive running : goroutines → Prop :=
  | running_start ctx : running (MkGoroutines ctx [] Rn_Start Wt_Start)
  | running_step g g' : running g → go_step g g' → running g'.
End goroutines.

(** ** The channels *)

Section channels.
Context (Parse : string → result aval) (meta status : list rfield).
Context {objects : Unstructureds}.
Implicit Types (i : Inventory) (op : operation) (ops : list operation).

#[local] Abbreviation step := (Inventory.step Parse meta status).
#[local] Abbreviation execute := (execute Parse meta status).
#[local] Abbreviation applies := (applies Parse meta status).

Definition is_start op : bool := match op with OpStart => true | _ => false end.

(** [loaded] and [done] are closed, and [started] is set, by one step each. *)
Lemma step_channels i op :
  inv_loaded (step i op) = inv_loaded i || applies (inv_clusterFilter i) op ∧
  inv_done (step i op) = inv_done i || is_stop op ∧
  inv_started (step i op) = inv_started i || is_start op.
Proof.
  destruct op as [|c|answer|streaming|invalid streaming answer|now started stopping cancelled event fw
    |obj|obj|obj|l now| | |]; cbn;
    unfold start, list_begin, list_end, startWatch_begin, startWatch_end, forward_event, failWatch,
      Update, Add, Delete, Replace, beginWatch;
    repeat (case_match; simplify_eq/=); rewrite ?orb_false_r, ?orb_true_r; done.
Qed.

Lemma execute_channels i ops :
  inv_loaded (execute i ops) = inv_loaded i || existsb (applies (inv_clusterFilter i)) ops ∧
  inv_done (execute i ops) = inv_done i || existsb is_stop ops ∧
  inv_started (execute i ops) = inv_started i || existsb is_start ops.
Proof.
  induction ops as [|op ops (IH1 & IH2 & IH3)] using rev_ind; [by cbn; rewrite !orb_false_r|].
  rewrite execute_snoc, !existsb_app. cbn [existsb]. rewrite !orb_false_r, !orb_assoc, <- IH1, <- IH2, <- IH3.
  destruct (step_channels (execute i ops) op) as (-> & -> & ->). by rewrite (proj2 (execute_fixed _ _ _ i ops)).
Qed.
End channels.

(** ** What holds while both run *)

Section runs.
Context (Parse : string → result aval) (meta status : list rfield).
Context {errors : KubernetesErrors} {versions : VersionOrder} {objects : Unstructureds}.
Context (catalogDefinitions : list Karta) (client : bool) (config : Config) (i0 : Inventory).
Context (Hnew : Inventory.New Parse meta status catalogDefinitions client config = Ok i0).
#[local] Set Default Proof Using "Type*".

#[local] Abbreviation running := (running Parse meta status i0).
#[local] Abbreviation go_step := (go_step Parse meta status i0).
#[local] Abbreviation inventory_of := (inventory_of Parse meta status i0).
#[local] Abbreviation applies := (applies Parse meta status).

Lemma New_channels :
  inv_loaded i0 = negb (src_Enabled (cfg_Cluster config)) ∧ inv_done i0 = false ∧ inv_started i0 = false ∧
  f_enabled (inv_clusterFilter i0) = src_Enabled (cfg_Cluster config).
Proof.
  destruct (New_fields _ _ _ _ _ _ _ Hnew) as (_ & Hen & _). revert Hen. unfold Inventory.New in Hnew.
  destruct (_ <? 0)%Z; [done|].
  destruct (compileSource SourceCatalog _ _) as [catalogFilter e1], (compileSource SourceCluster _ _) as [clusterFilter e2].
  destruct (errors_Join _); [done|]. destruct (_ && _); [done|]. injection Hnew as <-. cbn. intros ->. done.
Qed.

(** Was a complete list of the cluster applied? *)
Definition list_in (ops : list operation) : bool := existsb (applies (inv_clusterFilter i0)) ops.

Lemma list_in_spec ops :
  list_in ops = true ↔
  ∃ list_ now, OpReplace list_ now ∈ ops ∧
    is_ok (decode_list Parse meta status (inv_clusterFilter i0) list_ ∅) = true.
Proof using Type.
  unfold list_in. rewrite existsb_exists. split.
  - intros (op & Hin%list_elem_of_In & Hop). destruct op as [| | | | | | | | |list_ now| | |]; try done. eauto.
  - intros (list_ & now & Hin%list_elem_of_In & Hok). by eexists.
Qed.

Lemma inventory_channels g :
  inv_loaded (inventory_of g) = negb (src_Enabled (cfg_Cluster config)) || list_in (g_log g) ∧
  inv_done (inventory_of g) = existsb is_stop (g_log g) ∧
  inv_started (inventory_of g) = existsb is_start (g_log g).
Proof.
  destruct New_channels as (El & Ed & Es & _).
  destruct (execute_channels Parse meta status i0 (g_log g)) as (Hl & Hd & Hs).
  unfold InventoryRun.inventory_of, list_in. by rewrite Hl, Hd, Hs, El, Ed, Es.
Qed.

(** What [WaitLoaded] knows at each of its waits. *)
Definition wait_wf (ctx : option error) (loaded : bool) (pc : wait_pc) : Prop :=
  match pc with
  | Wt_Start | Wt_Select => True
  | Wt_Done => is_Some ctx
  | Wt_Recheck => False
  | Wt_Returned None => loaded = true
  | Wt_Returned (Some err) => ctx = Some err
  end.

Record both_wf (g : goroutines) : Prop := {
  wf_unstarted : g_run g = Rn_Start → existsb is_start (g_log g) = false;
  wf_stopped : existsb is_stop (g_log g) = true → is_Some (g_ctx g);
  wf_returned err : g_run g = Rn_Returned err → err = None ∧ existsb is_stop (g_log g) = true;
  wf_wait : wait_wf (g_ctx g) (inv_loaded (inventory_of g)) (g_wait g);
}.

(** A longer log closes no channel again. *)
Lemma loaded_snoc ctx log pc wait op ctx' pc' wait' :
  inv_loaded (inventory_of (MkGoroutines ctx log pc wait)) = true →
  inv_loaded (inventory_of (MkGoroutines ctx' (log ++ [op]) pc' wait')) = true.
Proof.
  rewrite !(proj1 (inventory_channels _)). cbn. unfold list_in. rewrite existsb_app.
  intros [->| ->]%orb_true_iff; by rewrite ?orb_true_r.
Qed.

Lemma wait_wf_snoc ctx log pc wait op pc' :
  wait_wf ctx (inv_loaded (inventory_of (MkGoroutines ctx log pc wait))) wait →
  wait_wf ctx (inv_loaded (inventory_of (MkGoroutines ctx (log ++ [op]) pc' wait))) wait.
Proof. destruct wait as [| | | |[|]]; try done. exact (loaded_snoc ctx log pc _ op ctx pc' _). Qed.

Lemma both_wf_log ctx log pc wait op pc' :
  both_wf (MkGoroutines ctx log pc wait) →
  (pc' = Rn_Start → pc = Rn_Start ∧ is_start op = false) →
  (is_stop op = true → is_Some ctx) →
  (∀ err, pc' = Rn_Returned err → err = None ∧ (is_stop op = true ∨ pc = Rn_Returned err)) →
  both_wf (MkGoroutines ctx (log ++ [op]) pc' wait).
Proof.
  intros [Hu Hs Hr Hw] Hu' Hs' Hr'. cbn in *. split; cbn.
  - intros [? Eo]%Hu'. rewrite existsb_app, Hu by done. cbn. by rewrite Eo.
  - rewrite existsb_app. cbn. rewrite orb_false_r, orb_true_iff. naive_solver.
  - intros err [-> Hop]%Hr'. split; [done|]. rewrite existsb_app. cbn. rewrite orb_false_r, orb_true_iff.
    destruct Hop as [?|?%Hr]; naive_solver.
  - exact (wait_wf_snoc ctx log pc wait op pc' Hw).
Qed.

Lemma both_wf_run g g' : run_step Parse meta status i0 g g' → both_wf g → both_wf g'.
Proof.
  destruct g as [ctx log pc wait]. intros Hstep Hg.
  pose proof (inventory_channels (MkGoroutines ctx log pc wait)) as (_ & _ & Est). cbn in Est.
  inversion Hstep as [err E1 E2|E1 E2|op E1 E2 E3|op err E1 E2 E3|E1 E2]; cbn in *; subst; clear Hstep;
    apply (both_wf_log _ _ _ _ _ _ Hg); try done.
  - intros ? [= <-]. exfalso. pose proof (wf_unstarted _ Hg eq_refl) as Eu. unfold start in E2. cbn in Eu. by rewrite Est, Eu in E2.
  - by destruct op.
  - by destruct op.
  - intros ? [= <-]. split; [|by right]. by destruct (wf_returned _ Hg err).
  - intros ? [= <-]. split; [done|by left].
Qed.

Lemma both_wf_wait g pc :
  wait_step (g_ctx g) (inventory_of g) (g_wait g) pc → both_wf g →
  wait_wf (g_ctx g) (inv_loaded (inventory_of g)) pc.
Proof.
  intros Hstep Hg. pose proof (wf_wait _ Hg) as Hw. destruct (inventory_channels g) as (_ & Ed & _).
  remember (g_wait g) as from eqn:Ef. destruct Hstep as [e Hc|Hc|Hl|Hd|e Hc|e Hc|Hc|Hl|Hl]; cbn in *; try done.
  - rewrite Ed in Hd. by apply (wf_stopped _ Hg).
  - rewrite Hc in Hw. by destruct Hw.
Qed.

Lemma running_wf g : running g → both_wf g.
Proof.
  induction 1 as [ctx|g g' _ IH Hstep]; [by split|]. destruct g as [ctx log pc wait].
  destruct Hstep as [e E| |g' Hrun|pc' Hwait]; cbn in *; subst.
  - destruct IH as [Hu Hs Hr Hw]. split; cbn in *; [done|by eauto|done|].
    destruct wait as [| | | |[|]]; try done; by eexists.
  - apply (both_wf_log _ _ _ _ _ _ IH); [by intros ->|done|].
    intros err E. split; [|by right]. by destruct (wf_returned _ IH err E).
  - by eapply both_wf_run.
  - pose proof (both_wf_wait (MkGoroutines ctx log pc wait) pc' Hwait IH). by destruct IH.
Qed.

(** Where [WaitLoaded] stands: returned, able to go on, or waiting for a list
    that has not come under a context that is not done. *)
Lemma wait_moves g :
  both_wf g →
  (∃ err, g_wait g = Wt_Returned err) ∨ (∃ pc, wait_step (g_ctx g) (inventory_of g) (g_wait g) pc) ∨
  (g_wait g = Wt_Select ∧ g_ctx g = None ∧ inv_loaded (inventory_of g) = false).
Proof.
  intros Hg. destruct (g_ctx g) as [e|] eqn:Ec.
  - pose proof (wf_wait _ Hg) as Hw. destruct (g_wait g) eqn:Ew; [..|by left; eauto]; right; left; try by destruct Hw.
    all: exists (Wt_Returned (Some e)); by constructor.
  - pose proof (wf_wait _ Hg) as Hw. rewrite Ec in Hw. destruct (g_wait g) eqn:Ew; [| | |done|by left; eauto].
    + right; left. eexists. by apply wait_begins.
    + destruct (inv_loaded (inventory_of g)) eqn:El; [|by right; right].
      right; left. eexists. by apply wait_loaded_.
    + by destruct Hw.
Qed.

(** Under a context that is done both may have returned. *)
Lemma both_return e :
  running (MkGoroutines (Some e) [OpStart; OpStop] (Rn_Returned None) (Wt_Returned (Some e))).
Proof.
  destruct New_channels as (_ & _ & Est & _).
  eapply running_step; [eapply running_step; [eapply running_step; [apply (running_start _ _ _ _ (Some e))|]|]|].
  - by eapply go_wait, wait_refused.
  - apply go_run, run_started; [done|]. unfold start. cbn. by rewrite Est.
  - apply go_run. eapply run_returns; [done|by eexists].
Qed.

(** ** The exporter with this inventory *)

(** [Definitions.Run] and [Definitions.WaitLoaded] answered by the goroutines
    above, next to any controller. *)
Definition inventory_components (run_runtime : option error → option error → Prop) : Components := {|
  ExporterProcess.run_definitions ctx err := ∃ g, running g ∧ g_ctx g = ctx ∧ g_run g = Rn_Returned err;
  ExporterProcess.wait_loaded ctx err := ∃ g, running g ∧ g_ctx g = ctx ∧ g_wait g = Wt_Returned err;
  ExporterProcess.run_runtime := run_runtime;
|}.

Lemma inventory_components_laws (run_runtime : option error → option error → Prop) :
  (∀ e, ∃ err, run_runtime (Some e) err) →
  @ComponentsLaws (inventory_components run_runtime).
Proof.
  intros Hr. split; intros e; cbn; [| |done]; pose proof (both_return e) as Hg; by do 2 eexists.
Qed.

Lemma definitions_answer ctx err run_runtime :
  ExporterProcess.run_definitions (Components := inventory_components run_runtime) ctx err →
  err = None ∧ is_Some ctx.
Proof.
  intros (g & Hg%running_wf & <- & Er). destruct (wf_returned _ Hg _ Er) as [-> Hs].
  split; [done|]. by apply (wf_stopped _ Hg).
Qed.
End runs.

(** What the goroutine of the inventory has sent. *)
Definition sent (p : proc) (inventoryErr : option error) : Prop :=
  p_inventory p = I_Sent inventoryErr ∨ p_inventory p = I_Done inventoryErr.

Lemma step_sent `{Components} p p' inventoryErr :
  (∀ ctx err, ExporterProcess.run_definitions ctx err → inventory_error ctx err = None) →
  (∀ ie, sent p ie → ie = None) → ExporterProcess.step p p' → sent p' inventoryErr → inventoryErr = None.
Proof.
  intros Hdef Hp Hstep Hs. destruct Hstep as [e E|p' Hm|p' Hr|p' Hi|p' Hserver].
  - apply Hp. by destruct p.
  - apply Hp. by destruct Hm, p.
  - destruct Hr; [|apply Hp; by destruct p..]. by destruct p, Hs.
  - destruct Hi as [err Ei Hd%Hdef|err Ei].
    + destruct p, Hs as [Hs|Hs]; cbn in *; congruence.
    + apply Hp. left. destruct p, Hs as [Hs|Hs]; cbn in *; congruence.
  - apply Hp. by destruct Hserver, p.
Qed.

(** ** Properties *)

(** C36: [WaitLoaded], under the context [Run] was given, answers the error of that
    context or, when it answers nil and the cluster source is enabled, a complete
    list of the cluster has been applied; it never answers that the inventory
    stopped.  [Run] returns without an error, and only when the context is done.
    [WaitLoaded] waits only for a list that has not come, under a context that is
    not done: otherwise it can go on. *)
Theorem WaitLoaded_exact Parse meta status `{KubernetesErrors, VersionOrder, Unstructureds}
    catalogDefinitions client config i0 g
    (Hnew : Inventory.New Parse meta status catalogDefinitions client config = Ok i0)
    (Hg : running Parse meta status i0 g) :
  (∀ err, g_wait g = Wt_Returned err →
     (∃ e, g_ctx g = Some e ∧ err = Some e) ∨
     (err = None ∧
      (src_Enabled (cfg_Cluster config) = true →
       ∃ list_ now, OpReplace list_ now ∈ g_log g ∧
         is_ok (decode_list Parse meta status (inv_clusterFilter i0) list_ ∅) = true))) ∧
  (∀ err, g_run g = Rn_Returned err → err = None ∧ is_Some (g_ctx g)) ∧
  ((∃ err, g_wait g = Wt_Returned err) ∨
   (∃ pc, wait_step (g_ctx g) (inventory_of Parse meta status i0 g) (g_wait g) pc) ∨
   (g_wait g = Wt_Select ∧ g_ctx g = None ∧ src_Enabled (cfg_Cluster config) = true ∧
    ∀ list_ now, OpReplace list_ now ∈ g_log g →
      is_ok (decode_list Parse meta status (inv_clusterFilter i0) list_ ∅) = false)).
Proof.
  pose proof (running_wf _ _ _ _ _ _ _ Hnew _ Hg) as Hwf.
  destruct (inventory_channels _ _ _ _ _ _ _ Hnew g) as (El & _ & _). split_and!.
  - intros [err|] Ew; pose proof (wf_wait _ _ _ _ _ Hwf) as Hw; rewrite Ew in Hw; cbn in Hw; [by left; eauto|].
    right. split; [done|]. intros Hen. rewrite El, Hen in Hw. by apply list_in_spec.
  - intros err Er. destruct (wf_returned _ _ _ _ _ Hwf _ Er) as [-> Hs]. split; [done|].
    by apply (wf_stopped _ _ _ _ _ Hwf).
  - destruct (wait_moves _ _ _ _ _ _ _ Hnew g Hwf) as [?|[?|(Ew & Ec & Hl)]]; [by left|by right; left|].
    right; right. rewrite El in Hl. apply orb_false_iff in Hl as [Hen Hl].
    split_and!; [done|done|by apply negb_false_iff in Hen|]. intros list_ now Hop.
    apply not_true_is_false. intros Hok. apply not_true_iff_false in Hl. apply Hl, list_in_spec. eauto.
Qed.

(** The exporter with this inventory, and any controller that can return once its
    context is done, still ends; and the inventory contributes no error to it: that
    it stopped before the cancellation is never reported. *)
Theorem Serve_with_inventory Parse meta status `{KubernetesErrors, VersionOrder, Unstructureds}
    catalogDefinitions client config i0 (run_runtime : option error → option error → Prop) p
    (Hnew : Inventory.New Parse meta status catalogDefinitions client config = Ok i0)
    (Hruntime : ∀ e, ∃ err, run_runtime (Some e) err) :
  let components := inventory_components Parse meta status i0 run_runtime in
  @served components p →
  Acc (λ p' p, @ExporterProcess.step components p p') p ∧
  ((∃ err, p_main p = M_Done err) ∨
   (∃ p', @own_step components p p' ∧ @served components p') ∨ serving p) ∧
  ∀ inventoryErr, sent p inventoryErr → inventoryErr = None.
Proof.
  intros components Hp.
  pose proof (inventory_components_laws _ _ _ _ _ _ _ Hnew run_runtime Hruntime) as Hlaws.
  split; [by apply served_Acc|]. split.
  - destruct (serve_moves p (served_inv p Hp)) as [?|[[p' Hstep]|?]]; [by left| |by right; right].
    right; left. exists p'. split; [done|]. eapply served_step; [exact Hp|]. by apply own_step_step.
  - induction Hp as [ctx p [= <-]|listener ctx p Hl|p p' _ IH Hstep]; intros ie Hs.
    + by destruct Hs.
    + destruct listener; injection Hl as <-; by destruct Hs.
    + eapply step_sent; [|exact IH|exact Hstep|exact Hs]. intros ctx err Hd.
      destruct (definitions_answer _ _ _ _ _ _ _ Hnew ctx err run_runtime Hd) as [-> [e ->]]. done.
Qed.

(** ** Concrete runs *)

#[local] Existing Instance sample_unstructured.
#[local] Existing Instance sample_versions.

(** [Run] lists the cluster while [WaitLoaded] waits, which then answers nil. *)
Definition sample_goroutines : goroutines :=
  MkGoroutines None sample_ops Rn_Body (Wt_Returned None).

(** What the reflector lists in [sample_ops]. *)
Definition sample_list : list (object Unstructured) :=
  [Object_ (named "young" 7); Object_ (named "old" 3); Object_ (named "ignored" 1)].

Lemma sample_running i0 :
  sample_New = Ok i0 → running (λ _, Ok AScalar) [] [] i0 sample_goroutines.
Proof.
  intros E. vm_compute in E. injection E as <-.
  eapply running_step; [eapply running_step; [eapply running_step; [eapply running_step;
    [eapply running_step; [apply (running_start _ _ _ _ None)|]|]|]|]|].
  - apply go_run, run_started; reflexivity.
  - apply go_run, (run_reflector _ _ _ _ _ (OpListBegin "")); vm_compute; reflexivity.
  - eapply go_wait, wait_begins. reflexivity.
  - apply go_run, (run_reflector _ _ _ _ _ (OpReplace sample_list 5));
      vm_compute; reflexivity.
  - eapply go_wait, wait_loaded_. vm_compute. reflexivity.
Qed.

Lemma WaitLoaded_exact_witness :
  ∃ i0, sample_New = Ok i0 ∧
  ∃ list_ now, OpReplace list_ now ∈ sample_ops ∧
    is_ok (decode_list (λ _, Ok AScalar) [] [] (inv_clusterFilter i0) list_ ∅) = true.
Proof.
  destruct sample_New as [i0|e] eqn:E; [|vm_compute in E; discriminate E].
  exists i0. split; [reflexivity|].
  destruct (WaitLoaded_exact (λ _, Ok AScalar) [] [] [sample_karta] true sample_config i0 sample_goroutines
    E (sample_running i0 E)) as [Hw _].
  destruct (Hw None eq_refl) as [(e & He & _)|[_ Hl]]; [discriminate He|exact (Hl eq_refl)].
Defined.
