(* ===== verification/ExporterBootstrap.v ===== *)
(** * ExporterBootstrap: construction of the exporter

    Models [dsx-workload-exporter/pkg/bootstrap/components.go] and the command
    that runs it, [dsx-workload-exporter/cmd/main.go]: the configuration is
    handed to the constructors of the components, in their order, and the first
    failure ends it.  Making API clients is a parameter. *)

From S2P Require Import Prelude Api JqValidate Validator Value Sort Literal Store Discovery LabelResolver Inventory ControllerState ControllerReconcile ExporterConfig.

(** The client configuration: what the exporter sets of it, and the rest. *)
Record RestConfig (B : Type) := MkRestConfig {
  rc_base : B;
  rc_WarningHandler : bool;
  rc_QPS : float32;
  rc_Burst : Z;
  rc_RateLimiter : option (float32 * Z);
}.
Arguments MkRestConfig {B}.
Arguments rc_base {B}.

Section construction.
Context `{!Kubernetes} `{!Numbers} `{!VersionOrder}.
Context (Parse : string → result aval) (meta status : list rfield) (catalogDefinitions : list Karta).
Context (gvk_String : GroupVersionKind → string).
Context {B U : Type} (compile : Compiler U).
(** Making the clients from a configuration. *)
Context (dynamic_NewForConfig metadata_NewForConfig discovery_NewForConfig : RestConfig B → result ()).

(** What the constructor of the discoverer keeps. *)
Definition discovery_New (reader : bool) (ignored : list GroupVersionKind) : result (gset GroupVersionKind) :=
  if reader then Ok (list_to_set ignored) else Fail (Sentinel ErrReaderRequired).

Definition configured (cfg : ExporterConfig.Config) (kube : RestConfig B) : RestConfig B :=
  MkRestConfig (rc_base kube) true (ec_APIQPS cfg) (ec_APIBurst cfg) (Some (ec_APIQPS cfg, ec_APIBurst cfg)).

Definition inventory_config (cfg : ExporterConfig.Config) (timeout : Z) : Inventory.Config :=
  let c := InventoryConfig (ec_KartaDefinitionSource cfg) in
  Inventory.MkConfig (cfg_Catalog c) (cfg_Cluster c) timeout.

Definition label_config (cfg : ExporterConfig.Config) : LabelResolver.Config :=
  LabelResolver.MkConfig (ec_Rules cfg) (ec_Limits cfg).

Definition controller_config (cfg : ExporterConfig.Config) : ControllerState.Config :=
  ControllerState.MkConfig _ (ec_IgnoredOwnerKinds cfg) (ec_ResourceRules cfg) (ec_ExcludeResourceRules cfg)
    (ec_NamespaceSelector cfg) (ec_ObjectSelector cfg) (ec_PodSelector cfg)
    (ds_Enabled (kd_Cluster (ec_KartaDefinitionSource cfg))) (ec_RequiredKinds cfg)
    (ec_Workers cfg) (ec_LeafWorkers cfg) (ec_RootWorkers cfg).

(** The components, with what they are made of that the code hands over. *)
Record Parts := MkParts {
  pt_Runtime : Settings * State;
  pt_Store : Store;
  pt_Definitions : Inventory;
  pt_Ignored : gset GroupVersionKind;
  pt_Labels : resolver U;
  pt_ReaderTimeout : Z;
}.

Definition New (cfg : ExporterConfig.Config) (kubeConfig : option (RestConfig B)) : result Parts :=
  _ ← ExporterConfig.Validate gvk_String cfg;
  match kubeConfig with
  | None => Fail (External "kubernetes configuration is required")
  | Some kube =>
      timeout ← map_error (λ err, Errorf "requestTimeout: %w" [] [err]) (ParseDuration (ec_RequestTimeout cfg));
      let kube := configured cfg kube in
      _ ← dynamic_NewForConfig kube;
      _ ← metadata_NewForConfig kube;
      _ ← discovery_NewForConfig kube;
      reader ← NewReader false timeout;
      definitions ← Inventory.New Parse meta status catalogDefinitions true (inventory_config cfg timeout);
      ownership ← discovery_New true (ec_IgnoredOwnerKinds cfg);
      labels ← LabelResolver.New (label_config cfg) (Some compile);
      let publications := Store.New in
      runtime ← ControllerReconcile.New (controller_config cfg) false publications;
      Ok (MkParts runtime publications definitions ownership labels reader)
  end.

(** ** What construction needs *)

Lemma or_default_positive default n : (0 < default → 0 ≤ n → 0 < or_default default n)%Z.
Proof. unfold or_default. destruct (Z.eqb_spec n 0); lia. Qed.

Lemma selector_ok s : selector_wf s → ∃ sel, selector s = Ok sel.
Proof. destruct s as [s|]; cbn; [|by eexists]. destruct (LabelSelectorAsSelector s); [by eexists|done]. Qed.

(** A valid configuration is one the controller can be made from. *)
Lemma controller_New_valid cfg publications :
  valid cfg → ∃ runtime, ControllerReconcile.New (controller_config cfg) false publications = Ok runtime.
Proof.
  intros [_ _ (Hn & Ho & Hp) Hr _ _ _ _ Hw [Hl Hroot]]. unfold ControllerReconcile.New, ValidateResourceRules.
  cbn [cfg_ResourceRules cfg_ExcludeResourceRules controller_config].
  apply (validate_resource_rules_Ok 0) in Hr. rewrite Hr. cbn [mbind result_bind]. cbv zeta.
  destruct (with_defaults (controller_config cfg)) as [a b c ns os ps d e w lw rw] eqn:E.
  unfold with_defaults in E. cbn [controller_config cfg_IgnoredOwnerKinds cfg_ResourceRules cfg_ExcludeResourceRules
    cfg_NamespaceSelector cfg_ObjectSelector cfg_PodSelector cfg_ClusterDefinitions cfg_RequiredKinds cfg_Workers
    cfg_LeafWorkers cfg_RootWorkers] in *.
  injection E as _ _ _ Ens <- <- _ _ Ew Elw Erw.
  assert (0 < w)%Z by (subst w; unfold or_default; destruct (Z.eqb_spec (ec_Workers cfg) 0); lia).
  assert (0 < lw)%Z by (subst lw w; by apply or_default_positive).
  assert (0 < rw)%Z by (subst rw w; by apply or_default_positive).
  rewrite !(proj2 (Z.ltb_ge _ _)) by lia. cbn [orb].
  assert (Hns : selector_wf ns) by (subst ns; destruct (ec_NamespaceSelector cfg) as [n|]; [by destruct (no_terms n)|done]).
  destruct (selector_ok _ Hns) as [? ->], (selector_ok _ Ho) as [? ->], (selector_ok _ Hp) as [? ->].
  cbn [mbind result_bind]. by eexists.
Qed.

Definition compiles (cfg : ExporterConfig.Config) : Prop :=
  ∀ rule, rule ∈ ec_Rules cfg → is_ok (compile (lr_Expression rule) (ec_Limits cfg)) = true.

Lemma resolver_New_ok cfg :
  valid cfg → is_ok (LabelResolver.New (label_config cfg) (Some compile)) = true ↔ compiles cfg.
Proof.
  intros [[P1 P2] Hl _ _ _ _ _ _ _ _]. unfold LabelResolver.New, ValidateConfig, compiles. cbn [cfg_Limits cfg_Rules label_config].
  rewrite !(proj2 (Z.ltb_ge _ _)) by lia. cbn [orb].
  apply (validate_rules_Ok 0) in Hl. rewrite Hl. cbn [mbind result_bind]. symmetry. apply compile_rules_total.
Qed.

(** The clients can be made, and the source configuration is one the inventory accepts. *)
Definition connects (cfg : ExporterConfig.Config) (kube : RestConfig B) : Prop :=
  dynamic_NewForConfig (configured cfg kube) = Ok () ∧ metadata_NewForConfig (configured cfg kube) = Ok () ∧
  discovery_NewForConfig (configured cfg kube) = Ok ().

Definition sources_wf (cfg : ExporterConfig.Config) : Prop :=
  ∀ timeout, ParseDuration (ec_RequestTimeout cfg) = Ok timeout →
    is_ok (Inventory.New Parse meta status catalogDefinitions true (inventory_config cfg timeout)) = true.

(** What a successful construction went through. *)
Record built (cfg : ExporterConfig.Config) (kubeConfig : option (RestConfig B)) (parts : Parts) : Prop := {
  bt_valid : valid cfg;
  bt_kube : ∃ kube, kubeConfig = Some kube ∧ connects cfg kube;
  bt_timeout : ParseDuration (ec_RequestTimeout cfg) = Ok (pt_ReaderTimeout parts);
  bt_definitions :
    Inventory.New Parse meta status catalogDefinitions true (inventory_config cfg (pt_ReaderTimeout parts)) =
      Ok (pt_Definitions parts);
  bt_ignored : ∀ gvk, gvk ∈ pt_Ignored parts ↔ gvk ∈ ec_IgnoredOwnerKinds cfg;
  bt_labels : LabelResolver.New (label_config cfg) (Some compile) = Ok (pt_Labels parts);
  bt_store : pt_Store parts = Store.New;
  bt_runtime : ControllerReconcile.New (controller_config cfg) false (pt_Store parts) = Ok (pt_Runtime parts);
}.

Lemma NewReader_positive timeout : (0 < timeout)%Z → NewReader false timeout = Ok timeout.
Proof.
  intros Ht. unfold NewReader, ControllerReconcile.or_default. rewrite (proj2 (Z.eqb_neq timeout 0)) by lia. by rewrite (proj2 (Z.ltb_ge _ _)) by lia.
Qed.

Lemma New_built cfg kubeConfig parts : New cfg kubeConfig = Ok parts → built cfg kubeConfig parts.
Proof.
  unfold New. intros ([] & Hv%Validate_valid & E)%bind_Ok. destruct kubeConfig as [kube|]; [|done].
  apply bind_Ok in E as (timeout & Et%map_error_inv & E).
  apply bind_Ok in E as ([] & Ed & E). apply bind_Ok in E as ([] & Em & E). apply bind_Ok in E as ([] & Ei & E).
  apply bind_Ok in E as (reader & Er & E). apply bind_Ok in E as (definitions & Edef & E).
  apply bind_Ok in E as (ignored & [= <-] & E). apply bind_Ok in E as (labels & El & E).
  apply bind_Ok in E as (runtime & Ert & [= <-]).
  destruct (valid_timeout _ Hv) as (t & Et' & Hpos). assert (t = timeout) as -> by congruence.
  rewrite NewReader_positive in Er by done. injection Er as <-.
  constructor; cbn; try done.
  - by exists kube.
  - intros gvk. apply elem_of_list_to_set.
Qed.

Lemma New_total cfg kube :
  valid cfg → connects cfg kube → sources_wf cfg → compiles cfg → is_ok (New cfg (Some kube)) = true.
Proof.
  intros Hv (Hd & Hm & Hi) Hs Hc. unfold New. pose proof Hv as Hv'%(Validate_valid gvk_String). rewrite Hv'.
  destruct (valid_timeout _ Hv) as (t & Et & Hpos). rewrite Et. cbn [map_error mbind result_bind].
  cbv zeta. rewrite Hd, Hm, Hi. cbn [mbind result_bind]. rewrite NewReader_positive by done. cbn [mbind result_bind].
  specialize (Hs t Et). destruct (Inventory.New _ _ _ _ _ _) as [definitions|]; [|done]. cbn [mbind result_bind discovery_New].
  apply (resolver_New_ok cfg Hv) in Hc. destruct (LabelResolver.New _ _); [|done]. cbn [mbind result_bind].
  destruct (controller_New_valid cfg Store.New Hv) as [runtime Hrt]. by rewrite Hrt.
Qed.
End construction.

Section properties.
Context `{!Kubernetes} `{!Numbers} `{!VersionOrder}.
Context (Parse : string → result aval) (meta status : list rfield) (catalogDefinitions : list Karta).
Context (gvk_String : GroupVersionKind → string).
Context {B U : Type} (compile : Compiler U).
Context (dynamic_NewForConfig metadata_NewForConfig discovery_NewForConfig : RestConfig B → result ()).

Abbreviation New := (New Parse meta status catalogDefinitions gvk_String compile dynamic_NewForConfig
  metadata_NewForConfig discovery_NewForConfig).

(** The exporter is constructed exactly when its configuration is valid,
    there is a client configuration the clients can be made from, the definition
    sources are well formed and every label expression compiles: what validation
    accepts, the controller and the discoverer never refuse. Its parts are then
    made from that one configuration. *)
Theorem New_builds cfg kubeConfig :
  (is_ok (New cfg kubeConfig) = true ↔
   valid cfg ∧ (∃ kube, kubeConfig = Some kube ∧
     connects dynamic_NewForConfig metadata_NewForConfig discovery_NewForConfig cfg kube) ∧
   sources_wf Parse meta status catalogDefinitions cfg ∧ compiles compile cfg) ∧
  ∀ parts, New cfg kubeConfig = Ok parts →
    built Parse meta status catalogDefinitions compile dynamic_NewForConfig metadata_NewForConfig
      discovery_NewForConfig cfg kubeConfig parts.
Proof.
  split; [|intros parts; apply New_built]. split.
  - destruct (New cfg kubeConfig) as [parts|] eqn:E; [intros _|done]. apply New_built in E as [Hv Hk Ht Hd _ Hl _ _].
    split_and!; [done|done| |].
    + intros timeout Et. assert (timeout = pt_ReaderTimeout parts) as -> by congruence. by rewrite Hd.
    + apply (resolver_New_ok compile cfg Hv). by rewrite Hl.
  - intros (Hv & (kube & -> & Hk) & Hs & Hc). by apply New_total.
Qed.
End properties.

(** ** The command *)

(** [fs.Parse]: help was asked for, an error, or what the flags say. *)
Inductive parsed := ParseHelp | ParseError (err : error) | ParseOk (showVersion : bool) (args : list string).

Section command.
Context `{!Kubernetes} `{!Numbers} `{!VersionOrder}.
Context {B U : Type} (compile : Compiler U).

(** [load] is the loader's answer, [client] that of the client configuration,
    [construct] and [application] are the two constructors, [serve] the run. *)
Definition run (parse : parsed) (load : result ExporterConfig.Config) (client : result (RestConfig B))
    (construct : ExporterConfig.Config → RestConfig B → result (Parts (U := U)))
    (application : Parts (U := U) → result ()) (serve : Parts (U := U) → option error) : option error :=
  match parse with
  | ParseHelp => None
  | ParseError err => Some err
  | ParseOk true _ => None
  | ParseOk false args =>
      if bool_decide (args ≠ []) then Some (Errorf "unexpected arguments: %v" [AStrs args] [])
      else
        match
          (cfg ← map_error (λ err, Errorf "invalid exporter configuration: %w" [] [err]) load;
           _ ← map_error (λ err, Errorf "invalid exporter configuration: %w" [] [err])
                 (LabelResolver.New (label_config cfg) (Some compile));
           restConfig ← map_error (λ err, Errorf "kubernetes client configuration: %w" [] [err]) client;
           components ← map_error (λ err, Errorf "construct exporter: %w" [] [err]) (construct cfg restConfig);
           _ ← map_error (λ err, Errorf "construct exporter application: %w" [] [err]) (application components);
           Ok components)
        with
        | Fail err => Some err
        | Ok components => serve components
        end
  end.

(** The command ends well exactly when it only had to explain itself, or was
    configured, constructed and served without an error. *)
Lemma run_None parse load client construct application serve :
  run parse load client construct application serve = None ↔
  parse = ParseHelp ∨ (∃ args, parse = ParseOk true args) ∨
  parse = ParseOk false [] ∧ ∃ cfg kube parts, load = Ok cfg ∧ client = Ok kube ∧ construct cfg kube = Ok parts ∧
    is_ok (LabelResolver.New (label_config cfg) (Some compile)) = true ∧ application parts = Ok () ∧ serve parts = None.
Proof.
  unfold run. split.
  - destruct parse as [|err|[] args]; [by left|done|by right; left; exists args|].
    case_bool_decide as Ha; [done|]. assert (args = []) as -> by (by destruct args).
    destruct load as [cfg|]; cbn [map_error mbind result_bind]; [|done].
    destruct (LabelResolver.New (label_config cfg) (Some compile)) as [labels|] eqn:El; cbn [map_error mbind result_bind]; [|done].
    destruct client as [kube|]; cbn [map_error mbind result_bind]; [|done].
    destruct (construct cfg kube) as [parts|] eqn:Ec; cbn [map_error mbind result_bind]; [|done].
    destruct (application parts) as [[]|] eqn:Ea; cbn [map_error mbind result_bind]; [|done].
    intros Hs. right. right. split; [done|]. exists cfg, kube, parts. by rewrite El.
  - intros [->|[[args ->]|(-> & cfg & kube & parts & -> & -> & Ec & Hl & Ha & Hs)]]; [done|done|].
    rewrite bool_decide_eq_false_2 by (intros Hn; by apply Hn).
    cbn [map_error mbind result_bind]. destruct (LabelResolver.New (label_config cfg) (Some compile)); [|done].
    cbn [map_error mbind result_bind]. rewrite Ec. cbn [map_error mbind result_bind]. by rewrite Ha.
Qed.
End command.

(** ** Concrete inputs *)

#[local] Existing Instance sample_kubernetes.
#[local] Existing Instance sample_numbers.
#[local] Instance sample_versions : VersionOrder := { CompareKubeAwareVersionStrings _ _ := 0%Z }.

Definition sample_construct (cfg : ExporterConfig.Config) (client : result ()) : result (Parts (U := unit)) :=
  New (λ _, Ok AScalar) [] [] [] gvk_Kind (λ expression _, if bool_decide (expression = "bad") then Fail (External "syntax")
    else Ok (λ _ _ _, Ok "")) (λ _, client) (λ _, Ok ()) (λ _, Ok ()) cfg (Some (MkRestConfig () false F32NaN 0 None)).

(** The defaults make an exporter; a client that cannot be made, or an expression
    that does not compile, do not. *)
Example sample_constructs :
  is_ok (sample_construct DefaultConfig (Ok ())) = true ∧
  is_ok (sample_construct DefaultConfig (Fail (External "no server"))) = false ∧
  is_ok (sample_construct
    (assign ec_Rules [MkLabelRule "team" [MetricWorkloadStatus] [SourceWorkload] "bad"] DefaultConfig) (Ok ())) = false.
Proof. by vm_compute. Qed.
