(* ===== verification/ControllerInvariant.v ===== *)
(** * ControllerInvariant: what always holds of the controller's state

    Two invariants and their preservation by every operation of
    [ControllerState] and [ControllerSources]: memberships agree in both
    directions, and the cache, its sources and the watches describe each other.
    Operations are compared by the part of the state they keep. *)

From S2P Require Import Prelude Api Literal Sort Summary Store Discovery Inventory ControllerState ControllerSources.

Create Rewrite HintDb kept.

(** ** The part of the state that queuing and publishing leave alone *)

Section core.
Context `{!KubernetesErrors, !Kubernetes, !WatchLibrary} {r : Settings}.
Implicit Types (s : State).

Definition core s :=
  (cs_objects s, cs_sources s, cs_heap s, cs_watches s, cs_replacements s, cs_watchFailures s, cs_scopes s,
   cs_roots s, cs_podRoots s, cs_selectedObjectRoots s, cs_selectedDefinitions s,
   cs_definitionInventoryErr s, cs_definitionVersion s, cs_ctx s).

Lemma core_add_pod key s : core (add_pod key s) = core s. Proof. by destruct s. Qed.
Lemma core_add_workload key s : core (add_workload key s) = core s. Proof. by destruct s. Qed.
Lemma core_add_sync name s : core (add_sync name s) = core s. Proof. by destruct s. Qed.
Lemma core_publish f s : core (publish f s) = core s. Proof. by destruct s. Qed.
Lemma core_podQueue f s : core (over cs_podQueue f s) = core s. Proof. by destruct s. Qed.
Lemma core_workloadQueue f s : core (over cs_workloadQueue f s) = core s. Proof. by destruct s. Qed.
Lemma core_ancestorPods f s : core (over cs_ancestorPods f s) = core s. Proof. by destruct s. Qed.
Lemma core_enqueueScopeRefresh namespace s : core (enqueueScopeRefresh namespace s) = core s.
Proof. apply core_add_pod. Qed.
#[local] Hint Rewrite core_add_pod core_add_workload core_add_sync core_publish core_podQueue
  core_workloadQueue core_ancestorPods core_enqueueScopeRefresh : kept.

Ltac solve_core :=
  repeat (case_match || autorewrite with kept); autorewrite with kept; try done.

Lemma core_enqueuePod o s : core (enqueuePod o s) = core s.
Proof. unfold enqueuePod. solve_core. Qed.
#[local] Hint Rewrite core_enqueuePod : kept.

Lemma core_enqueueObject o s : core (enqueueObject o s) = core s.
Proof. unfold enqueueObject. solve_core. Qed.

Lemma core_enqueueMembers root s : core (enqueueMembers root s) = core s.
Proof. unfold enqueueMembers. solve_core. Qed.
#[local] Hint Rewrite core_enqueueObject core_enqueueMembers : kept.

Lemma core_enqueueRootAndMembers uid s : core (enqueueRootAndMembers uid s) = core s.
Proof. unfold enqueueRootAndMembers. solve_core. Qed.
#[local] Hint Rewrite core_enqueueRootAndMembers : kept.

Lemma core_foldl {A} (f : State → A → State) l s :
  (∀ s x, core (f s x) = core s) → core (foldl f s l) = core s.
Proof. intros Hf. revert s. induction l as [|x l IH]; intros s; [done|]. cbn. by rewrite IH, Hf. Qed.

Lemma core_requeueScope namespace s : core (requeueScope namespace s) = core s.
Proof.
  unfold requeueScope. rewrite core_foldl; [rewrite core_foldl; [done|]|]; intros; solve_core.
Qed.

Lemma core_queueObjectChange old current s : core (queueObjectChange old current s) = core s.
Proof. unfold queueObjectChange. solve_core. Qed.

Lemma core_fields s s' :
  core s' = core s →
  cs_objects s' = cs_objects s ∧ cs_sources s' = cs_sources s ∧ cs_heap s' = cs_heap s ∧
  cs_watches s' = cs_watches s ∧ cs_replacements s' = cs_replacements s ∧
  cs_roots s' = cs_roots s ∧ cs_podRoots s' = cs_podRoots s ∧
  cs_selectedObjectRoots s' = cs_selectedObjectRoots s ∧ cs_scopes s' = cs_scopes s ∧
  cs_selectedDefinitions s' = cs_selectedDefinitions s ∧
  cs_definitionVersion s' = cs_definitionVersion s.
Proof. by intros [= -> -> -> -> -> _ -> -> -> -> -> _ -> _]. Qed.
End core.

#[export] Hint Rewrite @core_add_pod @core_add_workload @core_add_sync @core_publish @core_podQueue
  @core_workloadQueue @core_ancestorPods @core_enqueueScopeRefresh @core_enqueuePod @core_enqueueObject
  @core_enqueueMembers @core_enqueueRootAndMembers @core_requeueScope @core_queueObjectChange : kept.

(** ** Memberships *)

(** What a root says of a pod and of a selected object. *)
Definition pod_of (roots : gmap UID rootState) (uid : UID) (p : UID) : option objectJobKey :=
  roots !! uid ≫= λ root, rs_pods root !! p.
Definition objects_of (roots : gmap UID rootState) (uid : UID) : gset objectJobKey :=
  default ∅ (rs_selectedObjects <$> roots !! uid).

(** Roots and members point at each other: every root is filed under its UID, a
    pod has a root exactly when that root lists it, under a key of its own, and a
    selected object likewise. *)
Record memberships (roots : gmap UID rootState) (podRoots : gmap UID UID)
    (outcomes : gmap objectJobKey selectedObjectOutcome) : Prop := {
  mb_uid : ∀ uid root, roots !! uid = Some root → or_UID (rs_ref root) = uid ∧ uid ≠ "";
  mb_pod : ∀ p uid, podRoots !! p = Some uid ↔ is_Some (pod_of roots uid p);
  mb_key : ∀ uid p key, pod_of roots uid p = Some key → oj_UID key = p;
  mb_object : ∀ key (uid : UID), uid ≠ "" →
    (so_rootUID <$> outcomes !! key = Some uid ↔ key ∈ objects_of roots uid);
}.

Section memberships.
Implicit Types (roots : gmap UID rootState) (podRoots : gmap UID UID)
  (outcomes : gmap objectJobKey selectedObjectOutcome).

Lemma pod_of_alter roots uid f u p :
  pod_of (alter f uid roots) u p =
  if decide (uid = u) then roots !! u ≫= λ root, rs_pods (f root) !! p else pod_of roots u p.
Proof.
  unfold pod_of. case_decide as E; [subst; rewrite lookup_alter_eq|by rewrite lookup_alter_ne by done].
  by destruct (roots !! u).
Qed.

Lemma objects_of_alter roots uid f u :
  objects_of (alter f uid roots) u =
  if decide (uid = u) then default ∅ (rs_selectedObjects <$> (f <$> roots !! u)) else objects_of roots u.
Proof.
  unfold objects_of. case_decide as E; [subst; by rewrite lookup_alter_eq|by rewrite lookup_alter_ne by done].
Qed.

Lemma pod_of_insert roots uid root u p :
  pod_of (<[uid := root]> roots) u p = if decide (uid = u) then rs_pods root !! p else pod_of roots u p.
Proof. unfold pod_of. rewrite lookup_insert. by case_decide. Qed.

Lemma objects_of_insert roots uid root u :
  objects_of (<[uid := root]> roots) u = if decide (uid = u) then rs_selectedObjects root else objects_of roots u.
Proof. unfold objects_of. rewrite lookup_insert. by case_decide. Qed.

Lemma uid_alter roots uid f :
  (∀ root, or_UID (rs_ref (f root)) = or_UID (rs_ref root)) →
  (∀ u root, roots !! u = Some root → or_UID (rs_ref root) = u ∧ u ≠ "") →
  ∀ u root, alter f uid roots !! u = Some root → or_UID (rs_ref root) = u ∧ u ≠ "".
Proof.
  intros Hf Hu u root [(-> & x & Hx & ->)|[_ Hx]]%lookup_alter_Some; [rewrite Hf|]; by apply Hu in Hx.
Qed.

(** A root that keeps its UID and members can be replaced, and a new one without
    members added. *)
Lemma memberships_insert roots podRoots outcomes uid root :
  memberships roots podRoots outcomes → or_UID (rs_ref root) = uid → uid ≠ "" →
  (∀ p, rs_pods root !! p = pod_of roots uid p) → rs_selectedObjects root = objects_of roots uid →
  memberships (<[uid := root]> roots) podRoots outcomes.
Proof.
  intros [Hu Hp Hk Ho] Hid Hne Epods Eobj. split.
  - intros u ro [[<- <-]|[? ?]]%lookup_insert_Some; [done|by apply Hu].
  - intros p u. rewrite Hp, pod_of_insert. case_decide; [subst; by rewrite Epods|done].
  - intros u p key. rewrite pod_of_insert. case_decide; [subst; rewrite Epods|]; apply Hk.
  - intros key u Hne0. rewrite Ho, objects_of_insert by done. case_decide; [subst; by rewrite Eobj|done].
Qed.

(** A pod leaves its root. *)
Lemma memberships_unpod roots podRoots outcomes p :
  memberships roots podRoots outcomes →
  memberships (alter (with_pods (delete p)) (default ("" : UID) (podRoots !! p)) roots) (delete p podRoots) outcomes.
Proof.
  intros [Hu Hp Hk Ho].
  assert (Epod : ∀ u q, pod_of (alter (with_pods (delete p)) (default ("" : UID) (podRoots !! p)) roots) u q =
                   if decide (p = q) then None else pod_of roots u q).
  { intros u q. rewrite pod_of_alter. unfold pod_of. destruct (decide (_ = u)) as [E|E].
    - destruct (roots !! u) as [root|]; cbn; [|by case_decide]. rewrite lookup_delete. by case_decide.
    - case_decide as Eq; [subst q|done]. destruct (roots !! u ≫= _) as [k|] eqn:Ek; [|done].
      exfalso. apply E. assert (E1 : podRoots !! p = Some u) by (apply Hp; by exists k).
      change (default ("" : UID) (podRoots !! p) = default "" (Some u)). by f_equal. }
  split.
  - apply uid_alter; [done|exact Hu].
  - intros q u. rewrite lookup_delete_Some, Epod, Hp. case_decide; [|naive_solver].
    split; [naive_solver|]. by intros [? ?].
  - intros u q key. rewrite Epod. case_decide; [done|apply Hk].
  - intros key u Hne. rewrite Ho, objects_of_alter by done. unfold objects_of. case_decide; [|done].
    destruct (roots !! u); reflexivity.
Qed.

(** A pod without a root joins one. *)
Lemma memberships_join_pod roots podRoots outcomes uid key :
  memberships roots podRoots outcomes → is_Some (roots !! uid) → podRoots !! oj_UID key = None →
  memberships (alter (with_pods (insert (oj_UID key) key)) uid roots) (insert (oj_UID key) uid podRoots) outcomes.
Proof.
  intros [Hu Hp Hk Ho] [root Hroot] Hnone.
  assert (Epod : ∀ u q, pod_of (alter (with_pods (insert (oj_UID key) key)) uid roots) u q =
                   if decide (uid = u ∧ oj_UID key = q) then Some key else pod_of roots u q).
  { intros u q. rewrite pod_of_alter. unfold pod_of. destruct (decide (uid = u)) as [->|E].
    - rewrite Hroot. cbn. rewrite lookup_insert. repeat case_decide; naive_solver.
    - case_decide; naive_solver. }
  split.
  - apply uid_alter; [done|exact Hu].
  - intros q u. rewrite lookup_insert_Some, Epod, Hp. case_decide as E.
    + destruct E as [-> ->]. naive_solver.
    + split; [|intros Hq; right; split; [|done]].
      * intros [[<- <-]|[_ ?]]; [|done]. by destruct E.
      * intros <-. by rewrite <- Hp, Hnone in Hq.
  - intros u q k. rewrite Epod. case_decide as E; [|apply Hk]. intros [= <-]. naive_solver.
  - intros k u Hne. rewrite Ho, objects_of_alter by done. unfold objects_of. case_decide; [|done].
    destruct (roots !! u); reflexivity.
Qed.

(** The record of a selected object is set to a root that lists it, or none. *)
Lemma memberships_object roots podRoots outcomes key old exclusion :
  memberships roots podRoots outcomes → default ("" : UID) (so_rootUID <$> outcomes !! key) = old →
  memberships (alter (with_selectedObjects (.∖ {[key]})) old roots) podRoots
    (<[key := MkOutcome "" exclusion]> outcomes).
Proof.
  intros [Hu Hp Hk Ho] Hold. split.
  - apply uid_alter; [done|exact Hu].
  - intros p u. rewrite Hp, pod_of_alter. unfold pod_of. case_decide; [|done]. destruct (roots !! u); reflexivity.
  - intros u p k. rewrite pod_of_alter. case_decide; [|apply Hk]. intros E. apply (Hk u). unfold pod_of.
    destruct (roots !! u); exact E.
  - intros k u Hne. rewrite lookup_insert. case_decide as Ek.
    + subst k. cbn. split; [naive_solver|]. rewrite objects_of_alter. case_decide as E.
      * destruct (roots !! u); cbn; set_solver.
      * intros Hin. apply (Ho _ _ Hne) in Hin. rewrite Hin in Hold. done.
    + rewrite (Ho k u Hne), objects_of_alter. case_decide; [|done]. unfold objects_of.
      destruct (roots !! u); cbn; set_solver.
Qed.

Lemma memberships_join_object roots podRoots outcomes key uid :
  memberships roots podRoots outcomes → is_Some (roots !! uid) →
  default ("" : UID) (so_rootUID <$> outcomes !! key) = "" →
  memberships (alter (with_selectedObjects ({[key]} ∪.)) uid roots) podRoots
    (<[key := MkOutcome uid None]> outcomes).
Proof.
  intros [Hu Hp Hk Ho] [root Hroot] Hnone. split.
  - apply uid_alter; [done|exact Hu].
  - intros p u. rewrite Hp, pod_of_alter. unfold pod_of. case_decide; [|done]. destruct (roots !! u); reflexivity.
  - intros u p k. rewrite pod_of_alter. case_decide; [|apply Hk]. intros E. apply (Hk u). unfold pod_of.
    destruct (roots !! u); exact E.
  - intros k u Hne. rewrite lookup_insert, objects_of_alter. case_decide as Ek.
    + subst k. cbn. case_decide as E.
      * subst. rewrite Hroot. cbn. split; [set_solver|done].
      * split; [naive_solver|]. intros Hin. apply (Ho _ _ Hne) in Hin. rewrite Hin in Hnone. done.
    + rewrite (Ho k u Hne). case_decide; [|done]. subst. unfold objects_of. rewrite Hroot. cbn. set_solver.
Qed.

(** A record without a root can go, or lose its exclusion. *)
Lemma memberships_forget roots podRoots outcomes key :
  memberships roots podRoots outcomes → default ("" : UID) (so_rootUID <$> outcomes !! key) = "" →
  memberships roots podRoots (delete key outcomes).
Proof.
  intros [Hu Hp Hk Ho] Hnone. split; [done..|]. intros k u Hne. rewrite <- Ho by done.
  rewrite lookup_delete. case_decide; [subst k|done]. split; [done|]. intros E. by rewrite E in Hnone.
Qed.

Lemma memberships_reset roots podRoots outcomes key exclusion :
  memberships roots podRoots outcomes →
  memberships roots podRoots
    (<[key := MkOutcome (default ("" : UID) (so_rootUID <$> outcomes !! key)) exclusion]> outcomes).
Proof.
  intros [Hu Hp Hk Ho]. split; [done..|]. intros k u Hne. rewrite <- Ho by done.
  rewrite lookup_insert. case_decide; [subst k|done]. cbn.
  destruct (outcomes !! key); cbn; naive_solver.
Qed.

(** A root goes with all it holds. *)
Lemma memberships_remove roots podRoots outcomes uid root :
  memberships roots podRoots outcomes → roots !! uid = Some root →
  memberships (delete uid roots) (filter (λ p : UID * UID, p.1 ∉ dom (rs_pods root)) podRoots)
    (set_to_map (λ key, (key, zero_outcome)) (rs_selectedObjects root) ∪ outcomes).
Proof.
  intros [Hu Hp Hk Ho] Hroot. split.
  - intros u ro [_ ?]%lookup_delete_Some. by apply Hu.
  - intros p u. rewrite map_lookup_filter_Some, not_elem_of_dom, Hp. unfold pod_of. rewrite lookup_delete.
    cbn. case_decide as E.
    + subst u. rewrite Hroot. cbn. split; [|by intros [? ?]]. intros [[k Hk'] ?]. congruence.
    + split; [naive_solver|]. intros Hx. split; [done|].
      destruct (rs_pods root !! p) as [k|] eqn:Ek; [|done]. exfalso. apply E.
      assert (E1 : podRoots !! p = Some u) by by apply Hp.
      assert (E2 : podRoots !! p = Some uid) by (apply Hp; unfold pod_of; rewrite Hroot; cbn; by exists k).
      congruence.
  - intros u p k. unfold pod_of. rewrite lookup_delete. case_decide; [done|]. apply Hk.
  - intros k u Hne. rewrite lookup_union. unfold objects_of. rewrite lookup_delete.
    destruct (decide (k ∈ rs_selectedObjects root)) as [Hin|Hin].
    + assert (E : (set_to_map (λ key, (key, zero_outcome)) (rs_selectedObjects root) : gmap _ _) !! k
                  = Some zero_outcome) by (apply lookup_set_to_map; naive_solver).
      rewrite E, union_Some_l. cbn. split; [naive_solver|]. case_decide as Eu; [set_solver|].
      intros Hin'. exfalso. apply Eu.
      assert (E1 : so_rootUID <$> outcomes !! k = Some u) by by apply Ho.
      assert (E2 : so_rootUID <$> outcomes !! k = Some uid).
      { apply Ho; [by apply Hu in Hroot as [_ ?]|]. unfold objects_of. by rewrite Hroot. }
      congruence.
    + assert (E : (set_to_map (λ key, (key, zero_outcome)) (rs_selectedObjects root) : gmap _ _) !! k = None).
      { apply eq_None_not_Some. intros [x Hx]. apply lookup_set_to_map in Hx; naive_solver. }
      rewrite E, (left_id_L None _), (Ho k u Hne). unfold objects_of. case_decide; [|done].
      subst u. rewrite Hroot. cbn. set_solver.
Qed.
End memberships.

(** ** Every operation keeps the memberships *)

Create Rewrite HintDb members.

Section consistent.
Context `{!KubernetesErrors, !Kubernetes, !WatchLibrary} {r : Settings}.
Implicit Types (s : State).

Definition members s := (cs_roots s, cs_podRoots s, cs_selectedObjectRoots s).

Definition agree (m : gmap UID rootState * gmap UID UID * gmap objectJobKey selectedObjectOutcome) : Prop :=
  memberships m.1.1 m.1.2 m.2.

Definition consistent s : Prop := agree (members s).

Lemma members_core s s' : core s' = core s → members s' = members s.
Proof. intros (_ & _ & _ & _ & _ & E1 & E2 & E3 & _)%core_fields. unfold members. by rewrite E1, E2, E3. Qed.

Lemma members_roots f s : members (over cs_roots f s) = (f (members s).1.1, (members s).1.2, (members s).2).
Proof. by destruct s. Qed.
Lemma members_podRoots f s : members (over cs_podRoots f s) = ((members s).1.1, f (members s).1.2, (members s).2).
Proof. by destruct s. Qed.
Lemma members_outcomes f s :
  members (over cs_selectedObjectRoots f s) = ((members s).1.1, (members s).1.2, f (members s).2).
Proof. by destruct s. Qed.

Lemma members_fields s a b c : members s = (a, b, c) →
  cs_roots s = a ∧ cs_podRoots s = b ∧ cs_selectedObjectRoots s = c.
Proof. by intros [= -> -> ->]. Qed.

Lemma roots_kept s s' : members s' = members s → cs_roots s' = cs_roots s.
Proof. by intros [= -> _ _]. Qed.

Lemma members_publish f s : members (publish f s) = members s. Proof. apply members_core, core_publish. Qed.
Lemma members_add_workload k s : members (add_workload k s) = members s.
Proof. apply members_core, core_add_workload. Qed.
Lemma members_ancestorPods f s : members (over cs_ancestorPods f s) = members s.
Proof. apply members_core, core_ancestorPods. Qed.
Lemma members_objects f s : members (over cs_objects f s) = members s. Proof. by destruct s. Qed.
Lemma members_sources f s : members (over cs_sources f s) = members s. Proof. by destruct s. Qed.
Lemma members_heap f s : members (over cs_heap f s) = members s. Proof. by destruct s. Qed.
Lemma members_watches f s : members (over cs_watches f s) = members s. Proof. by destruct s. Qed.
Lemma members_replacements f s : members (over cs_replacements f s) = members s. Proof. by destruct s. Qed.
Lemma members_watchFailures f s : members (over cs_watchFailures f s) = members s. Proof. by destruct s. Qed.
Lemma members_podQueue f s : members (over cs_podQueue f s) = members s. Proof. by destruct s. Qed.
Lemma members_workloadQueue f s : members (over cs_workloadQueue f s) = members s. Proof. by destruct s. Qed.
Lemma members_watchSyncQueue f s : members (over cs_watchSyncQueue f s) = members s. Proof. by destruct s. Qed.
Lemma members_definitionVersion f s : members (over cs_definitionVersion f s) = members s. Proof. by destruct s. Qed.
Lemma members_scopes v s : members (assign cs_scopes v s) = members s. Proof. by destruct s. Qed.
Lemma members_selectedDefinitions v s : members (assign cs_selectedDefinitions v s) = members s. Proof. by destruct s. Qed.
Lemma members_definitionInventoryErr v s : members (assign cs_definitionInventoryErr v s) = members s. Proof. by destruct s. Qed.
Lemma members_ctx v s : members (assign cs_ctx v s) = members s. Proof. by destruct s. Qed.
Lemma members_enqueueMembers root s : members (enqueueMembers root s) = members s.
Proof. apply members_core, core_enqueueMembers. Qed.

#[local] Hint Rewrite @members_publish @members_add_workload @members_ancestorPods @members_enqueueMembers
  @members_roots @members_podRoots @members_outcomes @members_objects @members_sources
  @members_heap @members_watches @members_replacements @members_watchFailures @members_podQueue
  @members_workloadQueue @members_watchSyncQueue @members_definitionVersion @members_scopes
  @members_selectedDefinitions @members_definitionInventoryErr @members_ctx : members.

Ltac members := autorewrite with members; cbn [members]; try done.

Lemma ensureRoot_members w s root s' :
  ensureRoot w s = (root, s') →
  members s' = (<[or_UID (gw_Root w) := root]> (cs_roots s), cs_podRoots s, cs_selectedObjectRoots s) ∧
  rs_pods root = default ∅ (rs_pods <$> cs_roots s !! or_UID (gw_Root w)) ∧
  rs_selectedObjects root = objects_of (cs_roots s) (or_UID (gw_Root w)) ∧
  ((∀ root0, cs_roots s !! or_UID (gw_Root w) = Some root0 → or_UID (rs_ref root0) = or_UID (gw_Root w)) →
   or_UID (rs_ref root) = or_UID (gw_Root w)).
Proof.
  unfold ensureRoot, objects_of. set (s0 := over cs_ancestorPods _ s).
  assert (E0 : cs_roots s0 = cs_roots s) by by destruct s.
  assert (Em : members s0 = members s) by apply members_ancestorPods.
  rewrite E0. set (root0 := default _ (cs_roots s !! _)).
  assert (Hp : rs_pods root0 = default ∅ (rs_pods <$> cs_roots s !! or_UID (gw_Root w)))
    by (unfold root0; by destruct (cs_roots s !! _)).
  assert (Ho : rs_selectedObjects root0 = default ∅ (rs_selectedObjects <$> cs_roots s !! or_UID (gw_Root w)))
    by (unfold root0; by destruct (cs_roots s !! _)).
  assert (Hu : (∀ root1, cs_roots s !! or_UID (gw_Root w) = Some root1 →
                  or_UID (rs_ref root1) = or_UID (gw_Root w)) → or_UID (rs_ref root0) = or_UID (gw_Root w)).
  { intros Hr. unfold root0. destruct (cs_roots s !! _); [by apply Hr|done]. }
  repeat case_match; intros [= <- <-]; autorewrite with members; rewrite Em;
    (split_and!; [done..|]); try done; intros Hr; by apply Hu in Hr.
Qed.

Lemma consistent_ensureRoot w s root s' :
  consistent s → or_UID (gw_Root w) ≠ "" → ensureRoot w s = (root, s') →
  consistent s' ∧ or_UID (rs_ref root) = or_UID (gw_Root w) ∧
  is_Some (cs_roots s' !! or_UID (gw_Root w)) ∧ cs_podRoots s' = cs_podRoots s ∧
  cs_selectedObjectRoots s' = cs_selectedObjectRoots s.
Proof.
  intros Hs Hne (Em & Hp & Ho & Hu)%ensureRoot_members.
  assert (Hid : or_UID (rs_ref root) = or_UID (gw_Root w)).
  { apply Hu. intros root0 Hr. by apply (mb_uid _ _ _ Hs) in Hr as [? _]. }
  split_and!; [|done|injection Em as -> _ _; rewrite lookup_insert_eq; by eexists|by injection Em..].
  unfold consistent, agree. rewrite Em. cbn. apply memberships_insert; [apply Hs|done|done| |done].
  intros p. rewrite Hp. unfold pod_of. by destruct (cs_roots s !! _).
Qed.

Lemma consistent_core s s' : core s' = core s → consistent s → consistent s'.
Proof. intros E. unfold consistent. by rewrite (members_core s s' E). Qed.

Lemma alter_missing {A} (f : A → A) (k : UID) (m : gmap UID A) : m !! k = None → alter f k m = m.
Proof. intros Hk. apply alter_id. intros x Hx. congruence. Qed.

Lemma consistent_unregisterPod key s : consistent s → consistent (unregisterPod key s).
Proof.
  intros Hs. unfold unregisterPod, consistent. autorewrite with members.
  set (s1 := match _ with None => s | Some _ => _ end).
  assert (E : members s1 = (alter (with_pods (delete (oj_UID key)))
                (default ("" : UID) (cs_podRoots s !! oj_UID key)) (cs_roots s),
                cs_podRoots s, cs_selectedObjectRoots s)).
  { subst s1. destruct (cs_roots s !! _) eqn:Er.
    - unfold alter_root. by autorewrite with members.
    - by rewrite alter_missing by done. }
  rewrite E. by apply memberships_unpod.
Qed.

Lemma consistent_registerPodRoot key w s :
  consistent s → or_UID (gw_Root w) ≠ "" → consistent (registerPodRoot key w s).2.
Proof.
  intros Hs Hne. unfold registerPodRoot.
  destruct (_ || _ || _); [done|]. destruct (negb _); [done|].
  destruct (ensureRoot w s) as [root s1] eqn:E.
  apply consistent_ensureRoot in E as (Hs1 & Hid & Hr & Epods & _); [|done..].
  rewrite <- Epods. case_bool_decide as Hprev; [|done]. cbn [snd].
  set (old := default ("" : UID) (cs_podRoots s1 !! oj_UID key)) in *.
  set (s2 := if is_nil (cs_roots s1 !! old) then s1 else _).
  assert (E : members s2 = (alter (with_pods (delete (oj_UID key))) old (cs_roots s1),
                cs_podRoots s1, cs_selectedObjectRoots s1)).
  { subst s2. destruct (cs_roots s1 !! old) eqn:Er; cbn [is_nil].
    - unfold alter_root. by autorewrite with members.
    - by rewrite alter_missing by done. }
  unfold consistent, alter_root. autorewrite with members. rewrite E, Hid. cbn.
  rewrite <- (insert_delete_eq (cs_podRoots s1)).
  apply memberships_join_pod; [by apply memberships_unpod| |apply lookup_delete_eq].
  by rewrite lookup_alter_ne by congruence.
Qed.

Lemma outcome_root key s : so_rootUID (outcome_of key s) = default ("" : UID) (so_rootUID <$> cs_selectedObjectRoots s !! key).
Proof. unfold outcome_of. by destruct (cs_selectedObjectRoots s !! key). Qed.

Lemma consistent_removeSelectedObjectMembership key s :
  consistent s →
  consistent (removeSelectedObjectMembership key s) ∧
  cs_selectedObjectRoots (removeSelectedObjectMembership key s) !! key = None.
Proof.
  intros Hs. unfold removeSelectedObjectMembership, consistent. rewrite outcome_root.
  set (uid := default ("" : UID) _). set (s1 := match _ with None => s | Some _ => _ end).
  assert (E : members s1 = (alter (with_selectedObjects (.∖ {[key]})) uid (cs_roots s),
                cs_podRoots s, cs_selectedObjectRoots s)).
  { subst s1. destruct (cs_roots s !! uid) eqn:Er.
    - unfold alter_root. by autorewrite with members.
    - by rewrite alter_missing by done. }
  assert (E' : members (publish (RemoveDiscoveryFailure (oj_UID key)) (over cs_selectedObjectRoots (delete key) s1))
    = (alter (with_selectedObjects (.∖ {[key]})) uid (cs_roots s), cs_podRoots s,
       delete key (cs_selectedObjectRoots s))) by (autorewrite with members; by rewrite E).
  split; [|apply members_fields in E' as (_ & _ & ->); apply lookup_delete_eq].
  rewrite E'. cbn. rewrite <- (delete_insert_eq _ key (MkOutcome "" None)).
  apply memberships_forget; [by apply memberships_object|by rewrite lookup_insert_eq].
Qed.

Lemma consistent_trackSelectedObject key s : consistent s → consistent (trackSelectedObject key s).
Proof.
  intros Hs. unfold trackSelectedObject, consistent. autorewrite with members. rewrite outcome_root.
  by apply memberships_reset.
Qed.

Lemma consistent_replaceSelectedObjectTracking key o selection s :
  consistent s → consistent (replaceSelectedObjectTracking key o selection s).2.
Proof.
  intros Hs. unfold replaceSelectedObjectTracking.
  assert (Hadd : ∀ k, consistent (add_workload k s))
    by (intros k; eapply consistent_core; [apply core_add_workload|done]).
  repeat case_match; cbn [snd]; try done; by apply consistent_removeSelectedObjectMembership.
Qed.

Lemma consistent_excludeSelectedObject key w selection rootSelection s :
  consistent s → consistent (excludeSelectedObject key w selection rootSelection s).2.
Proof.
  intros Hs. unfold excludeSelectedObject. case_match; [done|]. cbn [snd]. unfold consistent.
  autorewrite with members.
  destruct (consistent_removeSelectedObjectMembership key s Hs) as [Hc Hnone].
  pose proof (memberships_reset _ _ _ key (Some (MkExclusion (gw_Path w) (gw_Root w) selection rootSelection)) Hc) as Hr.
  change ((members ?x).2) with (cs_selectedObjectRoots x) in Hr. by rewrite Hnone in Hr.
Qed.

Lemma consistent_registerSelectedObjectRoot key w selection rootSelection s :
  consistent s → or_UID (gw_Root w) ≠ "" →
  consistent (registerSelectedObjectRoot key w selection rootSelection s).2.
Proof.
  intros Hs Hne. unfold registerSelectedObjectRoot.
  destruct (_ || _); [done|]. destruct (_ || _); [done|].
  destruct (ensureRoot w s) as [root s1] eqn:E.
  apply consistent_ensureRoot in E as (Hs1 & Hid & Hr & _ & Eobj); [|done..].
  rewrite outcome_root, <- Eobj, Hid. cbn [snd].
  set (old := default ("" : UID) (so_rootUID <$> cs_selectedObjectRoots s1 !! key)).
  set (uid := or_UID (gw_Root w)) in *.
  set (s2 := if _ && _ then _ else s1).
  unfold consistent, alter_root. autorewrite with members.
  destruct (decide (old = uid)) as [Eold|Hold].
  - assert (E : s2 = s1) by (subst s2; by rewrite bool_decide_eq_false_2 by (intros []; done)).
    rewrite E. rewrite alter_id.
    + rewrite <- Eold. by apply memberships_reset.
    + intros x Hx. destruct x as [ref pods objs]. unfold with_selectedObjects. cbn. f_equal.
      apply subseteq_union_1_L, singleton_subseteq_l.
      assert (Hin : key ∈ objects_of (cs_roots s1) uid).
      { apply (mb_object _ _ _ Hs1); [done|]. change ((members s1).2) with (cs_selectedObjectRoots s1).
        revert Eold. unfold old. clearbody uid.
        destruct (cs_selectedObjectRoots s1 !! key); cbn; [by intros ->|by intros <-]. }
      assert (Hx' : cs_roots s1 !! uid = Some (MkRootState ref pods objs)) by exact Hx.
      unfold objects_of in Hin. by rewrite Hx' in Hin.
  - assert (E : members s2 = (alter (with_selectedObjects (.∖ {[key]})) old (cs_roots s1),
                  cs_podRoots s1, cs_selectedObjectRoots s1)).
    { subst s2. rewrite bool_decide_eq_true_2 by done. destruct (cs_roots s1 !! old) eqn:Er; cbn.
      - unfold alter_root. by autorewrite with members.
      - by rewrite alter_missing by done. }
    rewrite E. cbn. rewrite <- (insert_insert_eq _ key (MkOutcome uid None) (MkOutcome "" None)).
    apply memberships_join_object; [by apply memberships_object| |by rewrite lookup_insert_eq].
    by rewrite lookup_alter_ne by done.
Qed.

Lemma consistent_removeRoot uid s : consistent s → consistent (removeRoot uid s).
Proof.
  intros Hs. unfold removeRoot, consistent. autorewrite with members.
  destruct (cs_roots s !! uid) as [root|] eqn:Er.
  - autorewrite with members. by apply memberships_remove.
  - by rewrite delete_id.
Qed.

Lemma consistent_publishWorkload uid ref selection next s :
  consistent s → or_UID ref = uid → consistent (publishWorkload uid ref selection next s).2.
Proof.
  intros Hs Hid. unfold publishWorkload. destruct (cs_roots s !! uid) as [root|] eqn:Er; cbn [is_nil orb]; [|done].
  repeat (case_match; [done|]). cbn [snd]. unfold consistent, alter_root. autorewrite with members.
  rewrite (alter_alt_Some _ _ _ _ Er). apply memberships_insert; [done|done| | |].
  - by apply (mb_uid _ _ _ Hs) in Er as [_ ?].
  - intros p. unfold pod_of. change ((members s).1.1) with (cs_roots s). by rewrite Er.
  - unfold objects_of. change ((members s).1.1) with (cs_roots s). by rewrite Er.
Qed.

End consistent.


#[export] Hint Rewrite @members_publish @members_add_workload @members_ancestorPods @members_enqueueMembers
  @members_roots @members_podRoots @members_outcomes @members_objects @members_sources
  @members_heap @members_watches @members_replacements @members_watchFailures @members_podQueue
  @members_workloadQueue @members_watchSyncQueue @members_definitionVersion @members_scopes
  @members_selectedDefinitions @members_definitionInventoryErr @members_ctx : members.

(** ** The cache, its sources and the watches *)

Definition source_of (w : resourceWatch) : cacheSource :=
  MkCacheSource (rw_gvk w) (rw_full w) (rw_ready w) (rw_err w).

(** Watches and replacements point at watches of their key, a replacement at
    another one than the watch it stands by; each watch has a source, which tells
    its state, and no other source exists; every object in the cache belongs to
    the watch of its source and is filed under its own key; and whatever runs is
    tracked. *)
Record coherent `{Kubernetes} (objects : gmap objectKey cachedObject) (sources : gmap watchKey cacheSource)
    (heap : gmap nat resourceWatch) (watches replacements : gmap watchKey nat) : Prop := {
  wa_watch : ∀ key id, watches !! key = Some id → ∃ w, heap !! id = Some w ∧ rw_key w = key;
  wa_replacement : ∀ key id, replacements !! key = Some id →
    ∃ w current, heap !! id = Some w ∧ rw_key w = key ∧ watches !! key = Some current ∧ current ≠ id;
  wa_source : ∀ key source, sources !! key = Some source ↔
    ∃ id w, watches !! key = Some id ∧ heap !! id = Some w ∧ source = source_of w;
  wa_object : ∀ k e, objects !! k = Some e →
    ∃ id w, watches !! co_source e = Some id ∧ heap !! id = Some w ∧ k ∈ rw_objects w ∧
      un_GVK (co_object e) = rw_gvk w ∧ keyOf (refOf (co_object e)) = k;
  wa_leak : ∀ id w, heap !! id = Some w →
    rw_cancelled w = true ∨ watches !! rw_key w = Some id ∨ replacements !! rw_key w = Some id;
}.

Section coherent.
Context `{!Kubernetes}.
Implicit Types (objects : gmap objectKey cachedObject) (sources : gmap watchKey cacheSource)
  (heap : gmap nat resourceWatch) (watches replacements : gmap watchKey nat).

Lemma watch_injective objects sources heap watches replacements key key' id :
  coherent objects sources heap watches replacements →
  watches !! key = Some id → watches !! key' = Some id → key = key'.
Proof. intros Hc (w & Hw & <-)%(wa_watch _ _ _ _ _ Hc) (w' & Hw' & <-)%(wa_watch _ _ _ _ _ Hc). congruence. Qed.

Lemma replacement_no_watch objects sources heap watches replacements key key' id :
  coherent objects sources heap watches replacements →
  replacements !! key = Some id → watches !! key' = Some id → False.
Proof.
  intros Hc (w & c & Hw & <- & Hcur & Hne)%(wa_replacement _ _ _ _ _ Hc) Hk.
  pose proof Hk as (w' & Hw' & <-)%(wa_watch _ _ _ _ _ Hc). congruence.
Qed.

(** The current watch of a key changes, with its source and its objects. *)
Lemma coherent_set_watch objects objects' sources heap watches replacements id w w' :
  coherent objects sources heap watches replacements →
  heap !! id = Some w → watches !! rw_key w = Some id → rw_key w' = rw_key w →
  (∀ k e, objects' !! k = Some e →
     (objects !! k = Some e ∧ co_source e ≠ rw_key w) ∨
     (co_source e = rw_key w ∧ k ∈ rw_objects w' ∧ un_GVK (co_object e) = rw_gvk w' ∧
      keyOf (refOf (co_object e)) = k)) →
  coherent objects' (<[rw_key w := source_of w']> sources) (<[id := w']> heap) watches replacements.
Proof.
  intros Hc Hid Hw Hkey Hobj. split.
  - intros key i Hi. destruct (decide (i = id)) as [->|Hne].
    + rewrite lookup_insert_eq. exists w'. split; [done|]. by rewrite Hkey, (watch_injective _ _ _ _ _ _ _ _ Hc Hw Hi).
    + rewrite lookup_insert_ne by done. by apply (wa_watch _ _ _ _ _ Hc).
  - intros key i Hi. pose proof Hi as (w0 & c & Hw0 & Hk & Hcur & Hne)%(wa_replacement _ _ _ _ _ Hc).
    exists w0, c. rewrite lookup_insert_ne; [done|]. intros ->. by eapply replacement_no_watch.
  - intros key source. rewrite lookup_insert_Some, (wa_source _ _ _ _ _ Hc). split.
    + intros [[<- <-]|[Hne (i & w0 & Hi & Hw0 & ->)]].
      * exists id, w'. by rewrite lookup_insert_eq.
      * exists i, w0. rewrite lookup_insert_ne; [done|]. intros <-. apply Hne. by eapply watch_injective.
    + intros (i & w0 & Hi & Hw0 & ->). apply lookup_insert_Some in Hw0 as [[<- <-]|[Hne Hw0]].
      * left. split; [by eapply watch_injective|done].
      * right. split; [|by exists i, w0]. intros <-. congruence.
  - intros k e [[He Hs]|(Es & Hin & Hg & Hk)]%Hobj.
    + apply (wa_object _ _ _ _ _ Hc) in He as (i & w0 & Hi & Hw0 & ? & ? & ?).
      exists i, w0. rewrite lookup_insert_ne; [done|]. intros <-. apply Hs. by eapply watch_injective.
    + exists id, w'. rewrite Es, lookup_insert_eq. done.
  - intros i w0 [[<- <-]|[Hne Hw0]]%lookup_insert_Some; [rewrite Hkey; by right; left|].
    by apply (wa_leak _ _ _ _ _ Hc).
Qed.

(** A replacement changes while it waits. *)
Lemma coherent_set_replacement objects sources heap watches replacements id w w' :
  coherent objects sources heap watches replacements →
  heap !! id = Some w → replacements !! rw_key w = Some id → rw_key w' = rw_key w →
  coherent objects sources (<[id := w']> heap) watches replacements.
Proof.
  intros Hc Hid Hr Hkey.
  assert (Hno : ∀ key i, watches !! key = Some i → (<[id := w']> heap) !! i = heap !! i).
  { intros key i Hi. apply lookup_insert_ne. intros <-. by eapply replacement_no_watch. }
  split.
  - intros key i Hi. rewrite (Hno _ _ Hi). by apply (wa_watch _ _ _ _ _ Hc).
  - intros key i Hi. pose proof Hi as (w0 & c & Hw0 & Hk & Hcur & Hne)%(wa_replacement _ _ _ _ _ Hc).
    destruct (decide (i = id)) as [->|?].
    + exists w', c. rewrite lookup_insert_eq. split_and!; congruence.
    + exists w0, c. by rewrite lookup_insert_ne by done.
  - intros key source. rewrite (wa_source _ _ _ _ _ Hc). split; intros (i & w0 & Hi & Hw0 & ->); exists i, w0.
    + by rewrite (Hno _ _ Hi).
    + by rewrite (Hno _ _ Hi) in Hw0.
  - intros k e (i & w0 & Hi & Hw0 & ?)%(wa_object _ _ _ _ _ Hc). exists i, w0. by rewrite (Hno _ _ Hi).
  - intros i w0 [[<- <-]|[Hne Hw0]]%lookup_insert_Some; [rewrite Hkey; by right; right|].
    by apply (wa_leak _ _ _ _ _ Hc).
Qed.

(** A new watch, for a key without one, or beside the one there is. *)
Lemma coherent_new_watch objects sources heap watches replacements id w :
  coherent objects sources heap watches replacements →
  heap !! id = None → watches !! rw_key w = None →
  coherent objects (<[rw_key w := source_of w]> sources) (<[id := w]> heap)
    (<[rw_key w := id]> watches) replacements.
Proof.
  intros Hc Hid Hno.
  assert (Hold : ∀ i w0, heap !! i = Some w0 → (<[id := w]> heap) !! i = Some w0)
    by (intros i w0 Hi; rewrite lookup_insert_ne; [done|]; congruence).
  split.
  - intros key i [[<- <-]|[_ (w0 & Hw0 & Hk)%(wa_watch _ _ _ _ _ Hc)]]%lookup_insert_Some.
    + exists w. by rewrite lookup_insert_eq.
    + exists w0. split; [by apply Hold|done].
  - intros key i (w0 & c & Hw0 & Hk & Hcur & Hne)%(wa_replacement _ _ _ _ _ Hc).
    exists w0, c. split_and!; [by apply Hold|done| |done]. rewrite lookup_insert_ne; [done|]. congruence.
  - intros key source. rewrite lookup_insert_Some, (wa_source _ _ _ _ _ Hc). split.
    + intros [[<- <-]|[Hne (i & w0 & Hi & Hw0 & ->)]].
      * exists id, w. by rewrite !lookup_insert_eq.
      * exists i, w0. split_and!; [by rewrite lookup_insert_ne|by apply Hold|done].
    + intros (i & w0 & Hi & Hw0 & ->). apply lookup_insert_Some in Hi as [[<- <-]|[Hne Hi]].
      * rewrite lookup_insert_eq in Hw0. left. by injection Hw0 as <-.
      * right. split; [done|]. exists i, w0. split_and!; [done| |done].
        pose proof Hi as (w1 & Hw1 & _)%(wa_watch _ _ _ _ _ Hc). pose proof (Hold _ _ Hw1). congruence.
  - intros k e (i & w0 & Hi & Hw0 & ?)%(wa_object _ _ _ _ _ Hc). exists i, w0.
    split_and!; [rewrite lookup_insert_ne; [done|congruence]|by apply Hold|naive_solver..].
  - intros i w0 [[<- <-]|[Hne Hw0]]%lookup_insert_Some; [right; left; apply lookup_insert_eq|].
    destruct (wa_leak _ _ _ _ _ Hc _ _ Hw0) as [?|[?|?]]; [by left| |by right; right].
    right; left. rewrite lookup_insert_ne; [done|]. congruence.
Qed.

Lemma coherent_new_replacement objects sources heap watches replacements id w :
  coherent objects sources heap watches replacements →
  heap !! id = None → is_Some (watches !! rw_key w) → replacements !! rw_key w = None →
  coherent objects sources (<[id := w]> heap) watches (<[rw_key w := id]> replacements).
Proof.
  intros Hc Hid [c Hcur] Hno.
  assert (Hold : ∀ i w0, heap !! i = Some w0 → (<[id := w]> heap) !! i = Some w0)
    by (intros i w0 Hi; rewrite lookup_insert_ne; [done|]; congruence).
  assert (Hback : ∀ key i w0, watches !! key = Some i → (<[id := w]> heap) !! i = Some w0 → heap !! i = Some w0).
  { intros key i w0 Hi Hw0. pose proof Hi as (w1 & Hw1 & _)%(wa_watch _ _ _ _ _ Hc).
    pose proof (Hold _ _ Hw1). congruence. }
  split.
  - intros key i (w0 & Hw0 & Hk)%(wa_watch _ _ _ _ _ Hc). exists w0. split; [by apply Hold|done].
  - intros key i [[<- <-]|[_ (w0 & c0 & Hw0 & Hk & Hc0 & Hne)%(wa_replacement _ _ _ _ _ Hc)]]%lookup_insert_Some.
    + exists w, c. rewrite lookup_insert_eq. split_and!; [done..|]. intros ->.
      apply (wa_watch _ _ _ _ _ Hc) in Hcur as (? & ? & _). congruence.
    + exists w0, c0. split_and!; [by apply Hold|done..].
  - intros key source. rewrite (wa_source _ _ _ _ _ Hc).
    split; intros (i & w0 & Hi & Hw0 & ->); exists i, w0; split_and!; eauto.
  - intros k e (i & w0 & Hi & Hw0 & ?)%(wa_object _ _ _ _ _ Hc). exists i, w0.
    split_and!; [done|by apply Hold|naive_solver..].
  - intros i w0 [[<- <-]|[Hne Hw0]]%lookup_insert_Some; [right; right; apply lookup_insert_eq|].
    destruct (wa_leak _ _ _ _ _ Hc _ _ Hw0) as [?|[?|?]]; [by left|by right; left|].
    right; right. rewrite lookup_insert_ne; [done|]. congruence.
Qed.

(** A replacement takes over: the watch it stands by is cancelled. *)
Lemma coherent_take_over objects objects' sources heap watches replacements key id prev w w' wp' :
  coherent objects sources heap watches replacements →
  replacements !! key = Some id → heap !! id = Some w → watches !! key = Some prev →
  rw_key w' = key → rw_key wp' = key → rw_cancelled wp' = true →
  (∀ k e, objects' !! k = Some e →
     (objects !! k = Some e ∧ co_source e ≠ key) ∨
     (co_source e = key ∧ k ∈ rw_objects w' ∧ un_GVK (co_object e) = rw_gvk w' ∧
      keyOf (refOf (co_object e)) = k)) →
  coherent objects' (<[key := source_of w']> sources) (<[id := w']> (<[prev := wp']> heap))
    (<[key := id]> watches) (delete key replacements).
Proof.
  intros Hc Hr Hid Hprev Hk' Hkp Hcan Hobj.
  assert (Hne : prev ≠ id) by (intros ->; by eapply replacement_no_watch).
  assert (Hother : ∀ key0 i, key ≠ key0 → watches !! key0 = Some i →
            (<[id := w']> (<[prev := wp']> heap)) !! i = heap !! i).
  { intros key0 i Hne0 Hi. rewrite !lookup_insert_ne; [done| |].
    - intros <-. apply Hne0. by eapply watch_injective.
    - intros <-. by eapply replacement_no_watch. }
  split.
  - intros key0 i [[<- <-]|[Hne0 Hi]]%lookup_insert_Some; [exists w'; by rewrite lookup_insert_eq|].
    rewrite (Hother _ _ Hne0 Hi). by apply (wa_watch _ _ _ _ _ Hc).
  - intros key0 i [Hne0 Hi]%lookup_delete_Some.
    pose proof Hi as (w0 & c & Hw0 & Hk & Hcur & Hnc)%(wa_replacement _ _ _ _ _ Hc).
    exists w0, c. rewrite (lookup_insert_ne watches) by done. split_and!; [|done..].
    rewrite !lookup_insert_ne; [done| |].
    + intros <-. by eapply replacement_no_watch.
    + intros <-. destruct (wa_replacement _ _ _ _ _ Hc _ _ Hr) as (? & _ & ? & ? & _). congruence.
  - intros key0 source. rewrite lookup_insert_Some, (wa_source _ _ _ _ _ Hc). split.
    + intros [[<- <-]|[Hne0 (i & w0 & Hi & Hw0 & ->)]].
      * exists id, w'. by rewrite !lookup_insert_eq.
      * exists i, w0. rewrite lookup_insert_ne by done. by rewrite (Hother _ _ Hne0 Hi).
    + intros (i & w0 & Hi & Hw0 & ->). apply lookup_insert_Some in Hi as [[<- <-]|[Hne0 Hi]].
      * rewrite lookup_insert_eq in Hw0. left. by injection Hw0 as <-.
      * right. split; [done|]. exists i, w0. by rewrite (Hother _ _ Hne0 Hi) in Hw0.
  - intros k e [[He Hs]|(Es & Hin & Hg & Hk)]%Hobj.
    + apply (wa_object _ _ _ _ _ Hc) in He as (i & w0 & Hi & Hw0 & ? & ? & ?).
      exists i, w0. rewrite lookup_insert_ne by done. by rewrite (Hother _ _ (not_eq_sym Hs) Hi).
    + exists id, w'. by rewrite Es, !lookup_insert_eq.
  - intros i w0 [[<- <-]|[Hni [[<- <-]|[Hni' Hw0]]%lookup_insert_Some]]%lookup_insert_Some.
    + right; left. by rewrite Hk', lookup_insert_eq.
    + by left.
    + destruct (wa_leak _ _ _ _ _ Hc _ _ Hw0) as [?|[Hi|Hi]]; [by left|right; left|right; right].
      * rewrite lookup_insert_ne; [done|]. intros Ek. congruence.
      * rewrite lookup_delete_ne; [done|]. intros Ek. congruence.
Qed.

(** A watch goes, with its source, its objects and its replacement. *)
Lemma coherent_retire objects objects' sources heap heap' watches replacements key id :
  coherent objects sources heap watches replacements →
  watches !! key = Some id →
  (∀ i w, heap' !! i = Some w → ∃ w0, heap !! i = Some w0 ∧ rw_key w = rw_key w0 ∧
     (rw_cancelled w0 = true → rw_cancelled w = true)) →
  (∀ i w, heap !! i = Some w → rw_key w ≠ key → heap' !! i = Some w) →
  (∀ i w, heap' !! i = Some w → watches !! key = Some i ∨ replacements !! key = Some i → rw_cancelled w = true) →
  (∀ k e, objects' !! k = Some e → objects !! k = Some e ∧ co_source e ≠ key) →
  coherent objects' (delete key sources) heap' (delete key watches) (delete key replacements).
Proof.
  intros Hc Hid Hback Hkeep Hcan Hobj.
  assert (Hw : ∀ key0 i, key ≠ key0 → watches !! key0 = Some i → heap' !! i = heap !! i).
  { intros key0 i Hne Hi. apply (wa_watch _ _ _ _ _ Hc) in Hi as (w & Hw & <-). rewrite Hw. by apply Hkeep. }
  split.
  - intros key0 i [Hne Hi]%lookup_delete_Some. rewrite (Hw _ _ Hne Hi). by apply (wa_watch _ _ _ _ _ Hc).
  - intros key0 i [Hne Hi]%lookup_delete_Some.
    apply (wa_replacement _ _ _ _ _ Hc) in Hi as (w & c & Hi & <- & Hcur & ?).
    exists w, c. split_and!; [by apply Hkeep|done|by rewrite lookup_delete_ne|done].
  - intros key0 source. rewrite lookup_delete_Some, (wa_source _ _ _ _ _ Hc). split.
    + intros [Hne (i & w & Hi & Hw0 & ->)]. exists i, w. rewrite lookup_delete_ne by done.
      by rewrite (Hw _ _ Hne Hi).
    + intros (i & w & [Hne Hi]%lookup_delete_Some & Hw0 & ->). split; [done|]. exists i, w.
      by rewrite (Hw _ _ Hne Hi) in Hw0.
  - intros k e [He Hs]%Hobj. apply (wa_object _ _ _ _ _ Hc) in He as (i & w & Hi & Hw0 & ? & ? & ?).
    exists i, w. rewrite lookup_delete_ne by done. by rewrite (Hw _ _ (not_eq_sym Hs) Hi).
  - intros i w Hi. pose proof (Hback _ _ Hi) as (w0 & Hi0 & Ek & Hc0).
    destruct (decide (rw_key w0 = key)) as [Eq|Hne].
    + left. destruct (wa_leak _ _ _ _ _ Hc _ _ Hi0) as [?|[Hx|Hx]]; [by apply Hc0| |];
        eapply Hcan; [done|left|done|right]; congruence.
    + rewrite Ek. destruct (wa_leak _ _ _ _ _ Hc _ _ Hi0) as [?|[Hx|Hx]]; [left; by apply Hc0|right; left|right; right];
        by rewrite lookup_delete_ne.
Qed.
End coherent.

(** ** Every operation keeps the cache and the watches coherent *)

Create Rewrite HintDb feed.

Section feeds.
Context `{!KubernetesErrors, !Kubernetes, !WatchLibrary} {r : Settings}.
Implicit Types (s : State).

Definition feed s := (cs_objects s, cs_sources s, cs_heap s, cs_watches s, cs_replacements s).

Definition coherent_state s : Prop :=
  coherent (cs_objects s) (cs_sources s) (cs_heap s) (cs_watches s) (cs_replacements s).

Lemma feed_core s s' : core s' = core s → feed s' = feed s.
Proof. intros (E1 & E2 & E3 & E4 & E5 & _)%core_fields. unfold feed. by rewrite E1, E2, E3, E4, E5. Qed.

Lemma feed_objects f s : feed (over cs_objects f s) =
  (f (feed s).1.1.1.1, (feed s).1.1.1.2, (feed s).1.1.2, (feed s).1.2, (feed s).2).
Proof. by destruct s. Qed.
Lemma feed_sources f s : feed (over cs_sources f s) =
  ((feed s).1.1.1.1, f (feed s).1.1.1.2, (feed s).1.1.2, (feed s).1.2, (feed s).2).
Proof. by destruct s. Qed.
Lemma feed_heap f s : feed (over cs_heap f s) =
  ((feed s).1.1.1.1, (feed s).1.1.1.2, f (feed s).1.1.2, (feed s).1.2, (feed s).2).
Proof. by destruct s. Qed.
Lemma feed_watches f s : feed (over cs_watches f s) =
  ((feed s).1.1.1.1, (feed s).1.1.1.2, (feed s).1.1.2, f (feed s).1.2, (feed s).2).
Proof. by destruct s. Qed.
Lemma feed_replacements f s : feed (over cs_replacements f s) =
  ((feed s).1.1.1.1, (feed s).1.1.1.2, (feed s).1.1.2, (feed s).1.2, f (feed s).2).
Proof. by destruct s. Qed.
Lemma feed_watchFailures f s : feed (over cs_watchFailures f s) = feed s. Proof. by destruct s. Qed.
Lemma feed_roots f s : feed (over cs_roots f s) = feed s. Proof. by destruct s. Qed.
Lemma feed_podRoots f s : feed (over cs_podRoots f s) = feed s. Proof. by destruct s. Qed.
Lemma feed_ancestorPods f s : feed (over cs_ancestorPods f s) = feed s. Proof. by destruct s. Qed.
Lemma feed_selectedObjectRoots f s : feed (over cs_selectedObjectRoots f s) = feed s. Proof. by destruct s. Qed.
Lemma feed_podQueue f s : feed (over cs_podQueue f s) = feed s. Proof. by destruct s. Qed.
Lemma feed_workloadQueue f s : feed (over cs_workloadQueue f s) = feed s. Proof. by destruct s. Qed.
Lemma feed_watchSyncQueue f s : feed (over cs_watchSyncQueue f s) = feed s. Proof. by destruct s. Qed.
Lemma feed_definitionVersion f s : feed (over cs_definitionVersion f s) = feed s. Proof. by destruct s. Qed.
Lemma feed_publications f s : feed (over cs_publications f s) = feed s. Proof. by destruct s. Qed.
Lemma feed_scopes v s : feed (assign cs_scopes v s) = feed s. Proof. by destruct s. Qed.
Lemma feed_selectedDefinitions v s : feed (assign cs_selectedDefinitions v s) = feed s. Proof. by destruct s. Qed.
Lemma feed_definitionInventoryErr v s : feed (assign cs_definitionInventoryErr v s) = feed s. Proof. by destruct s. Qed.
Lemma feed_ctx v s : feed (assign cs_ctx v s) = feed s. Proof. by destruct s. Qed.
Lemma feed_publish f s : feed (publish f s) = feed s. Proof. by destruct s. Qed.
Lemma feed_add_workload k s : feed (add_workload k s) = feed s. Proof. by destruct s. Qed.
Lemma feed_add_pod k s : feed (add_pod k s) = feed s. Proof. by destruct s. Qed.
Lemma feed_add_sync k s : feed (add_sync k s) = feed s. Proof. by destruct s. Qed.
Lemma feed_enqueueScopeRefresh k s : feed (enqueueScopeRefresh k s) = feed s. Proof. by destruct s. Qed.
Lemma feed_enqueueMembers root s : feed (enqueueMembers root s) = feed s.
Proof. apply feed_core, core_enqueueMembers. Qed.
Lemma feed_queueObjectChange old current s : feed (queueObjectChange old current s) = feed s.
Proof. apply feed_core, core_queueObjectChange. Qed.
#[local] Hint Rewrite @feed_objects @feed_sources @feed_heap @feed_watches @feed_replacements @feed_watchFailures
  @feed_roots @feed_podRoots @feed_ancestorPods @feed_selectedObjectRoots @feed_podQueue
  @feed_workloadQueue @feed_watchSyncQueue @feed_definitionVersion @feed_publications
  @feed_scopes @feed_selectedDefinitions @feed_definitionInventoryErr @feed_ctx @feed_publish
  @feed_add_workload @feed_add_pod @feed_add_sync @feed_enqueueScopeRefresh @feed_enqueueMembers
  @feed_queueObjectChange : feed.

Lemma coherent_feed s a b c d e :
  feed s = (a, b, c, d, e) → coherent a b c d e → coherent_state s.
Proof. intros [= <- <- <- <- <-]. done. Qed.

Lemma coherent_same s s' : feed s' = feed s → coherent_state s → coherent_state s'.
Proof. intros E Hs. eapply coherent_feed; [exact E|exact Hs]. Qed.

Lemma feed_foldl {A} (f : State → A → State) l s :
  (∀ s x, feed (f s x) = feed s) → feed (foldl f s l) = feed s.
Proof. intros Hf. revert s. induction l as [|x l IH]; intros s; [done|]. cbn. by rewrite IH, Hf. Qed.

(** A tracked watch is in the heap, under its key. *)
Lemma tracked_at id s :
  coherent_state s → isTrackedWatch id s = true →
  cs_heap s !! id = Some (watch_at id s) ∧
  (cs_watches s !! rw_key (watch_at id s) = Some id ∨
   cs_watches s !! rw_key (watch_at id s) ≠ Some id ∧ cs_replacements s !! rw_key (watch_at id s) = Some id).
Proof.
  intros Hs. unfold isTrackedWatch. rewrite orb_true_iff, !bool_decide_eq_true. intros Ht. split.
  - unfold watch_at in *. destruct (cs_heap s !! id) as [w|] eqn:Ew; [done|]. cbn in *.
    destruct Ht as [Ht|Ht]; [apply (wa_watch _ _ _ _ _ Hs) in Ht as (? & ? & _)
                            |apply (wa_replacement _ _ _ _ _ Hs) in Ht as (? & ? & ? & _)]; congruence.
  - destruct (decide (cs_watches s !! rw_key (watch_at id s) = Some id)); [by left|].
    destruct Ht; [done|by right].
Qed.

Lemma heap_alter id f w (heap : gmap nat resourceWatch) : heap !! id = Some w → alter f id heap = <[id := f w]> heap.
Proof. intros Hw. by apply alter_alt_Some. Qed.

Lemma feed_updateWatchHealth id err s :
  cs_heap s !! id = Some (watch_at id s) → isTrackedWatch id s = true →
  let w := watch_at id s in let w' := with_health err w in
  feed (updateWatchHealth id err s) =
  (cs_objects s,
   if decide (cs_watches s !! rw_key w = Some id) then <[rw_key w := source_of w']> (cs_sources s) else cs_sources s,
   <[id := w']> (cs_heap s), cs_watches s, cs_replacements s).
Proof.
  intros Hw Ht w w'. unfold updateWatchHealth. rewrite Ht. cbn [negb]. fold w. fold w in Hw.
  assert (Ea : feed (alter_watch id (with_health err) s) =
            (cs_objects s, cs_sources s, <[id := w']> (cs_heap s), cs_watches s, cs_replacements s)).
  { unfold alter_watch. autorewrite with feed. cbn. by rewrite (heap_alter _ _ _ _ Hw). }
  assert (Ew : cs_watches (alter_watch id (with_health err) s) = cs_watches s) by by destruct s.
  rewrite Ew.
  repeat (case_match || case_bool_decide || case_decide || autorewrite with feed); try done; by rewrite Ea.
Qed.

Lemma coherent_updateWatchHealth id err s : coherent_state s → coherent_state (updateWatchHealth id err s).
Proof.
  intros Hs. destruct (isTrackedWatch id s) eqn:Ht; [|unfold updateWatchHealth; by rewrite Ht].
  destruct (tracked_at id s Hs Ht) as [Hw Hor].
  eapply coherent_feed; [by apply feed_updateWatchHealth|]. case_decide as Ed.
  - eapply coherent_set_watch; [exact Hs|done|done|done|]. intros k e He.
    destruct (decide (co_source e = rw_key (watch_at id s))) as [Es|]; [right|by left].
    apply (wa_object _ _ _ _ _ Hs) in He as (i & w & Hi & Hiw & ?). rewrite Es, Ed in Hi. injection Hi as <-.
    rewrite Hw in Hiw. injection Hiw as <-. done.
  - destruct Hor as [|[_ Hr]]; [done|]. by eapply coherent_set_replacement.
Qed.

(** ** Lists and events *)

Lemma feed_drop_missing (listed : gmap objectKey object) l s :
  ∃ objects', feed (foldl (drop_missing listed) s l) =
    (objects', cs_sources s, cs_heap s, cs_watches s, cs_replacements s) ∧
  ∀ k, objects' !! k = if decide (k ∈ l ∧ listed !! k = None) then None else cs_objects s !! k.
Proof.
  revert s. induction l as [|k0 l IH]; intros s.
  { exists (cs_objects s). split; [done|]. intros k. case_decide as E; [by destruct E as [?%elem_of_nil _]|done]. }
  cbn [foldl]. destruct (IH (drop_missing listed s k0)) as (objects' & E & Hk).
  assert (Ef : feed (drop_missing listed s k0) =
    (if decide (listed !! k0 = None) then delete k0 (cs_objects s) else cs_objects s,
     cs_sources s, cs_heap s, cs_watches s, cs_replacements s)).
  { unfold drop_missing. destruct (listed !! k0); cbn; [done|].
    case_match; autorewrite with feed; unfold uncache_object; by autorewrite with feed. }
  injection Ef as E1 E2 E3 E4 E5. exists objects'. split; [by rewrite E, E2, E3, E4, E5|].
  intros k. rewrite Hk, E1. destruct (decide (k = k0)) as [->|Hne].
  - destruct (decide (listed !! k0 = None)) as [Hn|Hn].
    + rewrite (decide_True (P := k0 ∈ k0 :: l ∧ _)) by (split; [by left|done]).
      case_decide; [done|]. apply lookup_delete_eq.
    + rewrite !decide_False by naive_solver. done.
  - assert (Eo : (if decide (listed !! k0 = None) then delete k0 (cs_objects s) else cs_objects s) !! k = cs_objects s !! k).
    { case_decide; [by rewrite lookup_delete_ne|done]. }
    rewrite Eo. repeat case_decide; try done; set_solver.
Qed.

Lemma feed_accept source l s :
  NoDup l.*1 →
  ∃ objects', feed (foldl (accept_object source) s l) =
    (objects', cs_sources s, cs_heap s, cs_watches s, cs_replacements s) ∧
  ∀ k, objects' !! k = match (list_to_map l : gmap objectKey object) !! k with
                       | Some o => Some (MkCachedObject _ o source)
                       | None => cs_objects s !! k
                       end.
Proof.
  revert s. induction l as [|[k0 o0] l IH]; intros s; [by exists (cs_objects s)|].
  cbn [foldl fmap list_fmap]. intros [Hk0 Hnd]%NoDup_cons.
  set (s1 := accept_object source s (k0, o0)).
  assert (Ef : feed s1 = (<[k0 := MkCachedObject _ o0 source]> (cs_objects s),
     cs_sources s, cs_heap s, cs_watches s, cs_replacements s)).
  { subst s1. cbn [accept_object]. unfold cache_object. by autorewrite with feed. }
  clearbody s1. destruct (IH s1 Hnd) as (objects' & E & Hk).
  injection Ef as E1 E2 E3 E4 E5. exists objects'. split; [by rewrite E, E2, E3, E4, E5|].
  intros k. rewrite Hk, E1. cbn. destruct (decide (k = k0)) as [->|Hne].
  - rewrite (not_elem_of_list_to_map_1 l) by done. by rewrite !lookup_insert_eq.
  - by rewrite !lookup_insert_ne by done.
Qed.

(** What a snapshot holds. *)
Lemma prepareWatchSnapshot_Ok values gvk full objects objects' :
  prepareWatchSnapshot values gvk full objects = Ok objects' →
  (∀ k o, objects !! k = Some o → keyOf (refOf o) = k ∧ un_GVK o = gvk ∧ no_identity o = false) →
  ∃ l, mapR (λ v, prepareWatchObject v gvk full) values = Ok l ∧
    NoDup (keyOf ∘ refOf <$> l) ∧ (∀ o, o ∈ l → no_identity o = false ∧ un_GVK o = gvk) ∧
    (∀ k o, objects' !! k = Some o ↔ objects !! k = Some o ∨ o ∈ l ∧ keyOf (refOf o) = k) ∧
    (∀ o, o ∈ l → objects !! keyOf (refOf o) = None).
Proof.
  revert objects. induction values as [|v values IH]; intros objects; cbn [prepareWatchSnapshot mapR].
  { intros [= <-] _. exists []. split_and!; [done|constructor|by intros o ?%elem_of_nil| |by intros o ?%elem_of_nil].
    intros k o. split; [by left|]. by intros [?|[?%elem_of_nil _]]. }
  destruct (prepareWatchObject v gvk full) as [o|] eqn:Ev; [|done].
  destruct (no_identity o) eqn:Ei; [done|].
  destruct (objects !! keyOf (refOf o)) eqn:Eo; cbn [is_nil negb]; [done|]. intros Hrest Hold.
  assert (Eg : un_GVK o = gvk).
  { unfold prepareWatchObject in Ev. apply result_bind_Ok in Ev as (? & _ & [= <-]). done. }
  apply IH in Hrest as (l & -> & Hnd & Hid & Hobj & Hnew).
  - exists (o :: l). split; [done|]. split_and!.
    + cbn. apply NoDup_cons. split; [|done]. intros (o' & Ek & Ho')%list_elem_of_fmap.
      specialize (Hnew _ Ho'). cbn in Ek. rewrite <- Ek, lookup_insert_eq in Hnew. done.
    + intros o' [->|Ho']%elem_of_cons; [done|by apply Hid].
    + intros k o'. rewrite Hobj, lookup_insert_Some, elem_of_cons. split; [|intros [Ho|[[->|Ho] Hk]]].
      * intros [[[<- <-]|[_ ?]]|[? ?]]; [right; split; [by left|done]|by left|right; split; [by right|done]].
      * left. right. split; [|done]. intros <-. congruence.
      * by left; left.
      * by right.
    + intros o' [->|Ho']%elem_of_cons; [done|]. specialize (Hnew _ Ho').
      by apply lookup_insert_None in Hnew as [? _].
  - intros k o' [[<- <-]|[_ ?]]%lookup_insert_Some; [done|by apply Hold].
Qed.

(** The state once a replacement has taken over; a current watch stays. *)
Definition take_over (id : nat) s : result State :=
  let w := watch_at id s in
  if bool_decide (cs_watches s !! rw_key w = Some id) then Ok s
  else match cs_watches s !! rw_key w with
       | None => Fail nil_panic
       | Some previous =>
           let s := alter_watch previous cancelled s in
           let s := alter_watch id (with_objects (rw_objects (watch_at previous s))) s in
           Ok (over cs_replacements (delete (rw_key w)) (over cs_watches (insert (rw_key w) id) s))
       end.

(** The rest of [Replace], on a current watch. *)
Definition accept_list (id : nat) (key : watchKey) (listed : gmap objectKey object) s : State :=
  let s := foldl (drop_missing listed) s (elements (rw_objects (watch_at id s))) in
  let s := alter_watch id (with_objects ∅) s in
  let s := foldl (accept_object key) s (map_to_list listed) in
  let s := alter_watch id (λ w, set_ready (with_objects (dom listed) w)) s in
  enqueueScopeRefresh (sk_Namespace key) (updateWatchHealth id None s).

Lemma Replace_eq id values listed s :
  prepareWatchSnapshot values (rw_gvk (watch_at id s)) (rw_full (watch_at id s)) ∅ = Ok listed →
  isTrackedWatch id s = true →
  Replace id values s = match take_over id s with
                        | Ok s1 => (Ok (), accept_list id (rw_key (watch_at id s)) listed s1)
                        | Fail err => (Fail err, s)
                        end.
Proof. intros Hl Ht. unfold Replace. rewrite Hl, Ht. reflexivity. Qed.

Definition listed_watch (w : resourceWatch) (listed : gmap objectKey object) : resourceWatch :=
  MkResourceWatch (rw_key w) (rw_gvk w) (rw_full w) true None (dom listed) (rw_cancelled w).

Lemma feed_accept_list id key listed s w :
  cs_heap s !! id = Some w → rw_key w = key → cs_watches s !! key = Some id →
  ∃ objects', feed (accept_list id key listed s) =
    (objects', <[key := source_of (listed_watch w listed)]> (cs_sources s),
     <[id := listed_watch w listed]> (cs_heap s), cs_watches s, cs_replacements s) ∧
  ∀ k, objects' !! k = match listed !! k with
                       | Some o => Some (MkCachedObject _ o key)
                       | None => if decide (k ∈ rw_objects w) then None else cs_objects s !! k
                       end.
Proof.
  intros Hw Hk Hcur. unfold accept_list.
  assert (Eat : watch_at id s = w) by (unfold watch_at; by rewrite Hw). rewrite Eat.
  destruct (feed_drop_missing listed (elements (rw_objects w)) s) as (o1 & E1 & Ho1).
  set (s1 := foldl _ s _) in *. clearbody s1. injection E1 as E11 E12 E13 E14 E15.
  set (s2 := alter_watch id (with_objects ∅) s1).
  assert (F2 : feed s2 = (o1, cs_sources s, <[id := with_objects ∅ w]> (cs_heap s), cs_watches s, cs_replacements s)).
  { subst s2. unfold alter_watch. autorewrite with feed. cbn. rewrite E11, E12, E13, E14, E15.
    by rewrite (heap_alter _ _ _ _ Hw). }
  clearbody s2. injection F2 as F21 F22 F23 F24 F25.
  destruct (feed_accept key (map_to_list listed) s2 (NoDup_fst_map_to_list _)) as (o3 & E3 & Ho3).
  set (s3 := foldl _ s2 _) in *. clearbody s3. injection E3 as E31 E32 E33 E34 E35.
  set (s4 := alter_watch id _ s3).
  set (w4 := set_ready (with_objects (dom listed) (with_objects ∅ w))).
  assert (F4 : feed s4 = (o3, cs_sources s, <[id := w4]> (cs_heap s), cs_watches s, cs_replacements s)).
  { subst s4. unfold alter_watch. autorewrite with feed. cbn. rewrite E31, E32, E33, E34, E35, F22, F23, F24, F25.
    rewrite (heap_alter _ _ (with_objects ∅ w)) by apply lookup_insert_eq. by rewrite insert_insert_eq. }
  clearbody s4. injection F4 as F41 F42 F43 F44 F45.
  assert (Hw4 : watch_at id s4 = w4) by (unfold watch_at; by rewrite F43, lookup_insert_eq).
  exists o3. split.
  - autorewrite with feed. rewrite feed_updateWatchHealth; rewrite ?Hw4.
    + rewrite F41, F42, F43, F44, F45. cbn [rw_key w4 set_ready with_objects]. rewrite Hk.
      case_decide; [by rewrite insert_insert_eq|done].
    + by rewrite F43, lookup_insert_eq.
    + unfold isTrackedWatch. rewrite Hw4. cbn [rw_key w4 set_ready with_objects].
      by rewrite Hk, F44, bool_decide_eq_true_2.
  - intros k. rewrite Ho3, list_to_map_to_list, F21, Ho1. destruct (listed !! k) eqn:El; [done|].
    destruct (decide (k ∈ rw_objects w)) as [Hin|Hin]; case_decide as E; rewrite elem_of_elements in E;
      naive_solver.
Qed.

(** [Replace] on a tracked watch: never a nil watch, and afterwards the watch is
    the current one of its key, listed and healthy, and holds exactly the list. *)
Lemma Replace_tracked id values listed s :
  coherent_state s → isTrackedWatch id s = true →
  let w := watch_at id s in let key := rw_key w in
  prepareWatchSnapshot values (rw_gvk w) (rw_full w) ∅ = Ok listed →
  ∃ s', Replace id values s = (Ok (), s') ∧ coherent_state s' ∧
    cs_watches s' !! key = Some id ∧
    cs_sources s' !! key = Some (MkCacheSource (rw_gvk w) (rw_full w) true None) ∧
    (∀ k o, cs_objects s' !! k = Some (MkCachedObject _ o key) ↔ listed !! k = Some o) ∧
    (∀ id', cs_watches s !! key = Some id' → id' ≠ id →
       rw_cancelled (watch_at id' s') = true ∧ cs_replacements s' !! key = None).
Proof.
  intros Hs Ht w key Hl. rewrite (Replace_eq _ _ _ _ Hl Ht).
  destruct (tracked_at id s Hs Ht) as [Hw Hor]. fold w in Hw, Hor. fold key in Hor. fold w key.
  pose proof Hl as Hlisted. apply prepareWatchSnapshot_Ok in Hlisted as (l & _ & _ & Hid & Hobj & _);
    [|intros k o E; by rewrite lookup_empty in E].
  assert (Hgood : ∀ k o, listed !! k = Some o → un_GVK o = rw_gvk w ∧ keyOf (refOf o) = k).
  { intros k o [E|[Ho <-]]%Hobj; [by rewrite lookup_empty in E|]. split; [|done]. by apply Hid in Ho as [_ ?]. }
  (* the cache after the list, given the keys the watch held before *)
  assert (Hcache : ∀ (olds : gset objectKey) (o' : gmap objectKey cachedObject),
    (∀ k e, cs_objects s !! k = Some e → co_source e = key → k ∈ olds) →
    (∀ k, o' !! k = match listed !! k with
                    | Some o => Some (MkCachedObject _ o key)
                    | None => if decide (k ∈ olds) then None else cs_objects s !! k
                    end) →
    (∀ k e, o' !! k = Some e → (cs_objects s !! k = Some e ∧ co_source e ≠ key) ∨
       (co_source e = key ∧ k ∈ dom listed ∧ un_GVK (co_object e) = rw_gvk w ∧
        keyOf (refOf (co_object e)) = k)) ∧
    (∀ k o, o' !! k = Some (MkCachedObject _ o key) ↔ listed !! k = Some o)).
  { intros olds o' Holds Hk. split.
    - intros k e. rewrite Hk. destruct (listed !! k) as [o|] eqn:El.
      + intros [= <-]. right. apply Hgood in El as Hg. cbn. rewrite elem_of_dom, El. naive_solver.
      + case_decide as Hin; [done|]. intros He. left. split; [done|]. naive_solver.
    - intros k o. rewrite Hk. destruct (listed !! k) as [o0|] eqn:El; [naive_solver|].
      case_decide as Hin; [done|]. split; [|done]. intros He. by apply Holds in He. }
  unfold take_over. fold w key. destruct Hor as [Hcur|[Hcur Hrep]].
  - rewrite bool_decide_eq_true_2 by done.
    destruct (feed_accept_list id key listed s w Hw eq_refl Hcur) as (o' & E & Hk).
    set (s' := accept_list _ _ _ s) in *. clearbody s'. exists s'. split; [done|].
    destruct (Hcache (rw_objects w) o') as [Ha Hb]; [|done|].
    { intros k e He Hse. apply (wa_object _ _ _ _ _ Hs) in He as (i & w0 & Hi & Hw0 & ? & _).
      rewrite Hse, Hcur in Hi. injection Hi as <-. rewrite Hw in Hw0. by injection Hw0 as <-. }
    pose proof E as [= E1 E2 E3 E4 E5]. split_and!.
    + eapply coherent_feed; [exact E|]. change key with (rw_key w). by eapply coherent_set_watch.
    + by rewrite E4.
    + by rewrite E2, lookup_insert_eq.
    + by rewrite E1.
    + intros id' Hid' Hne. congruence.
  - rewrite bool_decide_eq_false_2 by done.
    pose proof Hrep as (w0 & prev & Hw0 & _ & Hprev & Hne)%(wa_replacement _ _ _ _ _ Hs). clear w0 Hw0.
    pose proof Hprev as (wp & Hwp & Hkp)%(wa_watch _ _ _ _ _ Hs). fold key in Hprev. rewrite Hprev.
    set (s1 := over cs_replacements _ _). set (w1 := with_objects (rw_objects wp) w).
    assert (F1 : feed s1 = (cs_objects s, cs_sources s, <[id := w1]> (<[prev := cancelled wp]> (cs_heap s)),
                   <[key := id]> (cs_watches s), delete key (cs_replacements s))).
    { assert (Ep : rw_objects (watch_at prev (alter_watch prev cancelled s)) = rw_objects wp).
      { unfold watch_at, alter_watch. replace (cs_heap (over cs_heap (alter cancelled prev) s))
          with (alter cancelled prev (cs_heap s)) by (by destruct s).
        by rewrite (heap_alter _ _ _ _ Hwp), lookup_insert_eq. }
      subst s1. rewrite Ep. unfold alter_watch. autorewrite with feed. cbn.
      rewrite (heap_alter _ _ _ _ Hwp), (heap_alter id _ w); [done|]. by rewrite lookup_insert_ne. }
    clearbody s1. injection F1 as F11 F12 F13 F14 F15.
    destruct (feed_accept_list id key listed s1 w1) as (o' & E & Hk);
      [by rewrite F13, lookup_insert_eq|done|by rewrite F14, lookup_insert_eq|].
    set (s' := accept_list _ _ _ s1) in *. clearbody s'. exists s'. split; [done|].
    rewrite F11, F12, F13, F14, F15, insert_insert_eq in *.
    destruct (Hcache (rw_objects wp) o') as [Ha Hb]; [|done|].
    { intros k e He Hse. apply (wa_object _ _ _ _ _ Hs) in He as (i & w0 & Hi & Hw0 & ? & _).
      rewrite Hse, Hprev in Hi. injection Hi as <-. rewrite Hwp in Hw0. by injection Hw0 as <-. }
    pose proof E as [= E1 E2 E3 E4 E5]. split_and!.
    + eapply coherent_feed; [exact E|]. by eapply coherent_take_over.
    + by rewrite E4, lookup_insert_eq.
    + by rewrite E2, lookup_insert_eq.
    + by rewrite E1.
    + intros id' [= <-] _. split.
      * unfold watch_at. by rewrite E3, lookup_insert_ne, lookup_insert_eq by done.
      * by rewrite E5, lookup_delete_eq.
Qed.

End feeds.

#[export] Hint Rewrite @feed_objects @feed_sources @feed_heap @feed_watches @feed_replacements @feed_watchFailures
  @feed_roots @feed_podRoots @feed_ancestorPods @feed_selectedObjectRoots @feed_podQueue
  @feed_workloadQueue @feed_watchSyncQueue @feed_definitionVersion @feed_publications
  @feed_scopes @feed_selectedDefinitions @feed_definitionInventoryErr @feed_ctx @feed_publish
  @feed_add_workload @feed_add_pod @feed_add_sync @feed_enqueueScopeRefresh @feed_enqueueMembers
  @feed_queueObjectChange : feed.
