(* ===== verification/ControllerSteps.v ===== *)
(** * ControllerSteps: the controller as a state machine

    Every locked method of the controller is a step; steps may come in any order
    from the workers, the source worker and the reflectors.  What holds of every
    reachable state, and what single steps guarantee. *)

From S2P Require Import Prelude Api Literal Sort Summary Store Discovery Inventory ControllerState ControllerSources ControllerInvariant.

Create HintDb controller.

Section steps.
Context `{!KubernetesErrors, !Kubernetes, !WatchLibrary} {r : Settings}.
Implicit Types (s : State).

Ltac solve_feed := repeat (case_match || autorewrite with feed); cbn [snd]; autorewrite with feed; try done.
Ltac solve_members := repeat (case_match || autorewrite with members); cbn [snd]; autorewrite with members; try done.

(** ** Membership steps leave the watches alone *)

Lemma feed_alter_root uid f s : feed (alter_root uid f s) = feed s.
Proof. unfold alter_root. by autorewrite with feed. Qed.

Lemma feed_ensureRoot w s : feed (ensureRoot w s).2 = feed s.
Proof. unfold ensureRoot. solve_feed. Qed.

Lemma feed_unregisterPod key s : feed (unregisterPod key s) = feed s.
Proof. unfold unregisterPod. autorewrite with feed. case_match; autorewrite with feed; rewrite ?feed_alter_root; done. Qed.

Lemma feed_registerPodRoot key w s : feed (registerPodRoot key w s).2 = feed s.
Proof.
  unfold registerPodRoot. destruct (_ || _ || _); [done|]. destruct (negb _); [done|].
  pose proof (feed_ensureRoot w s) as E. destruct (ensureRoot w s) as [root s1]. cbn [snd] in E.
  case_match; cbn [snd]; [|done]. autorewrite with feed. rewrite feed_alter_root. autorewrite with feed.
  case_match; autorewrite with feed; rewrite ?feed_alter_root; done.
Qed.

Lemma feed_removeSelectedObjectMembership key s : feed (removeSelectedObjectMembership key s) = feed s.
Proof.
  unfold removeSelectedObjectMembership. autorewrite with feed.
  case_match; autorewrite with feed; rewrite ?feed_alter_root; done.
Qed.

Lemma feed_trackSelectedObject key s : feed (trackSelectedObject key s) = feed s.
Proof. unfold trackSelectedObject. by autorewrite with feed. Qed.

Lemma feed_replaceSelectedObjectTracking key o selection s :
  feed (replaceSelectedObjectTracking key o selection s).2 = feed s.
Proof.
  unfold replaceSelectedObjectTracking.
  repeat case_match; cbn [snd]; rewrite ?feed_removeSelectedObjectMembership; autorewrite with feed; done.
Qed.

Lemma feed_excludeSelectedObject key w selection rootSelection s :
  feed (excludeSelectedObject key w selection rootSelection s).2 = feed s.
Proof.
  unfold excludeSelectedObject. case_match; cbn [snd]; autorewrite with feed;
    by rewrite ?feed_removeSelectedObjectMembership.
Qed.

Lemma feed_registerSelectedObjectRoot key w selection rootSelection s :
  feed (registerSelectedObjectRoot key w selection rootSelection s).2 = feed s.
Proof.
  unfold registerSelectedObjectRoot. destruct (_ || _); [done|]. destruct (_ || _); [done|].
  pose proof (feed_ensureRoot w s) as E. destruct (ensureRoot w s) as [root s1]. cbn [snd] in E |- *.
  autorewrite with feed. rewrite feed_alter_root. autorewrite with feed.
  case_match; autorewrite with feed; rewrite ?feed_alter_root; done.
Qed.

Lemma feed_removeRoot uid s : feed (removeRoot uid s) = feed s.
Proof. unfold removeRoot. autorewrite with feed. case_match; by autorewrite with feed. Qed.

(** Publishing leaves both alone. *)
Lemma core_publishPodFailure key sources cause root s : core (publishPodFailure key sources cause root s).2 = core s.
Proof. unfold publishPodFailure. repeat case_match; cbn [snd]; autorewrite with kept; done. Qed.

Lemma core_failPodEvaluation key sources path cause root selection s :
  core (failPodEvaluation key sources path cause root selection s).2 = core s.
Proof. unfold failPodEvaluation. repeat case_match; [done..|]. apply core_publishPodFailure. Qed.

Lemma core_failWorkload uid ref sources cause s : core (failWorkload uid ref sources cause s).2 = core s.
Proof. unfold failWorkload. repeat case_match; cbn [snd]; autorewrite with kept; done. Qed.

Lemma core_publishPod path rootRef selection next failed s :
  core (publishPod path rootRef selection next failed s).2 = core s.
Proof. unfold publishPod. repeat case_match; cbn [snd]; autorewrite with kept; done. Qed.

Lemma core_failSelectedObjectDiscovery key err s : core (failSelectedObjectDiscovery key err s) = core s.
Proof. apply core_publish. Qed.

Lemma feed_publishWorkload uid ref selection next s :
  feed (publishWorkload uid ref selection next s).2 = feed s.
Proof.
  unfold publishWorkload. repeat case_match; cbn [snd]; autorewrite with feed; rewrite ?feed_alter_root; done.
Qed.

Lemma core_requeue_object kinds s o : core (requeue_object kinds s o) = core s.
Proof. unfold requeue_object. repeat (case_match || autorewrite with kept); autorewrite with kept; done. Qed.
Lemma core_requeue_root health kinds s p : core (requeue_root health kinds s p) = core s.
Proof. unfold requeue_root. repeat (case_match || autorewrite with kept); autorewrite with kept; done. Qed.
Lemma core_requeue_selected kinds s key : core (requeue_selected kinds s key) = core s.
Proof. unfold requeue_selected. repeat (case_match || autorewrite with kept); autorewrite with kept; done. Qed.

(** Refreshing the definitions changes the definitions, queues and publications. *)
Lemma refreshDefinitions_kept next err s :
  feed (refreshDefinitions next err s) = feed s ∧ members (refreshDefinitions next err s) = members s ∧
  cs_scopes (refreshDefinitions next err s) = cs_scopes s.
Proof.
  unfold refreshDefinitions. set (s1 := if cfg_ClusterDefinitions _ then _ else _).
  assert (E1 : feed s1 = feed s ∧ members s1 = members s ∧ cs_scopes s1 = cs_scopes s).
  { subst s1. case_match; destruct s; done. }
  case_match; [done|]. set (s2 := over cs_definitionVersion _ s1).
  assert (E2 : feed s2 = feed s ∧ members s2 = members s ∧ cs_scopes s2 = cs_scopes s).
  { destruct E1 as (<- & <- & <-). by destruct s1. }
  match goal with |- context [feed ?x] => assert (E3 : core x = core s2) end.
  { rewrite core_foldl by (intros; apply core_requeue_selected).
    rewrite core_foldl by (intros; apply core_requeue_root).
    match goal with |- core (if ?b then _ else _) = _ => destruct b end; [apply core_enqueueScopeRefresh|].
    apply core_foldl. intros. apply core_requeue_object. }
  destruct E2 as (<- & <- & <-). split_and!; [by apply feed_core|by apply members_core|].
  by apply core_fields in E3 as (_ & _ & _ & _ & _ & _ & _ & _ & -> & _).
Qed.

(** ** Watch steps *)

Lemma members_updateWatchHealth id err s : members (updateWatchHealth id err s) = members s.
Proof. unfold updateWatchHealth, alter_watch, add_sync, enqueueScopeRefresh, add_pod. solve_members. Qed.

Lemma members_clear_failures covered s : members (clear_failures covered s) = members s.
Proof.
  unfold clear_failures. set (s1 := over cs_watchFailures _ s).
  assert (E : members s1 = members s) by (subst s1; by autorewrite with members). rewrite <- E. clear E.
  generalize (elements (filter (λ q, covered q = true) (dom (cs_watchFailures s)))). clearbody s1. intros l.
  revert s1. induction l as [|q l IH]; intros s1; [done|]. cbn. rewrite IH. by autorewrite with members.
Qed.

Lemma feed_clear_failures covered s : feed (clear_failures covered s) = feed s.
Proof.
  unfold clear_failures. rewrite feed_foldl; [by autorewrite with feed|]. intros. by autorewrite with feed.
Qed.

Lemma members_recordWatchFailure request ref err s : members (recordWatchFailure request ref err s).2 = members s.
Proof. unfold recordWatchFailure. solve_members. Qed.

Lemma feed_recordWatchFailure request ref err s : feed (recordWatchFailure request ref err s).2 = feed s.
Proof. unfold recordWatchFailure. solve_feed. Qed.

Lemma members_ensureWatch mapping caller gvk namespace metadataOnly s :
  members (ensureWatch mapping caller gvk namespace metadataOnly s).2 = members s.
Proof.
  unfold ensureWatch. destruct mapping as [mapping|err].
  - set (s1 := clear_failures _ s).
    assert (E : members s1 = members s) by apply members_clear_failures. clearbody s1.
    repeat (case_match || autorewrite with members); cbn [snd]; autorewrite with members; try done; congruence.
  - pose proof (members_recordWatchFailure (MkWatchRequest gvk namespace)
      (MkObjectRef gvk namespace "" (sourceFailureUID gvk namespace) "") err s) as E.
    destruct (recordWatchFailure _ _ _ s) as [[[]|] s']; exact E.
Qed.

Lemma coherent_ensureWatch mapping caller gvk namespace metadataOnly s :
  coherent_state s → coherent_state (ensureWatch mapping caller gvk namespace metadataOnly s).2.
Proof.
  intros Hs. unfold ensureWatch. destruct mapping as [mapping|err].
  - set (namespace' := if _ || _ then "" else namespace). set (s1 := clear_failures _ s).
    assert (Hs1 : coherent_state s1) by (eapply coherent_same; [apply feed_clear_failures|done]).
    clearbody s1. clear s Hs. destruct (_ && _); [done|].
    set (key := MkSourceKey (rm_Resource mapping) namespace').
    destruct (match cs_watches s1 !! key with Some _ => _ | None => false end) eqn:Ekept; [done|].
    destruct (ctx_error caller s1); [done|]. cbn [snd].
    set (id := fresh (dom (cs_heap s1))).
    set (w := MkResourceWatch key gvk (negb metadataOnly) false None ∅ false).
    assert (Hid : cs_heap s1 !! id = None) by (apply not_elem_of_dom, is_fresh).
    destruct (cs_watches s1 !! key) as [cur|] eqn:Ew.
    + destruct (cs_replacements s1 !! key) as [rep|] eqn:Er; [by rewrite !orb_true_r in Ekept|].
      eapply coherent_feed; [autorewrite with feed; reflexivity|].
      change key with (rw_key w). apply coherent_new_replacement; [exact Hs1|done|by exists cur|done].
    + eapply coherent_feed; [autorewrite with feed; reflexivity|].
      change (MkCacheSource gvk (negb metadataOnly) false None) with (source_of w).
      change key with (rw_key w). apply coherent_new_watch; [exact Hs1|done|done].
  - pose proof (feed_recordWatchFailure (MkWatchRequest gvk namespace)
      (MkObjectRef gvk namespace "" (sourceFailureUID gvk namespace) "") err s) as E.
    destruct (recordWatchFailure _ _ _ s) as [[[]|] s']; cbn in *; by eapply coherent_same.
Qed.

Lemma members_queueObjectChange old current s : members (queueObjectChange old current s) = members s.
Proof. apply members_core, core_queueObjectChange. Qed.

Lemma members_applyWatchEvent id value deleted s : members (applyWatchEvent id value deleted s).2 = members s.
Proof.
  unfold applyWatchEvent, rejectWatchObject, setWatchHealth, alter_watch, cache_object, uncache_object.
  repeat case_match; cbn [snd]; rewrite ?members_updateWatchHealth; try done;
    rewrite ?members_queueObjectChange; by autorewrite with members.
Qed.

Lemma coherent_applyWatchEvent id value deleted s :
  coherent_state s → coherent_state (applyWatchEvent id value deleted s).2.
Proof.
  intros Hs. unfold applyWatchEvent, rejectWatchObject, setWatchHealth.
  set (w := watch_at id s).
  destruct (prepareWatchObject value (rw_gvk w) (rw_full w)) as [o|err] eqn:Eo; [|by apply coherent_updateWatchHealth].
  destruct (no_identity o); [by apply coherent_updateWatchHealth|].
  case_bool_decide as Hcur; [|done]. cbn [negb].
  assert (Hg : un_GVK o = rw_gvk w)
    by (unfold prepareWatchObject in Eo; apply result_bind_Ok in Eo as (? & _ & [= <-]); done).
  pose proof Hcur as (w0 & Hw & _)%(wa_watch _ _ _ _ _ Hs).
  assert (w0 = w) as -> by (unfold w, watch_at; by rewrite Hw).
  assert (Hset : ∀ objects' ks, (∀ k e, objects' !! k = Some e →
       (cs_objects s !! k = Some e ∧ co_source e ≠ rw_key w) ∨
       (co_source e = rw_key w ∧ k ∈ ks ∧ un_GVK (co_object e) = rw_gvk w ∧ keyOf (refOf (co_object e)) = k)) →
     coherent objects' (cs_sources s) (<[id := with_objects ks w]> (cs_heap s)) (cs_watches s) (cs_replacements s)).
  { intros objects' ks Ho.
    rewrite <- (insert_id (cs_sources s) (rw_key w) (source_of (with_objects ks w))).
    - by eapply coherent_set_watch.
    - apply (wa_source _ _ _ _ _ Hs). by exists id, w. }
  assert (Hold : ∀ k e, cs_objects s !! k = Some e → co_source e = rw_key w →
            k ∈ rw_objects w ∧ un_GVK (co_object e) = rw_gvk w ∧ keyOf (refOf (co_object e)) = k).
  { intros k e (i & w1 & Hi & Hw1 & ?)%(wa_object _ _ _ _ _ Hs) Es. rewrite Es, Hcur in Hi.
    injection Hi as <-. rewrite Hw in Hw1. by injection Hw1 as <-. }
  destruct deleted; [case_bool_decide; [done|]|]; cbn [snd].
  - eapply coherent_feed; [autorewrite with feed; unfold alter_watch, uncache_object; autorewrite with feed; cbn;
      rewrite (heap_alter _ _ _ _ Hw); reflexivity|].
    apply Hset. intros k e [Hne He]%lookup_delete_Some.
    destruct (decide (co_source e = rw_key w)) as [Es|]; [right|by left].
    destruct (Hold _ _ He Es) as (? & ? & ?). set_solver.
  - eapply coherent_feed; [autorewrite with feed; unfold alter_watch, cache_object; autorewrite with feed; cbn;
      rewrite (heap_alter _ _ _ _ Hw); reflexivity|].
    apply Hset. intros k e [[<- <-]|[Hne He]]%lookup_insert_Some; [right; set_solver|].
    destruct (decide (co_source e = rw_key w)) as [Es|]; [right|by left].
    destruct (Hold _ _ He Es) as (? & ? & ?). set_solver.
Qed.

Lemma members_foldl {A} (f : State → A → State) l s :
  (∀ s x, members (f s x) = members s) → members (foldl f s l) = members s.
Proof. intros Hf. revert s. induction l as [|x l IH]; intros s; [done|]. cbn. by rewrite IH, Hf. Qed.

Lemma members_accept_list id key listed s : members (accept_list id key listed s) = members s.
Proof.
  unfold accept_list, enqueueScopeRefresh, add_pod, alter_watch. autorewrite with members.
  rewrite members_updateWatchHealth. autorewrite with members.
  rewrite members_foldl.
  - autorewrite with members. apply members_foldl. intros s0 k. unfold drop_missing, uncache_object.
    repeat case_match; autorewrite with members; rewrite ?members_queueObjectChange; by autorewrite with members.
  - intros s0 [k o]. unfold accept_object, cache_object. rewrite members_queueObjectChange. by autorewrite with members.
Qed.

Lemma members_Replace id values s : members (Replace id values s).2 = members s.
Proof.
  destruct (prepareWatchSnapshot values (rw_gvk (watch_at id s)) (rw_full (watch_at id s)) ∅) as [listed|err] eqn:El.
  - destruct (isTrackedWatch id s) eqn:Et; [|unfold Replace; by rewrite El, Et].
    rewrite (Replace_eq _ _ _ _ El Et). destruct (take_over id s) as [s1|] eqn:E1; [|done].
    cbn [snd]. rewrite members_accept_list. unfold take_over, alter_watch in E1.
    repeat case_match; try done; injection E1 as <-; by autorewrite with members.
  - unfold Replace. rewrite El. apply members_updateWatchHealth.
Qed.

Lemma coherent_Replace id values s : coherent_state s → coherent_state (Replace id values s).2.
Proof.
  intros Hs.
  destruct (prepareWatchSnapshot values (rw_gvk (watch_at id s)) (rw_full (watch_at id s)) ∅) as [listed|err] eqn:El.
  - destruct (isTrackedWatch id s) eqn:Et; [|unfold Replace; by rewrite El, Et].
    destruct (Replace_tracked id values listed s Hs Et El) as (s' & -> & ? & _). done.
  - unfold Replace. rewrite El. by apply coherent_updateWatchHealth.
Qed.

Lemma feed_retire_objects key l s :
  ∃ objects', feed (foldl (retire_object key) s l) =
    (objects', cs_sources s, cs_heap s, cs_watches s, cs_replacements s) ∧
  ∀ k e, objects' !! k = Some e → cs_objects s !! k = Some e ∧ (k ∈ l → co_source e ≠ key).
Proof.
  revert s. induction l as [|k0 l IH]; intros s.
  { exists (cs_objects s). split; [done|]. intros k e He. split; [done|]. by intros ?%elem_of_nil. }
  cbn [foldl]. set (s1 := retire_object key s k0). destruct (IH s1) as (objects' & E & Hk).
  assert (Ef : ∃ o1, feed s1 = (o1, cs_sources s, cs_heap s, cs_watches s, cs_replacements s) ∧
    ∀ k e, o1 !! k = Some e → cs_objects s !! k = Some e ∧ (k = k0 → co_source e ≠ key)).
  { subst s1. unfold retire_object. destruct (cs_objects s !! k0) as [entry|] eqn:Ek0.
    - case_bool_decide as Es.
      + eexists. split; [unfold uncache_object; by autorewrite with feed|].
        cbn. by intros k e [? ?]%lookup_delete_Some.
      + exists (cs_objects s). split; [done|]. intros k e He. split; [done|]. intros ->. congruence.
    - exists (cs_objects s). split; [done|]. intros k e He. split; [done|]. intros ->. congruence. }
  destruct Ef as (o1 & F & Ho1). clearbody s1. injection F as F1 F2 F3 F4 F5.
  exists objects'. split; [by rewrite E, F2, F3, F4, F5|].
  intros k e [He Hl]%Hk. rewrite F1 in He. apply Ho1 in He as [He Hk0]. split; [done|].
  intros [->|Hin]%elem_of_cons; [by apply Hk0|by apply Hl].
Qed.

Lemma members_retire_out_of_scope s p : members (retire_out_of_scope s p) = members s.
Proof.
  destruct p as [key id]. unfold retire_out_of_scope, retireWatch, alter_watch. case_match; [done|].
  set (s1 := publish _ _). assert (E : members s1 = members s).
  { subst s1. autorewrite with members. rewrite members_foldl; [by autorewrite with members|].
    intros s0 k. unfold retire_object, uncache_object. repeat case_match; rewrite ?members_queueObjectChange;
      by autorewrite with members. }
  case_match; [by autorewrite with members|done].
Qed.

Lemma retire_out_of_scope_coherent s key id :
  coherent_state s → cs_watches s !! key = Some id →
  let s' := retire_out_of_scope s (key, id) in
  coherent_state s' ∧ (∀ key', key' ≠ key → cs_watches s' !! key' = cs_watches s !! key').
Proof.
  intros Hs Hid s'. subst s'. unfold retire_out_of_scope. case_match; [done|].
  pose proof Hid as (w & Hw & Hkey)%(wa_watch _ _ _ _ _ Hs).
  assert (Ew : watch_at id s = w) by (unfold watch_at; by rewrite Hw).
  unfold retireWatch. rewrite Ew, Hkey. set (s0 := over cs_watches _ _).
  assert (F0 : feed s0 = (cs_objects s, cs_sources s, <[id := cancelled w]> (cs_heap s),
                          delete key (cs_watches s), cs_replacements s)).
  { subst s0. unfold alter_watch. autorewrite with feed. cbn. by rewrite (heap_alter _ _ _ _ Hw). }
  clearbody s0. injection F0 as F01 F02 F03 F04 F05.
  destruct (feed_retire_objects key (elements (rw_objects w)) s0) as (o1 & E1 & Ho1).
  set (s1 := foldl _ s0 _) in *. clearbody s1. injection E1 as E11 E12 E13 E14 E15.
  set (s2 := publish _ _).
  assert (F2 : feed s2 = (o1, delete key (cs_sources s), <[id := cancelled w]> (cs_heap s),
                          delete key (cs_watches s), cs_replacements s)).
  { subst s2. autorewrite with feed. cbn. by rewrite E11, E12, E13, E14, E15, F02, F03, F04, F05. }
  clearbody s2. injection F2 as F21 F22 F23 F24 F25.
  assert (Hobj : ∀ k e, o1 !! k = Some e → cs_objects s !! k = Some e ∧ co_source e ≠ key).
  { intros k e [He Hl]%Ho1. rewrite F01 in He. split; [done|]. intros Es. apply Hl; [|done].
    apply elem_of_elements. apply (wa_object _ _ _ _ _ Hs) in He as (i & w0 & Hi & Hw0 & ? & _).
    rewrite Es, Hid in Hi. injection Hi as <-. rewrite Hw in Hw0. by injection Hw0 as <-. }
  rewrite F25. destruct (cs_replacements s !! key) as [rep|] eqn:Er.
  - pose proof Er as (wr & c & Hwr & Hkr & Hc & Hne)%(wa_replacement _ _ _ _ _ Hs).
    rewrite Hid in Hc. injection Hc as <-. set (s3 := over cs_replacements _ _).
    assert (F3 : feed s3 = (o1, delete key (cs_sources s), <[rep := cancelled wr]> (<[id := cancelled w]> (cs_heap s)),
                          delete key (cs_watches s), delete key (cs_replacements s))).
    { subst s3. unfold alter_watch. autorewrite with feed. cbn. rewrite F21, F22, F23, F24, F25.
      by rewrite (heap_alter _ _ wr) by (by rewrite lookup_insert_ne). }
    clearbody s3. split.
    + eapply coherent_feed; [exact F3|]. eapply coherent_retire; [exact Hs|exact Hid| | | |exact Hobj].
      * intros i w0 [[<- <-]|[_ [[<- <-]|[_ ?]]%lookup_insert_Some]]%lookup_insert_Some; [by exists wr|by exists w|by exists w0].
      * intros i w0 Hi Hk0. rewrite !lookup_insert_ne; [done|congruence|congruence].
      * intros i w0 Hi [?|?]; simplify_eq; [rewrite lookup_insert_ne, lookup_insert_eq in Hi by done|rewrite lookup_insert_eq in Hi]; by injection Hi as <-.
    + intros key' Hk'. injection F3 as _ _ _ -> _. by rewrite lookup_delete_ne.
  - split; [|intros key' Hk'; by rewrite F24, lookup_delete_ne].
    rewrite <- (delete_id (cs_replacements s) key) in F25 by done.
    eapply coherent_feed; [unfold feed; by rewrite F21, F22, F23, F24, F25|].
    eapply coherent_retire; [exact Hs|exact Hid| | | |exact Hobj].
    + intros i w0 [[<- <-]|[_ ?]]%lookup_insert_Some; [by exists w|by exists w0].
    + intros i w0 Hi Hk0. rewrite lookup_insert_ne; [done|congruence].
    + intros i w0 Hi [?|?]; simplify_eq. rewrite lookup_insert_eq in Hi. by injection Hi as <-.
Qed.

Lemma coherent_retire_all l s :
  NoDup l.*1 → (∀ p, p ∈ l → cs_watches s !! p.1 = Some p.2) → coherent_state s →
  coherent_state (foldl retire_out_of_scope s l).
Proof.
  revert s. induction l as [|[key id] l IH]; intros s; [done|]. cbn [foldl fmap list_fmap].
  intros [Hk Hnd]%NoDup_cons Hl Hs.
  assert (Hid : cs_watches s !! key = Some id) by (apply (Hl (key, id)); by left).
  destruct (retire_out_of_scope_coherent s key id Hs Hid) as [Hs' Hother].
  apply IH; [done| |done]. intros p Hp. rewrite Hother; [apply Hl; by right|].
  intros <-. apply Hk, list_elem_of_fmap. by exists p.
Qed.

Lemma consistent_same s s' : members s' = members s → consistent s → consistent s'.
Proof. intros E. unfold consistent. by rewrite E. Qed.

Lemma foldl_kept {A} (P : State → Prop) (f : State → A → State) l s :
  (∀ s x, P s → P (f s x)) → P s → P (foldl f s l).
Proof. intros Hf. revert s. induction l as [|x l IH]; intros s Hs; [done|]. cbn. by apply IH, Hf. Qed.

Lemma refreshScopes_kept s :
  feed (refreshScopes s).2 = feed s ∧ (consistent s → consistent (refreshScopes s).2).
Proof.
  unfold refreshScopes. destruct (is_nil _); [done|]. destruct (bool_decide _); [done|].
  destruct (admittedNamespaces s) as [admitted|]; [|done]. cbn [snd]. split.
  - rewrite feed_foldl; [by autorewrite with feed|]. intros s0 p. unfold remove_root_out_of_scope.
    case_match; [done|apply feed_removeRoot].
  - intros Hs. apply foldl_kept.
    + intros s0 p Hs0. unfold remove_root_out_of_scope. case_match; [done|by apply consistent_removeRoot].
    + eapply consistent_same; [|exact Hs]. by autorewrite with members.
Qed.

Lemma prepareWatchRequests_kept definitions sourceErr s :
  consistent s → coherent_state s →
  consistent (prepareWatchRequests definitions sourceErr s).2 ∧
  coherent_state (prepareWatchRequests definitions sourceErr s).2.
Proof.
  intros Hm Hw. unfold prepareWatchRequests.
  destruct (refreshDefinitions_kept definitions sourceErr s) as (Ef & Em & _).
  destruct (refreshScopes_kept (refreshDefinitions definitions sourceErr s)) as [Ef' Hm'].
  specialize (Hm' (consistent_same _ _ Em Hm)). rewrite Ef in Ef'.
  destruct (refreshScopes _) as [[[]|err] s1]; cbn [snd] in *; [|by eauto using coherent_same].
  assert (Hw' : coherent_state s1) by (by eapply coherent_same). split.
  - eapply consistent_same; [|exact Hm']. rewrite members_clear_failures.
    apply members_foldl, members_retire_out_of_scope.
  - eapply coherent_same; [apply feed_clear_failures|].
    apply coherent_retire_all; [apply NoDup_fst_map_to_list| |done].
    intros [key id] Hp. by apply elem_of_map_to_list in Hp.
Qed.

Lemma coherent_stopWatches s : coherent_state s → coherent_state (stopWatches s).
Proof.
  intros Hs. unfold stopWatches. set (ids := list_to_set _).
  assert (Hlook : ∀ i w, map_imap (λ id w, Some (if bool_decide (id ∈ ids) then cancelled w else w)) (cs_heap s) !! i = Some w ↔
            ∃ w0, cs_heap s !! i = Some w0 ∧ w = if bool_decide (i ∈ ids) then cancelled w0 else w0).
  { intros i w. rewrite map_lookup_imap. destruct (cs_heap s !! i); cbn; naive_solver. }
  eapply coherent_feed; [by autorewrite with feed|]. cbn. split.
  - intros key i (w & Hw & Hk)%(wa_watch _ _ _ _ _ Hs). eexists. split; [apply Hlook; by exists w|]. by case_match.
  - intros key i (w & c & Hw & Hk & ?)%(wa_replacement _ _ _ _ _ Hs). eexists _, c.
    split_and!; [apply Hlook; by exists w| |naive_solver..]. by case_match.
  - intros key source. rewrite (wa_source _ _ _ _ _ Hs). split.
    + intros (i & w & Hi & Hw & ->). eexists i, _. split_and!; [done|apply Hlook; by exists w|]. by case_match.
    + intros (i & w & Hi & (w0 & Hw & ->)%Hlook & ->). exists i, w0. split_and!; [done..|]. by case_match.
  - intros k e (i & w & Hi & Hw & ? & ? & ?)%(wa_object _ _ _ _ _ Hs). eexists i, _.
    split_and!; [done|apply Hlook; by exists w|by case_match|by case_match|done].
  - intros i w (w0 & Hw & ->)%Hlook. destruct (wa_leak _ _ _ _ _ Hs _ _ Hw); case_match; naive_solver.
Qed.

End steps.

#[export] Hint Rewrite @core_publishPodFailure @core_failPodEvaluation @core_failWorkload @core_publishPod
  @core_failSelectedObjectDiscovery : kept.
#[export] Hint Rewrite @feed_registerPodRoot @feed_unregisterPod @feed_removeSelectedObjectMembership
  @feed_trackSelectedObject @feed_replaceSelectedObjectTracking @feed_excludeSelectedObject
  @feed_registerSelectedObjectRoot @feed_removeRoot @feed_publishWorkload : feed.
#[export] Hint Rewrite @members_updateWatchHealth @members_ensureWatch @members_applyWatchEvent
  @members_Replace : members.
#[export] Hint Resolve consistent_registerPodRoot consistent_unregisterPod consistent_trackSelectedObject
  consistent_replaceSelectedObjectTracking consistent_excludeSelectedObject
  consistent_registerSelectedObjectRoot consistent_removeRoot consistent_publishWorkload : controller.
#[export] Hint Resolve coherent_ensureWatch coherent_applyWatchEvent coherent_Replace
  coherent_updateWatchHealth coherent_stopWatches : controller.
