(* ===== verification/ControllerBoard.v ===== *)
(** * ControllerBoard: what the controller has published

    Published pods are filed under the UID of their record, and a workload is
    published only while its root is known, under the root's UID; every
    operation keeps this. *)

From S2P Require Import Prelude Api Literal Sort Summary Store Discovery Inventory ControllerState ControllerSources ControllerInvariant ControllerSteps.

Create Rewrite HintDb board.

Section board.
Context `{!KubernetesErrors, !Kubernetes, !WatchLibrary} {r : Settings}.
Implicit Types (s : State).

(** The published pods and workloads, and the roots there are. *)
Definition board s := (st_pods (cs_publications s), st_workloads (cs_publications s), dom (cs_roots s)).

Definition accounted s : Prop :=
  (∀ uid result, Store.Pod uid (cs_publications s) = Some result → pr_UID (pres_Record result) = uid) ∧
  (∀ uid result, Store.Workload uid (cs_publications s) = Some result →
     wr_UID (wres_Record result) = uid ∧ is_Some (cs_roots s !! uid)).

Lemma accounted_board s s' : board s' = board s → accounted s → accounted s'.
Proof.
  intros [= E1 E2 E3] [Hp Hw]. unfold accounted, Store.Pod, Store.Workload. rewrite E1, E2. split; [exact Hp|].
  intros uid result Hr. destruct (Hw uid result Hr) as [? Hroot]. split; [done|].
  apply elem_of_dom. rewrite E3. by apply elem_of_dom.
Qed.

(** *** What leaves the board alone *)

Lemma board_objects f s : board (over cs_objects f s) = board s. Proof. by destruct s. Qed.
Lemma board_sources f s : board (over cs_sources f s) = board s. Proof. by destruct s. Qed.
Lemma board_heap f s : board (over cs_heap f s) = board s. Proof. by destruct s. Qed.
Lemma board_watches f s : board (over cs_watches f s) = board s. Proof. by destruct s. Qed.
Lemma board_replacements f s : board (over cs_replacements f s) = board s. Proof. by destruct s. Qed.
Lemma board_watchFailures f s : board (over cs_watchFailures f s) = board s. Proof. by destruct s. Qed.
Lemma board_podRoots f s : board (over cs_podRoots f s) = board s. Proof. by destruct s. Qed.
Lemma board_ancestorPods f s : board (over cs_ancestorPods f s) = board s. Proof. by destruct s. Qed.
Lemma board_outcomes f s : board (over cs_selectedObjectRoots f s) = board s. Proof. by destruct s. Qed.
Lemma board_podQueue f s : board (over cs_podQueue f s) = board s. Proof. by destruct s. Qed.
Lemma board_workloadQueue f s : board (over cs_workloadQueue f s) = board s. Proof. by destruct s. Qed.
Lemma board_watchSyncQueue f s : board (over cs_watchSyncQueue f s) = board s. Proof. by destruct s. Qed.
Lemma board_definitionVersion f s : board (over cs_definitionVersion f s) = board s. Proof. by destruct s. Qed.
Lemma board_scopes v s : board (assign cs_scopes v s) = board s. Proof. by destruct s. Qed.
Lemma board_selectedDefinitions v s : board (assign cs_selectedDefinitions v s) = board s. Proof. by destruct s. Qed.
Lemma board_inventoryErr v s : board (assign cs_definitionInventoryErr v s) = board s. Proof. by destruct s. Qed.
Lemma board_ctx v s : board (assign cs_ctx v s) = board s. Proof. by destruct s. Qed.
Lemma board_source_health key health s : board (publish (SetSourceHealth key health) s) = board s.
Proof. by destruct s. Qed.
Lemma board_no_source key s : board (publish (RemoveSourceHealth key) s) = board s. Proof. by destruct s. Qed.
Lemma board_failure ref err s : board (publish (SetDiscoveryFailure ref err) s) = board s. Proof. by destruct s. Qed.
Lemma board_no_failure uid s : board (publish (RemoveDiscoveryFailure uid) s) = board s. Proof. by destruct s. Qed.
Lemma board_add_pod key s : board (add_pod key s) = board s. Proof. by destruct s. Qed.
Lemma board_add_workload key s : board (add_workload key s) = board s. Proof. by destruct s. Qed.
Lemma board_add_sync key s : board (add_sync key s) = board s. Proof. by destruct s. Qed.
Lemma board_enqueueScopeRefresh namespace s : board (enqueueScopeRefresh namespace s) = board s. Proof. by destruct s. Qed.
Lemma board_alter_root uid f s : board (alter_root uid f s) = board s.
Proof. unfold board, alter_root. destruct s. cbn. by rewrite dom_alter_L. Qed.
#[local] Hint Rewrite board_objects board_sources board_heap board_watches board_replacements board_watchFailures
  board_podRoots board_ancestorPods board_outcomes board_podQueue board_workloadQueue board_watchSyncQueue
  board_definitionVersion board_scopes board_selectedDefinitions board_inventoryErr board_ctx
  board_source_health board_no_source board_failure board_no_failure board_add_pod board_add_workload
  board_add_sync board_enqueueScopeRefresh board_alter_root : board.

Ltac same_board := repeat (case_match || autorewrite with board); cbn [snd]; autorewrite with board; try done.

Lemma board_foldl {A} (f : State → A → State) l s :
  (∀ s x, board (f s x) = board s) → board (foldl f s l) = board s.
Proof. intros Hf. revert s. induction l as [|x l IH]; intros s; [done|]. cbn. by rewrite IH, Hf. Qed.

Lemma board_enqueuePod o s : board (enqueuePod o s) = board s. Proof. unfold enqueuePod. same_board. Qed.
#[local] Hint Rewrite board_enqueuePod : board.
Lemma board_enqueueObject o s : board (enqueueObject o s) = board s. Proof. unfold enqueueObject. same_board. Qed.
Lemma board_enqueueMembers root s : board (enqueueMembers root s) = board s. Proof. unfold enqueueMembers. same_board. Qed.
#[local] Hint Rewrite board_enqueueObject board_enqueueMembers : board.
Lemma board_enqueueRootAndMembers uid s : board (enqueueRootAndMembers uid s) = board s.
Proof. unfold enqueueRootAndMembers. same_board. Qed.
#[local] Hint Rewrite board_enqueueRootAndMembers : board.
Lemma board_requeueScope namespace s : board (requeueScope namespace s) = board s.
Proof. unfold requeueScope. rewrite board_foldl; [rewrite board_foldl; [done|]|]; intros; same_board. Qed.
Lemma board_queueObjectChange old current s : board (queueObjectChange old current s) = board s.
Proof. unfold queueObjectChange. same_board. Qed.
#[local] Hint Rewrite board_requeueScope board_queueObjectChange : board.

Lemma board_removeSelectedObjectMembership key s : board (removeSelectedObjectMembership key s) = board s.
Proof. unfold removeSelectedObjectMembership. same_board. Qed.
#[local] Hint Rewrite board_removeSelectedObjectMembership : board.
Lemma board_trackSelectedObject key s : board (trackSelectedObject key s) = board s.
Proof. unfold trackSelectedObject. same_board. Qed.
Lemma board_replaceSelectedObjectTracking key o selection s :
  board (replaceSelectedObjectTracking key o selection s).2 = board s.
Proof. unfold replaceSelectedObjectTracking. same_board. Qed.
Lemma board_excludeSelectedObject key w selection rootSelection s :
  board (excludeSelectedObject key w selection rootSelection s).2 = board s.
Proof. unfold excludeSelectedObject. same_board. Qed.

(** *** Watches and definitions *)

Lemma board_updateWatchHealth id err s : board (updateWatchHealth id err s) = board s.
Proof. unfold updateWatchHealth, alter_watch. same_board. Qed.
#[local] Hint Rewrite board_updateWatchHealth : board.
Lemma board_clear_failures covered s : board (clear_failures covered s) = board s.
Proof. unfold clear_failures. rewrite board_foldl; [by autorewrite with board|]. intros. same_board. Qed.
Lemma board_recordWatchFailure request ref err s : board (recordWatchFailure request ref err s).2 = board s.
Proof. unfold recordWatchFailure. same_board. Qed.

Lemma board_ensureWatch mapping caller gvk namespace metadataOnly s :
  board (ensureWatch mapping caller gvk namespace metadataOnly s).2 = board s.
Proof.
  unfold ensureWatch. destruct mapping as [mapping|err].
  - set (s1 := clear_failures _ s).
    assert (E : board s1 = board s) by apply board_clear_failures. clearbody s1.
    repeat (case_match || autorewrite with board); cbn [snd]; autorewrite with board; try done; congruence.
  - pose proof (board_recordWatchFailure (MkWatchRequest gvk namespace)
      (MkObjectRef gvk namespace "" (sourceFailureUID gvk namespace) "") err s) as E.
    destruct (recordWatchFailure _ _ _ s) as [[[]|] s']; exact E.
Qed.

Lemma board_applyWatchEvent id value deleted s : board (applyWatchEvent id value deleted s).2 = board s.
Proof. unfold applyWatchEvent, rejectWatchObject, setWatchHealth, alter_watch, cache_object, uncache_object. same_board. Qed.

Lemma board_accept_list id key listed s : board (accept_list id key listed s) = board s.
Proof.
  unfold accept_list, alter_watch. autorewrite with board. rewrite board_foldl.
  - autorewrite with board. apply board_foldl. intros s0 k. unfold drop_missing, uncache_object. same_board.
  - intros s0 [k o]. unfold accept_object, cache_object. by autorewrite with board.
Qed.

Lemma board_Replace id values s : board (Replace id values s).2 = board s.
Proof.
  destruct (prepareWatchSnapshot values (rw_gvk (watch_at id s)) (rw_full (watch_at id s)) ∅) as [listed|err] eqn:El.
  - destruct (isTrackedWatch id s) eqn:Et; [|unfold Replace; by rewrite El, Et].
    rewrite (Replace_eq _ _ _ _ El Et). destruct (take_over id s) as [s1|] eqn:E1; [|done].
    cbn [snd]. rewrite board_accept_list. unfold take_over, alter_watch in E1.
    repeat case_match; try done; injection E1 as <-; by autorewrite with board.
  - unfold Replace. rewrite El. apply board_updateWatchHealth.
Qed.

Lemma board_retire_out_of_scope s p : board (retire_out_of_scope s p) = board s.
Proof.
  destruct p as [key id]. unfold retire_out_of_scope, retireWatch, alter_watch. case_match; [done|].
  set (s1 := publish _ _). assert (E : board s1 = board s).
  { subst s1. autorewrite with board. rewrite board_foldl; [by autorewrite with board|].
    intros s0 k. unfold retire_object, uncache_object. same_board. }
  case_match; [by autorewrite with board|done].
Qed.

Lemma board_refreshDefinitions next err s : board (refreshDefinitions next err s) = board s.
Proof.
  unfold refreshDefinitions. set (s1 := if cfg_ClusterDefinitions _ then _ else _).
  assert (E1 : board s1 = board s) by (subst s1; same_board). clearbody s1.
  case_match; [done|]. rewrite board_foldl by (intros; unfold requeue_selected; same_board).
  rewrite board_foldl by (intros ? []; unfold requeue_root; same_board).
  match goal with |- board (if ?b then _ else _) = _ => destruct b end; [by autorewrite with board|].
  rewrite board_foldl by (intros; unfold requeue_object; same_board). by autorewrite with board.
Qed.

(** *** Roots come and go *)

(** A root more does no harm. *)
Lemma accounted_more s s' :
  (board s').1 = (board s).1 → (board s).2 ⊆ (board s').2 → accounted s → accounted s'.
Proof.
  intros [= E1 E2] Hdom [Hp Hw]. unfold accounted, Store.Pod, Store.Workload. rewrite E1, E2. split; [exact Hp|].
  intros uid result Hr. destruct (Hw uid result Hr) as [? Hroot]. split; [done|].
  apply elem_of_dom, Hdom. by apply elem_of_dom.
Qed.

Lemma board_roots_insert uid root s :
  board (over cs_roots (insert uid root) s) = ((board s).1, {[uid]} ∪ (board s).2).
Proof. unfold board. destruct s. cbn. by rewrite dom_insert_L. Qed.

Lemma board_ensureRoot w s :
  board (ensureRoot w s).2 = ((board s).1, {[or_UID (gw_Root w)]} ∪ (board s).2).
Proof. unfold ensureRoot. repeat case_match; cbn [snd]; autorewrite with board; rewrite board_roots_insert; by autorewrite with board. Qed.

Lemma accounted_registerPodRoot key w s : accounted s → accounted (registerPodRoot key w s).2.
Proof.
  intros Hs. unfold registerPodRoot. destruct (_ || _ || _); [done|]. destruct (negb _); [done|].
  pose proof (board_ensureRoot w s) as E. destruct (ensureRoot w s) as [root s1]. cbn [snd] in E.
  eapply (accounted_more s); [|  |done]; case_match; cbn [snd]; autorewrite with board;
    try (destruct (is_nil _); autorewrite with board); rewrite E; cbn; set_solver.
Qed.

Lemma accounted_registerSelectedObjectRoot key w selection rootSelection s :
  accounted s → accounted (registerSelectedObjectRoot key w selection rootSelection s).2.
Proof.
  intros Hs. unfold registerSelectedObjectRoot. destruct (_ || _); [done|]. destruct (_ || _); [done|].
  pose proof (board_ensureRoot w s) as E. destruct (ensureRoot w s) as [root s1]. cbn [snd] in E |- *.
  eapply (accounted_more s); [| |done]; autorewrite with board;
    (destruct (_ && _); autorewrite with board); rewrite E; cbn; set_solver.
Qed.

Lemma accounted_unregisterPod key s : accounted s → accounted (unregisterPod key s).
Proof.
  intros Hs. unfold unregisterPod. set (s1 := over cs_podRoots _ _).
  assert (E : board s1 = board s) by (subst s1; same_board). apply (accounted_board _ s1) in Hs; [|done].
  clearbody s1. clear E s. destruct Hs as [Hp Hw]. split; [|by destruct s1].
  intros uid result Hr. apply Hp. destruct s1. unfold Store.Pod in *. cbn in Hr.
  by apply lookup_delete_Some in Hr as [_ ?].
Qed.

Lemma accounted_removeRoot uid s : accounted s → accounted (removeRoot uid s).
Proof.
  intros Hs. unfold removeRoot. set (s1 := match cs_roots s !! uid with None => s | Some _ => _ end).
  assert (E : board s1 = board s) by (subst s1; same_board). apply (accounted_board _ s1) in Hs; [|done].
  clearbody s1. clear E s. destruct Hs as [Hp Hw]. split; [by destruct s1|].
  intros u result Hr. destruct s1. unfold Store.Workload in *. cbn in *.
  apply lookup_delete_Some in Hr as [Hne Hr]. rewrite lookup_delete_ne by done. by apply Hw.
Qed.

Lemma accounted_RemoveWorkload uid s : accounted s → accounted (publish (RemoveWorkload uid) s).
Proof.
  intros [Hp Hw]. split; [by destruct s|]. intros u result Hr. destruct s. unfold Store.Workload in *. cbn in *.
  apply lookup_delete_Some in Hr as [Hne Hr]. by apply Hw.
Qed.

Lemma accounted_UpsertPod result s : accounted s → accounted (publish (UpsertPod result) s).
Proof.
  intros [Hp Hw]. split; [|by destruct s]. intros u result' Hr. destruct s. unfold Store.Pod in *. cbn in *.
  by apply lookup_insert_Some in Hr as [[? <-]|[_ ?]]; [|apply Hp].
Qed.

Lemma accounted_UpsertWorkload result s :
  is_Some (cs_roots s !! wr_UID (wres_Record result)) → accounted s → accounted (publish (UpsertWorkload result) s).
Proof.
  intros Hroot [Hp Hw]. split; [by destruct s|]. intros u result' Hr. destruct s. unfold Store.Workload in *. cbn in *.
  by apply lookup_insert_Some in Hr as [[<- <-]|[_ ?]]; [|apply Hw].
Qed.

(** *** Publication *)

Lemma accounted_publishPodFailure key sources cause root s :
  accounted s → accounted (publishPodFailure key sources cause root s).2.
Proof.
  intros Hs. unfold publishPodFailure. case_match; [done|]. case_match. cbn [snd]. by apply accounted_UpsertPod.
Qed.

Lemma accounted_failPodEvaluation key sources path cause root selection s :
  accounted s → accounted (failPodEvaluation key sources path cause root selection s).2.
Proof.
  intros Hs. unfold failPodEvaluation. repeat case_match; [done..|]. by apply accounted_publishPodFailure.
Qed.

Lemma accounted_publishPod path root selection next failed s :
  accounted s → accounted (publishPod path root selection next failed s).2.
Proof.
  intros Hs. unfold publishPod. repeat case_match; cbn [snd]; try done; by apply accounted_UpsertPod.
Qed.

Lemma accounted_failWorkload uid ref sources cause s :
  accounted s → accounted (failWorkload uid ref sources cause s).2.
Proof.
  intros Hs. unfold failWorkload. destruct (cs_roots s !! uid) as [root|] eqn:Er; cbn [is_nil]; [|done].
  destruct (Store.Workload uid (cs_publications s)) as [previous|] eqn:Ep; cbn [snd];
    (apply accounted_UpsertWorkload; [|done]); cbn.
  - apply (proj2 Hs) in Ep as [-> _]. by eexists.
  - by eexists.
Qed.

Lemma accounted_publishWorkload uid ref selection next s :
  wr_UID (wres_Record next) = uid → accounted s → accounted (publishWorkload uid ref selection next s).2.
Proof.
  intros Hid Hs. unfold publishWorkload. destruct (cs_roots s !! uid) as [root|] eqn:Er; cbn [is_nil orb]; [|done].
  repeat (case_match; [done|]). cbn [snd]. apply accounted_UpsertWorkload.
  - apply elem_of_dom. change (dom (cs_roots ?x)) with (board x).2. rewrite board_alter_root. cbn. apply elem_of_dom.
    assert (E : ∀ n, n = next ∨ n = keep_workload_record selection (Store.Workload uid (cs_publications s)) next →
                wr_UID (wres_Record n) = uid).
    { intros n [->| ->]; [done|]. unfold keep_workload_record.
      destruct (Store.Workload uid (cs_publications s)) as [previous|] eqn:Ep; [|done].
      case_match; [|done]. cbn. by apply (proj2 Hs) in Ep as [-> _]. }
    rewrite E by (case_match; tauto). by eexists.
  - eapply accounted_board; [apply board_alter_root|done].
Qed.

Lemma accounted_prepareWatchRequests definitions sourceErr s :
  accounted s → accounted (prepareWatchRequests definitions sourceErr s).2.
Proof.
  intros Hs. unfold prepareWatchRequests.
  apply (accounted_board _ _ (board_refreshDefinitions definitions sourceErr s)) in Hs.
  set (s1 := refreshDefinitions _ _ _) in *. clearbody s1. clear s.
  assert (Hr : accounted (refreshScopes s1).2).
  { unfold refreshScopes. destruct (is_nil _); [done|]. destruct (bool_decide _); [done|].
    destruct (admittedNamespaces s1) as [admitted|]; [|done]. cbn [snd]. apply foldl_kept.
    - intros s0 p Hs0. unfold remove_root_out_of_scope. case_match; [done|by apply accounted_removeRoot].
    - eapply accounted_board; [apply board_scopes|done]. }
  destruct (refreshScopes s1) as [[[]|err] s2]; cbn [snd] in *; [|done].
  eapply accounted_board; [rewrite board_clear_failures; apply board_foldl, board_retire_out_of_scope|done].
Qed.
End board.

#[export] Hint Rewrite @board_objects @board_sources @board_heap @board_watches @board_replacements
  @board_watchFailures @board_podRoots @board_ancestorPods @board_outcomes @board_podQueue
  @board_workloadQueue @board_watchSyncQueue @board_definitionVersion @board_scopes
  @board_selectedDefinitions @board_inventoryErr @board_ctx @board_source_health @board_no_source
  @board_failure @board_no_failure @board_add_pod @board_add_workload @board_add_sync
  @board_enqueueScopeRefresh @board_alter_root @board_enqueuePod @board_enqueueObject
  @board_enqueueMembers @board_enqueueRootAndMembers @board_requeueScope @board_queueObjectChange
  @board_removeSelectedObjectMembership @board_trackSelectedObject @board_replaceSelectedObjectTracking
  @board_excludeSelectedObject @board_updateWatchHealth @board_ensureWatch @board_applyWatchEvent
  @board_Replace : board.
#[export] Hint Resolve accounted_registerPodRoot accounted_registerSelectedObjectRoot accounted_unregisterPod
  accounted_removeRoot accounted_RemoveWorkload accounted_publishPodFailure accounted_failPodEvaluation
  accounted_publishPod accounted_failWorkload accounted_publishWorkload accounted_prepareWatchRequests : controller.
