(* ===== verification/ControllerReach.v ===== *)
(** * ControllerReach: the reachable states of the controller

    Every locked method is an operation; a state is reachable when some sequence
    of operations leads to it from the one [New] makes.  Memberships and watches
    agree in every reachable state, the handlers never leave these states,
    whatever other goroutines do between their operations, and no operation
    changes the cache without queueing what the change concerns. *)

From S2P Require Import Prelude Api Value Runner Accessor Component PodQuerier Literal Sort Summary Gang Store Discovery LabelResolver Inventory ControllerState ControllerSources ControllerReconcile ControllerInvariant ControllerSteps ControllerBoard.

(** ** Operations *)

Section operations.
Context `{!KubernetesErrors, !Kubernetes, !WatchLibrary} {r : Settings}.

(** The methods that write, with their arguments. *)
Inductive op :=
  | RegisterPodRoot (key : objectJobKey) (w : GenericWorkload)
  | UnregisterPod (key : objectJobKey)
  | PublishPodFailure (key : objectJobKey) (sources : list SourceKey) (cause : error) (root : option ObjectRef)
  | FailPodEvaluation (key : objectJobKey) (sources : list SourceKey) (path : list ObjectRef) (cause : error)
      (root : ObjectRef) (selection : selectedDefinition)
  | PublishPod (path : list ObjectRef) (root : ObjectRef) (selection : selectedDefinition) (next : PodResult)
      (labelFailed : bool)
  | RequeueScope (namespace : string)
  | TrackSelectedObject (key : objectJobKey)
  | UnregisterSelectedObject (key : objectJobKey)
  | ReplaceSelectedObjectTracking (key : objectJobKey) (o : option object) (selection : selectedDefinition)
  | ExcludeSelectedObject (key : objectJobKey) (w : GenericWorkload) (selection rootSelection : selectedDefinition)
  | RegisterSelectedObjectRoot (key : objectJobKey) (w : GenericWorkload)
      (selection rootSelection : selectedDefinition)
  | FailSelectedObjectDiscovery (key : objectJobKey) (err : error)
  | WithdrawWorkload (uid : UID)
  | RemovePublishedWorkload (uid : UID)
  | FailWorkload (uid : UID) (ref : ObjectRef) (sources : list SourceKey) (cause : error)
  | PublishWorkload (uid : UID) (ref : ObjectRef) (selection : selectedDefinition) (next : WorkloadResult)
  | EnsureWatch (mapping : result RESTMapping) (caller : option error) (gvk : GroupVersionKind)
      (namespace : string) (metadataOnly : bool)
  | PrepareWatchRequests (definitions : gmap GroupKind selectedDefinition) (sourceErr : option error)
  | ReplaceList (id : nat) (values : list watch_value)
  | ApplyWatchEvent (id : nat) (value : watch_value) (deleted : bool)
  | SetWatchHealth (id : nat) (err : option error)
  | Start (ctx : lifetime)
  | StopWatches
  | AddPod (key : objectJobKey) | TakePod (key : objectJobKey)
  | AddWorkload (key : workloadJobKey) | TakeWorkload (key : workloadJobKey)
  | AddSync (name : string) | TakeSync (name : string).

Definition exec (o : op) (s : State) : State :=
  match o with
  | RegisterPodRoot key w => (registerPodRoot key w s).2
  | UnregisterPod key => unregisterPod key s
  | PublishPodFailure key sources cause root => (publishPodFailure key sources cause root s).2
  | FailPodEvaluation key sources path cause root selection =>
      (failPodEvaluation key sources path cause root selection s).2
  | PublishPod path root selection next labelFailed => (publishPod path root selection next labelFailed s).2
  | RequeueScope namespace => requeueScope namespace s
  | TrackSelectedObject key => trackSelectedObject key s
  | UnregisterSelectedObject key => unregisterSelectedObject key s
  | ReplaceSelectedObjectTracking key o selection => (replaceSelectedObjectTracking key o selection s).2
  | ExcludeSelectedObject key w selection rootSelection => (excludeSelectedObject key w selection rootSelection s).2
  | RegisterSelectedObjectRoot key w selection rootSelection =>
      (registerSelectedObjectRoot key w selection rootSelection s).2
  | FailSelectedObjectDiscovery key err => failSelectedObjectDiscovery key err s
  | WithdrawWorkload uid => withdrawWorkload uid s
  | RemovePublishedWorkload uid => publish (RemoveWorkload uid) s
  | FailWorkload uid ref sources cause => (failWorkload uid ref sources cause s).2
  | PublishWorkload uid ref selection next => (publishWorkload uid ref selection next s).2
  | EnsureWatch mapping caller gvk namespace metadataOnly =>
      (ensureWatch mapping caller gvk namespace metadataOnly s).2
  | PrepareWatchRequests definitions sourceErr => (prepareWatchRequests definitions sourceErr s).2
  | ReplaceList id values => (Replace id values s).2
  | ApplyWatchEvent id value deleted => (applyWatchEvent id value deleted s).2
  | SetWatchHealth id err => setWatchHealth id err s
  | Start ctx => start ctx s
  | StopWatches => stopWatches s
  | AddPod key => add_pod key s | TakePod key => take_pod key s
  | AddWorkload key => add_workload key s | TakeWorkload key => take_workload key s
  | AddSync name => add_sync name s | TakeSync name => take_sync name s
  end.

(** What the callers see to: a root has an identity, and a workload is published
    under its own. *)
Definition allowed (o : op) : Prop :=
  match o with
  | RegisterPodRoot _ w | RegisterSelectedObjectRoot _ w _ _ => or_UID (gw_Root w) ≠ ""
  | PublishWorkload uid ref _ next => or_UID ref = uid ∧ wr_UID (wres_Record next) = uid
  | _ => True
  end.

(** The state [New] makes, and all that operations lead to. *)
Inductive reachable : State → Prop :=
  | reachable_New config missing s : New config missing Store.New = Ok (r, s) → reachable s
  | reachable_step o s : reachable s → allowed o → reachable (exec o s).

Lemma reachable_ops ops s : reachable s → Forall allowed ops → reachable (foldl (λ s o, exec o s) s ops).
Proof.
  intros Hs Hops. revert s Hs. induction Hops as [|o ops Ho _ IH]; intros s Hs; [done|].
  cbn. by apply IH, reachable_step.
Qed.

Lemma New_init config missing s :
  New config missing Store.New = Ok (r, s) →
  members s = (∅, ∅, ∅) ∧ feed s = (∅, ∅, ∅, ∅, ∅) ∧ board s = (∅, ∅, ∅).
Proof.
  unfold New. destruct missing; [done|]. intros (_ & _ & E)%result_bind_Ok.
  destruct (_ || _); [done|].
  apply result_bind_Ok in E as (? & _ & (? & _ & (? & _ & [= _ <-])%result_bind_Ok)%result_bind_Ok).
  split; [by repeat case_match|]. split; [by repeat case_match|].
  repeat case_match; autorewrite with board; unfold board; cbn; by rewrite dom_empty_L.
Qed.

Lemma memberships_empty : memberships ∅ ∅ ∅.
Proof.
  split.
  - by intros ? ? ?.
  - intros p uid. unfold pod_of. rewrite !lookup_empty. split; [done|by intros [? ?]].
  - intros uid p key. unfold pod_of. by rewrite lookup_empty.
  - intros key uid _. unfold objects_of. rewrite !lookup_empty. cbn. split; [done|set_solver].
Qed.

Lemma coherent_empty : coherent ∅ ∅ ∅ ∅ ∅.
Proof.
  split; try by intros ? ? ?. intros key source. rewrite lookup_empty. split; [done|]. by intros (? & ? & ? & _).
Qed.

Ltac unfold_op :=
  cbn [exec]; unfold unregisterSelectedObject, withdrawWorkload, start, take_pod, take_workload, take_sync, setWatchHealth.

Lemma coherent_exec o s : consistent s → coherent_state s → coherent_state (exec o s).
Proof.
  intros Hm Hs. destruct o; unfold_op; eauto with controller;
    try (by apply prepareWatchRequests_kept); (eapply coherent_same; [|exact Hs]);
    autorewrite with feed; try done; apply feed_core; by autorewrite with kept.
Qed.

Lemma consistent_exec o s : allowed o → consistent s → coherent_state s → consistent (exec o s).
Proof.
  intros Ho Hm Hs. destruct o; unfold_op; eauto with controller;
    try (by destruct Ho; apply consistent_publishWorkload); try (by apply prepareWatchRequests_kept); try (by apply consistent_removeSelectedObjectMembership);
    (eapply consistent_same; [|exact Hm]); unfold stopWatches, add_sync;
    autorewrite with members; try done; apply members_core; by autorewrite with kept.
Qed.

Lemma accounted_exec o s : allowed o → accounted s → accounted (exec o s).
Proof.
  intros Ho Hs. destruct o; unfold_op; eauto with controller;
    try (by destruct Ho; apply accounted_publishWorkload);
    (eapply accounted_board; [|exact Hs]); unfold stopWatches, failSelectedObjectDiscovery; autorewrite with board; done.
Qed.

Lemma reachable_kept s : reachable s → consistent s ∧ coherent_state s ∧ accounted s.
Proof.
  induction 1 as [config missing s (Em & [= E1 E2 E3 E4 E5] & [= E6 E7 _])%New_init|o s _ (Hm & Hs & Hb) Ho].
  - split_and!.
    + unfold consistent. rewrite Em. apply memberships_empty.
    + unfold coherent_state. rewrite E1, E2, E3, E4, E5. apply coherent_empty.
    + split; unfold Store.Pod, Store.Workload; [rewrite E6|rewrite E7]; by intros ? ?.
  - split_and!; [by apply consistent_exec|by apply coherent_exec|by apply accounted_exec].
Qed.

End operations.

Create HintDb safe.

(** ** The handlers stay within the reachable states *)

Section handlers.
Context `{!KubernetesErrors, !Kubernetes, !WatchLibrary} `{!Cluster} {r : Settings} `{!GoSort}.

(** Run from a reachable state, [m] ends in one, and its value satisfies [Q]. *)
Definition safe {A} (m : C A) (Q : A → Prop) : Prop :=
  ∀ w, reachable (w_state w) → reachable (w_state (m w).2) ∧ ∀ a, (m w).1 = Ok a → Q a.

Definition anything {A} (a : A) : Prop := True.

(** The rest of the program: what runs between two operations of a handler
    leads from reachable states to reachable states, and so does discovery,
    whose roots have an identity. *)
Definition identified (workload : option GenericWorkload) : Prop :=
  ∀ w, workload = Some w → or_UID (gw_Root w) ≠ "".

Class Interference : Prop := {
  interfere_reachable n s : reachable s → reachable (interfere n s);
  Discovery_Get_safe ref : safe (Discovery_Get ref) identified;
}.

Context `{!Interference}.

Lemma safe_weaken {A} (m : C A) (Q Q' : A → Prop) : safe m Q → (∀ a, Q a → Q' a) → safe m Q'.
Proof. intros Hm HQ w Hw. destruct (Hm w Hw) as [? Ha]. split; [done|]. eauto. Qed.

Lemma safe_ret {A} (a : A) (Q : A → Prop) : Q a → safe (mret a) Q.
Proof. intros Ha w Hw. split; [done|]. by intros ? [= <-]. Qed.

Lemma safe_fail {A} err (Q : A → Prop) : safe (fail err) Q.
Proof. intros w Hw. split; [done|]. by intros ? ?. Qed.

Lemma safe_lift {A} (m : result A) (Q : A → Prop) : (∀ a, m = Ok a → Q a) → safe (lift m) Q.
Proof. intros Ha w Hw. split; [done|]. intros a E. by apply Ha. Qed.

Lemma safe_bind {A B} (m : C A) (f : A → C B) Q R :
  safe m Q → (∀ a, Q a → safe (f a) R) → safe (m ≫= f) R.
Proof.
  intros Hm Hf w Hw. destruct (Hm w Hw) as [Hw' Ha]. unfold mbind, M_bind.
  destruct (m w) as [[a|err] w']; [|by split]. by apply Hf; [apply Ha|].
Qed.

Lemma safe_attempt {A} (m : C A) (Q : A → Prop) :
  safe m Q → safe (attempt m) (λ outcome, ∀ a, outcome = Ok a → Q a).
Proof.
  intros Hm w Hw. destruct (Hm w Hw) as [Hw' Ha]. unfold attempt. destruct (m w) as [outcome w'].
  split; [done|]. by intros ? [= <-].
Qed.

Lemma safe_locked {A} (m : M State A) (Q : A → Prop) :
  (∀ s, reachable s → reachable (m s).2 ∧ ∀ a, (m s).1 = Ok a → Q a) → safe (locked m) Q.
Proof.
  intros Hm w Hw. unfold locked. destruct (Hm _ (interfere_reachable (w_turn w) _ Hw)) as [Hs Ha].
  by destruct (m _) as [a s].
Qed.

Lemma safe_op {A} (m : M State A) o :
  allowed o → (∀ s, (m s).2 = exec o s) → safe (locked m) anything.
Proof. intros Ho E. apply safe_locked. intros s Hs. rewrite E. split; [by apply reachable_step|done]. Qed.

Lemma safe_update f o : allowed o → (∀ s, f s = exec o s) → safe (update f) anything.
Proof. intros Ho E. by eapply safe_op. Qed.

Lemma safe_query {A} (f : State → A) : safe (query f) (λ a, ∃ s, reachable s ∧ a = f s).
Proof. apply safe_locked. intros s Hs. split; [done|]. intros a [= <-]. by exists s. Qed.

Lemma safe_turn : safe turn anything.
Proof. intros w Hw. by split. Qed.

(** The reader answers with the object asked for. *)
Lemma lookupObject_uid ref full s o key : lookupObject ref full s = Ok (o, key) → or_UID ref ≠ "" → uid_of o = or_UID ref.
Proof.
  unfold lookupObject. intros E Hne. repeat (case_match; try done). simplify_eq.
  destruct (bool_decide (or_UID ref ≠ "")) eqn:B1; [|by apply bool_decide_eq_false in B1].
  match goal with H : _ && _ = false |- _ => cbn in H; apply bool_decide_eq_false, dec_stable in H; done end.
Qed.

Lemma safe_read ref full : safe (read ref full) (λ p, or_UID ref ≠ "" → uid_of p.1 = or_UID ref).
Proof.
  apply safe_locked. intros s Hs. split; [done|]. intros [o key] E. by eapply lookupObject_uid.
Qed.

Lemma safe_restMapping gvk : safe (restMapping gvk) anything.
Proof.
  eapply safe_bind; [apply safe_turn|]. intros n _. destruct (ctx_Err n); [apply safe_fail|].
  destruct (RESTMappingWithContext n gvk); [by apply safe_ret|].
  eapply safe_bind; [|intros; apply safe_fail].
  instantiate (1 := anything). case_match; [|by apply safe_ret].
  intros w Hw. unfold resetMapperIfNeeded. by repeat case_match.
Qed.

Lemma safe_ensure gvk namespace metadataOnly : safe (ensure gvk namespace metadataOnly) anything.
Proof.
  eapply safe_bind; [apply safe_attempt, safe_restMapping|]. intros mapping _.
  eapply safe_bind; [apply safe_turn|]. intros n _.
  by apply (safe_op _ (EnsureWatch mapping (ctx_Err n) gvk namespace metadataOnly)).
Qed.

Lemma safe_discover ref : safe (discover ref) (λ w, or_UID (gw_Root w) ≠ "").
Proof.
  eapply safe_bind; [apply Discovery_Get_safe|]. intros [w|] Hw; [|apply safe_fail].
  apply safe_ret. by apply Hw.
Qed.

Lemma safe_isResourceSelected gvk : safe (isResourceSelected gvk) anything.
Proof.
  unfold isResourceSelected. case_match; [by apply safe_ret|].
  eapply safe_bind; [apply safe_restMapping|]. intros. by apply safe_ret.
Qed.

Lemma safe_isRootSelected o : safe (isRootSelected o) anything.
Proof. unfold isRootSelected. case_match; [by apply safe_ret|apply safe_isResourceSelected]. Qed.

Lemma safe_failPod key path cause root : safe (failPod key path cause root) anything.
Proof.
  eapply safe_bind; [apply safe_query|]. intros sources _.
  by apply (safe_op _ (PublishPodFailure key sources cause root)).
Qed.

Lemma safe_failPodEval key path cause root selection : safe (failPodEval key path cause root selection) anything.
Proof.
  eapply safe_bind; [apply safe_query|]. intros sources _.
  by apply (safe_op _ (FailPodEvaluation key sources path cause root selection)).
Qed.

Lemma safe_failRoot uid ref cause : safe (failRoot uid ref cause) anything.
Proof.
  eapply safe_bind; [apply safe_query|]. intros sources _.
  by apply (safe_op _ (FailWorkload uid ref sources cause)).
Qed.

Lemma safe_unregisterPod key : safe (update (unregisterPod key)) anything.
Proof. by apply (safe_update _ (UnregisterPod key)). Qed.

Lemma safe_failDiscovery key err : safe (failDiscovery key err) anything.
Proof.
  eapply safe_bind; [|intros; apply safe_fail].
  by apply (safe_update _ (FailSelectedObjectDiscovery key err)).
Qed.
End handlers.

#[export] Hint Resolve safe_read safe_restMapping safe_ensure safe_discover safe_isResourceSelected
  safe_isRootSelected safe_failPod safe_failPodEval safe_failRoot safe_unregisterPod safe_failDiscovery
  safe_fail safe_query safe_turn safe_attempt : safe.

(** One operation of a handler, by its lemma. *)
Ltac safe_next := eapply safe_bind; [solve [eauto with safe]|].

Section jobs.
Context `{!KubernetesErrors, !Kubernetes, !WatchLibrary} `{!Cluster} {r : Settings} `{!GoSort}.
Context `{!K8s} {A R : Type} `{!ComponentAccessor A} `{!Runner R} `{!Evaluation A R} `{!Interference}.

Lemma safe_evaluatePodRecord selection podObject rootObject record :
  safe (evaluatePodRecord selection podObject rootObject record) anything.
Proof.
  unfold evaluatePodRecord. eapply safe_bind; [by apply (safe_lift _ anything)|intros ? _].
  safe_next. intros n _. eapply safe_bind; [by apply (safe_lift _ anything)|intros ? _].
  eapply safe_bind; [by apply (safe_lift _ anything)|intros ? _]. by apply safe_ret.
Qed.

Lemma safe_read_root ref : safe (read_root ref) anything.
Proof.
  unfold read_root. safe_next. intros outcome _. safe_next. intros failed _.
  case_match; [|by apply safe_lift]. safe_next. intros key _.
  eapply safe_weaken; [apply safe_read|done].
Qed.

Lemma safe_evaluate_and_publish key ref podObject workload selection rootObject rootSource :
  safe (evaluate_and_publish key ref podObject workload selection rootObject rootSource) anything.
Proof.
  unfold evaluate_and_publish. eapply safe_bind; [apply safe_attempt, safe_evaluatePodRecord|].
  intros [[record failed]|err] _; [|apply safe_failPodEval].
  safe_next. intros sources _.
  by apply (safe_op _ (PublishPod (gw_Path workload) (refOf rootObject) selection
    (MkPodResult record (storedRef ref) true "" (appendSources sources [rootSource])) failed)).
Qed.

Lemma safe_reconcile_member key ref podObject workload selection selectionErr :
  or_UID (gw_Root workload) ≠ "" →
  safe (reconcile_member key ref podObject workload selection selectionErr) anything.
Proof.
  intros Hid. unfold reconcile_member. safe_next. intros selected _.
  destruct selected as [[]|err]; [|apply safe_unregisterPod|apply safe_failPod].
  eapply safe_bind; [apply safe_attempt; by apply (safe_op _ (RegisterPodRoot key workload))|].
  intros [?|err] _; [|case_match; [apply safe_fail|apply safe_failPod]].
  eapply safe_bind; [apply safe_attempt, safe_read_root|].
  intros [[o source]|err] _; [|apply safe_failPod].
  safe_next. intros rootSelected _.
  destruct rootSelected as [[]|err']; [|apply safe_unregisterPod|apply safe_failPod].
  destruct selectionErr; [apply safe_failPodEval|apply safe_evaluate_and_publish].
Qed.

Lemma safe_reconcilePod key : safe (reconcilePod key) anything.
Proof.
  unfold reconcilePod. safe_next. intros admitted _. case_match; [apply safe_unregisterPod|].
  safe_next. intros outcome _.
  destruct outcome as [[o source]|err]; [|case_match; [apply safe_unregisterPod|apply safe_failPod]].
  case_match; [apply safe_unregisterPod|]. safe_next. intros discovered Hd.
  destruct discovered as [workload|err]; [|apply safe_failPod].
  safe_next. intros p _. destruct p as [selection selectionErr].
  apply safe_reconcile_member. by apply Hd.
Qed.

Lemma safe_handlePodInput key : safe (handlePodInput key) anything.
Proof.
  unfold handlePodInput. case_match; [|apply safe_reconcilePod].
  by apply (safe_update _ (RequeueScope (ok_Namespace (oj_Object key)))).
Qed.

Lemma safe_labels o record :
  safe (evaluateWorkloadStatusLabels o record) (λ p, wr_UID p.1 = wr_UID record).
Proof.
  unfold evaluateWorkloadStatusLabels. safe_next. intros n _.
  destruct (Labels_Resolve _ _); [|by apply safe_ret].
  eapply safe_bind; [by apply (safe_lift _ anything)|intros ? _]. case_match; by apply safe_ret.
Qed.

Lemma evaluateWorkloadStatus_UID factory o record :
  wr_UID (evaluateWorkloadStatus factory o record).1 = wr_UID record.
Proof. unfold evaluateWorkloadStatus. by destruct (GetRootComponent factory); repeat case_match; simplify_eq. Qed.

Lemma safe_evaluate_status selection selectionErr o record :
  safe (evaluate_status selection selectionErr o record) (λ p, wr_UID p.1 = wr_UID record).
Proof.
  unfold evaluate_status. destruct selectionErr; [by apply safe_ret|].
  set (q := match sd_Definition selection with None => _ | Some _ => _ end).
  assert (Eq : wr_UID q.1 = wr_UID record).
  { unfold q. destruct (sd_Definition selection); [|done]. by rewrite evaluateWorkloadStatus_UID. }
  destruct q as [record' err]. cbn in Eq. rewrite <- Eq.
  eapply safe_bind; [apply safe_labels|]. intros [? ?] E. by apply safe_ret.
Qed.

Lemma safe_reconcile_root uid o owner selection selectionErr :
  uid_of o = uid → safe (reconcile_root uid o owner selection selectionErr) anything.
Proof.
  intros Hid. unfold reconcile_root. safe_next. intros isRoot _.
  case_match; [apply safe_failRoot|]. safe_next. intros selected _.
  destruct selected as [[]|err]; [|by apply (safe_update _ (RemovePublishedWorkload uid))|apply safe_failRoot].
  eapply safe_bind; [apply safe_evaluate_status|]. intros [record statusErr] Erec.
  safe_next. intros sources _.
  by apply (safe_op _ (PublishWorkload uid (refOf o) selection
    (MkWorkloadResult record true "" (failureReason statusErr) sources
       (filter (λ key, is_karta_source key = false) sources)))).
Qed.

Lemma selected_ref_UID selection ref : or_UID (selected_ref selection ref) = or_UID ref.
Proof. unfold selected_ref. by destruct (sd_Definition selection). Qed.

Lemma safe_reconcileWorkload uid : safe (reconcileWorkload uid) anything.
Proof.
  unfold reconcileWorkload. safe_next. intros root (s & Hs & ->).
  destruct (snapshotRoot uid s) as [ref|] eqn:Er; [|by apply safe_ret].
  assert (Hid : or_UID ref = uid ∧ uid ≠ "").
  { apply reachable_kept in Hs as (Hm & _ & _). unfold snapshotRoot in Er.
    destruct (cs_roots s !! uid) as [root|] eqn:E; [|done]. injection Er as <-. by apply (mb_uid _ _ _ Hm) in E. }
  destruct Hid as [Hid Hne]. safe_next. intros p _. destruct p as [selection selectionErr].
  safe_next. intros ensured _. destruct ensured as [?|err]; [|apply safe_failRoot].
  safe_next. intros outcome Ho.
  destruct outcome as [[o source]|err];
    [|case_match; [by apply (safe_update _ (WithdrawWorkload uid))|apply safe_failRoot]].
  specialize (Ho _ eq_refl). cbn in Ho. rewrite selected_ref_UID, Hid in Ho.
  destruct (ControllerOwner (un_Meta o)) as [owner|]; [|apply safe_failRoot].
  case_match; [by apply (safe_update _ (WithdrawWorkload uid))|]. by apply safe_reconcile_root, Ho.
Qed.

Lemma safe_resolveSelectedObjectRoot key : safe (resolveSelectedObjectRoot key) anything.
Proof.
  unfold resolveSelectedObjectRoot. safe_next. intros admitted _.
  case_match; [by apply (safe_update _ (UnregisterSelectedObject key))|].
  eapply safe_bind; [by apply (safe_update _ (TrackSelectedObject key))|intros ? _].
  safe_next. intros p _. destruct p as [selection selectionErr].
  case_match; [apply safe_failDiscovery|]. case_match.
  - unfold follow_selected_version. safe_next. intros key' _. safe_next. intros outcome _.
    destruct outcome as [[o source]|err]; [by apply (safe_op _ (ReplaceSelectedObjectTracking key (Some o) selection))|].
    case_match; [by apply (safe_op _ (ReplaceSelectedObjectTracking key None selection))|apply safe_fail].
  - safe_next. intros outcome _.
    destruct outcome as [[o source]|err];
      [|case_match; [by apply (safe_update _ (UnregisterSelectedObject key))|apply safe_failDiscovery]].
    safe_next. intros discovered Hd. destruct discovered as [workload|err]; [|apply safe_failDiscovery].
    specialize (Hd _ eq_refl). unfold resolve_root. safe_next. intros p _.
    destruct p as [rootSelection rootSelectionErr]. safe_next. intros selected _.
    destruct selected as [[]|err]; [| |apply safe_failDiscovery].
    + by apply (safe_op _ (RegisterSelectedObjectRoot key workload selection rootSelection)).
    + case_match; [apply safe_failDiscovery|].
      by apply (safe_op _ (ExcludeSelectedObject key workload selection rootSelection)).
Qed.

Lemma safe_handleWorkloadInput key : safe (handleWorkloadInput key) anything.
Proof.
  unfold handleWorkloadInput. case_match; [apply safe_resolveSelectedObjectRoot|apply safe_reconcileWorkload].
Qed.

Lemma safe_ensure_each requests errs : safe (ensure_each requests errs) anything.
Proof.
  revert errs. induction requests as [|request requests IH]; intros errs; [by apply safe_ret|].
  cbn [ensure_each]. safe_next. intros outcome _. apply IH.
Qed.

Lemma safe_syncWatches : safe syncWatches anything.
Proof.
  assert (H' : safe sync_requests anything).
  { unfold sync_requests. safe_next. intros n _. case_match.
    eapply safe_bind; [by eapply (safe_op _ (PrepareWatchRequests _ _))|]. intros [requests err] _.
    eapply safe_bind; [apply safe_ensure_each|]. intros errs _. by apply safe_lift. }
  unfold syncWatches. case_match; [done|]. by safe_next.
Qed.

Lemma safe_runWorker {K} (reconcile : K → C ()) requeue o key :
  safe (reconcile key) anything → (∀ s, requeue key s = exec o s) → allowed o →
  safe (runWorker reconcile requeue key) anything.
Proof.
  intros Hr E Ho. unfold runWorker. eapply safe_bind; [by apply safe_attempt|]. intros outcome _.
  safe_next. intros n _. destruct outcome; [by apply safe_ret|].
  destruct (ctx_Err n); [by apply safe_ret|]. by eapply safe_update.
Qed.

(** The workers. *)
Lemma safe_pod_worker key : safe (pod_worker key) anything.
Proof.
  unfold pod_worker. eapply safe_bind; [by apply (safe_update _ (TakePod key))|intros ? _].
  apply (safe_runWorker _ _ (AddPod key)); [apply safe_handlePodInput|done..].
Qed.

Lemma safe_workload_worker key : safe (workload_worker key) anything.
Proof.
  unfold workload_worker. eapply safe_bind; [by apply (safe_update _ (TakeWorkload key))|intros ? _].
  apply (safe_runWorker _ _ (AddWorkload key)); [apply safe_handleWorkloadInput|done..].
Qed.

Lemma safe_sync_worker name : safe (sync_worker name) anything.
Proof.
  unfold sync_worker. eapply safe_bind; [by apply (safe_update _ (TakeSync name))|intros ? _].
  apply (safe_runWorker _ _ (AddSync name)); [apply safe_syncWatches|done..].
Qed.
End jobs.

(** ** Queues only grow while changes are noted *)

Section queues.
Context `{!KubernetesErrors, !Kubernetes, !WatchLibrary} {r : Settings}.
Implicit Types (s : State).

Definition grows s s' : Prop :=
  cs_podQueue s ⊆ cs_podQueue s' ∧ cs_workloadQueue s ⊆ cs_workloadQueue s'.

#[local] Instance grows_preorder : PreOrder grows.
Proof. split; [done|]. intros a b c [? ?] [? ?]. split; set_solver. Qed.

Lemma grows_add_pod key s : grows s (add_pod key s). Proof. destruct s. split; cbn; set_solver. Qed.
Lemma grows_add_workload key s : grows s (add_workload key s). Proof. destruct s. split; cbn; set_solver. Qed.
Lemma grows_add_sync name s : grows s (add_sync name s). Proof. by destruct s. Qed.
Lemma grows_ancestorPods f s : grows s (over cs_ancestorPods f s). Proof. by destruct s. Qed.
Lemma grows_enqueueMembers root s : grows s (enqueueMembers root s).
Proof. destruct s. split; cbn; set_solver. Qed.
Lemma grows_podQueue q s : grows s (over cs_podQueue (λ q0, q ∪ q0) s). Proof. destruct s. split; cbn; set_solver. Qed.

Lemma grows_enqueuePod o s : grows s (enqueuePod o s).
Proof. unfold enqueuePod. repeat case_match; done || apply grows_add_pod. Qed.

Lemma grows_enqueueRootAndMembers uid s : grows s (enqueueRootAndMembers uid s).
Proof.
  unfold enqueueRootAndMembers. case_match; [|done]. etrans; [apply grows_add_workload|apply grows_enqueueMembers].
Qed.

(** All the jobs of a root wait: its own and those of its pods. *)
Definition all_queued (uid : UID) (pods : gmap UID objectJobKey) s : Prop :=
  root_job uid ∈ cs_workloadQueue s ∧ ∀ p key, pods !! p = Some key → key ∈ cs_podQueue s.

Lemma all_queued_grows uid pods s s' : grows s s' → all_queued uid pods s → all_queued uid pods s'.
Proof. intros [Hp Hw] [? Hq]. split; [set_solver|]. intros p key E. by apply Hp, (Hq p). Qed.

Lemma enqueueRootAndMembers_queues uid root s :
  cs_roots s !! uid = Some root → all_queued uid (rs_pods root) (enqueueRootAndMembers uid s).
Proof.
  intros Er. unfold enqueueRootAndMembers. rewrite Er. split; [destruct s; cbn; set_solver|].
  intros p key E. destruct s. cbn. apply elem_of_union_l, elem_of_list_to_set, list_elem_of_fmap.
  exists (p, key). split; [done|]. by apply elem_of_map_to_list.
Qed.

Lemma queue_member_pods uid root s :
  all_queued uid (rs_pods root)
    (over cs_podQueue (λ q, list_to_set (map_to_list (rs_pods root)).*2 ∪ q) (add_workload (root_job uid) s)).
Proof.
  split; [destruct s; cbn; set_solver|]. intros p key E. destruct s. cbn.
  apply elem_of_union_l, elem_of_list_to_set, list_elem_of_fmap.
  exists (p, key). split; [done|]. by apply elem_of_map_to_list.
Qed.

Lemma roots_core s s' : core s' = core s → cs_roots s' = cs_roots s.
Proof. by intros (_ & _ & _ & _ & _ & -> & _)%core_fields. Qed.

Lemma queueObjectChange_queues old current s uid root :
  cs_roots s !! uid = Some root → uid_of <$> old = Some uid ∨ uid_of <$> current = Some uid →
  all_queued uid (rs_pods root) (queueObjectChange old current s).
Proof.
  intros Er Hin. unfold queueObjectChange. set (s0 := enqueuePod current (enqueuePod old s)).
  assert (E0 : cs_roots s0 = cs_roots s) by (apply roots_core; subst s0; by autorewrite with kept).
  clearbody s0. rewrite <- E0 in Er. clear E0 s.
  destruct (or_else current old) as [o|] eqn:Eo; [|destruct current, old; naive_solver].
  set (s1 := if _ && _ then add_sync "sources" s0 else s0).
  assert (E1 : cs_roots s1 = cs_roots s0) by (subst s1; case_match; by destruct s0).
  clearbody s1. rewrite <- E1 in Er. clear E1.
  set (replaced := bool_decide (uid_of <$> old ≠ uid_of <$> current)).
  set (s2 := match old with Some old => if replaced then _ else s1 | None => s1 end).
  assert (H2 : cs_roots s2 = cs_roots s1 ∧ (uid_of <$> current = Some uid ∨ all_queued uid (rs_pods root) s2)).
  { subst s2. destruct old as [old|]; [|naive_solver].
    subst replaced. case_bool_decide as Hr.
    - match goal with |- context [enqueueRootAndMembers _ ?x] => set (s' := x) end.
      assert (E' : cs_roots s' = cs_roots s1).
      { apply roots_core. subst s'. case_match; by autorewrite with kept. }
      clearbody s'. split; [rewrite (roots_core s'); [done|by autorewrite with kept]|].
      destruct Hin as [[= <-]|?]; [right|by left]. apply enqueueRootAndMembers_queues. by rewrite E'.
    - split; [done|]. destruct Hin as [Hin|?]; [|by left]. left. congruence. }
  destruct H2 as [E2 H2]. clearbody s2. rewrite <- E2 in Er. clear E2.
  set (s3 := match current with Some current => _ | None => s2 end).
  assert (H3 : all_queued uid (rs_pods root) s3).
  { subst s3. destruct current as [current|]; cbn in H2; [|by destruct H2].
    match goal with |- context [if ?b then add_workload ?k s2 else s2] => set (s' := if b then add_workload k s2 else s2) end.
    assert (E' : cs_roots s' = cs_roots s2 ∧ grows s2 s').
    { subst s'. case_match; [|done]. split; [by destruct s2|apply grows_add_workload]. }
    destruct E' as [E' G']. clearbody s'. rewrite E'.
    destruct (decide (uid_of current = uid)) as [->|Hne].
    - rewrite Er. apply queue_member_pods.
    - destruct H2 as [[= ?]|H2]; [done|]. case_match.
      + eapply all_queued_grows; [|exact H2]. etrans; [exact G'|]. etrans; [apply grows_add_workload|apply grows_podQueue].
      + by eapply all_queued_grows. }
  clearbody s3. match goal with |- all_queued _ _ (if ?b then _ else _) => destruct b end; [|done].
  eapply all_queued_grows; [apply grows_add_pod|done].
Qed.
End queues.

(** ** Every change of a cached object is noted *)

Section changes.
Context `{!KubernetesErrors, !Kubernetes, !WatchLibrary} {r : Settings}.
Implicit Types (s : State).

#[local] Instance grows_reflexive : Reflexive grows. Proof. apply grows_preorder. Qed.
#[local] Instance grows_transitive : Transitive grows. Proof. apply grows_preorder. Qed.

Lemma grows_same s s' :
  cs_podQueue s' = cs_podQueue s → cs_workloadQueue s' = cs_workloadQueue s → grows s s'.
Proof. unfold grows. by intros -> ->. Qed.

Lemma grows_if (b : bool) s s1 s2 : grows s s1 → grows s s2 → grows s (if b then s1 else s2).
Proof. by destruct b. Qed.

Lemma grows_queueObjectChange old current s : grows s (queueObjectChange old current s).
Proof.
  unfold queueObjectChange.
  assert (Hpods : grows s (enqueuePod current (enqueuePod old s))) by (etrans; apply grows_enqueuePod).
  destruct (or_else current old) as [o|]; [|done]. etrans; [exact Hpods|]. generalize (enqueuePod current (enqueuePod old s)).
  clear s Hpods. intros s. cbv zeta.
  assert (step : ∀ s1 s2 s3, grows s1 s2 → grows s2 s3 → grows s1 s3) by (intros; by etrans).
  match goal with |- grows s (if _ then enqueueScopeRefresh _ ?x else _) => apply (step s x) end.
  2: { apply grows_if; [apply grows_add_pod|done]. }
  match goal with |- grows s (match current with Some _ => _ | None => ?x end) => apply (step s x) end.
  - match goal with |- grows s (match old with Some _ => _ | None => ?x end) => apply (step s x) end.
    + apply grows_if; [apply grows_add_sync|done].
    + destruct old as [old|]; [|done]. destruct (bool_decide (uid_of <$> Some old ≠ _)); [|done].
      etrans; [|apply grows_enqueueRootAndMembers]. etrans; [apply grows_ancestorPods|].
      apply grows_if; [done|apply grows_add_workload].
  - destruct current as [current|]; [|done].
    match goal with |- grows ?s0 (match cs_roots ?x !! _ with _ => _ end) => apply (step s0 x) end.
    + apply grows_if; [apply grows_add_workload|done].
    + destruct (cs_roots _ !! _); [|done]. etrans; [apply grows_add_workload|apply grows_podQueue].
Qed.

(** The roots an entry of the cache may be the object of: the one it was, and the
    one it is. *)
Definition concerns s s' (k : objectKey) (uid : UID) : Prop :=
  uid_of <$> cached k s = Some uid ∨ uid_of <$> cached k s' = Some uid.

(** From one state to the next no job is dropped, the roots stay, and every entry
    of the cache is as it was, or its change is noted: the jobs of the root that
    went, and of the root that came, all wait. *)
Record noted s s' : Prop := {
  nt_grows : grows s s';
  nt_roots : cs_roots s' = cs_roots s;
  nt_change k :
    cs_objects s' !! k = cs_objects s !! k ∨
    ∀ uid root, concerns s s' k uid → cs_roots s' !! uid = Some root → all_queued uid (rs_pods root) s';
}.

Lemma noted_same s s' :
  grows s s' → cs_roots s' = cs_roots s → (∀ k, cs_objects s' !! k = cs_objects s !! k) → noted s s'.
Proof. intros Hg Hr Ho. split; [done..|]. by left. Qed.

Lemma cached_same s s' k : cs_objects s' !! k = cs_objects s !! k → cached k s' = cached k s.
Proof. unfold cached. by intros ->. Qed.

#[export] Instance noted_preorder : PreOrder noted.
Proof.
  split; [intros s; by apply noted_same|]. intros s1 s2 s3 [G1 R1 C1] [G2 R2 C2].
  split; [by etrans|congruence|]. intros k.
  assert (Hearlier : ∀ uid root, cs_roots s3 !! uid = Some root → all_queued uid (rs_pods root) s2 →
            all_queued uid (rs_pods root) s3) by (intros uid root _; by apply all_queued_grows).
  destruct (C1 k) as [E1|Q1], (C2 k) as [E2|Q2]; [left; congruence|right..]; intros uid root Hin Hroot;
    pose proof Hroot as Hroot2; rewrite R2 in Hroot2; unfold concerns in *.
  - apply Q2; [|done]. by rewrite (cached_same _ _ _ E1).
  - apply Hearlier; [done|]. apply Q1; [|done]. by rewrite <- (cached_same _ _ _ E2).
  - destruct Hin as [Hin|Hin]; [apply Hearlier; [done|]; apply Q1; [by left|done]|apply Q2; [by right|done]].
Qed.

Lemma noted_foldl {A} (f : State → A → State) l s :
  (∀ s x, noted s (f s x)) → noted s (foldl f s l).
Proof. intros Hf. revert s. induction l as [|x l IH]; intros s; [done|]. cbn. etrans; [apply Hf|apply IH]. Qed.

(** One object goes, comes or is replaced, and the change is queued. *)
Lemma noted_change k s s1 :
  grows s s1 → cs_roots s1 = cs_roots s → (∀ k', k' ≠ k → cs_objects s1 !! k' = cs_objects s !! k') →
  noted s (queueObjectChange (cached k s) (cached k s1) s1).
Proof.
  intros Hg Hr Hk. pose proof (core_queueObjectChange (cached k s) (cached k s1) s1) as Hcore.
  pose proof (core_fields _ _ Hcore) as (Eo & _ & _ & _ & _ & Er & _).
  split; [etrans; [exact Hg|apply grows_queueObjectChange]|congruence|].
  intros k'. rewrite Eo. destruct (decide (k' = k)) as [->|Hk']; [right|left; by apply Hk].
  intros uid root Hin Hroot. rewrite Er in Hroot. apply queueObjectChange_queues; [done|].
  unfold concerns, cached in *. by rewrite Eo in Hin.
Qed.

Lemma noted_drop_missing objects s k : noted s (drop_missing objects s k).
Proof.
  unfold drop_missing. case_match; [done|]. destruct (cached k s) as [o|] eqn:Eo.
  - assert (E : cached k (uncache_object k s) = None)
      by (destruct s; unfold cached; cbn; by rewrite lookup_delete_eq).
    rewrite <- Eo, <- E. apply noted_change; [apply grows_same; by destruct s|by destruct s|].
    intros k' Hk'. destruct s. cbn. by rewrite lookup_delete_ne.
  - apply noted_same; [apply grows_same; by destruct s|by destruct s|]. intros k'. unfold cached in Eo. destruct s. cbn in *.
    destruct (decide (k' = k)) as [->|]; [|by rewrite lookup_delete_ne].
    apply fmap_None in Eo. by rewrite lookup_delete_eq, Eo.
Qed.

Lemma noted_cache k o source s : noted s (queueObjectChange (cached k s) (Some o) (cache_object k o source s)).
Proof.
  assert (E : cached k (cache_object k o source s) = Some o)
    by (destruct s; unfold cached; cbn; by rewrite lookup_insert_eq).
  rewrite <- E. apply noted_change; [apply grows_same; by destruct s|by destruct s|]. intros k' Hk'. destruct s. cbn. by rewrite lookup_insert_ne.
Qed.

Lemma noted_accept_object source s p : noted s (accept_object source s p).
Proof. destruct p as [k o]. apply noted_cache. Qed.

Lemma noted_retire_object key s k : noted s (retire_object key s k).
Proof.
  unfold retire_object. destruct (cs_objects s !! k) as [entry|] eqn:Ee; [|done]. case_bool_decide; [|done].
  assert (E : cached k s = Some (co_object entry)) by (unfold cached; by rewrite Ee).
  assert (E' : cached k (uncache_object k s) = None)
    by (destruct s; unfold cached; cbn; by rewrite lookup_delete_eq).
  rewrite <- E, <- E'. apply noted_change; [apply grows_same; by destruct s|by destruct s|].
  intros k' Hk'. destruct s. cbn. by rewrite lookup_delete_ne.
Qed.

Lemma noted_alter_watch id f s : noted s (alter_watch id f s).
Proof. apply noted_same; [apply grows_same; by destruct s|by destruct s..]. Qed.
Lemma noted_publish f s : noted s (publish f s).
Proof. apply noted_same; [apply grows_same; by destruct s|by destruct s..]. Qed.
Lemma noted_sources f s : noted s (over cs_sources f s).
Proof. apply noted_same; [apply grows_same; by destruct s|by destruct s..]. Qed.
Lemma noted_watches f s : noted s (over cs_watches f s).
Proof. apply noted_same; [apply grows_same; by destruct s|by destruct s..]. Qed.
Lemma noted_replacements f s : noted s (over cs_replacements f s).
Proof. apply noted_same; [apply grows_same; by destruct s|by destruct s..]. Qed.
Lemma noted_watchFailures f s : noted s (over cs_watchFailures f s).
Proof. apply noted_same; [apply grows_same; by destruct s|by destruct s..]. Qed.
Lemma noted_add_pod key s : noted s (add_pod key s).
Proof. apply noted_same; [apply grows_add_pod|by destruct s..]. Qed.
Lemma noted_add_sync name s : noted s (add_sync name s).
Proof. apply noted_same; [apply grows_same; by destruct s|by destruct s..]. Qed.
Lemma noted_workloadQueue q s : noted s (over cs_workloadQueue (λ q0, q ∪ q0) s).
Proof. apply noted_same; [destruct s; split; cbn; set_solver|by destruct s..]. Qed.

(** One step of a method after another. *)
Ltac noted_steps :=
  repeat first
    [ done
    | apply noted_alter_watch | apply noted_publish | apply noted_sources | apply noted_watches
    | apply noted_replacements | apply noted_watchFailures | apply noted_add_pod | apply noted_add_sync
    | apply noted_workloadQueue
    | etrans; [|solve [apply noted_alter_watch | apply noted_publish | apply noted_sources | apply noted_watches
        | apply noted_replacements | apply noted_watchFailures | apply noted_add_pod | apply noted_add_sync
        | apply noted_workloadQueue]] ].

Lemma noted_updateWatchHealth id err s : noted s (updateWatchHealth id err s).
Proof.
  unfold updateWatchHealth, enqueueScopeRefresh. cbv zeta. repeat case_match; noted_steps.
Qed.

Lemma noted_applyWatchEvent id value deleted s : noted s (applyWatchEvent id value deleted s).2.
Proof.
  unfold applyWatchEvent, rejectWatchObject, setWatchHealth.
  destruct (prepareWatchObject _ _ _) as [o|]; [|apply noted_updateWatchHealth].
  destruct (no_identity o); [apply noted_updateWatchHealth|]. destruct (negb _); [done|].
  set (k := keyOf (refOf o)). destruct deleted; [case_bool_decide; [done|]|]; cbn [snd].
  - set (s1 := alter_watch _ _ _).
    assert (E : cached k s1 = None)
      by (destruct s; unfold cached; cbn; by rewrite lookup_delete_eq).
    rewrite <- E. apply noted_change; [apply grows_same; by destruct s|by destruct s|].
    intros k' Hk'. destruct s. cbn. by rewrite lookup_delete_ne.
  - set (s1 := alter_watch _ _ _).
    assert (E : cached k s1 = Some o)
      by (destruct s; unfold cached; cbn; by rewrite lookup_insert_eq).
    rewrite <- E. apply noted_change; [apply grows_same; by destruct s|by destruct s|].
    intros k' Hk'. destruct s. cbn. by rewrite lookup_insert_ne.
Qed.

Lemma noted_take_over id s s1 : take_over id s = Ok s1 → noted s s1.
Proof.
  unfold take_over. case_bool_decide; [by intros [= <-]|]. case_match; [|done]. intros [= <-]. noted_steps.
Qed.

Lemma noted_accept_list id key listed s : noted s (accept_list id key listed s).
Proof.
  unfold accept_list, enqueueScopeRefresh. cbv zeta. etrans; [|apply noted_add_pod].
  etrans; [|apply noted_updateWatchHealth]. etrans; [|apply noted_alter_watch].
  etrans; [|apply noted_foldl, noted_accept_object]. etrans; [|apply noted_alter_watch].
  apply noted_foldl, noted_drop_missing.
Qed.

Lemma noted_Replace id values s : noted s (Replace id values s).2.
Proof.
  destruct (prepareWatchSnapshot values (rw_gvk (watch_at id s)) (rw_full (watch_at id s)) ∅) as [listed|err] eqn:El.
  - destruct (isTrackedWatch id s) eqn:Et; [|unfold Replace; by rewrite El, Et].
    rewrite (Replace_eq _ _ _ _ El Et). destruct (take_over id s) as [s1|] eqn:E1; [|done].
    etrans; [by eapply noted_take_over|apply noted_accept_list].
  - unfold Replace. rewrite El. apply noted_updateWatchHealth.
Qed.

Lemma noted_retire_out_of_scope s p : noted s (retire_out_of_scope s p).
Proof.
  destruct p as [key id]. unfold retire_out_of_scope. case_match; [done|].
  assert (Hretired : noted s (retireWatch id s)).
  { unfold retireWatch. cbv zeta. etrans; [|apply noted_publish]. etrans; [|apply noted_sources].
    etrans; [|apply noted_foldl, noted_retire_object]. noted_steps. }
  case_match; [|done]. etrans; [exact Hretired|]. noted_steps.
Qed.

Lemma noted_clear_failures covered s : noted s (clear_failures covered s).
Proof.
  unfold clear_failures. etrans; [apply noted_watchFailures|]. apply noted_foldl. intros s0 q. apply noted_publish.
Qed.

(** Renewing the requests first leaves the cache as it is, whatever becomes of the
    roots, and then retires watches. *)
Lemma noted_prepareWatchRequests definitions sourceErr s :
  ∃ s1, cs_objects s1 = cs_objects s ∧ noted s1 (prepareWatchRequests definitions sourceErr s).2.
Proof.
  unfold prepareWatchRequests.
  destruct (refreshDefinitions_kept definitions sourceErr s) as (Ef & _ & _).
  destruct (refreshScopes_kept (refreshDefinitions definitions sourceErr s)) as [Ef' _]. rewrite Ef in Ef'.
  destruct (refreshScopes _) as [[[]|err] s1]; cbn [snd] in *; exists s1; (split; [by injection Ef'|]); [|done].
  etrans; [|apply noted_clear_failures]. apply noted_foldl, noted_retire_out_of_scope.
Qed.

Lemma objects_feed s s' : feed s' = feed s → cs_objects s' = cs_objects s.
Proof. by intros [= ->]. Qed.

Lemma objects_ensureWatch mapping caller gvk namespace metadataOnly s :
  cs_objects (ensureWatch mapping caller gvk namespace metadataOnly s).2 = cs_objects s.
Proof.
  unfold ensureWatch. destruct mapping as [mapping|err].
  - set (s1 := clear_failures _ s).
    assert (E : cs_objects s1 = cs_objects s) by apply objects_feed, feed_clear_failures. clearbody s1.
    rewrite <- E. repeat (case_match; try done); by destruct s1.
  - pose proof (feed_recordWatchFailure (MkWatchRequest gvk namespace)
      (MkObjectRef gvk namespace "" (sourceFailureUID gvk namespace) "") err s) as E.
    destruct (recordWatchFailure _ _ _ s) as [[[]|] s']; by apply objects_feed.
Qed.

(** Whatever an operation changes in the cache is noted: from some state with the
    cache of before, in which it finds the roots as it leaves them. *)
Lemma noted_exec o s : ∃ s1, cs_objects s1 = cs_objects s ∧ noted s1 (exec o s).
Proof.
  destruct o; cbn [exec];
    try (exists s; split; [done|]; first [apply noted_Replace|apply noted_applyWatchEvent|apply noted_updateWatchHealth]);
    try apply noted_prepareWatchRequests;
    (eexists; split; [|reflexivity]); try apply objects_ensureWatch; try (by destruct s); apply objects_feed;
    unfold unregisterSelectedObject, withdrawWorkload, start, take_pod, take_workload, take_sync, stopWatches;
    autorewrite with feed; try done; apply feed_core; by autorewrite with kept.
Qed.
End changes.

(** ** What holds of every reachable state *)

Section properties.
Context `{!KubernetesErrors, !Kubernetes, !WatchLibrary} {r : Settings}.

(** C8: in every state the controller can reach, whatever the order of its
    methods, memberships agree in both directions (a pod has a root exactly when
    that root lists it, a selected object likewise); the cache, its sources and
    the watches describe each other (one source per watch with the watch's
    state, every cached object held by the watch of its source, every watch that
    runs tracked); and every published workload has a root. *)
Theorem reachable_inv s : reachable s → consistent s ∧ coherent_state s ∧ accounted s.
Proof. apply reachable_kept. Qed.

(** An object a healthy watch has accepted, and that answers to the reference. *)
Definition held (ref : ObjectRef) (full : bool) (o : object) (source : watchKey) (s : State) : Prop :=
  ∃ id w k, cs_watches s !! source = Some id ∧ cs_heap s !! id = Some w ∧
    rw_ready w = true ∧ rw_err w = None ∧ (full = true → rw_full w = true) ∧
    k ∈ rw_objects w ∧ cs_objects s !! k = Some (MkCachedObject _ o source) ∧
    (k = keyOf ref ∨ k = set_key_namespace (keyOf ref) "" ∧ cs_objects s !! keyOf ref = None) ∧
    (or_UID ref = "" ∨ uid_of o = or_UID ref) ∧
    (or_ResourceVersion ref = "" ∨ obj_ResourceVersion (un_Meta o) = or_ResourceVersion ref).

Lemma find_entry_Some ref s e :
  find_entry ref s = Some e ↔
  ∃ k, cs_objects s !! k = Some e ∧
    (k = keyOf ref ∨ k = set_key_namespace (keyOf ref) "" ∧ cs_objects s !! keyOf ref = None).
Proof.
  unfold find_entry. destruct (cs_objects s !! keyOf ref) as [e0|] eqn:E0.
  - split; [intros [= <-]; exists (keyOf ref); by split; [|left]|]. intros (k & Hk & [->|[_ ?]]); [congruence|done].
  - case_bool_decide as Hns; cbn in Hns.
    + split; [intros He; exists (set_key_namespace (keyOf ref) ""); split; [done|by right]|].
      intros (k & Hk & [->|[-> _]]); [congruence|done].
    + split; [done|]. intros (k & Hk & [->|[-> _]]); [congruence|].
      replace (set_key_namespace (keyOf ref) "") with (keyOf ref) in Hk; [congruence|].
      unfold set_key_namespace, keyOf. cbn. by rewrite Hns.
Qed.

Lemma eq_or_empty (a b : string) : bool_decide (a ≠ "") && bool_decide (b ≠ a) = false ↔ a = "" ∨ b = a.
Proof.
  rewrite andb_false_iff, !bool_decide_eq_false.
  split; intros [E|E]; [left|right|left|right]; try (by apply dec_stable in E); by intros [].
Qed.

(** C18: a lookup in the cache finds exactly the objects a watch holds: it
    answers with an object and a source just when the current watch of that
    source is listed, healthy and detailed enough, and has accepted the object
    under the name asked for, in the namespace or in none, with the UID and the
    version asked for. *)
Theorem lookupObject_held s ref full o source :
  reachable s → lookupObject ref full s = Ok (o, source) ↔ held ref full o source s.
Proof.
  intros (_ & Hs & _)%reachable_kept. unfold lookupObject. split.
  - destruct (find_entry ref s) as [[o0 source0]|] eqn:Ef; cbn [or_else fmap option_fmap option_map].
    + destruct (cs_sources s !! co_source _) as [src|] eqn:Es; [|done]. cbn in Es.
      destruct (src_err src) eqn:Eerr; [done|]. destruct (_ || _) eqn:Ed; [done|].
      destruct (bool_decide (or_UID ref ≠ "") && _) eqn:Eu; [done|].
      destruct (bool_decide (or_ResourceVersion ref ≠ "") && _) eqn:Ev; [done|]. cbn. intros [= <- <-].
      apply find_entry_Some in Ef as (k & Hk & Hor).
      pose proof Hk as (id & w & Hid & Hw & Hin & _)%(wa_object _ _ _ _ _ Hs).
      apply (wa_source _ _ _ _ _ Hs) in Es as (id' & w' & Hid' & Hw' & ->). cbn in Hid.
      rewrite Hid in Hid'. injection Hid' as <-. rewrite Hw in Hw'. injection Hw' as <-.
      apply orb_false_iff in Ed as [Er Efull]. apply negb_false_iff in Er. cbn in Er, Eerr, Efull.
      exists id, w, k. split_and!; try done; [|by apply eq_or_empty|by apply eq_or_empty].
      intros ->. by apply negb_false_iff.
    + repeat case_match; done.
  - intros (id & w & k & Hid & Hw & Hr & Herr & Hfull & Hin & Hk & Hor & Hu & Hv).
    assert (Ef : find_entry ref s = Some (MkCachedObject _ o source)) by (apply find_entry_Some; by exists k).
    rewrite Ef. cbn [or_else fmap option_fmap option_map co_source].
    assert (Es : cs_sources s !! source = Some (source_of w)) by (apply (wa_source _ _ _ _ _ Hs); by exists id, w).
    rewrite Es. cbn [src_err src_synced src_hasFullObject source_of]. rewrite Hr, Herr. cbn [negb orb].
    assert (E : full && negb (rw_full w) = false) by (destruct full; [by rewrite Hfull|done]). rewrite E.
    cbn [co_object].
    destruct (bool_decide (or_UID ref ≠ "") && _) eqn:Eu; [pose proof (proj2 (eq_or_empty _ _) Hu); unfold uid_of, UID in *; congruence|].
    destruct (bool_decide (or_ResourceVersion ref ≠ "") && _) eqn:Ev; [pose proof (proj2 (eq_or_empty _ _) Hv); congruence|].
    done.
Qed.

(** C22: a change of a root is never lost: whatever a method does - a watch event,
    a list that replaces the objects of a watch, a watch retired with its scope,
    or any other - every object of the cache is afterwards the one it was, or else
    the root with the UID of the object that went, and the one with the UID of the
    object that came, wait to be reconciled, and so does every pod registered
    under them. *)
Theorem root_change_requeues o s k :
  reachable s → allowed o →
  let s' := exec o s in
  cs_objects s' !! k = cs_objects s !! k ∨
  ∀ uid, uid_of <$> cached k s = Some uid ∨ uid_of <$> cached k s' = Some uid →
    (is_Some (cs_roots s' !! uid) → root_job uid ∈ cs_workloadQueue s') ∧
    ∀ p, cs_podRoots s' !! p = Some uid → ∃ key, oj_UID key = p ∧ key ∈ cs_podQueue s'.
Proof.
  intros Hs Ho s'. pose proof (reachable_kept s' (reachable_step o s Hs Ho)) as (Hm & _).
  destruct (noted_exec o s) as (s1 & E1 & [_ _ Hc]). fold s' in Hc. rewrite <- E1.
  destruct (Hc k) as [Hk|Hk]; [by left|right]. intros uid Hin.
  assert (Hall : ∀ root, cs_roots s' !! uid = Some root → all_queued uid (rs_pods root) s').
  { intros root. apply Hk. unfold concerns. rewrite (cached_same s s1 k); [done|by rewrite E1]. }
  split; [by intros [root Hr]; apply (Hall root)|]. intros p [key Hkey]%(mb_pod _ _ _ Hm).
  pose proof (mb_key _ _ _ Hm _ _ _ Hkey) as Hid. unfold pod_of in Hkey.
  change ((members s').1.1) with (cs_roots s') in Hkey.
  destruct (cs_roots s' !! uid) as [root|] eqn:Er; [|done]. exists key. split; [done|].
  by apply (proj2 (Hall root eq_refl) p).
Qed.

(** When the reflector of a tracked watch hands over a list that it
    accepts, the call succeeds - a replacement always finds the watch it stands
    by - and afterwards the watch is the current one of its source, listed and
    healthy, the cache holds for the source exactly the list, and the watch it
    replaced is cancelled. *)
Theorem Replace_spec id values listed s :
  reachable s → isTrackedWatch id s = true →
  let w := watch_at id s in let key := rw_key w in
  prepareWatchSnapshot values (rw_gvk w) (rw_full w) ∅ = Ok listed →
  ∃ s', Replace id values s = (Ok (), s') ∧ cs_watches s' !! key = Some id ∧
    cs_sources s' !! key = Some (MkCacheSource (rw_gvk w) (rw_full w) true None) ∧
    (∀ k o, cs_objects s' !! k = Some (MkCachedObject _ o key) ↔ listed !! k = Some o) ∧
    (∀ id', cs_watches s !! key = Some id' → id' ≠ id →
       rw_cancelled (watch_at id' s') = true ∧ cs_replacements s' !! key = None).
Proof.
  intros (_ & Hs & _)%reachable_kept Ht w key Hl.
  destruct (Replace_tracked id values listed s Hs Ht Hl) as (s' & E & _ & ?). by exists s'.
Qed.
End properties.

Section workers.
Context `{!KubernetesErrors, !Kubernetes, !WatchLibrary} `{!Cluster} {r : Settings} `{!GoSort}.
Context `{!K8s} {A R : Type} `{!ComponentAccessor A} `{!Runner R} `{!Evaluation A R} `{!Interference}.

(** C28: the workers and the reflectors refine the state machine: however other
    goroutines interleave their methods between the operations of a job, a turn
    of a pod, workload or source worker takes a reachable state to a reachable
    one, and so does everything a reflector does with a watch.  In particular no
    worker publishes a workload under another UID than its root's. *)
Theorem workers_stay_reachable w s :
  reachable (w_state w) → reachable s →
  (∀ key, reachable (w_state (pod_worker key w).2)) ∧
  (∀ key, reachable (w_state (workload_worker key w).2)) ∧
  (∀ name, reachable (w_state (sync_worker name w).2)) ∧
  (∀ id values, reachable (Replace id values s).2) ∧
  (∀ id value, reachable (Add id value s).2 ∧ reachable (Update id value s).2 ∧ reachable (Delete id value s).2) ∧
  (∀ id dynamic metadata ctx_err, reachable (listResource id dynamic metadata ctx_err s).2) ∧
  (∀ id dynamic metadata ctx_err initial, reachable (watchResource id dynamic metadata ctx_err initial s).2) ∧
  (∀ id event ctx_err stopping, reachable (watch_turn id event ctx_err stopping s).2) ∧
  reachable (stopWatches s).
Proof.
  intros Hw Hs.
  assert (Hop : ∀ o, allowed o → reachable (exec o s)) by (intros; by apply reachable_step).
  assert (Hhealth : ∀ id err, reachable (setWatchHealth id err s)) by (intros id err; by apply (Hop (SetWatchHealth id err))).
  split_and!.
  - intros key. by apply safe_pod_worker.
  - intros key. by apply safe_workload_worker.
  - intros name. by apply safe_sync_worker.
  - intros id values. by apply (Hop (ReplaceList id values)).
  - intros id value. split_and!; [by apply (Hop (ApplyWatchEvent id value false))..|by apply (Hop (ApplyWatchEvent id value true))].
  - intros. unfold listResource. repeat case_match; cbn; done || apply Hhealth.
  - intros. unfold watchResource, recordWatchStart. repeat (case_match; cbn); done || apply Hhealth.
  - intros. unfold watch_turn. repeat case_match; cbn; done || apply Hhealth.
  - by apply (Hop StopWatches).
Qed.
End workers.
