(* ===== verification/ControllerSettle.v ===== *)
(** * ControllerSettle: what a finished job has achieved

    When a handler returns without an error, the result it is responsible for
    has been withdrawn, or published with the reason of its failure, or
    published from inputs that are current in the very state it is published in. *)

From S2P Require Import Prelude Api Value Runner Accessor Component PodQuerier Literal Sort Summary Gang Store Discovery LabelResolver Inventory ControllerState ControllerSources ControllerReconcile ControllerInvariant ControllerSteps ControllerBoard ControllerReach.

Section settle.
Context `{!KubernetesErrors, !Kubernetes, !WatchLibrary} `{!Cluster} {r : Settings} `{!GoSort} `{!Interference}.

Definition settles_at {A} (m : C A) (P : State → Prop) (w : world) : Prop :=
  reachable (w_state w) → ∀ a, (m w).1 = Ok a → P (w_state (m w).2).

Definition settles {A} (m : C A) (P : State → Prop) : Prop := ∀ w, settles_at m P w.

Lemma settles_fail {A} err P : settles (fail (A:=A) err) P.
Proof. by intros w _ a ?. Qed.

Lemma settles_bind {A B} (m : C A) (f : A → C B) Q P :
  safe m Q → (∀ a, Q a → settles (f a) P) → settles (m ≫= f) P.
Proof.
  intros Hm Hf w Hw. destruct (Hm w Hw) as [Hw' Ha]. unfold settles_at, mbind, M_bind in *.
  destruct (m w) as [[a|err] w']; [|done]. apply (Hf a (Ha a eq_refl) w' Hw').
Qed.

Lemma settles_locked {A} (m : M State A) (P : State → Prop) :
  (∀ s a, reachable s → (m s).1 = Ok a → P (m s).2) → settles (locked m) P.
Proof.
  intros Hm w Hw a. unfold locked. pose proof (interfere_reachable (w_turn w) _ Hw) as Hs.
  specialize (Hm _ a Hs). by destruct (m _).
Qed.

Lemma settles_update f (P : State → Prop) : (∀ s, reachable s → P (f s)) → settles (update f) P.
Proof. intros Hf. apply settles_locked. intros s a Hs _. by apply Hf. Qed.

Lemma settles_query {A B} (f : State → A) (k : A → C B) P :
  (∀ w, reachable (w_state w) → settles_at (k (f (w_state w))) P w) → settles (query f ≫= k) P.
Proof.
  intros Hk w Hw. pose proof (interfere_reachable (w_turn w) _ Hw) as Hs.
  intros a. apply (Hk (MkWorld _ (S (w_turn w)) (interfere (w_turn w) (w_state w)) (w_lastMapperReset w)) Hs Hs).
Qed.

(** ** Pods *)

Definition karta_of (selection : selectedDefinition) : string :=
  match sd_Definition selection with Some _ => o_Name (sd_Origin selection) | None => "" end.

(** The root a record names is in the cache as it was read, owned by nobody, and
    the definition it was evaluated with is the current one. *)
Definition current_root (rootRef : ObjectRef) (karta : string) (s : State) : Prop :=
  hasRootOwnership rootRef s = true ∧
  (∃ o source, lookupObject rootRef false s = Ok (o, source) ∧
     (or_ResourceVersion rootRef = "" ∨ obj_ResourceVersion (un_Meta o) = or_ResourceVersion rootRef)) ∧
  ∃ selection, isDefinitionCurrent rootRef selection s = true ∧ karta = karta_of selection.

Definition settled_pod (key : objectJobKey) (s : State) : Prop :=
  (Store.Pod (oj_UID key) (cs_publications s) = None ∧ cs_podRoots s !! oj_UID key = None) ∨
  ∃ result, Store.Pod (oj_UID key) (cs_publications s) = Some result ∧
    (pres_Error result ≠ "" ∨
     pres_HasValue result = true ∧ ∃ rootRef, pr_Workload (pres_Record result) = storedRef rootRef ∧
       current_root rootRef (pr_Karta (pres_Record result)) s).

Lemma lookupObject_version ref full s o key :
  lookupObject ref full s = Ok (o, key) →
  or_ResourceVersion ref = "" ∨ obj_ResourceVersion (un_Meta o) = or_ResourceVersion ref.
Proof.
  intros E. destruct (decide (or_ResourceVersion ref = "")) as [?|Hne]; [by left|right].
  unfold lookupObject in E. rewrite (bool_decide_eq_true_2 (or_ResourceVersion ref ≠ "")) in E by done.
  repeat (case_match; try done). simplify_eq. cbn in *.
  match goal with H : bool_decide (obj_ResourceVersion _ ≠ _) = false |- _ =>
    apply bool_decide_eq_false, dec_stable in H; done end.
Qed.

Lemma publish_read f s :
  (∀ ref full, lookupObject ref full (publish f s) = lookupObject ref full s) ∧
  (∀ ref, hasRootOwnership ref (publish f s) = hasRootOwnership ref s) ∧
  (∀ ref selection, isDefinitionCurrent ref selection (publish f s) = isDefinitionCurrent ref selection s).
Proof. by destruct s. Qed.

Lemma failureReason_nonempty err : failureReason (Some err) ≠ "".
Proof. cbn. by repeat case_match. Qed.

Lemma Pod_UpsertPod result uid s :
  pr_UID (pres_Record result) = uid → Store.Pod uid (cs_publications (publish (UpsertPod result) s)) = Some result.
Proof. intros <-. destruct s. unfold Store.Pod. cbn. by rewrite lookup_insert_eq. Qed.

Lemma settles_unregisterPod key : settles (update (unregisterPod key)) (settled_pod key).
Proof.
  apply settles_update. intros s Hs. left. unfold unregisterPod. set (s1 := match _ with None => s | Some _ => _ end).
  clearbody s1. destruct s1. unfold Store.Pod. cbn. by rewrite !lookup_delete_eq.
Qed.

Lemma publishPodFailure_settled key sources cause root s a :
  accounted s → (publishPodFailure key sources cause root s).1 = Ok a →
  settled_pod key (publishPodFailure key sources cause root s).2.
Proof.
  intros [Hp _]. unfold publishPodFailure. case_match; [done|]. intros _. right.
  assert (Hput : ∀ sources next, pr_UID (pres_Record next) = oj_UID key →
    ∃ result, Store.Pod (oj_UID key) (cs_publications (publish (UpsertPod
      (with_pod_error (failureReason (Some cause)) sources next)) s)) = Some result ∧ pres_Error result ≠ "").
  { intros sources' next E. exists (with_pod_error (failureReason (Some cause)) sources' next).
    split; [by apply Pod_UpsertPod|apply failureReason_nonempty]. }
  assert (Hres : ∀ P : PodResult → Prop, (∃ result, P result ∧ pres_Error result ≠ "") →
    ∀ Q : PodResult → Prop, ∃ result, P result ∧ (pres_Error result ≠ "" ∨ Q result)).
  { intros P (result & ? & ?) Q. exists result. split; [done|by left]. }
  destruct (Store.Pod (oj_UID key) (cs_publications s)) as [previous|] eqn:Ep; cbn [snd];
    apply (Hres (λ result, _ = Some result)), Hput; [|done].
  case_match; [by apply Hp in Ep|done].
Qed.

Lemma settles_failPod key path cause root : settles (failPod key path cause root) (settled_pod key).
Proof.
  eapply settles_bind; [apply safe_query|]. intros sources _. apply settles_locked. intros s a Hs.
  apply publishPodFailure_settled. by apply reachable_kept in Hs as (_ & _ & ?).
Qed.

Lemma settles_failPodEval key path cause root selection :
  settles (failPodEval key path cause root selection) (settled_pod key).
Proof.
  eapply settles_bind; [apply safe_query|]. intros sources _. apply settles_locked. intros s a Hs.
  unfold failPodEvaluation. repeat case_match; [done..|].
  apply publishPodFailure_settled. by apply reachable_kept in Hs as (_ & _ & ?).
Qed.

Lemma publishPod_settled key path rootRef selection result failed s a :
  accounted s → pr_UID (pres_Record result) = oj_UID key → pr_Workload (pres_Record result) = storedRef rootRef →
  pr_Karta (pres_Record result) = karta_of selection → pres_HasValue result = true →
  (publishPod path rootRef selection result failed s).1 = Ok a →
  settled_pod key (publishPod path rootRef selection result failed s).2.
Proof.
  intros [Hp _] Hid Hroot Hkarta Hvalue. unfold publishPod.
  destruct (_ || _ || _) eqn:Ecur; [done|]. destruct (lookupObject rootRef false s) as [[o source]|] eqn:El; [|done].
  case_bool_decide as Hrv; cbn [negb]; [|done]. intros _. cbn [snd]. right.
  apply orb_false_iff in Ecur as [[Epath Eown]%orb_false_iff Edef].
  apply negb_false_iff in Epath, Eown, Edef. destruct failed.
  - assert (Hkeep : pr_UID (pres_Record (keep_pod_record selection (Store.Pod (pr_UID (pres_Record result)) (cs_publications s)) result)) = oj_UID key ∧
      pres_Error (keep_pod_record selection (Store.Pod (pr_UID (pres_Record result)) (cs_publications s)) result) ≠ "").
    { unfold keep_pod_record. destruct (Store.Pod _ _) as [previous|] eqn:Ep; [|done].
      apply Hp in Ep. case_match; cbn; [|done]. by rewrite Ep, Hid. }
    destruct Hkeep as [Hk Herr]. eexists. split; [by apply Pod_UpsertPod|left; exact Herr].
  - exists result. split; [by apply Pod_UpsertPod|]. right.
    split; [done|]. exists rootRef. split; [done|].
    destruct (publish_read (UpsertPod result) s) as (Rl & Ro & Rd). unfold current_root. rewrite Ro. split; [done|].
    setoid_rewrite Rl. setoid_rewrite Rd. split; [exists o, source; split; [done|by right]|by exists selection].
Qed.

Section evaluation.
Context `{!K8s} {A R : Type} `{!ComponentAccessor A} `{!Runner R} `{!Evaluation A R}.

Lemma evaluate_definition_kept selection podObject rootObject record record' :
  evaluate_definition selection podObject rootObject record = Ok record' →
  pr_UID record' = pr_UID record ∧ pr_Workload record' = pr_Workload record ∧
  pr_Karta record' = match sd_Definition selection with Some _ => karta_of selection | None => pr_Karta record end.
Proof.
  unfold evaluate_definition, karta_of. destruct (sd_Definition selection) as [definition|].
  - intros (pod & _ & ([[component instance] group] & _ & [= <-])%result_bind_Ok)%result_bind_Ok. done.
  - by intros [= <-].
Qed.

Lemma safe_evaluated selection podObject rootObject record :
  pr_Karta record = "" →
  safe (evaluatePodRecord selection podObject rootObject record) (λ p,
    pr_UID p.1 = pr_UID record ∧ pr_Workload p.1 = pr_Workload record ∧ pr_Karta p.1 = karta_of selection).
Proof.
  intros Hempty. unfold evaluatePodRecord. eapply safe_bind; [apply safe_lift; intros a Ha; exact Ha|].
  intros record' (E1 & E2 & E3)%evaluate_definition_kept. safe_next. intros n _.
  eapply safe_bind; [by apply (safe_lift _ anything)|intros ? _].
  eapply safe_bind; [by apply (safe_lift _ anything)|intros result _]. apply safe_ret. cbn.
  rewrite E1, E2, E3. split_and!; [done..|]. unfold karta_of. by case_match.
Qed.

Lemma settles_evaluate_and_publish key ref podObject workload selection rootObject rootSource :
  settles (evaluate_and_publish key ref podObject workload selection rootObject rootSource) (settled_pod key).
Proof.
  unfold evaluate_and_publish. eapply settles_bind; [by apply safe_attempt, safe_evaluated|].
  intros [[record failed]|err] Hrec; [|apply settles_failPodEval].
  destruct (Hrec _ eq_refl) as (E1 & E2 & E3). eapply settles_bind; [apply safe_query|]. intros sources _.
  apply settles_locked. intros s a Hs. apply publishPod_settled; [|done..].
  by apply reachable_kept in Hs as (_ & _ & ?).
Qed.

Lemma settles_reconcilePod key : settles (reconcilePod key) (settled_pod key).
Proof.
  unfold reconcilePod. eapply settles_bind; [apply safe_query|]. intros admitted _.
  case_match; [apply settles_unregisterPod|]. eapply settles_bind; [apply safe_attempt, safe_read|]. intros outcome _.
  destruct outcome as [[o source]|err]; [|case_match; [apply settles_unregisterPod|apply settles_failPod]].
  case_match; [apply settles_unregisterPod|].
  eapply settles_bind; [apply safe_attempt, safe_discover|]. intros [workload|err] Hd; [|apply settles_failPod].
  specialize (Hd _ eq_refl). eapply settles_bind; [apply safe_query|]. intros [selection selectionErr] _.
  unfold reconcile_member. eapply settles_bind; [apply safe_attempt, safe_isResourceSelected|].
  intros [[]|err] _; [|apply settles_unregisterPod|apply settles_failPod].
  eapply settles_bind; [apply safe_attempt; by apply (safe_op _ (RegisterPodRoot key workload))|].
  intros [?|err] _; [|case_match; [apply settles_fail|apply settles_failPod]].
  eapply settles_bind; [apply safe_attempt, safe_read_root|].
  intros [[root rootSource]|err] _; [|apply settles_failPod].
  eapply settles_bind; [apply safe_attempt, safe_isRootSelected|].
  intros [[]|err'] _; [|apply settles_unregisterPod|apply settles_failPod].
  destruct selectionErr; [apply settles_failPodEval|apply settles_evaluate_and_publish].
Qed.

(** ** Workloads *)

Definition settled_workload (uid : UID) (s : State) : Prop :=
  Store.Workload uid (cs_publications s) = None ∨
  ∃ result, Store.Workload uid (cs_publications s) = Some result ∧ wres_HasValue result = true ∧ wres_Error result = "" ∧
    (wres_StatusError result ≠ "" ∨
     ∃ ref, wr_Ref (wres_Record result) = storedRef ref ∧ rs_ref <$> cs_roots s !! uid = Some ref ∧
       current_root ref (wr_Karta (wres_Record result)) s).
Lemma unrooted uid s : reachable s → cs_roots s !! uid = None → Store.Workload uid (cs_publications s) = None.
Proof.
  intros (_ & _ & _ & Hw)%reachable_kept Hr. destruct (Store.Workload uid _) as [result|] eqn:E; [|done].
  apply Hw in E as [_ [? ?]]. congruence.
Qed.

Lemma settles_failRoot uid ref cause : settles (failRoot uid ref cause) (settled_workload uid).
Proof.
  eapply settles_bind; [apply safe_query|]. intros sources _. apply settles_locked. intros s a Hs.
  unfold failWorkload. destruct (cs_roots s !! uid) eqn:Er; cbn [is_nil].
  - by destruct (Store.Workload uid (cs_publications s)).
  - intros _. left. by apply unrooted.
Qed.

Lemma settles_withdrawWorkload uid : settles (update (withdrawWorkload uid)) (settled_workload uid).
Proof.
  apply settles_update. intros s Hs. left. unfold withdrawWorkload, removeRoot.
  set (s1 := match _ with None => s | Some _ => _ end). clearbody s1. destruct s1. unfold Store.Workload. cbn.
  by rewrite lookup_delete_eq.
Qed.

Lemma settles_RemoveWorkload uid : settles (update (publish (RemoveWorkload uid))) (settled_workload uid).
Proof.
  apply settles_update. intros s Hs. left. destruct s. unfold Store.Workload. cbn. by rewrite lookup_delete_eq.
Qed.

Lemma roots_read uid f s :
  (∀ ref full, lookupObject ref full (alter_root uid f s) = lookupObject ref full s) ∧
  (∀ ref, hasRootOwnership ref (alter_root uid f s) = hasRootOwnership ref s) ∧
  (∀ ref selection, isDefinitionCurrent ref selection (alter_root uid f s) = isDefinitionCurrent ref selection s) ∧
  cs_publications (alter_root uid f s) = cs_publications s ∧ cs_roots (alter_root uid f s) = alter f uid (cs_roots s).
Proof. by destruct s. Qed.

Lemma publishWorkload_settled uid ref selection next s a :
  wr_UID (wres_Record next) = uid → wr_Ref (wres_Record next) = storedRef ref →
  (wres_StatusError next = "" → wr_Karta (wres_Record next) = karta_of selection) →
  wres_HasValue next = true → wres_Error next = "" → accounted s →
  (publishWorkload uid ref selection next s).1 = Ok a →
  settled_workload uid (publishWorkload uid ref selection next s).2.
Proof.
  intros Hid Href Hkarta Hvalue Herr [_ Hw]. unfold publishWorkload.
  destruct (cs_roots s !! uid) as [root|] eqn:Er; cbn [is_nil orb]; [|done].
  destruct (negb (isNamespaceInScope _ _)); [done|]. destruct (negb (isPathCurrent _ _) || _) eqn:Ecur; [done|].
  destruct (negb (isDefinitionCurrent _ _ _)) eqn:Edef; [done|]. intros _. cbn [snd]. right.
  apply orb_false_iff in Ecur as [Epath Eown]. apply negb_false_iff in Epath, Eown, Edef.
  assert (Hput : ∀ result s0, wr_UID (wres_Record result) = uid →
    Store.Workload uid (cs_publications (publish (UpsertWorkload result) s0)) = Some result).
  { intros result s0 <-. destruct s0. unfold Store.Workload. cbn. by rewrite lookup_insert_eq. }
  case_bool_decide as Hst; cbn [negb].
  - exists next. split; [by apply Hput|]. split_and!; [done..|]. right. exists ref. split; [done|].
    set (s1 := alter_root uid (with_ref ref) s). destruct (roots_read uid (with_ref ref) s) as (Rl & Ro & Rd & _ & Rr).
    fold s1 in Rl, Ro, Rd, Rr. destruct (publish_read (UpsertWorkload next) s1) as (Ql & Qo & Qd).
    split.
    { replace (cs_roots (publish (UpsertWorkload next) s1)) with (cs_roots s1) by (by destruct s1).
      by rewrite Rr, (alter_alt_Some _ _ _ _ Er), lookup_insert_eq. }
    unfold current_root. rewrite Qo, Ro. split; [done|]. setoid_rewrite Ql. setoid_rewrite Rl.
    setoid_rewrite Qd. setoid_rewrite Rd. split; [|exists selection; split; [done|by apply Hkarta]].
    cbn in Epath. rewrite andb_true_r in Epath. destruct (lookupObject ref false s) as [[o source]|] eqn:El; [|done].
    exists o, source. split; [done|]. by eapply lookupObject_version.
  - eexists. split; [apply Hput|].
    + unfold keep_workload_record. destruct (Store.Workload uid (cs_publications s)) as [previous|] eqn:Ep; [|done].
      apply Hw in Ep as [? _]. by case_match.
    + unfold keep_workload_record. destruct (Store.Workload uid (cs_publications s)) as [previous|];
        [case_match|]; cbn; split_and!; try done; by left.
Qed.

Lemma safe_status_karta selection o record :
  wr_Karta record = "" →
  safe (evaluate_status selection None o record)
    (λ p, wr_UID p.1 = wr_UID record ∧ wr_Ref p.1 = wr_Ref record ∧ wr_Karta p.1 = karta_of selection).
Proof.
  intros Hempty. unfold evaluate_status.
  set (q := match sd_Definition selection with None => _ | Some _ => _ end).
  assert (Eq : wr_UID q.1 = wr_UID record ∧ wr_Ref q.1 = wr_Ref record ∧ wr_Karta q.1 = karta_of selection).
  { unfold q, karta_of, evaluateWorkloadStatus. destruct (sd_Definition selection); [|done].
    destruct (GetRootComponent _); [|done]. by destruct (GetStatus _ _).1 as [[]|]. }
  destruct q as [record' err]. cbn in Eq. destruct Eq as (<- & <- & <-).
  eapply (safe_bind _ _ (λ p, wr_UID p.1 = wr_UID record' ∧ wr_Ref p.1 = wr_Ref record' ∧ wr_Karta p.1 = wr_Karta record'));
    [|intros [? ?] E; by apply safe_ret].
  unfold evaluateWorkloadStatusLabels. safe_next. intros n _.
  destruct (Labels_Resolve _ _); [|by apply safe_ret].
  eapply safe_bind; [by apply (safe_lift _ anything)|intros ? _]. case_match; by apply safe_ret.
Qed.

Lemma settles_reconcile_root uid o owner selection selectionErr :
  uid_of o = uid → settles (reconcile_root uid o owner selection selectionErr) (settled_workload uid).
Proof.
  intros Hid. unfold reconcile_root. eapply settles_bind; [apply safe_query|]. intros isRoot _.
  case_match; [apply settles_failRoot|]. eapply settles_bind; [apply safe_attempt, safe_isRootSelected|].
  intros [[]|err] _; [|apply settles_RemoveWorkload|apply settles_failRoot].
  eapply (settles_bind _ _ (λ p, wr_UID p.1 = uid ∧ wr_Ref p.1 = storedRef (refOf o) ∧
            (p.2 = None → wr_Karta p.1 = karta_of selection))).
  - destruct selectionErr as [err|]; [by apply safe_ret|].
    eapply safe_weaken; [by apply safe_status_karta|]. intros p (-> & -> & ->). done.
  - intros [record statusErr] (E1 & E2 & E3). eapply settles_bind; [apply safe_query|]. intros sources _.
    apply settles_locked. intros s a Hs. apply publishWorkload_settled; try done.
    + cbn. destruct statusErr; [by intros ?%failureReason_nonempty|]. intros _. by apply E3.
    + by apply reachable_kept in Hs as (_ & _ & ?).
Qed.

Lemma settles_reconcileWorkload uid : settles (reconcileWorkload uid) (settled_workload uid).
Proof.
  unfold reconcileWorkload. apply settles_query. intros w Hw.
  destruct (snapshotRoot uid (w_state w)) as [ref|] eqn:Er.
  - assert (Hid : or_UID ref = uid ∧ uid ≠ "").
    { apply reachable_kept in Hw as (Hm & _ & _). unfold snapshotRoot in Er.
      destruct (cs_roots (w_state w) !! uid) as [root|] eqn:E; [|done]. injection Er as <-.
      by apply (mb_uid _ _ _ Hm) in E. }
    destruct Hid as [Hid Hne]. revert w Hw Er. intros w Hw Er.
    match goal with |- settles_at ?m ?P w => enough (Hm : settles m P) by apply Hm end.
    eapply settles_bind; [apply safe_query|]. intros [selection selectionErr] _.
    eapply settles_bind; [apply safe_attempt, safe_ensure|]. intros [?|err] _; [|apply settles_failRoot].
    eapply settles_bind; [apply safe_attempt, safe_read|]. intros outcome Ho.
    destruct outcome as [[o source]|err]; [|case_match; [apply settles_withdrawWorkload|apply settles_failRoot]].
    specialize (Ho _ eq_refl). cbn in Ho. rewrite selected_ref_UID, Hid in Ho.
    destruct (ControllerOwner (un_Meta o)) as [owner|]; [|apply settles_failRoot].
    case_match; [apply settles_withdrawWorkload|]. by apply settles_reconcile_root, Ho.
  - intros _ a _. left. cbn. apply unrooted; [done|]. unfold snapshotRoot in Er. by destruct (cs_roots _ !! uid).
Qed.

(** ** The workers *)

Lemma settles_worker {K} (reconcile : K → C ()) (requeue : K → State → State) (key : K) (P Q : State → Prop) w a :
  settles (reconcile key) P → (∀ s, Q (requeue key s)) → (∀ n, ctx_Err n = None) →
  reachable (w_state w) → (runWorker reconcile requeue key w).1 = Ok a →
  P (w_state (runWorker reconcile requeue key w).2) ∨ Q (w_state (runWorker reconcile requeue key w).2).
Proof.
  intros Hr HQ Hctx Hw. pose proof (Hr w Hw) as Hs. unfold runWorker, attempt, mbind, M_bind, turn. cbn.
  destruct (reconcile key w) as [[b|err] w']; cbn in *.
  - left. by apply (Hs b).
  - rewrite Hctx. right. unfold update, locked. cbn. apply HQ.
Qed.

Lemma runWorker_Ok {K} (reconcile : K → C ()) requeue (key : K) w : (runWorker reconcile requeue key w).1 = Ok ().
Proof.
  unfold runWorker, attempt, mbind, M_bind, turn. cbn. destruct (reconcile key w) as [[?|?] w']; [done|].
  cbn. by destruct (ctx_Err _).
Qed.

Lemma in_add_pod key s : key ∈ cs_podQueue (add_pod key s). Proof. destruct s. cbn. set_solver. Qed.
Lemma in_add_workload key s : key ∈ cs_workloadQueue (add_workload key s). Proof. destruct s. cbn. set_solver. Qed.

(** C30: a turn of a pod worker ends well, whatever the other goroutines did in
    the meantime: either the pod waits to be tried again, or it has no result
    and no root any more, or the published result names the reason of a
    failure, or it was published from inputs current at that very moment - its
    root is in the cache at the version read, has no owner of its own, and the
    definition that gave its Karta is the one now selected. *)
Theorem pod_worker_settles key w :
  (∀ n, ctx_Err n = None) → oj_Rescan key = false → reachable (w_state w) →
  let s := w_state (pod_worker key w).2 in
  key ∈ cs_podQueue s ∨ settled_pod key s.
Proof.
  intros Hctx Hkey Hw. unfold pod_worker.
  destruct (safe_update (take_pod key) (TakePod key) I (λ s, eq_refl) w Hw) as [Hw' _].
  unfold mbind, M_bind. destruct (update (take_pod key) w) as [[[]|err] w'] eqn:E; [|unfold update, locked in E; done].
  cbn in Hw'. apply or_comm.
  apply (settles_worker handlePodInput add_pod key _ (λ s, key ∈ cs_podQueue s) w' ()); [|apply in_add_pod|done..|apply runWorker_Ok].
  unfold handlePodInput. rewrite Hkey. apply settles_reconcilePod.
Qed.

(** C31: a turn of a workload worker on a root ends well likewise: the root
    waits to be tried again, or nothing is published for it, or the published
    result has no error, and either names the reason its status failed or
    carries the reference the root now has, current in the cache, with the
    Karta now selected. *)
Theorem workload_worker_settles uid w :
  (∀ n, ctx_Err n = None) → reachable (w_state w) →
  let s := w_state (workload_worker (root_job uid) w).2 in
  root_job uid ∈ cs_workloadQueue s ∨ settled_workload uid s.
Proof.
  intros Hctx Hw. unfold workload_worker.
  destruct (safe_update (take_workload (root_job uid)) (TakeWorkload (root_job uid)) I (λ s, eq_refl) w Hw) as [Hw' _].
  unfold mbind, M_bind. destruct (update (take_workload (root_job uid)) w) as [[[]|err] w'] eqn:E; [|unfold update, locked in E; done].
  cbn in Hw'. apply or_comm.
  apply (settles_worker handleWorkloadInput add_workload (root_job uid) _ (λ s, root_job uid ∈ cs_workloadQueue s) w' ());
    [|apply in_add_workload|done..|apply runWorker_Ok].
  apply settles_reconcileWorkload.
Qed.

End evaluation.
End settle.
