(* ===== verification/ControllerSample.v ===== *)
(** * ControllerSample: a small cluster the controller runs against

    One pod and the job that owns it, with concrete libraries; the theorems on
    the controller are applied to it. *)

From S2P Require Import Prelude Api Value Runner Accessor Component PodQuerier Literal Sort Summary Gang Store Discovery LabelResolver Inventory ControllerState ControllerSources ControllerReconcile ControllerInvariant ControllerSteps ControllerBoard ControllerReach ControllerSettle.

(** Only the error of a missing object is one of the API's. *)
#[local] Instance cluster_errors : KubernetesErrors := {|
  ParseGroupVersion s := if bool_decide (s = "batch/v1") then Ok ("batch", "v1") else Fail (External "bad");
  IsForbidden _ := false;
  IsUnauthorized _ := false;
  IsNotFound err := match err with External s => bool_decide (s = "not found") | _ => false end;
|}.

(** Selectors ask for one label; objects have no further content. *)
#[local] Instance cluster_Kubernetes : Kubernetes := {|
  Content := ();
  no_content := ();
  LabelSelector := string;
  no_terms selector := bool_decide (selector = "");
  Selector := string;
  Everything := "";
  LabelSelectorAsSelector := Ok;
  Matches selector labels := bool_decide (selector = "") || bool_decide (is_Some (labels !! selector));
  NewNotFound _ _ _ := External "not found";
|}.

#[local] Instance cluster_watches : WatchLibrary := {|
  PartialObjectMetadata := object;
  ToUnstructured := Ok;
  IsBadRequest _ := false;
  IsNotAcceptable _ := false;
  IsUnsupportedMediaType _ := false;
  gvk_String := gvk_Kind;
|}.

Definition jobGVK : GroupVersionKind := GVK "batch" "v1" "Job".

Definition sample_object (gvk : GroupVersionKind) (name uid version : string) (owners : list OwnerReference) : object :=
  MkUnstructured _ gvk (MkObject name "ns" uid version owners) ∅ 7 [] ().

Definition sample_pod : object :=
  sample_object podGVK "pod" "p1" "1" [MkOwnerReference (Some true) "batch/v1" "Job" "job" "j1"].
Definition sample_job (version : string) : object := sample_object jobGVK "job" "j1" version [].

Definition sample_workload (version : string) : GenericWorkload :=
  MkGenericWorkload (refOf (sample_job version)) [refOf sample_pod; refOf (sample_job version)] Resolved.

#[local] Instance cluster_settings : Settings := {|
  set_config := MkConfig _ [] [] [] None None None false [] 4 4 4;
  set_namespaceSelector := "";
  set_objectSelector := "";
  set_podSelector := "";
|}.

#[local] Instance quiet_cluster : Cluster := {|
  interfere _ s := s;
  ctx_Err _ := None;
  Now _ := 0%Z;
  IsNoMatchError _ := false;
  IsResettable := false;
  RESTMappingWithContext _ gvk :=
    Ok (MkRESTMapping (GVR (gvk_Group gvk) (gvk_Version gvk) (gvk_Kind gvk)) false);
  FromUnstructured o := Ok (un_Meta o);
  Inventory_List _ := Ok [];
  Labels_Resolve _ input := Ok ((λ metric, MkResolved metric {[ "team" := "a" ]} ∅) <$> in_Metrics input);
  Discovery_Get ref := mret (if bool_decide (or_UID ref = "p1") then Some (sample_workload "1") else None);
|}.

#[local] Existing Instance insertion_GoSort.

#[local] Instance sample_evaluation : Evaluation table table := {|
  ToPod _ := Ok (Table ∅);
  NewInterfaceFromObject _ := Table ∅;
  PodName o := obj_Name (un_Meta o);
  Sprint_other _ := "";
|}.

#[local] Instance quiet_interference : Interference.
Proof.
  split; [done|]. intros ref w Hw. split; [done|]. intros workload [= <-] w0 E.
  case_bool_decide; [|done]. by injection E as <-.
Qed.

Definition sample_config : Config := MkConfig _ [] [] [] None None None false [] 0 0 0.

(** Both kinds watched and listed, and the job at a version. *)
Definition sample_ops (version : string) : list op :=
  [Start Running; AddSync "sources";
   EnsureWatch (RESTMappingWithContext 0 podGVK) None podGVK "" false;
   EnsureWatch (RESTMappingWithContext 0 jobGVK) None jobGVK "" false;
   ReplaceList 0 [WUnstructured sample_pod]; ReplaceList 1 [WUnstructured (sample_job version)]].

Definition sample_New : State :=
  match New sample_config false Store.New with Ok (_, s) => s | Fail _ => newControllerState Store.New end.

Definition sample_state (version : string) : State := foldl (λ s o, exec o s) sample_New (sample_ops version).

Lemma sample_New_reachable : reachable sample_New.
Proof. apply (reachable_New sample_config false). vm_compute. reflexivity. Qed.

Lemma sample_reachable version : reachable (sample_state version).
Proof.
  refine (reachable_ops (sample_ops version) sample_New sample_New_reachable _).
  apply Forall_forall. intros o. unfold sample_ops. rewrite !elem_of_cons, elem_of_nil. naive_solver.
Qed.

Definition sample_key : objectJobKey := objectJobFor (refOf sample_pod).


Definition sample_world (version : string) : world := MkWorld _ 0 (sample_state version) 0.

(** What the two workers publish, and what waits for them afterwards. *)
Definition published (w : world) : list (string * string * string * gmap string string) * list (string * list SourceKey) :=
  ((λ result, let record := pres_Record result in
     (pr_UID record, or_UID (pr_Workload record), or_ResourceVersion (pr_Workload record), pr_Labels record)) <$>
     (map_to_list (st_pods (cs_publications (w_state w)))).*2,
   (λ result, (wr_UID (wres_Record result), wres_Sources result)) <$>
     (map_to_list (st_workloads (cs_publications (w_state w)))).*2).

Example sample_run :
  let w := (pod_worker sample_key (sample_world "1")).2 in
  let w' := (workload_worker (root_job "j1") w).2 in
  (published w).1 = [("p1", "j1", "1", {[ "team" := "a" ]})] ∧ (published w).2 = [] ∧
  bool_decide (sample_key ∈ cs_podQueue (w_state w)) = false ∧
  bool_decide (root_job "j1" ∈ cs_workloadQueue (w_state w)) = true ∧
  (published w').2 = [("j1", [MkSourceKey (GVR "batch" "v1" "Job") ""])] ∧
  bool_decide (root_job "j1" ∈ cs_workloadQueue (w_state w')) = false.
Proof. vm_compute. done. Qed.

(** Discovery has seen version 1, the cache holds version 2: nothing is
    published, and the pod waits. *)
Example sample_stale :
  let w := (pod_worker sample_key (sample_world "2")).2 in
  (published w).1 = [] ∧ bool_decide (sample_key ∈ cs_podQueue (w_state w)) = true.
Proof. vm_compute. done. Qed.

(** ** The theorems at this cluster *)

Lemma reachable_inv_witness :
  reachable (sample_state "1") ∧
  consistent (sample_state "1") ∧ coherent_state (sample_state "1") ∧ accounted (sample_state "1").
Proof. split; [apply sample_reachable|]. apply (reachable_inv _ (sample_reachable "1")). Defined.

Lemma lookupObject_held_witness :
  let source := MkSourceKey (GVR "batch" "v1" "Job") "" in
  held (refOf (sample_job "1")) true (sample_job "1") source (sample_state "1").
Proof.
  intros source. apply (lookupObject_held _ (refOf (sample_job "1")) true (sample_job "1") source (sample_reachable "1")).
  vm_compute. reflexivity.
Defined.

Definition sample_registered : State := w_state (pod_worker sample_key (sample_world "1")).2.

Lemma sample_registered_reachable : reachable sample_registered.
Proof. apply safe_pod_worker, sample_reachable. Qed.

Lemma sample_registered_root : cs_podRoots sample_registered !! "p1" = Some "j1".
Proof. vm_compute. reflexivity. Qed.

(** The watch of the jobs is listed again without the job: the entry goes. *)
Definition sample_dropped : State := exec (ReplaceList 1 []) sample_registered.

Lemma sample_drops :
  uid_of <$> cached (keyOf (refOf (sample_job "1"))) sample_registered = Some "j1" ∧
  uid_of <$> cached (keyOf (refOf (sample_job "1"))) sample_dropped = None ∧
  cs_podRoots sample_dropped !! "p1" = Some "j1".
Proof. vm_compute. done. Qed.

Lemma root_change_requeues_witness :
  reachable sample_registered ∧ ∃ key, oj_UID key = "p1" ∧ key ∈ cs_podQueue sample_dropped.
Proof.
  split; [exact sample_registered_reachable|]. destruct sample_drops as (Hold & Hnew & Hp).
  destruct (root_change_requeues (ReplaceList 1 []) sample_registered (keyOf (refOf (sample_job "1")))
              sample_registered_reachable I) as [E|Hq].
  - assert (Hbad : Some "j1" = None)
      by exact (eq_trans (eq_sym Hold) (eq_trans (eq_sym (f_equal (fmap uid_of) (cached_same _ _ _ E))) Hnew)).
    discriminate.
  - exact (proj2 (Hq "j1" (or_introl Hold)) "p1" Hp).
Defined.

Definition sample_list : list watch_value := [WUnstructured (sample_job "2")].
Definition sample_listed : gmap objectKey object := {[ keyOf (refOf (sample_job "2")) := sample_job "2" ]}.

Lemma sample_tracked : isTrackedWatch 1 (sample_state "1") = true.
Proof. vm_compute. reflexivity. Qed.

Lemma sample_snapshot :
  prepareWatchSnapshot sample_list (rw_gvk (watch_at 1 (sample_state "1")))
    (rw_full (watch_at 1 (sample_state "1"))) ∅ = Ok sample_listed.
Proof. vm_cast_no_check (eq_refl (@Ok (gmap objectKey object) sample_listed)). Qed.

Lemma Replace_spec_witness :
  ∃ s', Replace 1 sample_list (sample_state "1") = (Ok (), s') ∧
    cs_watches s' !! rw_key (watch_at 1 (sample_state "1")) = Some 1 ∧
    ∀ k o, cs_objects s' !! k = Some (MkCachedObject _ o (rw_key (watch_at 1 (sample_state "1")))) ↔
           sample_listed !! k = Some o.
Proof.
  pose proof (Replace_spec 1 sample_list sample_listed (sample_state "1") (sample_reachable "1")
                sample_tracked sample_snapshot) as (s' & E & Hw & _ & Hobj & _).
  exact (ex_intro _ s' (conj E (conj Hw Hobj))).
Defined.

Lemma workers_stay_reachable_witness :
  reachable (w_state (pod_worker sample_key (sample_world "1")).2) ∧ reachable (stopWatches (sample_state "1")).
Proof.
  destruct (workers_stay_reachable (sample_world "1") (sample_state "1") (sample_reachable "1") (sample_reachable "1"))
    as (Hpod & _ & _ & _ & _ & _ & _ & _ & Hstop).
  split; [apply Hpod|exact Hstop].
Defined.

Lemma quiet n : ctx_Err n = None.
Proof. done. Qed.

Lemma pod_worker_settles_witness :
  settled_pod sample_key (w_state (pod_worker sample_key (sample_world "1")).2).
Proof.
  destruct (pod_worker_settles sample_key (sample_world "1") quiet eq_refl (sample_reachable "1"))
    as [Hq|Hs]; [|exact Hs].
  exfalso. apply (bool_decide_eq_true_2 _) in Hq. vm_compute in Hq. discriminate.
Defined.

Lemma workload_worker_settles_witness :
  let w := (pod_worker sample_key (sample_world "1")).2 in
  settled_workload "j1" (w_state (workload_worker (root_job "j1") w).2).
Proof.
  intros w.
  destruct (workload_worker_settles "j1" w quiet sample_registered_reachable) as [Hq|Hs]; [|exact Hs].
  exfalso. apply (bool_decide_eq_true_2 _) in Hq. vm_compute in Hq. discriminate.
Defined.
