(* ===== verification/Kartas.v ===== *)
(** * Kartas: the built-in Karta definitions

    Models [karta/sdk/pkg/catalog/kartas/*.go], one definition per constructor,
    as composite literals ([Literal]), and the list [definitions] that wires them
    into the catalog.  The component literals of the two longest constructors
    carry names of their own.  The type metadata of the resource is the same
    constant everywhere and is left out, as in [Api]. *)

From S2P Require Import Prelude Api Literal.

#[local] Open Scope string_scope.
#[local] Open Scope literal_scope.

(** *** [batch_job.go] *)

Definition BatchJob : Karta :=
  {{
    k_ObjectMeta ≔ {{ om_Name ≔ "batch-job-v1" }};
    k_Spec ≔ {{
      ks_StructureDefinition ≔ {{
        st_RootComponent ≔ {{
          cd_Name ≔ "job";
          cd_Kind ≔ Some (GVK "batch" "v1" "Job");
          cd_ScaleDefinition ≔ Some {{ sc_ReplicasPath ≔ Some ".spec.parallelism // 1" }};
          cd_SpecDefinition ≔ Some {{ sd_PodTemplateSpecPath ≔ Some ".spec.template" }};
          cd_StatusDefinition ≔ Some {{
            std_ConditionsDefinition ≔ Some {{
              cnd_Path ≔ ".status.conditions";
              cnd_TypeFieldName ≔ "type";
              cnd_StatusFieldName ≔ "status";
              cnd_MessageFieldName ≔ Some "message";
              cnd_ReasonFieldName ≔ Some "reason" }};
            std_StatusMappings ≔ {{
              smp_Initializing ≔ [{{
                sm_ByExpression ≔ Some {{
                  em_Expression ≔ "(.status.active // 0) > 0 and (.status.ready // 0) == 0";
                  em_ExpectedResult ≔ "true" }} }}];
              smp_Running ≔ [{{
                sm_ByExpression ≔ Some {{
                  em_Expression ≔ "(.status.active // 0) > 0 and (.status.ready // 0) > 0";
                  em_ExpectedResult ≔ "true" }} }}];
              smp_Completed ≔ [
                {{
                  sm_ByConditions ≔ [{{ ec_Type ≔ "Complete"; ec_Status ≔ Some "True" }}] }};
                {{
                  sm_ByConditions ≔ [{{ ec_Type ≔ "SuccessCriteriaMet"; ec_Status ≔ Some "True" }}] }}];
              smp_Failed ≔ [
                {{
                  sm_ByConditions ≔ [{{ ec_Type ≔ "Failed"; ec_Status ≔ Some "True" }}] }};
                {{
                  sm_ByConditions ≔ [{{ ec_Type ≔ "FailureTarget"; ec_Status ≔ Some "True" }}] }}];
              smp_Degraded ≔ [{{
                sm_ByExpression ≔ Some {{
                  em_Expression ≔ ".spec.parallelism > 1 and (.status.ready // 0) < .spec.parallelism and ((.status.succeeded // 0) > 0 or (.status.failed // 0) > 0)";
                  em_ExpectedResult ≔ "true" }} }}];
              smp_Suspended ≔ [{{
                sm_ByConditions ≔ [{{ ec_Type ≔ "Suspended"; ec_Status ≔ Some "True" }}] }}] }} }};
          cd_SuspendDefinition ≔ Some {{
            sus_SuspendActions ≔ [{{ sa_Path ≔ ".spec.suspend"; sa_Value ≔ "true" }}];
            sus_ResumeActions ≔ [{{ sa_Path ≔ ".spec.suspend"; sa_Value ≔ "false" }}] }} }} }};
      ks_Instructions ≔ {{
        oi_GangScheduling ≔ Some {{
          gs_PodGroups ≔ [{{
            pg_Name ≔ "job";
            pg_Members ≔ [{{
              pm_ComponentName ≔ "job";
              pm_GroupByKeyPaths ≔ [dq ".metadata.labels['batch.kubernetes.io/job-name']"] }}] }}] }} }} }} }}.

(** *** [cronjob.go] *)

Definition CronJob : Karta :=
  {{
    k_ObjectMeta ≔ {{ om_Name ≔ "batch-cronjob-v1" }};
    k_Spec ≔ {{
      ks_StructureDefinition ≔ {{
        st_RootComponent ≔ {{
          cd_Name ≔ "cronjob";
          cd_Kind ≔ Some (GVK "batch" "v1" "CronJob");
          cd_ScaleDefinition ≔ Some {{
            sc_ReplicasPath ≔ Some ".spec.jobTemplate.spec.parallelism // 1" }};
          cd_SpecDefinition ≔ Some {{ sd_PodTemplateSpecPath ≔ Some ".spec.jobTemplate.spec.template" }};
          cd_SuspendDefinition ≔ Some {{
            sus_SuspendActions ≔ [{{ sa_Path ≔ ".spec.suspend"; sa_Value ≔ "true" }}];
            sus_ResumeActions ≔ [{{ sa_Path ≔ ".spec.suspend"; sa_Value ≔ "false" }}] }};
          cd_StatusDefinition ≔ Some {{
            std_StatusMappings ≔ {{
              smp_Initializing ≔ [{{
                sm_ByExpression ≔ Some {{
                  em_Expression ≔ "(.spec.suspend // false) != true and (.status.lastScheduleTime == null)";
                  em_ExpectedResult ≔ "true" }} }}];
              smp_Running ≔ [{{
                sm_ByExpression ≔ Some {{
                  em_Expression ≔ "(.spec.suspend // false) != true and (.status.lastScheduleTime != null)";
                  em_ExpectedResult ≔ "true" }} }}];
              smp_Suspended ≔ [{{
                sm_ByExpression ≔ Some {{
                  em_Expression ≔ "(.spec.suspend // false) == true";
                  em_ExpectedResult ≔ "true" }} }}] }} }} }};
        st_ChildComponents ≔ [{{
          cd_Name ≔ "job";
          cd_Kind ≔ Some (GVK "batch" "v1" "Job");
          cd_OwnerRef ≔ Some "cronjob" }}] }} }} }}.

(** *** [deployment.go] *)

Definition Deployment : Karta :=
  {{
    k_ObjectMeta ≔ {{ om_Name ≔ "apps-deployment-v1" }};
    k_Spec ≔ {{
      ks_StructureDefinition ≔ {{
        st_RootComponent ≔ {{
          cd_Name ≔ "deployment";
          cd_Kind ≔ Some (GVK "apps" "v1" "Deployment");
          cd_ScaleDefinition ≔ Some {{ sc_ReplicasPath ≔ Some ".spec.replicas // 1" }};
          cd_SpecDefinition ≔ Some {{ sd_PodTemplateSpecPath ≔ Some ".spec.template" }};
          cd_StatusDefinition ≔ Some {{
            std_ConditionsDefinition ≔ Some {{
              cnd_Path ≔ ".status.conditions";
              cnd_TypeFieldName ≔ "type";
              cnd_StatusFieldName ≔ "status";
              cnd_MessageFieldName ≔ Some "message";
              cnd_ReasonFieldName ≔ Some "reason" }};
            std_StatusMappings ≔ {{
              smp_Initializing ≔ [
                {{
                  sm_ByConditions ≔ [{{
                    ec_Type ≔ "Progressing";
                    ec_Status ≔ Some "True";
                    ec_Reason ≔ Some "NewReplicaSetCreated" }}] }};
                {{
                  sm_ByConditions ≔ [
                    {{ ec_Type ≔ "Progressing"; ec_Status ≔ Some "True" }};
                    {{ ec_Type ≔ "Available"; ec_Status ≔ Some "False" }}] }}];
              smp_Running ≔ [{{
                sm_ByConditions ≔ [{{
                  ec_Type ≔ "Progressing";
                  ec_Status ≔ Some "True";
                  ec_Reason ≔ Some "NewReplicaSetAvailable" }}] }}];
              smp_Failed ≔ [{{
                sm_ByConditions ≔ [{{
                  ec_Type ≔ "Progressing";
                  ec_Status ≔ Some "False";
                  ec_Reason ≔ Some "ProgressDeadlineExceeded" }}] }}] }} }} }};
        st_ChildComponents ≔ [{{
          cd_Name ≔ "replicaset";
          cd_Kind ≔ Some (GVK "apps" "v1" "ReplicaSet");
          cd_OwnerRef ≔ Some "deployment" }}] }} }} }}.

(** *** [statefulset.go] *)

Definition StatefulSet : Karta :=
  {{
    k_ObjectMeta ≔ {{ om_Name ≔ "apps-statefulset-v1" }};
    k_Spec ≔ {{
      ks_StructureDefinition ≔ {{
        st_RootComponent ≔ {{
          cd_Name ≔ "statefulset";
          cd_Kind ≔ Some (GVK "apps" "v1" "StatefulSet");
          cd_ScaleDefinition ≔ Some {{ sc_ReplicasPath ≔ Some ".spec.replicas // 1" }};
          cd_SpecDefinition ≔ Some {{ sd_PodTemplateSpecPath ≔ Some ".spec.template" }};
          cd_StatusDefinition ≔ Some {{
            std_StatusMappings ≔ {{
              smp_Running ≔ [{{
                sm_ByExpression ≔ Some {{
                  em_Expression ≔ "(.status.observedGeneration // 0) == (.metadata.generation // 0) and (.status.replicas // 0) == (.spec.replicas // 1) and (.status.readyReplicas // 0) == (.spec.replicas // 1) and (.status.updatedReplicas // 0) == (.spec.replicas // 1) and (.status.currentRevision == .status.updateRevision)";
                  em_ExpectedResult ≔ "true" }} }}];
              smp_Degraded ≔ [{{
                sm_ByExpression ≔ Some {{
                  em_Expression ≔ "(.status.readyReplicas // 0) > 0 and (.status.readyReplicas // 0) < (.spec.replicas // 1) and (.status.updatedReplicas // 0) == (.spec.replicas // 1) and (.status.currentRevision == .status.updateRevision) and (.status.observedGeneration // 0) == (.metadata.generation // 0)";
                  em_ExpectedResult ≔ "true" }} }}];
              smp_Initializing ≔ [
                {{
                  sm_ByExpression ≔ Some {{
                    em_Expression ≔ ".status.observedGeneration == .metadata.generation and (.status.replicas // 0) > (.spec.replicas // 1)";
                    em_ExpectedResult ≔ "true" }} }};
                {{
                  sm_ByExpression ≔ Some {{
                    em_Expression ≔ "(.spec.replicas // 1) > 0 and ((.status.observedGeneration // 0) != (.metadata.generation // 0) or (.status.readyReplicas // 0) == 0 or (.status.updatedReplicas // 0) != (.spec.replicas // 1) or (.status.currentRevision != .status.updateRevision))";
                    em_ExpectedResult ≔ "true" }} }}] }} }} }} }} }} }}.

(** *** [pod.go] *)

Definition Pod : Karta :=
  {{
    k_ObjectMeta ≔ {{ om_Name ≔ "core-pod-v1" }};
    k_Spec ≔ {{
      ks_StructureDefinition ≔ {{
        st_RootComponent ≔ {{
          cd_Name ≔ "pod";
          cd_Kind ≔ Some (GVK "" "v1" "Pod");
          cd_ScaleDefinition ≔ Some {{ sc_ReplicasPath ≔ Some "1" }};
          cd_SpecDefinition ≔ Some {{ sd_PodTemplateSpecPath ≔ Some "." }};
          cd_StatusDefinition ≔ Some {{
            std_PhaseDefinition ≔ Some {{ pd_Path ≔ ".status.phase" }};
            std_ConditionsDefinition ≔ Some {{
              cnd_Path ≔ ".status.conditions";
              cnd_TypeFieldName ≔ "type";
              cnd_StatusFieldName ≔ "status";
              cnd_MessageFieldName ≔ Some "message";
              cnd_ReasonFieldName ≔ Some "reason" }};
            std_StatusMappings ≔ {{
              smp_Initializing ≔ [{{ sm_ByPhase ≔ "Pending" }}];
              smp_Running ≔ [{{ sm_ByPhase ≔ "Running" }}];
              smp_Completed ≔ [{{ sm_ByPhase ≔ "Succeeded" }}];
              smp_Failed ≔ [{{ sm_ByPhase ≔ "Failed" }}] }} }} }} }} }} }}.

(** *** [jobset.go] *)

Definition Jobset : Karta :=
  {{
    k_ObjectMeta ≔ {{ om_Name ≔ "jobset-x-k8s-io-jobset-v1alpha2" }};
    k_Spec ≔ {{
      ks_StructureDefinition ≔ {{
        st_RootComponent ≔ {{
          cd_Name ≔ "jobset";
          cd_Kind ≔ Some (GVK "jobset.x-k8s.io" "v1alpha2" "JobSet");
          cd_SuspendDefinition ≔ Some {{
            sus_SuspendActions ≔ [{{ sa_Path ≔ ".spec.suspend"; sa_Value ≔ "true" }}];
            sus_ResumeActions ≔ [{{ sa_Path ≔ ".spec.suspend"; sa_Value ≔ "false" }}] }};
          cd_StatusDefinition ≔ Some {{
            std_ConditionsDefinition ≔ Some {{
              cnd_Path ≔ ".status.conditions";
              cnd_TypeFieldName ≔ "type";
              cnd_StatusFieldName ≔ "status";
              cnd_MessageFieldName ≔ Some "message";
              cnd_ReasonFieldName ≔ Some "reason" }};
            std_StatusMappings ≔ {{
              smp_Initializing ≔ [{{
                sm_ByExpression ≔ Some {{
                  em_Expression ≔ "(.status.replicatedJobsStatus // []) | any(.active > 0 and (.ready // 0) == 0) and all(.failed == 0)";
                  em_ExpectedResult ≔ "true" }} }}];
              smp_Running ≔ [{{
                sm_ByExpression ≔ Some {{
                  em_Expression ≔ "(.status.replicatedJobsStatus // []) | any(.active > 0 or .ready > 0) and all((.failed // 0) == 0)";
                  em_ExpectedResult ≔ "true" }} }}];
              smp_Completed ≔ [{{
                sm_ByConditions ≔ [{{ ec_Type ≔ "Completed"; ec_Status ≔ Some "True" }}] }}];
              smp_Failed ≔ [{{
                sm_ByConditions ≔ [{{ ec_Type ≔ "Failed"; ec_Status ≔ Some "True" }}] }}];
              smp_Suspended ≔ [{{
                sm_ByConditions ≔ [{{ ec_Type ≔ "Suspended"; ec_Status ≔ Some "True" }}] }}] }} }} }};
        st_ChildComponents ≔ [{{
          cd_Name ≔ "replicatedjob";
          cd_Kind ≔ Some (GVK "batch" "v1" "Job");
          cd_OwnerRef ≔ Some "jobset";
          cd_SpecDefinition ≔ Some {{
            sd_PodTemplateSpecPath ≔ Some ".spec.replicatedJobs[].template.spec.template" }};
          cd_ScaleDefinition ≔ Some {{
            sc_ReplicasPath ≔ Some ".spec.replicatedJobs[] | .replicas * .template.spec.parallelism" }};
          cd_InstanceIdPath ≔ Some ".spec.replicatedJobs[].name";
          cd_PodSelector ≔ Some {{
            ps_ComponentInstanceSelector ≔ Some {{
              cis_IdPath ≔ dq ".metadata.labels['jobset.sigs.k8s.io/replicatedjob-name']" }} }} }}] }};
      ks_Instructions ≔ {{
        oi_GangScheduling ≔ Some {{
          gs_PodGroups ≔ [{{
            pg_Name ≔ "job";
            pg_Members ≔ [{{
              pm_ComponentName ≔ "replicatedjob";
              pm_GroupByKeyPaths ≔ [dq ".metadata.labels['jobset.sigs.k8s.io/replicatedjob-name']"] }}] }}] }} }} }} }}.

(** *** [pytorch.go] *)

Definition Pytorch : Karta :=
  {{
    k_ObjectMeta ≔ {{ om_Name ≔ "kubeflow-org-pytorchjob-v1" }};
    k_Spec ≔ {{
      ks_StructureDefinition ≔ {{
        st_RootComponent ≔ {{
          cd_Name ≔ "pytorchjob";
          cd_Kind ≔ Some (GVK "kubeflow.org" "v1" "PyTorchJob");
          cd_SuspendDefinition ≔ Some {{
            sus_SuspendActions ≔ [{{ sa_Path ≔ ".spec.runPolicy.suspend"; sa_Value ≔ "true" }}];
            sus_ResumeActions ≔ [{{ sa_Path ≔ ".spec.runPolicy.suspend"; sa_Value ≔ "false" }}] }};
          cd_StatusDefinition ≔ Some {{
            std_ConditionsDefinition ≔ Some {{
              cnd_Path ≔ ".status.conditions";
              cnd_TypeFieldName ≔ "type";
              cnd_StatusFieldName ≔ "status";
              cnd_MessageFieldName ≔ Some "message" }};
            std_StatusMappings ≔ {{
              smp_Initializing ≔ [{{
                sm_ByConditions ≔ [{{ ec_Type ≔ "Created"; ec_Status ≔ Some "True" }}] }}];
              smp_Running ≔ [{{
                sm_ByConditions ≔ [{{ ec_Type ≔ "Running"; ec_Status ≔ Some "True" }}] }}];
              smp_Completed ≔ [{{
                sm_ByConditions ≔ [{{ ec_Type ≔ "Succeeded"; ec_Status ≔ Some "True" }}] }}];
              smp_Failed ≔ [{{
                sm_ByConditions ≔ [{{ ec_Type ≔ "Failed"; ec_Status ≔ Some "True" }}] }}];
              smp_Suspended ≔ [{{
                sm_ByConditions ≔ [{{ ec_Type ≔ "Suspended"; ec_Status ≔ Some "True" }}] }}] }} }} }};
        st_ChildComponents ≔ [
          {{
            cd_Name ≔ "master";
            cd_Kind ≔ Some (GVK "" "v1" "Pod");
            cd_OwnerRef ≔ Some "pytorchjob";
            cd_SpecDefinition ≔ Some {{
              sd_PodTemplateSpecPath ≔ Some ".spec.pytorchReplicaSpecs.Master.template" }};
            cd_ScaleDefinition ≔ Some {{
              sc_ReplicasPath ≔ Some ".spec.pytorchReplicaSpecs.Master.replicas // 1" }};
            cd_PodSelector ≔ Some {{
              ps_ComponentTypeSelector ≔ Some {{
                cts_KeyPath ≔ dq ".metadata.labels['training.kubeflow.org/replica-type']";
                cts_Value ≔ Some "master" }} }} }};
          {{
            cd_Name ≔ "worker";
            cd_Kind ≔ Some (GVK "" "v1" "Pod");
            cd_OwnerRef ≔ Some "pytorchjob";
            cd_SpecDefinition ≔ Some {{
              sd_PodTemplateSpecPath ≔ Some ".spec.pytorchReplicaSpecs.Worker.template" }};
            cd_ScaleDefinition ≔ Some {{
              sc_ReplicasPath ≔ Some ".spec.pytorchReplicaSpecs.Worker.replicas // 1";
              sc_MinReplicasPath ≔ Some ".spec.elasticPolicy.minReplicas";
              sc_MaxReplicasPath ≔ Some ".spec.elasticPolicy.maxReplicas" }};
            cd_PodSelector ≔ Some {{
              ps_ComponentTypeSelector ≔ Some {{
                cts_KeyPath ≔ dq ".metadata.labels['training.kubeflow.org/replica-type']";
                cts_Value ≔ Some "worker" }} }} }}] }};
      ks_Instructions ≔ {{
        oi_GangScheduling ≔ Some {{
          gs_PodGroups ≔ [{{
            pg_Name ≔ "job";
            pg_Members ≔ [
              {{
                pm_ComponentName ≔ "master";
                pm_GroupByKeyPaths ≔ [dq ".metadata.labels['training.kubeflow.org/job-name']"] }};
              {{
                pm_ComponentName ≔ "worker";
                pm_GroupByKeyPaths ≔ [dq ".metadata.labels['training.kubeflow.org/job-name']"] }}] }}] }} }} }} }}.

(** *** [mpijob.go] *)

Definition Mpijob : Karta :=
  {{
    k_ObjectMeta ≔ {{ om_Name ≔ "kubeflow-org-mpijob-v2beta1" }};
    k_Spec ≔ {{
      ks_StructureDefinition ≔ {{
        st_RootComponent ≔ {{
          cd_Name ≔ "mpijob";
          cd_Kind ≔ Some (GVK "kubeflow.org" "v2beta1" "MPIJob");
          cd_SuspendDefinition ≔ Some {{
            sus_SuspendActions ≔ [{{ sa_Path ≔ ".spec.runPolicy.suspend"; sa_Value ≔ "true" }}];
            sus_ResumeActions ≔ [{{ sa_Path ≔ ".spec.runPolicy.suspend"; sa_Value ≔ "false" }}] }};
          cd_StatusDefinition ≔ Some {{
            std_ConditionsDefinition ≔ Some {{
              cnd_Path ≔ ".status.conditions";
              cnd_TypeFieldName ≔ "type";
              cnd_StatusFieldName ≔ "status";
              cnd_ReasonFieldName ≔ Some "reason";
              cnd_MessageFieldName ≔ Some "message" }};
            std_StatusMappings ≔ {{
              smp_Initializing ≔ [{{
                sm_ByConditions ≔ [{{ ec_Type ≔ "Created"; ec_Status ≔ Some "True" }}] }}];
              smp_Running ≔ [{{
                sm_ByConditions ≔ [{{ ec_Type ≔ "Running"; ec_Status ≔ Some "True" }}] }}];
              smp_Completed ≔ [{{
                sm_ByConditions ≔ [{{ ec_Type ≔ "Succeeded"; ec_Status ≔ Some "True" }}] }}];
              smp_Failed ≔ [{{
                sm_ByConditions ≔ [{{ ec_Type ≔ "Failed"; ec_Status ≔ Some "True" }}] }}];
              smp_Suspended ≔ [{{
                sm_ByConditions ≔ [{{ ec_Type ≔ "Suspended"; ec_Status ≔ Some "True" }}] }}] }} }} }};
        st_ChildComponents ≔ [
          {{
            cd_Name ≔ "launcher";
            cd_Kind ≔ Some (GVK "" "v1" "Pod");
            cd_OwnerRef ≔ Some "mpijob";
            cd_SpecDefinition ≔ Some {{
              sd_PodTemplateSpecPath ≔ Some ".spec.mpiReplicaSpecs.Launcher.template" }};
            cd_ScaleDefinition ≔ Some {{
              sc_ReplicasPath ≔ Some ".spec.mpiReplicaSpecs.Launcher.replicas // 1" }};
            cd_PodSelector ≔ Some {{
              ps_ComponentTypeSelector ≔ Some {{
                cts_KeyPath ≔ dq ".metadata.labels['training.kubeflow.org/job-role']";
                cts_Value ≔ Some "launcher" }} }} }};
          {{
            cd_Name ≔ "worker";
            cd_Kind ≔ Some (GVK "" "v1" "Pod");
            cd_OwnerRef ≔ Some "mpijob";
            cd_SpecDefinition ≔ Some {{
              sd_PodTemplateSpecPath ≔ Some ".spec.mpiReplicaSpecs.Worker.template" }};
            cd_ScaleDefinition ≔ Some {{
              sc_ReplicasPath ≔ Some ".spec.mpiReplicaSpecs.Worker.replicas // 1" }};
            cd_PodSelector ≔ Some {{
              ps_ComponentTypeSelector ≔ Some {{
                cts_KeyPath ≔ dq ".metadata.labels['training.kubeflow.org/job-role']";
                cts_Value ≔ Some "worker" }} }} }}] }};
      ks_Instructions ≔ {{
        oi_GangScheduling ≔ Some {{
          gs_PodGroups ≔ [{{
            pg_Name ≔ "job";
            pg_Members ≔ [
              {{
                pm_ComponentName ≔ "launcher";
                pm_GroupByKeyPaths ≔ [dq ".metadata.labels['training.kubeflow.org/job-name']"] }};
              {{
                pm_ComponentName ≔ "worker";
                pm_GroupByKeyPaths ≔ [dq ".metadata.labels['training.kubeflow.org/job-name']"] }}] }}] }} }} }} }}.

(** *** [raycluster.go] *)

Definition Raycluster : Karta :=
  {{
    k_ObjectMeta ≔ {{ om_Name ≔ "ray-io-raycluster-v1" }};
    k_Spec ≔ {{
      ks_StructureDefinition ≔ {{
        st_RootComponent ≔ {{
          cd_Name ≔ "raycluster";
          cd_Kind ≔ Some (GVK "ray.io" "v1" "RayCluster");
          cd_SuspendDefinition ≔ Some {{
            sus_SuspendActions ≔ [{{ sa_Path ≔ ".spec.suspend"; sa_Value ≔ "true" }}];
            sus_ResumeActions ≔ [{{ sa_Path ≔ ".spec.suspend"; sa_Value ≔ "false" }}] }};
          cd_StatusDefinition ≔ Some {{
            std_PhaseDefinition ≔ Some {{ pd_Path ≔ ".status.state" }};
            std_StatusMappings ≔ {{
              smp_Running ≔ [{{ sm_ByPhase ≔ "ready" }}];
              smp_Failed ≔ [{{ sm_ByPhase ≔ "failed" }}];
              smp_Suspended ≔ [{{
                sm_ByExpression ≔ Some {{
                  em_Expression ≔ dq ".spec.suspend == true and (.status.state == 'suspended' or (.status.state | not))";
                  em_ExpectedResult ≔ "true" }} }}] }} }} }};
        st_ChildComponents ≔ [
          {{
            cd_Name ≔ "head";
            cd_Kind ≔ Some (GVK "" "v1" "Pod");
            cd_OwnerRef ≔ Some "raycluster";
            cd_SpecDefinition ≔ Some {{ sd_PodTemplateSpecPath ≔ Some ".spec.headGroupSpec.template" }};
            cd_ScaleDefinition ≔ Some {{ sc_ReplicasPath ≔ Some "1" }};
            cd_PodSelector ≔ Some {{
              ps_ComponentTypeSelector ≔ Some {{
                cts_KeyPath ≔ dq ".metadata.labels['ray.io/node-type']";
                cts_Value ≔ Some "head" }} }} }};
          {{
            cd_Name ≔ "worker";
            cd_Kind ≔ Some (GVK "" "v1" "Pod");
            cd_OwnerRef ≔ Some "raycluster";
            cd_SpecDefinition ≔ Some {{
              sd_PodTemplateSpecPath ≔ Some ".spec.workerGroupSpecs[].template" }};
            cd_ScaleDefinition ≔ Some {{
              sc_ReplicasPath ≔ Some ".spec.workerGroupSpecs[].replicas";
              sc_MinReplicasPath ≔ Some ".spec.workerGroupSpecs[].minReplicas";
              sc_MaxReplicasPath ≔ Some ".spec.workerGroupSpecs[].maxReplicas" }};
            cd_InstanceIdPath ≔ Some ".spec.workerGroupSpecs[].groupName";
            cd_PodSelector ≔ Some {{
              ps_ComponentTypeSelector ≔ Some {{
                cts_KeyPath ≔ dq ".metadata.labels['ray.io/node-type']";
                cts_Value ≔ Some "worker" }};
              ps_ComponentInstanceSelector ≔ Some {{ cis_IdPath ≔ dq ".metadata.labels['ray.io/group']" }} }} }}] }};
      ks_Instructions ≔ {{
        oi_GangScheduling ≔ Some {{
          gs_PodGroups ≔ [{{
            pg_Name ≔ "cluster";
            pg_Members ≔ [
              {{
                pm_ComponentName ≔ "head";
                pm_GroupByKeyPaths ≔ [dq ".metadata.labels['ray.io/cluster']"] }};
              {{
                pm_ComponentName ≔ "worker";
                pm_GroupByKeyPaths ≔ [dq ".metadata.labels['ray.io/cluster']"] }}] }}] }} }} }} }}.

(** *** [rayjob.go] *)

Definition Rayjob : Karta :=
  {{
    k_ObjectMeta ≔ {{ om_Name ≔ "ray-io-rayjob-v1" }};
    k_Spec ≔ {{
      ks_StructureDefinition ≔ {{
        st_RootComponent ≔ {{
          cd_Name ≔ "rayjob";
          cd_Kind ≔ Some (GVK "ray.io" "v1" "RayJob");
          cd_SuspendDefinition ≔ Some {{
            sus_SuspendActions ≔ [{{ sa_Path ≔ ".spec.suspend"; sa_Value ≔ "true" }}];
            sus_ResumeActions ≔ [{{ sa_Path ≔ ".spec.suspend"; sa_Value ≔ "false" }}] }};
          cd_StatusDefinition ≔ Some {{
            std_PhaseDefinition ≔ Some {{ pd_Path ≔ ".status.jobStatus" }};
            std_ConditionsDefinition ≔ Some {{
              cnd_Path ≔ ".status.conditions";
              cnd_TypeFieldName ≔ "type";
              cnd_StatusFieldName ≔ "status";
              cnd_MessageFieldName ≔ Some "message" }};
            std_StatusMappings ≔ {{
              smp_Initializing ≔ [
                {{ sm_ByPhase ≔ "PENDING" }};
                {{
                  sm_ByExpression ≔ Some {{
                    em_Expression ≔ dq ".status.jobDeploymentStatus == 'Initializing'";
                    em_ExpectedResult ≔ "true" }} }}];
              smp_Running ≔ [{{ sm_ByPhase ≔ "RUNNING" }}];
              smp_Completed ≔ [{{ sm_ByPhase ≔ "SUCCEEDED" }}];
              smp_Failed ≔ [{{ sm_ByPhase ≔ "FAILED" }}];
              smp_Suspended ≔ [{{
                sm_ByExpression ≔ Some {{
                  em_Expression ≔ dq ".status.jobDeploymentStatus == 'Suspended'";
                  em_ExpectedResult ≔ "true" }} }}] }} }} }};
        st_ChildComponents ≔ [
          {{
            cd_Name ≔ "head";
            cd_Kind ≔ Some (GVK "" "v1" "Pod");
            cd_OwnerRef ≔ Some "rayjob";
            cd_SpecDefinition ≔ Some {{
              sd_PodTemplateSpecPath ≔ Some ".spec.rayClusterSpec.headGroupSpec.template" }};
            cd_ScaleDefinition ≔ Some {{ sc_ReplicasPath ≔ Some "1" }};
            cd_PodSelector ≔ Some {{
              ps_ComponentTypeSelector ≔ Some {{
                cts_KeyPath ≔ dq ".metadata.labels['ray.io/node-type']";
                cts_Value ≔ Some "head" }} }} }};
          {{
            cd_Name ≔ "worker";
            cd_Kind ≔ Some (GVK "" "v1" "Pod");
            cd_OwnerRef ≔ Some "rayjob";
            cd_SpecDefinition ≔ Some {{
              sd_PodTemplateSpecPath ≔ Some ".spec.rayClusterSpec.workerGroupSpecs[].template" }};
            cd_ScaleDefinition ≔ Some {{
              sc_ReplicasPath ≔ Some ".spec.rayClusterSpec.workerGroupSpecs[].replicas // 1";
              sc_MinReplicasPath ≔ Some ".spec.rayClusterSpec.workerGroupSpecs[].minReplicas";
              sc_MaxReplicasPath ≔ Some ".spec.rayClusterSpec.workerGroupSpecs[].maxReplicas" }};
            cd_InstanceIdPath ≔ Some ".spec.rayClusterSpec.workerGroupSpecs[].groupName";
            cd_PodSelector ≔ Some {{
              ps_ComponentTypeSelector ≔ Some {{
                cts_KeyPath ≔ dq ".metadata.labels['ray.io/node-type']";
                cts_Value ≔ Some "worker" }};
              ps_ComponentInstanceSelector ≔ Some {{ cis_IdPath ≔ dq ".metadata.labels['ray.io/group']" }} }} }}] }};
      ks_Instructions ≔ {{
        oi_GangScheduling ≔ Some {{
          gs_PodGroups ≔ [{{
            pg_Name ≔ "job";
            pg_Members ≔ [
              {{
                pm_ComponentName ≔ "head";
                pm_GroupByKeyPaths ≔ [dq ".metadata.labels['ray.io/cluster']"] }};
              {{
                pm_ComponentName ≔ "worker";
                pm_GroupByKeyPaths ≔ [dq ".metadata.labels['ray.io/cluster']"] }}] }}] }} }} }} }}.

(** *** [rayservice.go] *)

Definition RayService : Karta :=
  {{
    k_ObjectMeta ≔ {{ om_Name ≔ "ray-io-rayservice-v1" }};
    k_Spec ≔ {{
      ks_StructureDefinition ≔ {{
        st_RootComponent ≔ {{
          cd_Name ≔ "rayservice";
          cd_Kind ≔ Some (GVK "ray.io" "v1" "RayService");
          cd_StatusDefinition ≔ Some {{
            std_ConditionsDefinition ≔ Some {{
              cnd_Path ≔ ".status.conditions";
              cnd_TypeFieldName ≔ "type";
              cnd_StatusFieldName ≔ "status";
              cnd_ReasonFieldName ≔ Some "reason";
              cnd_MessageFieldName ≔ Some "message" }};
            std_StatusMappings ≔ {{
              smp_Running ≔ [{{
                sm_ByConditions ≔ [{{ ec_Type ≔ "Ready"; ec_Status ≔ Some "True" }}] }}];
              smp_Initializing ≔ [{{
                sm_ByConditions ≔ [{{
                  ec_Type ≔ "Ready";
                  ec_Status ≔ Some "False";
                  ec_Reason ≔ Some "Initializing" }}] }}];
              smp_Degraded ≔ [{{
                sm_ByConditions ≔ [{{
                  ec_Type ≔ "Ready";
                  ec_Status ≔ Some "False";
                  ec_Reason ≔ Some "ZeroServeEndpoints" }}] }}];
              smp_Failed ≔ [
                {{
                  sm_ByConditions ≔ [{{
                    ec_Type ≔ "Ready";
                    ec_Status ≔ Some "False";
                    ec_Reason ≔ Some "InitializingTimeout" }}] }};
                {{
                  sm_ByConditions ≔ [{{
                    ec_Type ≔ "Ready";
                    ec_Status ≔ Some "False";
                    ec_Reason ≔ Some "ValidationFailed" }}] }}] }} }} }};
        st_ChildComponents ≔ [
          {{
            cd_Name ≔ "head";
            cd_Kind ≔ Some (GVK "" "v1" "Pod");
            cd_OwnerRef ≔ Some "rayservice";
            cd_SpecDefinition ≔ Some {{
              sd_PodTemplateSpecPath ≔ Some ".spec.rayClusterConfig.headGroupSpec.template" }};
            cd_ScaleDefinition ≔ Some {{ sc_ReplicasPath ≔ Some "1" }};
            cd_PodSelector ≔ Some {{
              ps_ComponentTypeSelector ≔ Some {{
                cts_KeyPath ≔ dq ".metadata.labels['ray.io/node-type']";
                cts_Value ≔ Some "head" }} }} }};
          {{
            cd_Name ≔ "worker";
            cd_Kind ≔ Some (GVK "" "v1" "Pod");
            cd_OwnerRef ≔ Some "rayservice";
            cd_SpecDefinition ≔ Some {{
              sd_PodTemplateSpecPath ≔ Some ".spec.rayClusterConfig.workerGroupSpecs[].template" }};
            cd_ScaleDefinition ≔ Some {{
              sc_ReplicasPath ≔ Some ".spec.rayClusterConfig.workerGroupSpecs[].replicas // 1" }};
            cd_InstanceIdPath ≔ Some ".spec.rayClusterConfig.workerGroupSpecs[].groupName";
            cd_PodSelector ≔ Some {{
              ps_ComponentTypeSelector ≔ Some {{
                cts_KeyPath ≔ dq ".metadata.labels['ray.io/node-type']";
                cts_Value ≔ Some "worker" }};
              ps_ComponentInstanceSelector ≔ Some {{ cis_IdPath ≔ dq ".metadata.labels['ray.io/group']" }} }} }}] }};
      ks_Instructions ≔ {{
        oi_GangScheduling ≔ Some {{
          gs_PodGroups ≔ [{{
            pg_Name ≔ "service";
            pg_Members ≔ [
              {{
                pm_ComponentName ≔ "head";
                pm_GroupByKeyPaths ≔ [dq ".metadata.labels['ray.io/cluster']"] }};
              {{
                pm_ComponentName ≔ "worker";
                pm_GroupByKeyPaths ≔ [dq ".metadata.labels['ray.io/cluster']"] }}] }}] }} }} }} }}.

(** *** [lws.go] *)

Definition LWS : Karta :=
  {{
    k_ObjectMeta ≔ {{ om_Name ≔ "leaderworkerset-x-k8s-io-leaderworkerset-v1" }};
    k_Spec ≔ {{
      ks_StructureDefinition ≔ {{
        st_RootComponent ≔ {{
          cd_Name ≔ "leaderworkerset";
          cd_Kind ≔ Some (GVK "leaderworkerset.x-k8s.io" "v1" "LeaderWorkerSet");
          cd_StatusDefinition ≔ Some {{
            std_ConditionsDefinition ≔ Some {{
              cnd_Path ≔ ".status.conditions";
              cnd_TypeFieldName ≔ "type";
              cnd_StatusFieldName ≔ "status";
              cnd_MessageFieldName ≔ Some "message" }};
            std_StatusMappings ≔ {{
              smp_Initializing ≔ [{{
                sm_ByConditions ≔ [{{ ec_Type ≔ "Progressing"; ec_Status ≔ Some "True" }}] }}];
              smp_Running ≔ [
                {{
                  sm_ByConditions ≔ [{{ ec_Type ≔ "Available"; ec_Status ≔ Some "True" }}] }};
                {{
                  sm_ByExpression ≔ Some {{
                    em_Expression ≔ "(.status.replicas // 0) > 0 and .status.readyReplicas == .status.replicas and .status.updatedReplicas == .status.replicas";
                    em_ExpectedResult ≔ "true" }} }}];
              smp_Failed ≔ [{{
                sm_ByConditions ≔ [
                  {{ ec_Type ≔ "Available"; ec_Status ≔ Some "False" }};
                  {{ ec_Type ≔ "Progressing"; ec_Status ≔ Some "False" }};
                  {{ ec_Type ≔ "UpdateInProgress"; ec_Status ≔ Some "False" }}] }}] }} }} }};
        st_ChildComponents ≔ [
          {{
            cd_Name ≔ "group";
            cd_OwnerRef ≔ Some "leaderworkerset";
            cd_ScaleDefinition ≔ Some {{ sc_ReplicasPath ≔ Some ".spec.leaderWorkerTemplate.size" }};
            cd_PodSelector ≔ Some {{
              ps_ReplicaSelector ≔ Some {{
                rs_KeyPath ≔ dq ".metadata.labels['leaderworkerset.sigs.k8s.io/group-index']" }} }} }};
          {{
            cd_Name ≔ "leader";
            cd_Kind ≔ Some (GVK "apps" "v1" "StatefulSet");
            cd_OwnerRef ≔ Some "group";
            cd_SpecDefinition ≔ Some {{
              sd_PodTemplateSpecPath ≔ Some ".spec.leaderWorkerTemplate.leaderTemplate" }};
            cd_ScaleDefinition ≔ Some {{ sc_ReplicasPath ≔ Some ".spec.replicas // 1" }};
            cd_PodSelector ≔ Some {{
              ps_ComponentTypeSelector ≔ Some {{
                cts_KeyPath ≔ dq ".metadata.labels['leaderworkerset.sigs.k8s.io/worker-index']";
                cts_Value ≔ Some "0" }} }} }};
          {{
            cd_Name ≔ "worker";
            cd_Kind ≔ Some (GVK "apps" "v1" "StatefulSet");
            cd_OwnerRef ≔ Some "group";
            cd_SpecDefinition ≔ Some {{
              sd_PodTemplateSpecPath ≔ Some ".spec.leaderWorkerTemplate.workerTemplate" }};
            cd_ScaleDefinition ≔ Some {{
              sc_ReplicasPath ≔ Some "(.spec.replicas // 1) * ((.spec.leaderWorkerTemplate.size // 1) - 1)" }};
            cd_PodSelector ≔ Some {{
              ps_ComponentTypeSelector ≔ Some {{
                cts_KeyPath ≔ dq ".metadata.annotations['leaderworkerset.sigs.k8s.io/leader-name']" }} }} }}] }};
      ks_Instructions ≔ {{
        oi_GangScheduling ≔ Some {{
          gs_PodGroups ≔ [{{
            pg_Name ≔ "group";
            pg_Members ≔ [{{
              pm_ComponentName ≔ "group";
              pm_GroupByKeyPaths ≔ [
                dq ".metadata.labels['leaderworkerset.sigs.k8s.io/name']";
                dq ".metadata.labels['leaderworkerset.sigs.k8s.io/group-index'] // '0'"] }}] }}] }} }} }} }}.

(** *** [kserve.go] *)

Definition KServe : Karta :=
  {{
    k_ObjectMeta ≔ {{ om_Name ≔ "serving-kserve-io-inferenceservice-v1beta1" }};
    k_Spec ≔ {{
      ks_StructureDefinition ≔ {{
        st_RootComponent ≔ {{
          cd_Name ≔ "inferenceservice";
          cd_Kind ≔ Some (GVK "serving.kserve.io" "v1beta1" "InferenceService");
          cd_StatusDefinition ≔ Some {{
            std_ConditionsDefinition ≔ Some {{
              cnd_Path ≔ ".status.conditions";
              cnd_TypeFieldName ≔ "type";
              cnd_StatusFieldName ≔ "status";
              cnd_MessageFieldName ≔ Some "message" }};
            std_StatusMappings ≔ {{
              smp_Running ≔ [{{
                sm_ByConditions ≔ [
                  {{ ec_Type ≔ "PredictorReady"; ec_Status ≔ Some "True" }};
                  {{ ec_Type ≔ "RoutesReady"; ec_Status ≔ Some "True" }};
                  {{
                    ec_Type ≔ "LatestDeploymentReady";
                    ec_Status ≔ Some "True" }}] }}];
              smp_Failed ≔ [{{
                sm_ByConditions ≔ [
                  {{ ec_Type ≔ "PredictorReady"; ec_Status ≔ Some "False" }};
                  {{
                    ec_Type ≔ "PredictorConfigurationReady";
                    ec_Status ≔ Some "False" }};
                  {{ ec_Type ≔ "RoutesReady"; ec_Status ≔ Some "False" }}] }}] }} }} }};
        st_ChildComponents ≔ [
          {{
            cd_Name ≔ "predictor";
            cd_Kind ≔ Some (GVK "apps" "v1" "Deployment");
            cd_OwnerRef ≔ Some "inferenceservice";
            cd_SpecDefinition ≔ Some {{
              sd_FragmentedPodSpecDefinition ≔ Some {{
                fd_SchedulerNamePath ≔ Some ".spec.predictor.schedulerName";
                fd_LabelsPath ≔ Some ".spec.predictor.labels";
                fd_AnnotationsPath ≔ Some ".spec.predictor.annotations";
                fd_PodAffinityPath ≔ Some ".spec.predictor.affinity.podAffinity";
                fd_NodeAffinityPath ≔ Some ".spec.predictor.affinity.nodeAffinity";
                fd_ContainersPath ≔ Some ".spec.predictor.containers";
                fd_ContainerPath ≔ Some (dq ".spec.predictor | ( (.[]?  | select(type =='object' and .storageUri )))");
                fd_PriorityClassNamePath ≔ Some ".spec.predictor.priorityClassName" }} }};
            cd_ScaleDefinition ≔ Some {{
              sc_MinReplicasPath ≔ Some ".spec.predictor.minReplicas";
              sc_MaxReplicasPath ≔ Some ".spec.predictor.maxReplicas" }};
            cd_PodSelector ≔ Some {{
              ps_ComponentTypeSelector ≔ Some {{
                cts_KeyPath ≔ dq ".metadata.labels['component']";
                cts_Value ≔ Some "predictor" }} }} }};
          {{
            cd_Name ≔ "transformer";
            cd_Kind ≔ Some (GVK "apps" "v1" "Deployment");
            cd_OwnerRef ≔ Some "inferenceservice";
            cd_SpecDefinition ≔ Some {{
              sd_PodSpecPath ≔ Some ".spec.transformer";
              sd_MetadataPath ≔ Some ".spec.transformer" }};
            cd_ScaleDefinition ≔ Some {{
              sc_MinReplicasPath ≔ Some ".spec.transformer.minReplicas";
              sc_MaxReplicasPath ≔ Some ".spec.transformer.maxReplicas" }};
            cd_PodSelector ≔ Some {{
              ps_ComponentTypeSelector ≔ Some {{
                cts_KeyPath ≔ dq ".metadata.labels['component']";
                cts_Value ≔ Some "transformer" }} }} }}] }};
      ks_Instructions ≔ {{
        oi_GangScheduling ≔ Some {{
          gs_PodGroups ≔ [{{
            pg_Name ≔ "service";
            pg_Members ≔ [
              {{
                pm_ComponentName ≔ "predictor";
                pm_GroupByKeyPaths ≔ [dq ".metadata.labels['serving.kserve.io/inferenceservice']"] }};
              {{
                pm_ComponentName ≔ "transformer";
                pm_GroupByKeyPaths ≔ [dq ".metadata.labels['serving.kserve.io/inferenceservice']"] }}] }}] }} }} }} }}.

(** *** [llminferenceservice.go] *)

Definition llmStopReason : string :=
  "Stopped".

Definition llmStartupReasons : list string :=
  [ "Progressing"; "MinimumReplicasUnavailable"; "WaitingForGateway"; "GatewaysNotReady";
    "HTTPRoutesNotReady"; "InferencePoolNotReady"; "HPAProgressing"; "ScaledObjectProgressing";
    "AllGroupsReady" ].

(** The closures and locals of [llmInferenceService]. *)
Definition condition (conditionType status : string) : string :=
  "any(.status.conditions[]?; .type == " +:+ quoted conditionType +:+
  " and .status == " +:+ quoted status.
Definition ready (status : string) : string := condition "Ready" status.
Definition startup : string := strings_Join (quoted <$> llmStartupReasons) ", ".
Definition lwsGroupKeys : list string :=
  [ dq ".metadata.labels['app.kubernetes.io/name']";
    dq ".metadata.labels['leaderworkerset.sigs.k8s.io/group-index'] // '0'" ].

Definition llm_llminferenceservice (version : string) : ComponentDefinition :=
  {{
    cd_Name ≔ "llminferenceservice";
    cd_Kind ≔ Some (GVK "serving.kserve.io" version "LLMInferenceService");
    cd_StatusDefinition ≔ Some {{
      std_ConditionsDefinition ≔ Some {{
        cnd_Path ≔ ".status.conditions";
        cnd_TypeFieldName ≔ "type";
        cnd_StatusFieldName ≔ "status";
        cnd_MessageFieldName ≔ Some "message";
        cnd_ReasonFieldName ≔ Some "reason" }};
      std_StatusMappings ≔ {{
        smp_Initializing ≔ [
          {{
            sm_ByExpression ≔ Some {{
              em_Expression ≔ ready "Unknown" +:+ ") and (" +:+ condition "PresetsCombined" "False" +:+ ") | not)";
              em_ExpectedResult ≔ "true" }} }};
          {{
            sm_ByExpression ≔ Some {{
              em_Expression ≔ ready "False" +:+ " and (.reason | IN(" +:+ startup +:+ ")))";
              em_ExpectedResult ≔ "true" }} }}];
        smp_Running ≔ [{{
          sm_ByConditions ≔ [{{ ec_Type ≔ "Ready"; ec_Status ≔ Some "True" }}] }}];
        smp_Suspended ≔ [
          {{
            sm_ByConditions ≔ [{{
              ec_Type ≔ "Ready";
              ec_Status ≔ Some "False";
              ec_Reason ≔ Some llmStopReason }}] }};
          {{
            sm_ByConditions ≔ [{{
              ec_Type ≔ "PresetsCombined";
              ec_Status ≔ Some "False";
              ec_Reason ≔ Some llmStopReason }}] }}];
        smp_Failed ≔ [
          {{
            sm_ByExpression ≔ Some {{
              em_Expression ≔ ready "False" +:+ " and (.reason | IN(" +:+ startup +:+ ", " +:+ (quoted llmStopReason) +:+ ") | not))";
              em_ExpectedResult ≔ "true" }} }};
          {{
            sm_ByExpression ≔ Some {{
              em_Expression ≔ ready "Unknown" +:+ ") and (" +:+ condition "PresetsCombined" "False" +:+ (" and .reason != " +:+ quoted llmStopReason +:+ ")") +:+ ")";
              em_ExpectedResult ≔ "true" }} }}] }} }} }}.

Definition llm_main : ComponentDefinition :=
  {{
    cd_Name ≔ "main";
    cd_Kind ≔ Some (GVK "apps" "v1" "Deployment");
    cd_OwnerRef ≔ Some "llminferenceservice";
    cd_SpecDefinition ≔ Some {{
      sd_PodSpecPath ≔ Some "(select(.spec.worker == null) | .spec.template)" }};
    cd_ScaleDefinition ≔ Some {{
      sc_ReplicasPath ≔ Some "(select(.spec.worker == null) | .spec.replicas)";
      sc_MinReplicasPath ≔ Some "(select(.spec.worker == null) | .spec.scaling.minReplicas)";
      sc_MaxReplicasPath ≔ Some "(select(.spec.worker == null) | .spec.scaling.maxReplicas)" }};
    cd_PodSelector ≔ Some {{
      ps_ComponentTypeSelector ≔ Some {{
        cts_KeyPath ≔ dq ".metadata.labels['app.kubernetes.io/component']";
        cts_Value ≔ Some "llminferenceservice-workload" }} }} }}.

Definition llm_prefill : ComponentDefinition :=
  {{
    cd_Name ≔ "prefill";
    cd_Kind ≔ Some (GVK "apps" "v1" "Deployment");
    cd_OwnerRef ≔ Some "llminferenceservice";
    cd_SpecDefinition ≔ Some {{
      sd_PodSpecPath ≔ Some "(select(.spec.prefill.worker == null) | .spec.prefill.template)" }};
    cd_ScaleDefinition ≔ Some {{
      sc_ReplicasPath ≔ Some "(select(.spec.prefill.worker == null) | .spec.prefill.replicas)";
      sc_MinReplicasPath ≔ Some "(select(.spec.prefill.worker == null) | .spec.prefill.scaling.minReplicas)";
      sc_MaxReplicasPath ≔ Some "(select(.spec.prefill.worker == null) | .spec.prefill.scaling.maxReplicas)" }};
    cd_PodSelector ≔ Some {{
      ps_ComponentTypeSelector ≔ Some {{
        cts_KeyPath ≔ dq ".metadata.labels['app.kubernetes.io/component']";
        cts_Value ≔ Some "llminferenceservice-workload-prefill" }} }} }}.

Definition llm_worker : ComponentDefinition :=
  {{
    cd_Name ≔ "worker";
    cd_Kind ≔ Some (GVK "leaderworkerset.x-k8s.io" "v1" "LeaderWorkerSet");
    cd_OwnerRef ≔ Some "llminferenceservice";
    cd_SpecDefinition ≔ Some {{ sd_PodSpecPath ≔ Some ".spec.worker" }};
    cd_ScaleDefinition ≔ Some {{
      sc_ReplicasPath ≔ Some "(select(.spec.worker != null) | .spec.replicas)";
      sc_MinReplicasPath ≔ Some "(select(.spec.worker != null) | .spec.scaling.minReplicas)";
      sc_MaxReplicasPath ≔ Some "(select(.spec.worker != null) | .spec.scaling.maxReplicas)" }};
    cd_PodSelector ≔ Some {{
      ps_ComponentTypeSelector ≔ Some {{
        cts_KeyPath ≔ dq ".metadata.labels['app.kubernetes.io/component']";
        cts_Value ≔ Some "llminferenceservice-workload-worker" }} }} }}.

Definition llm_leader : ComponentDefinition :=
  {{
    cd_Name ≔ "leader";
    cd_Kind ≔ Some (GVK "leaderworkerset.x-k8s.io" "v1" "LeaderWorkerSet");
    cd_OwnerRef ≔ Some "llminferenceservice";
    cd_SpecDefinition ≔ Some {{
      sd_PodSpecPath ≔ Some "(select(.spec.worker != null) | .spec.template)" }};
    cd_ScaleDefinition ≔ Some {{
      sc_ReplicasPath ≔ Some "(select(.spec.worker != null) | .spec.replicas)";
      sc_MinReplicasPath ≔ Some "(select(.spec.worker != null) | .spec.scaling.minReplicas)";
      sc_MaxReplicasPath ≔ Some "(select(.spec.worker != null) | .spec.scaling.maxReplicas)" }};
    cd_PodSelector ≔ Some {{
      ps_ComponentTypeSelector ≔ Some {{
        cts_KeyPath ≔ dq ".metadata.labels['app.kubernetes.io/component']";
        cts_Value ≔ Some "llminferenceservice-workload-leader" }} }} }}.

Definition llm_prefill_leader : ComponentDefinition :=
  {{
    cd_Name ≔ "prefill-leader";
    cd_Kind ≔ Some (GVK "leaderworkerset.x-k8s.io" "v1" "LeaderWorkerSet");
    cd_OwnerRef ≔ Some "llminferenceservice";
    cd_SpecDefinition ≔ Some {{
      sd_PodSpecPath ≔ Some "(select(.spec.prefill.worker != null) | .spec.prefill.template)" }};
    cd_ScaleDefinition ≔ Some {{
      sc_ReplicasPath ≔ Some "(select(.spec.prefill.worker != null) | .spec.prefill.replicas)";
      sc_MinReplicasPath ≔ Some "(select(.spec.prefill.worker != null) | .spec.prefill.scaling.minReplicas)";
      sc_MaxReplicasPath ≔ Some "(select(.spec.prefill.worker != null) | .spec.prefill.scaling.maxReplicas)" }};
    cd_PodSelector ≔ Some {{
      ps_ComponentTypeSelector ≔ Some {{
        cts_KeyPath ≔ dq ".metadata.labels['app.kubernetes.io/component']";
        cts_Value ≔ Some "llminferenceservice-workload-leader-prefill" }} }} }}.

Definition llm_prefill_worker : ComponentDefinition :=
  {{
    cd_Name ≔ "prefill-worker";
    cd_Kind ≔ Some (GVK "leaderworkerset.x-k8s.io" "v1" "LeaderWorkerSet");
    cd_OwnerRef ≔ Some "llminferenceservice";
    cd_SpecDefinition ≔ Some {{ sd_PodSpecPath ≔ Some ".spec.prefill.worker" }};
    cd_ScaleDefinition ≔ Some {{
      sc_ReplicasPath ≔ Some "(select(.spec.prefill.worker != null) | .spec.prefill.replicas)";
      sc_MinReplicasPath ≔ Some "(select(.spec.prefill.worker != null) | .spec.prefill.scaling.minReplicas)";
      sc_MaxReplicasPath ≔ Some "(select(.spec.prefill.worker != null) | .spec.prefill.scaling.maxReplicas)" }};
    cd_PodSelector ≔ Some {{
      ps_ComponentTypeSelector ≔ Some {{
        cts_KeyPath ≔ dq ".metadata.labels['app.kubernetes.io/component']";
        cts_Value ≔ Some "llminferenceservice-workload-worker-prefill" }} }} }}.

Definition llm_router_scheduler : ComponentDefinition :=
  {{
    cd_Name ≔ "router-scheduler";
    cd_Kind ≔ Some (GVK "apps" "v1" "Deployment");
    cd_OwnerRef ≔ Some "llminferenceservice";
    cd_SpecDefinition ≔ Some {{ sd_PodSpecPath ≔ Some ".spec.router.scheduler.template" }};
    cd_ScaleDefinition ≔ Some {{ sc_ReplicasPath ≔ Some ".spec.router.scheduler.replicas" }};
    cd_PodSelector ≔ Some {{
      ps_ComponentTypeSelector ≔ Some {{
        cts_KeyPath ≔ dq ".metadata.labels['app.kubernetes.io/component']";
        cts_Value ≔ Some "llminferenceservice-router-scheduler" }} }} }}.

Definition llm_instructions : OptimizationInstructions :=
  {{
    oi_GangScheduling ≔ Some {{
      gs_PodGroups ≔ [{{
        pg_Name ≔ "service";
        pg_Members ≔ [
          {{
            pm_ComponentName ≔ "main";
            pm_GroupByKeyPaths ≔ [dq ".metadata.labels['app.kubernetes.io/name']"] }};
          {{
            pm_ComponentName ≔ "prefill";
            pm_GroupByKeyPaths ≔ [dq ".metadata.labels['app.kubernetes.io/name']"] }};
          {{ pm_ComponentName ≔ "worker"; pm_GroupByKeyPaths ≔ lwsGroupKeys }};
          {{ pm_ComponentName ≔ "leader"; pm_GroupByKeyPaths ≔ lwsGroupKeys }};
          {{
            pm_ComponentName ≔ "prefill-leader";
            pm_GroupByKeyPaths ≔ lwsGroupKeys }};
          {{
            pm_ComponentName ≔ "prefill-worker";
            pm_GroupByKeyPaths ≔ lwsGroupKeys }};
          {{
            pm_ComponentName ≔ "router-scheduler";
            pm_GroupByKeyPaths ≔ [dq ".metadata.labels['app.kubernetes.io/name']"] }}] }}] }} }}.

Definition llmInferenceService (version : string) : Karta :=
  {{
    k_ObjectMeta ≔ {{ om_Name ≔ "serving-kserve-io-llminferenceservice-" +:+ version }};
    k_Spec ≔ {{
      ks_StructureDefinition ≔ {{
        st_RootComponent ≔ llm_llminferenceservice version;
        st_ChildComponents ≔ [
          llm_main;
          llm_prefill;
          llm_worker;
          llm_leader;
          llm_prefill_leader;
          llm_prefill_worker;
          llm_router_scheduler];
        st_AdditionalChildKinds ≔ [
          GVK "leaderworkerset.x-k8s.io" "v1" "LeaderWorkerSet";
          GVK "inference.networking.k8s.io" "v1" "InferencePool";
          GVK "gateway.networking.k8s.io" "v1" "HTTPRoute";
          GVK "" "v1" "Service"] }};
      ks_Instructions ≔ llm_instructions }} }}.

Definition LLMInferenceService : Karta :=
  llmInferenceService "v1alpha1".

Definition LLMInferenceServiceV1alpha2 : Karta :=
  llmInferenceService "v1alpha2".

(** *** [knative_serving.go] *)

Definition KnativeServing : Karta :=
  {{
    k_ObjectMeta ≔ {{ om_Name ≔ "serving-knative-dev-service-v1" }};
    k_Spec ≔ {{
      ks_StructureDefinition ≔ {{
        st_RootComponent ≔ {{
          cd_Name ≔ "knativeservice";
          cd_Kind ≔ Some (GVK "serving.knative.dev" "v1" "Service");
          cd_StatusDefinition ≔ Some {{
            std_ConditionsDefinition ≔ Some {{
              cnd_Path ≔ ".status.conditions";
              cnd_TypeFieldName ≔ "type";
              cnd_StatusFieldName ≔ "status";
              cnd_MessageFieldName ≔ Some "message" }};
            std_StatusMappings ≔ {{
              smp_Running ≔ [{{
                sm_ByConditions ≔ [{{ ec_Type ≔ "Ready"; ec_Status ≔ Some "True" }}] }}];
              smp_Initializing ≔ [{{
                sm_ByConditions ≔ [{{ ec_Type ≔ "Ready"; ec_Status ≔ Some "Unknown" }}] }}];
              smp_Failed ≔ [{{
                sm_ByConditions ≔ [{{ ec_Type ≔ "Ready"; ec_Status ≔ Some "False" }}] }}] }} }} }};
        st_ChildComponents ≔ [{{
          cd_Name ≔ "revision";
          cd_Kind ≔ Some (GVK "serving.knative.dev" "v1" "Revision");
          cd_OwnerRef ≔ Some "knativeservice";
          cd_SpecDefinition ≔ Some {{ sd_PodTemplateSpecPath ≔ Some ".spec.template" }};
          cd_ScaleDefinition ≔ Some {{
            sc_MinReplicasPath ≔ Some (dq ".spec.template.metadata.annotations['autoscaling.knative.dev/min-scale'] // 1 | tonumber");
            sc_MaxReplicasPath ≔ Some (dq ".spec.template.metadata.annotations['autoscaling.knative.dev/max-scale'] | tonumber?") }} }}];
        st_AdditionalChildKinds ≔ [GVK "apps" "v1" "Deployment"] }};
      ks_Instructions ≔ {{
        oi_GangScheduling ≔ Some {{
          gs_PodGroups ≔ [{{
            pg_Name ≔ "revision";
            pg_Members ≔ [{{
              pm_ComponentName ≔ "revision";
              pm_GroupByKeyPaths ≔ [dq ".metadata.labels['serving.knative.dev/revision']"] }}] }}] }} }} }} }}.

(** *** [nimservice.go] *)

Definition NIMService : Karta :=
  {{
    k_ObjectMeta ≔ {{ om_Name ≔ "apps-nvidia-com-nimservice-v1alpha1" }};
    k_Spec ≔ {{
      ks_StructureDefinition ≔ {{
        st_RootComponent ≔ {{
          cd_Name ≔ "nimservice";
          cd_Kind ≔ Some (GVK "apps.nvidia.com" "v1alpha1" "NIMService");
          cd_SpecDefinition ≔ Some {{
            sd_FragmentedPodSpecDefinition ≔ Some {{
              fd_SchedulerNamePath ≔ Some ".spec.schedulerName";
              fd_LabelsPath ≔ Some ".spec.labels";
              fd_AnnotationsPath ≔ Some ".spec.annotations";
              fd_ResourcesPath ≔ Some ".spec.resources";
              fd_PodAffinityPath ≔ Some ".spec.affinity.podAffinity";
              fd_NodeAffinityPath ≔ Some ".spec.affinity.nodeAffinity" }} }};
          cd_ScaleDefinition ≔ Some {{ sc_ReplicasPath ≔ Some ".spec.replicas // 1" }};
          cd_StatusDefinition ≔ Some {{
            std_PhaseDefinition ≔ Some {{ pd_Path ≔ ".status.state" }};
            std_ConditionsDefinition ≔ Some {{
              cnd_Path ≔ ".status.conditions";
              cnd_TypeFieldName ≔ "type";
              cnd_StatusFieldName ≔ "status";
              cnd_MessageFieldName ≔ Some "message" }};
            std_StatusMappings ≔ {{
              smp_Initializing ≔ [{{ sm_ByPhase ≔ "NotReady" }}; {{ sm_ByPhase ≔ "Pending" }}];
              smp_Running ≔ [{{ sm_ByPhase ≔ "Ready" }}];
              smp_Failed ≔ [{{ sm_ByPhase ≔ "Failed" }}] }} }} }} }};
      ks_Instructions ≔ {{
        oi_GangScheduling ≔ Some {{
          gs_PodGroups ≔ [{{
            pg_Name ≔ "service";
            pg_Members ≔ [{{
              pm_ComponentName ≔ "nimservice";
              pm_GroupByKeyPaths ≔ [dq ".metadata.labels['app.kubernetes.io/name']"] }}] }}] }} }} }} }}.

(** *** [nimcache.go] *)

Definition NIMCache : Karta :=
  {{
    k_ObjectMeta ≔ {{ om_Name ≔ "apps-nvidia-com-nimcache-v1alpha1" }};
    k_Spec ≔ {{
      ks_StructureDefinition ≔ {{
        st_RootComponent ≔ {{
          cd_Name ≔ "nimcache";
          cd_Kind ≔ Some (GVK "apps.nvidia.com" "v1alpha1" "NIMCache");
          cd_ScaleDefinition ≔ Some {{ sc_ReplicasPath ≔ Some "1" }};
          cd_SpecDefinition ≔ Some {{
            sd_FragmentedPodSpecDefinition ≔ Some {{ fd_ResourcesPath ≔ Some "{requests: .spec.resources}" }} }};
          cd_StatusDefinition ≔ Some {{
            std_PhaseDefinition ≔ Some {{ pd_Path ≔ ".status.state" }};
            std_ConditionsDefinition ≔ Some {{
              cnd_Path ≔ ".status.conditions";
              cnd_TypeFieldName ≔ "type";
              cnd_StatusFieldName ≔ "status";
              cnd_ReasonFieldName ≔ Some "reason";
              cnd_MessageFieldName ≔ Some "message" }};
            std_StatusMappings ≔ {{
              smp_Initializing ≔ [
                {{ sm_ByPhase ≔ "Pending" }};
                {{ sm_ByPhase ≔ "NotReady" }};
                {{ sm_ByPhase ≔ "PVC-Created" }};
                {{ sm_ByPhase ≔ "Started" }};
                {{
                  sm_ByConditions ≔ [{{
                    ec_Type ≔ "NIM_CACHE_JOB_CREATED";
                    ec_Status ≔ Some "True" }}] }}];
              smp_Running ≔ [{{ sm_ByPhase ≔ "InProgress" }}];
              smp_Completed ≔ [{{
                sm_ByPhase ≔ "Ready";
                sm_ByConditions ≔ [{{
                  ec_Type ≔ "NIM_CACHE_JOB_COMPLETED";
                  ec_Status ≔ Some "True" }}] }}];
              smp_Failed ≔ [{{ sm_ByPhase ≔ "Failed" }}] }} }} }} }} }} }}.

(** *** [milvus.go] *)

Definition milvus_milvus : ComponentDefinition :=
  {{
    cd_Name ≔ "milvus";
    cd_Kind ≔ Some (GVK "milvus.io" "v1beta1" "Milvus");
    cd_StatusDefinition ≔ Some {{
      std_PhaseDefinition ≔ Some {{ pd_Path ≔ ".status.status" }};
      std_ConditionsDefinition ≔ Some {{
        cnd_Path ≔ ".status.conditions";
        cnd_TypeFieldName ≔ "type";
        cnd_StatusFieldName ≔ "status" }};
      std_StatusMappings ≔ {{
        smp_Running ≔ [{{ sm_ByPhase ≔ "Healthy" }}];
        smp_Initializing ≔ [{{ sm_ByPhase ≔ "Pending" }}];
        smp_Degraded ≔ [{{ sm_ByPhase ≔ "Unhealthy" }}] }} }} }}.

Definition milvus_standalone : ComponentDefinition :=
  {{
    cd_Name ≔ "standalone";
    cd_Kind ≔ Some (GVK "apps" "v1" "Deployment");
    cd_OwnerRef ≔ Some "milvus";
    cd_SpecDefinition ≔ Some {{
      sd_FragmentedPodSpecDefinition ≔ Some {{
        fd_SchedulerNamePath ≔ Some ".spec.components.standalone.schedulerName";
        fd_LabelsPath ≔ Some ".spec.components.standalone.podLabels";
        fd_AnnotationsPath ≔ Some ".spec.components.standalone.podAnnotations";
        fd_ResourcesPath ≔ Some ".spec.components.standalone.resources";
        fd_PriorityClassNamePath ≔ Some ".spec.components.standalone.priorityClassName";
        fd_NodeAffinityPath ≔ Some ".spec.components.standalone.affinity.nodeAffinity";
        fd_PodAffinityPath ≔ Some ".spec.components.standalone.affinity.podAffinity" }} }};
    cd_ScaleDefinition ≔ Some {{ sc_ReplicasPath ≔ Some ".spec.components.standalone.replicas" }};
    cd_PodSelector ≔ Some {{
      ps_ComponentTypeSelector ≔ Some {{
        cts_KeyPath ≔ dq ".metadata.labels['app.kubernetes.io/component']";
        cts_Value ≔ Some "standalone" }} }} }}.

Definition milvus_proxy : ComponentDefinition :=
  {{
    cd_Name ≔ "proxy";
    cd_Kind ≔ Some (GVK "apps" "v1" "Deployment");
    cd_OwnerRef ≔ Some "milvus";
    cd_SpecDefinition ≔ Some {{
      sd_FragmentedPodSpecDefinition ≔ Some {{
        fd_SchedulerNamePath ≔ Some ".spec.components.proxy.schedulerName";
        fd_LabelsPath ≔ Some ".spec.components.proxy.podLabels";
        fd_AnnotationsPath ≔ Some ".spec.components.proxy.podAnnotations";
        fd_ResourcesPath ≔ Some ".spec.components.proxy.resources";
        fd_PriorityClassNamePath ≔ Some ".spec.components.proxy.priorityClassName";
        fd_NodeAffinityPath ≔ Some ".spec.components.proxy.affinity.nodeAffinity";
        fd_PodAffinityPath ≔ Some ".spec.components.proxy.affinity.podAffinity" }} }};
    cd_ScaleDefinition ≔ Some {{ sc_ReplicasPath ≔ Some ".spec.components.proxy.replicas" }};
    cd_PodSelector ≔ Some {{
      ps_ComponentTypeSelector ≔ Some {{
        cts_KeyPath ≔ dq ".metadata.labels['app.kubernetes.io/component']";
        cts_Value ≔ Some "proxy" }} }} }}.

Definition milvus_mixcoord : ComponentDefinition :=
  {{
    cd_Name ≔ "mixcoord";
    cd_Kind ≔ Some (GVK "apps" "v1" "Deployment");
    cd_OwnerRef ≔ Some "milvus";
    cd_SpecDefinition ≔ Some {{
      sd_FragmentedPodSpecDefinition ≔ Some {{
        fd_SchedulerNamePath ≔ Some ".spec.components.mixCoord.schedulerName";
        fd_LabelsPath ≔ Some ".spec.components.mixCoord.podLabels";
        fd_AnnotationsPath ≔ Some ".spec.components.mixCoord.podAnnotations";
        fd_ResourcesPath ≔ Some ".spec.components.mixCoord.resources";
        fd_PriorityClassNamePath ≔ Some ".spec.components.mixCoord.priorityClassName";
        fd_NodeAffinityPath ≔ Some ".spec.components.mixCoord.affinity.nodeAffinity";
        fd_PodAffinityPath ≔ Some ".spec.components.mixCoord.affinity.podAffinity" }} }};
    cd_ScaleDefinition ≔ Some {{ sc_ReplicasPath ≔ Some ".spec.components.mixCoord.replicas" }};
    cd_PodSelector ≔ Some {{
      ps_ComponentTypeSelector ≔ Some {{
        cts_KeyPath ≔ dq ".metadata.labels['app.kubernetes.io/component']";
        cts_Value ≔ Some "mixcoord" }} }} }}.

Definition milvus_datanode : ComponentDefinition :=
  {{
    cd_Name ≔ "datanode";
    cd_Kind ≔ Some (GVK "apps" "v1" "Deployment");
    cd_OwnerRef ≔ Some "milvus";
    cd_SpecDefinition ≔ Some {{
      sd_FragmentedPodSpecDefinition ≔ Some {{
        fd_SchedulerNamePath ≔ Some ".spec.components.dataNode.schedulerName";
        fd_LabelsPath ≔ Some ".spec.components.dataNode.podLabels";
        fd_AnnotationsPath ≔ Some ".spec.components.dataNode.podAnnotations";
        fd_ResourcesPath ≔ Some ".spec.components.dataNode.resources";
        fd_PriorityClassNamePath ≔ Some ".spec.components.dataNode.priorityClassName";
        fd_NodeAffinityPath ≔ Some ".spec.components.dataNode.affinity.nodeAffinity";
        fd_PodAffinityPath ≔ Some ".spec.components.dataNode.affinity.podAffinity" }} }};
    cd_ScaleDefinition ≔ Some {{ sc_ReplicasPath ≔ Some ".spec.components.dataNode.replicas" }};
    cd_PodSelector ≔ Some {{
      ps_ComponentTypeSelector ≔ Some {{
        cts_KeyPath ≔ dq ".metadata.labels['app.kubernetes.io/component']";
        cts_Value ≔ Some "datanode" }} }} }}.

Definition milvus_querynode : ComponentDefinition :=
  {{
    cd_Name ≔ "querynode";
    cd_Kind ≔ Some (GVK "apps" "v1" "Deployment");
    cd_OwnerRef ≔ Some "milvus";
    cd_SpecDefinition ≔ Some {{
      sd_FragmentedPodSpecDefinition ≔ Some {{
        fd_SchedulerNamePath ≔ Some ".spec.components.queryNode.schedulerName";
        fd_LabelsPath ≔ Some ".spec.components.queryNode.podLabels";
        fd_AnnotationsPath ≔ Some ".spec.components.queryNode.podAnnotations";
        fd_ResourcesPath ≔ Some ".spec.components.queryNode.resources";
        fd_PriorityClassNamePath ≔ Some ".spec.components.queryNode.priorityClassName";
        fd_NodeAffinityPath ≔ Some ".spec.components.queryNode.affinity.nodeAffinity";
        fd_PodAffinityPath ≔ Some ".spec.components.queryNode.affinity.podAffinity" }} }};
    cd_ScaleDefinition ≔ Some {{ sc_ReplicasPath ≔ Some ".spec.components.queryNode.replicas" }};
    cd_PodSelector ≔ Some {{
      ps_ComponentTypeSelector ≔ Some {{
        cts_KeyPath ≔ dq ".metadata.labels['app.kubernetes.io/component']";
        cts_Value ≔ Some "querynode" }} }} }}.

Definition milvus_streamingnode : ComponentDefinition :=
  {{
    cd_Name ≔ "streamingnode";
    cd_Kind ≔ Some (GVK "apps" "v1" "Deployment");
    cd_OwnerRef ≔ Some "milvus";
    cd_SpecDefinition ≔ Some {{
      sd_FragmentedPodSpecDefinition ≔ Some {{
        fd_SchedulerNamePath ≔ Some ".spec.components.streamingNode.schedulerName";
        fd_LabelsPath ≔ Some ".spec.components.streamingNode.podLabels";
        fd_AnnotationsPath ≔ Some ".spec.components.streamingNode.podAnnotations";
        fd_ResourcesPath ≔ Some ".spec.components.streamingNode.resources";
        fd_PriorityClassNamePath ≔ Some ".spec.components.streamingNode.priorityClassName";
        fd_NodeAffinityPath ≔ Some ".spec.components.streamingNode.affinity.nodeAffinity";
        fd_PodAffinityPath ≔ Some ".spec.components.streamingNode.affinity.podAffinity" }} }};
    cd_ScaleDefinition ≔ Some {{ sc_ReplicasPath ≔ Some ".spec.components.streamingNode.replicas" }};
    cd_PodSelector ≔ Some {{
      ps_ComponentTypeSelector ≔ Some {{
        cts_KeyPath ≔ dq ".metadata.labels['app.kubernetes.io/component']";
        cts_Value ≔ Some "streamingnode" }} }} }}.

Definition milvus_indexnode : ComponentDefinition :=
  {{
    cd_Name ≔ "indexnode";
    cd_Kind ≔ Some (GVK "apps" "v1" "Deployment");
    cd_OwnerRef ≔ Some "milvus";
    cd_SpecDefinition ≔ Some {{
      sd_FragmentedPodSpecDefinition ≔ Some {{
        fd_SchedulerNamePath ≔ Some ".spec.components.indexNode.schedulerName";
        fd_LabelsPath ≔ Some ".spec.components.indexNode.podLabels";
        fd_AnnotationsPath ≔ Some ".spec.components.indexNode.podAnnotations";
        fd_ResourcesPath ≔ Some ".spec.components.indexNode.resources";
        fd_PriorityClassNamePath ≔ Some ".spec.components.indexNode.priorityClassName";
        fd_NodeAffinityPath ≔ Some ".spec.components.indexNode.affinity.nodeAffinity";
        fd_PodAffinityPath ≔ Some ".spec.components.indexNode.affinity.podAffinity" }} }};
    cd_ScaleDefinition ≔ Some {{ sc_ReplicasPath ≔ Some ".spec.components.indexNode.replicas" }};
    cd_PodSelector ≔ Some {{
      ps_ComponentTypeSelector ≔ Some {{
        cts_KeyPath ≔ dq ".metadata.labels['app.kubernetes.io/component']";
        cts_Value ≔ Some "indexnode" }} }} }}.

Definition milvus_rootcoord : ComponentDefinition :=
  {{
    cd_Name ≔ "rootcoord";
    cd_Kind ≔ Some (GVK "apps" "v1" "Deployment");
    cd_OwnerRef ≔ Some "milvus";
    cd_SpecDefinition ≔ Some {{
      sd_FragmentedPodSpecDefinition ≔ Some {{
        fd_SchedulerNamePath ≔ Some ".spec.components.rootCoord.schedulerName";
        fd_LabelsPath ≔ Some ".spec.components.rootCoord.podLabels";
        fd_AnnotationsPath ≔ Some ".spec.components.rootCoord.podAnnotations";
        fd_ResourcesPath ≔ Some ".spec.components.rootCoord.resources";
        fd_PriorityClassNamePath ≔ Some ".spec.components.rootCoord.priorityClassName";
        fd_NodeAffinityPath ≔ Some ".spec.components.rootCoord.affinity.nodeAffinity";
        fd_PodAffinityPath ≔ Some ".spec.components.rootCoord.affinity.podAffinity" }} }};
    cd_ScaleDefinition ≔ Some {{ sc_ReplicasPath ≔ Some ".spec.components.rootCoord.replicas" }};
    cd_PodSelector ≔ Some {{
      ps_ComponentTypeSelector ≔ Some {{
        cts_KeyPath ≔ dq ".metadata.labels['app.kubernetes.io/component']";
        cts_Value ≔ Some "rootcoord" }} }} }}.

Definition milvus_datacoord : ComponentDefinition :=
  {{
    cd_Name ≔ "datacoord";
    cd_Kind ≔ Some (GVK "apps" "v1" "Deployment");
    cd_OwnerRef ≔ Some "milvus";
    cd_SpecDefinition ≔ Some {{
      sd_FragmentedPodSpecDefinition ≔ Some {{
        fd_SchedulerNamePath ≔ Some ".spec.components.dataCoord.schedulerName";
        fd_LabelsPath ≔ Some ".spec.components.dataCoord.podLabels";
        fd_AnnotationsPath ≔ Some ".spec.components.dataCoord.podAnnotations";
        fd_ResourcesPath ≔ Some ".spec.components.dataCoord.resources";
        fd_PriorityClassNamePath ≔ Some ".spec.components.dataCoord.priorityClassName";
        fd_NodeAffinityPath ≔ Some ".spec.components.dataCoord.affinity.nodeAffinity";
        fd_PodAffinityPath ≔ Some ".spec.components.dataCoord.affinity.podAffinity" }} }};
    cd_ScaleDefinition ≔ Some {{ sc_ReplicasPath ≔ Some ".spec.components.dataCoord.replicas" }};
    cd_PodSelector ≔ Some {{
      ps_ComponentTypeSelector ≔ Some {{
        cts_KeyPath ≔ dq ".metadata.labels['app.kubernetes.io/component']";
        cts_Value ≔ Some "datacoord" }} }} }}.

Definition milvus_querycoord : ComponentDefinition :=
  {{
    cd_Name ≔ "querycoord";
    cd_Kind ≔ Some (GVK "apps" "v1" "Deployment");
    cd_OwnerRef ≔ Some "milvus";
    cd_SpecDefinition ≔ Some {{
      sd_FragmentedPodSpecDefinition ≔ Some {{
        fd_SchedulerNamePath ≔ Some ".spec.components.queryCoord.schedulerName";
        fd_LabelsPath ≔ Some ".spec.components.queryCoord.podLabels";
        fd_AnnotationsPath ≔ Some ".spec.components.queryCoord.podAnnotations";
        fd_ResourcesPath ≔ Some ".spec.components.queryCoord.resources";
        fd_PriorityClassNamePath ≔ Some ".spec.components.queryCoord.priorityClassName";
        fd_NodeAffinityPath ≔ Some ".spec.components.queryCoord.affinity.nodeAffinity";
        fd_PodAffinityPath ≔ Some ".spec.components.queryCoord.affinity.podAffinity" }} }};
    cd_ScaleDefinition ≔ Some {{ sc_ReplicasPath ≔ Some ".spec.components.queryCoord.replicas" }};
    cd_PodSelector ≔ Some {{
      ps_ComponentTypeSelector ≔ Some {{
        cts_KeyPath ≔ dq ".metadata.labels['app.kubernetes.io/component']";
        cts_Value ≔ Some "querycoord" }} }} }}.

Definition milvus_indexcoord : ComponentDefinition :=
  {{
    cd_Name ≔ "indexcoord";
    cd_Kind ≔ Some (GVK "apps" "v1" "Deployment");
    cd_OwnerRef ≔ Some "milvus";
    cd_SpecDefinition ≔ Some {{
      sd_FragmentedPodSpecDefinition ≔ Some {{
        fd_SchedulerNamePath ≔ Some ".spec.components.indexCoord.schedulerName";
        fd_LabelsPath ≔ Some ".spec.components.indexCoord.podLabels";
        fd_AnnotationsPath ≔ Some ".spec.components.indexCoord.podAnnotations";
        fd_ResourcesPath ≔ Some ".spec.components.indexCoord.resources";
        fd_PriorityClassNamePath ≔ Some ".spec.components.indexCoord.priorityClassName";
        fd_NodeAffinityPath ≔ Some ".spec.components.indexCoord.affinity.nodeAffinity";
        fd_PodAffinityPath ≔ Some ".spec.components.indexCoord.affinity.podAffinity" }} }};
    cd_ScaleDefinition ≔ Some {{ sc_ReplicasPath ≔ Some ".spec.components.indexCoord.replicas" }};
    cd_PodSelector ≔ Some {{
      ps_ComponentTypeSelector ≔ Some {{
        cts_KeyPath ≔ dq ".metadata.labels['app.kubernetes.io/component']";
        cts_Value ≔ Some "indexcoord" }} }} }}.

Definition milvus_cdc : ComponentDefinition :=
  {{
    cd_Name ≔ "cdc";
    cd_Kind ≔ Some (GVK "apps" "v1" "Deployment");
    cd_OwnerRef ≔ Some "milvus";
    cd_SpecDefinition ≔ Some {{
      sd_FragmentedPodSpecDefinition ≔ Some {{
        fd_SchedulerNamePath ≔ Some ".spec.components.cdc.schedulerName";
        fd_LabelsPath ≔ Some ".spec.components.cdc.podLabels";
        fd_AnnotationsPath ≔ Some ".spec.components.cdc.podAnnotations";
        fd_ResourcesPath ≔ Some ".spec.components.cdc.resources";
        fd_PriorityClassNamePath ≔ Some ".spec.components.cdc.priorityClassName";
        fd_NodeAffinityPath ≔ Some ".spec.components.cdc.affinity.nodeAffinity";
        fd_PodAffinityPath ≔ Some ".spec.components.cdc.affinity.podAffinity" }} }};
    cd_ScaleDefinition ≔ Some {{ sc_ReplicasPath ≔ Some ".spec.components.cdc.replicas" }};
    cd_PodSelector ≔ Some {{
      ps_ComponentTypeSelector ≔ Some {{
        cts_KeyPath ≔ dq ".metadata.labels['app.kubernetes.io/component']";
        cts_Value ≔ Some "cdc" }} }} }}.

Definition milvus_etcd : ComponentDefinition :=
  {{
    cd_Name ≔ "etcd";
    cd_Kind ≔ Some (GVK "apps" "v1" "StatefulSet");
    cd_OwnerRef ≔ Some "milvus";
    cd_SpecDefinition ≔ Some {{
      sd_FragmentedPodSpecDefinition ≔ Some {{
        fd_ResourcesPath ≔ Some ".spec.dependencies.etcd.inCluster.values.resources" }} }};
    cd_ScaleDefinition ≔ Some {{
      sc_ReplicasPath ≔ Some ".spec.dependencies.etcd.inCluster.values.replicaCount" }} }}.

Definition milvus_minio : ComponentDefinition :=
  {{
    cd_Name ≔ "minio";
    cd_Kind ≔ Some (GVK "apps" "v1" "StatefulSet");
    cd_OwnerRef ≔ Some "milvus";
    cd_SpecDefinition ≔ Some {{
      sd_FragmentedPodSpecDefinition ≔ Some {{
        fd_ResourcesPath ≔ Some ".spec.dependencies.storage.inCluster.values.resources" }} }} }}.

Definition milvus_pulsar_zookeeper : ComponentDefinition :=
  {{
    cd_Name ≔ "pulsar-zookeeper";
    cd_Kind ≔ Some (GVK "apps" "v1" "StatefulSet");
    cd_OwnerRef ≔ Some "milvus";
    cd_SpecDefinition ≔ Some {{
      sd_FragmentedPodSpecDefinition ≔ Some {{
        fd_ResourcesPath ≔ Some ".spec.dependencies.pulsar.inCluster.values.zookeeper.resources" }} }};
    cd_ScaleDefinition ≔ Some {{
      sc_ReplicasPath ≔ Some ".spec.dependencies.pulsar.inCluster.values.zookeeper.replicaCount" }} }}.

Definition milvus_pulsar_bookkeeper : ComponentDefinition :=
  {{
    cd_Name ≔ "pulsar-bookkeeper";
    cd_Kind ≔ Some (GVK "apps" "v1" "StatefulSet");
    cd_OwnerRef ≔ Some "milvus";
    cd_SpecDefinition ≔ Some {{
      sd_FragmentedPodSpecDefinition ≔ Some {{
        fd_ResourcesPath ≔ Some ".spec.dependencies.pulsar.inCluster.values.bookkeeper.resources" }} }};
    cd_ScaleDefinition ≔ Some {{
      sc_ReplicasPath ≔ Some ".spec.dependencies.pulsar.inCluster.values.bookkeeper.replicaCount" }} }}.

Definition milvus_pulsar_broker : ComponentDefinition :=
  {{
    cd_Name ≔ "pulsar-broker";
    cd_Kind ≔ Some (GVK "apps" "v1" "StatefulSet");
    cd_OwnerRef ≔ Some "milvus";
    cd_SpecDefinition ≔ Some {{
      sd_FragmentedPodSpecDefinition ≔ Some {{
        fd_ResourcesPath ≔ Some ".spec.dependencies.pulsar.inCluster.values.broker.resources" }} }};
    cd_ScaleDefinition ≔ Some {{
      sc_ReplicasPath ≔ Some ".spec.dependencies.pulsar.inCluster.values.broker.replicaCount" }} }}.

Definition milvus_pulsar_proxy : ComponentDefinition :=
  {{
    cd_Name ≔ "pulsar-proxy";
    cd_Kind ≔ Some (GVK "apps" "v1" "StatefulSet");
    cd_OwnerRef ≔ Some "milvus";
    cd_SpecDefinition ≔ Some {{
      sd_FragmentedPodSpecDefinition ≔ Some {{
        fd_ResourcesPath ≔ Some ".spec.dependencies.pulsar.inCluster.values.proxy.resources" }} }};
    cd_ScaleDefinition ≔ Some {{
      sc_ReplicasPath ≔ Some ".spec.dependencies.pulsar.inCluster.values.proxy.replicaCount" }} }}.

Definition milvus_instructions : OptimizationInstructions :=
  {{
    oi_GangScheduling ≔ Some {{
      gs_PodGroups ≔ [{{
        pg_Name ≔ "cluster";
        pg_Members ≔ [
          {{
            pm_ComponentName ≔ "querynode";
            pm_GroupByKeyPaths ≔ [dq ".metadata.labels['app.kubernetes.io/instance']"] }};
          {{
            pm_ComponentName ≔ "datanode";
            pm_GroupByKeyPaths ≔ [dq ".metadata.labels['app.kubernetes.io/instance']"] }};
          {{
            pm_ComponentName ≔ "streamingnode";
            pm_GroupByKeyPaths ≔ [dq ".metadata.labels['app.kubernetes.io/instance']"] }}] }}] }} }}.

Definition Milvus : Karta :=
  {{
    k_ObjectMeta ≔ {{ om_Name ≔ "milvus-io-milvus-v1beta1" }};
    k_Spec ≔ {{
      ks_StructureDefinition ≔ {{
        st_RootComponent ≔ milvus_milvus;
        st_ChildComponents ≔ [
          milvus_standalone;
          milvus_proxy;
          milvus_mixcoord;
          milvus_datanode;
          milvus_querynode;
          milvus_streamingnode;
          milvus_indexnode;
          milvus_rootcoord;
          milvus_datacoord;
          milvus_querycoord;
          milvus_indexcoord;
          milvus_cdc;
          milvus_etcd;
          milvus_minio;
          milvus_pulsar_zookeeper;
          milvus_pulsar_bookkeeper;
          milvus_pulsar_broker;
          milvus_pulsar_proxy] }};
      ks_Instructions ≔ milvus_instructions }} }}.

(** *** [dynamo.go] *)

Definition Dynamo : Karta :=
  {{
    k_ObjectMeta ≔ {{ om_Name ≔ "nvidia-com-dynamographdeployment-v1alpha1" }};
    k_Spec ≔ {{
      ks_StructureDefinition ≔ {{
        st_RootComponent ≔ {{
          cd_Name ≔ "dynamographdeployment";
          cd_Kind ≔ Some (GVK "nvidia.com" "v1alpha1" "DynamoGraphDeployment");
          cd_StatusDefinition ≔ Some {{
            std_PhaseDefinition ≔ Some {{ pd_Path ≔ ".status.state" }};
            std_StatusMappings ≔ {{
              smp_Initializing ≔ [{{ sm_ByPhase ≔ "initializing" }}; {{ sm_ByPhase ≔ "pending" }}];
              smp_Running ≔ [{{ sm_ByPhase ≔ "successful" }}];
              smp_Failed ≔ [{{ sm_ByPhase ≔ "failed" }}] }} }} }};
        st_ChildComponents ≔ [{{
          cd_Name ≔ "service";
          cd_OwnerRef ≔ Some "dynamographdeployment";
          cd_SpecDefinition ≔ Some {{
            sd_FragmentedPodSpecDefinition ≔ Some {{
              fd_SchedulerNamePath ≔ Some ".spec.services | .[] | .extraPodSpec.schedulerName";
              fd_LabelsPath ≔ Some ".spec.services | .[] | .labels";
              fd_AnnotationsPath ≔ Some ".spec.services | .[] | .annotations";
              fd_ResourcesPath ≔ Some ".spec.services | .[] | .resources";
              fd_ResourceClaimsPath ≔ Some ".spec.services | .[] | .extraPodSpec.resourceClaims";
              fd_PodAffinityPath ≔ Some ".spec.services | .[] | .extraPodSpec.affinity.podAffinity";
              fd_NodeAffinityPath ≔ Some ".spec.services | .[] | .extraPodSpec.affinity.nodeAffinity";
              fd_ContainerPath ≔ Some ".spec.services | .[] | .extraPodSpec.mainContainer";
              fd_PriorityClassNamePath ≔ Some ".spec.services | .[] | .extraPodSpec.priorityClassName";
              fd_ImagePath ≔ Some ".spec.services | .[] | .extraPodSpec.mainContainer.image" }} }};
          cd_ScaleDefinition ≔ Some {{
            sc_ReplicasPath ≔ Some ".spec.services[] | (.replicas // 1) * (.multinode.nodeCount // 1)";
            sc_MinReplicasPath ≔ Some ".spec.services | .[] | .autoscaling.minReplicas";
            sc_MaxReplicasPath ≔ Some ".spec.services | .[] | .autoscaling.maxReplicas" }};
          cd_InstanceIdPath ≔ Some ".spec.services | to_entries[] | .key";
          cd_PodSelector ≔ Some {{
            ps_ComponentInstanceSelector ≔ Some {{
              cis_IdPath ≔ dq ".metadata.labels['nvidia.com/dynamo-component']" }};
            ps_ReplicaSelector ≔ Some {{
              rs_KeyPath ≔ dq ".metadata.labels['grove.io/podcliquescalinggroup-replica-index'] // .metadata.labels['leaderworkerset.sigs.k8s.io/group-index']" }} }} }}];
        st_AdditionalChildKinds ≔ [
          GVK "nvidia.com" "v1alpha1" "DynamoComponentDeployment";
          GVK "leaderworkerset.x-k8s.io" "v1" "LeaderWorkerSet";
          GVK "scheduler.grove.io" "v1alpha1" "PodGang";
          GVK "grove.io" "v1alpha1" "PodClique";
          GVK "grove.io" "v1alpha1" "PodCliqueSet";
          GVK "grove.io" "v1alpha1" "PodCliqueScalingGroup"] }};
      ks_Instructions ≔ {{
        oi_GangScheduling ≔ Some {{
          gs_PodGroups ≔ [{{
            pg_Name ≔ "service";
            pg_Members ≔ [{{
              pm_ComponentName ≔ "service";
              pm_GroupByKeyPaths ≔ [dq ".metadata.labels['nvidia.com/dynamo-component']"] }}] }}] }} }} }} }}.

(** *** [dynamo_v1beta1.go] *)

Definition DynamoV1beta1 : Karta :=
  {{
    k_ObjectMeta ≔ {{ om_Name ≔ "nvidia-com-dynamographdeployment-v1beta1" }};
    k_Spec ≔ {{
      ks_StructureDefinition ≔ {{
        st_RootComponent ≔ {{
          cd_Name ≔ "dynamographdeployment";
          cd_Kind ≔ Some (GVK "nvidia.com" "v1beta1" "DynamoGraphDeployment");
          cd_StatusDefinition ≔ Some {{
            std_PhaseDefinition ≔ Some {{ pd_Path ≔ ".status.state" }};
            std_StatusMappings ≔ {{
              smp_Initializing ≔ [{{ sm_ByPhase ≔ "initializing" }}; {{ sm_ByPhase ≔ "pending" }}];
              smp_Running ≔ [{{ sm_ByPhase ≔ "successful" }}];
              smp_Failed ≔ [{{ sm_ByPhase ≔ "failed" }}] }} }} }};
        st_ChildComponents ≔ [{{
          cd_Name ≔ "component";
          cd_OwnerRef ≔ Some "dynamographdeployment";
          cd_SpecDefinition ≔ Some {{
            sd_FragmentedPodSpecDefinition ≔ Some {{
              fd_SchedulerNamePath ≔ Some ".spec.components[] | .podTemplate.spec.schedulerName";
              fd_LabelsPath ≔ Some ".spec.components[] | .podTemplate.metadata.labels";
              fd_AnnotationsPath ≔ Some ".spec.components[] | .podTemplate.metadata.annotations";
              fd_ResourceClaimsPath ≔ Some ".spec.components[] | .podTemplate.spec.resourceClaims";
              fd_PodAffinityPath ≔ Some ".spec.components[] | .podTemplate.spec.affinity.podAffinity";
              fd_NodeAffinityPath ≔ Some ".spec.components[] | .podTemplate.spec.affinity.nodeAffinity";
              fd_ContainerPath ≔ Some (dq ".spec.components[] | .podTemplate.spec.containers[] | select(.name == 'main')");
              fd_ImagePath ≔ Some (dq ".spec.components[] | .podTemplate.spec.containers[] | select(.name == 'main') | .image");
              fd_PriorityClassNamePath ≔ Some ".spec.components[] | .podTemplate.spec.priorityClassName" }} }};
          cd_ScaleDefinition ≔ Some {{
            sc_ReplicasPath ≔ Some ".spec.components[] | (.replicas // 1) * (.multinode.nodeCount // 1)" }};
          cd_InstanceIdPath ≔ Some ".spec.components[] | .name";
          cd_PodSelector ≔ Some {{
            ps_ComponentInstanceSelector ≔ Some {{
              cis_IdPath ≔ dq ".metadata.labels['nvidia.com/dynamo-component']" }};
            ps_ReplicaSelector ≔ Some {{
              rs_KeyPath ≔ dq ".metadata.labels['grove.io/podcliquescalinggroup-replica-index'] // .metadata.labels['leaderworkerset.sigs.k8s.io/group-index']" }} }} }}];
        st_AdditionalChildKinds ≔ [
          GVK "nvidia.com" "v1beta1" "DynamoComponentDeployment";
          GVK "leaderworkerset.x-k8s.io" "v1" "LeaderWorkerSet";
          GVK "scheduler.grove.io" "v1alpha1" "PodGang";
          GVK "grove.io" "v1alpha1" "PodClique";
          GVK "grove.io" "v1alpha1" "PodCliqueSet";
          GVK "grove.io" "v1alpha1" "PodCliqueScalingGroup"] }};
      ks_Instructions ≔ {{
        oi_GangScheduling ≔ Some {{
          gs_PodGroups ≔ [{{
            pg_Name ≔ "component";
            pg_Members ≔ [{{
              pm_ComponentName ≔ "component";
              pm_GroupByKeyPaths ≔ [dq ".metadata.labels['nvidia.com/dynamo-component'] | ascii_downcase"] }}] }}] }} }} }} }}.

(** *** [grove_podcliqueset.go] *)

Definition GrovePodCliqueSet : Karta :=
  {{
    k_ObjectMeta ≔ {{ om_Name ≔ "grove-io-podcliqueset-v1alpha1" }};
    k_Spec ≔ {{
      ks_StructureDefinition ≔ {{
        st_RootComponent ≔ {{
          cd_Name ≔ "podcliqueset";
          cd_Kind ≔ Some (GVK "grove.io" "v1alpha1" "PodCliqueSet");
          cd_StatusDefinition ≔ Some {{
            std_ConditionsDefinition ≔ Some {{
              cnd_Path ≔ ".status.conditions";
              cnd_TypeFieldName ≔ "type";
              cnd_StatusFieldName ≔ "status";
              cnd_ReasonFieldName ≔ Some "reason";
              cnd_MessageFieldName ≔ Some "message" }};
            std_StatusMappings ≔ {{
              smp_Failed ≔ [{{
                sm_ByConditions ≔ [{{
                  ec_Type ≔ "TopologyLevelsUnavailable";
                  ec_Status ≔ Some "True" }}] }}];
              smp_Running ≔ [{{
                sm_ByExpression ≔ Some {{
                  em_Expression ≔ "(.status.availableReplicas // 0) >= (.spec.replicas // 0)";
                  em_ExpectedResult ≔ "true" }} }}];
              smp_Initializing ≔ [{{
                sm_ByExpression ≔ Some {{
                  em_Expression ≔ "(.spec.replicas // 0) > 0 and (.status.availableReplicas // 0) < (.spec.replicas // 0)";
                  em_ExpectedResult ≔ "true" }} }}] }} }} }};
        st_ChildComponents ≔ [
          {{
            cd_Name ≔ "clique";
            cd_Kind ≔ Some (GVK "grove.io" "v1alpha1" "PodClique");
            cd_OwnerRef ≔ Some "podcliqueset";
            cd_SpecDefinition ≔ Some {{
              sd_FragmentedPodSpecDefinition ≔ Some {{
                fd_SchedulerNamePath ≔ Some ".spec.template.cliques[].spec.podSpec.schedulerName";
                fd_LabelsPath ≔ Some ".spec.template.cliques[].labels";
                fd_AnnotationsPath ≔ Some ".spec.template.cliques[].annotations";
                fd_ContainersPath ≔ Some ".spec.template.cliques[].spec.podSpec.containers";
                fd_ResourceClaimsPath ≔ Some ".spec.template.cliques[].spec.podSpec.resourceClaims";
                fd_PriorityClassNamePath ≔ Some ".spec.template.cliques[].spec.podSpec.priorityClassName";
                fd_PodAffinityPath ≔ Some ".spec.template.cliques[].spec.podSpec.affinity.podAffinity";
                fd_NodeAffinityPath ≔ Some ".spec.template.cliques[].spec.podSpec.affinity.nodeAffinity" }} }};
            cd_ScaleDefinition ≔ Some {{
              sc_ReplicasPath ≔ Some "(.spec.replicas // 1) * (.spec.template.cliques[].spec.replicas // 1)";
              sc_MinReplicasPath ≔ Some ".spec.template.cliques[].spec.autoScalingConfig.minReplicas";
              sc_MaxReplicasPath ≔ Some ".spec.template.cliques[].spec.autoScalingConfig.maxReplicas" }};
            cd_InstanceIdPath ≔ Some ".spec.template.cliques[].name";
            cd_PodSelector ≔ Some {{
              ps_ComponentInstanceSelector ≔ Some {{ cis_IdPath ≔ dq ".metadata.labels['grove.io/podclique']" }};
              ps_ReplicaSelector ≔ Some {{
                rs_KeyPath ≔ dq ".metadata.labels['grove.io/podcliqueset-replica-index']" }} }} }};
          {{
            cd_Name ≔ "scalinggroup";
            cd_Kind ≔ Some (GVK "grove.io" "v1alpha1" "PodCliqueScalingGroup");
            cd_OwnerRef ≔ Some "podcliqueset";
            cd_ScaleDefinition ≔ Some {{
              sc_ReplicasPath ≔ Some "(.spec.replicas // 1) * (.spec.template.podCliqueScalingGroups[].replicas // 1)";
              sc_MinReplicasPath ≔ Some ".spec.template.podCliqueScalingGroups[].scaleConfig.minReplicas";
              sc_MaxReplicasPath ≔ Some ".spec.template.podCliqueScalingGroups[].scaleConfig.maxReplicas" }};
            cd_InstanceIdPath ≔ Some ".spec.template.podCliqueScalingGroups[].name";
            cd_PodSelector ≔ Some {{
              ps_ComponentInstanceSelector ≔ Some {{
                cis_IdPath ≔ dq ".metadata.labels['grove.io/podcliquescalinggroup']" }};
              ps_ReplicaSelector ≔ Some {{
                rs_KeyPath ≔ dq ".metadata.labels['grove.io/podcliquescalinggroup-replica-index']" }} }} }}];
        st_AdditionalChildKinds ≔ [
          GVK "grove.io" "v1alpha1" "PodClique";
          GVK "grove.io" "v1alpha1" "PodCliqueScalingGroup";
          GVK "scheduler.grove.io" "v1alpha1" "PodGang"] }};
      ks_Instructions ≔ {{
        oi_GangScheduling ≔ Some {{
          gs_PodGroups ≔ [{{
            pg_Name ≔ "podcliqueset-replica";
            pg_Members ≔ [
              {{
                pm_ComponentName ≔ "clique";
                pm_GroupByKeyPaths ≔ [
                  dq ".metadata.labels['app.kubernetes.io/part-of']";
                  dq ".metadata.labels['grove.io/podcliqueset-replica-index']"] }};
              {{
                pm_ComponentName ≔ "scalinggroup";
                pm_GroupByKeyPaths ≔ [
                  dq ".metadata.labels['app.kubernetes.io/part-of']";
                  dq ".metadata.labels['grove.io/podcliqueset-replica-index']"] }}] }}] }} }} }} }}.

(** *** [sandbox.go] *)

Definition sandboxOwnerUID : string :=
  dq "[.metadata.ownerReferences[]? | select(.kind == 'Sandbox' and (.apiVersion | startswith('agents.x-k8s.io/'))) | .uid][0]".

Definition sandboxPodLabel : string :=
  dq ".metadata.labels['agents.x-k8s.io/sandbox-name-hash']".

Definition Sandbox : Karta :=
  {{
    k_ObjectMeta ≔ {{ om_Name ≔ "agents-x-k8s-io-sandbox-v1beta1" }};
    k_Spec ≔ {{
      ks_StructureDefinition ≔ {{
        st_RootComponent ≔ {{
          cd_Name ≔ "sandbox";
          cd_Kind ≔ Some (GVK "agents.x-k8s.io" "v1beta1" "Sandbox");
          cd_SuspendDefinition ≔ Some {{
            sus_SuspendActions ≔ [{{ sa_Path ≔ ".spec.operatingMode"; sa_Value ≔ dq "'Suspended'" }}];
            sus_ResumeActions ≔ [{{ sa_Path ≔ ".spec.operatingMode"; sa_Value ≔ dq "'Running'" }}] }};
          cd_StatusDefinition ≔ Some {{
            std_ConditionsDefinition ≔ Some {{
              cnd_Path ≔ ".status.conditions";
              cnd_TypeFieldName ≔ "type";
              cnd_StatusFieldName ≔ "status";
              cnd_MessageFieldName ≔ Some "message";
              cnd_ReasonFieldName ≔ Some "reason" }};
            std_StatusMappings ≔ {{
              smp_Initializing ≔ [{{
                sm_ByConditions ≔ [
                  {{ ec_Type ≔ "Ready"; ec_Status ≔ Some "False" }};
                  {{ ec_Type ≔ "Suspended"; ec_Status ≔ Some "False" }}];
                sm_ByExpression ≔ Some {{
                  em_Expression ≔ dq "(.spec.operatingMode // 'Running') != 'Suspended'";
                  em_ExpectedResult ≔ "true" }} }}];
              smp_Running ≔ [{{
                sm_ByConditions ≔ [{{ ec_Type ≔ "Ready"; ec_Status ≔ Some "True" }}];
                sm_ByExpression ≔ Some {{
                  em_Expression ≔ dq "(.spec.operatingMode // 'Running') != 'Suspended' and ([(.status.conditions // [])[] | select(.type == 'Suspended' and .status == 'True')] | length) == 0";
                  em_ExpectedResult ≔ "true" }} }}];
              smp_Suspending ≔ [{{
                sm_ByExpression ≔ Some {{
                  em_Expression ≔ dq ".spec.operatingMode == 'Suspended' and ([(.status.conditions // [])[] | select(.type == 'Suspended' and .status == 'True')] | length) == 0";
                  em_ExpectedResult ≔ "true" }} }}];
              smp_Suspended ≔ [{{
                sm_ByConditions ≔ [{{ ec_Type ≔ "Suspended"; ec_Status ≔ Some "True" }}];
                sm_ByExpression ≔ Some {{
                  em_Expression ≔ dq ".spec.operatingMode == 'Suspended'";
                  em_ExpectedResult ≔ "true" }} }}];
              smp_Resuming ≔ [{{
                sm_ByConditions ≔ [{{ ec_Type ≔ "Suspended"; ec_Status ≔ Some "True" }}];
                sm_ByExpression ≔ Some {{
                  em_Expression ≔ dq "(.spec.operatingMode // 'Running') != 'Suspended'";
                  em_ExpectedResult ≔ "true" }} }}] }} }} }};
        st_ChildComponents ≔ [
          {{
            cd_Name ≔ "agent";
            cd_Kind ≔ Some (GVK "" "v1" "Pod");
            cd_OwnerRef ≔ Some "sandbox";
            cd_SpecDefinition ≔ Some {{ sd_PodTemplateSpecPath ≔ Some ".spec.podTemplate" }};
            cd_PodSelector ≔ Some {{
              ps_ComponentTypeSelector ≔ Some {{ cts_KeyPath ≔ sandboxPodLabel }} }} }};
          {{
            cd_Name ≔ "companion";
            cd_Kind ≔ Some (GVK "" "v1" "Pod");
            cd_OwnerRef ≔ Some "sandbox";
            cd_PodSelector ≔ Some {{
              ps_ComponentTypeSelector ≔ Some {{
                cts_KeyPath ≔ "select(" +:+ sandboxPodLabel +:+ " == null) | " +:+ sandboxOwnerUID }} }} }}] }};
      ks_Instructions ≔ {{
        oi_GangScheduling ≔ Some {{
          gs_PodGroups ≔ [{{
            pg_Name ≔ "sandbox";
            pg_Members ≔ [
              {{
                pm_ComponentName ≔ "agent";
                pm_GroupByKeyPaths ≔ [sandboxOwnerUID] }};
              {{
                pm_ComponentName ≔ "companion";
                pm_GroupByKeyPaths ≔ [sandboxOwnerUID] }}] }}] }} }} }} }}.

(** The wiring of [catalog.go]. *)
Definition definitions : list Karta :=
  [ BatchJob; CronJob; Deployment; StatefulSet; Pod;
    Jobset; Pytorch; Mpijob; Raycluster; Rayjob;
    RayService; LWS; KServe; LLMInferenceService; LLMInferenceServiceV1alpha2;
    KnativeServing; NIMService; NIMCache; Milvus; Dynamo;
    DynamoV1beta1; GrovePodCliqueSet; Sandbox ].
