(* ===== verification/Builtin.v ===== *)
(** * Builtin: what holds of the built-in Kartas

    The definitions of [Kartas] under the validator, the catalog, the structure
    summary and the inference of a pod's component. *)

From S2P Require Import Prelude Api Value JqValidate Validator Sort Catalog Runner PodQuerier Summary Gang Literal Kartas.

(** The validator's verdict on the structure alone, with every expression taken. *)
Definition structurally_valid (k : Karta) : bool :=
  match Validate (λ _, Ok AScalar) [] [] (Some k) with None => true | Some _ => false end.

Lemma definitions_structurally_valid : forallb structurally_valid definitions = true.
Proof. vm_compute. reflexivity. Qed.

Lemma definitions_wf k : k ∈ definitions → wf_structure k.
Proof.
  intros Hk. pose proof definitions_structurally_valid as Hall.
  rewrite forallb_forall in Hall. specialize (Hall k (proj1 (list_elem_of_In _ _) Hk)).
  unfold structurally_valid in Hall.
  destruct (Validate _ _ _ _) eqn:E in Hall; [done|].
  by apply (Validate_None (λ _, Ok AScalar) [] [] k) in E as [? _].
Qed.

(** C9: every built-in Karta is well formed: whatever parser reads the jq
    expressions, the validator accepts the definition exactly when it accepts
    each of its expressions, so no built-in can fail validation for its
    structure. *)
Theorem definitions_valid Parse meta status k :
  untagged meta → untagged status → k ∈ definitions →
  wf_structure k ∧
  (Validate Parse meta status (Some k) = None ↔ Forall (jq_accepted Parse) (jq_strings k)).
Proof.
  intros Hm Hs Hk. apply definitions_wf in Hk. split; [done|].
  rewrite Validate_None by done. naive_solver.
Qed.

Lemma definitions_valid_witness :
  untagged [] ∧ Sandbox ∈ definitions ∧ wf_structure Sandbox ∧
  (Validate (λ _, Ok AScalar) [] [] (Some Sandbox) = None ↔
   Forall (jq_accepted (λ _, Ok AScalar)) (jq_strings Sandbox)).
Proof.
  assert (Hin : Sandbox ∈ definitions) by (unfold definitions; set_solver).
  split; [by split|]. split; [done|].
  apply (definitions_valid (λ _, Ok AScalar) [] []); [by split..|done].
Defined.

(** ** The catalog of the built-ins *)

Lemma definitions_keyed : Forall keyed definitions ∧ NoDup (RootKey <$> definitions).
Proof.
  split.
  - apply Forall_forall. intros k Hk. apply keyed_iff.
    assert (Hall : forallb (λ k, negb (incomplete k)) definitions = true) by (vm_compute; reflexivity).
    rewrite forallb_forall in Hall. apply negb_true_iff, Hall. by apply list_elem_of_In.
  - apply (bool_decide_unpack _). vm_compute. exact I.
Qed.

Definition is_slug (k : Karta) : bool :=
  match Slug k with Ok s => bool_decide (s = k_Name k) | Fail _ => false end.

(** The catalog of the built-ins is always built - [New] never panics; it
    finds each built-in under the kind of its root and lists them all, and every
    built-in is named by the slug of its kind, no two alike, so that each has a
    file of its own. *)
Theorem New_definitions gvk_String `{GoSort} :
  ∃ c, New gvk_String definitions = Some c ∧
    (∀ gvk k, Get gvk_String c gvk = Ok k ↔ k ∈ definitions ∧ RootKey k = gvk) ∧
    List gvk_String c ≡ₚ definitions ∧
    (∀ k, k ∈ definitions → Slug k = Ok (k_Name k)) ∧
    NoDup (k_Name <$> definitions).
Proof.
  pose proof (proj2 (newCatalog_is_ok gvk_String definitions) definitions_keyed) as Hok.
  unfold New. destruct (newCatalog gvk_String definitions) as [c|] eqn:Hc; [|done].
  exists c. split_and!; [done| | | |].
  - intros gvk k. by apply (Get_Ok gvk_String definitions).
  - by apply (List_Permutation gvk_String).
  - intros k Hk. assert (Hall : forallb is_slug definitions = true) by (vm_compute; reflexivity).
    rewrite forallb_forall in Hall. specialize (Hall k (proj1 (list_elem_of_In _ _) Hk)).
    unfold is_slug in Hall. destruct (Slug k); [|done]. by apply bool_decide_eq_true in Hall as ->.
  - apply (bool_decide_unpack _). vm_compute. exact I.
Qed.

(** ** The Agent Sandbox

    Its Karta has two components for pods, but only [agent] has a pod
    definition. *)

Lemma Sandbox_leaves `{GoSort} s :
  NewStructureSummary (Some Sandbox) = Some (Ok s) → ss_leafComponents s = ["agent"].
Proof.
  unfold NewStructureSummary. intros (s' & Hb & [= <-])%fmap_Some.
  apply build_tables in Hb as (_ & _ & _ & _ & -> & _). vm_compute. reflexivity.
Qed.

(** Every pod of an Agent Sandbox is taken for its [agent] component,
    whatever its labels and owners say and without evaluating any selector: a
    pod an integration adds never maps to [companion]. *)
Theorem Sandbox_pods_are_agents {R} `{Runner R} `{GoSort} podName s (pod : R) :
  NewStructureSummary (Some Sandbox) = Some (Ok s) →
  InferPodComponent podName s pod = (Ok "agent", pod).
Proof. intros Hs. unfold InferPodComponent. by rewrite (Sandbox_leaves s Hs). Qed.

Definition sandbox_summary : option StructureSummary :=
  match NewStructureSummary (H:=insertion_GoSort) (Some Sandbox) with
  | Some (Ok s) => Some s
  | _ => None
  end.

(** A pod without the label of the Sandbox controller. *)
Lemma Sandbox_pods_are_agents_witness :
  ∃ s, sandbox_summary = Some s ∧
    InferPodComponent "supervisor" s (Table {[ sandboxPodLabel := [VNil] ]}) =
    (Ok "agent", Table {[ sandboxPodLabel := [VNil] ]}).
Proof.
  destruct sandbox_summary as [s|] eqn:E; [|vm_compute in E; discriminate].
  exists s. split; [done|]. apply (@Sandbox_pods_are_agents _ _ insertion_GoSort).
  unfold sandbox_summary in E. destruct (NewStructureSummary _) as [[s'|]|]; congruence.
Defined.
