(* ===== verification/Recorder.v ===== *)
(** * Recorder: what a workload went through, recorded and checked

    Models [test/e2e/recorder/*.go]: the journey a flow declares, the watch of a
    workload that keeps every distinct object and acts on the steps as they are
    reached, the check of the observed order, the recording and its reader.

    An object is a decoded JSON document.  A watch is the sequence of what it
    delivers before the deadline of the flow, each object with the answer the
    cluster gives to a patch at that moment; after the last one the deadline
    passes.  What is logged is left out. *)

From S2P Require Import Prelude Api Value.

(** ** Objects ([cr.go]) *)

Definition object := gmap string json.

(** Documents are compared through trees of leaves. *)
Fixpoint json_tree (j : json) : gen_tree (bool + number + string) :=
  match j with
  | JNull => GenNode 0 []
  | JBool b => GenLeaf (inl (inl b))
  | JNumber n => GenLeaf (inl (inr n))
  | JString s => GenLeaf (inr s)
  | JArray l => GenNode 1 (json_tree <$> l)
  | JObject m => GenNode 2 ((λ '(k, t), GenNode 0 [GenLeaf (inr k); t]) <$> map_to_list (json_tree <$> m))
  end.

#[export] Instance number_eq_dec : EqDecision number.
Proof. solve_decision. Defined.

#[export] Instance json_tree_inj : Inj (=) (=) json_tree.
Proof.
  intros j. induction j as [|b|n|s|l IH|m IH] using json_nested_ind; intros [|b'|n'|s'|l'|m']; cbn; try done; try congruence.
  - intros [= E]. f_equal. revert l' E. induction IH as [|j l Hj _ IHl]; intros [|j' l'] E; try done.
    cbn in E. injection E as E1 E2. f_equal; [by apply Hj|by apply IHl].
  - intros [= E]. f_equal. apply list_fmap_eq_inj in E; [|by intros [k t] [k' t'] [= -> ->]].
    assert (E' : json_tree <$> m = json_tree <$> m') by (apply map_to_list_inj; by rewrite E).
    apply map_eq. intros k. apply (f_equal (.!! k)) in E'. rewrite !lookup_fmap in E'.
    destruct (m !! k) as [j|] eqn:Hj, (m' !! k) as [j'|] eqn:Hj'; cbn in E'; try done.
    injection E' as E'. f_equal. by apply (IH k j Hj).
Qed.

(** [reflect.DeepEqual] of documents *)
#[export] Instance json_eq_dec : EqDecision json.
Proof. intros j j'. refine (cast_if (decide (json_tree j = json_tree j'))); [by apply json_tree_inj|congruence]. Defined.

(** [unstructured.NestedInt64]: the value if the path leads to an integer *)
Fixpoint NestedInt64 (path : list string) (j : json) : option Z :=
  match path, j with
  | [], JNumber (NInt z) => Some z
  | field :: path, JObject m => m !! field ≫= NestedInt64 path
  | _, _ => None
  end.

(** [unstructured.RemoveNestedField] *)
Fixpoint RemoveNestedField (m : object) (field : string) (fields : list string) : object :=
  match fields with
  | [] => delete field m
  | next :: fields =>
      match m !! field with
      | Some (JObject below) => <[field := JObject (RemoveNestedField below next fields)]> m
      | _ => m
      end
  end.

Definition volatileFields : list (string * string) := [("metadata", "resourceVersion"); ("metadata", "managedFields")].

Definition stripVolatileFields (cr : object) : object :=
  foldl (λ stripped '(parent, field), RemoveNestedField stripped parent [field]) cr volatileFields.

Definition GetGeneration (cr : object) : Z := default 0%Z (NestedInt64 ["metadata"; "generation"] (JObject cr)).

Definition hasObservedCurrentGeneration (cr : object) : bool :=
  match NestedInt64 ["status"; "observedGeneration"] (JObject cr) with
  | None => true
  | Some observed => (GetGeneration cr <=? observed)%Z
  end.

Definition metadata_string (cr : object) (field : string) : string :=
  match cr !! "metadata" with
  | Some (JObject metadata) => match metadata !! field with Some (JString s) => s | _ => "" end
  | _ => ""
  end.

Definition GetResourceVersion (cr : object) : string := metadata_string cr "resourceVersion".

(** ** Flows ([flow.go]) *)

Definition StateCheck := object → bool.

Inductive ActionType := ActionSuspend | ActionResume | ActionScale.

Definition action_string (a : ActionType) : string :=
  match a with ActionSuspend => "Suspend" | ActionResume => "Resume" | ActionScale => "Scale" end.

Record Action := MkAction { act_Type : ActionType; act_Patch : string }.

Record journeyStep := MkStep {
  js_State : ResourceStatus;
  js_Action : option Action;
  js_ReachedWhen : option StateCheck;
  js_Optional : bool;
}.

Record namedState := MkState { ns_Name : ResourceStatus; ns_Match : StateCheck }.

Definition Reaches (state : ResourceStatus) : journeyStep := MkStep state None None false.
Definition Optional (s : journeyStep) : journeyStep := MkStep (js_State s) (js_Action s) (js_ReachedWhen s) true.
Definition With (s : journeyStep) (gate : StateCheck) : journeyStep :=
  MkStep (js_State s) (js_Action s) (Some gate) (js_Optional s).
Definition Do (s : journeyStep) (action : Action) : journeyStep :=
  MkStep (js_State s) (Some action) (js_ReachedWhen s) (js_Optional s).

(** A recorder; durations in nanoseconds.  A nil predicate or an empty name is
    refused with a panic, as is a directory that is not given. *)
Record Recorder := MkRecorder { r_OutputDir : string; r_states : list namedState; r_timeout : Z }.

Definition defaultTimeout : Z := 180000000000.

Definition New (OutputDir : string) (Timeout : Z) : option Recorder :=
  if bool_decide (OutputDir = "") then None
  else Some (MkRecorder OutputDir [] (if (0 <? Timeout)%Z then Timeout else defaultTimeout)).

Definition AddState (r : Recorder) (name : ResourceStatus) (check : option StateCheck) : option Recorder :=
  if bool_decide (name = "") then None
  else match check with
       | None => None
       | Some check => Some (MkRecorder (r_OutputDir r) (r_states r ++ [MkState name check]) (r_timeout r))
       end.

Definition SetTimeout (r : Recorder) (d : Z) : option Recorder :=
  if (d <=? 0)%Z then None else Some (MkRecorder (r_OutputDir r) (r_states r) d).

(** What [Run] reads of a flow and its recorder; the journey is not empty. *)
Record Flow := MkFlow { f_name : string; f_states : list namedState; f_journey : list journeyStep }.

Definition terminalState (f : Flow) : ResourceStatus := default "" (js_State <$> last (f_journey f)).

Definition judge (cr : object) (states : list namedState) : list ResourceStatus :=
  match ns_Name <$> filter (λ s, ns_Match s cr = true) states with
  | [] => [UndefinedStatus]
  | matched => matched
  end.

(** ** The observed order ([order.go]) *)

Definition visitsOf (observed : list ResourceStatus) : list ResourceStatus :=
  foldl (λ visits state, if bool_decide (last visits = Some state) then visits else visits ++ [state]) [] observed.

(** The match of the steps against the visits; [earlier] holds the states of
    the steps before. What is left of the visits, or the step that is missing *)
Fixpoint match_journey (earlier : list ResourceStatus) (journey : list journeyStep) (visits : list ResourceStatus) :
    list ResourceStatus + ResourceStatus :=
  match journey with
  | [] => inl visits
  | step :: journey =>
      let rest := match_journey (earlier ++ [js_State step]) journey in
      let skip := if js_Optional step || bool_decide (js_State step ∈ earlier) then rest visits else inr (js_State step) in
      match visits with
      | visit :: visits' => if bool_decide (visit = js_State step) then rest visits' else skip
      | [] => skip
      end
  end.

Definition validateObservedOrder (journey : list journeyStep) (observed : list ResourceStatus)
    (expectedTerminal : ResourceStatus) : option error :=
  let journeyStates := js_State <$> journey in
  match observed with
  | [] => Some (Errorf "no states observed (journey %v)" [AStrs journeyStates] [])
  | _ =>
      let visits := visitsOf observed in
      let lastVisit := default "" (last visits) in
      if bool_decide (lastVisit ≠ expectedTerminal) then
        Some (Errorf "last observed state is %q, expected terminal %q (journey %v, observed %v)"
                [AStr lastVisit; AStr expectedTerminal; AStrs journeyStates; AStrs visits] [])
      else
        let visits := visitsOf (filter (λ state, state ≠ UndefinedStatus) visits) in
        match match_journey [] journey visits with
        | inr state =>
            Some (Errorf "required state %q missing or out of order (journey %v, observed %v)"
                    [AStr state; AStrs journeyStates; AStrs visits] [])
        | inl [] => None
        | inl (visit :: _) =>
            Some (Errorf "observed state %q is not part of the journey here (journey %v, observed %v)"
                    [AStr visit; AStrs journeyStates; AStrs visits] [])
        end
  end.

(** ** One watched run ([observation.go]) *)

Definition Strongest (phases : list ResourceStatus) : ResourceStatus := default UndefinedStatus (last phases).

(** The payload of a patch that says [null] is the nil map. *)
Record RecordedAction := MkRecordedAction {
  ra_Name : string;
  ra_Verb : string;
  ra_PatchType : string;
  ra_Payload : option object;
}.

Record snapshot := MkSnapshot {
  sn_state : ResourceStatus;
  sn_phases : list ResourceStatus;
  sn_cr : object;
  sn_action : option RecordedAction;
  sn_stale : bool;
}.

Record observation := MkObservation {
  o_pending : list journeyStep;
  o_snapshots : list snapshot;
  o_lastSig : option object;
  o_lastSeen : option object;
  o_failure : option error;
}.

Definition set_pending (pending : list journeyStep) (o : observation) : observation :=
  MkObservation pending (o_snapshots o) (o_lastSig o) (o_lastSeen o) (o_failure o).
Definition set_snapshots (snapshots : list snapshot) (o : observation) : observation :=
  MkObservation (o_pending o) snapshots (o_lastSig o) (o_lastSeen o) (o_failure o).
Definition set_failure (failure : error) (o : observation) : observation :=
  MkObservation (o_pending o) (o_snapshots o) (o_lastSig o) (o_lastSeen o) (Some failure).

Definition states (o : observation) : list ResourceStatus :=
  sn_state <$> filter (λ s, sn_stale s = false) (o_snapshots o).

Definition keep (cr : object) (phases : list ResourceStatus) (observed : bool) (o : observation) : observation :=
  let sig := stripVolatileFields cr in
  if bool_decide (o_lastSig o = Some sig) then o
  else MkObservation (o_pending o)
         (o_snapshots o ++ [MkSnapshot (Strongest phases) phases cr None (negb observed)])
         (Some sig) (o_lastSeen o) (o_failure o).

(** The last snapshot gets the action. *)
Definition recordAction (action : RecordedAction) (o : observation) : observation :=
  match last (o_snapshots o) with
  | None => o
  | Some s => set_snapshots (take (length (o_snapshots o) - 1) (o_snapshots o) ++
                [MkSnapshot (sn_state s) (sn_phases s) (sn_cr s) (Some action) (sn_stale s)]) o
  end.

Definition hasReachedTerminal (f : Flow) (state : ResourceStatus) (o : observation) : bool :=
  bool_decide (state = terminalState f) && bool_decide (length (o_pending o) = 0).

(** What a watch delivers: an error, the workload with the answer to a patch
    sent when it is seen, something else by its type, or the end of the watch. *)
Inductive watch_event :=
  | WatchError (status : error)
  | WatchObject (cr : object) (patched : option error)
  | WatchOther (type : string)
  | WatchClosed.

Section observing.
Context (Unmarshal_payload : string → result (option object)).

Definition performAction (workload : object) (action : Action) (patched : option error) : result RecordedAction :=
  match patched with
  | Some err => Fail (Errorf "action %s on %s/%s: %w"
      [AStr (action_string (act_Type action)); AStr (metadata_string workload "namespace"); AStr (metadata_string workload "name")] [err])
  | None =>
      payload ← map_error (λ err, Errorf "action %s payload: %w" [AStr (action_string (act_Type action))] [err])
                  (Unmarshal_payload (act_Patch action));
      Ok (MkRecordedAction (action_string (act_Type action)) "PATCH" "application/merge-patch+json" payload)
  end.

(** The step is reached by its state and its gate. *)
Definition reached (step : journeyStep) (state : ResourceStatus) (cr : object) : bool :=
  bool_decide (state = js_State step) && match js_ReachedWhen step with None => true | Some gate => gate cr end.

Definition advanceStep (workload : object) (state : ResourceStatus) (cr : object) (patched : option error)
    (o : observation) : option error * observation :=
  match o_pending o with
  | [] => (None, o)
  | step :: pending =>
      if reached step state cr then
        match js_Action step with
        | None => (None, set_pending pending o)
        | Some action =>
            match performAction workload action patched with
            | Fail err => (Some err, o)
            | Ok action => (None, set_pending pending (recordAction action o))
            end
        end
      else (None, o)
  end.

Definition record (f : Flow) (workload cr : object) (patched : option error) (o : observation) : bool * observation :=
  let o := MkObservation (o_pending o) (o_snapshots o) (o_lastSig o) (Some cr) (o_failure o) in
  let phases := judge cr (f_states f) in
  let state := Strongest phases in
  let observed := hasObservedCurrentGeneration cr in
  let o := keep cr phases observed o in
  if negb observed then (false, o)
  else
    match advanceStep workload state cr patched o with
    | (Some err, o) => (true, set_failure err o)
    | (None, o) => (hasReachedTerminal f state o, o)
    end.

Fixpoint watch_loop (f : Flow) (workload : object) (events : list watch_event) (lastWatchErr : option error)
    (o : observation) : observation :=
  match events with
  | [] => set_failure (Errorf "did not reach %q within %s; observed %v\nlast-seen status:\n%s"
                         [AStr (terminalState f); AStrs (states o)] []) o
  | WatchClosed :: _ =>
      set_failure (Errorf "watch lost its position and cannot resume; last watch error: %v; observed %v; re-record the flow\nlast-seen status:\n%s"
                     [AStrs (states o)] (option_list lastWatchErr)) o
  | WatchError status :: events => watch_loop f workload events (Some status) o
  | WatchOther type :: _ =>
      set_failure (Errorf "watch delivered a %T instead of the workload; observed %v" [AStr type; AStrs (states o)] []) o
  | WatchObject cr patched :: events =>
      match record f workload cr patched o with
      | (true, o) => o
      | (false, o) => watch_loop f workload events lastWatchErr o
      end
  end.

(** The REST mapping of the kind; the watch from a version on *)
Context (RESTMapping : object → result ()) (Watch : string → result (list watch_event)).

Definition startWatch (workload : object) : result (list watch_event) :=
  _ ← map_error (λ err, Errorf "rest mapping for %s: %w" [] [err]) (RESTMapping workload);
  if bool_decide (metadata_string workload "namespace" = "") then
    Fail (Errorf "workload %s has no namespace" [AStr (metadata_string workload "name")] [])
  else if bool_decide (GetResourceVersion workload = "") then
    Fail (Errorf "workload %s has no resourceVersion to watch from" [AStr (metadata_string workload "name")] [])
  else Watch (GetResourceVersion workload).

Definition watchAndAct (f : Flow) (workload : object) (o : observation) : observation :=
  match startWatch workload with
  | Fail err => set_failure err o
  | Ok events => watch_loop f workload events None o
  end.

Definition actionSteps (journey : list journeyStep) : list journeyStep :=
  filter (λ step, is_Some (js_Action step) ∨ is_Some (js_ReachedWhen step)) journey.

Definition observe (f : Flow) (workload : object) : observation :=
  let o := MkObservation (actionSteps (f_journey f)) [] None None None in
  if hasObservedCurrentGeneration workload && hasReachedTerminal f (Strongest (judge workload (f_states f))) o
  then (record f workload workload None o).2
  else watchAndAct f workload o.

(** ** Recordings ([recording.go]) *)

Record SummaryEntry := MkSummaryEntry { se_Phases : list ResourceStatus; se_Amount : nat }.

(** The failures as errors, not their texts. *)
Record Result := MkResult { res_Succeeded : bool; res_Failures : list error }.

Definition EventState : string := "STATE".
Definition EventAction : string := "ACTION".

Record Event := MkEvent {
  ev_Kind : string;
  ev_State : string;
  ev_Phases : list ResourceStatus;
  ev_StaleObservedGeneration : bool;
  ev_ResourceVersion : string;
  ev_Object : option object;
  ev_Action : option RecordedAction;
}.

Record Recording := MkRecording {
  rec_SchemaVersion : Z;
  rec_Operator : string;
  rec_Version : string;
  rec_KartaName : string;
  rec_Flow : string;
  rec_Want : string;
  rec_Result : Result;
  rec_KartaFile : string;
  rec_Summary : list SummaryEntry;
  rec_Events : list Event;
  rec_Path : string;
}.

Definition schemaVersion : Z := 1.

Definition is_state (e : Event) : bool := bool_decide (ev_Kind e = EventState).

Definition summarize_step (out : list SummaryEntry) (e : Event) : list SummaryEntry :=
  if negb (is_state e) then out
  else
    match last out with
    | Some entry =>
        if bool_decide (se_Phases entry = ev_Phases e)
        then take (length out - 1) out ++ [MkSummaryEntry (se_Phases entry) (S (se_Amount entry))]
        else out ++ [MkSummaryEntry (ev_Phases e) 1]
    | None => out ++ [MkSummaryEntry (ev_Phases e) 1]
    end.

Definition summarize (events : list Event) : list SummaryEntry := foldl summarize_step [] events.

Definition recorded_states (r : Recording) : list string := ev_State <$> filter (λ e, is_state e = true) (rec_Events r).

Definition recordingPath (fixturesRoot : string) (r : Recording) : string :=
  fixturesRoot +:+ "/" +:+ rec_Operator r +:+ "/" +:+ rec_Version r +:+ "/" +:+ rec_KartaName r +:+ "/" +:+ rec_Flow r +:+ ".yaml".

(** *** The reader *)

(** [rd_pos] is [pos + 1]. *)
Record Reader := MkReader { rd_rec : Recording; rd_stateEvents : list Event; rd_pos : nat }.

Definition newReader (rec : Recording) : Reader := MkReader rec (filter (λ e, is_state e = true) (rec_Events rec)) 0.

Definition Next (r : Reader) : bool * Reader :=
  (bool_decide (rd_pos r < length (rd_stateEvents r)), MkReader (rd_rec r) (rd_stateEvents r) (S (rd_pos r))).

(** The current event; none where the index is out of range. *)
Definition current (r : Reader) : option Event :=
  match rd_pos r with 0 => None | S pos => rd_stateEvents r !! pos end.

(** [for r.Next() { ... }]: what the loop sees, with fuel *)
Fixpoint read_all (fuel : nat) (r : Reader) : list (option Event) :=
  match fuel with
  | 0 => []
  | S fuel => match Next r with
              | (true, r) => current r :: read_all fuel r
              | (false, _) => []
              end
  end.

(** ** A run ([recorder.go]) *)

Definition state_event (snap : snapshot) : Event :=
  MkEvent EventState (sn_state snap) (sn_phases snap) (sn_stale snap) (GetResourceVersion (sn_cr snap))
    (Some (stripVolatileFields (sn_cr snap))) None.
Definition action_event (action : RecordedAction) : Event := MkEvent EventAction "" [] false "" None (Some action).

Definition snapshot_events (snap : snapshot) : list Event :=
  state_event snap :: match sn_action snap with Some action => [action_event action] | None => [] end.

Definition buildRecording (f : Flow) (obs : observation) : Recording :=
  let events := o_snapshots obs ≫= snapshot_events in
  MkRecording schemaVersion "" "" "" (f_name f) (terminalState f) (MkResult false []) "" (summarize events) events "".

Definition set_result (r : Result) (rec : Recording) : Recording :=
  MkRecording (rec_SchemaVersion rec) (rec_Operator rec) (rec_Version rec) (rec_KartaName rec) (rec_Flow rec)
    (rec_Want rec) r (rec_KartaFile rec) (rec_Summary rec) (rec_Events rec) (rec_Path rec).

(** The retries until the deadline: the answers of the cluster, in order; an
    answer [NotFound] counts as deleted. *)
Fixpoint deleteWorkload (IsNotFound : error → bool) (answer : option error) (answers : list (option error)) : option error :=
  match answer with
  | None => None
  | Some err =>
      if IsNotFound err then None
      else match answers with
           | [] => Some err
           | answer :: answers => deleteWorkload IsNotFound answer answers
           end
  end.

(** The outcome of the watched part of a run. *)
Definition judged (f : Flow) (obs : observation) : Recording * option error :=
  let out := buildRecording f obs in
  match o_failure obs with
  | Some failure => (set_result (MkResult false [failure]) out, Some failure)
  | None =>
      match validateObservedOrder (f_journey f) (states obs) (terminalState f) with
      | Some orderErr => (set_result (MkResult false [orderErr]) out, Some orderErr)
      | None => (set_result (MkResult true []) out, None)
      end
  end.

(** What the deferred cleanup makes of the outcome. *)
Definition cleaned (workload : object) (deleteErr : option error) (out : Recording * option error) :
    Recording * option error :=
  match deleteErr with
  | None => out
  | Some deleteErr =>
      let msg := Errorf "cleanup: delete %s/%s failed: %v"
                   [AStr (metadata_string workload "namespace"); AStr (metadata_string workload "name")] [deleteErr] in
      (set_result (MkResult false (res_Failures (rec_Result out.1) ++ [msg])) out.1,
       match out.2 with Some err => Some err | None => Some msg end)
  end.

(** The manifest, read, parsed and created in the namespace of the recorder *)
Context (createWorkload : result object) (IsNotFound : error → bool).

Definition Run (f : Flow) (deletion : option error) (retries : list (option error)) : option Recording * option error :=
  match f_journey f with
  | [] => (None, Some (Errorf "flow %s declares no steps" [AStr (f_name f)] []))
  | _ =>
      match createWorkload with
      | Fail createErr => (None, Some createErr)
      | Ok workload =>
          let (out, err) := cleaned workload (deleteWorkload IsNotFound deletion retries) (judged f (observe f workload)) in
          (Some out, err)
      end
  end.
End observing.

(** ** Saving *)

Record Fixture := MkFixture { fx_Operator : string; fx_Version : string; fx_KartaName : string; fx_KartaFile : string }.

Section saving.
Context (MkdirAll : string → option error) (Marshal : Recording → result string)
  (WriteFile : string → string → option error).

Definition writeRecording (path dir : string) (r : Recording) : result () :=
  _ ← map_error (λ err, Errorf "create dir for %s: %w" [AStr path] [err]) (err_result (MkdirAll dir));
  b ← map_error (λ err, Errorf "marshal recording %s: %w" [AStr path] [err]) (Marshal r);
  map_error (λ err, Errorf "write %s: %w" [AStr path] [err]) (err_result (WriteFile path b)).

(** The recording with the identity of the fixture *)
Definition stamp (outputDir : string) (fx : Fixture) (rec : Recording) : Recording :=
  let r path := MkRecording (rec_SchemaVersion rec) (fx_Operator fx) (fx_Version fx) (fx_KartaName fx) (rec_Flow rec)
    (rec_Want rec) (rec_Result rec) (fx_KartaFile fx) (rec_Summary rec) (rec_Events rec) path in
  r (recordingPath outputDir (r (rec_Path rec))).

Definition fixture_dir (outputDir : string) (fx : Fixture) : string :=
  outputDir +:+ "/" +:+ fx_Operator fx +:+ "/" +:+ fx_Version fx +:+ "/" +:+ fx_KartaName fx.

Definition Save (outputDir : string) (fx : Fixture) (rec : option Recording) : result string :=
  match rec with
  | None => Ok ""
  | Some rec =>
      if bool_decide (fx_Operator fx = "") || bool_decide (fx_Version fx = "") ||
         bool_decide (fx_KartaName fx = "") || bool_decide (fx_KartaFile fx = "")
      then Fail (Errorf "save %s: Fixture needs a non-empty Operator, Version, KartaName, and KartaFile" [AStr (rec_Flow rec)] [])
      else
        let rec := stamp outputDir fx rec in
        _ ← map_error (λ err, Errorf "write recording %s: %w" [AStr (rec_Path rec)] [err])
              (writeRecording (rec_Path rec) (fixture_dir outputDir fx) rec);
        Ok (rec_Path rec)
  end.
End saving.

(** ** The order check accepts the legal walks

    A walk visits the steps of the journey in order, leaving out any that are
    optional or whose state a step before them has already declared. *)
Inductive walk : list ResourceStatus → list journeyStep → list ResourceStatus → Prop :=
  | walk_done earlier : walk earlier [] []
  | walk_visit earlier step journey visits :
      walk (earlier ++ [js_State step]) journey visits →
      walk earlier (step :: journey) (js_State step :: visits)
  | walk_absent earlier step journey visits :
      js_Optional step = true ∨ js_State step ∈ earlier →
      walk (earlier ++ [js_State step]) journey visits →
      walk earlier (step :: journey) visits.

(** A first visit of a state that was declared before need not be made. *)
Lemma walk_unvisit earlier journey state visits :
  walk earlier journey (state :: visits) → state ∈ earlier → walk earlier journey visits.
Proof.
  remember (state :: visits) as all eqn:E. induction 1 as [|earlier step journey visits' Hw IH|earlier step journey visits' Ha Hw IH];
    intros Hin; [done| |].
  - injection E as <- <-. apply walk_absent; [by right|done].
  - apply walk_absent; [done|]. apply IH; [done|]. apply elem_of_app. by left.
Qed.

(** Matching each step with the next visit whenever it can finds a walk if
    there is one. *)
Lemma match_journey_walk earlier journey visits :
  match_journey earlier journey visits = inl [] ↔ walk earlier journey visits.
Proof.
  revert earlier visits. induction journey as [|step journey IH]; intros earlier visits; cbn [match_journey].
  { split; [intros [= ->]; constructor|by inversion 1]. }
  assert (Hskip : (if js_Optional step || bool_decide (js_State step ∈ earlier)
                   then match_journey (earlier ++ [js_State step]) journey visits else inr (js_State step)) = inl [] ↔
                  (js_Optional step = true ∨ js_State step ∈ earlier) ∧ walk (earlier ++ [js_State step]) journey visits).
  { rewrite <- IH. destruct (js_Optional step); cbn [orb]; [naive_solver|]. case_bool_decide; naive_solver. }
  destruct visits as [|visit visits].
  { rewrite Hskip. split; [intros []; by apply walk_absent|by inversion 1]. }
  destruct (decide (visit = js_State step)) as [Ev|Ev];
    [rewrite (bool_decide_eq_true_2 (visit = _)) by done|rewrite (bool_decide_eq_false_2 (visit = _)) by done].
  - rewrite IH. subst visit. split; [apply walk_visit|]. inversion 1 as [|? ? ? ? Hw|? ? ? ? _ Hw]; [done|].
    eapply walk_unvisit; [exact Hw|]. apply elem_of_app. right. by apply list_elem_of_singleton.
  - rewrite Hskip. split; [intros []; by apply walk_absent|]. inversion 1; [done|]. by split.
Qed.

(** Repetitions that follow each other, dropped. *)
Definition distinct_step {A} `{EqDecision A} (kept : list A) (x : A) : list A :=
  if bool_decide (last kept = Some x) then kept else kept ++ [x].

Lemma last_distinct_step {A} `{EqDecision A} (kept : list A) x : last (distinct_step kept x) = Some x.
Proof. unfold distinct_step. case_bool_decide; [done|]. apply last_snoc. Qed.

Lemma last_visitsOf observed : last (visitsOf observed) = last observed.
Proof.
  unfold visitsOf. induction observed as [|state observed _] using rev_ind; [done|].
  rewrite foldl_snoc, last_snoc. apply last_distinct_step.
Qed.

(** Adjacent elements differ. *)
Definition no_repeats {A} (l : list A) : Prop := ∀ i x y, l !! i = Some x → l !! S i = Some y → x ≠ y.

Lemma no_repeats_step {A} `{EqDecision A} (kept : list A) x : no_repeats kept → no_repeats (distinct_step kept x).
Proof.
  unfold distinct_step. intros Hk. case_bool_decide as E; [done|]. intros i a b Ha Hb.
  destruct (decide (S i = length kept)) as [Hi|Hi].
  - rewrite lookup_app_r, Hi, Nat.sub_diag in Hb by lia. injection Hb as <-.
    rewrite lookup_app_l in Ha by lia. intros <-. apply E. rewrite last_lookup, <- Hi. done.
  - assert (S i < length kept).
    { apply lookup_lt_Some in Hb. rewrite length_app in Hb. cbn in Hb. lia. }
    rewrite lookup_app_l in Ha, Hb by lia. by eapply Hk.
Qed.

Lemma no_repeats_foldl {A} `{EqDecision A} (l kept : list A) :
  no_repeats kept → no_repeats (foldl distinct_step kept l).
Proof. revert kept. induction l as [|x l IH]; intros kept Hk; [done|]. cbn. by apply IH, no_repeats_step. Qed.

Lemma validateObservedOrder_spec journey observed terminal :
  validateObservedOrder journey observed terminal = None ↔
  last observed = Some terminal ∧
  walk [] journey (visitsOf (filter (λ state, state ≠ UndefinedStatus) (visitsOf observed))).
Proof.
  unfold validateObservedOrder. rewrite <- match_journey_walk.
  destruct observed as [|state observed]; [by split; [|intros []]|].
  rewrite last_visitsOf. destruct (last (state :: observed)) as [lastVisit|] eqn:El; [|by apply last_None in El].
  change (default "" (Some lastVisit)) with lastVisit. destruct (decide (lastVisit = terminal)) as [->|Et].
  - rewrite bool_decide_eq_false_2 by (by intros []). destruct (match_journey _ _ _) as [[|]|]; naive_solver.
  - rewrite bool_decide_eq_true_2 by done. naive_solver.
Qed.

(** C40: The order check accepts exactly the observations that end in the
    expected terminal state and whose visits, with repetitions merged and
    frames nothing matched left out, are the steps of the journey in order but
    for steps that are optional or repeat a state declared before; that the
    check matches each step with the next visit as soon as it can loses no such
    walk. *)
Theorem validateObservedOrder_exact journey observed terminal :
  validateObservedOrder journey observed terminal = None ↔
  last observed = Some terminal ∧
  walk [] journey (visitsOf (filter (λ state, state ≠ UndefinedStatus) (visitsOf observed))).
Proof. apply validateObservedOrder_spec. Qed.

(** The journeys of the comment in the source: a dip that is declared may be
    missed, one that is not declared is refused. *)
Example validateObservedOrder_comment :
  let journey l := Reaches <$> l in
  validateObservedOrder (journey ["Initializing"; "Running"; "Initializing"; "Completed"])
    ["Initializing"; "Running"; "Running"; "Completed"] "Completed" = None ∧
  validateObservedOrder (journey ["Initializing"; "Running"; "Initializing"; "Completed"])
    ["Initializing"; "Undefined"; "Initializing"; "Running"; "Initializing"; "Completed"] "Completed" = None ∧
  validateObservedOrder (journey ["Initializing"; "Running"; "Completed"])
    ["Initializing"; "Running"; "Initializing"; "Completed"] "Completed" ≠ None ∧
  validateObservedOrder (journey ["Initializing"; "Running"; "Completed"])
    ["Running"; "Completed"; "Undefined"] "Completed" ≠ None.
Proof. vm_compute. done. Qed.

(** ** What a run has recorded *)

Section runs.
Context (Unmarshal_payload : string → result (option object)).
Context (RESTMapping : object → result ()) (Watch : string → result (list watch_event)).
Context (f : Flow) (workload : object).

(** The objects the watch has delivered, with the answers to a patch. *)
Definition frames_of (events : list watch_event) : list (object * option error) :=
  omap (λ e, match e with WatchObject cr patched => Some (cr, patched) | _ => None end) events.

(** The contents of the snapshots that were kept *)
Definition contents (o : observation) : list object := stripVolatileFields ∘ sn_cr <$> o_snapshots o.

(** A snapshot says of its object what the states of the flow say of it. *)
Definition snapshot_judged (s : snapshot) : Prop :=
  sn_phases s = judge (sn_cr s) (f_states f) ∧ sn_state s = Strongest (sn_phases s) ∧
  sn_stale s = negb (hasObservedCurrentGeneration (sn_cr s)).

Record tracking (o : observation) : Prop := MkTracking {
  tr_last : o_lastSig o = last (contents o);
  tr_judged : Forall snapshot_judged (o_snapshots o);
}.

(** The steps were reached one after the other at objects of their state that
    pass their gate and whose spec was observed, and what they do was accepted. *)
Inductive acted : list journeyStep → list (object * option error) → Prop :=
  | acted_nil frames : acted [] frames
  | acted_skip steps frame frames : acted steps frames → acted steps (frame :: frames)
  | acted_step step steps cr patched frames :
      reached step (Strongest (judge cr (f_states f))) cr = true →
      hasObservedCurrentGeneration cr = true →
      (is_Some (js_Action step) → patched = None) →
      acted steps frames → acted (step :: steps) ((cr, patched) :: frames).

Lemma keep_spec cr observed o :
  observed = hasObservedCurrentGeneration cr → tracking o →
  let o' := keep cr (judge cr (f_states f)) observed o in
  tracking o' ∧ contents o' = distinct_step (contents o) (stripVolatileFields cr) ∧
  o_pending o' = o_pending o ∧ o_failure o' = o_failure o.
Proof.
  intros -> [Hl Hj]. unfold keep, distinct_step. rewrite Hl. cbv zeta.
  case_bool_decide as E; [done|]. cbn. unfold contents. cbn. rewrite fmap_app. cbn.
  split_and!; [|done..]. split; cbn.
  - unfold contents. cbn. rewrite fmap_app. symmetry. apply last_snoc.
  - apply Forall_app. split; [done|]. by constructor; [split_and!|constructor].
Qed.

Lemma recordAction_spec action o :
  tracking o → tracking (recordAction action o) ∧ contents (recordAction action o) = contents o ∧
  o_pending (recordAction action o) = o_pending o ∧ o_failure (recordAction action o) = o_failure o.
Proof.
  intros [Hl Hj]. unfold recordAction. destruct (last (o_snapshots o)) as [s|] eqn:E; [|done].
  apply last_Some in E as [ss E]. unfold set_snapshots, contents in *. rewrite E in *. cbn.
  rewrite length_app. cbn. rewrite Nat.add_sub, take_app_length. rewrite !fmap_app. cbn. split; [|done].
  apply Forall_app in Hj as [Hss Hs]. rewrite Forall_singleton in Hs. split; cbn.
  - rewrite Hl. unfold contents. cbn. rewrite !fmap_app. etrans; [apply last_snoc|symmetry; apply last_snoc].
  - apply Forall_app. split; [done|]. by apply Forall_singleton.
Qed.

Lemma advanceStep_spec state cr patched o err o' :
  advanceStep Unmarshal_payload workload state cr patched o = (err, o') → tracking o →
  tracking o' ∧ contents o' = contents o ∧ o_failure o' = o_failure o ∧
  (err = None → o_pending o' = o_pending o ∨
     ∃ step, o_pending o = step :: o_pending o' ∧ reached step state cr = true ∧ (is_Some (js_Action step) → patched = None)).
Proof.
  unfold advanceStep. intros E Ht. destruct (o_pending o) as [|step pending] eqn:Ep.
  { injection E as <- <-. split_and!; [done..|]. intros _. by left. }
  destruct (reached step state cr) eqn:Er; [|injection E as <- <-; split_and!; [done..|]; intros _; by left].
  destruct (js_Action step) as [action|] eqn:Ea.
  - destruct (performAction Unmarshal_payload workload action patched) as [ra|e] eqn:Ef; injection E as <- <-; [|done].
    destruct (recordAction_spec ra o Ht) as ([Hl Hj] & Hc & _ & Hf). split_and!; [by split|done..|].
    intros _. right. exists step. cbn. split_and!; [done..|]. intros _. unfold performAction in Ef. by destruct patched.
  - injection E as <- <-. destruct Ht as [Hl Hj]. split_and!; [by split|done..|]. intros _. right. exists step. cbn.
    split_and!; [done..|]. rewrite Ea. by intros [].
Qed.

Lemma acted_pending steps steps' state cr patched frames :
  state = Strongest (judge cr (f_states f)) → hasObservedCurrentGeneration cr = true →
  (steps' = steps ∨ ∃ step, steps = step :: steps' ∧ reached step state cr = true ∧ (is_Some (js_Action step) → patched = None)) →
  acted steps' frames → acted steps ((cr, patched) :: frames).
Proof.
  intros -> Ho [->|(step & -> & Hr & Hp)] Ha; [by apply acted_skip|by apply acted_step].
Qed.

Lemma record_spec cr patched o stop o' :
  record Unmarshal_payload f workload cr patched o = (stop, o') → tracking o → o_failure o = None →
  tracking o' ∧ contents o' = distinct_step (contents o) (stripVolatileFields cr) ∧
  (stop = false → o_failure o' = None) ∧
  (o_failure o' = None → (∀ frames, acted (o_pending o') frames → acted (o_pending o) ((cr, patched) :: frames)) ∧
     (stop = true → o_pending o' = [])).
Proof.
  unfold record. intros E [Hl Hj] Hf.
  set (o1 := MkObservation _ _ _ _ _) in E. assert (Ht1 : tracking o1) by (by split).
  destruct (keep_spec cr _ o1 eq_refl Ht1) as (Ht2 & Hc2 & Hp2 & Hf2).
  set (o2 := keep cr _ _ o1) in *. change (contents o1) with (contents o) in Hc2.
  change (o_pending o1) with (o_pending o) in Hp2. change (o_failure o1) with (o_failure o) in Hf2. rewrite Hf in Hf2.
  destruct (hasObservedCurrentGeneration cr) eqn:Ho; cbn [negb] in E.
  - destruct (advanceStep _ _ _ _ _ o2) as [[err|] o3] eqn:Ea; injection E as <- <-;
      apply advanceStep_spec in Ea as (Ht3 & Hc3 & Hf3 & Hp3); try done; rewrite Hf2 in Hf3.
    + destruct Ht3 as [Hl3 Hj3]. split_and!; [by split|by rewrite <- Hc2, <- Hc3|done|done].
    + split_and!; [done|by rewrite Hc3|by intros _|]. intros _. rewrite <- Hp2. split.
      * intros frames. by eapply acted_pending; [|done|apply Hp3].
      * unfold hasReachedTerminal. rewrite andb_true_iff, bool_decide_eq_true, bool_decide_eq_true.
        intros [_ Hn]. by apply length_zero_iff_nil.
  - injection E as <- <-. split_and!; [done..|]. intros _. split; [|done]. intros frames. rewrite Hp2. apply acted_skip.
Qed.

(** Of the objects delivered up to the end of the watch every distinct one is
    kept, in order; if nothing failed, all action steps were reached. *)
Lemma watch_loop_spec events lastWatchErr o :
  tracking o → o_failure o = None →
  let o' := watch_loop Unmarshal_payload f workload events lastWatchErr o in
  ∃ n, let frames := frames_of (take n events) in
    tracking o' ∧ contents o' = foldl distinct_step (contents o) (stripVolatileFields ∘ fst <$> frames) ∧
    (o_failure o' = None → acted (o_pending o) frames ∧ o_pending o' = []).
Proof.
  cbv zeta. revert lastWatchErr o. induction events as [|event events IH]; intros lastWatchErr o Ht Hf; cbn [watch_loop].
  { exists 0. cbn. destruct Ht as [Hl Hj]. by split_and!; [split| |]. }
  destruct event as [status|cr patched|type|]; [| |exists 0; destruct Ht as [Hl Hj]; by split_and!; [split| |]..].
  - destruct (IH (Some status) o Ht Hf) as [n Hn]. by exists (S n).
  - destruct (record _ f workload cr patched o) as [stop o1] eqn:E.
    destruct (record_spec _ _ _ _ _ E Ht Hf) as (Ht1 & Hc1 & Hrun & Hok). destruct stop.
    + exists 1. cbn. split_and!; [done|done|]. intros Hf1. destruct (Hok Hf1) as [Ha Hp]. split; [|by apply Hp].
      apply Ha. rewrite Hp by done. constructor.
    + destruct (IH lastWatchErr o1 Ht1 (Hrun eq_refl)) as (n & Htn & Hcn & Hdone). exists (S n). cbn.
      split_and!; [done|by rewrite Hcn, Hc1|]. intros Hfn. destruct (Hdone Hfn) as [Ha Hp]. split; [|done].
      apply Hok; [by apply Hrun|done].
Qed.
End runs.

(** ** Recordings are read back as they were built *)

Lemma filter_state_events snaps :
  filter (λ e, is_state e = true) (snaps ≫= snapshot_events) = state_event <$> snaps.
Proof.
  induction snaps as [|snap snaps IH]; [done|]. rewrite bind_cons, filter_app, IH. cbn.
  by destruct (sn_action snap).
Qed.

Lemma read_all_from (l : list Event) rec k fuel :
  k ≤ length l → length l - k < fuel → read_all fuel (MkReader rec l k) = Some <$> drop k l.
Proof.
  revert k. induction fuel as [|fuel IH]; intros k Hk Hf; [lia|]. cbn [read_all].
  unfold Next. cbn. case_bool_decide as E.
  - destruct (lookup_lt_is_Some_2 l k E) as [e He]. rewrite (drop_S l e k He). cbn. rewrite He. f_equal. apply IH; lia.
  - by rewrite drop_ge by lia.
Qed.

(** The loop over a reader ends and sees exactly the state events, in order. *)
Theorem read_all_states rec :
  read_all (S (length (rec_Events rec))) (newReader rec) = Some <$> filter (λ e, is_state e = true) (rec_Events rec).
Proof.
  unfold newReader. rewrite read_all_from; [by rewrite drop_0|lia|].
  pose proof (length_filter (λ e, is_state e = true) (rec_Events rec)). lia.
Qed.

(** The phases a summary stands for *)
Definition expand (summary : list SummaryEntry) : list (list ResourceStatus) :=
  summary ≫= λ entry, replicate (se_Amount entry) (se_Phases entry).

(** A summary is the run-length code of the phases of the state events: it
    expands to them, no leg is empty, and adjacent legs differ. *)
Theorem summarize_exact events :
  expand (summarize events) = ev_Phases <$> filter (λ e, is_state e = true) events ∧
  Forall (λ entry, 1 ≤ se_Amount entry) (summarize events) ∧
  no_repeats (se_Phases <$> summarize events).
Proof.
  unfold summarize. induction events as [|e events (IHe & IHa & IHn)] using rev_ind.
  { split_and!; [done|constructor|]. by intros i x y Hx. }
  rewrite foldl_snoc, filter_app, fmap_app, <- IHe. set (out := foldl summarize_step [] events) in *.
  unfold summarize_step. destruct (is_state e) eqn:Es; cbn [negb].
  2: { rewrite filter_cons_False by congruence. cbn. by rewrite app_nil_r. }
  rewrite filter_cons_True by done. cbn [fmap list_fmap filter list_filter].
  assert (Hnew : last out = None ∨ (∃ entry, last out = Some entry ∧ se_Phases entry ≠ ev_Phases e) →
    expand (out ++ [MkSummaryEntry (ev_Phases e) 1]) = expand out ++ [ev_Phases e] ∧
    Forall (λ entry, 1 ≤ se_Amount entry) (out ++ [MkSummaryEntry (ev_Phases e) 1]) ∧
    no_repeats (se_Phases <$> out ++ [MkSummaryEntry (ev_Phases e) 1])).
  { intros Hlast. split_and!.
    - unfold expand. by rewrite bind_app.
    - apply Forall_app. split; [done|]. apply Forall_singleton. cbn. lia.
    - rewrite fmap_app. replace ((se_Phases <$> out) ++ _) with (distinct_step (se_Phases <$> out) (ev_Phases e)); [by apply no_repeats_step|].
      unfold distinct_step. rewrite bool_decide_eq_false_2; [done|]. rewrite fmap_last.
      destruct Hlast as [->|(entry & -> & Hne)]; [done|]. by intros [= ?]. }
  destruct (last out) as [entry|] eqn:El; [|by apply Hnew; left].
  case_bool_decide as Ep; [|apply Hnew; right; by exists entry].
  clear Hnew. apply last_Some in El as [out' E]. rewrite E in *. rewrite length_app. cbn. rewrite Nat.add_sub, take_app_length.
  split_and!.
  - unfold expand. rewrite !bind_app. cbn. rewrite !app_nil_r, <- app_assoc, <- Ep. by rewrite <- replicate_S_end.
  - apply Forall_app in IHa as [IHa IHe']. apply Forall_app. split; [done|]. apply Forall_singleton. cbn. lia.
  - by rewrite fmap_app in *.
Qed.

(** The state events of a recording whose spec the controller had observed *)
Definition walked (rec : Recording) : list ResourceStatus :=
  ev_State <$> filter (λ e, is_state e = true ∧ ev_StaleObservedGeneration e = false) (rec_Events rec).

Lemma walked_states snaps :
  ev_State <$> filter (λ e, is_state e = true ∧ ev_StaleObservedGeneration e = false) (snaps ≫= snapshot_events) =
  sn_state <$> filter (λ s, sn_stale s = false) snaps.
Proof.
  induction snaps as [|snap snaps IH]; [done|]. rewrite bind_cons, filter_app, fmap_app, IH.
  rewrite (filter_cons _ snap). unfold snapshot_events. rewrite filter_cons. cbn.
  destruct (sn_action snap); destruct (sn_stale snap); done.
Qed.

Section successes.
Context (Unmarshal_payload : string → result (option object)).
Context (RESTMapping : object → result ()) (Watch : string → result (list watch_event)).
Context (createWorkload : result object) (IsNotFound : error → bool).
Context (f : Flow).
Abbreviation Run := (Run Unmarshal_payload RESTMapping Watch createWorkload IsNotFound f).

(** What was seen of the workload: the answer to its creation alone, or what
    the watch delivered. *)
Definition seen (workload : object) (frames : list (object * option error)) : Prop :=
  frames = [(workload, None)] ∨
  ∃ events n, startWatch RESTMapping Watch workload = Ok events ∧ frames = frames_of (take n events).

Lemma observe_spec workload :
  let o := observe Unmarshal_payload RESTMapping Watch f workload in
  o_failure o = None →
  ∃ frames, seen workload frames ∧ Forall (snapshot_judged f) (o_snapshots o) ∧
    contents o = foldl distinct_step [] (stripVolatileFields ∘ fst <$> frames) ∧
    acted f (actionSteps (f_journey f)) frames.
Proof.
  cbv zeta. unfold observe. set (o := MkObservation _ _ _ _ _).
  assert (Ht : tracking f o) by (by split; [|constructor]).
  destruct (hasObservedCurrentGeneration workload && _) eqn:E.
  - destruct (record _ f workload workload None o) as [stop o'] eqn:Er.
    destruct (record_spec _ _ _ _ _ _ _ _ Er Ht eq_refl) as ([_ Hj] & Hc & _ & Hok).
    intros Hf. destruct (Hok Hf) as [Ha _]. exists [(workload, None)]. split_and!; [by left|exact Hj|exact Hc|].
    apply andb_true_iff in E as [_ [_ E%bool_decide_eq_true]%andb_true_iff].
    apply length_zero_iff_nil in E. change (acted f (o_pending o) [(workload, None)]). rewrite E. constructor.
  - unfold watchAndAct. destruct (startWatch RESTMapping Watch workload) as [events|] eqn:Es; [|done].
    destruct (watch_loop_spec Unmarshal_payload f workload events None o Ht eq_refl) as (n & [_ Hj] & Hc & Hok).
    intros Hf. destruct (Hok Hf) as [Ha _]. exists (frames_of (take n events)).
    split_and!; [right; by exists events, n|done|done|done].
Qed.

(** A run succeeds when, and only when, its recording says so.  The
    recording then holds every distinct object that was seen, in order, each with
    the states it matches; what the controller had observed walks the declared
    journey to its terminal; every action was performed, in order, at an object
    of the state of its step that passes its gate; and the workload is gone. *)
Theorem Run_succeeds deletion retries rec err :
  Run deletion retries = (Some rec, err) →
  (rec_Result rec = MkResult true [] ∨ res_Succeeded (rec_Result rec) = false ∧ res_Failures (rec_Result rec) ≠ []) ∧
  (err = None ↔ res_Succeeded (rec_Result rec) = true) ∧
  (err = None → ∃ workload frames,
     createWorkload = Ok workload ∧ seen workload frames ∧
     (∃ snaps, rec_Events rec = snaps ≫= snapshot_events ∧ Forall (snapshot_judged f) snaps ∧
        stripVolatileFields ∘ sn_cr <$> snaps = foldl distinct_step [] (stripVolatileFields ∘ fst <$> frames)) ∧
     last (walked rec) = Some (terminalState f) ∧
     walk [] (f_journey f) (visitsOf (filter (λ state, state ≠ UndefinedStatus) (visitsOf (walked rec)))) ∧
     acted f (actionSteps (f_journey f)) frames ∧
     deleteWorkload IsNotFound deletion retries = None).
Proof.
  unfold Recorder.Run. destruct (f_journey f) as [|step journey] eqn:Ej; [done|]. rewrite <- Ej.
  destruct createWorkload as [workload|] eqn:Ew; [|done].
  destruct (cleaned _ _ _) as [out e] eqn:Ec. intros [= <- <-].
  unfold cleaned in Ec. destruct (deleteWorkload _ _ _) as [derr|] eqn:Ed.
  { injection Ec as <- <-. cbn. split_and!.
    - right. split; [done|]. by destruct (res_Failures _).
    - split; [|done]. by destruct (judged _ _).2.
    - by destruct (judged _ _).2. }
  unfold judged in Ec. pose proof (observe_spec workload) as Hobs. cbv zeta in Hobs.
  set (o := observe _ _ _ f workload) in *. destruct (o_failure o) as [failure|].
  { injection Ec as <- <-. cbn. split_and!; [by right|done|done]. }
  destruct (validateObservedOrder _ _ _) as [oerr|] eqn:Ev; injection Ec as <- <-; cbn; [by split_and!; [right| |]|].
  split_and!; [by left|done|]. intros _. destruct (Hobs eq_refl) as (frames & Hseen & Hj & Hc & Ha).
  apply validateObservedOrder_spec in Ev as [Hlast Hw]. exists workload, frames.
  unfold walked. cbn. rewrite walked_states. split_and!; try done. by exists (o_snapshots o).
Qed.
End successes.

(** ** A small flow *)

Definition replicas_ready (n : Z) : StateCheck :=
  λ cr, bool_decide (NestedInt64 ["status"; "ready"] (JObject cr) = Some n).

Definition sample_states : list namedState :=
  [MkState "Initializing" (λ _, true); MkState "Running" (λ cr, bool_decide (is_Some (NestedInt64 ["status"; "ready"] (JObject cr))))].

Definition sample_cr (version : string) (generation : Z) (ready : option Z) : object :=
  <["metadata" := JObject {["namespace" := JString "flows"; "name" := JString "web"; "resourceVersion" := JString version;
                            "generation" := JNumber (NInt generation)]}]>
    (from_option (λ z, {["status" := JObject {["ready" := JNumber (NInt z); "observedGeneration" := JNumber (NInt 1)]}]}) ∅ ready).

Definition sample_action (text : string) : Action := MkAction ActionScale text.

Definition sample_run (journey : list journeyStep) (events : list watch_event) : option Recording * option error :=
  Run (λ _, Ok (Some ∅)) (λ _, Ok ()) (λ _, Ok events) (Ok (sample_cr "1" 1 None)) (λ _, false)
    (MkFlow "scaled" sample_states journey) None [].

Definition sample_journey : list journeyStep :=
  [Do (With (Reaches "Running") (replicas_ready 1)) (sample_action "scale"); With (Reaches "Running") (replicas_ready 3)].

Definition sample_events : list watch_event :=
  [WatchObject (sample_cr "2" 1 None) None; WatchObject (sample_cr "3" 1 (Some 1%Z)) None;
   WatchObject (sample_cr "4" 1 (Some 1%Z)) None; WatchObject (sample_cr "5" 2 (Some 1%Z)) None;
   WatchError (External "too old"); WatchObject (sample_cr "6" 1 (Some 3%Z)) None].

Definition sample_flow : list journeyStep := Optional (Reaches "Initializing") :: sample_journey.

Definition sample_recording : option Recording := (sample_run sample_flow sample_events).1.

(** The repeated object is not kept, the one whose new spec was not observed is
    kept but not walked. *)
Example sample_recorded :
  (λ rec, (ev_Kind <$> rec_Events rec, walked rec, se_Amount <$> rec_Summary rec)) <$> sample_recording =
  Some (["STATE"; "STATE"; "ACTION"; "STATE"; "STATE"], ["Initializing"; "Running"; "Running"], [1; 3]).
Proof. vm_compute. done. Qed.

(** Two steps reached at one object: both actions are sent, the first is not in
    the recording. *)
Example lost_action :
  let journey := [Do (Reaches "Running") (sample_action "up"); Do (Reaches "Running") (MkAction ActionSuspend "stop")] in
  let run := sample_run journey [WatchObject (sample_cr "2" 1 (Some 1%Z)) None; WatchObject (sample_cr "3" 1 (Some 1%Z)) None] in
  run.2 = None ∧
  (λ rec, omap (λ e, ra_Name <$> ev_Action e) (rec_Events rec)) <$> run.1 = Some ["Suspend"].
Proof. vm_compute. done. Qed.

(** The flow above, as the theorem describes it. *)
Lemma Run_succeeds_witness :
  ∃ rec, sample_run sample_flow sample_events = (Some rec, None) ∧ rec_Result rec = MkResult true [] ∧
    ∃ workload frames, seen (λ _, Ok ()) (λ _, Ok sample_events) workload frames ∧
      acted (MkFlow "scaled" sample_states sample_flow) (actionSteps sample_flow) frames.
Proof.
  destruct (sample_run sample_flow sample_events) as [o err] eqn:E.
  assert (Hs : err = None) by (change (snd (o, err) = None); rewrite <- E; vm_compute; reflexivity).
  assert (Ho : is_Some o) by (change (is_Some (fst (o, err))); rewrite <- E; vm_compute; by eexists).
  subst err. destruct Ho as [rec ->]. exists rec. split; [done|].
  destruct (Run_succeeds _ _ _ _ _ _ _ _ _ _ E) as (Hr & He & Hok).
  destruct (Hok eq_refl) as (workload & frames & _ & Hseen & _ & _ & _ & Ha & _). split.
  - destruct Hr as [Hr|[Hr _]]; [done|]. destruct He as [He _]. by rewrite (He eq_refl) in Hr.
  - exists workload, frames. split; [exact Hseen|exact Ha].
Defined.
