(* ===== verification/OperatorProcess.v ===== *)
(** * OperatorProcess: the life of the operator

    Models [operator/pkg/cert.go] and [operator/cmd/main.go]: the namespace, the
    certificates the webhook needs before it serves, the flags, and the start of
    the manager.  [BootstrapCerts] is two goroutines, the caller and the one that
    runs a throwaway manager; a step moves one of them.  The manager, the rotator
    and logging belong to libraries: when the manager may return is its contract,
    what a call answers is a parameter. *)

From S2P Require Import Prelude Text Flag Literal ExporterProcess.

(** ** Certificates ([cert.go]) *)

Definition CertModeAuto : string := "auto".
Definition CertModeManual : string := "manual".
Definition ValidCertMode (s : string) : bool := bool_decide (s = CertModeAuto) || bool_decide (s = CertModeManual).

Definition certCAName : string := "karta-ca".
Definition certCAOrganization : string := "karta".

Record CertOptions := MkCertOptions {
  co_Namespace : string;
  co_CertDir : string;
  co_SecretName : string;
  co_ServiceName : string;
  co_MutatingWebhookName : string;
  co_ValidatingWebhookName : string;
}.

(** [file] is the namespace of the service account, if it can be read. *)
Definition ResolveNamespace (override : string) (file : option string) : result string :=
  let ns := TrimSpace override in
  if bool_decide (ns ≠ "") then Ok ns
  else
    let ns := TrimSpace (default "" file) in
    if bool_decide (is_Some file) && bool_decide (ns ≠ "") then Ok ns
    else Fail (External "cannot determine operator namespace; set --webhook-namespace").

Inductive WebhookType := Mutating | Validating.

(** The fields of the rotator that are set. *)
Record CertRotator := MkCertRotator {
  cr_SecretKey : string * string;
  cr_CertDir : string;
  cr_CAName : string;
  cr_CAOrganization : string;
  cr_DNSName : string;
  cr_ExtraDNSNames : list string;
  cr_RequireLeaderElection : bool;
  cr_ControllerName : string;
  cr_Webhooks : list (WebhookType * string);
}.

Definition newCertRotator (opts : CertOptions) (controllerName : string) : CertRotator :=
  let svcDNS := co_ServiceName opts +:+ "." +:+ co_Namespace opts +:+ ".svc" in
  MkCertRotator (co_Namespace opts, co_SecretName opts) (co_CertDir opts) certCAName certCAOrganization
    svcDNS [svcDNS +:+ ".cluster.local"] true controllerName
    [(Mutating, co_MutatingWebhookName opts); (Validating, co_ValidatingWebhookName opts)].

(** *** The bootstrap *)

Inductive caller_pc := B_Select | B_Join | B_Done (err : option error).

(** The goroutine that starts the manager, and what it sends. *)
Inductive manager_pc := G_Run | G_Sent (err : option error).

(** [b_ctx] and [b_mgr_ctx] are the answers of [Err] of the context with the
    timeout and of the one derived for the manager; [b_exited] is the buffer of
    the channel, [b_ready] whether the other channel is closed. *)
Record boot := MkBoot {
  b_pc : caller_pc;
  b_mgr : manager_pc;
  b_exited : option (option error);
  b_ready : bool;
  b_ctx : option error;
  b_mgr_ctx : option error;
}.

Definition exited_error (err ctx_err : option error) : error :=
  Errorf "bootstrap manager exited before cert was ready: %w" [] (option_list (or_err err ctx_err)).

(** When the manager may return, given the answer of its context: it can once
    that is done. *)
Class BootManager := { run_manager : option error → option error → Prop }.
Class BootManagerLaws `{BootManager} : Prop := { run_manager_done e : ∃ err, run_manager (Some e) err }.

Section bootstrap.
Context `{BootManager}.

(** A return runs the deferred [stopMgr] and [cancel]. *)
Definition returning (err : option error) (exited : option (option error)) (s : boot) : boot :=
  MkBoot (B_Done err) (b_mgr s) exited (b_ready s) (or_err (b_ctx s) (Some Canceled)) (or_err (b_mgr_ctx s) (Some Canceled)).

Inductive boot_step (s : boot) : boot → Prop :=
  | boot_deadline e :
      b_ctx s = None →
      boot_step s (MkBoot (b_pc s) (b_mgr s) (b_exited s) (b_ready s) (Some e) (or_err (b_mgr_ctx s) (Some e)))
  | boot_cert_ready :
      b_mgr s = G_Run → b_ready s = false →
      boot_step s (MkBoot (b_pc s) (b_mgr s) (b_exited s) true (b_ctx s) (b_mgr_ctx s))
  | boot_exit err :
      b_mgr s = G_Run → run_manager (b_mgr_ctx s) err →
      boot_step s (MkBoot (b_pc s) (G_Sent err) (Some err) (b_ready s) (b_ctx s) (b_mgr_ctx s))
  | boot_select_ready :
      b_pc s = B_Select → b_ready s = true →
      boot_step s (MkBoot B_Join (b_mgr s) (b_exited s) (b_ready s) (b_ctx s) (or_err (b_mgr_ctx s) (Some Canceled)))
  | boot_select_exited err :
      b_pc s = B_Select → b_exited s = Some err →
      boot_step s (returning (Some (exited_error err (b_ctx s))) None s)
  | boot_select_ctx e :
      b_pc s = B_Select → b_ctx s = Some e →
      boot_step s (returning (Some (Errorf "timed out waiting for webhook cert: %w" [] [e])) (b_exited s) s)
  | boot_join err :
      b_pc s = B_Join → b_exited s = Some err →
      boot_step s (returning ((λ e, Errorf "stop bootstrap manager: %w" [] [e]) <$> err) None s).

Definition boot_start (ctx : option error) : boot := MkBoot B_Select G_Run None false ctx ctx.

(** [BootstrapCerts] up to the wait: the manager and the rotator are made. *)
Definition BootstrapCerts (NewManager AddRotator : option error) (ctx : option error) : option error + boot :=
  match NewManager with
  | Some err => inl (Some (Errorf "create bootstrap manager: %w" [] [err]))
  | None =>
      match AddRotator with
      | Some err => inl (Some (Errorf "add bootstrap cert rotator: %w" [] [err]))
      | None => inr (boot_start ctx)
      end
  end.

Inductive bootstrapping : boot → Prop :=
  | bootstrapping_start ctx : bootstrapping (boot_start ctx)
  | bootstrapping_step s s' : bootstrapping s → boot_step s s' → bootstrapping s'.

(** ** What the bootstrap guarantees *)

Record boot_inv (s : boot) : Prop := MkBootInv {
  bi_sent : match b_mgr s with
            | G_Run => b_exited s = None
            | G_Sent err => b_exited s = Some err ∨ (b_exited s = None ∧ ∃ r, b_pc s = B_Done r)
            end;
  bi_stopped : b_pc s ≠ B_Select → is_Some (b_mgr_ctx s);
  bi_ctx : is_Some (b_ctx s) → is_Some (b_mgr_ctx s);
  bi_joining : b_pc s = B_Join → b_ready s = true;
  bi_done : b_pc s = B_Done None → b_ready s = true ∧ b_mgr s = G_Sent None;
}.

Lemma or_err_is_Some a e : is_Some (or_err a (Some e)).
Proof. by destruct a. Qed.
Hint Resolve or_err_is_Some : core.

Lemma boot_inv_start ctx : boot_inv (boot_start ctx).
Proof. by split; cbn. Qed.

Lemma boot_inv_step s s' : boot_inv s → boot_step s s' → boot_inv s'.
Proof.
  destruct s as [pc mgr exited ready ctx mctx]. intros [Hs Hst Hc Hj Hd]. cbn in *.
  inversion 1 as [e E|E1 E2|err E1 E2|E1 E2|err E1 E2|e E1 E2|err E1 E2]; cbn in *; subst; split; cbn; try done; try naive_solver.
  - destruct mgr; [done|]. destruct Hs as [?|(? & ? & ?)]; [by left|done].
  - destruct mgr; [done|]. right. eauto.
  - destruct mgr; [done|]. destruct Hs as [?|(? & ? & ?)]; [by left|done].
  - destruct mgr; [done|]. right. eauto.
  - destruct err; [done|]. intros _. split; [by apply Hj|]. destruct mgr; [done|]. by destruct Hs as [[= ->]|[? _]].
Qed.

Lemma bootstrapping_inv s : bootstrapping s → boot_inv s.
Proof. induction 1; [apply boot_inv_start|by eapply boot_inv_step]. Qed.

Definition boot_measure (s : boot) : nat :=
  match b_pc s with B_Select => 2 | B_Join => 1 | B_Done _ => 0 end +
  match b_mgr s with G_Run => 1 | G_Sent _ => 0 end +
  (if b_ready s then 0 else 1) + match b_ctx s with None => 1 | Some _ => 0 end.

Lemma boot_measure_step s s' : boot_step s s' → boot_measure s' < boot_measure s.
Proof.
  destruct s as [pc mgr exited ready ctx mctx]. unfold boot_measure.
  inversion 1; cbn in *; subst; cbn; try lia; by destruct ctx; cbn; lia.
Qed.

Lemma boot_progress `{!BootManagerLaws} s :
  boot_inv s → is_Some (b_ctx s) → (∀ err, b_pc s ≠ B_Done err) → ∃ s', boot_step s s'.
Proof.
  intros [Hs _ Hc _ _] Hctx Hpc. specialize (Hc Hctx). destruct (b_pc s) as [| |err] eqn:Ep; [| |by destruct (Hpc err)].
  - destruct Hctx as [e He]. eexists. by eapply boot_select_ctx.
  - destruct (b_mgr s) as [|err] eqn:Em.
    + destruct Hc as [e He]. destruct (run_manager_done e) as [err Herr]. eexists. eapply boot_exit; [done|]. by rewrite He.
    + destruct Hs as [Hs|[_ [r Hr]]]; [|done]. eexists. by eapply boot_join.
Qed.

(** C29: The certificates are reported to be in place only after the rotator
    said so and the throwaway manager, whose ports the real one needs, has
    returned without an error; however the bootstrap ends the manager's context
    is done; no run has more than five steps, and once the deadline has passed
    none is stuck before it has returned. *)
Theorem BootstrapCerts_settles `{!BootManagerLaws} ctx :
  (∀ s, rtc boot_step (boot_start ctx) s → ∀ err, b_pc s = B_Done err →
     is_Some (b_mgr_ctx s) ∧ (err = None → b_ready s = true ∧ b_mgr s = G_Sent None)) ∧
  (∀ n s, nsteps boot_step n (boot_start ctx) s → n ≤ 5) ∧
  (∀ s, rtc boot_step (boot_start ctx) s → is_Some (b_ctx s) →
     (∃ err, b_pc s = B_Done err) ∨ ∃ s', boot_step s s').
Proof.
  assert (Hinv : ∀ s, rtc boot_step (boot_start ctx) s → boot_inv s).
  { intros s Hs. apply bootstrapping_inv. 
    revert s Hs. apply rtc_ind_r; [constructor|]. intros s s' _ Hstep Hs. by eapply bootstrapping_step. }
  split_and!.
  - intros s [_ Hst _ _ Hd]%Hinv err Hpc. split; [apply Hst; by rewrite Hpc|]. intros ->. by apply Hd.
  - assert (Hm : ∀ n s s', nsteps boot_step n s s' → n + boot_measure s' ≤ boot_measure s).
    { intros n s s'. induction 1 as [|n s1 s2 s3 Hstep%boot_measure_step _ IH]; lia. }
    intros n s Hn%Hm. destruct ctx; cbn in Hn; lia.
  - intros s Hs Hctx. destruct (b_pc s) as [| |err] eqn:Ep; [right|right|by left; exists err];
      (apply boot_progress; [by apply Hinv|done|by rewrite Ep]).
Qed.
End bootstrap.

(** A manager that returns the error of its context, or none. *)
#[export] Instance sample_manager : BootManager := { run_manager ctx err := is_Some ctx ∧ err = None }.
#[export] Instance sample_manager_laws : BootManagerLaws.
Proof. split. intros e. exists None. by split. Qed.

Lemma BootstrapCerts_settles_witness :
  ∃ s, rtc boot_step (boot_start None) s ∧ b_pc s = B_Done None ∧ b_ready s = true ∧ b_mgr s = G_Sent None.
Proof.
  eexists. assert (Hs : rtc boot_step (boot_start None) (MkBoot (B_Done None) (G_Sent None) None true (Some Canceled) (Some Canceled))).
  { eapply rtc_l; [by apply boot_cert_ready|]. eapply rtc_l; [by apply boot_select_ready|].
    eapply rtc_l; [by apply (boot_exit _ None)|]. eapply rtc_l; [by apply (boot_join _ None)|]. apply rtc_refl. }
  split; [exact Hs|]. split; [done|]. exact (proj2 (proj1 (BootstrapCerts_settles None) _ Hs None eq_refl) eq_refl).
Defined.

(** ** The command ([cmd/main.go]) *)

Record webhookOptions := MkWebhookOptions {
  wo_enable : bool;
  wo_port : Z;
  wo_namespace : string;
  wo_certDir : string;
  wo_certMode : string;
  wo_certSecret : string;
  wo_serviceName : string;
  wo_mutatingName : string;
  wo_validatingName : string;
}.

Definition default_webhookOptions : webhookOptions :=
  MkWebhookOptions false 9443 "" "/tmp/k8s-webhook-server/serving-certs" CertModeAuto "karta-operator-webhook-cert"
    "karta-operator-webhook" "karta-operator-mutating" "karta-operator-validating".

#[export] Instance set_wo_enable : Settable wo_enable := λ v '(MkWebhookOptions _ b c d e f g h i), MkWebhookOptions v b c d e f g h i.
#[export] Instance set_wo_port : Settable wo_port := λ v '(MkWebhookOptions a _ c d e f g h i), MkWebhookOptions a v c d e f g h i.
#[export] Instance set_wo_namespace : Settable wo_namespace := λ v '(MkWebhookOptions a b _ d e f g h i), MkWebhookOptions a b v d e f g h i.
#[export] Instance set_wo_certDir : Settable wo_certDir := λ v '(MkWebhookOptions a b c _ e f g h i), MkWebhookOptions a b c v e f g h i.
#[export] Instance set_wo_certMode : Settable wo_certMode := λ v '(MkWebhookOptions a b c d _ f g h i), MkWebhookOptions a b c d v f g h i.
#[export] Instance set_wo_certSecret : Settable wo_certSecret := λ v '(MkWebhookOptions a b c d e _ g h i), MkWebhookOptions a b c d e v g h i.
#[export] Instance set_wo_serviceName : Settable wo_serviceName := λ v '(MkWebhookOptions a b c d e f _ h i), MkWebhookOptions a b c d e f v h i.
#[export] Instance set_wo_mutatingName : Settable wo_mutatingName := λ v '(MkWebhookOptions a b c d e f g _ i), MkWebhookOptions a b c d e f g v i.
#[export] Instance set_wo_validatingName : Settable wo_validatingName := λ v '(MkWebhookOptions a b c d e f g h _), MkWebhookOptions a b c d e f g h v.

(** The flags, with those of the logging library in [o_zap]. *)
Record options (Z' : Type) := MkOptions {
  o_metricsAddr : string;
  o_probeAddr : string;
  o_enableLeaderElection : bool;
  o_leaderElectionID : string;
  o_printVersion : bool;
  o_webhookOpts : webhookOptions;
  o_zap : Z';
}.
Arguments MkOptions {Z'}.
Arguments o_metricsAddr {Z'}.
Arguments o_probeAddr {Z'}.
Arguments o_enableLeaderElection {Z'}.
Arguments o_leaderElectionID {Z'}.
Arguments o_printVersion {Z'}.
Arguments o_webhookOpts {Z'}.
Arguments o_zap {Z'}.

Definition certOptions (o : webhookOptions) : CertOptions :=
  MkCertOptions "" (wo_certDir o) (wo_certSecret o) (wo_serviceName o) (wo_mutatingName o) (wo_validatingName o).

Definition with_namespace (ns : string) (o : CertOptions) : CertOptions :=
  MkCertOptions ns (co_CertDir o) (co_SecretName o) (co_ServiceName o) (co_MutatingWebhookName o) (co_ValidatingWebhookName o).

(** What [ctrl.Options] is given; every manager trims the CRDs it caches. *)
Record ManagerOptions := MkManagerOptions {
  mo_metricsAddr : string;
  mo_probeAddr : string;
  mo_LeaderElection : bool;
  mo_LeaderElectionID : string;
  mo_WebhookServer : option (Z * string);
}.

(** The calls that may fail, in the order of the text. *)
Inductive call :=
  | Bootstrap (certs : CertOptions)
  | NewManager (options : ManagerOptions)
  | ManageCerts (rotator : CertRotator)
  | SetupReconciler
  | SetupWebhook
  | AddHealthz
  | AddReadyz (webhook : bool)
  | StartManager.

Definition call_error (c : call) (err : error) : error :=
  Errorf match c with
         | Bootstrap _ => "bootstrap webhook certs: %w"
         | NewManager _ => "create manager: %w"
         | ManageCerts _ => "setup webhook cert rotation: %w"
         | SetupReconciler => "setup karta reconciler: %w"
         | SetupWebhook => "setup karta webhook: %w"
         | AddHealthz => "register healthz: %w"
         | AddReadyz _ => "register readyz: %w"
         | StartManager => "manager exited: %w"
         end [] [err].

Section command.
Context (ParseInt : string → result Z) {Z' : Type} (zap_default : Z') (zap_flags : list (string * flag Z')).

Definition default_options : options Z' :=
  MkOptions ":8080" ":8081" false "karta-operator.run.ai" false default_webhookOptions zap_default.

Definition on_webhook (f : webhookOptions → webhookOptions) (o : options Z') : options Z' :=
  MkOptions (o_metricsAddr o) (o_probeAddr o) (o_enableLeaderElection o) (o_leaderElectionID o) (o_printVersion o)
    (f (o_webhookOpts o)) (o_zap o).
Definition set_zap (z : Z') (o : options Z') : options Z' :=
  MkOptions (o_metricsAddr o) (o_probeAddr o) (o_enableLeaderElection o) (o_leaderElectionID o) (o_printVersion o)
    (o_webhookOpts o) z.

Definition on_zap (f : flag Z') : flag (options Z') :=
  match f with
  | BoolFlag set => BoolFlag (λ b o, set_zap (set b (o_zap o)) o)
  | ValueFlag set => ValueFlag (λ v o, (λ z, set_zap z o) <$> set v (o_zap o))
  end.

Definition bindFlags : list (string * flag (options Z')) :=
  [("enable-webhook", BoolFlag (λ b, on_webhook (assign wo_enable b)));
   ("webhook-port", ValueFlag (λ v o, (λ n, on_webhook (assign wo_port n) o) <$> ParseInt v));
   ("webhook-namespace", StringFlag (λ v, on_webhook (assign wo_namespace v)));
   ("webhook-cert-dir", StringFlag (λ v, on_webhook (assign wo_certDir v)));
   ("webhook-cert-mode", StringFlag (λ v, on_webhook (assign wo_certMode v)));
   ("webhook-cert-secret", StringFlag (λ v, on_webhook (assign wo_certSecret v)));
   ("webhook-service-name", StringFlag (λ v, on_webhook (assign wo_serviceName v)));
   ("mutating-webhook-name", StringFlag (λ v, on_webhook (assign wo_mutatingName v)));
   ("validating-webhook-name", StringFlag (λ v, on_webhook (assign wo_validatingName v)))].

Definition flags : list (string * flag (options Z')) :=
  [("metrics-bind-address", StringFlag (λ v o, MkOptions v (o_probeAddr o) (o_enableLeaderElection o) (o_leaderElectionID o) (o_printVersion o) (o_webhookOpts o) (o_zap o)));
   ("health-probe-bind-address", StringFlag (λ v o, MkOptions (o_metricsAddr o) v (o_enableLeaderElection o) (o_leaderElectionID o) (o_printVersion o) (o_webhookOpts o) (o_zap o)));
   ("leader-elect", BoolFlag (λ v o, MkOptions (o_metricsAddr o) (o_probeAddr o) v (o_leaderElectionID o) (o_printVersion o) (o_webhookOpts o) (o_zap o)));
   ("leader-election-id", StringFlag (λ v o, MkOptions (o_metricsAddr o) (o_probeAddr o) (o_enableLeaderElection o) v (o_printVersion o) (o_webhookOpts o) (o_zap o)));
   ("version", BoolFlag (λ v o, MkOptions (o_metricsAddr o) (o_probeAddr o) (o_enableLeaderElection o) (o_leaderElectionID o) v (o_webhookOpts o) (o_zap o)))]
  ++ bindFlags ++ (prod_map id on_zap <$> zap_flags).

Definition manager_options (o : options Z') : ManagerOptions :=
  MkManagerOptions (o_metricsAddr o) (o_probeAddr o) (o_enableLeaderElection o) (o_leaderElectionID o)
    (if wo_enable (o_webhookOpts o) then Some (wo_port (o_webhookOpts o), wo_certDir (o_webhookOpts o)) else None).

(** The calls made so far, and the error that ended the run. *)
Definition run_state := (list call * option error)%type.

Context (answer : call → option error) (namespace_file : option string).

(** A call, and what follows if it answers without an error. *)
Definition calling (c : call) (next : list call → run_state) (calls : list call) : run_state :=
  match answer c with
  | Some err => (calls ++ [c], Some (call_error c err))
  | None => next (calls ++ [c])
  end.

Definition calling_if (b : bool) (c : call) (next : list call → run_state) (calls : list call) : run_state :=
  if b then calling c next calls else next calls.

(** [run], after the flags, where there is a client configuration. *)
Definition run (o : options Z') : run_state :=
  let webhookOpts := o_webhookOpts o in
  let enable := wo_enable webhookOpts in
  if o_printVersion o then ([], None)
  else if enable && negb (ValidCertMode (wo_certMode webhookOpts)) then
    ([], Some (Errorf "invalid --webhook-cert-mode %q (want auto or manual)" [AStr (wo_certMode webhookOpts)] []))
  else
    let auto := enable && bool_decide (wo_certMode webhookOpts = CertModeAuto) in
    let certs : result CertOptions :=
      if auto then (λ ns, with_namespace ns (certOptions webhookOpts)) <$> ResolveNamespace (wo_namespace webhookOpts) namespace_file
      else Ok (certOptions webhookOpts) in
    match certs with
    | Fail err => ([], Some err)
    | Ok certOpts =>
        calling_if auto (Bootstrap certOpts)
        (calling (NewManager (manager_options o))
        (calling_if auto (ManageCerts (newCertRotator certOpts "karta-webhook-cert"))
        (calling SetupReconciler
        (calling_if enable SetupWebhook
        (calling AddHealthz
        (calling (AddReadyz enable)
        (calling StartManager (λ calls, (calls, None))))))))) []
    end.

(** The exit code; [flag.ExitOnError] ends the process with 2, or 0 for help. *)
Definition main (args : list string) : list call * Z :=
  match Parse flags args default_options with
  | Fail err => ([], if errors_Is "flag: help requested" err then 0%Z else 2%Z)
  | Ok o => match run o with (calls, Some _) => (calls, 1%Z) | (calls, None) => (calls, 0%Z) end
  end.

(** ** What is started, and in which order *)

(** The calls of a run nothing goes wrong in. *)
Definition plan (o : options Z') (certOpts : CertOptions) : list call :=
  let enable := wo_enable (o_webhookOpts o) in
  let auto := enable && bool_decide (wo_certMode (o_webhookOpts o) = CertModeAuto) in
  (if auto then [Bootstrap certOpts] else []) ++ [NewManager (manager_options o)] ++
  (if auto then [ManageCerts (newCertRotator certOpts "karta-webhook-cert")] else []) ++ [SetupReconciler] ++
  (if enable then [SetupWebhook] else []) ++ [AddHealthz; AddReadyz enable; StartManager].

(** A plan up to the first call that fails *)
Fixpoint follow (calls plan : list call) : run_state :=
  match plan with
  | [] => (calls, None)
  | c :: plan => match answer c with
                 | Some err => (calls ++ [c], Some (call_error c err))
                 | None => follow (calls ++ [c]) plan
                 end
  end.

(** When a run may go on to make calls: the certificate mode is known and the
    namespace can be told. *)
Definition admissible (o : options Z') (certOpts : CertOptions) : Prop :=
  let w := o_webhookOpts o in
  (wo_enable w = true → ValidCertMode (wo_certMode w) = true) ∧
  if wo_enable w && bool_decide (wo_certMode w = CertModeAuto)
  then ∃ ns, ResolveNamespace (wo_namespace w) namespace_file = Ok ns ∧ certOpts = with_namespace ns (certOptions w)
  else certOpts = certOptions w.

(** A run follows its plan and stops at the first call that fails: with
    certificates of its own they are bootstrapped before the manager is made,
    under the namespace that is found and never a guessed one; the webhook is
    served, awaited by the readiness probe and kept certified exactly when it is
    enabled; nothing is started before all of it is set up.  Without a plan
    nothing is called at all. *)
Theorem run_follows o :
  o_printVersion o = false →
  (∀ certOpts, admissible o certOpts → run o = follow [] (plan o certOpts)) ∧
  ((∀ certOpts, ¬ admissible o certOpts) → ∃ err, run o = ([], Some err)).
Proof.
  intros Hv. unfold run, admissible, plan. rewrite Hv. cbv zeta. set (w := o_webhookOpts o).
  destruct (wo_enable w) eqn:Ee; cbn [andb].
  - destruct (ValidCertMode (wo_certMode w)) eqn:Em; cbn [negb]; [|split; [by intros ? [Hm _]; specialize (Hm eq_refl)|by eexists]].
    case_bool_decide as Ea.
    + destruct (ResolveNamespace (wo_namespace w) namespace_file) as [ns|err].
      * split; [|by intros Hno; destruct (Hno (with_namespace ns (certOptions w))); split; [|exists ns]].
        intros certOpts (_ & ns' & [= <-] & ->). done.
      * split; [by intros ? (_ & ? & ? & _)|by eexists].
    + split; [by intros ? [_ ->]|]. intros Hno. by destruct (Hno (certOptions w)).
  - split; [by intros ? [_ ->]|]. intros Hno. by destruct (Hno (certOptions w)).
Qed.
End command.

(** ** Sample runs *)

Definition sample_args : list string := ["--enable-webhook"; "-webhook-namespace"; " karta "; "-leader-elect=true"].
Definition sample_ParseInt (v : string) : result Z := Ok 9443%Z.

Definition sample_options (args : list string) : options () :=
  match Parse (flags sample_ParseInt []) args (default_options ()) with Ok o => o | Fail _ => default_options () end.

Example run_sample :
  main sample_ParseInt () [] (λ _, None) None sample_args =
    (plan (sample_options sample_args) (with_namespace "karta" (certOptions (o_webhookOpts (sample_options sample_args)))), 0%Z) ∧
  main sample_ParseInt () [] (λ _, None) None ["--enable-webhook"] = ([], 1%Z) ∧
  main sample_ParseInt () [] (λ _, None) (Some "ns") ["--enable-webhook"; "--webhook-cert-mode=none"] = ([], 1%Z) ∧
  (main sample_ParseInt () [] (λ c, match c with AddHealthz => Some (External "no") | _ => None end) None []) =
    ([NewManager (manager_options (sample_options [])); SetupReconciler; AddHealthz], 1%Z) ∧
  main sample_ParseInt () [] (λ _, None) None ["-x"] = ([], 2%Z) ∧
  main sample_ParseInt () [] (λ _, None) None ["--version"; "rest"] = ([], 0%Z).
Proof. vm_compute. done. Qed.

Lemma run_follows_witness :
  o_printVersion (sample_options sample_args) = false ∧
  run (λ _, None) None (sample_options sample_args) =
    follow (λ _, None) [] (plan (sample_options sample_args)
      (with_namespace "karta" (certOptions (o_webhookOpts (sample_options sample_args))))).
Proof.
  assert (Hv : o_printVersion (sample_options sample_args) = false) by (vm_compute; reflexivity).
  split; [exact Hv|]. apply (proj1 (run_follows (λ _, None) None _ Hv)).
  split; [by vm_compute|]. vm_compute. by exists "karta".
Defined.
