(* ===== verification/ExampleController.v ===== *)
(** * ExampleController: a controller for any workload a Karta describes

    Models [docs/examples/controller-runtime/controller.go] and [main.go]: the
    flags and the order of the start, the kinds to watch, the Karta of a kind, inspection, labelling of
    the pod templates, annotations, and one reconciliation with what it writes
    and which events it emits.  The client answers each question once; quantities
    and the structs of Kubernetes are parameters.  Logging is left out. *)

From S2P Require Import Prelude Text Flag Api Validator Value Runner Accessor Component Catalog.
From stdpp Require Import pretty.
From Stdlib Require Import Ascii.

Definition annotationStatus : string := "karta/status".
Definition annotationReplicas : string := "karta/replicas".
Definition annotationCPU : string := "karta/cpu-request".
Definition annotationMemory : string := "karta/memory-request".
Definition annotationGPU : string := "karta/gpu-request".
Definition managedByLabelKey : string := "app.kubernetes.io/managed-by".
Definition managedByLabelValue : string := "karta".
Definition gpuResourceName : string := "nvidia.com/gpu".

(** ** The kinds to watch *)

Definition parse_entry (entry : string) : result GroupVersionKind :=
  match string_of <$> split_char "/" (chars_of entry) with
  | [group; version; kind] =>
      if bool_decide (version = "") || bool_decide (kind = "")
      then Fail (Errorf "invalid GVK %q: want group/version/kind (core group is empty, e.g. /v1/Pod)" [AStr entry] [])
      else Ok (GVK group version kind)
  | _ => Fail (Errorf "invalid GVK %q: want group/version/kind (core group is empty, e.g. /v1/Pod)" [AStr entry] [])
  end.

(** The entries that are not blank, trimmed *)
Definition entries (raw : string) : list string :=
  filter (λ entry, entry ≠ "") (TrimSpace ∘ string_of <$> split_char "," (chars_of raw)).

Definition parseGVKs (raw : string) : result (list GroupVersionKind) :=
  gvks ← mapR parse_entry (entries raw);
  match gvks with
  | [] => Fail (External "no workload GVKs configured")
  | _ => Ok gvks
  end.

Definition defaultWatchGVKs : string := "leaderworkerset.x-k8s.io/v1/LeaderWorkerSet".

(** ** The Karta of a kind *)

Definition rootComponentGVK (karta : Karta) : option GroupVersionKind :=
  (λ kind, GVK (gvk_Group kind) (gvk_Version kind) (gvk_Kind kind)) <$> cd_Kind (RootComponent karta).

Definition has_reason (reason : string) : error → bool :=
  error_any (λ e, match e with ApiStatus r _ => bool_decide (r = reason) | _ => false end).
Definition IsNotFound : error → bool := has_reason "NotFound".
Definition IsConflict : error → bool := has_reason "Conflict".

(** [listed]: the answer to the list of Kartas. *)
Definition kartaForGVK (listed : result (list Karta)) (gvk : GroupVersionKind) : result Karta :=
  items ← map_error (λ err, Errorf "list Kartas: %w" [] [err]) listed;
  match List.find (λ karta, bool_decide (rootComponentGVK karta = Some gvk)) items with
  | Some karta => Ok karta
  | None => Fail (ApiStatus "NotFound" "karta")
  end.

(** [listed]: the workloads of the kind of the reconciler, namespace and name. *)
Definition workloadsForKarta (gvk : GroupVersionKind) (karta : option Karta) (listed : result (list (string * string)))
    : list (string * string) :=
  match karta with
  | None => []
  | Some karta =>
      if bool_decide (rootComponentGVK karta ≠ Some gvk) then []
      else match listed with Fail _ => [] | Ok items => items end
  end.

(** ** Statuses and annotations *)

Definition statusPriority : list ResourceStatus :=
  [FailedStatus; CompletedStatus; RunningStatus; InitializingStatus; SuspendedStatus; SuspendingStatus; DegradedStatus].

Definition canonicalStatus (matched : gset ResourceStatus) : string :=
  match List.find (λ s, bool_decide (s ∈ matched)) statusPriority with Some s => s | None => "" end.

(** What is written over the annotations there are, and whether that changes
    any. *)
Definition annotate (annotations summary : gmap string string) : bool * gmap string string :=
  map_fold (λ k v '(changed, annotations),
    if bool_decide (default "" (annotations !! k) ≠ v) then (true, <[k := v]> annotations) else (changed, annotations))
    (false, annotations) summary.

(** The annotations of an unstructured object, and the object with others; one
    without annotations has the empty map. *)
Class AnnotatedObject := {
  GetAnnotations : gmap string value → gmap string string;
  SetAnnotations : gmap string string → gmap string value → gmap string value;
}.
Class AnnotatedObjectLaws `{AnnotatedObject} : Prop := {
  GetAnnotations_SetAnnotations m o : GetAnnotations (SetAnnotations m o) = m;
}.

Section controller.
Context `{AnnotatedObject} `{UnstructuredReader} `{K8s}.

Definition applyAnnotations (obj : gmap string value) (summary : gmap string string) : bool * gmap string value :=
  let (changed, annotations) := annotate (GetAnnotations obj) summary in
  (changed, if changed then SetAnnotations annotations obj else obj).

(** What is read and written of a pod template; quantities. *)
Class TemplateFields := {
  Quantity : Type;
  quantity_zero : Quantity;
  quantity_Add : Quantity → Quantity → Quantity;
  quantity_String : Quantity → string;
  quantity_Cpu : gmap string Quantity → Quantity;
  quantity_Memory : gmap string Quantity → Quantity;
  template_Labels : PodTemplateSpec → string_map;
  template_SetLabels : gmap string string → PodTemplateSpec → PodTemplateSpec;
  template_Containers : PodTemplateSpec → list (gmap string Quantity * gmap string Quantity);
}.
Class TemplateFieldsLaws `{TemplateFields} : Prop := {
  template_Labels_SetLabels m p : template_Labels (template_SetLabels m p) = Some m;
}.
Context `{TemplateFields} {S : Type} `{!ComponentAccessor S}.

(** ** Inspection *)

Definition allComponents (factory : ComponentFactory) : result (list Component) :=
  children ← map_error (λ err, Errorf "get child components: %w" [] [err]) (GetChildComponents factory);
  root ← map_error (λ err, Errorf "get root component: %w" [] [err]) (GetRootComponent factory);
  Ok (children ++ [root]).

Record totals := MkTotals { t_replicas : Z; t_cpu : Quantity; t_mem : Quantity; t_gpu : Quantity }.

Definition add_scale (replicas : Z) (scale : Scale) : Z :=
  match scale_Replicas scale with Some n => wrap32 (replicas + n) | None => replicas end.

Definition add_container (t : totals) (c : gmap string Quantity * gmap string Quantity) : totals :=
  MkTotals (t_replicas t) (quantity_Add (t_cpu t) (quantity_Cpu c.1)) (quantity_Add (t_mem t) (quantity_Memory c.1))
    match c.1 !! gpuResourceName with
    | Some g => quantity_Add (t_gpu t) g
    | None => match c.2 !! gpuResourceName with Some g => quantity_Add (t_gpu t) g | None => t_gpu t end
    end.

(** The values of a map that may be nil, in the order they are visited *)
Definition values_of {A} (m : option (gmap string A)) : list A := (map_to_list (default ∅ m)).*2.

Definition add_component (comp : Component) (t : totals) : M S totals :=
  scales ← wrap (λ err, Errorf "get scale for %s: %w" [AStr (comp_name comp)] [err]) (GetScale comp);
  let t := MkTotals (foldl add_scale (t_replicas t) (values_of scales)) (t_cpu t) (t_mem t) (t_gpu t) in
  if negb (HasPodDefinition comp) then mret t
  else
    podTemplateSpecs ← wrap (λ err, Errorf "get pod template spec for %s: %w" [AStr (comp_name comp)] [err]) (GetPodTemplateSpec comp);
    mret (foldl add_container t (values_of podTemplateSpecs ≫= template_Containers)).

Fixpoint add_components (components : list Component) (t : totals) : M S totals :=
  match components with
  | [] => mret t
  | comp :: components => add_component comp t ≫= add_components components
  end.

Definition nil_status : error := External "runtime error: invalid memory address or nil pointer dereference".

Definition inspect (factory : ComponentFactory) (components : list Component) : M S (gmap string string) :=
  root ← lift (map_error (λ err, Errorf "get root component: %w" [] [err]) (GetRootComponent factory));
  status ← wrap (λ err, Errorf "get status: %w" [] [err]) (GetStatus root);
  match status with
  | None => fail nil_status
  | Some status =>
      let matched : gset ResourceStatus := list_to_set (status_MatchedStatuses status) in
      t ← add_components components (MkTotals 0 quantity_zero quantity_zero quantity_zero);
      let summary : gmap string string :=
        {[annotationReplicas := pretty (t_replicas t); annotationCPU := quantity_String (t_cpu t);
          annotationMemory := quantity_String (t_mem t); annotationGPU := quantity_String (t_gpu t)]} in
      mret (if bool_decide (canonicalStatus matched ≠ "") then <[annotationStatus := canonicalStatus matched]> summary else summary)
  end.

(** ** Labels *)

Definition labelled (pts : PodTemplateSpec) : bool :=
  bool_decide (default "" (default ∅ (template_Labels pts) !! managedByLabelKey) = managedByLabelValue).

Definition add_label (pts : PodTemplateSpec) : PodTemplateSpec :=
  if labelled pts then pts
  else template_SetLabels (<[managedByLabelKey := managedByLabelValue]> (default ∅ (template_Labels pts))) pts.

Definition inject_component (comp : Component) : M S bool :=
  if negb (HasPodDefinition comp) then mret false
  else
    podTemplateSpecs ← wrap (λ err, Errorf "get pod template spec for %s: %w" [AStr (comp_name comp)] [err]) (GetPodTemplateSpec comp);
    if forallb labelled (values_of podTemplateSpecs) then mret false
    else
      _ ← wrap (λ err, Errorf "update pod template spec for %s: %w" [AStr (comp_name comp)] [err])
            (component_UpdatePodTemplateSpec comp (add_label <$> default ∅ podTemplateSpecs));
      mret true.

Fixpoint injectPodTemplateLabels (components : list Component) : M S bool :=
  match components with
  | [] => mret false
  | comp :: components =>
      changed ← inject_component comp;
      rest ← injectPodTemplateLabels components;
      mret (changed || rest)
  end.

(** ** Reconciliation *)

Record event := MkEvent { ev_Reason : string; ev_Args : list string }.

(** The result and the error of the call, what was written and the events. *)
Record outcome := MkOutcome {
  oc_Requeue : bool;
  oc_err : option error;
  oc_written : option (gmap string value);
  oc_events : list event;
}.

Definition settled : outcome := MkOutcome false None None [].
Definition failing (err : error) : outcome := MkOutcome false (Some err) None [].

(** The steps from the factory to the object that may be written: whether a
    label and whether an annotation changed. *)
Definition prepare (factory : ComponentFactory) (obj : gmap string value) :
    M S (gmap string string * bool * bool * gmap string value) :=
  components ← lift (allComponents factory);
  summary ← inspect factory components;
  labelChanged ← injectPodTemplateLabels components;
  obj ← (if labelChanged : bool
         then wrap (λ err, Errorf "get mutated resource: %w" [] [err]) GetResource
         else mret obj);
  let (annotationsChanged, obj) := applyAnnotations obj summary in
  mret (summary, labelChanged, annotationsChanged, obj).

Definition label_event : event := MkEvent "PodTemplateLabeled" [managedByLabelKey; managedByLabelValue].

Definition at_key (summary : gmap string string) (k : string) : string := default "" (summary !! k).

Definition summary_args (summary : gmap string string) : list string :=
  [at_key summary annotationReplicas; at_key summary annotationCPU; at_key summary annotationMemory; at_key summary annotationGPU].

Definition status_events (previousStatus : string) (summary : gmap string string) : list event :=
  let newStatus := at_key summary annotationStatus in
  if bool_decide (newStatus = "") then []
  else
    (if bool_decide (previousStatus = "") then [MkEvent "StatusRecorded" (newStatus :: summary_args summary)] else []) ++
    (if bool_decide (previousStatus ≠ "") && bool_decide (newStatus ≠ previousStatus)
     then [MkEvent "StatusChanged" (previousStatus :: newStatus :: summary_args summary)] else []).

(** [of_object] is the accessor made from an object; [listed], [get] and [update]
    are the answers of the client. *)
Definition Reconcile (of_object : gmap string value → S) (gvk : GroupVersionKind) (namespacedName : string)
    (listed : result (list Karta)) (get : result (gmap string value)) (update : gmap string value → option error) : outcome :=
  match kartaForGVK listed gvk with
  | Fail err => if IsNotFound err then settled else failing err
  | Ok karta =>
      match get with
      | Fail err => if IsNotFound err then settled
                    else failing (Errorf "get %s %s: %w" [AStr (gvk_Kind gvk); AStr namespacedName] [err])
      | Ok obj =>
          let previousStatus := default "" (GetAnnotations obj !! annotationStatus) in
          let prepared := (prepare (NewComponentFactory karta) obj (of_object obj)).1 in
          match prepared with
          | Fail err => failing err
          | Ok (summary, labelChanged, annotationsChanged, obj) =>
              let labels := if labelChanged then [label_event] else [] in
              if negb annotationsChanged && negb labelChanged then settled
              else
                match update obj with
                | Some err =>
                    if IsConflict err then MkOutcome true None None labels
                    else MkOutcome false (Some (Errorf "update %s %s: %w" [AStr (gvk_Kind gvk); AStr namespacedName] [err])) None labels
                | None => MkOutcome false None (Some obj) (labels ++ status_events previousStatus summary)
                end
          end
      end
  end.
End controller.

(** ** The command ([main.go]) *)

Record settings := MkSettings { s_metricsAddr : string; s_probeAddr : string; s_watchGVKs : string }.

Definition default_settings : settings := MkSettings ":8080" ":8081" defaultWatchGVKs.

Definition flags : list (string * flag settings) :=
  [("metrics-bind-address", StringFlag (λ v s, MkSettings v (s_probeAddr s) (s_watchGVKs s)));
   ("health-probe-bind-address", StringFlag (λ v s, MkSettings (s_metricsAddr s) v (s_watchGVKs s)));
   ("watch-gvk", StringFlag (λ v s, MkSettings (s_metricsAddr s) (s_probeAddr s) v))].

(** [strings.Trim(s, "-")] *)
Definition trim_dashes (s : string) : string :=
  let is_dash c := Ascii.eqb c "-" in
  string_of (reverse (drop_while is_dash (reverse (drop_while is_dash (chars_of s))))).

(** [SetupWithManager]: the name of the controller of a kind *)
Definition controllerName (gvk : GroupVersionKind) : string :=
  ToLower (trim_dashes (gvk_Group gvk +:+ "-" +:+ gvk_Version gvk +:+ "-" +:+ gvk_Kind gvk)).

(** The calls that may fail, in the order of the text *)
Inductive setup_call :=
  | AddClientGoScheme | AddCoreScheme | AddKartaScheme
  | NewManager (metricsAddr probeAddr : string)
  | SetupWithManager (gvk : GroupVersionKind) (name : string)
  | AddHealthzCheck | AddReadyzCheck | Start.

Definition setup_plan (s : settings) (gvks : list GroupVersionKind) : list setup_call :=
  [AddClientGoScheme; AddCoreScheme; AddKartaScheme; NewManager (s_metricsAddr s) (s_probeAddr s)] ++
  ((λ gvk, SetupWithManager gvk (controllerName gvk)) <$> gvks) ++ [AddHealthzCheck; AddReadyzCheck; Start].

(** Every error ends the process with 1. *)
Fixpoint perform (answer : setup_call → option error) (plan : list setup_call) : list setup_call * Z :=
  match plan with
  | [] => ([], 0%Z)
  | c :: plan => match answer c with
                 | Some _ => ([c], 1%Z)
                 | None => let (calls, code) := perform answer plan in (c :: calls, code)
                 end
  end.

Definition main (answer : setup_call → option error) (args : list string) : list setup_call * Z :=
  match Parse flags args default_settings with
  | Fail err => ([], if errors_Is "flag: help requested" err then 0%Z else 2%Z)
  | Ok s => match parseGVKs (s_watchGVKs s) with
            | Fail _ => ([], 1%Z)
            | Ok gvks => perform answer (setup_plan s gvks)
            end
  end.

(** ** Statuses, annotations and kinds *)

(** The status reported is the first of the priorities that matched, in
    whatever order they matched; none if none did. *)
Theorem canonicalStatus_first matched :
  (canonicalStatus matched = "" ∧ ∀ s, s ∈ statusPriority → s ∉ matched) ∨
  ∃ before after, statusPriority = before ++ canonicalStatus matched :: after ∧
    canonicalStatus matched ∈ matched ∧ ∀ s, s ∈ before → s ∉ matched.
Proof.
  unfold canonicalStatus. induction statusPriority as [|s l IH]; [left; split; [done|by intros ? ?%elem_of_nil]|].
  cbn. case_bool_decide as Hs.
  - right. exists [], l. split_and!; [done..|by intros ? ?%elem_of_nil].
  - destruct IH as [[E Hno]|(before & after & E & Hin & Hno)].
    + left. split; [done|]. intros x [->|Hx]%elem_of_cons; [done|by apply Hno].
    + right. exists (s :: before), after. cbn. rewrite <- E. split_and!; [done..|].
      intros x [->|Hx]%elem_of_cons; [done|by apply Hno].
Qed.

Lemma annotate_spec annotations summary :
  let (changed, annotations') := annotate annotations summary in
  (∀ k, annotations' !! k = match summary !! k with
                            | Some v => if bool_decide (default "" (annotations !! k) ≠ v) then Some v else annotations !! k
                            | None => annotations !! k
                            end) ∧
  (changed = true ↔ ∃ k v, summary !! k = Some v ∧ default "" (annotations !! k) ≠ v).
Proof.
  unfold annotate. apply (map_fold_weak_ind (λ (r : bool * gmap string string) summary,
    let (changed, annotations') := r in
    (∀ k, annotations' !! k = match summary !! k with
                              | Some v => if bool_decide (default "" (annotations !! k) ≠ v) then Some v else annotations !! k
                              | None => annotations !! k
                              end) ∧
    (changed = true ↔ ∃ k v, summary !! k = Some v ∧ default "" (annotations !! k) ≠ v))).
  { split; [intros k; by rewrite lookup_empty|]. split; [done|]. by intros (k & v & E & _). }
  intros k v m [changed annotations'] Hk [Hl Hc].
  pose proof (Hl k) as Hlk. rewrite Hk in Hlk. rewrite Hlk. case_bool_decide as Hv.
  - split.
    + intros k'. destruct (decide (k = k')) as [<-|Hne].
      * rewrite !lookup_insert_eq. by rewrite bool_decide_eq_true_2.
      * by rewrite !lookup_insert_ne, Hl by done.
    + split; [|done]. intros _. exists k, v. by rewrite lookup_insert_eq.
  - split.
    + intros k'. destruct (decide (k = k')) as [<-|Hne].
      * rewrite lookup_insert_eq, Hlk. rewrite bool_decide_eq_false_2; [done|]. by intros [].
      * by rewrite lookup_insert_ne, Hl by done.
    + rewrite Hc. split.
      * intros (k' & v' & E & Hne). exists k', v'. split; [|done]. by rewrite lookup_insert_ne by congruence.
      * intros (k' & v' & [[<- <-]|[? E]]%lookup_insert_Some & Hne); [by destruct Hne|by exists k', v'].
Qed.

Lemma split_char_plain sep s : sep ∉ s → split_char sep s = [s].
Proof.
  induction s as [|c s IH]; [done|]. intros [Hc Hs]%not_elem_of_cons. cbn. rewrite IH by done.
  destruct (Ascii.eqb_spec c sep); [by subst|done].
Qed.

Lemma split_char_app sep s t : sep ∉ s → split_char sep (s ++ sep :: t) = s :: split_char sep t.
Proof.
  assert (Hne : ∀ u, ∃ part parts, split_char sep u = part :: parts).
  { induction u as [|c u (part & parts & E)]; cbn; [by eexists _, _|]. rewrite E. destruct (Ascii.eqb c sep); by eexists _, _. }
  induction s as [|c s IH].
  - intros _. cbn. destruct (Hne t) as (part & parts & ->). by rewrite Ascii.eqb_refl.
  - intros [Hc Hs]%not_elem_of_cons. cbn. rewrite IH by done. destruct (Ascii.eqb_spec c sep); [by subst|done].
Qed.

(** The texts of kinds, as the flag takes them. *)
Definition gvk_text (gvk : GroupVersionKind) : chars :=
  chars_of (gvk_Group gvk) ++ ["/"%char] ++ chars_of (gvk_Version gvk) ++ ["/"%char] ++ chars_of (gvk_Kind gvk).

Fixpoint join_chars (sep : ascii) (l : list chars) : chars :=
  match l with
  | [] => []
  | [s] => s
  | s :: l => s ++ sep :: join_chars sep l
  end.

(** A kind the flag can name: a version and a kind, no separator within, and no
    white space around. *)
Record nameable (gvk : GroupVersionKind) : Prop := MkNameable {
  nm_Version : gvk_Version gvk ≠ "";
  nm_Kind : gvk_Kind gvk ≠ "";
  nm_slash : (("/"%char) ∉ chars_of (gvk_Group gvk)) ∧ (("/"%char) ∉ chars_of (gvk_Version gvk)) ∧ (("/"%char) ∉ chars_of (gvk_Kind gvk));
  nm_comma : (","%char) ∉ gvk_text gvk;
  nm_trimmed : trim_space (gvk_text gvk) = gvk_text gvk;
}.

Lemma parse_entry_text gvk : nameable gvk → parse_entry (string_of (gvk_text gvk)) = Ok gvk.
Proof.
  intros [Hv Hk (H1 & H2 & H3) _ _]. unfold parse_entry. rewrite String.list_ascii_of_string_of_list_ascii.
  unfold gvk_text. cbn [app]. rewrite split_char_app, split_char_app, split_char_plain by done.
  cbn. rewrite !String.string_of_list_ascii_of_string. rewrite !bool_decide_eq_false_2 by done. by destruct gvk.
Qed.

Lemma split_join_chars sep l : l ≠ [] → Forall (λ s, sep ∉ s) l → split_char sep (join_chars sep l) = l.
Proof.
  intros Hl Hs. induction Hs as [|s l Hsep Hs IH]; [done|]. destruct l as [|s' l]; [by apply split_char_plain|].
  change (join_chars sep (s :: s' :: l)) with (s ++ sep :: join_chars sep (s' :: l)).
  rewrite split_char_app by done. by rewrite IH.
Qed.

(** A list of kinds is read back as it was written; there is always one. *)
Theorem parseGVKs_roundtrip gvks :
  gvks ≠ [] → Forall nameable gvks →
  parseGVKs (string_of (join_chars "," (gvk_text <$> gvks))) = Ok gvks.
Proof.
  intros Hne Hgvks. unfold parseGVKs, entries. rewrite String.list_ascii_of_string_of_list_ascii, split_join_chars.
  - assert (E : filter (λ entry, entry ≠ "") ((TrimSpace ∘ string_of) <$> (gvk_text <$> gvks)) = (string_of ∘ gvk_text) <$> gvks).
    { clear Hne. induction Hgvks as [|gvk gvks [Hv Hk Hs Hc Ht] _ IH]; [done|]. cbn [fmap list_fmap].
      assert (Et : (TrimSpace ∘ string_of) (gvk_text gvk) = string_of (gvk_text gvk)).
      { cbn. unfold TrimSpace. by rewrite String.list_ascii_of_string_of_list_ascii, Ht. }
      rewrite Et, filter_cons_True, IH; [done|]. unfold gvk_text. by destruct (chars_of (gvk_Group gvk)). }
    rewrite E. assert (Em : mapR parse_entry (string_of ∘ gvk_text <$> gvks) = Ok gvks).
    { apply mapR_Ok. clear -Hgvks. induction Hgvks; cbn; constructor; [by apply parse_entry_text|done]. }
    rewrite Em. by destruct gvks.
  - by destruct gvks.
  - apply Forall_fmap. eapply Forall_impl; [exact Hgvks|]. by intros gvk [].
Qed.

Lemma parseGVKs_nonempty raw gvks : parseGVKs raw = Ok gvks → gvks ≠ [].
Proof. unfold parseGVKs. destruct (mapR _ _) as [[|]|]; cbn; naive_solver. Qed.

(** ** Inspection and reconciliation *)

Section properties.
Context `{!AnnotatedObject} `{!UnstructuredReader} `{K8s} `{!TemplateFields}.
Context {S : Type} `{!ComponentAccessor S} `{Equiv S} `{!ComponentAccessorLaws S}.

#[local] Hint Resolve GetPodTemplateSpec_readonly GetScale_readonly GetStatus_readonly : readonly.

Lemma add_component_readonly comp t : readonly (R:=S) (add_component comp t).
Proof using Type*. unfold add_component. solve_readonly. Qed.
#[local] Hint Resolve add_component_readonly : readonly.

Lemma add_components_readonly comps t : readonly (R:=S) (add_components comps t).
Proof using Type*. revert t. induction comps as [|comp comps IH]; intros t; cbn; solve_readonly. Qed.
#[local] Hint Resolve add_components_readonly : readonly.

Lemma inspect_readonly factory comps : readonly (R:=S) (inspect factory comps).
Proof using Type*.
  unfold inspect. solve_readonly.
Qed.

(** The replicas the scales of a component name *)
Definition replicas_of (comp : Component) (s : S) : Z :=
  match run (GetScale comp) s with
  | Ok scales => foldr (λ scale n, default 0 (scale_Replicas scale) + n)%Z 0%Z (values_of scales)
  | Fail _ => 0%Z
  end.

Lemma foldl_add_scale scales n :
  foldl add_scale (wrap32 n) scales = wrap32 (n + foldr (λ scale n, default 0 (scale_Replicas scale) + n) 0 scales)%Z.
Proof using.
  revert n. induction scales as [|scale scales IH]; intros n; cbn; [by rewrite Z.add_0_r|].
  assert (E : add_scale (wrap32 n) scale = wrap32 (n + default 0 (scale_Replicas scale))%Z).
  { unfold add_scale. destruct (scale_Replicas scale); cbn; [by rewrite wrap32_add_l|by rewrite Z.add_0_r]. }
  by rewrite E, IH, Z.add_assoc.
Qed.

Lemma foldl_add_container t cs : t_replicas (foldl add_container t cs) = t_replicas t.
Proof using. revert t. induction cs as [|c cs IH]; intros t; cbn; [done|]. by rewrite IH. Qed.

Lemma add_component_replicas comp t s t' n :
  t_replicas t = wrap32 n → run (add_component comp t) s = Ok t' → t_replicas t' = wrap32 (n + replicas_of comp s)%Z.
Proof using Type*.
  intros Hn E. unfold add_component in E.
  run_ok_in E. destruct E as (scales & Es & E).
  rewrite run_wrap, map_error_Ok in Es. unfold replicas_of. rewrite Es.
  rewrite <- foldl_add_scale, <- Hn. destruct (negb _); [by injection E as <-|].
  run_ok_in E. destruct E as (specs & _ & E).
  injection E as <-. by rewrite foldl_add_container.
Qed.

Lemma add_components_replicas comps t s t' n :
  t_replicas t = wrap32 n → run (add_components comps t) s = Ok t' →
  t_replicas t' = wrap32 (n + foldr (λ comp n, replicas_of comp s + n) 0 comps)%Z.
Proof using Type*.
  revert t n. induction comps as [|comp comps IH]; intros t n Hn E; cbn in *.
  - injection E as <-. by rewrite Z.add_0_r.
  - run_ok_in E. destruct E as (t1 & E1 & E).
    eapply add_component_replicas in E1; [|done]. rewrite (IH _ _ E1 E). f_equal. lia.
Qed.

(** The replicas reported are those of all components, root and children,
    modulo [2^32]: the exact number whenever it fits in 32 bits. *)
Theorem inspect_replicas factory comps s summary :
  run (inspect factory comps) s = Ok summary →
  let total := foldr (λ comp n, replicas_of comp s + n)%Z 0%Z comps in
  summary !! annotationReplicas = Some (pretty (wrap32 total)) ∧
  ((int32_min ≤ total ≤ int32_max)%Z → summary !! annotationReplicas = Some (pretty total)).
Proof using Type*.
  intros E. cbv zeta. assert (Hs : summary !! annotationReplicas =
    Some (pretty (wrap32 (foldr (λ comp n, replicas_of comp s + n)%Z 0%Z comps)))).
  { unfold inspect in E. run_ok_in E. destruct E as (root & _ & E). run_ok_in E. destruct E as ([status|] & _ & E); [|done].
    run_ok_in E. destruct E as (t & Et & E).
    eapply (add_components_replicas _ _ _ _ 0) in Et; [|done]. rewrite Z.add_0_l in Et. injection E as <-.
    case_bool_decide; [rewrite lookup_insert_ne by done|]; by rewrite lookup_insert_eq, Et. }
  split; [done|]. intros Hr. by rewrite Hs, wrap32_id.
Qed.

(** All pod templates of these components carry the label. *)
Definition all_labelled (comps : list Component) (s : S) : Prop :=
  ∀ comp, comp ∈ comps → HasPodDefinition comp = true →
    ∃ specs, run (GetPodTemplateSpec comp) s = Ok specs ∧ forallb labelled (values_of specs) = true.

Lemma all_labelled_proper comps s s' : s ≡ s' → all_labelled comps s → all_labelled comps s'.
Proof using Type*.
  intros Hs Hl comp Hc Hp. destruct (Hl comp Hc Hp) as (specs & E & Ha). exists specs. split; [|done].
  destruct (GetPodTemplateSpec_readonly comp) as [Hr _]. destruct (Hr s s' Hs) as [E' _]. by rewrite <- E.
Qed.

Lemma inject_labelled comps s :
  all_labelled comps s → ∃ s', injectPodTemplateLabels comps s = (Ok false, s') ∧ s' ≡ s.
Proof using Type*.
  revert s. induction comps as [|comp comps IH]; intros s Hl; [by exists s|].
  assert (Hone : ∃ s', inject_component comp s = (Ok false, s') ∧ s' ≡ s).
  { unfold inject_component. destruct (HasPodDefinition comp) eqn:Hp; [|by exists s].
    destruct (Hl comp) as (specs & E & Ha); [by left|done|]. destruct (GetPodTemplateSpec_readonly comp) as [_ Hst].
    specialize (Hst s). unfold run in E. cbn [negb]. unfold mbind, M_bind, wrap.
    destruct (GetPodTemplateSpec comp s) as [r s']. cbn in E, Hst. subst r. cbn. rewrite Ha. by exists s'. }
  destruct Hone as (s1 & E1 & Hs1). destruct (IH s1) as (s2 & E2 & Hs2).
  { apply (all_labelled_proper _ s); [by symmetry|]. intros c Hc. apply Hl. by right. }
  exists s2. split; [|by etrans]. cbn. unfold mbind, M_bind. by rewrite E1, E2.
Qed.

(** Where every template is labelled, only annotations may change. *)
Lemma prepare_labelled factory obj s comps summary :
  allComponents factory = Ok comps → run (inspect factory comps) s = Ok summary → all_labelled comps s →
  (prepare factory obj s).1 =
    Ok (summary, false, (applyAnnotations obj summary).1, (applyAnnotations obj summary).2).
Proof using Type*.
  intros Hc Hi Hl. unfold prepare, mbind, M_bind, lift. rewrite Hc. destruct (inspect_readonly factory comps) as [_ Hst].
  specialize (Hst s). unfold run in Hi. destruct (inspect factory comps s) as [r s1]. cbn in Hi, Hst. subst r.
  destruct (inject_labelled comps s1) as (s2 & -> & _).
  { apply (all_labelled_proper _ s); [by symmetry|done]. }
  cbn. by destruct (applyAnnotations obj summary).
Qed.

Lemma prepare_applied factory obj s summary labelChanged annotationsChanged obj' :
  (prepare factory obj s).1 = Ok (summary, labelChanged, annotationsChanged, obj') →
  ∃ base, applyAnnotations base summary = (annotationsChanged, obj').
Proof using.
  unfold prepare, mbind, M_bind. destruct (lift _ s) as [[comps|] s1]; [|done].
  destruct (inspect factory comps s1) as [[summary'|] s2]; [|done].
  destruct (injectPodTemplateLabels comps s2) as [[changed|] s3]; [|done].
  set (m := if changed then _ else _). destruct (m s3) as [[base|] s4]; [|done].
  destruct (applyAnnotations base summary') as [c o] eqn:Ea. cbn. intros [= <- <- <- <-]. by exists base.
Qed.

(** Every value of the summary is on the object. *)
Definition recorded (obj : gmap string value) (summary : gmap string string) : Prop :=
  ∀ k v, summary !! k = Some v → default "" (GetAnnotations obj !! k) = v.

Lemma applyAnnotations_recorded `{!AnnotatedObjectLaws} base summary changed obj :
  applyAnnotations base summary = (changed, obj) → recorded obj summary ∧ (changed = false → obj = base).
Proof using.
  unfold applyAnnotations. pose proof (annotate_spec (GetAnnotations base) summary) as Hspec.
  destruct (annotate _ _) as [changed' annotations]. destruct Hspec as [Hl Hc]. intros [= <- <-]. split; [|by intros ->].
  intros k v Hk. destruct changed'.
  - rewrite GetAnnotations_SetAnnotations, Hl, Hk. case_bool_decide; [done|]. done.
  - destruct (decide (default "" (GetAnnotations base !! k) = v)) as [E|E]; [done|].
    destruct Hc as [_ Hc]. discriminate Hc. by exists k, v.
Qed.

Lemma recorded_quiet obj summary : recorded obj summary → applyAnnotations obj summary = (false, obj).
Proof using.
  intros Hr. unfold applyAnnotations. pose proof (annotate_spec (GetAnnotations obj) summary) as Hspec.
  destruct (annotate _ _) as [[] annotations]; [|done]. destruct Hspec as [_ [Hc _]].
  destruct (Hc eq_refl) as (k & v & Hk & Hne). by destruct Hne; apply Hr.
Qed.

Context `{!AnnotatedObjectLaws} (of_object : gmap string value → S) (gvk : GroupVersionKind) (name : string)
  (listed : result (list Karta)).

(** What a reconciliation writes is the summary of its inspection on the
    object, and it settles: as long as the object that was written is inspected
    to the same summary and its templates carry the label, the next
    reconciliation writes nothing, emits nothing and asks for nothing more.
    Nothing is written when something fails; a conflict asks for another turn. *)
Theorem Reconcile_settles get update :
  let out := Reconcile of_object gvk name listed get update in
  (is_Some (oc_err out) ∨ oc_Requeue out = true → oc_written out = None) ∧
  ∀ obj', oc_written out = Some obj' →
    ∃ karta obj summary labels, kartaForGVK listed gvk = Ok karta ∧ get = Ok obj ∧ update obj' = None ∧
      recorded obj' summary ∧
      oc_events out = labels ++ status_events (default "" (GetAnnotations obj !! annotationStatus)) summary ∧
      ∀ comps update',
        allComponents (NewComponentFactory karta) = Ok comps →
        run (inspect (NewComponentFactory karta) comps) (of_object obj') = Ok summary →
        all_labelled comps (of_object obj') →
        Reconcile of_object gvk name listed (Ok obj') update' = settled.
Proof using Type*.
  cbv zeta. unfold Reconcile at 1 2 3 4 5. destruct (kartaForGVK listed gvk) as [karta|err] eqn:Ek.
  2: { destruct (IsNotFound err); cbn; split; naive_solver. }
  destruct get as [obj|err]; [|destruct (IsNotFound err); cbn; split; naive_solver].
  destruct (prepare _ obj (of_object obj)).1 as [[[[summary lc] ac] obj1]|err] eqn:Ep; [|cbn; split; naive_solver].
  destruct (negb ac && negb lc); [cbn; split; naive_solver|].
  destruct (update obj1) as [err|] eqn:Eu; [destruct (IsConflict err); cbn; split; naive_solver|].
  cbn [oc_err oc_Requeue oc_written oc_events]. split; [intros [[? ?]|?]; done|]. intros obj' [= <-].
  apply prepare_applied in Ep as [base Ea]. apply applyAnnotations_recorded in Ea as [Hr _].
  exists karta, obj, summary, (if lc then [label_event] else []). split_and!; [done..|].
  intros comps update' Hc Hi Hl. unfold Reconcile. rewrite Ek.
  rewrite (prepare_labelled _ obj1 _ _ _ Hc Hi Hl). by rewrite recorded_quiet.
Qed.
End properties.

(** ** A cluster with one workload *)

#[export] Instance sample_annotated : AnnotatedObject := {
  GetAnnotations o :=
    match o !! "annotations" with
    | Some (VMap m) => omap (λ v, match v with VString s => Some s | _ => None end) m
    | _ => ∅
    end;
  SetAnnotations m o := <["annotations" := VMap (VString <$> m)]> o;
}.
#[export] Instance sample_annotated_laws : AnnotatedObjectLaws.
Proof.
  split. intros m o. cbn. rewrite lookup_insert_eq. apply map_eq. intros k.
  rewrite lookup_omap, lookup_fmap. by destruct (m !! k).
Qed.

#[export] Instance sample_reader : UnstructuredReader :=
  { u_GroupVersionKind _ := GVK "apps" "v1" "Deployment"; u_GetName _ := "web"; u_GetGenerateName _ := "" }.

#[export] Instance sample_fields : TemplateFields := {
  Quantity := Z; quantity_zero := 0%Z; quantity_Add := Z.add; quantity_String := pretty;
  quantity_Cpu m := default 0%Z (m !! "cpu"); quantity_Memory m := default 0%Z (m !! "memory");
  template_Labels _ := None; template_SetLabels _ p := p; template_Containers _ := [];
}.

Definition sample_kind : GroupVersionKind := GVK "batch" "v1" "Job".

Definition sample_workload_karta (status : option StatusDefinition) : Karta := {|
  k_ObjectMeta := k_ObjectMeta sample_karta;
  k_Spec := {|
    ks_StructureDefinition := {|
      st_RootComponent :=
        set_component (RootComponent sample_karta)
          (Some {| sc_ReplicasPath := Some ".spec.replicas"; sc_MinReplicasPath := None; sc_MaxReplicasPath := None |})
          status None None;
      st_ChildComponents := []; st_AdditionalChildKinds := [] |};
    ks_Instructions := {| oi_GangScheduling := None |} |} |}.

Definition sample_status_definition : StatusDefinition := {|
  std_PhaseDefinition := Some {| pd_Path := ".status.phase" |};
  std_ConditionsDefinition := None; std_StatusMappings := sample_mappings |}.

Definition sample_object_table (phase : string) : table :=
  Table {[".spec.replicas" := [VInt 3]; ".status.phase" := [VString phase]; "(.status.ready) | tostring" := [VString "true"]]}.

Definition sample_Reconcile (status : option StatusDefinition) (phase : string) (obj : gmap string value)
    (update : gmap string value → option error) : outcome :=
  Reconcile (λ _, sample_object_table phase) sample_kind "ns/web"
    (Ok [sample_workload_karta status]) (Ok obj) update.

Definition sample_out : outcome := sample_Reconcile (Some sample_status_definition) "Active" ∅ (λ _, None).
Definition sample_written : gmap string value := default ∅ (oc_written sample_out).

(** The first reconciliation records, the second is quiet, a new phase is
    reported; a conflict asks for another turn; a Karta without a status
    definition, which admission refuses, ends in a panic. *)
Example Reconcile_samples :
  oc_events sample_out = [MkEvent "StatusRecorded" ["Running"; "3"; "0"; "0"; "0"]] ∧
  sample_Reconcile (Some sample_status_definition) "Active" sample_written (λ _, None) = settled ∧
  oc_events (sample_Reconcile (Some sample_status_definition) "Broken" sample_written (λ _, None)) =
    [MkEvent "StatusChanged" ["Running"; "Failed"; "3"; "0"; "0"; "0"]] ∧
  sample_Reconcile (Some sample_status_definition) "Active" ∅ (λ _, Some (ApiStatus "Conflict" "changed")) =
    MkOutcome true None None [] ∧
  sample_Reconcile None "Active" ∅ (λ _, None) = failing nil_status.
Proof. vm_compute. done. Qed.

(** The manager starts only when a reconciler was set up for every kind. *)
Lemma perform_starts answer s gvks :
  Start ∈ (perform answer (setup_plan s gvks)).1 →
  (perform answer (setup_plan s gvks)).1 = setup_plan s gvks ∧
  ∀ c, c ∈ setup_plan s gvks → c ≠ Start → answer c = None.
Proof.
  assert (Hgen : ∀ plan, Start ∉ plan → Start ∈ (perform answer (plan ++ [Start])).1 →
    (perform answer (plan ++ [Start])).1 = plan ++ [Start] ∧ ∀ c, c ∈ plan ++ [Start] → c ≠ Start → answer c = None).
  { induction plan as [|c plan IH]; intros Hno Hin.
    - cbn. destruct (answer Start); (split; [done|]); by intros c ->%list_elem_of_singleton.
    - apply not_elem_of_cons in Hno as [Hc Hno]. cbn in *. destruct (answer c) eqn:Ea.
      + apply list_elem_of_singleton in Hin. congruence.
      + destruct (perform answer (plan ++ [Start])) as [calls code]. cbn in *.
        apply elem_of_cons in Hin as [E|Hin]; [congruence|]. destruct (IH Hno Hin) as [-> Hall]. split; [done|].
        intros c' [->|Hc']%elem_of_cons ?; [done|by apply Hall]. }
  set (front := [AddClientGoScheme; AddCoreScheme; AddKartaScheme; NewManager (s_metricsAddr s) (s_probeAddr s)] ++
    ((λ gvk, SetupWithManager gvk (controllerName gvk)) <$> gvks) ++ [AddHealthzCheck; AddReadyzCheck]).
  assert (E : setup_plan s gvks = front ++ [Start]) by (unfold setup_plan, front; by rewrite <- !app_assoc).
  rewrite E. apply Hgen. unfold front. rewrite !elem_of_app, !elem_of_cons, elem_of_nil, list_elem_of_fmap. naive_solver.
Qed.

Example main_samples :
  main (λ _, None) ["-watch-gvk"; " /v1/Pod, batch/v1/Job"] =
    (setup_plan default_settings [GVK "" "v1" "Pod"; GVK "batch" "v1" "Job"], 0%Z) ∧
  controllerName (GVK "" "v1" "Pod") = "v1-pod" ∧
  main (λ _, None) ["-watch-gvk=v1/Pod"] = ([], 1%Z) ∧ main (λ _, None) ["-watch-gvk=,"] = ([], 1%Z).
Proof. vm_compute. done. Qed.

Lemma Reconcile_settles_witness :
  ∃ karta obj summary labels, kartaForGVK (Ok [sample_workload_karta (Some sample_status_definition)]) sample_kind = Ok karta ∧
    Ok (A:=gmap string value) ∅ = Ok obj ∧ recorded sample_written summary ∧
    oc_events sample_out = labels ++ status_events (default "" (GetAnnotations obj !! annotationStatus)) summary.
Proof.
  assert (E : oc_written sample_out = Some sample_written) by (vm_compute; reflexivity).
  destruct (proj2 (Reconcile_settles (λ _, sample_object_table "Active") sample_kind "ns/web"
    (Ok [sample_workload_karta (Some sample_status_definition)]) (Ok ∅) (λ _, None)) sample_written E)
    as (karta & obj & summary & labels & Hk & Ho & _ & Hr & He & _).
  exists karta, obj, summary, labels. split; [exact Hk|]. split; [exact Ho|]. split; [exact Hr|exact He].
Defined.
