(* ===== verification/ExampleQuickstart.v ===== *)
(** * ExampleQuickstart: one run of the SDK over a workload

    Models [docs/examples/quickstart/main.go]: reading status, replicas and
    requests from the tree of a workload, injecting a scheduler and a label into
    every pod template, and reading them back.  What is printed is kept as
    formats and arguments; files, YAML, quantities and the structs of Kubernetes
    are parameters. *)

From S2P Require Import Prelude Api JqValidate Validator Value Runner Accessor Component Literal Summary Tree.

Definition line := (string * list arg)%type.

Section quickstart.
Context `{K8s}.

(** ** The walk *)

Fixpoint visit_node (node : ComponentNode) : list (ComponentNode * InstanceNode) :=
  match node with
  | MkComponentNode _ _ _ instances => concat (visit_instance node <$> instances)
  end
with visit_instance (comp : ComponentNode) (inst : InstanceNode) : list (ComponentNode * InstanceNode) :=
  match inst with
  | MkInstanceNode _ _ _ _ children => (comp, inst) :: concat (visit_node <$> children)
  end.

(** What the function is called with, in order *)
Definition eachComponent (nodes : list ComponentNode) : list (ComponentNode * InstanceNode) := concat (visit_node <$> nodes).

(** The parts of a pod template that are read and written *)
Class TemplateView := {
  Quantity : Type;
  quantity_zero : Quantity;
  quantity_IsZero : Quantity → bool;
  quantity_String : Quantity → string;
  requests_Cpu : gmap string Quantity → option Quantity;
  requests_Memory : gmap string Quantity → option Quantity;
  view_Containers : PodTemplateSpec → list (string * gmap string Quantity * gmap string Quantity);
  view_SchedulerName : PodTemplateSpec → string;
  view_SetSchedulerName : string → PodTemplateSpec → PodTemplateSpec;
  view_Labels : PodTemplateSpec → string_map;
  view_SetLabels : gmap string string → PodTemplateSpec → PodTemplateSpec;
}.
Class TemplateViewLaws `{TemplateView} : Prop := {
  view_Labels_SetLabels m p : view_Labels (view_SetLabels m p) = Some m;
  view_SchedulerName_SetLabels m p : view_SchedulerName (view_SetLabels m p) = view_SchedulerName p;
  view_SchedulerName_Set s p : view_SchedulerName (view_SetSchedulerName s p) = s;
  view_Labels_SetSchedulerName s p : view_Labels (view_SetSchedulerName s p) = view_Labels p;
}.
Context `{TemplateView}.

(** ** Printing *)

Definition formatQuantity (q : option Quantity) : string :=
  match q with
  | None => "<none>"
  | Some q => if quantity_IsZero q then "<none>" else quantity_String q
  end.

Definition gpuResource : string := "nvidia.com/gpu".

(** The label of an instance: the name with its key *)
Definition instance_label (name : string) (key : option string) : string :=
  match key with Some key => name +:+ "[" +:+ key +:+ "]" | None => name end.

Definition status_line (wt : WorkloadTree) : line :=
  ("  Karta workload status: %s\n\n",
   match wt_Status wt with Some st => [AStrs (ws_Phases st)] | None => [AStr "<none>"] end).

Definition replica_line (visit : ComponentNode * InstanceNode) : option line :=
  match visit with
  | (MkComponentNode name _ hasPodDefinition _, MkInstanceNode key _ scale _ _) =>
      let label := instance_label name key in
      let label := if hasPodDefinition then label else label +:+ " (virtual)" in
      replicas ← scale ≫= scale_Replicas;
      Some ("  %-28s replicas=%d\n", [AStr label; AInt replicas])
  end.

Definition container_line (label : string) (c : string * gmap string Quantity * gmap string Quantity) : line :=
  let '(name, req, lim) := c in
  let gpu := default quantity_zero (req !! gpuResource) in
  let gpu := if quantity_IsZero gpu then default quantity_zero (lim !! gpuResource) else gpu in
  ("  %-28s container=%-12s cpu=%-8s memory=%-10s gpu=%s\n",
   [AStr label; AStr name; AStr (formatQuantity (requests_Cpu req)); AStr (formatQuantity (requests_Memory req)); AStr (formatQuantity (Some gpu))]).

Definition resource_lines (visit : ComponentNode * InstanceNode) : list line :=
  match visit with
  | (MkComponentNode name _ hasPodDefinition _, MkInstanceNode key _ _ extracted _) =>
      if hasPodDefinition then
        match extracted ≫= ei_PodTemplateSpec with
        | Some template => container_line (instance_label name key) <$> view_Containers template
        | None => []
        end
      else []
  end.

(** ** Injection *)

Context {S : Type} `{!ComponentAccessor S}.

Definition inject (scheduler : string) (pts : PodTemplateSpec) : PodTemplateSpec :=
  let pts := view_SetSchedulerName scheduler pts in
  view_SetLabels (<["app.kubernetes.io/managed-by" := "karta"]> (default ∅ (view_Labels pts))) pts.

Definition inject_component (scheduler : string) (comp : Component) : M S (list line) :=
  if negb (HasPodDefinition comp) then mret []
  else
    podTemplateSpecs ← wrap (λ err, Errorf "get pod template spec for %s: %w" [AStr (comp_name comp)] [err]) (GetPodTemplateSpec comp);
    let updates := inject scheduler <$> default ∅ podTemplateSpecs in
    _ ← wrap (λ err, Errorf "update pod template spec for %s: %w" [AStr (comp_name comp)] [err])
          (component_UpdatePodTemplateSpec comp updates);
    mret [("  Injected into %q (%d %s)\n",
           [AStr (comp_name comp); ANat (size updates); AStr (if bool_decide (size updates = 1) then "instance" else "instances")])].

Definition verify_component (comp : Component) : M S (list line) :=
  if negb (HasPodDefinition comp) then mret []
  else
    podTemplateSpecs ← wrap (λ err, Errorf "read back pod template spec for %s: %w" [AStr (comp_name comp)] [err]) (GetPodTemplateSpec comp);
    mret ((λ '(id, pts),
      ("  %-28s schedulerName=%-20q managed-by=%q\n",
       [AStr (if bool_decide (id ≠ "") then comp_name comp +:+ "[" +:+ id +:+ "]" else comp_name comp);
        AStr (view_SchedulerName pts); AStr (default "" (default ∅ (view_Labels pts) !! "app.kubernetes.io/managed-by"))])) <$>
      map_to_list (default ∅ podTemplateSpecs)).

(** [for _, comp := range children { ... }] with what is printed *)
Fixpoint for_each (f : Component → M S (list line)) (components : list Component) : M S (list line) :=
  match components with
  | [] => mret []
  | comp :: components =>
      printed ← f comp;
      rest ← for_each f components;
      mret (printed ++ rest)
  end.

(** ** A run *)

Record opts := MkOpts { op_scheduler : string; op_printMutated : bool }.
Record workloadExample := MkExample { ex_name : string; ex_kartaPath : string; ex_workloadYAML : string }.

Context `{UnstructuredReader} (ReadFile : string → result string).
Context (Unmarshal_Karta : string → result Karta) (Unmarshal_object : string → result (option (gmap string value))).
Context (Marshal : gmap string value → result string) (of_object : option (gmap string value) → S).
Context (Parse : string → result aval) (meta status : list rfield).

Definition wrapping {A} (fmt : string) (args : list arg) (m : result A) : result A := map_error (λ err, Errorf fmt args [err]) m.

(** Reading and writing through the factory, with what is printed *)
Definition operate (ex : workloadExample) (o : opts) (factory : ComponentFactory) : M S (list line) :=
  wt ← wrap (λ err, Errorf "build workload tree: %w" [] [err]) (Build factory Parse meta status);
  let visits := eachComponent (wt_Children wt) in
  children ← lift (wrapping "get child components: %w" [] (GetChildComponents factory));
  injected ← for_each (inject_component (op_scheduler o)) children;
  verified ← for_each verify_component children;
  updated ← wrap (λ err, Errorf "get updated resource: %w" [] [err]) GetResource;
  mutated ← (if op_printMutated o
             then out ← lift (wrapping "marshal mutated %s: %w" [AStr (ex_name ex)] (Marshal updated));
                  mret [("\n=== Mutated %s YAML ===\n%s", [AStr (ex_name ex); AStr out])]
             else mret []);
  mret ([("=== Workload status ===\n", []); status_line wt; ("=== Component replica counts ===\n", [])] ++
        omap replica_line visits ++ [("\n", []); ("=== Resource requests per component ===\n", [])] ++
        (visits ≫= resource_lines) ++ [("\n", []); ("=== Injecting scheduler %q + label ===\n", [AStr (op_scheduler o)])] ++
        injected ++ [("\n", []); ("=== Verification ===\n", [])] ++ verified ++
        [("\n  → In a real controller: k8sClient.Update(ctx, updated)\n", [])] ++ mutated).

(** What a run that succeeds prints, and the error of one that does not. *)
Definition run (ex : workloadExample) (o : opts) : result (list line) :=
  kartaYAML ← wrapping "read Karta definition %s: %w" [AStr (ex_kartaPath ex)] (ReadFile (ex_kartaPath ex));
  karta ← wrapping "parse Karta: %w" [] (Unmarshal_Karta kartaYAML);
  obj ← wrapping "parse workload: %w" [] (Unmarshal_object (ex_workloadYAML ex));
  Runner.run (operate ex o (NewComponentFactory karta)) (of_object obj).

(** The examples in order; the first that fails ends the program. *)
Definition main (examples : list workloadExample) (o : opts) : result (list (list line)) :=
  mapR (λ ex, wrapping "%s: %v" [AStr (ex_name ex)] (run ex o)) examples.
End quickstart.

(** ** Properties *)

(** Instances of a tree, counted through its nodes. *)
Fixpoint instances_below `{K8s} (node : ComponentNode) : nat :=
  match node with MkComponentNode _ _ _ instances => sum_list (instances_at <$> instances) end
with instances_at `{K8s} (inst : InstanceNode) : nat :=
  match inst with MkInstanceNode _ _ _ _ children => S (sum_list (instances_below <$> children)) end.

Section properties.
Context `{K8s}.

Fixpoint visit_node_length (node : ComponentNode) : length (visit_node node) = instances_below node.
Proof.
  destruct node as [name kind has instances]. cbn. generalize (MkComponentNode name kind has instances) as comp.
  intros comp. induction instances as [|[key replica scale extracted children] instances IH]; [done|].
  cbn. rewrite length_app, IH. f_equal. f_equal. clear IH.
  induction children as [|child children IHc]; [done|]. cbn. by rewrite length_app, IHc, visit_node_length.
Qed.

(** Every instance is visited once. *)
Theorem eachComponent_length nodes : length (eachComponent nodes) = sum_list (instances_below <$> nodes).
Proof.
  unfold eachComponent. induction nodes as [|node nodes IH]; [done|]. cbn. by rewrite length_app, IH, visit_node_length.
Qed.

(** An injected template has the scheduler and the label, and its other labels. *)
Theorem inject_spec `{!TemplateView} `{!TemplateViewLaws} scheduler pts :
  view_SchedulerName (inject scheduler pts) = scheduler ∧
  ∀ k, default ∅ (view_Labels (inject scheduler pts)) !! k =
    if bool_decide (k = "app.kubernetes.io/managed-by") then Some "karta" else default ∅ (view_Labels pts) !! k.
Proof.
  unfold inject. split; [by rewrite view_SchedulerName_SetLabels, view_SchedulerName_Set|].
  intros k. rewrite view_Labels_SetLabels, view_Labels_SetSchedulerName. cbn [default from_option].
  case_bool_decide as E; [by subst; apply lookup_insert_eq|]. by apply lookup_insert_ne.
Qed.
End properties.
